(* ===== verification/_CoqProject ===== *)
-Q . S2P
Prelude.v
Text.v
LineText.v
AdminJson.v
HopFrame.v
FdBudget.v
HeaderPolicy.v
EdgeHeaders.v
Stream.v
WorkerParser.v
JobQueue.v
WorkerRuby.v
WorkerFrame.v
WorkerServe.v
ClientRequest.v
WorkerWire.v
HttpHop.v
HopLimits.v
Fairness.v
FramePool.v
Dispatch.v
FrameClient.v
FrameSend.v
Parking.v
PoolHandover.v
HttpClient.v
HttpPool.v
IpText.v
Identity.v
AcmeState.v
AcmeCrash.v
Service.v
Supervisor.v
EdgeCli.v
ServiceConf.v
FsChecks.v
CoreConf.v
HyperEdge.v
RubyHandler.v
RubySupervision.v
RubyProxy.v
Embedded.v
EdgeConf.v
Telemetry.v
Proxy.v
ProxyLife.v
ProxyRequest.v
AcmeChallenge.v
ServiceBoot.v
WorkerBoot.v
WorkerStart.v
StreamQueue.v
WorkerHelper.v
HopTiming.v
HopReport.v
Reaper.v
Scratch.v
CertPair.v
EdgeBoot.v
