(* ===== verification/Prelude.v ===== *)
(** * A verification of the oxo application server

    oxo serves Ruby applications.  A supervisor process ([service.rs]) starts an edge and
    several workers and keeps them running.  The edge accepts clients over HTTP/1.1, HTTP/2
    and TLS, checks and admits each request, and forwards it over a Unix socket to one of the
    workers, either as HTTP/1.1 or as binary frames on pooled connections.  A worker parses
    the request, puts it on a bounded queue, has a Ruby thread answer it and writes the
    response back.  Certificates are obtained and renewed by an ACME client that shares a
    directory with the supervisor, which reloads the edge when they change.

    Beside this path the repository has a smaller one: the binary [oxo] runs a Hyper edge
    ([oxo-edge]) whose handler is either a supervised Ruby process reached over loopback TCP,
    restarted when it dies, or Ruby inside the process itself ([oxo-embedded]).

    This library translates the parts of the Rust sources that decide something into
    functions and step relations, and proves what makes them correct.  Paths below are under
    [crates/]; [edge] abbreviates [oxo-pingora-edge/src].

    ** How the code is rendered

    - A pure function is a Rocq function of the same name; [Result] is [result] with [?] as
      [let? x := c in k]; a 64- or 32-bit integer is a [Z] with the source's saturating,
      wrapping or checked arithmetic written out ([Prelude]); text is a list of bytes with
      UTF-8 validity where the type guarantees it ([Text]).
    - What the application answers is a function of the request it is given ([WorkerRuby]), so a
      session of the frame loop ties every answer to its own request.
    - Blocking reads and writes ([Stream], [FrameClient]) are functions of the list of
      outcomes the operating system delivers, so every splitting of the data and every
      failure point is covered by quantifying over the list.
    - Shared memory is a step relation whose steps are the single atomic accesses of the code
      ([Fairness], [Parking], [HopTiming]) or whole critical sections where a mutex is held
      ([JobQueue], [FramePool], [Scratch], the pin store of [Dispatch]); the two threads of a
      streamed body and the reaper of idle connections are step relations too ([StreamQueue],
      [Reaper]).
    - The file system of the ACME state is a map of files on which each call succeeds, fails
      or is the point of a crash ([AcmeState]).
    - Code outside the repository is a parameter with named laws: the HTTP library's header
      map ([HttpHop.HeaderLaws], [ProxyRequest.RequestLaws], [HyperEdge.HeaderRulesLaws]), JSON, PEM and X.509 ([AcmeState], [EdgeConf], [CertPair]), the Rack application and
      the string conversions of the Ruby bindings ([WorkerRuby], [WorkerHelper]), the static
      server and its mount parser ([EdgeConf], [EdgeBoot]), the arena ([Scratch]).  Environment
      variables, metadata of paths and resource limits are function arguments.

    ** Files, and the source each one models

    Foundations: [Prelude] (results, machine integers, lists, tactics), [Text] (bytes, UTF-8,
    splitting, trimming, numbers), [LineText] (lossy decoding, lines and words), [AdminJson]
    (the JSON objects of the admin endpoint, written and read back), [Stream] (sockets),
    [IpText] ([std::net] addresses).

    The worker hop: [HopFrame] ([oxo-core/src/hop_frame.rs], the binary codec), [HeaderPolicy]
    (the header predicates of [oxo-core/src/lib.rs]), [EdgeHeaders] (sanitizers of
    [edge/lib.rs], frame assembly of [platform/frame_hop.rs]), [WorkerWire] (HTTP/1.1 request
    builder and response parser of [platform/worker_wire.rs]), [HttpHop] and [HopLimits] (the
    two ends composed), [HttpClient] (the socket side of the HTTP hop: reads, the buffered and
    the chunked relay, failover) and [HttpPool] (the same over a pool of workers: at most one
    sees the request, and no worker can keep a call reading for ever).

    The edge: [ClientRequest] (request validators of [platform/worker_wire.rs]), [Identity]
    (client identity of [edge/lib.rs] and [platform/proxy.rs]), [Fairness]
    ([platform/fairness.rs]), [FramePool] ([platform/frame_pool.rs]), [Dispatch], [FrameClient],
    [FrameSend], [Parking], [PoolHandover] ([platform/frame_hop.rs]: worker choice, one exchange,
    failover and retry, waiting for a slot, a pooled connection between its watcher and its next
    request, with a probe that sees what the reactor has noticed), [Reaper] (the one task that can watch all idle connections), [FdBudget] ([fd_budget.rs]), [EdgeCli] (the command line of
    [edge/lib.rs]), [EdgeConf] ([platform/config.rs]), [FsChecks] ([platform/fs_validate.rs]),
    [Telemetry] ([platform/telemetry.rs]: counters, the request log and the admin endpoint),
    [HopTiming] and [HopReport] (the timing probes of [edge/lib.rs] and their report), [Scratch]
    ([platform/scratch.rs]), [EdgeBoot] (the dry run, [run_edge] and [platform/drain.rs]),
    [Proxy], [ProxyLife] and [ProxyRequest] ([platform/proxy.rs]: the static pins, admission and
    [request_filter], the callbacks of a request's life, and what is sent upstream).

    The worker ([oxo-worker/src/native]): [WorkerParser] ([parser.rs]), [JobQueue] and
    [WorkerServe] ([serve.rs], [config.rs]), [WorkerStart] (start and stop of the process, its
    socket), [WorkerRuby] ([ruby.rs]: the calls into Ruby), [WorkerHelper] (the Ruby helper
    [ruby.rs] carries as text: environment, headers, bodies), [StreamQueue] (a streamed body
    between its two threads), [WorkerFrame] ([frame.rs]).

    Certificates and supervision: [AcmeState], [AcmeCrash] ([acme/state.rs], issuance and
    renewal of [acme/issue.rs]), [AcmeChallenge] ([acme/challenge.rs] and the issuing
    configuration), [CertPair] (the checks of an issued pair against those of the edge), [Service] (environment policy), [ServiceConf] (settings and drain windows),
    [ServiceBoot] (the whole configuration, the children's commands and the renewal settings),
    [WorkerBoot] (starting the workers and waiting for them, the edge and the sidecars) and
    [Supervisor] (the order of the boot, monitoring, reload, drain), all of [service.rs].  The
    children are part of the supervisor's state: a child stops running only because it was
    reaped or killed, one whose handle is dropped while it runs is counted as a stray, and an
    edge keeps the certificate pair it loaded when it was spawned.

    The Hyper edge: [CoreConf] (configuration, responses and the handler trait of
    [oxo-core/src/lib.rs]), [HyperEdge] ([oxo-edge/src/lib.rs]), [RubyHandler] (the model of
    [oxo-edge/src/supervised.rs]) with its properties in [RubySupervision] and [RubyProxy], and
    [Embedded] ([oxo-embedded/src/imp.rs] and [oxo/src/main.rs]).

    ** What the theorems show

    - Codec and parsers: frames and command lines round-trip, decoders accept exactly the
      specified layout, each end of the HTTP hop understands the other, the allocation-free
      header path equals the owned one, parsers reject what must not reach the application.
    - Concurrency: admission limits hold under every interleaving, no job and no wake-up of
      the queue is lost, parked requests with one mask are not stranded, the pool is a
      bounded list, and a pooled connection is used by one request at a time, never while its
      watcher can still read it; a streamed body is sent as if it were read in sequence, under
      every schedule of its two threads; the reaper accounts for every connection; the timing
      ledgers add up; scratch buffers carry nothing from one request to the next.
    - End to end: what the worker answers reaches the client, every exchange ends, a request
      that may have been executed is not sent twice, frame sessions are served in order; the
      application's environment is the request the worker parsed and nothing forged, and both
      forms of a repeated response header reach the wire; a worker that is started is taken for
      ready by the supervisor that started it.
    - Identity and exposure: a client cannot choose the address it is accounted to; an
      accepted configuration with a public listener has TLS, a matching certificate and
      limits, and every limit can be enforced; the dry run predicts the boot but for the state
      of the machine, and the public socket is opened last; issuing needs consent.
    - Certificates: at every crash point either pair can still be recovered, rollback undoes
      any rotation (a clock that steps back excepted), the marker is consumed only when the new pair is served; a pair that is
      accepted can be served.
    - Supervision: when the runner ends no child is left (with the one exception found), the
      drain stops the public side first and keeps its windows, the edge is told what was
      resolved, setting by setting; an accepted configuration runs its children on private sockets
      and loopback sidecars, from the siblings of its own executable unless overrides are
      allowed (an asynchronous worker's launcher is named by the environment); the worker pool comes up whole or not at all and its boot is always
      decided; renewals work on the pair the edge serves.
    - The proxy: every request settles exactly once whatever its callbacks meet and in whatever
      order, the totals of the telemetry add up, the worker gets the validated request, and the
      admin endpoint's answers read back as the counters.
    - The Hyper edge: one worker process at a time under any sequence of deaths, restarts and
      failed starts, an exact crash-loop window, the worker's secret and no forged one on every
      request, a decision within three attempts, temporary files accounted for, a connection
      cap under every interleaving, and a Rack environment that is the client's request.
    - Some theorems state where the code departs from its documentation.

    ** Fuel

    Recursion that is not structural takes fuel that its caller computes from the input: the
    length of the input for trimming, splitting and lossy decoding, the number of read
    outcomes plus one for read loops, 20 digits for a 64-bit number, 4 for a 16-bit group.
    Lemmas show that it suffices ([strip_many_done], [parse_show_uint], the termination
    theorem of [FrameClient]).  The wait for a worker's port takes 201 tries of 50 milliseconds
    for its ten seconds ([wait_until_connectable_ends]); the waits of the service runner end
    within the polls of 25 milliseconds that fit their windows ([pool_boot_is_decided]).  Loops that have no end of their own
    (the supervisors, the accept loop) run over a list of the events they meet; a list that
    runs out is a value of its own, never a result.

    ** Not modelled

    The HTTP, TLS and ACME libraries, the Ruby VM and its bindings (the release of its global
    lock, the park of the main thread), signals and systemd messages of the service runner, the
    texts of error messages beyond what other code reads back, log output, the build script, the
    [edge-bench] diagnostics, and the Ruby script of the supervised worker.  Of the bodies
    Rack may give, those that never end are not covered by [StreamQueue], whose body is a finite
    list of parts. *)

From Stdlib Require Export ZArith Lia ZifyBool ZifyNat.
From stdpp Require Export base list gmap strings countable.

#[global] Open Scope Z_scope.
#[global] Set Default Goal Selector "!".

(** ** Results

    Rust's [Result<T, E>], with [?] rendered as the notation [let? x := c in k]. *)

Inductive result (E A : Type) : Type :=
| Ok (a : A)
| Err (e : E).
Arguments Ok {E A} a.
Arguments Err {E A} e.

Declare Scope oxo_scope.
Delimit Scope oxo_scope with oxo.
#[global] Open Scope oxo_scope.

Definition rbind {E A B} (c : result E A) (k : A -> result E B) : result E B :=
  match c with Ok a => k a | Err e => Err e end.

Notation "'let?' x ':=' c 'in' k" := (rbind c (fun x => k))
  (at level 10, x pattern, c at level 200, k at level 200) : oxo_scope.
(** [Option::ok_or] and [Result::map_err]. *)
Definition ok_or {E A} (o : option A) (e : E) : result E A :=
  match o with Some a => Ok a | None => Err e end.
Definition map_err {E F A} (f : E -> F) (r : result E A) : result F A :=
  match r with Ok a => Ok a | Err e => Err (f e) end.
(** [Option::unwrap_or]. *)
Definition unwrap_or {A} (d : A) (o : option A) : A :=
  match o with Some a => a | None => d end.
Definition is_ok {E A} (r : result E A) : bool :=
  match r with Ok _ => true | Err _ => false end.

#[global] Instance result_eq_dec {E A} `{EqDecision E, EqDecision A} : EqDecision (result E A).
Proof. solve_decision. Defined.

Lemma rbind_ok {E A B} (c : result E A) (k : A -> result E B) b :
  rbind c k = Ok b <-> exists a, c = Ok a /\ k a = Ok b.
Proof. destruct c; simpl; naive_solver. Qed.

Lemma rbind_err {E A B} (c : result E A) (k : A -> result E B) e :
  rbind c k = Err e <-> c = Err e \/ exists a, c = Ok a /\ k a = Err e.
Proof. destruct c; simpl; naive_solver. Qed.

Lemma Ok_inj {E A} (a b : A) : @Ok E A a = Ok b -> a = b.
Proof. congruence. Qed.

Lemma ok_or_ok {E A} (o : option A) (e : E) a : ok_or o e = Ok a <-> o = Some a.
Proof. destruct o; simpl; naive_solver. Qed.

Lemma map_err_ok {E F A} (f : E -> F) (r : result E A) a :
  map_err f r = Ok a <-> r = Ok a.
Proof. destruct r; simpl; naive_solver. Qed.

Lemma map_err_err {E F A} (f : E -> F) (r : result E A) g :
  map_err f r = Err g <-> exists e, r = Err e /\ f e = g.
Proof. destruct r; simpl; naive_solver. Qed.

(** ** Machine integers

    An unsigned machine integer is a [Z] in its range; [usize] is 64 bits wide on
    the program's targets. *)

Definition u8_max : Z := 255.
Definition u16_max : Z := 65535.
Definition u32_max : Z := 4294967295.
Definition u64_max : Z := 18446744073709551615.

Definition is_u8 (z : Z) : Prop := 0 <= z <= u8_max.
Definition is_u16 (z : Z) : Prop := 0 <= z <= u16_max.
Definition is_u32 (z : Z) : Prop := 0 <= z <= u32_max.
Definition is_u64 (z : Z) : Prop := 0 <= z <= u64_max.

(** [uN::try_from] of a [usize], [checked_add], [saturating_*]. *)
Definition try_from_u16 (z : Z) : option Z := if z <=? u16_max then Some z else None.
Definition try_from_u32 (z : Z) : option Z := if z <=? u32_max then Some z else None.
Definition checked_add (max a b : Z) : option Z :=
  if a + b <=? max then Some (a + b) else None.
Definition saturating_add (a b : Z) : Z := Z.min (a + b) u64_max.
Definition saturating_mul (a b : Z) : Z := Z.min (a * b) u64_max.
Definition saturating_sub (a b : Z) : Z := Z.max (a - b) 0.

Lemma saturating_add_spec a b :
  (a + b <= u64_max /\ saturating_add a b = a + b) \/
  (u64_max < a + b /\ saturating_add a b = u64_max).
Proof. unfold saturating_add. generalize u64_max as m. lia. Qed.
Lemma saturating_mul_spec a b :
  (a * b <= u64_max /\ saturating_mul a b = a * b) \/
  (u64_max < a * b /\ saturating_mul a b = u64_max).
Proof. unfold saturating_mul. generalize u64_max as m, (a * b) as c. lia. Qed.
Lemma saturating_sub_spec a b :
  (b <= a /\ saturating_sub a b = a - b) \/ (a < b /\ saturating_sub a b = 0).
Proof. unfold saturating_sub. lia. Qed.

(** Replace every saturating operation in sight by a fresh variable with its
    specification, and unfold the machine ranges. *)
Ltac sat_one a b op spec :=
  let s := fresh "s" in
  pose proof (spec a b); generalize dependent (op a b); intros s **.
Ltac sat_specs :=
  repeat match goal with
  | |- context [saturating_add ?a ?b] => sat_one a b saturating_add saturating_add_spec
  | H : context [saturating_add ?a ?b] |- _ => sat_one a b saturating_add saturating_add_spec
  | |- context [saturating_mul ?a ?b] => sat_one a b saturating_mul saturating_mul_spec
  | H : context [saturating_mul ?a ?b] |- _ => sat_one a b saturating_mul saturating_mul_spec
  | |- context [saturating_sub ?a ?b] => sat_one a b saturating_sub saturating_sub_spec
  | H : context [saturating_sub ?a ?b] |- _ => sat_one a b saturating_sub saturating_sub_spec
  end.
Ltac unfold_ints :=
  unfold is_u8, is_u16, is_u32, is_u64, u8_max, u16_max, u32_max, u64_max in *.
Ltac int_lia := sat_specs; unfold_ints; lia.

(** Length of a list as an integer, Rust's [len()]. *)
Definition zlen {A} (l : list A) : Z := Z.of_nat (length l).

Lemma zlen_nonneg {A} (l : list A) : 0 <= zlen l.
Proof. unfold zlen. lia. Qed.
Lemma zlen_nil {A} : zlen (@nil A) = 0.
Proof. reflexivity. Qed.
Lemma zlen_cons {A} (x : A) l : zlen (x :: l) = 1 + zlen l.
Proof. unfold zlen. simpl. lia. Qed.
Lemma zlen_app {A} (l k : list A) : zlen (l ++ k) = zlen l + zlen k.
Proof. unfold zlen. rewrite length_app. lia. Qed.
#[global] Hint Resolve zlen_nonneg : core.

(** ** Automation

    [inv_result] turns a successful chain of [?] operators in the hypotheses into the
    successes of its steps; [cases_if] splits the first boolean guard in sight. *)

Ltac cases_if :=
  match goal with
  | |- context [ if ?b then _ else _ ] => destruct b eqn:?
  | H : context [ if ?b then _ else _ ] |- _ => destruct b eqn:?
  end.

Ltac inv_result :=
  repeat match goal with
  | H : Ok _ = Ok _ |- _ => injection H as H; subst
  | H : Err _ = Err _ |- _ => injection H as H; subst
  | H : Ok _ = Err _ |- _ => discriminate H
  | H : Err _ = Ok _ |- _ => discriminate H
  | H : rbind _ _ = Ok _ |- _ =>
      apply rbind_ok in H; let a := fresh "a" in let Ha := fresh "Ha" in
      destruct H as (a & Ha & H)
  | H : ok_or _ _ = Ok _ |- _ => apply ok_or_ok in H
  | H : map_err _ _ = Ok _ |- _ => apply map_err_ok in H
  | H : (if ?b then Ok _ else Err _) = Ok _ |- _ => destruct b eqn:?; [|discriminate H]
  | H : (if ?b then Err _ else _) = Ok _ |- _ => destruct b eqn:?; [discriminate H|]
  | H : (if ?b then _ else Err _) = Ok _ |- _ => destruct b eqn:?; [|discriminate H]
  | H : (let '(_, _) := ?x in _) = Ok _ |- _ => destruct x eqn:?
  end.

Lemma try_from_u16_some z w : try_from_u16 z = Some w <-> z <= u16_max /\ w = z.
Proof. unfold try_from_u16. cases_if; split; intros; simplify_eq; int_lia || naive_solver int_lia. Qed.
Lemma try_from_u32_some z w : try_from_u32 z = Some w <-> z <= u32_max /\ w = z.
Proof. unfold try_from_u32. cases_if; split; intros; simplify_eq; int_lia || naive_solver int_lia. Qed.
Lemma checked_add_some m a b c : checked_add m a b = Some c <-> a + b <= m /\ c = a + b.
Proof. unfold checked_add. cases_if; split; intros; simplify_eq; lia || naive_solver lia. Qed.

(** ** Lists: facts shared by the components *)

Lemma take_app_exact {A} (l k : list A) : take (length l) (l ++ k) = l.
Proof. rewrite take_app_length. reflexivity. Qed.
Lemma drop_app_exact {A} (l k : list A) : drop (length l) (l ++ k) = k.
Proof. rewrite drop_app_length. reflexivity. Qed.
Lemma existsb_map {A B} (f : B -> bool) (g : A -> B) l :
  existsb f (map g l) = existsb (fun x => f (g x)) l.
Proof. induction l as [|x l IH]; simpl; [reflexivity | rewrite IH; reflexivity]. Qed.
Lemma existsb_false {A} (f : A -> bool) l :
  existsb f l = false <-> forall x, In x l -> f x = false.
Proof.
  rewrite <- not_true_iff_false, existsb_exists. split.
  - intros H x Hx. apply not_true_iff_false. eauto.
  - intros H (x & Hx & E). rewrite (H x Hx) in E. discriminate.
Qed.
