(* ===== verification/Text.v ===== *)
(** * Text: bytes and strings

    Rust's [u8], [[u8]] and [str] as the components use them.  A byte is an element
    of [Init.Byte.byte]; a [Vec<u8>] or [&[u8]] is a [list byte]; a [String] or [&str]
    is the list of its bytes, with the UTF-8 validity that the type guarantees in Rust
    stated by [utf8] where a component relies on it.  The functions below are the parts
    of Rust's standard library the program calls: ASCII classification and case
    mapping, prefix and substring tests, [split], [split_once], [rsplit_once], [trim],
    [trim_matches], [parse::<uN>], [to_string] on integers, [from_utf8] and the
    little-endian conversions. *)

From coqutil Require Export Byte.
From coqutil Require Import Word.LittleEndianList.
From S2P Require Import Prelude.

Abbreviation bytes := (list byte).

(** ** Bytes *)

Definition bz (b : byte) : Z := byte.unsigned b.
Definition zb (z : Z) : byte := byte.of_Z z.

#[global] Instance byte_eq_dec : EqDecision byte.
Proof.
  intros a b. destruct (Byte.eqb a b) eqn:E.
  - left. apply Byte.byte_dec_bl, E.
  - right. intros ->. rewrite Byte.byte_dec_lb in E; [discriminate | reflexivity].
Defined.

Lemma byte_of_to_N b : Byte.of_N (Byte.to_N b) = Some b.
Proof. apply Byte.of_to_N. Qed.

#[global] Instance byte_countable : Countable byte :=
  inj_countable Byte.to_N Byte.of_N byte_of_to_N.

Lemma bz_range b : 0 <= bz b <= 255.
Proof. unfold bz. pose proof (byte.unsigned_range b). lia. Qed.
Lemma bz_zb z : 0 <= z <= 255 -> bz (zb z) = z.
Proof.
  intros. unfold bz, zb. rewrite byte.unsigned_of_Z. unfold byte.wrap.
  apply Z.mod_small. lia.
Qed.
Lemma zb_bz b : zb (bz b) = b.
Proof. apply byte.of_Z_unsigned. Qed.
Lemma bz_inj a b : bz a = bz b -> a = b.
Proof. apply byte.unsigned_inj. Qed.

(** The bytes of a string literal. *)
Definition bs (s : string) : bytes := String.list_byte_of_string s.

(** ** ASCII *)

Definition in_range (lo hi : Z) (b : byte) : bool := (lo <=? bz b) && (bz b <=? hi).

Definition is_ascii_digit : byte -> bool := in_range 48 57.
Definition is_ascii_upper : byte -> bool := in_range 65 90.
Definition is_ascii_lower : byte -> bool := in_range 97 122.
Definition is_ascii_alphabetic (b : byte) : bool := is_ascii_upper b || is_ascii_lower b.
Definition is_ascii_alphanumeric (b : byte) : bool := is_ascii_alphabetic b || is_ascii_digit b.
(** ASCII control characters: below [0x20], or DEL. *)
Definition is_ctl (b : byte) : bool := (bz b <? 32) || (bz b =? 127).

Definition lower_byte (b : byte) : byte := if is_ascii_upper b then zb (bz b + 32) else b.
Definition to_ascii_lowercase (s : bytes) : bytes := map lower_byte s.

Definition eq_bytes (s t : bytes) : bool := bool_decide (s = t).
(** [str::eq_ignore_ascii_case] *)
Definition eq_ignore_case (s t : bytes) : bool :=
  eq_bytes (to_ascii_lowercase s) (to_ascii_lowercase t).
(** [matches!(s, "a" | "b" | ...)] *)
Definition one_of (s : bytes) (names : list string) : bool :=
  existsb (fun n => eq_bytes s (bs n)) names.

(** ** Prefixes and substrings *)

Fixpoint starts_with (p s : bytes) : bool :=
  match p, s with
  | [], _ => true
  | x :: p', y :: s' => bool_decide (x = y) && starts_with p' s'
  | _ :: _, [] => false
  end.
Definition ends_with (p s : bytes) : bool := starts_with (rev p) (rev s).
Definition contains_byte (c : byte) (s : bytes) : bool :=
  existsb (fun b => bool_decide (b = c)) s.
Fixpoint contains_sub (p s : bytes) : bool :=
  starts_with p s || match s with [] => false | _ :: s' => contains_sub p s' end.

(** ** Splitting *)

Fixpoint split_once (c : byte) (s : bytes) : option (bytes * bytes) :=
  match s with
  | [] => None
  | x :: s' =>
      if decide (x = c) then Some ([], s')
      else match split_once c s' with
           | Some (l, r) => Some (x :: l, r)
           | None => None
           end
  end.

Definition rsplit_once (c : byte) (s : bytes) : option (bytes * bytes) :=
  match split_once c (rev s) with
  | Some (l, r) => Some (rev r, rev l)
  | None => None
  end.

(** [str::split] on a one-byte separator: at least one piece, possibly empty. *)
Fixpoint split_byte (c : byte) (s : bytes) : list bytes :=
  match s with
  | [] => [ [] ]
  | x :: s' =>
      if decide (x = c) then [] :: split_byte c s'
      else match split_byte c s' with
           | p :: ps => (x :: p) :: ps
           | [] => [ [x] ]
           end
  end.

(** [str::split("\r\n")]. *)
Fixpoint split_crlf (s : bytes) : list bytes :=
  match s with
  | [] => [ [] ]
  | x :: s' =>
      match s' with
      | y :: s'' =>
          if decide (bz x = 13 /\ bz y = 10) then [] :: split_crlf s''
          else match split_crlf s' with
               | p :: ps => (x :: p) :: ps
               | [] => [ [x] ]
               end
      | [] => [ [x] ]
      end
  end.

(** ** Trimming *)

Fixpoint trim_start_by (f : byte -> bool) (s : bytes) : bytes :=
  match s with
  | b :: s' => if f b then trim_start_by f s' else s
  | [] => []
  end.
Definition trim_end_by (f : byte -> bool) (s : bytes) : bytes := rev (trim_start_by f (rev s)).
(** [str::trim_matches] for a set of ASCII characters. *)
Definition trim_by (f : byte -> bool) (s : bytes) : bytes := trim_end_by f (trim_start_by f s).
Definition is_sp_or_tab (b : byte) : bool := (bz b =? 32) || (bz b =? 9).

(** The UTF-8 encodings of the code points with the Unicode property [White_Space],
    which is what [str::trim] removes. *)
Definition white_space : list (list Z) :=
  [[9]; [10]; [11]; [12]; [13]; [32]; [194;133]; [194;160]; [225;154;128];
   [226;128;128]; [226;128;129]; [226;128;130]; [226;128;131]; [226;128;132];
   [226;128;133]; [226;128;134]; [226;128;135]; [226;128;136]; [226;128;137];
   [226;128;138]; [226;128;168]; [226;128;169]; [226;128;175]; [226;129;159];
   [227;128;128]].

Definition strip_one (pats : list bytes) (s : bytes) : option bytes :=
  match find (fun p => starts_with p s) pats with
  | Some p => Some (drop (length p) s)
  | None => None
  end.
Fixpoint strip_many (fuel : nat) (pats : list bytes) (s : bytes) : bytes :=
  match fuel with
  | O => s
  | S n => match strip_one pats s with Some s' => strip_many n pats s' | None => s end
  end.
Definition ws_fwd : list bytes := map (map zb) white_space.
Definition ws_bwd : list bytes := map (fun p => rev (map zb p)) white_space.
(** [str::trim_start], [str::trim_end] and [str::trim]. *)
Definition trim_start (s : bytes) : bytes := strip_many (length s) ws_fwd s.
Definition trim_end (s : bytes) : bytes := rev (strip_many (length s) ws_bwd (rev s)).
Definition trim (s : bytes) : bytes := trim_end (trim_start s).

(** ** Numbers *)

Fixpoint parse_digits (max acc : Z) (s : bytes) : option Z :=
  match s with
  | [] => Some acc
  | b :: s' =>
      if is_ascii_digit b then
        let n := acc * 10 + (bz b - 48) in
        if n <=? max then parse_digits max n s' else None
      else None
  end.

(** [str::parse::<uN>()] with [N]'s largest value [max]: an optional leading [+],
    at least one digit, no other character, no overflow. *)
Definition parse_uint (max : Z) (s : bytes) : option Z :=
  match s with
  | [] => None
  | b :: s' =>
      if bz b =? 43 then match s' with [] => None | _ => parse_digits max 0 s' end
      else parse_digits max 0 s
  end.

Fixpoint show_fuel (fuel : nat) (n : Z) : bytes :=
  match fuel with
  | O => []
  | S k => if n <? 10 then [zb (48 + n)]
           else show_fuel k (n / 10) ++ [zb (48 + n mod 10)]
  end.
(** [to_string] of an unsigned integer of at most 64 bits: at most 20 digits. *)
Definition show_uint (n : Z) : bytes := show_fuel 20 n.

(** ** UTF-8: [std::str::from_utf8] *)

Definition is_cont : byte -> bool := in_range 128 191.

Fixpoint utf8 (s : bytes) : bool :=
  match s with
  | [] => true
  | b0 :: r0 =>
      if bz b0 <? 128 then utf8 r0
      else match r0 with
      | [] => false
      | b1 :: r1 =>
          if in_range 194 223 b0 then is_cont b1 && utf8 r1
          else match r1 with
          | [] => false
          | b2 :: r2 =>
              let lead3 :=
                if bz b0 =? 224 then in_range 160 191 b1
                else if bz b0 =? 237 then in_range 128 159 b1
                else in_range 225 239 b0 && is_cont b1 in
              if lead3 then is_cont b2 && utf8 r2
              else match r2 with
              | [] => false
              | b3 :: r3 =>
                  let lead4 :=
                    if bz b0 =? 240 then in_range 144 191 b1
                    else if bz b0 =? 244 then in_range 128 143 b1
                    else in_range 241 243 b0 && is_cont b1 in
                  lead4 && is_cont b2 && is_cont b3 && utf8 r3
              end
          end
      end
  end.

(** ** Little-endian integers: [to_le_bytes] and [from_le_bytes] *)

Definition to_le (n : nat) (z : Z) : bytes := LittleEndianList.le_split n z.
Definition from_le (s : bytes) : Z := LittleEndianList.le_combine s.

Arguments to_le : simpl never.
Arguments from_le : simpl never.
Arguments bz : simpl never.
Arguments zb : simpl never.
Arguments bs : simpl never.

(** ** Facts on bytes and text *)

Lemma length_to_le n z : length (to_le n z) = n.
Proof. apply LittleEndianList.length_le_split. Qed.

Lemma zlen_to_le n z : zlen (to_le n z) = Z.of_nat n.
Proof. unfold zlen. rewrite length_to_le. reflexivity. Qed.

Lemma from_to_le n z : 0 <= z < 2 ^ (Z.of_nat n * 8) -> from_le (to_le n z) = z.
Proof.
  intros. unfold from_le, to_le. rewrite LittleEndianList.le_combine_split.
  apply Z.mod_small. assumption.
Qed.

Lemma to_from_le n s : length s = n -> to_le n (from_le s) = s.
Proof. apply LittleEndianList.split_le_combine'. Qed.

Lemma from_le_range s : 0 <= from_le s < 2 ^ (8 * zlen s).
Proof. apply LittleEndianList.le_combine_bound. Qed.

Lemma eq_bytes_true s t : eq_bytes s t = true <-> s = t.
Proof. apply bool_decide_eq_true. Qed.

Create Rewrite HintDb oxo_len.
#[global] Hint Rewrite @zlen_app @zlen_cons @zlen_nil zlen_to_le : oxo_len.
Ltac len_lia := autorewrite with oxo_len in *; int_lia.

Lemma starts_with_take p s : starts_with p s = eq_bytes (take (length p) s) p.
Proof.
  revert s. induction p as [|x p IH]; intros [|y s]; simpl; try reflexivity.
  rewrite IH. unfold eq_bytes.
  destruct (bool_decide_reflect (x = y)) as [-> | Hne]; simpl.
  - apply bool_decide_ext. split; [intros ->; reflexivity | intros [= ->]; reflexivity].
  - symmetry. apply bool_decide_eq_false. congruence.
Qed.

(** ** Decimal text round trip *)

Lemma digit_byte n : 0 <= n <= 9 -> is_ascii_digit (zb (48 + n)) = true /\ bz (zb (48 + n)) = 48 + n.
Proof. intros. unfold is_ascii_digit, in_range. rewrite bz_zb by lia. lia. Qed.

Lemma parse_digits_show fuel n max t :
  0 <= n < 10 ^ Z.of_nat fuel -> n <= max ->
  parse_digits max 0 (show_fuel fuel n ++ t) = parse_digits max n t.
Proof.
  revert n t. induction fuel as [|fuel IH]; intros n t Hn Hm.
  - simpl in Hn. assert (n = 0) as -> by lia. reflexivity.
  - cbn [show_fuel]. destruct (Z.ltb_spec n 10).
    + cbn [app parse_digits]. destruct (digit_byte n) as [-> ->]; [lia|].
      replace (0 * 10 + (48 + n - 48)) with n by lia. rewrite (proj2 (Z.leb_le _ _)) by lia. reflexivity.
    + rewrite Nat2Z.inj_succ, Z.pow_succ_r in Hn by lia.
      pose proof (Z.div_mod n 10). pose proof (Z.mod_pos_bound n 10).
      rewrite <- app_assoc, IH; [| |lia].
      * cbn [app parse_digits]. destruct (digit_byte (n mod 10)) as [-> ->]; [lia|].
        replace (n / 10 * 10 + (48 + n mod 10 - 48)) with n by lia.
        rewrite (proj2 (Z.leb_le _ _)) by lia. reflexivity.
      * split; [apply Z.div_pos; lia|]. apply Z.div_lt_upper_bound; lia.
Qed.

Lemma show_fuel_digits fuel n :
  0 <= n -> forallb is_ascii_digit (show_fuel fuel n) = true.
Proof.
  revert n. induction fuel as [|fuel IH]; intros n Hn; [reflexivity|]. cbn [show_fuel].
  destruct (Z.ltb_spec n 10).
  - cbn [forallb]. rewrite (proj1 (digit_byte n ltac:(lia))). reflexivity.
  - rewrite forallb_app, IH by (apply Z.div_pos; lia). cbn [forallb].
    pose proof (Z.mod_pos_bound n 10). rewrite (proj1 (digit_byte (n mod 10) ltac:(lia))). reflexivity.
Qed.

Lemma show_uint_digits n : 0 <= n -> forallb is_ascii_digit (show_uint n) = true.
Proof. apply show_fuel_digits. Qed.
Lemma show_uint_nonempty n : show_uint n <> [].
Proof.
  unfold show_uint. cbn [show_fuel]. destruct (n <? 10); [discriminate|].
  intros E. apply app_eq_nil in E as [_ E]. discriminate.
Qed.

(** [n.to_string().parse::<uN>()] gives [n] back. *)
Lemma parse_show_uint max n : 0 <= n <= max -> n <= u64_max -> parse_uint max (show_uint n) = Some n.
Proof.
  intros Hn Hu. pose proof (show_uint_digits n ltac:(lia)) as D. pose proof (show_uint_nonempty n) as NE.
  assert (P : parse_digits max 0 (show_uint n) = Some n).
  { rewrite <- (app_nil_r (show_uint n)). unfold show_uint. rewrite parse_digits_show; [reflexivity| |lia].
    change (10 ^ Z.of_nat 20) with 100000000000000000000. int_lia. }
  unfold parse_uint. destruct (show_uint n) as [|b s]; [congruence|].
  cbn [forallb] in D. apply andb_true_iff in D as [D _]. unfold is_ascii_digit, in_range in D.
  destruct (bz b =? 43) eqn:E; [lia | exact P].
Qed.
Lemma show_uint_inj i j : is_u64 i -> is_u64 j -> show_uint i = show_uint j -> i = j.
Proof.
  intros I J E. apply (f_equal (parse_uint u64_max)) in E. rewrite !parse_show_uint in E by (unfold_ints; lia). injection E as E. exact E.
Qed.

(** ** Splitting facts *)

Lemma split_once_app c l r : contains_byte c l = false -> split_once c (l ++ [c] ++ r) = Some (l, r).
Proof.
  induction l as [|x l IH]; cbn [app split_once].
  - intros _. rewrite decide_True by reflexivity. reflexivity.
  - unfold contains_byte. cbn [existsb]. rewrite orb_false_iff, bool_decide_eq_false. intros [Hx Hl].
    rewrite decide_False by assumption. cbn [app] in IH. rewrite IH by assumption. reflexivity.
Qed.
Lemma split_once_none c l : contains_byte c l = false -> split_once c l = None.
Proof.
  induction l as [|x l IH]; cbn [split_once]; [reflexivity|].
  unfold contains_byte. cbn [existsb]. rewrite orb_false_iff, bool_decide_eq_false. intros [Hx Hl].
  rewrite decide_False by assumption. rewrite IH by assumption. reflexivity.
Qed.
Lemma split_once_some c s l r : split_once c s = Some (l, r) -> s = l ++ [c] ++ r /\ contains_byte c l = false.
Proof.
  revert l. induction s as [|x s IH]; intros l; cbn [split_once]; [discriminate|].
  destruct (decide (x = c)) as [->|E]; [intros [= <- <-]; auto|].
  destruct (split_once c s) as [[l' r']|]; [|discriminate]. intros [= <- <-].
  destruct (IH l' eq_refl) as [-> H]. split; [reflexivity|]. unfold contains_byte. cbn [existsb].
  rewrite bool_decide_eq_false_2 by assumption. exact H.
Qed.

(** ** Trimming text that has no outer white space *)

Definition graphic : byte -> bool := in_range 33 126.

Lemma strip_one_graphic pats b s :
  forallb (fun p => match p with x :: _ => negb (graphic x) | [] => false end) pats = true ->
  graphic b = true -> strip_one pats (b :: s) = None.
Proof.
  intros Hp Hb. unfold strip_one. destruct (find _ pats) as [p|] eqn:F; [|reflexivity].
  apply List.find_some in F as [Hin Hs]. rewrite forallb_forall in Hp. specialize (Hp p Hin).
  destruct p as [|x p]; [discriminate|]. cbn [starts_with] in Hs. apply andb_true_iff in Hs as [Hx _].
  apply bool_decide_eq_true in Hx. subst x. rewrite Hb in Hp. discriminate.
Qed.

Lemma trim_start_graphic b s : graphic b = true -> trim_start (b :: s) = b :: s.
Proof.
  intros H. unfold trim_start. cbn [length strip_many].
  rewrite strip_one_graphic; [reflexivity | vm_compute; reflexivity | assumption].
Qed.
Lemma trim_end_graphic s b : graphic b = true -> trim_end (s ++ [b]) = s ++ [b].
Proof.
  intros H. unfold trim_end. rewrite rev_app_distr, length_app, Nat.add_comm. cbn [rev app length Nat.add strip_many].
  rewrite strip_one_graphic; [|vm_compute; reflexivity | assumption].
  cbn [rev]. rewrite rev_involutive. reflexivity.
Qed.
Lemma trim_graphic s :
  match s with [] => True | b :: _ => graphic b = true end ->
  match rev s with [] => True | b :: _ => graphic b = true end -> trim s = s.
Proof.
  intros Hf Hl. unfold trim. destruct s as [|b s]; [reflexivity|]. rewrite trim_start_graphic by assumption.
  destruct (exists_last (l := b :: s)) as (t & c & E); [discriminate|]. rewrite E in *.
  rewrite rev_app_distr in Hl. apply trim_end_graphic, Hl.
Qed.
Lemma digit_graphic b : is_ascii_digit b = true -> graphic b = true.
Proof. unfold is_ascii_digit, graphic, in_range. lia. Qed.

Lemma rsplit_once_app c l r : contains_byte c r = false -> rsplit_once c (l ++ [c] ++ r) = Some (l, r).
Proof.
  intros H. unfold rsplit_once. rewrite !rev_app_distr, <- app_assoc. cbn [rev app].
  change (c :: rev l) with ([c] ++ rev l).
  rewrite (split_once_app c (rev r) (rev l)); [rewrite !rev_involutive; reflexivity|].
  apply existsb_false. intros x Hx. unfold contains_byte in H. rewrite existsb_false in H.
  apply H, in_rev, Hx.
Qed.
Lemma contains_byte_app c l r : contains_byte c (l ++ r) = contains_byte c l || contains_byte c r.
Proof. apply existsb_app. Qed.
Lemma digits_no_byte c s : is_ascii_digit c = false -> forallb is_ascii_digit s = true -> contains_byte c s = false.
Proof.
  intros Hc Hs. apply existsb_false. intros x Hx. rewrite forallb_forall in Hs. specialize (Hs x Hx).
  apply bool_decide_eq_false. congruence.
Qed.

(** ** Well-formed UTF-8 concatenates *)

Lemma utf8_app a b : utf8 a = true -> utf8 (a ++ b) = utf8 b.
Proof.
  remember (length a) as n eqn:Hn. assert (L : (length a <= n)%nat) by lia. clear Hn. revert a L.
  induction n as [|n IH]; intros a L; (destruct a as [|b0 a]; [reflexivity|]); [simpl in L; lia|].
  cbn [length] in L. cbn [app utf8].
  destruct (bz b0 <? 128); [apply IH; lia|].
  destruct a as [|b1 a]; [discriminate|]. cbn [app length] in *.
  destruct (in_range 194 223 b0).
  { destruct (is_cont b1); cbn [andb]; [apply IH; lia | discriminate]. }
  destruct a as [|b2 a]; [discriminate|]. cbn [app length] in *.
  match goal with |- (if ?l then _ else _) = true -> _ => destruct l end.
  { destruct (is_cont b2); cbn [andb]; [apply IH; lia | discriminate]. }
  destruct a as [|b3 a]; [discriminate|]. cbn [app length] in *.
  match goal with |- ?l && _ && _ && _ = true -> _ => destruct l end; cbn [andb]; [|discriminate].
  destruct (is_cont b2); cbn [andb]; [|discriminate].
  destruct (is_cont b3); cbn [andb]; [apply IH; lia | discriminate].
Qed.
Lemma utf8_ascii s : forallb (fun b => bz b <? 128) s = true -> utf8 s = true.
Proof.
  induction s as [|b s IH]; [reflexivity|]. cbn [forallb utf8]. rewrite andb_true_iff. intros [-> H]. apply IH, H.
Qed.

(** ** Lines *)

(** Text without carriage return or line feed. *)
Definition one_line (s : bytes) : bool := forallb (fun b => negb (bz b =? 13) && negb (bz b =? 10)) s.

Lemma split_crlf_line l d : one_line l = true -> split_crlf (l ++ [zb 13; zb 10] ++ d) = l :: split_crlf d.
Proof.
  induction l as [|x l IH]; intros H.
  - cbn [app split_crlf]. rewrite decide_True by (split; reflexivity). reflexivity.
  - cbn [one_line forallb] in H. apply andb_true_iff in H as [Hx Hl]. specialize (IH Hl).
    rewrite <- app_comm_cons. remember (l ++ [zb 13; zb 10] ++ d) as t eqn:Et. cbn [split_crlf].
    destruct t as [|y t]; [destruct l; discriminate|].
    rewrite decide_False; [|intros [E _]; rewrite E in Hx; discriminate].
    rewrite IH. reflexivity.
Qed.
Lemma split_byte_piece c l d : contains_byte c l = false -> split_byte c (l ++ [c] ++ d) = l :: split_byte c d.
Proof.
  induction l as [|x l IH]; cbn [app split_byte].
  - intros _. rewrite decide_True by reflexivity. reflexivity.
  - unfold contains_byte. cbn [existsb]. rewrite orb_false_iff, bool_decide_eq_false. intros [Hx Hl].
    rewrite decide_False by assumption. cbn [app] in IH. rewrite IH by assumption. reflexivity.
Qed.
Lemma split_byte_last c l : contains_byte c l = false -> split_byte c l = [l].
Proof.
  induction l as [|x l IH]; cbn [split_byte]; [reflexivity|].
  unfold contains_byte. cbn [existsb]. rewrite orb_false_iff, bool_decide_eq_false. intros [Hx Hl].
  rewrite decide_False by assumption. rewrite IH by assumption. reflexivity.
Qed.
Lemma no_byte_cons c x s : x <> c -> contains_byte c s = false -> contains_byte c (x :: s) = false.
Proof. intros Ne N. unfold contains_byte in *. cbn [existsb]. rewrite N, orb_false_r. apply bool_decide_eq_false, Ne. Qed.
Lemma parts_no_sep c s p : In p (split_byte c s) -> contains_byte c p = false.
Proof.
  revert p. induction s as [|x s IH]; intros p; cbn [split_byte]; [intros [<-|[]]; reflexivity|].
  destruct (decide (x = c)) as [->|Ne]; [intros [<-|I]; [reflexivity | apply IH, I]|].
  destruct (split_byte c s) as [|q qs]; intros [<-|I]; [| contradiction | | apply IH; right; exact I];
    apply no_byte_cons; try exact Ne; [reflexivity | apply IH; left; reflexivity].
Qed.
Lemma one_line_app a b : one_line (a ++ b) = one_line a && one_line b.
Proof. apply forallb_app. Qed.

(** ** Trimming blanks *)

Definition not_blank_ends (s : bytes) : bool :=
  match s with [] => true | b :: _ => negb (is_sp_or_tab b) end
  && match rev s with [] => true | b :: _ => negb (is_sp_or_tab b) end.

Lemma trim_by_ends f s :
  match s with [] => True | b :: _ => f b = false end ->
  match rev s with [] => True | b :: _ => f b = false end -> trim_by f s = s.
Proof.
  intros Hf Hl. unfold trim_by, trim_end_by.
  assert (trim_start_by f s = s) as -> by (destruct s as [|b s]; [reflexivity|]; cbn; rewrite Hf; reflexivity).
  destruct (rev s) as [|b r] eqn:E; cbn [trim_start_by].
  - rewrite <- E, rev_involutive. reflexivity.
  - rewrite Hl, <- E, rev_involutive. reflexivity.
Qed.
Lemma trim_by_blank f b s : f b = true -> trim_by f (b :: s) = trim_by f s.
Proof. intros H. unfold trim_by. cbn [trim_start_by]. rewrite H. reflexivity. Qed.
Lemma trim_blanks s : not_blank_ends s = true -> trim_by is_sp_or_tab s = s.
Proof.
  unfold not_blank_ends. rewrite andb_true_iff. intros [H1 H2].
  apply trim_by_ends; [destruct s | destruct (rev s)]; auto; apply negb_true_iff; assumption.
Qed.

(** ** The range of a parsed number *)

Lemma parse_digits_range max acc s n :
  0 <= acc <= max -> parse_digits max acc s = Some n -> 0 <= n <= max.
Proof.
  revert acc. induction s as [|b s IH]; intros acc Ha; simpl; [intros [= <-]; assumption|].
  destruct (is_ascii_digit b) eqn:D; [|discriminate].
  destruct (_ <=? max) eqn:E; [|discriminate]. apply IH.
  unfold is_ascii_digit, in_range in D. lia.
Qed.
Lemma parse_uint_range max s n : 0 <= max -> parse_uint max s = Some n -> 0 <= n <= max.
Proof.
  intros Hm. unfold parse_uint. destruct s as [|b s]; [discriminate|].
  destruct (bz b =? 43); [destruct s; [discriminate|]|]; apply parse_digits_range; lia.
Qed.

(** ** Cutting well-formed text *)

Lemma not_cont_range lo hi x : is_cont x = false -> 128 <= lo -> hi <= 191 -> in_range lo hi x = false.
Proof. unfold is_cont, in_range. lia. Qed.
(** Well-formed text cut before a character is well formed. *)
Lemma utf8_cut a b :
  match b with [] => True | x :: _ => is_cont x = false end -> utf8 (a ++ b) = true -> utf8 a = true.
Proof.
  intros Hb. remember (length a) as n eqn:Hn. assert (L : (length a <= n)%nat) by lia. clear Hn. revert a L.
  induction n as [|n IH]; intros a L; (destruct a as [|b0 a]; [reflexivity|]); [simpl in L; lia|].
  cbn [length] in L. cbn [app utf8].
  destruct (bz b0 <? 128); [apply IH; lia|].
  destruct a as [|b1 a]; cbn [app length] in *.
  { destruct b as [|x b]; [discriminate|]. rewrite Hb. rewrite !andb_false_r. cbn [andb].
    rewrite !(not_cont_range _ _ x) by (exact Hb || lia).
    destruct (in_range 194 223 b0); [discriminate|]. destruct b as [|y b]; [discriminate|].
    repeat match goal with |- context [if ?c then false else _] => destruct c end; destruct b; discriminate. }
  destruct (in_range 194 223 b0).
  { destruct (is_cont b1); cbn [andb]; [apply IH; lia | discriminate]. }
  destruct a as [|b2 a]; cbn [app length] in *.
  { destruct b as [|x b]; [discriminate|]. rewrite Hb. rewrite !andb_false_r. cbn [andb].
    match goal with |- (if ?l then _ else _) = true -> _ => destruct l end; [discriminate|]. destruct b; discriminate. }
  match goal with |- (if ?l then _ else _) = true -> _ => destruct l end.
  { destruct (is_cont b2); cbn [andb]; [apply IH; lia | discriminate]. }
  destruct a as [|b3 a]; cbn [app length] in *.
  { destruct b as [|x b]; [discriminate|]. rewrite Hb. rewrite !andb_false_r. discriminate. }
  match goal with |- ?l && _ && _ && _ = true -> _ => destruct l end; cbn [andb]; [|discriminate].
  destruct (is_cont b2); cbn [andb]; [|discriminate].
  destruct (is_cont b3); cbn [andb]; [apply IH; lia | discriminate].
Qed.
Lemma split_once_none_inv c s : split_once c s = None -> contains_byte c s = false.
Proof.
  induction s as [|x s IH]; cbn [split_once]; [reflexivity|]. destruct (decide (x = c)) as [->|Ne]; [discriminate|].
  destruct (split_once c s) as [[a b]|]; [discriminate|]. intros _. unfold contains_byte in *. cbn [existsb]. rewrite IH by reflexivity.
  rewrite bool_decide_eq_false_2; [reflexivity | congruence].
Qed.
Lemma split_byte_utf8 c s : is_cont c = false -> bz c < 128 -> utf8 s = true -> Forall (fun p => utf8 p = true) (split_byte c s).
Proof.
  intros Nc Ac. remember (length s) as n eqn:Hn. assert (L : (length s <= n)%nat) by lia. clear Hn. revert s L.
  induction n as [|n IH]; intros s L U.
  - destruct s; [repeat constructor | cbn in L; lia].
  - destruct (split_once c s) as [[a b]|] eqn:E.
    + apply split_once_some in E as [-> N]. rewrite split_byte_piece by exact N. constructor.
      * apply (utf8_cut a (c :: b)); [exact Nc | exact U].
      * apply IH; [rewrite !length_app in L; cbn [length] in L; lia|]. pose proof (utf8_cut a (c :: b) Nc U) as Ua.
        change (a ++ [c] ++ b) with (a ++ c :: b) in U. rewrite utf8_app in U by exact Ua. cbn [utf8] in U. replace (bz c <? 128) with true in U by lia. exact U.
    + apply split_once_none_inv in E. rewrite split_byte_last by exact E. constructor; [exact U | constructor].
Qed.

(** ** What trimming keeps *)

Lemma strip_one_some pats s s' : strip_one pats s = Some s' -> exists p, In p pats /\ s = p ++ s'.
Proof.
  unfold strip_one. destruct (find _ pats) as [p|] eqn:F; [|discriminate]. intros [= <-]. apply List.find_some in F as [I S].
  exists p. split; [exact I|]. rewrite starts_with_take in S. apply eq_bytes_true in S. rewrite <- (take_drop (length p) s) at 1. rewrite S. reflexivity.
Qed.
Lemma strip_one_prefix pats a b : strip_one pats (a ++ b) = None -> strip_one pats a = None.
Proof.
  intros N. destruct (strip_one pats a) as [s'|] eqn:E; [|reflexivity]. apply strip_one_some in E as (p & I & ->).
  unfold strip_one in N. destruct (find _ pats) as [q|] eqn:F; [discriminate|]. pose proof (List.find_none _ _ F p I) as S. cbn in S.
  rewrite starts_with_take, <- app_assoc, take_app_length in S. unfold eq_bytes in S. rewrite bool_decide_eq_true_2 in S by reflexivity. discriminate.
Qed.
Lemma strip_many_done n pats s : Forall (fun p => p <> []) pats -> (length s <= n)%nat -> strip_one pats (strip_many n pats s) = None.
Proof.
  intros Ne. revert s. induction n as [|n IH]; intros s L; cbn [strip_many].
  - destruct s; [|cbn in L; lia]. destruct (strip_one pats []) as [s'|] eqn:E; [|reflexivity]. apply strip_one_some in E as (p & I & E).
    destruct p; [|discriminate]. destruct (proj1 (List.Forall_forall _ _) Ne _ I eq_refl).
  - destruct (strip_one pats s) as [s'|] eqn:E; [|exact E]. apply IH. apply strip_one_some in E as (p & I & ->).
    pose proof (proj1 (List.Forall_forall _ _) Ne _ I). destruct p; [contradiction|]. rewrite length_app in L. cbn [length] in L. lia.
Qed.
Lemma strip_many_keeps (P : bytes -> Prop) n pats s : (forall p s, In p pats -> P (p ++ s) -> P s) -> P s -> P (strip_many n pats s).
Proof.
  intros K. revert s. induction n as [|n IH]; intros s Ps; cbn [strip_many]; [exact Ps|].
  destruct (strip_one pats s) as [s'|] eqn:E; [|exact Ps]. apply IH. apply strip_one_some in E as (p & I & ->). eapply K; eassumption.
Qed.
Lemma ws_pats_nonempty : Forall (fun p : bytes => p <> []) ws_fwd /\ Forall (fun p : bytes => p <> []) ws_bwd.
Proof. split; repeat (constructor; [discriminate|]); constructor. Qed.
Lemma ws_chars : Forall (fun w => utf8 (map zb w) = true /\ match map zb w with [] => False | x :: _ => is_cont x = false end) white_space.
Proof. repeat (constructor; [split; reflexivity|]); constructor. Qed.
Lemma trim_utf8 s : utf8 s = true -> utf8 (trim s) = true.
Proof.
  intros U. unfold trim, trim_end. assert (utf8 (trim_start s) = true) as U1.
  { apply (strip_many_keeps (fun t => utf8 t = true)); [|exact U]. intros p t I Up. apply in_map_iff in I as (w & <- & I).
    rewrite utf8_app in Up by apply (proj1 (List.Forall_forall _ _) ws_chars _ I). exact Up. }
  apply (strip_many_keeps (fun t => utf8 (rev t) = true)); [|rewrite rev_involutive; exact U1].
  intros p t I Up. apply in_map_iff in I as (w & <- & I). rewrite rev_app_distr, rev_involutive in Up.
  destruct (proj1 (List.Forall_forall _ _) ws_chars _ I) as [_ H]. apply (utf8_cut _ (map zb w)); [|exact Up]. destruct (map zb w); [destruct H | exact H].
Qed.
(** Trimming twice is trimming once. *)
Lemma trim_trim s : trim (trim s) = trim s.
Proof.
  destruct ws_pats_nonempty as [Nf Nb]. set (y := trim_start s).
  assert (strip_one ws_fwd y = None) as Dy by (apply strip_many_done; [exact Nf | lia]).
  assert (strip_one ws_bwd (rev (trim s)) = None) as De.
  { unfold trim, trim_end. rewrite rev_involutive. apply strip_many_done; [exact Nb | rewrite length_rev; lia]. }
  assert (exists z, y = trim s ++ z) as (z & E).
  { unfold trim. fold y. unfold trim_end. assert (exists z, rev y = z ++ strip_many (length y) ws_bwd (rev y)) as (z & E).
    { apply (strip_many_keeps (fun t => exists z, rev y = z ++ t)); [|exists []; reflexivity]. intros p t _ (z & E). exists (z ++ p). rewrite E, app_assoc. reflexivity. }
    exists (rev z). rewrite <- rev_app_distr, <- E, rev_involutive. reflexivity. }
  rewrite E in Dy. apply strip_one_prefix in Dy. set (t := trim s) in *. clearbody t. unfold trim, trim_start, trim_end.
  assert (forall n pats u, strip_one pats u = None -> strip_many n pats u = u) as Fix by (intros [|n] pats u H; cbn; rewrite ?H; reflexivity).
  rewrite (Fix _ ws_fwd) by exact Dy. rewrite Fix by exact De. apply rev_involutive.
Qed.
