(* ===== verification/LineText.v ===== *)
(** * LineText: requests as lines and words

    What the two small blocking servers of the edge (the ACME challenge responder and the
    private health endpoint) use of [str]: lossy decoding, [lines], [split_whitespace] and
    [strip_prefix], with the lemmas on printable text they share. *)

From S2P Require Import Prelude Text.

(** [String::from_utf8_lossy]: each maximal invalid sequence becomes U+FFFD. *)
Definition replacement : bytes := [zb 239; zb 191; zb 189].
Fixpoint from_utf8_lossy (fuel : nat) (s : bytes) : bytes :=
  match fuel with
  | O => []
  | S fuel =>
      let bad n := replacement ++ from_utf8_lossy fuel (drop n s) in
      let good n := take n s ++ from_utf8_lossy fuel (drop n s) in
      match s with
      | [] => []
      | b0 :: r =>
          if bz b0 <? 128 then good 1%nat
          else if in_range 194 223 b0 then match r with b1 :: _ => if is_cont b1 then good 2%nat else bad 1%nat | [] => bad 1%nat end
          else if in_range 224 239 b0 then
            match r with
            | b1 :: r1 =>
                if (if bz b0 =? 224 then in_range 160 191 b1 else if bz b0 =? 237 then in_range 128 159 b1 else is_cont b1)
                then match r1 with b2 :: _ => if is_cont b2 then good 3%nat else bad 2%nat | [] => bad 2%nat end
                else bad 1%nat
            | [] => bad 1%nat
            end
          else if in_range 240 244 b0 then
            match r with
            | b1 :: r1 =>
                if (if bz b0 =? 240 then in_range 144 191 b1 else if bz b0 =? 244 then in_range 128 143 b1 else is_cont b1)
                then match r1 with
                     | b2 :: r2 => if is_cont b2 then match r2 with b3 :: _ => if is_cont b3 then good 4%nat else bad 3%nat | [] => bad 3%nat end else bad 2%nat
                     | [] => bad 2%nat
                     end
                else bad 1%nat
            | [] => bad 1%nat
            end
          else bad 1%nat
      end
  end.
Definition to_text (s : bytes) : bytes := from_utf8_lossy (length s) s.

(** [str::lines]. *)
Definition strip_cr (l : bytes) : bytes := match rev l with b :: r => if bz b =? 13 then rev r else l | [] => l end.
Definition lines (s : bytes) : list bytes :=
  let ps := split_byte (zb 10) s in
  map strip_cr (match rev ps with [] :: ps' => rev ps' | _ => ps end).
(** [str::split_whitespace]: the pieces between white space, without empty ones. *)
Fixpoint words_from (fuel : nat) (word s : bytes) : list bytes :=
  let flush k := match word with [] => k | _ => rev word :: k end in
  match fuel with
  | O => flush []
  | S fuel =>
      match strip_one ws_fwd s with
      | Some s' => flush (words_from fuel [] s')
      | None => match s with b :: s' => words_from fuel (b :: word) s' | [] => flush [] end
      end
  end.
Definition split_whitespace (s : bytes) : list bytes := words_from (S (length s)) [] s.
Definition strip_prefix (p s : bytes) : option bytes := if starts_with p s then Some (drop (length p) s) else None.

Lemma forallb_weaken {A} (P Q : A -> bool) l : (forall x, P x = true -> Q x = true) -> forallb P l = true -> forallb Q l = true.
Proof. intros W. rewrite !forallb_forall. auto. Qed.

Lemma no_byte_outside (P : byte -> bool) c s : P c = false -> forallb P s = true -> contains_byte c s = false.
Proof.
  intros Pc H. apply existsb_false. intros x Hx. rewrite forallb_forall in H. specialize (H x Hx). apply bool_decide_eq_false. congruence.
Qed.
Lemma graphic_ends s : forallb graphic s = true -> match s with [] => True | b :: _ => graphic b = true end.
Proof. destruct s; cbn [forallb]; [auto | rewrite andb_true_iff; tauto]. Qed.
Lemma trim_graphics s : forallb graphic s = true -> trim s = s.
Proof.
  intros H. apply trim_graphic; apply graphic_ends; [exact H|]. rewrite forallb_forall in *. intros x Hx. apply H, in_rev, Hx.
Qed.

Lemma to_text_ascii s : forallb (fun b => bz b <? 128) s = true -> to_text s = s.
Proof.
  unfold to_text. induction s as [|b s IH]; [reflexivity|]. cbn [forallb length from_utf8_lossy]. rewrite andb_true_iff. intros [-> H].
  cbn [take drop app]. rewrite drop_0, IH by exact H. reflexivity.
Qed.
(** Valid text is decoded to itself. *)
Lemma lossy_utf8 fuel : forall s, (length s <= fuel)%nat -> utf8 s = true -> from_utf8_lossy fuel s = s.
Proof.
  induction fuel as [|fuel IH]; intros s L U; [destruct s; [reflexivity | cbn in L; lia]|].
  destruct s as [|b0 r0]; [reflexivity|]. cbn [from_utf8_lossy]. cbn [utf8] in U. cbn [length] in L.
  destruct (bz b0 <? 128) eqn:A; [cbn [take drop app]; rewrite drop_0, IH by (exact U || lia); reflexivity|].
  destruct r0 as [|b1 r1]; [discriminate|]. cbn [length] in L. destruct (in_range 194 223 b0) eqn:R2.
  { apply andb_true_iff in U as [-> U]. cbn [take drop app]. rewrite drop_0, IH by (exact U || lia). reflexivity. }
  destruct r1 as [|b2 r2]; [discriminate|]. cbn [length] in L.
  destruct (in_range 224 239 b0) eqn:R3.
  - assert ((if bz b0 =? 224 then in_range 160 191 b1 else if bz b0 =? 237 then in_range 128 159 b1 else is_cont b1) && is_cont b2 && utf8 r2 = true) as U3.
    { revert U. cbv zeta. unfold is_cont, in_range in *. repeat cases_if; try lia; destruct r2; try discriminate; lia. }
    rewrite !andb_true_iff in U3. destruct U3 as [[-> ->] U3]. cbn [take drop app]. rewrite drop_0, IH by (exact U3 || lia). reflexivity.
  - destruct r2 as [|b3 r3].
    { exfalso. revert U. cbv zeta. unfold is_cont, in_range in *. repeat cases_if; try lia. }
    cbn [length] in L.
    assert (in_range 240 244 b0 && (if bz b0 =? 240 then in_range 144 191 b1 else if bz b0 =? 244 then in_range 128 143 b1 else is_cont b1) && is_cont b2 && is_cont b3 && utf8 r3 = true) as U4.
    { revert U. cbv zeta. unfold is_cont, in_range in *. repeat cases_if; try lia. }
    rewrite !andb_true_iff in U4. destruct U4 as [[[[U4 ->] ->] ->] U5]. rewrite U4. cbn [take drop app]. rewrite drop_0, IH by (exact U5 || lia). reflexivity.
Qed.
Lemma to_text_utf8 s : utf8 s = true -> to_text s = s.
Proof. apply lossy_utf8. reflexivity. Qed.
Lemma strip_prefix_app p s : strip_prefix p (p ++ s) = Some s.
Proof.
  unfold strip_prefix. rewrite starts_with_take, take_app_length, drop_app_length.
  assert (eq_bytes p p = true) as -> by (apply eq_bytes_true; reflexivity). reflexivity.
Qed.
Lemma strip_prefix_some p s r : strip_prefix p s = Some r -> s = p ++ r.
Proof.
  unfold strip_prefix. rewrite starts_with_take. destruct (eq_bytes _ _) eqn:E; [|discriminate]. intros [= <-]. apply eq_bytes_true in E.
  rewrite <- (take_drop (length p) s) at 1. rewrite E. reflexivity.
Qed.

(** Words separated by single spaces. *)
Lemma words_graphic fuel w word s :
  (length w <= fuel)%nat -> forallb graphic w = true -> words_from fuel word (w ++ s) = words_from (fuel - length w) (rev w ++ word) s.
Proof.
  revert fuel word. induction w as [|b w IH]; intros fuel word L H; [rewrite Nat.sub_0_r; reflexivity|].
  cbn [forallb] in H. apply andb_true_iff in H as [Hb H]. destruct fuel as [|fuel]; [cbn in L; lia|]. cbn [app words_from].
  rewrite strip_one_graphic; [|vm_compute; reflexivity | exact Hb]. rewrite IH by (cbn in L; lia || exact H). cbn [rev length]. rewrite <- app_assoc. reflexivity.
Qed.
Lemma words_space fuel w s :
  (length w < fuel)%nat -> w <> [] -> forallb graphic w = true -> words_from fuel [] (w ++ zb 32 :: s) = w :: words_from (fuel - length w - 1) [] s.
Proof.
  intros L Ne H. rewrite words_graphic by (lia || exact H). rewrite app_nil_r.
  destruct (fuel - length w)%nat as [|k] eqn:E; [lia|]. cbn [words_from]. replace (S k - 1)%nat with k by lia.
  assert (strip_one ws_fwd (zb 32 :: s) = Some s) as -> by reflexivity.
  destruct (rev w) eqn:R; [|rewrite <- R, rev_involutive; reflexivity]. apply (f_equal (@rev byte)) in R. rewrite rev_involutive in R. contradiction.
Qed.
Lemma words_end fuel w : (length w < fuel)%nat -> w <> [] -> forallb graphic w = true -> words_from fuel [] w = [w].
Proof.
  intros L Ne H. rewrite <- (app_nil_r w) at 1. rewrite words_graphic by (lia || exact H). rewrite app_nil_r.
  destruct (fuel - length w)%nat as [|k] eqn:E; [lia|]. cbn [words_from]. assert (strip_one ws_fwd [] = None) as -> by reflexivity.
  destruct (rev w) eqn:R; [|rewrite <- R, rev_involutive; reflexivity]. apply (f_equal (@rev byte)) in R. rewrite rev_involutive in R. contradiction.
Qed.
Lemma three_words a b c :
  a <> [] -> b <> [] -> c <> [] -> forallb graphic a = true -> forallb graphic b = true -> forallb graphic c = true ->
  split_whitespace (a ++ zb 32 :: b ++ zb 32 :: c) = [a; b; c].
Proof.
  intros Na Nb Nc Ga Gb Gc. unfold split_whitespace.
  set (n := S _). assert (n = S (length a + S (length b + S (length c)))) as E by (subst n; rewrite !length_app; cbn; rewrite length_app; reflexivity).
  rewrite words_space, words_space, words_end by (lia || assumption). reflexivity.
Qed.

