(* ===== verification/AdminJson.v ===== *)
(** * AdminJson: the JSON the edge writes for its operator

    The edge builds its JSON by hand: [json_escape] of
    [crates/oxo-pingora-edge/src/platform/telemetry.rs] and its copy in [acme/state.rs],
    [option_u64_json], [status_json] and [option_string_json], and one [format!] per object.
    Here are the escaping, the values those formats insert and the flat objects they make, with
    a reader of such objects; the reader undoes the writer, whatever the inserted strings. *)

From S2P Require Import Prelude Text.

(** ** Escaping *)

Definition quote : byte := zb 34.
Definition backslash : byte := zb 92.
(** [{:04x}] *)
Definition hex_digit (n : Z) : byte := zb (if n <? 10 then 48 + n else 87 + n).
Definition hex4 (n : Z) : bytes :=
  [hex_digit (n / 4096 mod 16); hex_digit (n / 256 mod 16); hex_digit (n / 16 mod 16); hex_digit (n mod 16)].
Definition escape_u (n : Z) : bytes := backslash :: zb 117 :: hex4 n.

(** The loop over [value.chars()], on the UTF-8 bytes.  The control characters are the one-byte
    ones and U+0080 to U+009F, whose two bytes start with 0xC2. *)
Fixpoint json_escape (s : bytes) : bytes :=
  match s with
  | [] => []
  | b :: s' =>
      if bz b =? 34 then backslash :: quote :: json_escape s'
      else if bz b =? 92 then backslash :: backslash :: json_escape s'
      else if bz b =? 10 then backslash :: zb 110 :: json_escape s'
      else if bz b =? 13 then backslash :: zb 114 :: json_escape s'
      else if bz b =? 9 then backslash :: zb 116 :: json_escape s'
      else if is_ctl b then escape_u (bz b) ++ json_escape s'
      else match s' with
           | c :: s'' => if (bz b =? 194) && in_range 128 159 c then escape_u (bz c) ++ json_escape s'' else b :: json_escape s'
           | [] => [b]
           end
  end.

(** ** Values and objects *)

(** What the formats insert: a [{}] of a string between quotes is [JStr] when the string is
    escaped and [JWord] when it is written as it is. *)
Inductive jvalue : Type :=
| JNull
| JBool (b : bool)
| JNum (n : Z)
| JStr (s : bytes)
| JWord (s : bytes)
| JNums (l : list Z).
Definition field : Type := (bytes * jvalue)%type.

Fixpoint join (sep : bytes) (l : list bytes) : bytes :=
  match l with
  | [] => []
  | [x] => x
  | x :: l' => x ++ sep ++ join sep l'
  end.
Definition comma : byte := zb 44.
Definition quoted (s : bytes) : bytes := quote :: s ++ [quote].
Definition write_value (v : jvalue) : bytes :=
  match v with
  | JNull => bs "null"
  | JBool b => if b then bs "true" else bs "false"
  | JNum n => show_uint n
  | JStr s => quoted (json_escape s)
  | JWord s => quoted s
  | JNums l => zb 91 :: join [comma] (map show_uint l) ++ [zb 93]
  end.
Definition write_field (f : field) : bytes := quoted (fst f) ++ bs ":" ++ write_value (snd f).
Definition write_fields (fs : list field) : bytes := join [comma] (map write_field fs).
Definition write_object (fs : list field) : bytes := bs "{" ++ write_fields fs ++ bs "}".

Definition option_u64_json (value : option Z) : jvalue := match value with Some n => JNum n | None => JNull end.
Definition status_json (status : Z) : jvalue := if status =? 0 then JNull else JNum status.
Definition option_string_json (value : option bytes) : jvalue := match value with Some s => JStr s | None => JNull end.

(** ** Reading *)

Definition hex_digit_value (b : byte) : option Z :=
  if is_ascii_digit b then Some (bz b - 48) else if in_range 97 102 b then Some (bz b - 87)
  else if in_range 65 70 b then Some (bz b - 55) else None.
Definition hex4_value (a b c d : byte) : option Z :=
  match hex_digit_value a, hex_digit_value b, hex_digit_value c, hex_digit_value d with
  | Some a, Some b, Some c, Some d => Some (a * 4096 + b * 256 + c * 16 + d)
  | _, _, _, _ => None
  end.
(** UTF-8 of a code point of the basic plane. *)
Definition utf8_encode (n : Z) : option bytes :=
  if n <? 128 then Some [zb n]
  else if n <? 2048 then Some [zb (192 + n / 64); zb (128 + n mod 64)]
  else if (55296 <=? n) && (n <=? 57343) then None
  else Some [zb (224 + n / 4096); zb (128 + n / 64 mod 64); zb (128 + n mod 64)].
Definition prepend (c : bytes) (r : option (bytes * bytes)) : option (bytes * bytes) :=
  match r with Some (s, rest) => Some (c ++ s, rest) | None => None end.
Definition short_escape (e : byte) : option bytes :=
  if (bz e =? 34) || (bz e =? 92) || (bz e =? 47) then Some [e]
  else if bz e =? 110 then Some [zb 10]
  else if bz e =? 114 then Some [zb 13]
  else if bz e =? 116 then Some [zb 9]
  else if bz e =? 98 then Some [zb 8]
  else if bz e =? 102 then Some [zb 12]
  else None.
(** The characters of a string, up to its closing quote, and what follows it. *)
Fixpoint read_string (s : bytes) : option (bytes * bytes) :=
  match s with
  | [] => None
  | b :: s1 =>
      if bz b =? 34 then Some ([], s1)
      else if bz b =? 92 then
        match s1 with
        | [] => None
        | e :: s2 =>
            if bz e =? 117 then
              match s2 with
              | h1 :: h2 :: h3 :: h4 :: s3 =>
                  match hex4_value h1 h2 h3 h4 with
                  | Some n => match utf8_encode n with Some c => prepend c (read_string s3) | None => None end
                  | None => None
                  end
              | _ => None
              end
            else match short_escape e with Some c => prepend c (read_string s2) | None => None end
        end
      else if bz b <? 32 then None
      else prepend [b] (read_string s1)
  end.

Fixpoint read_nums (l : list bytes) : option (list Z) :=
  match l with
  | [] => Some []
  | x :: l' => match parse_uint u64_max x, read_nums l' with Some n, Some ns => Some (n :: ns) | _, _ => None end
  end.
Fixpoint digits (s : bytes) : bytes * bytes :=
  match s with
  | b :: s' => if is_ascii_digit b then (b :: fst (digits s'), snd (digits s')) else ([], s)
  | [] => ([], [])
  end.
Definition literal (w : string) (v : jvalue) (s : bytes) : option (jvalue * bytes) :=
  if starts_with (bs w) s then Some (v, drop (length (bs w)) s) else None.
Definition read_value (s : bytes) : option (jvalue * bytes) :=
  match s with
  | [] => None
  | b :: s' =>
      if bz b =? 34 then match read_string s' with Some (t, rest) => Some (JStr t, rest) | None => None end
      else if bz b =? 91 then
        match split_once (zb 93) s' with
        | Some (inside, rest) =>
            match (match inside with [] => Some [] | _ => read_nums (split_byte comma inside) end) with
            | Some l => Some (JNums l, rest)
            | None => None
            end
        | None => None
        end
      else if bz b =? 110 then literal "null" JNull s
      else if bz b =? 116 then literal "true" (JBool true) s
      else if bz b =? 102 then literal "false" (JBool false) s
      else match parse_uint u64_max (fst (digits s)) with Some n => Some (JNum n, snd (digits s)) | None => None end
  end.
(** Members up to the closing brace, and what follows it. *)
Fixpoint read_members (fuel : nat) (s : bytes) : option (list field * bytes) :=
  match fuel, s with
  | S fuel, b :: s1 =>
      if bz b =? 34 then
        match read_string s1 with
        | Some (k, b2 :: s2) =>
            if bz b2 =? 58 then
              match read_value s2 with
              | Some (v, b3 :: s3) =>
                  if bz b3 =? 125 then Some ([(k, v)], s3)
                  else if bz b3 =? 44 then
                    match read_members fuel s3 with Some (fs, rest) => Some ((k, v) :: fs, rest) | None => None end
                  else None
              | _ => None
              end
            else None
        | _ => None
        end
      else None
  | _, _ => None
  end.
Definition read_object (s : bytes) : option (list field * bytes) :=
  match s with b :: s' => if bz b =? 123 then read_members (length s') s' else None | [] => None end.

(** ** The reader undoes the writer *)

(** Text that needs no escaping. *)
Definition plain (s : bytes) : bool := forallb (fun b => (32 <=? bz b) && (bz b <? 127) && negb (bz b =? 34) && negb (bz b =? 92)) s.
Definition fits (v : jvalue) : Prop :=
  match v with
  | JNum n => is_u64 n
  | JWord s => plain s = true
  | JNums l => Forall is_u64 l
  | _ => True
  end.
Definition read_as (v : jvalue) : jvalue := match v with JWord s => JStr s | v => v end.
Definition field_as (f : field) : field := (fst f, read_as (snd f)).
Definition fits_field (f : field) : Prop := plain (fst f) = true /\ fits (snd f).

Lemma bytes_pair_ind (P : bytes -> Prop) :
  P [] -> (forall b, P [b]) -> (forall b c s, P (c :: s) -> P s -> P (b :: c :: s)) -> forall s, P s.
Proof.
  intros N O T s. assert (P s /\ forall b, P (b :: s)) as [K _]; [|exact K].
  induction s as [|c s [I1 I2]]; [split; auto|]. split; [apply I2 | intros b; apply T; auto].
Qed.

(** One byte, written on its own. *)
Definition escape1 (b : byte) : bytes :=
  if bz b =? 34 then [backslash; quote] else if bz b =? 92 then [backslash; backslash]
  else if bz b =? 10 then [backslash; zb 110] else if bz b =? 13 then [backslash; zb 114] else if bz b =? 9 then [backslash; zb 116]
  else if is_ctl b then escape_u (bz b) else [b].
Definition wide_control (b c : byte) : bool := (bz b =? 194) && in_range 128 159 c.
Lemma json_escape_cons b s :
  json_escape (b :: s) =
  match s with c :: s' => if wide_control b c then escape_u (bz c) ++ json_escape s' else escape1 b ++ json_escape s | [] => escape1 b end.
Proof.
  unfold escape1, wide_control. cbn [json_escape]. destruct (bz b =? 194) eqn:E.
  - apply Z.eqb_eq in E. unfold is_ctl. rewrite E. cbn [Z.eqb Z.ltb Z.compare Pos.eqb Pos.compare orb andb Pos.compare_cont].
    destruct s as [|c s]; [reflexivity|]. destruct (in_range 128 159 c); reflexivity.
  - cbn [andb]. repeat case_match; simplify_eq/=; rewrite ?app_nil_r; try reflexivity.
Qed.
Lemma escape1_read b t : read_string (escape1 b ++ t) = prepend [b] (read_string t).
Proof. destruct b; reflexivity. Qed.
Lemma escape_u_read c t : in_range 128 159 c = true -> read_string (escape_u (bz c) ++ t) = prepend [zb 194; c] (read_string t).
Proof. destruct c; intros [=]; reflexivity. Qed.
Lemma prepend_some c s rest : prepend c (Some (s, rest)) = Some (c ++ s, rest).
Proof. reflexivity. Qed.

(** The decoder of JSON recovers an escaped string, and nothing in the string can end it early:
    whatever bytes [s] holds (quotes, backslashes, newlines, control characters, any UTF-8),
    reading [json_escape s] up to the closing quote that follows gives [s] and leaves exactly
    what was written after that quote. *)
Lemma read_escaped s rest : read_string (json_escape s ++ quote :: rest) = Some (s, rest).
Proof.
  induction s as [|b|b c s I1 I2] using bytes_pair_ind; [reflexivity | rewrite json_escape_cons, escape1_read; reflexivity |].
  rewrite json_escape_cons. destruct (wide_control b c) eqn:W.
  - unfold wide_control in W. apply andb_prop in W as [E R]. apply Z.eqb_eq in E. rewrite <- app_assoc, escape_u_read, I2 by exact R.
    replace b with (zb 194); [reflexivity|]. apply bz_inj. rewrite E. reflexivity.
  - rewrite <- app_assoc, escape1_read, I1. reflexivity.
Qed.
Lemma plain_read s rest : plain s = true -> read_string (s ++ quote :: rest) = Some (s, rest).
Proof.
  induction s as [|b s IH]; [reflexivity|]. cbn [plain forallb]. rewrite !andb_true_iff, !negb_true_iff. intros [[[[A B] C] D] K].
  cbn [app read_string]. rewrite C, D, (IH K). apply Z.leb_le in A. replace (bz b <? 32) with false by (symmetry; apply Z.ltb_ge; lia). reflexivity.
Qed.
Lemma plain_escape s : plain s = true -> json_escape s = s.
Proof.
  induction s as [|b s IH]; [reflexivity|]. cbn [plain forallb]. rewrite !andb_true_iff, !negb_true_iff. intros [[[[A B] C] D] K].
  apply Z.leb_le in A. apply Z.ltb_lt in B. specialize (IH K). rewrite json_escape_cons.
  assert (escape1 b = [b]) as ->.
  { unfold escape1, is_ctl. rewrite C, D.
    replace (bz b =? 10) with false by (symmetry; apply Z.eqb_neq; lia). replace (bz b =? 13) with false by (symmetry; apply Z.eqb_neq; lia).
    replace (bz b =? 9) with false by (symmetry; apply Z.eqb_neq; lia). replace (bz b <? 32) with false by (symmetry; apply Z.ltb_ge; lia).
    replace (bz b =? 127) with false by (symmetry; apply Z.eqb_neq; lia). reflexivity. }
  destruct s as [|c s]; [reflexivity|]. unfold wide_control. replace (bz b =? 194) with false by (symmetry; apply Z.eqb_neq; lia). cbn [andb]. rewrite IH. reflexivity.
Qed.

(** What may follow a value in an object. *)
Definition ends_value (s : bytes) : bool := match s with b :: _ => negb (is_ascii_digit b) | [] => true end.
Lemma digits_app d rest : forallb is_ascii_digit d = true -> ends_value rest = true -> digits (d ++ rest) = (d, rest).
Proof.
  intros D E. induction d as [|b d IH]; cbn [app].
  - destruct rest as [|b r]; [reflexivity|]. cbn in *. destruct (is_ascii_digit b); [discriminate | reflexivity].
  - cbn [forallb] in D. apply andb_prop in D as [B D]. cbn [digits]. rewrite B, (IH D). reflexivity.
Qed.
Lemma show_uint_first n : is_u64 n -> exists d ds, show_uint n = d :: ds /\ is_ascii_digit d = true /\ forallb is_ascii_digit ds = true.
Proof.
  intros N. pose proof (show_uint_digits n ltac:(unfold_ints; lia)) as D. pose proof (show_uint_nonempty n) as E.
  destruct (show_uint n) as [|d ds]; [congruence|]. cbn in D. apply andb_prop in D as [A B]. eauto.
Qed.
Lemma join_cons sep (x y : bytes) l : join sep (x :: y :: l) = x ++ sep ++ join sep (y :: l).
Proof. reflexivity. Qed.
Lemma nums_no_byte c l : Forall is_u64 l -> is_ascii_digit c = false -> c <> comma -> contains_byte c (join [comma] (map show_uint l)) = false.
Proof.
  intros F D N. assert (forall n, is_u64 n -> contains_byte c (show_uint n) = false) as S
    by (intros n U; apply digits_no_byte; [exact D | apply show_uint_digits; unfold_ints; lia]).
  induction F as [|n l U F IH]; [reflexivity|]. destruct l as [|m l]; [apply S; exact U|]. cbn [map]. rewrite join_cons, !contains_byte_app, (S n U).
  cbn [map] in IH. rewrite IH. unfold contains_byte. cbn. destruct (bool_decide_reflect (comma = c)); try reflexivity. all: try (rewrite bool_decide_eq_false_2; [reflexivity | congruence]). congruence.
Qed.
Lemma read_nums_join l : Forall is_u64 l -> l <> [] -> read_nums (split_byte comma (join [comma] (map show_uint l))) = Some l.
Proof.
  assert (forall n, is_u64 n -> contains_byte comma (show_uint n) = false) as S
    by (intros n U; apply digits_no_byte; [reflexivity | apply show_uint_digits; unfold_ints; lia]).
  intros F N. induction F as [|n l U F IH]; [congruence|]. destruct l as [|m l].
  - cbn [map join]. rewrite split_byte_last by auto. cbn [read_nums]. rewrite parse_show_uint by (unfold_ints; lia). reflexivity.
  - cbn [map]. rewrite join_cons, split_byte_piece by auto. cbn [map] in IH. cbn [read_nums]. rewrite parse_show_uint, IH by (congruence || (unfold_ints; lia)). reflexivity.
Qed.
Lemma read_value_write v rest : fits v -> ends_value rest = true -> read_value (write_value v ++ rest) = Some (read_as v, rest).
Proof.
  intros F E. destruct v as [|[|]|n|s|s|l]; try reflexivity.
  - destruct (show_uint_first n F) as (d & ds & S & D & Ds). cbn [write_value]. rewrite S.
    unfold read_value. cbn [app]. change (d :: ds ++ rest) with ((d :: ds) ++ rest). rewrite digits_app by (cbn; rewrite ?D, ?Ds; auto). cbn [fst snd].
    rewrite <- S, parse_show_uint by (cbn [fits] in F; unfold_ints; lia). destruct d; try discriminate D; reflexivity.
  - cbn [write_value quoted app]. rewrite <- app_assoc. cbn [read_value app]. change (bz quote =? 34) with true. cbn [app]. rewrite read_escaped. reflexivity.
  - cbn [write_value quoted app]. rewrite <- app_assoc. cbn [read_value app]. change (bz quote =? 34) with true. cbn [app]. rewrite plain_read by exact F. reflexivity.
  - cbn [write_value app]. rewrite <- app_assoc. cbn [read_value]. change (bz (zb 91) =? 34) with false. change (bz (zb 91) =? 91) with true. cbn iota.
    rewrite split_once_app by (apply nums_no_byte; [exact F | reflexivity | discriminate]).
    destruct l as [|n l]; [reflexivity|]. destruct (join [comma] (map show_uint (n :: l))) as [|x y] eqn:J.
    + exfalso. cbn [map] in J. inversion F as [|? ? U _]; subst. destruct (show_uint_first n U) as (d & ds & S & _). rewrite S in J. destruct l; discriminate.
    + rewrite <- J, read_nums_join by (exact F || discriminate). reflexivity.
Qed.

(** One member, and the separator or the brace after it. *)
Lemma read_member fuel k v b rest : plain k = true -> fits v -> is_ascii_digit b = false ->
  read_members (S fuel) (write_field (k, v) ++ b :: rest) =
  if bz b =? 125 then Some ([(k, read_as v)], rest)
  else if bz b =? 44 then match read_members fuel rest with Some (fs, rest) => Some ((k, read_as v) :: fs, rest) | None => None end
  else None.
Proof.
  intros K V B. unfold write_field, quoted. cbn [fst snd app]. rewrite <- !app_assoc. cbn [app read_members]. change (bz quote =? 34) with true. cbn iota.
  rewrite plain_read by exact K. change (bs ":") with [zb 58]. cbn [app]. change (bz (zb 58) =? 58) with true. cbn iota.
  rewrite read_value_write; [reflexivity | exact V | cbn; rewrite B; reflexivity].
Qed.
Lemma read_members_write fs rest fuel : fs <> [] -> Forall fits_field fs -> (length fs <= fuel)%nat ->
  read_members fuel (write_fields fs ++ bs "}" ++ rest) = Some (map field_as fs, rest).
Proof.
  intros N F. revert fuel N. unfold write_fields. change (bs "}") with [zb 125]. cbn [app].
  induction F as [|[k v] fs [K V] F IH]; intros fuel N L; [congruence|]. destruct fuel as [|fuel]; [cbn in L; lia|]. cbn [length] in L.
  destruct fs as [|f fs]; cbn [map].
  - cbn [join]. rewrite read_member by (exact K || exact V || reflexivity). reflexivity.
  - rewrite join_cons, <- !app_assoc. cbn [app]. rewrite read_member by (exact K || exact V || reflexivity).
    change (bz comma =? 125) with false. change (bz comma =? 44) with true. cbn iota. cbn [map] in IH. rewrite IH by (discriminate || lia). reflexivity.
Qed.
Lemma write_fields_length fs : (length fs <= length (write_fields fs))%nat.
Proof.
  unfold write_fields. induction fs as [|f fs IH]; [cbn; lia|]. destruct fs as [|g fs].
  - cbn [map join length]. unfold write_field, quoted. rewrite !length_app. cbn [length]. lia.
  - cbn [map] in *. rewrite join_cons, !length_app. unfold write_field at 1, quoted. rewrite !length_app. cbn [length] in *. lia.
Qed.
Lemma read_object_write fs rest : fs <> [] -> Forall fits_field fs -> read_object (write_object fs ++ rest) = Some (map field_as fs, rest).
Proof.
  intros N F. unfold write_object. rewrite <- !app_assoc. change (bs "{") with [zb 123]. cbn [app read_object]. change (bz (zb 123) =? 123) with true. cbn iota.
  apply read_members_write; [exact N | exact F | rewrite !length_app; pose proof (write_fields_length fs); lia].
Qed.
Lemma write_fields_app fs gs : fs <> [] -> gs <> [] -> write_fields (fs ++ gs) = write_fields fs ++ [comma] ++ write_fields gs.
Proof.
  intros N M. unfold write_fields. induction fs as [|f fs IH]; [congruence|]. destruct fs as [|g fs].
  - cbn [app map]. destruct gs as [|g gs]; [congruence|]. reflexivity.
  - cbn [app map] in *. rewrite !join_cons, IH by discriminate. rewrite <- !app_assoc. reflexivity.
Qed.
