(* ===== verification/HopFrame.v ===== *)
(** * HopFrame: the binary worker-hop codec

    Model of [crates/oxo-core/src/hop_frame.rs]: the request and response frames the
    edge and the native worker exchange.  [encode_*] append to a byte buffer and may
    fail part way ([writer]); [decode_*] move a length-checked cursor over the exact
    envelope ([reader]).  The wire layout is stated separately as the specification
    functions [request_envelope] and [response_envelope]; the theorems show that the
    encoders write exactly that layout, that the decoders accept exactly that layout
    under the configured caps, and that the two are inverse to each other. *)

From S2P Require Import Prelude Text.

(** ** Constants *)

Definition FRAME_MAGIC : byte := zb 191.
Definition FRAME_VERSION : byte := zb 1.
Definition FRAME_FIXED_SLACK : Z := 4096.
Definition PREFIX_LEN : Z := 6.

(** ** Data *)

Inductive FrameError : Type :=
| BadMagic (b : byte)
| BadVersion (b : byte)
| EnvelopeTooLarge (declared max : Z)
| EnvelopeTilingMismatch (declared consumed : Z)
| Truncated
| NotUtf8
| TooManyHeaders (declared max : Z)
| HeaderBytesExceeded (max : Z)
| BodyTooLarge (declared max : Z)
| ControlByteInHeader
| BadScheme (b : byte)
| BadResponseType (b : byte)
| BadStatus (s : Z)
| LengthOverflow.

Abbreviation FResult := (result FrameError).

#[global] Instance FrameError_eq_dec : EqDecision FrameError.
Proof. solve_decision. Defined.

Inductive Scheme : Type := Http | Https.
#[global] Instance Scheme_eq_dec : EqDecision Scheme.
Proof. solve_decision. Defined.

Definition scheme_to_byte (s : Scheme) : byte :=
  match s with Http => zb 0 | Https => zb 1 end.

Definition scheme_from_byte (b : byte) : FResult Scheme :=
  if bz b =? 0 then Ok Http else if bz b =? 1 then Ok Https else Err (BadScheme b).

Definition scheme_as_str (s : Scheme) : bytes :=
  match s with Http => bs "http" | Https => bs "https" end.

Record FrameCaps : Type := {
  max_header_bytes : Z;   (* u32 *)
  max_headers : Z;        (* u16 *)
  max_body_bytes : Z;     (* u32 *)
}.

Definition max_remaining_length (caps : FrameCaps) : Z :=
  FRAME_FIXED_SLACK + max_header_bytes caps + max_body_bytes caps.

Abbreviation header := (bytes * bytes)%type.

Record RequestFrame : Type := {
  method : bytes;
  path : bytes;
  query : bytes;
  server_name : bytes;
  server_port : Z;        (* u16 *)
  scheme : Scheme;
  remote_addr : bytes;
  headers : list header;
  body : bytes;
}.
#[global] Instance RequestFrame_eq_dec : EqDecision RequestFrame.
Proof. solve_decision. Defined.

Inductive ResponseFrame : Type :=
| Full (status : Z) (headers : list header) (body : bytes)
| Head (status : Z) (headers : list header)
| Chunk (data : bytes)
| End_.
#[global] Instance ResponseFrame_eq_dec : EqDecision ResponseFrame.
Proof. solve_decision. Defined.

Definition RESP_FULL : byte := zb 0.
Definition RESP_HEAD : byte := zb 1.
Definition RESP_CHUNK : byte := zb 2.
Definition RESP_END : byte := zb 3.

(** ** The six-byte prefix *)

(** A [[u8; 6]]. *)
Record prefix6 : Type := P6 { p0 : byte; p1 : byte; p2 : byte; p3 : byte; p4 : byte; p5 : byte }.
Definition prefix_bytes (p : prefix6) : bytes := [p0 p; p1 p; p2 p; p3 p; p4 p; p5 p].

(** [FramePrefix::parse]; the result is [remaining_length]. *)
Definition prefix_parse (p : prefix6) (caps : FrameCaps) : FResult Z :=
  if negb (bool_decide (p0 p = FRAME_MAGIC)) then Err (BadMagic (p0 p))
  else if negb (bool_decide (p1 p = FRAME_VERSION)) then Err (BadVersion (p1 p))
  else
    let remaining_length := from_le [p2 p; p3 p; p4 p; p5 p] in
    let max := max_remaining_length caps in
    if remaining_length >? max then Err (EnvelopeTooLarge remaining_length max)
    else Ok remaining_length.

(** ** The cursor *)

Record Cursor : Type := { buf : bytes; pos : nat }.

Definition cursor_new (b : bytes) : Cursor := {| buf := b; pos := 0 |}.
Definition remaining (c : Cursor) : nat := length (buf c) - pos c.

(** A cursor method: [&mut self] and a fallible result.  The cursor is not observed
    after an error, so an error carries none. *)
Definition reader (A : Type) : Type := Cursor -> FResult (A * Cursor).

Definition rd_ret {A} (a : A) : reader A := fun c => Ok (a, c).
Definition rd_err {A} (e : FrameError) : reader A := fun _ => Err e.
Definition rd_bind {A B} (d : reader A) (k : A -> reader B) : reader B :=
  fun c => let? (a, c') := d c in k a c'.
Definition rd_lift {A} (r : FResult A) : reader A := fun c => let? a := r in Ok (a, c).

Notation "'read' x ':=' c 'in' k" := (rd_bind c (fun x => k))
  (at level 10, x name, c at level 200, k at level 200) : oxo_scope.

Definition cur_take (n : Z) : reader bytes := fun c =>
  if n >? Z.of_nat (remaining c) then Err Truncated
  else let k := Z.to_nat n in
       Ok (take k (drop (pos c) (buf c)), {| buf := buf c; pos := pos c + k |}).

Definition cur_u8 : reader byte :=
  read b := cur_take 1 in
  match b with x :: _ => rd_ret x | [] => rd_err Truncated end.
Definition cur_u16 : reader Z := read b := cur_take 2 in rd_ret (from_le b).
Definition cur_u32 : reader Z := read b := cur_take 4 in rd_ret (from_le b).

(** [std::str::from_utf8(..).map_err(|_| NotUtf8)]. *)
Definition str_from (b : bytes) : FResult bytes := if utf8 b then Ok b else Err NotUtf8.

Definition short_str : reader bytes :=
  read len := cur_u16 in read b := cur_take len in rd_lift (str_from b).
Definition long_str : reader bytes :=
  read len := cur_u32 in read b := cur_take len in rd_lift (str_from b).

Definition reject_control_bytes (s : bytes) : FResult unit :=
  if existsb is_ctl s then Err ControlByteInHeader else Ok tt.

(** ** The output buffer *)

(** A function on [out: &mut Vec<u8>]: the buffer is observable after an error too. *)
Definition writer : Type := bytes -> bytes * FResult unit.

Definition wr_push (b : bytes) : writer := fun out => (out ++ b, Ok tt).
Definition wr_err (e : FrameError) : writer := fun out => (out, Err e).
Definition wr_skip : writer := fun out => (out, Ok tt).
Definition wr_seq (w1 w2 : writer) : writer := fun out =>
  match w1 out with
  | (out', Ok _) => w2 out'
  | (out', Err e) => (out', Err e)
  end.
Notation "w1 ;> w2" := (wr_seq w1 w2) (at level 90, right associativity) : oxo_scope.

Definition encode_short (s : bytes) : writer :=
  match try_from_u16 (zlen s) with
  | Some len => wr_push (to_le 2 len) ;> wr_push s
  | None => wr_err LengthOverflow
  end.
Definition encode_long_str (s : bytes) : writer :=
  match try_from_u32 (zlen s) with
  | Some len => wr_push (to_le 4 len) ;> wr_push s
  | None => wr_err LengthOverflow
  end.
Definition encode_long_bytes (b : bytes) : writer :=
  match try_from_u32 (zlen b) with
  | Some len => wr_push (to_le 4 len) ;> wr_push b
  | None => wr_err LengthOverflow
  end.

(** The [for (name, value) in headers] loop of the encoders. *)
Fixpoint encode_header_loop (hs : list header) : writer :=
  match hs with
  | [] => wr_skip
  | (name, value) :: hs' =>
      encode_short name ;> encode_long_str value ;> encode_header_loop hs'
  end.

Definition encode_headers (hs : list header) : writer :=
  match try_from_u16 (zlen hs) with
  | Some count => wr_push (to_le 2 count) ;> encode_header_loop hs
  | None => wr_err LengthOverflow
  end.

(** One turn of the decoding loop: name, value, control bytes, running size. *)
Definition decode_header (max_hb header_bytes : Z) : reader (header * Z) :=
  read name := short_str in
  read value := long_str in
  read _ := rd_lift (reject_control_bytes name) in
  read _ := rd_lift (reject_control_bytes value) in
  read n := rd_lift (ok_or (try_from_u32 (zlen name)) LengthOverflow) in
  read hb := rd_lift (ok_or
      (match checked_add u32_max header_bytes n with
       | Some m => match try_from_u32 (zlen value) with
                   | Some v => checked_add u32_max m v
                   | None => None
                   end
       | None => None
       end) (HeaderBytesExceeded max_hb)) in
  if hb >? max_hb then rd_err (HeaderBytesExceeded max_hb)
  else rd_ret ((name, value), hb).

Fixpoint decode_header_loop (count : nat) (max_hb header_bytes : Z) : reader (list header) :=
  match count with
  | O => rd_ret []
  | S k =>
      read h := decode_header max_hb header_bytes in
      read hs := decode_header_loop k max_hb (snd h) in
      rd_ret (fst h :: hs)
  end.

Definition decode_headers (max_hs max_hb : Z) : reader (list header) :=
  read count := cur_u16 in
  if count >? max_hs then rd_err (TooManyHeaders count max_hs)
  else decode_header_loop (Z.to_nat count) max_hb 0.

(** ** Frame assembly *)

(** [start_frame]: magic, version and a zeroed length hole.  The capacity hint has no
    observable effect and is left out. *)
Definition start_frame : bytes := [FRAME_MAGIC; FRAME_VERSION] ++ to_le 4 0.

(** [finish_frame]: backfill bytes 2..6 with the envelope length. *)
Definition finish_frame (out : bytes) : FResult bytes :=
  let envelope_len := zlen out - PREFIX_LEN in
  let? remaining := ok_or (try_from_u32 envelope_len) LengthOverflow in
  Ok (take 2 out ++ to_le 4 remaining ++ drop 6 out).

(** Run a writer on an owned buffer and finish the frame. *)
Definition finish_writer (r : bytes * FResult unit) : FResult bytes :=
  match r with
  | (out, Ok _) => finish_frame out
  | (_, Err e) => Err e
  end.

Definition encode_request (req : RequestFrame) : FResult bytes :=
  finish_writer
    ((encode_short (method req) ;>
      encode_long_str (path req) ;>
      encode_long_str (query req) ;>
      encode_short (server_name req) ;>
      wr_push (to_le 2 (server_port req)) ;>
      wr_push [scheme_to_byte (scheme req)] ;>
      encode_short (remote_addr req) ;>
      encode_headers (headers req) ;>
      encode_long_bytes (body req)) start_frame).

(** [RequestFrameRef]: the same fields, borrowed, without the header list. *)
Record RequestFrameRef : Type := {
  r_method : bytes;
  r_path : bytes;
  r_query : bytes;
  r_server_name : bytes;
  r_server_port : Z;
  r_scheme : Scheme;
  r_remote_addr : bytes;
  r_body : bytes;
}.

(** [encode_request_ref_into]: the buffer is cleared first and holds whatever was
    written when an error occurs. *)
Definition encode_request_ref_into (out0 : bytes) (req : RequestFrameRef)
    (header_count : Z) (hs : list header) : bytes * FResult unit :=
  let out := [] ++ [FRAME_MAGIC] ++ [FRAME_VERSION] ++ to_le 4 0 in
  let w :=
    encode_short (r_method req) ;>
    encode_long_str (r_path req) ;>
    encode_long_str (r_query req) ;>
    encode_short (r_server_name req) ;>
    wr_push (to_le 2 (r_server_port req)) ;>
    wr_push [scheme_to_byte (r_scheme req)] ;>
    encode_short (r_remote_addr req) ;>
    match try_from_u16 header_count with
    | Some count => wr_push (to_le 2 count)
    | None => wr_err LengthOverflow
    end ;>
    encode_header_loop hs ;>
    (if negb (zlen hs =? header_count) then wr_err LengthOverflow else wr_skip) ;>
    encode_long_bytes (r_body req) in
  match w out with
  | (out, Ok _) =>
      let envelope_len := zlen out - PREFIX_LEN in
      match try_from_u32 envelope_len with
      | Some remaining => (take 2 out ++ to_le 4 remaining ++ drop 6 out, Ok tt)
      | None => (out, Err LengthOverflow)
      end
  | (out, Err e) => (out, Err e)
  end.

(** [encode_request_ref]: the same into a fresh buffer. *)
Definition encode_request_ref (req : RequestFrameRef) (header_count : Z)
    (hs : list header) : FResult bytes :=
  match encode_request_ref_into [] req header_count hs with
  | (out, Ok _) => Ok out
  | (_, Err e) => Err e
  end.

(** ** Decoding *)

(** The declared body length is checked against the cap before the bytes are taken. *)
Definition take_body (max : Z) : reader bytes :=
  read len := cur_u32 in
  if len >? max then rd_err (BodyTooLarge len max) else cur_take len.

(** The tiling check that ends both decoders. *)
Definition tiled {A} (envelope : bytes) (r : A * Cursor) : FResult A :=
  let '(a, c) := r in
  if negb (Z.of_nat (remaining c) =? 0)
  then Err (EnvelopeTilingMismatch (zlen envelope mod 2 ^ 32) (Z.of_nat (pos c)))
  else Ok a.

Definition decode_request_fields (caps : FrameCaps) : reader RequestFrame :=
  read method := short_str in
  read path := long_str in
  read query := long_str in
  read server_name := short_str in
  read server_port := cur_u16 in
  read sb := cur_u8 in
  read scheme := rd_lift (scheme_from_byte sb) in
  read remote_addr := short_str in
  read headers := decode_headers (max_headers caps) (max_header_bytes caps) in
  read body := take_body (max_body_bytes caps) in
  rd_ret {| method := method; path := path; query := query; server_name := server_name;
            server_port := server_port; scheme := scheme; remote_addr := remote_addr;
            headers := headers; body := body |}.

Definition decode_request (envelope : bytes) (caps : FrameCaps) : FResult RequestFrame :=
  let? r := decode_request_fields caps (cursor_new envelope) in
  tiled envelope r.

(** ** Responses *)

Definition validate_status (status : Z) : FResult Z :=
  if (100 <=? status) && (status <=? 599) then Ok status else Err (BadStatus status).

Definition encode_response (resp : ResponseFrame) : FResult bytes :=
  finish_writer
    (match resp with
     | Full status hs body =>
         wr_push [RESP_FULL] ;> wr_push (to_le 2 status) ;>
         encode_headers hs ;> encode_long_bytes body
     | Head status hs =>
         wr_push [RESP_HEAD] ;> wr_push (to_le 2 status) ;> encode_headers hs
     | Chunk data => wr_push [RESP_CHUNK] ;> encode_long_bytes data
     | End_ => wr_push [RESP_END]
     end start_frame).

Definition decode_response_fields (caps : FrameCaps) : reader ResponseFrame :=
  read ty := cur_u8 in
  if decide (ty = RESP_FULL) then
    read st := cur_u16 in
    read status := rd_lift (validate_status st) in
    read hs := decode_headers (max_headers caps) (max_header_bytes caps) in
    read body := take_body (max_body_bytes caps) in
    rd_ret (Full status hs body)
  else if decide (ty = RESP_HEAD) then
    read st := cur_u16 in
    read status := rd_lift (validate_status st) in
    read hs := decode_headers (max_headers caps) (max_header_bytes caps) in
    rd_ret (Head status hs)
  else if decide (ty = RESP_CHUNK) then
    read data := take_body (max_body_bytes caps) in
    rd_ret (Chunk data)
  else if decide (ty = RESP_END) then rd_ret End_
  else rd_err (BadResponseType ty).

Definition decode_response (envelope : bytes) (caps : FrameCaps) : FResult ResponseFrame :=
  let? r := decode_response_fields caps (cursor_new envelope) in
  tiled envelope r.

(** ** The wire layout, as a specification *)

Definition short_bytes (s : bytes) : bytes := to_le 2 (zlen s) ++ s.
Definition long_bytes (s : bytes) : bytes := to_le 4 (zlen s) ++ s.
Definition header_wire (h : header) : bytes := short_bytes (fst h) ++ long_bytes (snd h).
Definition headers_wire (hs : list header) : bytes :=
  to_le 2 (zlen hs) ++ concat (map header_wire hs).

Definition request_envelope (r : RequestFrame) : bytes :=
  short_bytes (method r) ++ long_bytes (path r) ++ long_bytes (query r) ++
  short_bytes (server_name r) ++ to_le 2 (server_port r) ++ [scheme_to_byte (scheme r)] ++
  short_bytes (remote_addr r) ++ headers_wire (headers r) ++ long_bytes (body r).

Definition response_envelope (r : ResponseFrame) : bytes :=
  match r with
  | Full status hs body => [RESP_FULL] ++ to_le 2 status ++ headers_wire hs ++ long_bytes body
  | Head status hs => [RESP_HEAD] ++ to_le 2 status ++ headers_wire hs
  | Chunk data => [RESP_CHUNK] ++ long_bytes data
  | End_ => [RESP_END]
  end.

Arguments short_bytes : simpl never.
Arguments long_bytes : simpl never.
Arguments header_wire : simpl never.
Arguments headers_wire : simpl never.

(** A frame: magic, version, envelope length, envelope. *)
Definition framed (envelope : bytes) : bytes :=
  [FRAME_MAGIC; FRAME_VERSION] ++ to_le 4 (zlen envelope) ++ envelope.

(** The summed size of the header names and values. *)
Fixpoint header_total (hs : list header) : Z :=
  match hs with
  | [] => 0
  | (n, v) :: hs' => zlen n + zlen v + header_total hs'
  end.

(** What the wire can carry at all: every length field fits. *)
Definition header_fits (h : header) : bool :=
  (zlen (fst h) <=? u16_max) && (zlen (snd h) <=? u32_max).
Definition headers_fit (hs : list header) : bool :=
  (zlen hs <=? u16_max) && forallb header_fits hs.
Definition request_fits (r : RequestFrame) : bool :=
  (zlen (method r) <=? u16_max) && (zlen (path r) <=? u32_max) && (zlen (query r) <=? u32_max)
  && (zlen (server_name r) <=? u16_max) && (zlen (remote_addr r) <=? u16_max)
  && headers_fit (headers r) && (zlen (body r) <=? u32_max).
Definition response_fits (r : ResponseFrame) : bool :=
  match r with
  | Full _ hs body => headers_fit hs && (zlen body <=? u32_max)
  | Head _ hs => headers_fit hs
  | Chunk data => zlen data <=? u32_max
  | End_ => true
  end.

(** What a decoder with given caps admits. *)
Definition clean_text (s : bytes) : bool := utf8 s && negb (existsb is_ctl s).
Definition header_ok (h : header) : bool :=
  header_fits h && clean_text (fst h) && clean_text (snd h).
Definition headers_ok (caps : FrameCaps) (hs : list header) : Prop :=
  zlen hs <= Z.min u16_max (max_headers caps) /\
  forallb header_ok hs = true /\ header_total hs <= max_header_bytes caps.
Definition request_ok (caps : FrameCaps) (r : RequestFrame) : Prop :=
  (utf8 (method r) && utf8 (path r) && utf8 (query r) && utf8 (server_name r)
   && utf8 (remote_addr r)) = true /\
  is_u16 (server_port r) /\ request_fits r = true /\
  headers_ok caps (headers r) /\ zlen (body r) <= max_body_bytes caps.
Definition response_ok (caps : FrameCaps) (r : ResponseFrame) : Prop :=
  response_fits r = true /\
  match r with
  | Full status hs body =>
      100 <= status <= 599 /\ headers_ok caps hs /\ zlen body <= max_body_bytes caps
  | Head status hs => 100 <= status <= 599 /\ headers_ok caps hs
  | Chunk data => zlen data <= max_body_bytes caps
  | End_ => True
  end.

(** The caps hold values of their machine types. *)
Definition caps_wf (caps : FrameCaps) : Prop :=
  is_u32 (max_header_bytes caps) /\ is_u16 (max_headers caps) /\ is_u32 (max_body_bytes caps).

(** ** Readers as relations

    [denotes d R]: [d] succeeds with [a] exactly when the unread input starts with some
    bytes [b] related to [a] by [R], and it consumes exactly those. *)

Definition rest (c : Cursor) : bytes := drop (pos c) (buf c).
Definition cur_wf (c : Cursor) : Prop := (pos c <= length (buf c))%nat.
Definition consumes (c : Cursor) (b : bytes) (c' : Cursor) : Prop :=
  rest c = b ++ rest c' /\ c' = {| buf := buf c; pos := pos c + length b |}.
Definition denotes {A} (d : reader A) (R : A -> bytes -> Prop) : Prop :=
  forall c a c', cur_wf c -> d c = Ok (a, c') <-> exists b, R a b /\ consumes c b c'.

Lemma consumes_wf c b c' : cur_wf c -> consumes c b c' -> cur_wf c'.
Proof.
  unfold cur_wf, consumes, rest. intros Hwf [Hr ->]. simpl in *.
  apply (f_equal length) in Hr. rewrite length_app, !length_drop in Hr. lia.
Qed.

Lemma consumes_nil c c' : consumes c [] c' <-> c' = c.
Proof.
  unfold consumes, rest. destruct c as [bf p]; simpl. rewrite Nat.add_0_r.
  split; [intros [_ ->]; reflexivity | intros ->; auto].
Qed.

Lemma consumes_app c b1 b2 c'' :
  consumes c (b1 ++ b2) c'' <-> exists c', consumes c b1 c' /\ consumes c' b2 c''.
Proof.
  unfold consumes, rest. split.
  - intros [Hr ->]. simpl in *. rewrite length_app in *.
    exists {| buf := buf c; pos := pos c + length b1 |}. simpl.
    assert (Hd : drop (pos c + length b1) (buf c)
                 = b2 ++ drop (pos c + (length b1 + length b2)) (buf c)).
    { rewrite <- drop_drop, Hr, <- app_assoc, drop_app_exact. reflexivity. }
    assert (Ha : (pos c + length b1 + length b2 = pos c + (length b1 + length b2))%nat) by lia.
    rewrite Ha, Hd, Hr, <- app_assoc. auto.
  - intros (c' & [Hr1 ->] & [Hr2 ->]). simpl in *.
    assert (Ha : (pos c + length b1 + length b2 = pos c + (length b1 + length b2))%nat) by lia.
    rewrite Hr1, Hr2, length_app, <- app_assoc, Ha. auto.
Qed.

Lemma denotes_ext {A} (d : reader A) R R' :
  (forall a b, R a b <-> R' a b) -> denotes d R -> denotes d R'.
Proof. intros HR Hd c a c' Hwf. rewrite (Hd c a c' Hwf). setoid_rewrite HR. reflexivity. Qed.

Lemma denotes_ret {A} (x : A) : denotes (rd_ret x) (fun a b => a = x /\ b = []).
Proof.
  intros c a c' _. unfold rd_ret. split.
  - intros [= <- <-]. exists []. rewrite consumes_nil. auto.
  - intros (b & [-> ->] & Hc). apply consumes_nil in Hc. subst. reflexivity.
Qed.

Lemma denotes_lift {A} (r : FResult A) : denotes (rd_lift r) (fun a b => r = Ok a /\ b = []).
Proof.
  intros c a c' _. unfold rd_lift. rewrite rbind_ok. split.
  - intros (x & -> & [= <- <-]). exists []. rewrite consumes_nil. auto.
  - intros (b & [-> ->] & Hc). apply consumes_nil in Hc. subst. eauto.
Qed.

Lemma denotes_err {A} e : denotes (@rd_err A e) (fun _ _ => False).
Proof. intros c a c' _. unfold rd_err. split; [discriminate | naive_solver]. Qed.

Lemma denotes_bind {A B} (d : reader A) (k : A -> reader B) R S :
  denotes d R -> (forall a, denotes (k a) (S a)) ->
  denotes (rd_bind d k)
    (fun x b => exists a b1 b2, R a b1 /\ S a x b2 /\ b = b1 ++ b2).
Proof.
  intros Hd Hk c x c'' Hwf. unfold rd_bind. rewrite rbind_ok. split.
  - intros ([a c'] & H1 & H2). apply (Hd c a c' Hwf) in H1 as (b1 & HR & Hc1).
    apply (Hk a c' x c'') in H2 as (b2 & HS & Hc2); [|eauto using consumes_wf].
    exists (b1 ++ b2). rewrite consumes_app. naive_solver.
  - intros (b & (a & b1 & b2 & HR & HS & ->) & Hc).
    apply consumes_app in Hc as (c' & Hc1 & Hc2). exists (a, c'). split.
    + apply (Hd c a c' Hwf). eauto.
    + apply (Hk a c' x c''); eauto using consumes_wf.
Qed.

Lemma denotes_if {A} (g : bool) (d1 d2 : reader A) R1 R2 :
  denotes d1 R1 -> denotes d2 R2 ->
  denotes (if g then d1 else d2) (fun a b => if g then R1 a b else R2 a b).
Proof. destruct g; auto. Qed.

Lemma denotes_take n : 0 <= n -> denotes (cur_take n) (fun s b => zlen s = n /\ b = s).
Proof.
  intros Hn c a c' Hwf. unfold cur_take, consumes, rest, remaining, zlen, cur_wf in *. split.
  - cases_if; [discriminate|]. intros [= <- <-]. simpl.
    exists (take (Z.to_nat n) (drop (pos c) (buf c))).
    assert (Hl : length (take (Z.to_nat n) (drop (pos c) (buf c))) = Z.to_nat n).
    { rewrite length_take, length_drop. lia. }
    rewrite Hl, <- drop_drop, take_drop. repeat split. lia.
  - intros (b & [Hl ->] & [Hr ->]). simpl in Hr.
    assert (length a <= length (buf c) - pos c)%nat.
    { apply (f_equal length) in Hr. rewrite length_app, length_drop in Hr. lia. }
    cases_if; [lia|]. rewrite <- Hl, Nat2Z.id. repeat f_equal.
    rewrite Hr. apply take_app_exact.
Qed.

Lemma denotes_u8 : denotes cur_u8 (fun x b => b = [x]).
Proof.
  eapply denotes_ext; [|apply denotes_bind; [apply (denotes_take 1); lia | ]].
  2: { intros a. instantiate (1 := fun a x b => exists tl, a = x :: tl /\ b = []).
       destruct a as [|y tl]; [|].
       - eapply denotes_ext; [|apply denotes_err]. naive_solver.
       - eapply denotes_ext; [|apply denotes_ret]. naive_solver. }
  intros x b. split.
  - intros (a & b1 & b2 & [Hl ->] & (tl & -> & ->) & ->).
    unfold zlen in Hl. destruct tl; [reflexivity | simpl in Hl; lia].
  - intros ->. exists [x], [x], []. naive_solver.
Qed.

Lemma denotes_uint (n : nat) :
  denotes (read b := cur_take (Z.of_nat n) in rd_ret (from_le b))
    (fun z b => 0 <= z < 2 ^ (Z.of_nat n * 8) /\ b = to_le n z).
Proof.
  eapply denotes_ext;
    [|apply denotes_bind; [apply (denotes_take (Z.of_nat n)); lia | intros a; apply denotes_ret]].
  intros z b. split.
  - intros (a & b1 & b2 & [Hl ->] & (-> & ->) & ->). rewrite app_nil_r.
    pose proof (from_le_range a). unfold zlen in *.
    rewrite to_from_le by lia. split; [|reflexivity].
    replace (Z.of_nat n * 8) with (8 * Z.of_nat (length a)) by lia. assumption.
  - intros [Hz ->]. exists (to_le n z), (to_le n z), [].
    rewrite zlen_to_le, app_nil_r, from_to_le by assumption. auto.
Qed.

Lemma denotes_u16 : denotes cur_u16 (fun z b => is_u16 z /\ b = to_le 2 z).
Proof.
  eapply denotes_ext; [|apply (denotes_uint 2)].
  intros. change (2 ^ (Z.of_nat 2 * 8)) with 65536.
  split; intros [? ->]; split; auto; int_lia.
Qed.

Lemma denotes_u32 : denotes cur_u32 (fun z b => is_u32 z /\ b = to_le 4 z).
Proof.
  eapply denotes_ext; [|apply (denotes_uint 4)].
  intros. change (2 ^ (Z.of_nat 4 * 8)) with 4294967296.
  split; intros [? ->]; split; auto; int_lia.
Qed.

Lemma str_from_ok b s : str_from b = Ok s <-> utf8 s = true /\ b = s.
Proof.
  unfold str_from. destruct (utf8 b) eqn:E; split.
  - intros [= <-]. auto.
  - intros [_ ->]. reflexivity.
  - discriminate.
  - intros [H ->]. congruence.
Qed.

(** A length-prefixed payload: the length [rd], then that many bytes, then a check [g]. *)
Lemma denotes_prefixed {A} (rd : reader Z) (n : nat) (max : Z) (g : bytes -> reader A) G :
  0 <= max ->
  denotes rd (fun z b => 0 <= z <= max /\ b = to_le n z) ->
  (forall s, denotes (g s) (fun a b => G s a /\ b = [])) ->
  denotes (read len := rd in read s := cur_take len in g s)
    (fun a b => exists s, G s a /\ zlen s <= max /\ b = to_le n (zlen s) ++ s).
Proof.
  intros Hm Hrd Hg c a c' Hwf. unfold rd_bind at 1. rewrite rbind_ok. split.
  - intros ([len c1] & H1 & H2). apply (Hrd c len c1 Hwf) in H1 as (b1 & [Hlen ->] & Hc1).
    pose proof (consumes_wf _ _ _ Hwf Hc1) as Hwf1.
    apply (denotes_bind _ _ _ _ (denotes_take len (proj1 Hlen)) Hg c1 a c' Hwf1) in H2
      as (b2 & (s & b3 & b4 & [Hs ->] & [HG ->] & ->) & Hc2). rewrite app_nil_r in Hc2.
    exists (to_le n (zlen s) ++ s). rewrite Hs, consumes_app. split; [|eauto].
    exists s. rewrite Hs. split; [assumption|]. split; [lia | reflexivity].
  - intros (b & (s & HG & Hs & ->) & Hc). apply consumes_app in Hc as (c1 & Hc1 & Hc2).
    exists (zlen s, c1). split.
    + apply (Hrd c _ c1 Hwf). exists (to_le n (zlen s)). split; [|assumption].
      pose proof (zlen_nonneg s). auto.
    + apply (denotes_bind _ _ _ _ (denotes_take (zlen s) (zlen_nonneg s)) Hg c1 a c');
        [eauto using consumes_wf|].
      exists s. split; [|assumption]. exists s, s, []. rewrite app_nil_r. auto.
Qed.

Lemma denotes_short_str :
  denotes short_str (fun s b => utf8 s = true /\ zlen s <= u16_max /\ b = short_bytes s).
Proof.
  eapply denotes_ext; [|apply (denotes_prefixed cur_u16 2 u16_max
    (fun b => rd_lift (str_from b)) (fun b s => str_from b = Ok s))].
  - intros s b. setoid_rewrite str_from_ok. unfold short_bytes. naive_solver.
  - int_lia.
  - apply denotes_u16.
  - intros s. apply denotes_lift.
Qed.

Lemma denotes_long_str :
  denotes long_str (fun s b => utf8 s = true /\ zlen s <= u32_max /\ b = long_bytes s).
Proof.
  eapply denotes_ext; [|apply (denotes_prefixed cur_u32 4 u32_max
    (fun b => rd_lift (str_from b)) (fun b s => str_from b = Ok s))].
  - intros s b. setoid_rewrite str_from_ok. unfold long_bytes. naive_solver.
  - int_lia.
  - apply denotes_u32.
  - intros s. apply denotes_lift.
Qed.

Lemma reject_control_bytes_ok s u : reject_control_bytes s = Ok u <-> existsb is_ctl s = false.
Proof. unfold reject_control_bytes. destruct u, (existsb is_ctl s); split; congruence. Qed.

(** The running size after one more header, as the decoder computes it. *)
Lemma header_sum_ok max hb nl vl t :
  ok_or (match checked_add u32_max hb nl with
         | Some m => match try_from_u32 vl with
                     | Some v => checked_add u32_max m v
                     | None => None
                     end
         | None => None
         end) (HeaderBytesExceeded max) = Ok t ->
  t = hb + nl + vl.
Proof.
  rewrite ok_or_ok. destruct (checked_add u32_max hb nl) eqn:E1; [|discriminate].
  destruct (try_from_u32 vl) eqn:E2; [|discriminate]. intros E3.
  apply checked_add_some in E1, E3. apply try_from_u32_some in E2. lia.
Qed.

Lemma header_sum_fits max hb nl vl :
  0 <= nl -> 0 <= vl -> 0 <= hb -> hb + nl + vl <= u32_max ->
  ok_or (match checked_add u32_max hb nl with
         | Some m => match try_from_u32 vl with
                     | Some v => checked_add u32_max m v
                     | None => None
                     end
         | None => None
         end) (HeaderBytesExceeded max) = Ok (hb + nl + vl).
Proof.
  intros. apply ok_or_ok.
  rewrite (proj2 (checked_add_some u32_max hb nl (hb + nl))) by int_lia.
  rewrite (proj2 (try_from_u32_some vl vl)) by int_lia. apply checked_add_some. int_lia.
Qed.

Lemma denotes_header max hb : 0 <= hb -> is_u32 max ->
  denotes (decode_header max hb)
    (fun r b => header_ok (fst r) = true /\ snd r = hb + zlen (fst (fst r)) + zlen (snd (fst r))
                /\ snd r <= max /\ b = header_wire (fst r)).
Proof.
  intros Hhb Hmax. unfold decode_header.
  eapply denotes_ext; [|
    apply denotes_bind; [apply denotes_short_str | intros name];
    apply denotes_bind; [apply denotes_long_str | intros value];
    apply denotes_bind; [apply denotes_lift | intros u1];
    apply denotes_bind; [apply denotes_lift | intros u2];
    apply denotes_bind; [apply denotes_lift | intros n];
    apply denotes_bind; [apply denotes_lift | intros t];
    apply denotes_if; [apply denotes_err | apply denotes_ret]].
  intros [[nm vl] t] b. unfold header_ok, clean_text, header_fits, header_wire. simpl. split.
  - intros (name & b1 & b2 & (Hu1 & Hl1 & ->) & (value & b3 & b4 & (Hu2 & Hl2 & ->) & H2 & ->) & ->).
    destruct H2 as ([] & ? & b5 & [Hc1 ->] & ([] & ? & b6 & [Hc2 ->] & (n & ? & b7 & [Hn ->] &
      (t' & ? & b8 & [Ht ->] & Hif & ->) & ->) & ->) & ->).
    apply reject_control_bytes_ok in Hc1, Hc2. apply ok_or_ok, try_from_u32_some in Hn as [_ ->].
    apply header_sum_ok in Ht. destruct (t' >? max) eqn:E; [contradiction|].
    destruct Hif as [[= -> -> ->] ->]. rewrite Hu1, Hu2, Hc1, Hc2, !app_nil_l, app_nil_r. simpl.
    repeat split; try lia.
  - rewrite !andb_true_iff, !negb_true_iff. intros (Hok & Ht & Hmx & ->).
    destruct Hok as (((Hl1 & Hl2) & Hu1 & Hc1) & Hu2 & Hc2).
    pose proof (zlen_nonneg nm). pose proof (zlen_nonneg vl).
    exists nm, (short_bytes nm), (long_bytes vl). split; [repeat split; auto; lia|]. split; [|auto].
    exists vl, (long_bytes vl), []. rewrite app_nil_r. split; [repeat split; auto; lia|]. split; [|auto].
    exists tt, [], []. rewrite reject_control_bytes_ok. split; [auto|]. split; [|auto].
    exists tt, [], []. rewrite reject_control_bytes_ok. split; [auto|]. split; [|auto].
    exists (zlen nm), [], []. rewrite ok_or_ok, try_from_u32_some.
    split; [split; [int_lia | reflexivity]|]. split; [|auto].
    exists t, [], []. rewrite Ht, header_sum_fits by int_lia. split; [auto|]. split; [|auto].
    cases_if; [lia | auto].
Qed.

Lemma header_total_nonneg hs : 0 <= header_total hs.
Proof.
  induction hs as [|[n v] hs IH]; simpl; [lia|].
  pose proof (zlen_nonneg n). pose proof (zlen_nonneg v). lia.
Qed.

Lemma denotes_header_loop n max hb : 0 <= hb <= max -> is_u32 max ->
  denotes (decode_header_loop n max hb)
    (fun hs b => length hs = n /\ forallb header_ok hs = true /\ hb + header_total hs <= max
                 /\ b = concat (map header_wire hs)).
Proof.
  intros Hhb Hmax c. revert c hb Hhb. induction n as [|n IH]; intros c hb Hhb hs c' Hwf.
  - simpl. rewrite (denotes_ret [] c hs c' Hwf). split.
    + intros (b & [-> ->] & Hc). exists []. simpl. split; [|exact Hc]. repeat split; lia.
    + intros (b & (Hl & _ & _ & ->) & Hc). destruct hs; [|discriminate]. exists []. auto.
  - simpl. unfold rd_bind at 1. rewrite rbind_ok. split.
    + intros ([[h hb'] c1] & H1 & H2).
      apply denotes_header in H1 as (b1 & (Hok & Hhb' & Hle & ->) & Hc1); auto; [|lia].
      simpl in *. unfold rd_bind in H2. apply rbind_ok in H2 as ([hs1 c2] & H2 & [= <- <-]).
      pose proof (zlen_nonneg (fst h)). pose proof (zlen_nonneg (snd h)).
      apply IH in H2 as (b2 & (Hl & Hf & Ht & ->) & Hc2); [|lia|eauto using consumes_wf].
      eexists. split; [|apply consumes_app; eauto]. destruct h as [nm vl]. simpl in *.
      rewrite Hok, Hf. repeat split; auto; lia.
    + intros (b & (Hl & Hf & Ht & ->) & Hc). destruct hs as [|h hs]; [discriminate|].
      cbn [map concat forallb header_total length] in *. apply andb_true_iff in Hf as [Hok Hf].
      apply consumes_app in Hc as (c1 & Hc1 & Hc2).
      pose proof (zlen_nonneg (fst h)). pose proof (zlen_nonneg (snd h)).
      pose proof (header_total_nonneg hs). destruct h as [nm vl]. cbn [fst snd] in *.
      exists ((nm, vl, hb + zlen nm + zlen vl), c1). split.
      * apply denotes_header; auto; [lia|]. eexists. split; [|eassumption]. simpl.
        repeat split; auto. lia.
      * unfold rd_bind. apply rbind_ok. exists (hs, c'). split; [|reflexivity].
        apply IH; [simpl; lia | eauto using consumes_wf |].
        eexists. split; [|eassumption]. simpl. repeat split; auto; lia.
Qed.

Lemma denotes_headers caps : caps_wf caps ->
  denotes (decode_headers (max_headers caps) (max_header_bytes caps))
    (fun hs b => headers_ok caps hs /\ b = headers_wire hs).
Proof.
  intros (Hmb & Hmh & _) c hs c' Hwf. unfold decode_headers, rd_bind. rewrite rbind_ok.
  unfold headers_ok, headers_wire. split.
  - intros ([n c1] & H1 & H2). apply denotes_u16 in H1 as (b1 & [Hn ->] & Hc1); [|assumption].
    destruct (n >? max_headers caps) eqn:E; [discriminate|].
    apply denotes_header_loop in H2 as (b2 & (Hl & Hf & Ht & ->) & Hc2);
      [|int_lia|assumption|eauto using consumes_wf].
    assert (Hz : zlen hs = n) by (unfold zlen; rewrite Hl; int_lia).
    eexists. split; [|apply consumes_app; eauto]. rewrite Hz. repeat split; auto; int_lia.
  - intros (b & ((Hz & Hf & Ht) & ->) & Hc). apply consumes_app in Hc as (c1 & Hc1 & Hc2).
    pose proof (zlen_nonneg hs). exists (zlen hs, c1). split.
    + apply denotes_u16; [assumption|]. eexists. split; [|eassumption].
      split; [int_lia | reflexivity].
    + cases_if; [lia|]. apply denotes_header_loop; [int_lia|assumption|eauto using consumes_wf|].
      eexists. split; [|eassumption]. unfold zlen. rewrite Nat2Z.id. repeat split; auto; lia.
Qed.

Lemma denotes_body max : is_u32 max ->
  denotes (take_body max) (fun s b => zlen s <= max /\ b = long_bytes s).
Proof.
  intros Hmax c s c' Hwf. unfold take_body, rd_bind. rewrite rbind_ok. unfold long_bytes. split.
  - intros ([n c1] & H1 & H2). apply denotes_u32 in H1 as (b1 & [Hn ->] & Hc1); [|assumption].
    destruct (n >? max) eqn:E; [discriminate|].
    apply denotes_take in H2 as (b2 & [Hl ->] & Hc2); [|int_lia|eauto using consumes_wf].
    eexists. split; [|apply consumes_app; eauto]. rewrite Hl. split; [lia | reflexivity].
  - intros (b & [Hl ->] & Hc). apply consumes_app in Hc as (c1 & Hc1 & Hc2).
    pose proof (zlen_nonneg s). exists (zlen s, c1). split.
    + apply denotes_u32; [assumption|]. eexists. split; [|eassumption].
      split; [int_lia | reflexivity].
    + cases_if; [lia|]. apply denotes_take; [assumption|eauto using consumes_wf|]. eauto.
Qed.

Lemma scheme_from_byte_ok b s : scheme_from_byte b = Ok s <-> b = scheme_to_byte s.
Proof.
  unfold scheme_from_byte, scheme_to_byte. split.
  - cases_if; [|cases_if]; intros [= <-]; apply bz_inj; rewrite bz_zb; lia.
  - intros ->. destruct s; reflexivity.
Qed.

Lemma validate_status_ok s t : validate_status s = Ok t <-> 100 <= t <= 599 /\ s = t.
Proof.
  unfold validate_status. cases_if; split.
  - intros [= <-]. lia.
  - intros [_ ->]. reflexivity.
  - discriminate.
  - intros [? ->]. lia.
Qed.

Lemma denotes_tiled {A} (d : reader A) R envelope a :
  denotes d R ->
  (let? r := d (cursor_new envelope) in tiled envelope r) = Ok a <-> R a envelope.
Proof.
  intros Hd. rewrite rbind_ok. unfold tiled.
  assert (Hwf : cur_wf (cursor_new envelope)) by (unfold cur_wf; simpl; lia). split.
  - intros ([a' c] & H1 & H2). cases_if; [discriminate|]. injection H2 as ->.
    apply (Hd _ _ _ Hwf) in H1 as (b & HR & Hc). pose proof (consumes_wf _ _ _ Hwf Hc) as Hwf'.
    destruct Hc as [He ->]. unfold rest, remaining, cur_wf in *. simpl in *.
    rewrite drop_0, (drop_ge _ (length b)), app_nil_r in He by lia. subst. assumption.
  - intros HR. exists (a, {| buf := envelope; pos := length envelope |}). split.
    + apply (Hd _ _ _ Hwf). exists envelope. split; [assumption|].
      unfold consumes, rest. simpl. rewrite drop_all, app_nil_r. auto.
    + unfold remaining. simpl. rewrite Nat.sub_diag. reflexivity.
Qed.

(** Solve the relation of a chain of readers: split the existential package of the
    left-hand side, or rebuild it from the fields. *)
Ltac chain_inv :=
  repeat match goal with
  | H : exists _, _ |- _ => destruct H
  | H : _ /\ _ |- _ => destruct H
  | H : scheme_from_byte _ = Ok _ |- _ => apply scheme_from_byte_ok in H
  | H : validate_status _ = Ok _ |- _ => apply validate_status_ok in H
  end; subst.
Ltac chain_step x b :=
  exists x, b; eexists; split; [solve [auto] | split; [| reflexivity]].
Ltac chain_last x b :=
  exists x, b, []; rewrite app_nil_r; solve [auto].

Lemma denotes_request caps : caps_wf caps ->
  denotes (decode_request_fields caps)
    (fun r b => request_ok caps r /\ b = request_envelope r).
Proof.
  intros Hc. unfold decode_request_fields.
  eapply denotes_ext; [|
    apply denotes_bind; [apply denotes_short_str | intros x1];
    apply denotes_bind; [apply denotes_long_str | intros x2];
    apply denotes_bind; [apply denotes_long_str | intros x3];
    apply denotes_bind; [apply denotes_short_str | intros x4];
    apply denotes_bind; [apply denotes_u16 | intros x5];
    apply denotes_bind; [apply denotes_u8 | intros x6];
    apply denotes_bind; [apply denotes_lift | intros x7];
    apply denotes_bind; [apply denotes_short_str | intros x8];
    apply denotes_bind; [apply denotes_headers, Hc | intros x9];
    apply denotes_bind; [apply denotes_body, Hc | intros x10];
    apply denotes_ret].
  intros r b. unfold request_ok, request_fits, headers_fit, request_envelope. split.
  - intros H. chain_inv. cbn.
    match goal with H : headers_ok caps _ |- _ => pose proof H as (? & Hf & _) end.
    assert (Hfit : forall hs, forallb header_ok hs = true -> forallb header_fits hs = true).
    { intros hs. rewrite !forallb_forall. unfold header_ok. intros Hx y Hy.
      apply Hx in Hy. rewrite !andb_true_iff in Hy. tauto. }
    apply Hfit in Hf. destruct Hc as (? & ? & ?).
    rewrite !andb_true_iff, !Z.leb_le, app_nil_r.
    repeat match goal with |- _ /\ _ => split end; auto; int_lia.
  - intros [(Hu & Hp & Hf & Hh & Hb) ->]. rewrite !andb_true_iff, !Z.leb_le in *.
    destruct r as [m p q sn sp sc ra hs bd]. cbn in *. chain_inv.
    assert (is_u16 sp) by assumption.
    chain_step m (short_bytes m). chain_step p (long_bytes p). chain_step q (long_bytes q).
    chain_step sn (short_bytes sn). chain_step sp (to_le 2 sp).
    chain_step (scheme_to_byte sc) [scheme_to_byte sc].
    exists sc, []. eexists. rewrite scheme_from_byte_ok. split; [auto|]. split; [|reflexivity].
    chain_step ra (short_bytes ra). chain_step hs (headers_wire hs).
    chain_last bd (long_bytes bd).
Qed.

Lemma forallb_header_fits hs : forallb header_ok hs = true -> forallb header_fits hs = true.
Proof.
  rewrite !forallb_forall. unfold header_ok. intros Hx y Hy.
  apply Hx in Hy. rewrite !andb_true_iff in Hy. tauto.
Qed.

Lemma headers_ok_fit caps hs : headers_ok caps hs -> headers_fit hs = true.
Proof.
  intros (Hz & Hf & _). unfold headers_fit.
  rewrite (forallb_header_fits _ Hf), andb_true_r. lia.
Qed.

Lemma denotes_full caps : caps_wf caps ->
  denotes
    (read st := cur_u16 in read status := rd_lift (validate_status st) in
     read hs := decode_headers (max_headers caps) (max_header_bytes caps) in
     read body := take_body (max_body_bytes caps) in rd_ret (Full status hs body))
    (fun r b => exists status hs body, r = Full status hs body /\ 100 <= status <= 599 /\
       headers_ok caps hs /\ zlen body <= max_body_bytes caps /\
       b = to_le 2 status ++ headers_wire hs ++ long_bytes body).
Proof.
  intros Hc. eapply denotes_ext; [|
    apply denotes_bind; [apply denotes_u16 | intros x1];
    apply denotes_bind; [apply denotes_lift | intros x2];
    apply denotes_bind; [apply denotes_headers, Hc | intros x3];
    apply denotes_bind; [apply denotes_body, Hc | intros x4]; apply denotes_ret].
  intros r b. split.
  - intros H. chain_inv. do 3 eexists. rewrite app_nil_r. eauto 10.
  - intros (st & hs & bd & -> & Hs & Hh & Hb & ->).
    assert (is_u16 st) by int_lia. chain_step st (to_le 2 st).
    exists st, []. eexists. rewrite validate_status_ok. split; [auto|]. split; [|reflexivity].
    chain_step hs (headers_wire hs). chain_last bd (long_bytes bd).
Qed.

Lemma denotes_head caps : caps_wf caps ->
  denotes
    (read st := cur_u16 in read status := rd_lift (validate_status st) in
     read hs := decode_headers (max_headers caps) (max_header_bytes caps) in
     rd_ret (Head status hs))
    (fun r b => exists status hs, r = Head status hs /\ 100 <= status <= 599 /\
       headers_ok caps hs /\ b = to_le 2 status ++ headers_wire hs).
Proof.
  intros Hc. eapply denotes_ext; [|
    apply denotes_bind; [apply denotes_u16 | intros x1];
    apply denotes_bind; [apply denotes_lift | intros x2];
    apply denotes_bind; [apply denotes_headers, Hc | intros x3]; apply denotes_ret].
  intros r b. split.
  - intros H. chain_inv. do 2 eexists. rewrite app_nil_r. eauto 10.
  - intros (st & hs & -> & Hs & Hh & ->).
    assert (is_u16 st) by int_lia. chain_step st (to_le 2 st).
    exists st, []. eexists. rewrite validate_status_ok. split; [auto|]. split; [|reflexivity].
    chain_last hs (headers_wire hs).
Qed.

Lemma denotes_decide {A} (P : Prop) `{Decision P} (d1 d2 : reader A) R1 R2 :
  denotes d1 R1 -> denotes d2 R2 ->
  denotes (if decide P then d1 else d2)
    (fun a b => (P /\ R1 a b) \/ (~ P /\ R2 a b)).
Proof.
  intros H1 H2. destruct (decide P).
  - eapply denotes_ext; [|exact H1]. tauto.
  - eapply denotes_ext; [|exact H2]. tauto.
Qed.

Lemma resp_tags_distinct :
  RESP_HEAD <> RESP_FULL /\ RESP_CHUNK <> RESP_FULL /\ RESP_CHUNK <> RESP_HEAD /\
  RESP_END <> RESP_FULL /\ RESP_END <> RESP_HEAD /\ RESP_END <> RESP_CHUNK.
Proof. repeat split; discriminate. Qed.

Lemma denotes_response caps : caps_wf caps ->
  denotes (decode_response_fields caps)
    (fun r b => response_ok caps r /\ b = response_envelope r).
Proof.
  intros Hc. unfold decode_response_fields. destruct resp_tags_distinct as (? & ? & ? & ? & ? & ?).
  eapply denotes_ext; [|
    apply denotes_bind; [apply denotes_u8 | intros ty];
    apply denotes_decide; [apply denotes_full, Hc |];
    apply denotes_decide; [apply denotes_head, Hc |];
    apply denotes_decide;
      [apply denotes_bind; [apply denotes_body, Hc | intros x; apply denotes_ret] |];
    apply denotes_decide; [apply denotes_ret | apply denotes_err]].
  intros r b. unfold response_ok, response_fits, response_envelope. split.
  - intros (ty & b1 & b2 & -> & Hr & ->).
    destruct Hc as (? & ? & ?).
    destruct Hr as [[-> Hr] | [? [[-> Hr] | [? [[-> Hr] | [? [[-> Hr] | [? []]]]]]]]]; chain_inv.
    + split; [|reflexivity]. split; [|auto]. rewrite (headers_ok_fit caps) by assumption. int_lia.
    + split; [|reflexivity]. split; [eauto using headers_ok_fit | auto].
    + rewrite app_nil_r. split; [|auto]. split; [int_lia | assumption].
    + auto.
  - intros [(Hf & Hok) ->]. destruct r as [st hs bd | st hs | data |]; chain_inv.
    + exists RESP_FULL, [RESP_FULL]. eexists. split; [auto|]. split; [|reflexivity].
      left. split; [reflexivity|]. eauto 10.
    + exists RESP_HEAD, [RESP_HEAD]. eexists. split; [auto|]. split; [|reflexivity].
      right. split; [assumption|]. left. eauto 10.
    + exists RESP_CHUNK, [RESP_CHUNK]. eexists. split; [auto|]. split; [|reflexivity].
      right. split; [assumption|]. right. split; [assumption|]. left. split; [reflexivity|].
      chain_last data (long_bytes data).
    + exists RESP_END, [RESP_END], []. split; [auto|]. split; [|reflexivity].
      do 3 (right; split; [assumption|]). left. auto.
Qed.

(** ** Writers *)

(** [writes w ok b]: when [ok], [w] appends [b]; otherwise it fails on an overflow. *)
Definition writes (w : writer) (ok : bool) (b : bytes) : Prop :=
  forall out, if ok then w out = (out ++ b, Ok tt) else exists out', w out = (out', Err LengthOverflow).

Lemma writes_push b : writes (wr_push b) true b.
Proof. intros out. reflexivity. Qed.

Lemma writes_seq w1 w2 g1 g2 b1 b2 :
  writes w1 g1 b1 -> writes w2 g2 b2 -> writes (w1 ;> w2) (g1 && g2) (b1 ++ b2).
Proof.
  intros H1 H2 out. unfold wr_seq. specialize (H1 out). destruct g1; simpl.
  - rewrite H1. specialize (H2 (out ++ b1)). destruct g2; [|assumption].
    rewrite H2, app_assoc. reflexivity.
  - destruct H1 as [out' ->]. eauto.
Qed.

Lemma writes_short s : writes (encode_short s) (zlen s <=? u16_max) (short_bytes s).
Proof.
  unfold encode_short, try_from_u16. cases_if; [|intros out; eexists; reflexivity].
  apply (writes_seq _ _ true true); apply writes_push.
Qed.

Lemma writes_long s : writes (encode_long_str s) (zlen s <=? u32_max) (long_bytes s).
Proof.
  unfold encode_long_str, try_from_u32. cases_if; [|intros out; eexists; reflexivity].
  apply (writes_seq _ _ true true); apply writes_push.
Qed.

Lemma writes_long_bytes s : writes (encode_long_bytes s) (zlen s <=? u32_max) (long_bytes s).
Proof. exact (writes_long s). Qed.

Lemma writes_header_loop hs :
  writes (encode_header_loop hs) (forallb header_fits hs) (concat (map header_wire hs)).
Proof.
  induction hs as [|[n v] hs IH]; [intros out; cbn; rewrite app_nil_r; reflexivity|].
  cbn [encode_header_loop forallb map concat]. unfold header_fits, header_wire at 1. cbn [fst snd].
  rewrite <- andb_assoc, <- app_assoc.
  apply writes_seq; [apply writes_short|]. apply writes_seq; [apply writes_long | exact IH].
Qed.

Lemma writes_headers hs : writes (encode_headers hs) (headers_fit hs) (headers_wire hs).
Proof.
  unfold encode_headers, headers_fit, headers_wire, try_from_u16.
  destruct (zlen hs <=? u16_max); [|intros out; eexists; reflexivity].
  apply (writes_seq _ _ true); [apply writes_push | apply writes_header_loop].
Qed.

Create HintDb oxo_wire.
#[global] Hint Resolve writes_push writes_seq writes_short writes_long writes_long_bytes
  writes_header_loop writes_headers : oxo_wire.

Lemma finish_frame_spec env :
  finish_frame (start_frame ++ env) =
  if zlen env <=? u32_max then Ok (framed env) else Err LengthOverflow.
Proof.
  unfold finish_frame, try_from_u32. replace (zlen (start_frame ++ env) - PREFIX_LEN) with (zlen env).
  - destruct (zlen env <=? u32_max); reflexivity.
  - rewrite zlen_app. change (zlen start_frame) with PREFIX_LEN. lia.
Qed.

Lemma finish_writer_spec w ok env : writes w ok env ->
  finish_writer (w start_frame) =
  if ok && (zlen env <=? u32_max) then Ok (framed env) else Err LengthOverflow.
Proof.
  intros Hw. specialize (Hw start_frame). unfold finish_writer. destruct ok; simpl.
  - rewrite Hw. apply finish_frame_spec.
  - destruct Hw as [out' ->]. reflexivity.
Qed.

Lemma encode_request_spec r :
  encode_request r =
  if request_fits r && (zlen (request_envelope r) <=? u32_max)
  then Ok (framed (request_envelope r)) else Err LengthOverflow.
Proof.
  apply finish_writer_spec. unfold request_fits, request_envelope.
  rewrite <- !andb_assoc.
  do 4 (apply writes_seq; [eauto with oxo_wire|]).
  apply (writes_seq _ _ true); [eauto with oxo_wire|].
  apply (writes_seq _ _ true); eauto with oxo_wire.
Qed.

Lemma encode_response_spec r :
  encode_response r =
  if response_fits r && (zlen (response_envelope r) <=? u32_max)
  then Ok (framed (response_envelope r)) else Err LengthOverflow.
Proof.
  apply finish_writer_spec. destruct r; unfold response_fits, response_envelope.
  1, 2: apply (writes_seq _ _ true); [eauto with oxo_wire|];
        apply (writes_seq _ _ true); eauto with oxo_wire.
  - apply (writes_seq _ _ true); eauto with oxo_wire.
  - eauto with oxo_wire.
Qed.

(** ** Truncated input

    [truncates d]: on a shortened buffer [d] either runs as before or reports
    [Truncated]; it never succeeds on less than what it consumed. *)

Definition cut (n : nat) (c : Cursor) : Cursor := {| buf := take n (buf c); pos := pos c |}.
Definition truncates {A} (d : reader A) : Prop := forall c a c' n,
  d c = Ok (a, c') -> (pos c <= n)%nat ->
  (pos c <= pos c')%nat /\ buf c' = buf c /\
  d (cut n c) = if (pos c' <=? n)%nat then Ok (a, cut n c') else Err Truncated.

Lemma truncates_ret {A} (x : A) : truncates (rd_ret x).
Proof.
  intros c a c' n [= <- <-] Hn. unfold rd_ret. rewrite (proj2 (Nat.leb_le _ _) Hn). auto.
Qed.

Lemma truncates_lift {A} (r : FResult A) : truncates (rd_lift r).
Proof.
  intros c a c' n H Hn. unfold rd_lift in *. apply rbind_ok in H as (x & -> & [= <- <-]).
  rewrite (proj2 (Nat.leb_le _ _) Hn). auto.
Qed.

Lemma truncates_err {A} e : truncates (@rd_err A e).
Proof. intros c a c' n H. discriminate. Qed.

Lemma truncates_take k : 0 <= k -> truncates (cur_take k).
Proof.
  intros Hk c a c' n H Hn. unfold cur_take, remaining in *. simpl in *.
  destruct (k >? Z.of_nat (length (buf c) - pos c)) eqn:E; [discriminate|].
  injection H as <- <-. simpl. split; [lia|]. split; [reflexivity|].
  rewrite length_take. destruct (Nat.leb_spec (pos c + Z.to_nat k) n) as [Hle | Hlt].
  - cases_if; [lia|]. unfold cut. simpl.
    rewrite skipn_firstn_comm, take_take. do 3 f_equal. lia.
  - cases_if; [reflexivity | lia].
Qed.

Lemma truncates_bind {A B} (d : reader A) (k : A -> reader B) :
  truncates d -> (forall a c c', d c = Ok (a, c') -> truncates (k a)) -> truncates (rd_bind d k).
Proof.
  intros Hd Hk c b c'' n H Hn. unfold rd_bind in *.
  apply rbind_ok in H as ([a c'] & H1 & H2).
  pose proof (Hk _ _ _ H1) as Hka. destruct (Hd c a c' n H1 Hn) as (Hp1 & Hb1 & ->).
  destruct (Nat.leb_spec (pos c') n) as [Hle | Hlt]; cbn [rbind].
  - destruct (Hka c' b c'' n H2 Hle) as (Hp2 & Hb2 & ->). repeat split; [lia | congruence].
  - destruct (Hka c' b c'' (pos c') H2 ltac:(lia)) as (Hp2 & Hb2 & _).
    rewrite (proj2 (Nat.leb_gt _ _)) by lia. repeat split; [lia | congruence].
Qed.

Lemma truncates_if {A} (g : bool) (d1 d2 : reader A) :
  truncates d1 -> truncates d2 -> truncates (if g then d1 else d2).
Proof. destruct g; auto. Qed.

Lemma truncates_decide {A} (P : Prop) `{Decision P} (d1 d2 : reader A) :
  truncates d1 -> truncates d2 -> truncates (if decide P then d1 else d2).
Proof. destruct (decide P); auto. Qed.

Lemma cur_uint_nonneg n c z c' :
  (read b := cur_take n in rd_ret (from_le b)) c = Ok (z, c') -> 0 <= z.
Proof.
  unfold rd_bind. intros H. apply rbind_ok in H as ([s c1] & _ & [= <- _]).
  apply from_le_range.
Qed.

Create HintDb oxo_trunc.
#[local] Hint Resolve truncates_ret truncates_lift truncates_err truncates_if truncates_decide
  : oxo_trunc.

Lemma truncates_u8 : truncates cur_u8.
Proof.
  apply truncates_bind; [apply truncates_take; lia|]. intros [|x s] c c' _; auto with oxo_trunc.
Qed.
Lemma truncates_u16 : truncates cur_u16.
Proof. apply truncates_bind; [apply truncates_take; lia | auto with oxo_trunc]. Qed.
Lemma truncates_u32 : truncates cur_u32.
Proof. apply truncates_bind; [apply truncates_take; lia | auto with oxo_trunc]. Qed.

Lemma truncates_short_str : truncates short_str.
Proof.
  apply truncates_bind; [apply truncates_u16|]. intros n c c' H. apply cur_uint_nonneg in H.
  apply truncates_bind; [apply truncates_take; assumption | auto with oxo_trunc].
Qed.
Lemma truncates_long_str : truncates long_str.
Proof.
  apply truncates_bind; [apply truncates_u32|]. intros n c c' H. apply cur_uint_nonneg in H.
  apply truncates_bind; [apply truncates_take; assumption | auto with oxo_trunc].
Qed.
Lemma truncates_body max : truncates (take_body max).
Proof.
  apply truncates_bind; [apply truncates_u32|]. intros n c c' H. apply cur_uint_nonneg in H.
  apply truncates_if; [apply truncates_err | apply truncates_take; assumption].
Qed.
#[local] Hint Resolve truncates_u8 truncates_u16 truncates_u32 truncates_short_str
  truncates_long_str truncates_body : oxo_trunc.

Ltac solve_truncates :=
  repeat (apply truncates_bind; [solve [auto with oxo_trunc] | intros ? ? ? _]);
  auto with oxo_trunc.

Lemma truncates_headers mh mb : truncates (decode_headers mh mb).
Proof.
  assert (Hh : forall hb, truncates (decode_header mb hb)) by (intros; solve_truncates).
  apply truncates_bind; [apply truncates_u16|]. intros n _ _ _.
  apply truncates_if; [apply truncates_err|].
  generalize 0 as hb, (Z.to_nat n) as k. clear n. intros hb k. revert hb.
  induction k as [|k IH]; intros hb; [apply truncates_ret|].
  apply truncates_bind; [apply Hh|]. intros h _ _ _.
  apply truncates_bind; [apply IH | auto with oxo_trunc].
Qed.
#[local] Hint Resolve truncates_headers : oxo_trunc.

Lemma truncates_request caps : truncates (decode_request_fields caps).
Proof. solve_truncates. Qed.

Lemma truncates_response caps : truncates (decode_response_fields caps).
Proof.
  apply truncates_bind; [apply truncates_u8|]. intros ty _ _ _.
  repeat (apply truncates_decide; [solve [solve_truncates]|]). apply truncates_err.
Qed.

Lemma tiled_truncated {A} (d : reader A) envelope a n :
  truncates d -> (let? r := d (cursor_new envelope) in tiled envelope r) = Ok a ->
  (n < length envelope)%nat ->
  (let? r := d (cursor_new (take n envelope)) in tiled (take n envelope) r) = Err Truncated.
Proof.
  intros Hd H Hn. apply rbind_ok in H as ([a' c'] & H1 & H2).
  unfold tiled, remaining in H2. cases_if; [discriminate|].
  destruct (Hd _ _ _ n H1 ltac:(simpl; lia)) as (_ & Hb & Hc).
  change (cut n (cursor_new envelope)) with (cursor_new (take n envelope)) in Hc.
  rewrite Hb in Heqb. simpl in Heqb.
  rewrite Hc, (proj2 (Nat.leb_gt _ _)) by lia. reflexivity.
Qed.

(** ** Surplus input *)

Lemma tiled_surplus {A} (d : reader A) R envelope a extra :
  denotes d R -> R a envelope -> extra <> [] ->
  (let? r := d (cursor_new (envelope ++ extra)) in tiled (envelope ++ extra) r) =
  Err (EnvelopeTilingMismatch (zlen (envelope ++ extra) mod 2 ^ 32) (zlen envelope)).
Proof.
  intros Hd HR Hx.
  assert (Hc : d (cursor_new (envelope ++ extra)) =
               Ok (a, {| buf := envelope ++ extra; pos := length envelope |})).
  { apply Hd; [unfold cur_wf; simpl; lia|]. exists envelope. split; [assumption|].
    unfold consumes, rest. simpl. rewrite drop_app_exact. auto. }
  rewrite Hc. unfold tiled, remaining. simpl. rewrite length_app.
  destruct extra as [|x extra]; [contradiction|]. simpl.
  cases_if; [reflexivity | lia].
Qed.

(** ** The borrowed-field encoder *)

(** [RequestFrameRef] borrows the fields of a request. *)
Definition as_ref (r : RequestFrame) : RequestFrameRef :=
  {| r_method := method r; r_path := path r; r_query := query r;
     r_server_name := server_name r; r_server_port := server_port r;
     r_scheme := scheme r; r_remote_addr := remote_addr r; r_body := body r |}.

Lemma writes_count n :
  writes (match try_from_u16 n with
          | Some count => wr_push (to_le 2 count)
          | None => wr_err LengthOverflow end) (n <=? u16_max) (to_le 2 n).
Proof.
  unfold try_from_u16. cases_if; [apply writes_push | intros out; eexists; reflexivity].
Qed.

Lemma writes_guard (g : bool) :
  writes (if g then wr_err LengthOverflow else wr_skip) (negb g) [].
Proof.
  intros out. destruct g; simpl; [eexists; reflexivity|].
  rewrite app_nil_r. reflexivity.
Qed.

Lemma encode_request_ref_into_spec out0 r n :
  let ok := request_fits r && (zlen (request_envelope r) <=? u32_max) && (zlen (headers r) =? n) in
  if ok then encode_request_ref_into out0 (as_ref r) n (headers r) = (framed (request_envelope r), Ok tt)
  else exists out', encode_request_ref_into out0 (as_ref r) n (headers r) = (out', Err LengthOverflow).
Proof.
  unfold encode_request_ref_into. cbn [as_ref r_method r_path r_query r_server_name r_server_port
    r_scheme r_remote_addr r_body].
  change ([] ++ [FRAME_MAGIC] ++ [FRAME_VERSION] ++ to_le 4 0) with start_frame.
  match goal with |- context [match ?w start_frame with _ => _ end] => set (wr := w) end.
  assert (Hw : writes wr
    ((zlen (method r) <=? u16_max) && ((zlen (path r) <=? u32_max) && ((zlen (query r) <=? u32_max)
     && ((zlen (server_name r) <=? u16_max) && (true && (true && ((zlen (remote_addr r) <=? u16_max)
     && ((n <=? u16_max) && (forallb header_fits (headers r) &&
        (negb (negb (zlen (headers r) =? n)) && (zlen (body r) <=? u32_max)))))))))))
    (short_bytes (method r) ++ long_bytes (path r) ++ long_bytes (query r) ++
     short_bytes (server_name r) ++ to_le 2 (server_port r) ++ [scheme_to_byte (scheme r)] ++
     short_bytes (remote_addr r) ++ to_le 2 n ++ concat (map header_wire (headers r)) ++
     [] ++ long_bytes (body r))).
  { subst wr. repeat (apply writes_seq; [auto using writes_count, writes_guard with oxo_wire|]).
    auto with oxo_wire. }
  specialize (Hw start_frame). clearbody wr.
  destruct (Z.eqb_spec (zlen (headers r)) n) as [<- | Hne]; cbn [negb andb] in Hw.
  - match type of Hw with if ?g then _ else _ => replace g with (request_fits r) in Hw end.
    2: { unfold request_fits, headers_fit. rewrite <- !andb_assoc. reflexivity. }
    match type of Hw with context [start_frame ++ ?e] =>
      replace e with (request_envelope r) in Hw end.
    2: { unfold request_envelope, headers_wire. rewrite <- !app_assoc. reflexivity. }
    rewrite andb_true_r. destruct (request_fits r); cbn [andb].
    + rewrite Hw. pose proof (finish_frame_spec (request_envelope r)) as Hf.
      unfold finish_frame in Hf.
      destruct (try_from_u32 _); cbn [ok_or rbind] in Hf; cases_if; try discriminate; [|eauto].
      congruence.
    + destruct Hw as [out' ->]. eauto.
  - rewrite andb_false_r. rewrite !andb_false_r in Hw. destruct Hw as [out' ->]. eauto.
Qed.

(** ** The prefix *)

(** The first six bytes, as the transport reads them. *)
Definition prefix_of (frame : bytes) : option prefix6 :=
  match frame with
  | a :: b :: c :: d :: e :: f :: _ => Some (P6 a b c d e f)
  | _ => None
  end.

Lemma prefix_of_framed env :
  exists p, prefix_of (framed env) = Some p /\ framed env = prefix_bytes p ++ env /\
    forall caps, zlen env <= u32_max ->
      prefix_parse p caps =
      if zlen env >? max_remaining_length caps
      then Err (EnvelopeTooLarge (zlen env) (max_remaining_length caps)) else Ok (zlen env).
Proof.
  unfold framed. pose proof (length_to_le 4 (zlen env)) as Hl.
  pose proof (zlen_nonneg env) as Hz.
  assert (Hle : zlen env <= u32_max -> from_le (to_le 4 (zlen env)) = zlen env).
  { intros. apply from_to_le. change (2 ^ (Z.of_nat 4 * 8)) with 4294967296. int_lia. }
  destruct (to_le 4 (zlen env)) as [|a [|b [|c [|d [|]]]]]; try discriminate.
  exists (P6 FRAME_MAGIC FRAME_VERSION a b c d). split; [reflexivity|]. split; [reflexivity|].
  intros caps Hu. unfold prefix_parse. cbn [p0 p1 p2 p3 p4 p5]. rewrite Hle by assumption.
  rewrite !bool_decide_eq_true_2 by reflexivity. reflexivity.
Qed.

Lemma zlen_headers_wire hs : zlen (headers_wire hs) = 2 + 6 * zlen hs + header_total hs.
Proof.
  unfold headers_wire. rewrite zlen_app, zlen_to_le.
  enough (zlen (concat (map header_wire hs)) = 6 * zlen hs + header_total hs) by lia.
  induction hs as [|[n v] hs IH]; [reflexivity|].
  cbn [map concat header_total]. rewrite zlen_app, IH, zlen_cons.
  unfold header_wire, short_bytes, long_bytes. cbn [fst snd].
  rewrite !zlen_app, !zlen_to_le. lia.
Qed.

(** The part of the envelope that no cap bounds. *)
Definition metadata_len (r : RequestFrame) : Z :=
  23 + zlen (method r) + zlen (path r) + zlen (query r) + zlen (server_name r)
  + zlen (remote_addr r) + 6 * zlen (headers r).

Lemma zlen_request_envelope r :
  zlen (request_envelope r) = metadata_len r + header_total (headers r) + zlen (body r).
Proof.
  unfold request_envelope, metadata_len, short_bytes, long_bytes.
  rewrite !zlen_app, !zlen_to_le, zlen_headers_wire, zlen_cons, zlen_nil. lia.
Qed.

(** ** Sample frames *)

Definition sample_caps : FrameCaps :=
  {| max_header_bytes := 65536; max_headers := 128; max_body_bytes := 1048576 |}.
Definition sample_request : RequestFrame :=
  {| method := bs "POST"; path := bs "/submit"; query := bs "a=1&b=2";
     server_name := bs "app.example"; server_port := 443; scheme := Https;
     remote_addr := bs "203.0.113.9";
     headers := [(bs "host", bs "app.example"); (bs "content-type", bs "application/json")];
     body := bs "{hello}" |}.
Definition sample_response : ResponseFrame :=
  Full 200 [(bs "content-type", bs "text/plain")] (bs "ok").

Lemma sample_caps_wf : caps_wf sample_caps.
Proof. unfold caps_wf. cbn. int_lia. Qed.
Lemma sample_request_ok : request_ok sample_caps sample_request.
Proof.
  unfold request_ok, headers_ok.
  repeat match goal with |- _ /\ _ => split end; first [vm_compute; reflexivity | vm_compute; split; discriminate | vm_compute; discriminate].
Qed.
Lemma sample_response_ok : response_ok sample_caps sample_response.
Proof.
  unfold response_ok, headers_ok. cbn [sample_response].
  repeat match goal with |- _ /\ _ => split end; first [vm_compute; reflexivity | vm_compute; split; discriminate | vm_compute; discriminate].
Qed.

(** ** Properties *)

(** C30. The request decoder implements the wire format: an envelope decodes to [r]
    exactly when [r] is a request the caps admit (UTF-8 fields, length fields in range,
    header count, header bytes and body within the caps, no control byte in a header)
    and the envelope is, byte for byte, the layout of [r]. *)
Theorem decode_request_exact (caps : FrameCaps) (envelope : bytes) (r : RequestFrame) :
  caps_wf caps ->
  decode_request envelope caps = Ok r <-> request_ok caps r /\ envelope = request_envelope r.
Proof.
  intros Hc. apply (denotes_tiled _ (fun r b => request_ok caps r /\ b = request_envelope r)).
  apply denotes_request, Hc.
Qed.

Lemma decode_request_exact_witness :
  decode_request (request_envelope sample_request) sample_caps = Ok sample_request.
Proof.
  apply (proj2 (decode_request_exact sample_caps _ sample_request sample_caps_wf)).
  split; [exact sample_request_ok | reflexivity].
Defined.

(** Requests round trip: a request the caps admit, whose envelope is within the
    caps' envelope bound, encodes to a prefix followed by its envelope; the receiver's
    prefix check accepts that prefix and announces the envelope's length; decoding the
    envelope gives the request back.  Conversely any envelope that decodes is the
    canonical encoding of what it decodes to. *)
Theorem request_round_trip (caps : FrameCaps) (r : RequestFrame) :
  caps_wf caps ->
  (request_ok caps r ->
   zlen (request_envelope r) <= Z.min u32_max (max_remaining_length caps) ->
   exists p, encode_request r = Ok (prefix_bytes p ++ request_envelope r) /\
     prefix_parse p caps = Ok (zlen (request_envelope r)) /\
     decode_request (request_envelope r) caps = Ok r) /\
  (forall envelope, decode_request envelope caps = Ok r -> zlen envelope <= u32_max ->
   encode_request r = Ok (framed envelope)).
Proof.
  intros Hc.
  assert (Hd : forall env, decode_request env caps = Ok r <->
                 request_ok caps r /\ env = request_envelope r).
  { intros env. apply (denotes_tiled _ (fun r b => request_ok caps r /\ b = request_envelope r)).
    apply denotes_request, Hc. }
  rewrite encode_request_spec. split.
  - intros Hok Hl. destruct (prefix_of_framed (request_envelope r)) as (p & _ & Hf & Hp).
    exists p. rewrite Hp by lia. rewrite Hd, <- Hf. pose proof Hok as (_ & _ & -> & _).
    rewrite (proj2 (Z.leb_le _ _)) by lia. cbn [andb]. cases_if; [lia | auto].
  - intros env (Hok & ->)%Hd Hl. destruct Hok as (_ & _ & -> & _).
    rewrite (proj2 (Z.leb_le _ _)) by lia. reflexivity.
Qed.

Lemma request_round_trip_witness :
  exists p, encode_request sample_request = Ok (prefix_bytes p ++ request_envelope sample_request) /\
    prefix_parse p sample_caps = Ok (zlen (request_envelope sample_request)) /\
    decode_request (request_envelope sample_request) sample_caps = Ok sample_request.
Proof.
  apply (proj1 (request_round_trip sample_caps sample_request sample_caps_wf)).
  - exact sample_request_ok.
  - vm_compute. discriminate.
Defined.

(** Responses, all four kinds: decoding accepts exactly the layout of an admissible
    response (status in 100..=599, clean headers within the caps, body or chunk within
    the cap), encoding an admissible response that fits the length domain frames that
    layout, and re-encoding a decoded response reproduces the bytes. *)
Theorem response_round_trip (caps : FrameCaps) (r : ResponseFrame) (envelope : bytes) :
  caps_wf caps ->
  (decode_response envelope caps = Ok r <-> response_ok caps r /\ envelope = response_envelope r) /\
  (response_ok caps r -> zlen (response_envelope r) <= u32_max ->
   encode_response r = Ok (framed (response_envelope r)) /\
   decode_response (response_envelope r) caps = Ok r) /\
  (decode_response envelope caps = Ok r -> zlen envelope <= u32_max ->
   encode_response r = Ok (framed envelope)).
Proof.
  intros Hc.
  assert (Hd : forall env, decode_response env caps = Ok r <->
                 response_ok caps r /\ env = response_envelope r).
  { intros env. apply (denotes_tiled _ (fun r b => response_ok caps r /\ b = response_envelope r)).
    apply denotes_response, Hc. }
  assert (He : response_ok caps r -> zlen (response_envelope r) <= u32_max ->
               encode_response r = Ok (framed (response_envelope r))).
  { intros [Hf _] Hl. rewrite encode_response_spec, Hf, (proj2 (Z.leb_le _ _)) by lia. reflexivity. }
  split; [apply Hd|]. split.
  - intros Hok Hl. rewrite Hd. auto.
  - intros (Hok & ->)%Hd Hl. auto.
Qed.

Lemma response_round_trip_witness :
  encode_response sample_response = Ok (framed (response_envelope sample_response)) /\
  decode_response (response_envelope sample_response) sample_caps = Ok sample_response.
Proof.
  apply (proj1 (proj2 (response_round_trip sample_caps sample_response [] sample_caps_wf))).
  - exact sample_response_ok.
  - vm_compute. discriminate.
Defined.

(** Truncation at every boundary: cutting a valid request or response envelope
    short, anywhere, is reported as [Truncated]; it neither decodes to something else
    nor reaches any other error. *)
Theorem truncation_is_rejected (caps : FrameCaps) (envelope : bytes) (n : nat) :
  (n < length envelope)%nat ->
  (is_ok (decode_request envelope caps) = true ->
   decode_request (take n envelope) caps = Err Truncated) /\
  (is_ok (decode_response envelope caps) = true ->
   decode_response (take n envelope) caps = Err Truncated).
Proof.
  intros Hn. split; intros H.
  - destruct (decode_request envelope caps) as [r|] eqn:E; [|discriminate].
    eapply tiled_truncated; [apply truncates_request | exact E | exact Hn].
  - destruct (decode_response envelope caps) as [r|] eqn:E; [|discriminate].
    eapply tiled_truncated; [apply truncates_response | exact E | exact Hn].
Qed.

Lemma truncation_is_rejected_witness :
  decode_request (take 17 (request_envelope sample_request)) sample_caps = Err Truncated.
Proof.
  apply (truncation_is_rejected sample_caps (request_envelope sample_request) 17).
  - vm_compute. lia.
  - vm_compute. reflexivity.
Defined.

(** The tiling invariant: bytes left over inside the envelope after a complete
    request or response are rejected as a tiling mismatch that reports the position
    reached, whatever the surplus is. *)
Theorem surplus_is_tiling_mismatch (caps : FrameCaps) (extra : bytes) :
  caps_wf caps -> extra <> [] ->
  (forall r, request_ok caps r ->
   let env := request_envelope r in
   decode_request (env ++ extra) caps =
   Err (EnvelopeTilingMismatch (zlen (env ++ extra) mod 2 ^ 32) (zlen env))) /\
  (forall r, response_ok caps r ->
   let env := response_envelope r in
   decode_response (env ++ extra) caps =
   Err (EnvelopeTilingMismatch (zlen (env ++ extra) mod 2 ^ 32) (zlen env))).
Proof.
  intros Hc Hx. split; intros r Hok.
  - apply (tiled_surplus _ _ _ r _ (denotes_request caps Hc)); auto.
  - apply (tiled_surplus _ _ _ r _ (denotes_response caps Hc)); auto.
Qed.

Lemma surplus_is_tiling_mismatch_witness :
  decode_request (request_envelope sample_request ++ [zb 0]) sample_caps =
  Err (EnvelopeTilingMismatch (1 + zlen (request_envelope sample_request))
         (zlen (request_envelope sample_request))).
Proof.
  exact (proj1 (surplus_is_tiling_mismatch sample_caps [zb 0] sample_caps_wf
           ltac:(discriminate)) sample_request sample_request_ok).
Defined.

(** The allocation-free encoder is the reference encoder: whatever the reused
    buffer held before, [encode_request_ref_into] leaves exactly the bytes of
    [encode_request] when the announced header count is right and fails with the same
    error when it fails; a wrong header count never yields a frame. *)
Theorem encode_request_ref_into_agrees (out0 : bytes) (r : RequestFrame) (n : Z) :
  match encode_request r with
  | Ok frame =>
      if zlen (headers r) =? n
      then encode_request_ref_into out0 (as_ref r) n (headers r) = (frame, Ok tt) /\
           encode_request_ref (as_ref r) n (headers r) = Ok frame
      else exists out', encode_request_ref_into out0 (as_ref r) n (headers r)
                        = (out', Err LengthOverflow)
  | Err e => exists out', encode_request_ref_into out0 (as_ref r) n (headers r) = (out', Err e)
  end.
Proof.
  rewrite encode_request_spec. unfold encode_request_ref.
  pose proof (encode_request_ref_into_spec out0 r n) as H.
  pose proof (encode_request_ref_into_spec [] r n) as H'. cbv zeta in *.
  destruct (request_fits r && (zlen (request_envelope r) <=? u32_max)); cbn [andb] in *;
    [|assumption].
  destruct (zlen (headers r) =? n); [|assumption]. rewrite H'. auto.
Qed.

(** What the envelope pre-check guarantees: an admissible request whose metadata
    (method, path, query, server name, peer address and the fixed fields) fits the
    fixed slack passes the six-byte prefix check, so it reaches the decoder. *)
Theorem precheck_admits_small_metadata (caps : FrameCaps) (r : RequestFrame) :
  caps_wf caps -> request_ok caps r -> metadata_len r <= FRAME_FIXED_SLACK ->
  zlen (request_envelope r) <= u32_max ->
  exists p, prefix_of (framed (request_envelope r)) = Some p /\
    prefix_parse p caps = Ok (zlen (request_envelope r)).
Proof.
  intros Hc (_ & _ & _ & (_ & _ & Ht) & Hb) Hm Hl.
  destruct (prefix_of_framed (request_envelope r)) as (p & Hp & _ & Hparse).
  exists p. split; [assumption|]. rewrite Hparse by assumption.
  rewrite zlen_request_envelope. unfold max_remaining_length. cases_if; [lia | reflexivity].
Qed.

Lemma precheck_admits_small_metadata_witness :
  exists p, prefix_of (framed (request_envelope sample_request)) = Some p /\
    prefix_parse p sample_caps = Ok (zlen (request_envelope sample_request)).
Proof.
  apply (precheck_admits_small_metadata sample_caps sample_request sample_caps_wf
           sample_request_ok); vm_compute; discriminate.
Defined.

Lemma utf8_replicate n : utf8 (replicate n (zb 97)) = true.
Proof. induction n as [|n IH]; [reflexivity | exact IH]. Qed.

(** A request with a long path and nothing else. *)
Definition long_path_request (n : nat) : RequestFrame :=
  {| method := bs "GET"; path := replicate n (zb 97); query := []; server_name := bs "h";
     server_port := 80; scheme := Http; remote_addr := bs "127.0.0.1"; headers := [];
     body := [] |}.

(** The slack is not generous enough for every legal frame: under any caps whose
    envelope bound leaves 64 bytes of the u32 domain, there is a request that encodes
    and that [decode_request] accepts, but whose prefix is refused as too large,
    because path and query are bounded by no cap. *)
Theorem slack_rejects_a_legal_frame (caps : FrameCaps) :
  caps_wf caps -> max_remaining_length caps + 64 <= u32_max ->
  exists r p, encode_request r = Ok (framed (request_envelope r)) /\
    decode_request (request_envelope r) caps = Ok r /\
    prefix_of (framed (request_envelope r)) = Some p /\
    prefix_parse p caps =
      Err (EnvelopeTooLarge (zlen (request_envelope r)) (max_remaining_length caps)).
Proof.
  intros Hc Hmax. assert (0 <= max_remaining_length caps).
  { destruct Hc as (? & ? & ?). unfold max_remaining_length, FRAME_FIXED_SLACK. int_lia. }
  set (n := Z.to_nat (max_remaining_length caps)). set (r := long_path_request n).
  assert (Hn : zlen (path r) = max_remaining_length caps).
  { unfold zlen. simpl. rewrite length_replicate. lia. }
  assert (Hlen : zlen (request_envelope r) = max_remaining_length caps + 36).
  { rewrite zlen_request_envelope. unfold metadata_len. rewrite Hn. simpl.
    change (zlen (bs "GET")) with 3. change (zlen (bs "h")) with 1.
    change (zlen (bs "127.0.0.1")) with 9. change (zlen []) with 0. lia. }
  assert (Hfit : request_fits r = true).
  { unfold request_fits. rewrite Hn. simpl. rewrite !andb_true_r. int_lia. }
  assert (Hok : request_ok caps r).
  { unfold request_ok. rewrite Hfit. simpl. rewrite utf8_replicate.
    destruct Hc as (? & ? & ?). unfold headers_ok. simpl.
    change (@zlen header []) with 0. change (@zlen byte []) with 0.
    repeat match goal with |- _ /\ _ => split end; auto; int_lia. }
  destruct (prefix_of_framed (request_envelope r)) as (p & Hp & _ & Hparse).
  exists r, p. rewrite encode_request_spec, Hfit, Hparse, Hlen by lia.
  rewrite (proj2 (Z.leb_le _ _)) by lia. cbn [andb]. cases_if; [|lia].
  split; [reflexivity|]. split; [|split; [exact Hp | reflexivity]].
  apply (denotes_tiled _ (fun r b => request_ok caps r /\ b = request_envelope r));
    [apply denotes_request, Hc | auto].
Qed.

Lemma slack_rejects_a_legal_frame_witness :
  exists r p, encode_request r = Ok (framed (request_envelope r)) /\
    decode_request (request_envelope r) sample_caps = Ok r /\
    prefix_of (framed (request_envelope r)) = Some p /\
    prefix_parse p sample_caps =
      Err (EnvelopeTooLarge (zlen (request_envelope r)) (max_remaining_length sample_caps)).
Proof.
  apply (slack_rejects_a_legal_frame sample_caps sample_caps_wf). vm_compute. discriminate.
Defined.
