(* ===== verification/FdBudget.v ===== *)
(** * FdBudget: the edge's boot-time descriptor budget

    Model of [crates/oxo-pingora-edge/src/fd_budget.rs].  [fd_budget] is the pure
    computation of the budget and its verdict on 64-bit saturating integers; [notice],
    [remedy], [warning] and [refusal] render it.  [read_nofile_limits] is a system call
    and is represented by the [Nofile] argument it returns. *)

From S2P Require Import Prelude Text.

Definition RESERVE : Z := 32.
Definition MIN_DOWNSTREAM : Z := 256.

Inductive Nofile : Type :=
| Unknown
| Unlimited
| Limits (soft hard : Z).

Inductive FdVerdict : Type := VOk | VWarn | VRefuse.
#[global] Instance FdVerdict_eq_dec : EqDecision FdVerdict.
Proof. solve_decision. Defined.

Definition verdict_as_str (v : FdVerdict) : bytes :=
  match v with VOk => bs "ok" | VWarn => bs "warn" | VRefuse => bs "refuse" end.

Record FdBudget : Type := {
  listeners : Z;
  hops : Z;
  reserve : Z;
  fixed : Z;
  pool : Z;
  in_flight_cap : option Z;
  demand : Z;
  limits : Nofile;
  remainder : option Z;
  verdict : FdVerdict;
}.

(** [in_flight_cap.map_or(0, |c| c.saturating_mul(2))] *)
Definition cap_demand (cap : option Z) : Z :=
  match cap with None => 0 | Some c => saturating_mul c 2 end.

Definition fd_budget (limits : Nofile) (listeners worker_count pool_ceiling : Z)
    (in_flight_cap : option Z) : FdBudget :=
  let hops := worker_count in
  let fixed := saturating_add (saturating_add listeners hops) RESERVE in
  let demand := saturating_add (saturating_add fixed pool_ceiling) (cap_demand in_flight_cap) in
  let '(remainder, verdict) :=
    match limits with
    | Unknown | Unlimited => (None, VOk)
    | Limits soft _ =>
        let verdict :=
          if fixed >? soft then VRefuse
          else if saturating_add demand MIN_DOWNSTREAM >? soft then VWarn
          else VOk in
        (Some (saturating_sub soft demand), verdict)
    end in
  {| listeners := listeners; hops := hops; reserve := RESERVE; fixed := fixed;
     pool := pool_ceiling; in_flight_cap := in_flight_cap; demand := demand;
     limits := limits; remainder := remainder; verdict := verdict |}.

(** ** Rendering *)

Definition notice (b : FdBudget) : bytes :=
  let cap := match in_flight_cap b with
             | Some c => bs " + 2 x in-flight cap " ++ show_uint c
             | None => []
             end in
  let limit := match limits b with
    | Unknown => bs "process descriptor limit (RLIMIT_NOFILE) unknown on this platform"
    | Unlimited => bs "an unlimited process descriptor limit (RLIMIT_NOFILE)"
    | Limits soft hard =>
        bs "process descriptor limit (RLIMIT_NOFILE) soft " ++ show_uint soft
        ++ bs " / hard " ++ show_uint hard
    end in
  let remainder := match remainder b with
    | Some n => bs "; remainder " ++ show_uint n ++ bs " descriptors, about "
                ++ show_uint (n / 2) ++ bs " concurrent requests, each holding two descriptors"
    | None => []
    end in
  let excluded := match in_flight_cap b with
    | None => bs "; in-flight hops excluded from the demand (no global in-flight cap)"
    | Some _ => []
    end in
  bs "oxo_edge_config_notice fd-budget: " ++ verdict_as_str (verdict b)
  ++ bs " -- fixed " ++ show_uint (fixed b) ++ bs " (listeners " ++ show_uint (listeners b)
  ++ bs " + worker hops " ++ show_uint (hops b) ++ bs " + reserve " ++ show_uint (reserve b)
  ++ bs ") + idle pool " ++ show_uint (pool b) ++ cap ++ bs " = demand "
  ++ show_uint (demand b) ++ bs " against " ++ limit ++ remainder ++ excluded.

(** The idle-pool ceiling the remedy recommends. *)
Definition pool_fit (b : FdBudget) (soft : Z) : Z :=
  saturating_sub soft
    (saturating_add (saturating_add (fixed b) MIN_DOWNSTREAM) (cap_demand (in_flight_cap b))).

Definition remedy (b : FdBudget) (needed : Z) : bytes :=
  match limits b with
  | Limits soft hard =>
      let fit := pool_fit b soft in
      if needed <=? hard then
        bs "raise the soft limit to at least " ++ show_uint needed ++ bs ": `ulimit -n "
        ++ show_uint needed ++ bs "` before starting the edge, `LimitNOFILE=" ++ show_uint needed
        ++ bs "` in the systemd unit, or `launchctl limit maxfiles` for a launchd job; or lower OXO_EDGE_FRAME_POOL_IDLE to at most "
        ++ show_uint fit
      else
        bs "the hard limit " ++ show_uint hard ++ bs " is below the " ++ show_uint needed
        ++ bs " needed: set `LimitNOFILE=" ++ show_uint needed
        ++ bs "` in the systemd unit or raise the limit in /etc/security/limits.conf as root; or lower OXO_EDGE_FRAME_POOL_IDLE to at most "
        ++ show_uint fit
  | _ => []
  end.

Definition warning (b : FdBudget) : option bytes :=
  if negb (bool_decide (verdict b = VWarn)) then None
  else
    let needed := saturating_add (demand b) MIN_DOWNSTREAM in
    Some (bs "oxo_edge_config_warning fd-budget: with the idle pool at its ceiling ("
      ++ show_uint (pool b) ++ bs ")"
      ++ match in_flight_cap b with
         | Some c => bs " and " ++ show_uint c ++ bs " in-flight requests"
         | None => []
         end
      ++ bs " the process descriptor limit leaves "
      ++ show_uint (unwrap_or 0 (remainder b))
      ++ bs " descriptors for downstream connections, below the " ++ show_uint MIN_DOWNSTREAM
      ++ bs " the edge wants; " ++ remedy b needed).

Definition refusal (b : FdBudget) : option bytes :=
  if negb (bool_decide (verdict b = VRefuse)) then None
  else
    let soft := match limits b with Limits soft _ => soft | _ => 0 end in
    Some (bs "the edge holds " ++ show_uint (fixed b)
      ++ bs " descriptors before its first request (listeners " ++ show_uint (listeners b)
      ++ bs " + worker hops " ++ show_uint (hops b) ++ bs " + reserve " ++ show_uint (reserve b)
      ++ bs ") and the process descriptor limit (RLIMIT_NOFILE) soft limit is " ++ show_uint soft
      ++ bs "; it cannot serve. " ++ remedy b (fixed b)).

(** ** Properties *)

(** The verdict on unbounded integers. *)
Definition ideal_verdict (soft listeners workers pool : Z) (cap : option Z) : FdVerdict :=
  let fixed := listeners + workers + RESERVE in
  if soft <? fixed then VRefuse
  else if soft <? fixed + pool + 2 * unwrap_or 0 cap + MIN_DOWNSTREAM then VWarn
  else VOk.

Definition opt_u64 (o : option Z) : Prop := match o with Some c => is_u64 c | None => True end.

Lemma fd_verdict_ideal soft hard l w p cap :
  is_u64 l -> is_u64 w -> is_u64 p -> opt_u64 cap -> 0 <= soft < u64_max ->
  verdict (fd_budget (Limits soft hard) l w p cap) = ideal_verdict soft l w p cap.
Proof.
  intros. unfold fd_budget, ideal_verdict. cbn [verdict].
  destruct cap as [c|]; cbn [unwrap_or cap_demand opt_u64] in *;
    repeat (cases_if; try reflexivity); exfalso; unfold RESERVE, MIN_DOWNSTREAM in *; int_lia.
Qed.

(** Saturation never changes the verdict: for 64-bit inputs and any soft limit
    below [u64::MAX] the budget refuses exactly when the fixed descriptors exceed the
    soft limit, warns exactly when the full demand leaves fewer than 256 descriptors,
    and is otherwise ok, all computed on unbounded integers; without a known limit it
    is always ok; and the warning and refusal texts exist exactly for those verdicts. *)
Theorem verdict_matches_unbounded_arithmetic (soft hard l w p : Z) (cap : option Z) :
  is_u64 l -> is_u64 w -> is_u64 p -> opt_u64 cap -> 0 <= soft < u64_max ->
  let b := fd_budget (Limits soft hard) l w p cap in
  verdict b = ideal_verdict soft l w p cap /\
  (is_Some (warning b) <-> verdict b = VWarn) /\ (is_Some (refusal b) <-> verdict b = VRefuse) /\
  verdict (fd_budget Unknown l w p cap) = VOk /\ verdict (fd_budget Unlimited l w p cap) = VOk.
Proof.
  intros. split; [apply fd_verdict_ideal; assumption|].
  unfold warning, refusal.
  destruct (bool_decide_reflect (verdict b = VWarn)), (bool_decide_reflect (verdict b = VRefuse));
    cbn [negb]; repeat split; intros; try congruence; eauto;
    match goal with H : is_Some None |- _ => destruct H; discriminate end.
Qed.

Lemma verdict_matches_unbounded_arithmetic_witness :
  verdict (fd_budget (Limits 1024 1048576) 2 32 1024 None) = VWarn /\
  is_Some (warning (fd_budget (Limits 1024 1048576) 2 32 1024 None)).
Proof.
  destruct (verdict_matches_unbounded_arithmetic 1024 1048576 2 32 1024 None
    ltac:(int_lia) ltac:(int_lia) ltac:(int_lia) I ltac:(int_lia)) as (Hv & Hw & _).
  split; [rewrite Hv; reflexivity | apply Hw; rewrite Hv; reflexivity].
Defined.

(** The recommended ceiling is the right one: when the fixed descriptors, the
    in-flight demand and the downstream margin fit the soft limit, a pool ceiling gives
    the verdict ok exactly when it is at most the [pool_fit] printed in the remedy; when
    they do not fit, [pool_fit] is zero and no ceiling gives ok. *)
Theorem pool_fit_is_the_largest_ok_ceiling (soft hard l w p q : Z) (cap : option Z) :
  is_u64 l -> is_u64 w -> is_u64 p -> is_u64 q -> opt_u64 cap -> 0 <= soft < u64_max ->
  let b := fd_budget (Limits soft hard) l w p cap in
  let rest := l + w + RESERVE + MIN_DOWNSTREAM + 2 * unwrap_or 0 cap in
  (verdict (fd_budget (Limits soft hard) l w q cap) = VOk <-> rest <= soft /\ q <= pool_fit b soft)
  /\ (soft < rest -> pool_fit b soft = 0).
Proof.
  intros Hl Hw Hp Hq Hc Hs b r. subst b r. rewrite fd_verdict_ideal by assumption.
  unfold pool_fit, ideal_verdict, fd_budget. cbn [fixed in_flight_cap].
  destruct cap as [c|]; cbn [unwrap_or cap_demand opt_u64] in *; repeat split; intros;
    repeat (cases_if; try discriminate; try reflexivity); 
    unfold RESERVE, MIN_DOWNSTREAM in *; try (exfalso; int_lia); int_lia.
Qed.

Lemma pool_fit_is_the_largest_ok_ceiling_witness :
  verdict (fd_budget (Limits 1024 1048576) 2 32 702 None) = VOk /\
  verdict (fd_budget (Limits 1024 1048576) 2 32 703 None) = VWarn /\
  pool_fit (fd_budget (Limits 1024 1048576) 2 32 1024 None) 1024 = 702.
Proof.
  split; [|split; vm_compute; reflexivity].
  apply (proj1 (pool_fit_is_the_largest_ok_ceiling 1024 1048576 2 32 1024 702 None
    ltac:(int_lia) ltac:(int_lia) ltac:(int_lia) ltac:(int_lia) I ltac:(int_lia))).
  vm_compute. split; discriminate.
Defined.
