(* ===== verification/HeaderPolicy.v ===== *)
(** * HeaderPolicy: the shared header-name predicates

    Model of [normalize_header_name] and [is_client_forwarding_header] of
    [crates/oxo-core/src/lib.rs], which the edge and both worker paths apply before a
    header can become a Rack [HTTP_*] variable, with the CGI mapping those functions
    guard against. *)

From S2P Require Import Prelude Text.

Definition underscore : byte := zb 95.

Definition normalize_header_name (name : bytes) : option bytes :=
  if contains_byte underscore name then None else Some (to_ascii_lowercase name).

Definition forwarding_names : list string :=
  ["forwarded"; "x-real-ip"; "client-ip"; "true-client-ip"; "cf-connecting-ip";
   "cf-pseudo-ipv4"; "x-client-ip"; "fastly-client-ip"; "fly-client-ip";
   "x-cluster-client-ip"; "x-original-forwarded-for"; "x-original-for";
   "x-appengine-user-ip"; "x-azure-clientip"; "x-azure-socketip"; "x-proxyuser-ip";
   "x-forwarded"]%string.

Definition is_client_forwarding_header (name : bytes) : bool :=
  one_of name forwarding_names || starts_with (bs "x-forwarded-") name.

(** The reserved namespace of the edge's own metadata. *)
Definition is_reserved (name : bytes) : bool := starts_with (bs "x-oxo-") name.

(** The CGI name a Rack server derives: upper case, [-] to [_]. *)
Definition cgi_byte (b : byte) : byte :=
  if is_ascii_lower b then zb (bz b - 32) else if bz b =? 45 then underscore else b.
Definition cgi_name (name : bytes) : bytes := map cgi_byte name.

(** ** Lower-casing *)

Lemma lower_byte_idem b : lower_byte (lower_byte b) = lower_byte b.
Proof.
  unfold lower_byte, is_ascii_upper, in_range. pose proof (bz_range b).
  destruct ((65 <=? bz b) && (bz b <=? 90)) eqn:E.
  - rewrite bz_zb by lia. cases_if; [lia | reflexivity].
  - rewrite E. reflexivity.
Qed.

Lemma to_ascii_lowercase_idem s : to_ascii_lowercase (to_ascii_lowercase s) = to_ascii_lowercase s.
Proof. unfold to_ascii_lowercase. rewrite map_map. apply map_ext, lower_byte_idem. Qed.

Definition is_lower_name (s : bytes) : Prop := to_ascii_lowercase s = s.

Lemma lower_byte_id b : is_ascii_upper b = false -> lower_byte b = b.
Proof. unfold lower_byte. intros ->. reflexivity. Qed.

Lemma to_ascii_lowercase_id s : existsb is_ascii_upper s = false -> to_ascii_lowercase s = s.
Proof.
  induction s as [|b s IH]; [reflexivity|]. simpl. rewrite orb_false_iff. intros [Hb Hs].
  rewrite lower_byte_id, IH by assumption. reflexivity.
Qed.

Lemma lower_byte_not_upper b : is_ascii_upper (lower_byte b) = false.
Proof.
  unfold lower_byte, is_ascii_upper, in_range. pose proof (bz_range b).
  destruct ((65 <=? bz b) && (bz b <=? 90)) eqn:E; [|exact E]. rewrite bz_zb by lia. lia.
Qed.

(** On lower-case text without underscores the CGI mapping is injective: dropping
    underscore-bearing names is what makes two kept headers with the same CGI name
    the same header. *)
Lemma cgi_byte_inj a b :
  is_ascii_upper a = false -> is_ascii_upper b = false -> a <> underscore -> b <> underscore ->
  cgi_byte a = cgi_byte b -> a = b.
Proof.
  unfold cgi_byte, is_ascii_upper, is_ascii_lower, in_range, underscore.
  pose proof (bz_range a). pose proof (bz_range b). intros Ha Hb Hna Hnb E.
  assert (bz a <> 95) by (intros F; apply Hna, bz_inj; rewrite F, bz_zb; lia).
  assert (bz b <> 95) by (intros F; apply Hnb, bz_inj; rewrite F, bz_zb; lia).
  apply bz_inj. apply (f_equal bz) in E. revert E.
  repeat cases_if; rewrite ?bz_zb by lia; lia.
Qed.

Lemma cgi_name_inj s t :
  existsb is_ascii_upper s = false -> existsb is_ascii_upper t = false ->
  contains_byte underscore s = false -> contains_byte underscore t = false ->
  cgi_name s = cgi_name t -> s = t.
Proof.
  revert t. induction s as [|a s IH]; intros [|b t]; simpl; try discriminate; [auto|].
  rewrite !orb_false_iff, !bool_decide_eq_false. intros [? ?] [? ?] [? ?] [? ?] [= E1 E2].
  f_equal; [apply cgi_byte_inj | apply IH]; auto.
Qed.

Lemma normalize_some name n :
  normalize_header_name name = Some n ->
  contains_byte underscore n = false /\ existsb is_ascii_upper n = false.
Proof.
  unfold normalize_header_name, contains_byte. cases_if; [discriminate|]. intros [= <-].
  unfold to_ascii_lowercase. rewrite !existsb_map. split.
  - apply not_true_iff_false. intros H. apply not_true_iff_false in Heqb. apply Heqb.
    apply existsb_exists in H as (b & Hb & E). apply existsb_exists. exists b. split; [assumption|].
    apply bool_decide_eq_true in E. apply bool_decide_eq_true. revert E.
    unfold lower_byte. cases_if; [|auto]. intros E. exfalso.
    apply (f_equal bz) in E. unfold underscore, is_ascii_upper, in_range in *.
    pose proof (bz_range b). rewrite !bz_zb in E by lia. lia.
  - apply not_true_iff_false. intros H. apply existsb_exists in H as (b & _ & E).
    rewrite lower_byte_not_upper in E. discriminate.
Qed.

(** ** Properties *)

(** No header name can forge another one's Rack variable: two client header names
    that both survive [normalize_header_name] and map to the same CGI name are the same
    name up to ASCII case, so [X_Forwarded_For] can never impersonate
    [X-Forwarded-For]. *)
Theorem normalized_names_do_not_collide (a b na nb : bytes) :
  normalize_header_name a = Some na -> normalize_header_name b = Some nb ->
  cgi_name na = cgi_name nb -> eq_ignore_case a b = true.
Proof.
  intros Ha Hb E. pose proof (normalize_some _ _ Ha) as [? ?].
  pose proof (normalize_some _ _ Hb) as [? ?].
  assert (na = nb) as -> by (apply cgi_name_inj; assumption).
  unfold normalize_header_name in *. repeat cases_if; try discriminate.
  injection Ha as Ha. injection Hb as Hb. unfold eq_ignore_case. apply eq_bytes_true. congruence.
Qed.

Lemma normalized_names_do_not_collide_witness :
  eq_ignore_case (bs "X-Forwarded-For") (bs "x-forwarded-FOR") = true /\
  normalize_header_name (bs "X_Forwarded_For") = None.
Proof.
  split; [|reflexivity].
  apply (normalized_names_do_not_collide _ _ (bs "x-forwarded-for") (bs "x-forwarded-for"));
    vm_compute; reflexivity.
Defined.
