(* ===== verification/EdgeHeaders.v ===== *)
(** * EdgeHeaders: what the edge forwards to a worker

    Model of the header part of [crates/oxo-pingora-edge/src/lib.rs]
    ([LoweredHeader], the protocol classifiers, the owned sanitizer and the
    allocation-free [sanitize_frame_headers] with its keep bit mask) and of the request
    frame assembly in [platform/frame_hop.rs].  The theorems show that the bit-mask
    sanitizer and the borrowed frame builder are equivalent to the owned reference
    pair, and that nothing the edge must strip survives. *)

From S2P Require Import Prelude Text HeaderPolicy HopFrame.

(** ** Lowered headers *)

Record LoweredHeader : Type := {
  lh_name : bytes;
  lh_value : bytes;
  lh_lower : option bytes;
}.

(** [LoweredHeader::new]; [new_in] computes the same fields in an arena. *)
Definition lh_new (name value : bytes) : LoweredHeader :=
  let lower := if existsb is_ascii_upper name then Some (to_ascii_lowercase name) else None in
  {| lh_name := name; lh_value := value; lh_lower := lower |}.

(** [LoweredHeader::lower] *)
Definition lower (h : LoweredHeader) : bytes := unwrap_or (lh_name h) (lh_lower h).

(** ** Protocol classifiers *)

Inductive RequestRejection : Type := UpgradeUnsupported | GrpcUnsupported | StreamingUnsupported.
#[global] Instance RequestRejection_eq_dec : EqDecision RequestRejection.
Proof. solve_decision. Defined.

Record ProtocolSupport : Type := { sse : bool }.

Definition comma : byte := zb 44.
Definition semicolon : byte := zb 59.

(** [value.split(';').next().unwrap_or_default()] *)
Definition first_piece (c : byte) (s : bytes) : bytes :=
  match split_byte c s with p :: _ => p | [] => [] end.
Definition media_type (value : bytes) : bytes :=
  to_ascii_lowercase (trim (first_piece semicolon value)).

Definition is_native_grpc_content_type (value : bytes) : bool :=
  eq_bytes (media_type value) (bs "application/grpc")
  || starts_with (bs "application/grpc+") (media_type value).
Definition is_grpc_web_content_type (value : bytes) : bool :=
  eq_bytes (media_type value) (bs "application/grpc-web")
  || starts_with (bs "application/grpc-web+") (media_type value).
Definition is_grpc_content_type (value : bytes) : bool :=
  is_native_grpc_content_type value || is_grpc_web_content_type value.

Definition accepts_event_stream (value : bytes) : bool :=
  existsb (fun part => eq_bytes (trim (first_piece semicolon part)) (bs "text/event-stream"))
    (split_byte comma (to_ascii_lowercase value)).

Definition is_valid_grpc_timeout (value : bytes) : bool :=
  let value := trim value in
  if negb ((2 <=? zlen value) && (zlen value <=? 9)) then false
  else
    let n := (length value - 1)%nat in
    let digits := take n value in
    let unit := drop n value in
    negb (bool_decide (digits = [])) && (zlen digits <=? 8) && forallb is_ascii_digit digits
    && match unit with u :: _ => existsb (fun c => bool_decide (u = c)) (bs "HMSmun") | [] => false end.

(** ** The owned sanitizer *)

Definition hop_by_hop_names : list string :=
  ["connection"; "keep-alive"; "proxy-authenticate"; "proxy-authorization"; "proxy-connection";
   "te"; "trailer"; "transfer-encoding"; "upgrade"; "x-request-id"]%string.

Definition should_strip_header (lower_name : bytes) (connection_tokens : gset bytes) : bool :=
  one_of lower_name hop_by_hop_names || is_client_forwarding_header lower_name
  || is_reserved lower_name || bool_decide (lower_name ∈ connection_tokens).

Definition is_connection (h : LoweredHeader) : bool := eq_bytes (lower h) (bs "connection").

Fixpoint collect_tokens (tokens : list bytes) (acc : gset bytes)
    : result RequestRejection (gset bytes) :=
  match tokens with
  | [] => Ok acc
  | t :: ts =>
      let token := to_ascii_lowercase (trim t) in
      if bool_decide (token = []) then collect_tokens ts acc
      else if eq_bytes token (bs "upgrade") then Err UpgradeUnsupported
      else collect_tokens ts ({[ token ]} ∪ acc)
  end.

Fixpoint connection_pass (hs : list LoweredHeader) (acc : gset bytes)
    : result RequestRejection (gset bytes) :=
  match hs with
  | [] => Ok acc
  | h :: hs' =>
      if is_connection h
      then let? acc' := collect_tokens (split_byte comma (lh_value h)) acc in
           connection_pass hs' acc'
      else connection_pass hs' acc
  end.

(** The rejections both sanitizers check on every header before stripping. *)
Definition reject_header (protocols : ProtocolSupport) (h : LoweredHeader)
    : result RequestRejection unit :=
  let value := lh_value h in
  let lo := lower h in
  if eq_bytes lo (bs "upgrade") || starts_with (bs "sec-websocket-") lo then Err UpgradeUnsupported
  else if eq_bytes lo (bs "content-type") && is_grpc_content_type value then Err GrpcUnsupported
  else if negb (sse protocols)
          && ((eq_bytes lo (bs "accept") && accepts_event_stream value)
              || eq_bytes lo (bs "last-event-id")) then Err StreamingUnsupported
  else Ok tt.

Record SanitizedWorkerRequest : Type := {
  clean_headers : list header;
  stripped_headers : list bytes;
}.

Fixpoint strip_pass (protocols : ProtocolSupport) (tokens : gset bytes) (hs : list LoweredHeader)
    (clean : list header) (stripped : list bytes)
    : result RequestRejection SanitizedWorkerRequest :=
  match hs with
  | [] => Ok {| clean_headers := clean; stripped_headers := stripped |}
  | h :: hs' =>
      let? _ := reject_header protocols h in
      if should_strip_header (lower h) tokens
      then strip_pass protocols tokens hs' clean (stripped ++ [lh_name h])
      else strip_pass protocols tokens hs' (clean ++ [(lh_name h, lh_value h)]) stripped
  end.

(** [sanitize_lowered_worker_request_headers_bare] *)
Definition sanitize_bare (hs : list LoweredHeader) (protocols : ProtocolSupport)
    : result RequestRejection SanitizedWorkerRequest :=
  let? tokens := connection_pass hs ∅ in
  strip_pass protocols tokens hs [] [].

(** ** Trusted metadata and the HTTP hop's headers *)

Record TrustedHopMetadata : Type := {
  md_remote_addr : bytes;
  md_url_scheme : bytes;
  md_server_name : bytes;
  md_server_port : Z;
  md_request_id : option bytes;
}.

(** [TrustedHopMetadata::headers] *)
Definition metadata_headers (m : TrustedHopMetadata) : list header :=
  [(bs "x-oxo-remote-addr", md_remote_addr m); (bs "x-oxo-url-scheme", md_url_scheme m);
   (bs "x-oxo-server-name", md_server_name m);
   (bs "x-oxo-server-port", show_uint (md_server_port m))]
  ++ match md_request_id m with Some id => [(bs "x-oxo-request-id", id)] | None => [] end.

(** [sanitize_lowered_worker_request_headers] *)
Definition sanitize_lowered (hs : list LoweredHeader) (m : TrustedHopMetadata)
    (protocols : ProtocolSupport) : result RequestRejection SanitizedWorkerRequest :=
  let? s := sanitize_bare hs protocols in
  Ok {| clean_headers := clean_headers s ++ metadata_headers m ++ [(bs "connection", bs "close")];
        stripped_headers := stripped_headers s |}.

(** [sanitize_worker_request_headers_with_protocols] *)
Definition sanitize_worker_request_headers (hs : list header) (m : TrustedHopMetadata)
    (protocols : ProtocolSupport) : result RequestRejection SanitizedWorkerRequest :=
  sanitize_lowered (map (fun h => lh_new (fst h) (snd h)) hs) m protocols.

(** ** The keep-mask sanitizer of the frame path *)

Record FrameHeaderPlan : Type := {
  keep0 : Z;   (* u64: indices 0..63 *)
  keep1 : Z;   (* u64: indices 64..127 *)
  survivor_count : Z;
  has_host : bool;
}.

(** [FrameHeaderPlan::keeps] *)
Definition keeps (p : FrameHeaderPlan) (index : Z) : bool :=
  (index <? 128)
  && (Z.land (Z.shiftr (if index / 64 =? 0 then keep0 p else keep1 p) (index mod 64)) 1 =? 1).

(** [keep[i / 64] |= 1 << (i % 64); survivor_count += 1; has_host |= ...] *)
Definition plan_keep (p : FrameHeaderPlan) (i : Z) (host : bool) : FrameHeaderPlan :=
  let bit := Z.shiftl 1 (i mod 64) in
  {| keep0 := if i / 64 =? 0 then Z.lor (keep0 p) bit else keep0 p;
     keep1 := if i / 64 =? 0 then keep1 p else Z.lor (keep1 p) bit;
     survivor_count := survivor_count p + 1;
     has_host := if host then true else has_host p |}.

(** The connection pre-pass of the frame path only looks for [upgrade]. *)
Definition upgrade_token (t : bytes) : bool :=
  negb (bool_decide (trim t = [])) && eq_ignore_case (trim t) (bs "upgrade").
Definition upgrade_pass (hs : list LoweredHeader) : bool :=
  existsb (fun h => is_connection h && existsb upgrade_token (split_byte comma (lh_value h))) hs.

Definition connection_names_match (hs : list LoweredHeader) (candidate : bytes) : bool :=
  existsb (fun h => existsb (fun t => negb (bool_decide (t = [])) && eq_ignore_case t candidate)
                      (map trim (split_byte comma (lh_value h))))
    (List.filter is_connection hs).

Definition should_strip_header_scan (lower_name : bytes) (names_match : bytes -> bool) : bool :=
  one_of lower_name hop_by_hop_names || is_client_forwarding_header lower_name
  || is_reserved lower_name || names_match lower_name.

Fixpoint mask_pass (protocols : ProtocolSupport) (names_match : bytes -> bool)
    (i : Z) (hs : list LoweredHeader) (p : FrameHeaderPlan)
    : result RequestRejection FrameHeaderPlan :=
  match hs with
  | [] => Ok p
  | h :: hs' =>
      let? _ := reject_header protocols h in
      if should_strip_header_scan (lower h) names_match
      then mask_pass protocols names_match (i + 1) hs' p
      else mask_pass protocols names_match (i + 1) hs' (plan_keep p i (eq_bytes (lower h) (bs "host")))
  end.

Definition empty_plan : FrameHeaderPlan :=
  {| keep0 := 0; keep1 := 0; survivor_count := 0; has_host := false |}.

Definition sanitize_frame_headers (hs : list LoweredHeader) (protocols : ProtocolSupport)
    : result RequestRejection FrameHeaderPlan :=
  if zlen hs >? 128 then Err UpgradeUnsupported
  else if upgrade_pass hs then Err UpgradeUnsupported
  else mask_pass protocols (connection_names_match hs) 0 hs empty_plan.

(** ** Frame assembly *)

Definition has_x_oxo_prefix (name : bytes) : bool :=
  (6 <=? zlen name) && eq_ignore_case (take 6 name) (bs "x-oxo-").

Definition scheme_of (url_scheme : bytes) : Scheme :=
  if eq_bytes url_scheme (bs "https") then Https else Http.

(** The kept headers, in order, with the defence pass against reserved names. *)
Fixpoint survivors (p : FrameHeaderPlan) (i : Z) (hs : list LoweredHeader) : list header :=
  match hs with
  | [] => []
  | h :: hs' =>
      if keeps p i && negb (has_x_oxo_prefix (lh_name h))
      then (lh_name h, lh_value h) :: survivors p (i + 1) hs'
      else survivors p (i + 1) hs'
  end.

Definition opt_list {A} (o : option A) : list A := match o with Some a => [a] | None => [] end.

(** [assemble_request_frame_bytes_into]; [stamp] is the optional diagnostic timestamp. *)
Definition assemble_into (out : bytes) (meth path query : bytes) (authority : option bytes)
    (raw : list LoweredHeader) (plan : FrameHeaderPlan) (body : bytes)
    (m : TrustedHopMetadata) (stamp : option bytes) : bytes * result Z unit :=
  let synth_host := if has_host plan then None else authority in
  let hs := opt_list ((fun a => (bs "host", a)) <$> synth_host) ++ survivors plan 0 raw
            ++ opt_list ((fun v => (bs "x-oxo-ts0", v)) <$> stamp) in
  let header_count := survivor_count plan + zlen (opt_list synth_host) + zlen (opt_list stamp) in
  let frame_ref :=
    {| r_method := meth; r_path := path; r_query := query; r_server_name := md_server_name m;
       r_server_port := md_server_port m; r_scheme := scheme_of (md_url_scheme m);
       r_remote_addr := md_remote_addr m; r_body := body |} in
  let '(out', r) := encode_request_ref_into out frame_ref header_count hs in
  (out', map_err (fun _ => 400) r).

(** [assemble_request_frame_owned]: the owned reference builder. *)
Definition assemble_owned (meth path query : bytes) (authority : option bytes)
    (sanitized : list header) (body : bytes) (m : TrustedHopMetadata) : RequestFrame :=
  let has_host := existsb (fun h => eq_ignore_case (fst h) (bs "host")) sanitized in
  let hs := List.filter (fun h => negb (has_x_oxo_prefix (fst h))) sanitized in
  let hs := if has_host then hs
            else match authority with Some a => (bs "host", a) :: hs | None => hs end in
  {| method := meth; path := path; query := query; server_name := md_server_name m;
     server_port := md_server_port m; scheme := scheme_of (md_url_scheme m);
     remote_addr := md_remote_addr m; headers := hs; body := body |}.

(** ** Facts on lowered headers *)

Definition lh_wf (h : LoweredHeader) : Prop := h = lh_new (lh_name h) (lh_value h).

Lemma lower_wf h : lh_wf h -> lower h = to_ascii_lowercase (lh_name h).
Proof.
  intros ->. unfold lower, lh_new. cbn [lh_name lh_lower]. cases_if; simpl; [reflexivity|].
  symmetry. apply to_ascii_lowercase_id. assumption.
Qed.

Lemma lower_is_lower h : lh_wf h -> is_lower_name (lower h).
Proof. intros H. unfold is_lower_name. rewrite lower_wf, to_ascii_lowercase_idem by auto. reflexivity. Qed.

Lemma x_oxo_prefix_reserved h : lh_wf h -> has_x_oxo_prefix (lh_name h) = is_reserved (lower h).
Proof.
  intros H. rewrite lower_wf by assumption. unfold has_x_oxo_prefix, is_reserved.
  rewrite starts_with_take. change (length (bs "x-oxo-")) with 6%nat.
  unfold eq_ignore_case. change (to_ascii_lowercase (bs "x-oxo-")) with (bs "x-oxo-").
  unfold to_ascii_lowercase. rewrite firstn_map.
  destruct (Z.leb_spec 6 (zlen (lh_name h))) as [Hle | Hlt]; [reflexivity|]. simpl.
  symmetry. apply bool_decide_eq_false. intros E. apply (f_equal length) in E.
  rewrite length_map, length_take in E. unfold zlen in Hlt. change (length (bs "x-oxo-")) with 6%nat in E.
  lia.
Qed.

(** ** The connection-token passes agree *)

Definition names_token (x t : bytes) : bool :=
  negb (bool_decide (trim t = [])) && eq_bytes (to_ascii_lowercase (trim t)) x.

Lemma lowercase_nil s : to_ascii_lowercase s = [] <-> s = [].
Proof. destruct s; split; intros; try discriminate; reflexivity. Qed.

Lemma collect_tokens_spec ts acc :
  match collect_tokens ts acc with
  | Ok acc' => existsb upgrade_token ts = false /\
      forall x, x ∈ acc' <-> x ∈ acc \/ existsb (names_token x) ts = true
  | Err e => e = UpgradeUnsupported /\ existsb upgrade_token ts = true
  end.
Proof.
  revert acc. induction ts as [|t ts IH]; intros acc; cbn [collect_tokens existsb].
  - split; [reflexivity|]. intros x. split; [auto | intros [? | ?]; [assumption | discriminate]].
  - assert (Hup : upgrade_token t = negb (bool_decide (to_ascii_lowercase (trim t) = []))
              && eq_bytes (to_ascii_lowercase (trim t)) (bs "upgrade")).
    { unfold upgrade_token, eq_ignore_case. do 2 f_equal. apply bool_decide_ext.
      rewrite lowercase_nil. reflexivity. }
    assert (Hnt : forall x, names_token x t = negb (bool_decide (to_ascii_lowercase (trim t) = []))
              && eq_bytes (to_ascii_lowercase (trim t)) x).
    { intros x. unfold names_token. do 2 f_equal. apply bool_decide_ext.
      rewrite lowercase_nil. reflexivity. }
    destruct (bool_decide_reflect (to_ascii_lowercase (trim t) = [])) as [He | Hne]; simpl in *.
    + specialize (IH acc). destruct (collect_tokens ts acc); rewrite Hup; simpl; [|assumption].
      destruct IH as [? IH]. split; [assumption|]. intros x. rewrite IH, Hnt. reflexivity.
    + destruct (eq_bytes (to_ascii_lowercase (trim t)) (bs "upgrade")) eqn:Eu; rewrite Hup; simpl; [auto|].
      specialize (IH ({[to_ascii_lowercase (trim t)]} ∪ acc)).
      destruct (collect_tokens ts _); [|assumption].
      destruct IH as [? IH]. split; [assumption|]. intros x.
      rewrite IH, Hnt, orb_true_iff, elem_of_union, elem_of_singleton, eq_bytes_true. 
      split; intros; intuition congruence.
Qed.

Definition header_names_token (x : bytes) (h : LoweredHeader) : bool :=
  is_connection h && existsb (names_token x) (split_byte comma (lh_value h)).

Lemma connection_pass_spec hs acc :
  match connection_pass hs acc with
  | Ok acc' => upgrade_pass hs = false /\
      forall x, x ∈ acc' <-> x ∈ acc \/ existsb (header_names_token x) hs = true
  | Err e => e = UpgradeUnsupported /\ upgrade_pass hs = true
  end.
Proof.
  revert acc. induction hs as [|h hs IH]; intros acc; cbn [connection_pass].
  - split; [reflexivity|]. intros x. split; [auto | intros [? | ?]; [assumption | discriminate]].
  - unfold upgrade_pass. cbn [existsb]. fold (upgrade_pass hs). unfold header_names_token at 1.
    destruct (is_connection h) eqn:Ec; cbn [andb].
    + pose proof (collect_tokens_spec (split_byte comma (lh_value h)) acc) as Hc.
      destruct (collect_tokens _ acc) as [acc1|e]; cbn [rbind].
      * destruct Hc as [-> Hm]. specialize (IH acc1). destruct (connection_pass hs acc1); [|assumption].
        destruct IH as [? IH]. split; [assumption|]. intros x. rewrite IH, Hm.
        rewrite orb_true_iff. tauto.
      * destruct Hc as [-> ->]. auto.
    + specialize (IH acc). destruct (connection_pass hs acc); [|assumption].
      destruct IH as [? IH]. split; [assumption|]. intros x. rewrite IH. reflexivity.
Qed.

Lemma connection_names_match_spec hs x : is_lower_name x ->
  connection_names_match hs x = existsb (header_names_token x) hs.
Proof.
  intros Hx. unfold connection_names_match. induction hs as [|h hs IH]; [reflexivity|].
  cbn [List.filter existsb]. unfold header_names_token at 1.
  destruct (is_connection h); cbn [existsb andb]; rewrite IH; [|reflexivity].
  f_equal. rewrite existsb_map. induction (split_byte comma (lh_value h)) as [|t ts IHt]; [reflexivity|].
  cbn [existsb]. rewrite IHt. unfold names_token at 2, eq_ignore_case. rewrite Hx. reflexivity.
Qed.

(** ** The bit mask *)

Lemma land1_testbit w k : 0 <= k -> (Z.land (Z.shiftr w k) 1 =? 1) = Z.testbit w k.
Proof.
  intros Hk. change 1 with (Z.ones 1) at 1. rewrite Z.land_ones, Z.shiftr_div_pow2 by lia.
  pose proof (Z.testbit_spec' w k Hk) as H. change (2 ^ 1) with 2. rewrite <- H.
  destruct (Z.testbit w k); reflexivity.
Qed.

Lemma keeps_empty j : 0 <= j -> keeps empty_plan j = false.
Proof.
  intros Hj. unfold keeps. rewrite land1_testbit by (apply Z.mod_pos_bound; lia).
  cbn [empty_plan keep0 keep1]. destruct (j / 64 =? 0); rewrite Z.testbit_0_l, andb_false_r; reflexivity.
Qed.

Lemma keeps_plan_keep p i host j : 0 <= i < 128 -> 0 <= j < 128 ->
  keeps (plan_keep p i host) j = (i =? j) || keeps p j.
Proof.
  intros Hi Hj. unfold keeps. rewrite (proj2 (Z.ltb_lt j 128)) by lia. cbn [andb].
  rewrite !land1_testbit by (apply Z.mod_pos_bound; lia). cbn [plan_keep keep0 keep1].
  pose proof (Z.div_mod i 64 ltac:(lia)) as Di. pose proof (Z.div_mod j 64 ltac:(lia)) as Dj.
  pose proof (Z.mod_pos_bound i 64 ltac:(lia)). pose proof (Z.mod_pos_bound j 64 ltac:(lia)).
  assert (Hs : forall w, Z.testbit (Z.lor w (Z.shiftl 1 (i mod 64))) (j mod 64)
                = (i mod 64 =? j mod 64) || Z.testbit w (j mod 64)).
  { intros w. apply (Z.setbit_eqb w (i mod 64) (j mod 64)). lia. }
  destruct (Z.eqb_spec (j / 64) 0), (Z.eqb_spec (i / 64) 0); rewrite ?Hs;
    destruct (Z.eqb_spec i j), (Z.eqb_spec (i mod 64) (j mod 64)); try reflexivity; lia.
Qed.

(** ** The two sanitizers agree *)

Definition is_host_header (h : header) : bool := eq_ignore_case (fst h) (bs "host").

Lemma host_lower h : lh_wf h ->
  eq_bytes (lower h) (bs "host") = is_host_header (lh_name h, lh_value h).
Proof.
  intros H. rewrite lower_wf by assumption. reflexivity.
Qed.

(** Running both passes side by side from index [i]: same rejection, or the mask's new
    survivors are exactly the headers the owned pass appended. *)
Definition passes_match (i : Z) (hs : list LoweredHeader) (clean : list header)
    (p : FrameHeaderPlan) (owned : result RequestRejection SanitizedWorkerRequest)
    (masked : result RequestRejection FrameHeaderPlan) : Prop :=
  match owned, masked with
  | Ok s, Ok p' =>
      exists new, clean_headers s = clean ++ new /\ survivors p' i hs = new /\
        survivor_count p' = survivor_count p + zlen new /\
        has_host p' = has_host p || existsb is_host_header new /\
        forall j, 0 <= j < i -> keeps p' j = keeps p j
  | Err e, Err e' => e = e'
  | _, _ => False
  end.

Lemma passes_agree protocols tokens names hs i clean stripped p :
  Forall lh_wf hs ->
  (forall h, In h hs -> should_strip_header (lower h) tokens = should_strip_header_scan (lower h) names) ->
  0 <= i -> i + zlen hs <= 128 -> (forall j, i <= j < 128 -> keeps p j = false) ->
  passes_match i hs clean p (strip_pass protocols tokens hs clean stripped)
    (mask_pass protocols names i hs p).
Proof.
  intros Hwf. revert i clean stripped p. induction Hwf as [|h hs Hh Hwf IH];
    intros i clean stripped p Hs Hi Hlen Hk; cbn [strip_pass mask_pass].
  - exists []. cbn. rewrite app_nil_r, orb_false_r, Z.add_0_r. auto.
  - destruct (reject_header protocols h) as [u|e]; cbn [rbind]; [|reflexivity].
    rewrite zlen_cons in Hlen. pose proof (zlen_nonneg hs).
    rewrite (Hs h) by (left; reflexivity). 
    assert (Hs' : forall h', In h' hs ->
      should_strip_header (lower h') tokens = should_strip_header_scan (lower h') names)
      by (intros; apply Hs; right; assumption).
    destruct (should_strip_header_scan (lower h) names) eqn:Est.
    + specialize (IH (i + 1) clean (stripped ++ [lh_name h]) p Hs' ltac:(lia) ltac:(lia)
                    ltac:(intros; apply Hk; lia)).
      unfold passes_match in *. destruct (strip_pass _ _ hs _ _), (mask_pass _ _ _ hs _); try assumption.
      destruct IH as (new & Hc & Hsv & Hn & Hhost & Hkeep). exists new. cbn [survivors].
      rewrite (Hkeep i), (Hk i) by lia. cbn [andb]. repeat split; auto. intros; apply Hkeep; lia.
    + set (p1 := plan_keep p i (eq_bytes (lower h) (bs "host"))).
      specialize (IH (i + 1) (clean ++ [(lh_name h, lh_value h)]) stripped p1 Hs' ltac:(lia) ltac:(lia)).
      assert (Hk1 : forall j, i + 1 <= j < 128 -> keeps p1 j = false).
      { intros j Hj. unfold p1. rewrite keeps_plan_keep, Hk by lia.
        destruct (Z.eqb_spec i j); [lia | reflexivity]. }
      specialize (IH Hk1). unfold passes_match in *.
      destruct (strip_pass _ _ hs _ _), (mask_pass _ _ _ hs _); try assumption.
      destruct IH as (new & Hc & Hsv & Hn & Hhost & Hkeep).
      exists ((lh_name h, lh_value h) :: new). cbn [survivors].
      rewrite (Hkeep i) by lia. unfold p1 at 1. rewrite keeps_plan_keep, Z.eqb_refl by lia.
      rewrite x_oxo_prefix_reserved by assumption.
      assert (is_reserved (lower h) = false) as ->.
      { unfold should_strip_header_scan in Est. rewrite !orb_false_iff in Est. tauto. }
      cbn [orb andb negb]. rewrite Hc, <- app_assoc, zlen_cons, Hn, Hhost, Hsv.
      unfold p1. cbn [plan_keep survivor_count has_host existsb]. rewrite host_lower by assumption.
      repeat split; auto; [lia | | ].
      * destruct (is_host_header (lh_name h, lh_value h)), (has_host p); reflexivity.
      * intros j Hj. rewrite Hkeep by lia. unfold p1. rewrite keeps_plan_keep by lia.
        destruct (Z.eqb_spec i j); [lia | reflexivity].
Qed.

(** What both sanitizers compute, in one statement. *)
Definition sanitizers_agree (hs : list LoweredHeader)
    (owned : result RequestRejection SanitizedWorkerRequest)
    (masked : result RequestRejection FrameHeaderPlan) : Prop :=
  match owned, masked with
  | Ok s, Ok p => clean_headers s = survivors p 0 hs /\
      survivor_count p = zlen (clean_headers s) /\
      has_host p = existsb is_host_header (clean_headers s)
  | Err e, Err e' => e = e'
  | _, _ => False
  end.

Lemma sanitizers_match hs protocols :
  Forall lh_wf hs -> zlen hs <= 128 ->
  sanitizers_agree hs (sanitize_bare hs protocols) (sanitize_frame_headers hs protocols).
Proof.
  intros Hwf Hlen. unfold sanitize_bare, sanitize_frame_headers.
  pose proof (connection_pass_spec hs ∅) as Hc. cases_if; [lia|].
  destruct (connection_pass hs ∅) as [tokens|e]; cbn [rbind].
  2: { destruct Hc as [-> ->]. reflexivity. }
  destruct Hc as [-> Hm].
  pose proof (passes_agree protocols tokens (connection_names_match hs) hs 0 [] [] empty_plan Hwf) as Hp.
  unfold sanitizers_agree. unfold passes_match in Hp.
  match type of Hp with ?P -> _ => assert (Hstrip : P) end.
  { intros h Hin. unfold should_strip_header, should_strip_header_scan. f_equal.
    pose proof (proj1 (Forall_forall _ _) Hwf h Hin) as Hh.
    rewrite connection_names_match_spec by (apply lower_is_lower; assumption).
    apply eq_true_iff_eq. rewrite bool_decide_eq_true, Hm. set_solver. }
  specialize (Hp Hstrip ltac:(lia) ltac:(lia) ltac:(intros; apply keeps_empty; lia)).
  destruct (strip_pass _ _ hs [] []), (mask_pass _ _ 0 hs empty_plan); try assumption.
  destruct Hp as (new & Hcl & Hsv & Hn & Hhost & _). rewrite Hcl, Hsv. cbn [app].
  rewrite Hn, Hhost. auto.
Qed.

(** ** What the owned sanitizer keeps *)

(** The classes that must not reach a worker: hop-by-hop, client forwarding identity,
    the reserved namespace, and whatever a Connection header names. *)
Definition must_strip (hs : list LoweredHeader) (name : bytes) : bool :=
  let lo := to_ascii_lowercase name in
  one_of lo hop_by_hop_names || is_client_forwarding_header lo || is_reserved lo
  || existsb (header_names_token lo) hs.

Definition kv (h : LoweredHeader) : header := (lh_name h, lh_value h).

Lemma strip_pass_spec protocols tokens (strip : LoweredHeader -> bool) hs clean stripped s :
  (forall h, In h hs -> should_strip_header (lower h) tokens = strip h) ->
  strip_pass protocols tokens hs clean stripped = Ok s <->
  Forall (fun h => reject_header protocols h = Ok tt) hs /\
  s = {| clean_headers := clean ++ map kv (List.filter (fun h => negb (strip h)) hs);
         stripped_headers := stripped ++ map lh_name (List.filter strip hs) |}.
Proof.
  revert clean stripped. induction hs as [|h hs IH]; intros clean stripped Hs;
    cbn [strip_pass List.filter map].
  - rewrite !app_nil_r. split; [intros [= <-]; auto | intros [_ ->]; reflexivity].
  - rewrite Forall_cons_iff.
    assert (Hs' : forall h', In h' hs -> should_strip_header (lower h') tokens = strip h')
      by (intros; apply Hs; right; assumption).
    destruct (reject_header protocols h) as [[]|e] eqn:Er; cbn [rbind].
    2: { split; [discriminate | intros [[? _] _]; discriminate]. }
    rewrite (Hs h) by (left; reflexivity).
    destruct (strip h); cbn [negb map]; rewrite IH by assumption; rewrite <- app_assoc; cbn [app];
      split; [intros [? ->] | intros [[_ ?] ->] | intros [? ->] | intros [[_ ?] ->]]; auto.
Qed.

Lemma sanitize_bare_spec hs protocols s :
  Forall lh_wf hs ->
  sanitize_bare hs protocols = Ok s <->
  upgrade_pass hs = false /\ Forall (fun h => reject_header protocols h = Ok tt) hs /\
  s = {| clean_headers := map kv (List.filter (fun h => negb (must_strip hs (lh_name h))) hs);
         stripped_headers := map lh_name (List.filter (fun h => must_strip hs (lh_name h)) hs) |}.
Proof.
  intros Hwf. unfold sanitize_bare. pose proof (connection_pass_spec hs ∅) as Hc.
  destruct (connection_pass hs ∅) as [tokens|e]; cbn [rbind].
  - destruct Hc as [-> Hm].
    rewrite (strip_pass_spec protocols tokens (fun h => must_strip hs (lh_name h))); [tauto|].
    intros h Hin. pose proof (proj1 (Forall_forall _ _) Hwf h Hin) as Hh.
    unfold should_strip_header, must_strip. rewrite lower_wf by assumption. f_equal.
    apply eq_true_iff_eq. rewrite bool_decide_eq_true, Hm. set_solver.
  - destruct Hc as [-> ->]. split; [discriminate | intros [? _]; discriminate].
Qed.

Lemma survivors_no_x_oxo p i hs h : In h (survivors p i hs) -> has_x_oxo_prefix (fst h) = false.
Proof.
  revert i. induction hs as [|x hs IH]; intros i; cbn [survivors]; [intros []|].
  destruct (keeps p i && negb (has_x_oxo_prefix (lh_name x))) eqn:E; [|apply IH].
  intros [<- | Hin]; [|eapply IH, Hin]. apply andb_true_iff in E as [_ E].
  apply negb_true_iff in E. exact E.
Qed.

Lemma filter_all {A} (f : A -> bool) l : (forall x, In x l -> f x = true) -> List.filter f l = l.
Proof.
  induction l as [|x l IH]; intros H; [reflexivity|]. cbn [List.filter].
  rewrite (H x) by (left; reflexivity). f_equal. apply IH. intros y Hy. apply H. right. exact Hy.
Qed.

Lemma assemble_agrees out meth path query authority raw protocols body m s plan :
  Forall lh_wf raw -> zlen raw <= 128 ->
  sanitize_bare raw protocols = Ok s -> sanitize_frame_headers raw protocols = Ok plan ->
  let owned := assemble_owned meth path query authority (clean_headers s) body m in
  match encode_request owned with
  | Ok frame => assemble_into out meth path query authority raw plan body m None = (frame, Ok tt)
  | Err _ => exists out', assemble_into out meth path query authority raw plan body m None
                          = (out', Err 400)
  end.
Proof.
  intros Hwf Hlen Hb Hf owned. pose proof (sanitizers_match raw protocols Hwf Hlen) as Ha.
  rewrite Hb, Hf in Ha. destruct Ha as (Hsv & Hn & Hh).
  assert (Hown : headers owned =
    opt_list ((fun a => (bs "host", a)) <$> (if has_host plan then None else authority))
    ++ survivors plan 0 raw ++ []).
  { unfold owned, assemble_owned. cbn [headers]. rewrite Hsv.
    rewrite filter_all by (intros x Hx; rewrite (survivors_no_x_oxo _ _ _ _ Hx); reflexivity).
    rewrite Hsv in Hh. unfold is_host_header in Hh. rewrite <- Hh, app_nil_r.
    destruct (has_host plan), authority; reflexivity. }
  unfold assemble_into. cbn [opt_list fmap option_fmap option_map].
  rewrite <- Hown.
  pose proof (encode_request_ref_into_spec out owned (zlen (headers owned))) as Hspec.
  cbv zeta in Hspec. rewrite Z.eqb_refl, andb_true_r in Hspec.
  replace (survivor_count plan + zlen (opt_list (if has_host plan then None else authority)) + zlen (@nil bytes))
    with (zlen (headers owned)).
  2: { rewrite Hown, zlen_app, app_nil_r, Hn, Hsv. change (zlen (@nil bytes)) with 0.
       destruct (has_host plan), authority; cbn [opt_list fmap option_fmap option_map];
         unfold zlen; cbn [length]; lia. }
  change {| r_method := meth; r_path := path; r_query := query; r_server_name := md_server_name m;
            r_server_port := md_server_port m; r_scheme := scheme_of (md_url_scheme m);
            r_remote_addr := md_remote_addr m; r_body := body |} with (as_ref owned).
  rewrite encode_request_spec.
  destruct (request_fits owned && (zlen (request_envelope owned) <=? u32_max)).
  - rewrite Hspec. reflexivity.
  - destruct Hspec as [out' ->]. eexists. reflexivity.
Qed.

(** ** Sample headers *)

Definition sample_headers : list LoweredHeader :=
  map (fun h => lh_new (fst h) (snd h))
    [(bs "Host", bs "app.example"); (bs "Connection", bs "close, X-Hop");
     (bs "X-Hop", bs "1"); (bs "X-Forwarded-For", bs "1.2.3.4"); (bs "X-Oxo-Foo", bs "x");
     (bs "Accept", bs "text/html")].

Lemma sample_headers_wf : Forall lh_wf sample_headers.
Proof. repeat constructor. Qed.

(** ** Properties *)

(** The allocation-free sanitizer is the owned sanitizer: on at most 128 headers
    both reject with the same rejection, or the bits kept select exactly the owned
    sanitizer's header list, in order, with its length as the survivor count and its
    Host presence as the host flag. *)
Theorem sanitize_frame_headers_agrees (hs : list LoweredHeader) (protocols : ProtocolSupport) :
  Forall lh_wf hs -> zlen hs <= 128 ->
  sanitizers_agree hs (sanitize_bare hs protocols) (sanitize_frame_headers hs protocols).
Proof. apply sanitizers_match. Qed.

Lemma sanitize_frame_headers_agrees_witness :
  sanitizers_agree sample_headers (sanitize_bare sample_headers {| sse := false |})
    (sanitize_frame_headers sample_headers {| sse := false |}) /\
  is_ok (sanitize_frame_headers sample_headers {| sse := false |}) = true.
Proof.
  split; [|vm_compute; reflexivity].
  apply sanitize_frame_headers_agrees; [exact sample_headers_wf | vm_compute; discriminate].
Defined.

(** What reaches a worker: the sanitizer succeeds exactly when no Connection token
    asks for an upgrade and no header is a rejected protocol header; then it keeps, in
    order and unchanged, exactly the headers that are neither hop-by-hop, nor a client
    forwarding identity, nor in the reserved [x-oxo-] namespace, nor named by a
    Connection header, and it reports the names of all others. *)
Theorem sanitize_bare_exact (hs : list LoweredHeader) (protocols : ProtocolSupport)
    (s : SanitizedWorkerRequest) :
  Forall lh_wf hs ->
  sanitize_bare hs protocols = Ok s <->
  upgrade_pass hs = false /\ Forall (fun h => reject_header protocols h = Ok tt) hs /\
  clean_headers s = map kv (List.filter (fun h => negb (must_strip hs (lh_name h))) hs) /\
  stripped_headers s = map lh_name (List.filter (fun h => must_strip hs (lh_name h)) hs).
Proof.
  intros Hwf. rewrite sanitize_bare_spec by assumption. destruct s as [c st]. cbn.
  split; [intros (? & ? & [= -> ->]) | intros (? & ? & -> & ->)]; auto.
Qed.

Lemma sanitize_bare_exact_witness :
  sanitize_bare sample_headers {| sse := false |} =
  Ok {| clean_headers := [(bs "Host", bs "app.example"); (bs "Accept", bs "text/html")];
        stripped_headers := [bs "Connection"; bs "X-Hop"; bs "X-Forwarded-For"; bs "X-Oxo-Foo"] |}.
Proof.
  apply (sanitize_bare_exact sample_headers {| sse := false |} _ sample_headers_wf).
  split; [vm_compute; reflexivity|]. split; [repeat constructor|].
  split; vm_compute; reflexivity.
Defined.

(** The borrowed frame builder is the owned one: for sanitized headers, whatever
    the reused buffer held, the bytes the edge sends are exactly the encoding of the
    request frame built from the owned sanitized list (Host synthesised from the
    authority when absent), and an unencodable request is a 400. *)
Theorem assembled_frame_matches_owned (out meth path query : bytes) (authority : option bytes)
    (raw : list LoweredHeader) (protocols : ProtocolSupport) (body : bytes)
    (m : TrustedHopMetadata) (s : SanitizedWorkerRequest) (plan : FrameHeaderPlan) :
  Forall lh_wf raw -> zlen raw <= 128 ->
  sanitize_bare raw protocols = Ok s -> sanitize_frame_headers raw protocols = Ok plan ->
  let owned := assemble_owned meth path query authority (clean_headers s) body m in
  match encode_request owned with
  | Ok frame => assemble_into out meth path query authority raw plan body m None = (frame, Ok tt)
  | Err _ => exists out', assemble_into out meth path query authority raw plan body m None
                          = (out', Err 400)
  end.
Proof. apply assemble_agrees. Qed.

Definition sample_metadata : TrustedHopMetadata :=
  {| md_remote_addr := bs "203.0.113.9"; md_url_scheme := bs "https";
     md_server_name := bs "app.example"; md_server_port := 443; md_request_id := None |}.

Lemma assembled_frame_matches_owned_witness :
  exists frame plan,
    sanitize_frame_headers sample_headers {| sse := false |} = Ok plan /\
    assemble_into (bs "stale") (bs "GET") (bs "/") [] None sample_headers plan [] sample_metadata None
      = (frame, Ok tt).
Proof.
  destruct (sanitize_bare sample_headers {| sse := false |}) as [s|] eqn:Es;
    [|vm_compute in Es; discriminate].
  destruct (sanitize_frame_headers sample_headers {| sse := false |}) as [p|] eqn:Ep;
    [|vm_compute in Ep; discriminate].
  pose proof (assembled_frame_matches_owned (bs "stale") (bs "GET") (bs "/") [] None sample_headers
    {| sse := false |} [] sample_metadata s p sample_headers_wf ltac:(vm_compute; discriminate) Es Ep) as H.
  cbv zeta in H. destruct (encode_request _) as [frame|] eqn:Ee; [exists frame, p; auto|].
  exfalso. vm_compute in Es. injection Es as <-. vm_compute in Ee. discriminate.
Defined.
