(* ===== verification/Stream.v ===== *)
(** * Stream: blocking byte streams

    What the worker and the edge use of [std::io::Read] and [Write] on a socket.  The
    read side is the sequence of outcomes the operating system will deliver: pieces of
    data of any size, interruptions and failures, then end of file.  The write side is
    the sequence of buffers handed to [write_all], with a function that says which of
    them the peer still accepts. *)

From S2P Require Import Prelude Text.

Inductive event : Type :=
| Data (d : bytes)
| Interrupted
| Failed.

Abbreviation stream := (list event).

(** How a fill loop ends. *)
Inductive fill : Type :=
| Filled (d : bytes)
| CleanEof
| Broken.

(** Fill a buffer of [need] more bytes, [got] being what was read so far: the loop of
    [read_exact_or_eof] in [oxo-worker/src/native/frame.rs] and of [Read::read_exact],
    which differ only in how they report an end of file before the first byte. *)
Fixpoint fill_loop (need : nat) (got : bytes) (s : stream) : fill * stream :=
  match need with
  | O => (Filled got, s)
  | S _ =>
      match s with
      | [] => (if decide (got = []) then CleanEof else Broken, [])
      | Interrupted :: s' => fill_loop need got s'
      | Failed :: s' => (Broken, s')
      | Data d :: s' =>
          if (length d <=? need)%nat then fill_loop (need - length d) (got ++ d) s'
          else (Filled (got ++ take need d), Data (drop need d) :: s')
      end
  end.

Definition read_exact_or_eof (n : nat) (s : stream) : fill * stream := fill_loop n [] s.

(** [Read::read_exact]: any end of file is an error. *)
Definition read_exact (n : nat) (s : stream) : option bytes * stream :=
  match fill_loop n [] s with
  | (Filled d, s') => (Some d, s')
  | (_, s') => (None, s')
  end.

(** Everything the peer sends, when no failure interferes. *)
Fixpoint payload (s : stream) : bytes :=
  match s with
  | [] => []
  | Data d :: s' => d ++ payload s'
  | Interrupted :: s' => payload s'
  | Failed :: _ => []
  end.
Definition intact (s : stream) : bool :=
  forallb (fun e => match e with Failed => false | _ => true end) s.

(** ** Facts: reading depends on the payload, not on how it arrives *)

Lemma fill_loop_intact need got s :
  intact s = true ->
  let '(r, s') := fill_loop need got s in
  intact s' = true /\
  if (need <=? length (payload s))%nat
  then r = Filled (got ++ take need (payload s)) /\ payload s' = drop need (payload s)
  else r = (if decide (got ++ payload s = []) then CleanEof else Broken) /\ payload s' = [].
Proof.
  revert need got. induction s as [|e s IH]; intros need got Hi.
  - destruct need; simpl; [rewrite app_nil_r; auto|]. rewrite app_nil_r. auto.
  - destruct need as [|need].
    + simpl. rewrite app_nil_r. auto.
    + destruct e as [d| |]; [|simpl; apply IH, Hi | discriminate].
      cbn [fill_loop payload]. simpl in Hi. rewrite length_app.
      destruct (Nat.leb_spec (length d) (S need)) as [Hle | Hgt].
      * specialize (IH (S need - length d)%nat (got ++ d) Hi).
        destruct (fill_loop (S need - length d) (got ++ d) s) as [r s']. destruct IH as [Hi' IH].
        split; [assumption|]. rewrite <- !app_assoc in IH.
        rewrite take_app_ge, drop_app_ge by lia.
        destruct (Nat.leb_spec (S need - length d) (length (payload s))),
                 (Nat.leb_spec (S need) (length d + length (payload s))); try lia.
        -- exact IH.
        -- exact IH.
      * split; [exact Hi|]. destruct (Nat.leb_spec (S need) (length d + length (payload s))); [|lia].
        rewrite take_app_le, drop_app_le by lia. auto.
Qed.

Lemma read_exact_intact n s :
  intact s = true ->
  let '(r, s') := read_exact n s in
  intact s' = true /\
  if (n <=? length (payload s))%nat
  then r = Some (take n (payload s)) /\ payload s' = drop n (payload s)
  else r = None.
Proof.
  intros Hi. unfold read_exact. pose proof (fill_loop_intact n [] s Hi) as H.
  destruct (fill_loop n [] s) as [r s']. destruct H as [Hi' H].
  destruct (n <=? length (payload s))%nat; destruct H as [-> Hp]; [auto|].
  destruct (decide _); auto.
Qed.

(** A fill that succeeds consumed exactly its bytes, whatever the stream does later. *)
Lemma fill_loop_filled need got s d s' :
  fill_loop need got s = (Filled d, s') ->
  exists k, d = got ++ k /\ length k = need /\ payload s = k ++ payload s'.
Proof.
  revert need got. induction s as [|e s IH]; intros [|need] got; cbn [fill_loop].
  - intros [= <- <-]. exists []. rewrite app_nil_r. auto.
  - destruct (decide _); discriminate.
  - intros [= <- <-]. exists []. rewrite app_nil_r. auto.
  - destruct e as [p| |]; [|apply IH|discriminate].
    destruct (Nat.leb_spec (length p) (S need)).
    + intros (k & -> & Hk & E)%IH. exists (p ++ k). rewrite length_app, app_assoc.
      split; [reflexivity|]. split; [lia|]. simpl. rewrite E, app_assoc. reflexivity.
    + intros [= <- <-]. exists (take (S need) p). split; [reflexivity|].
      split; [rewrite length_take; lia|]. cbn [payload]. rewrite app_assoc, take_drop. reflexivity.
Qed.

Lemma read_exact_some n s d s' :
  read_exact n s = (Some d, s') -> length d = n /\ payload s = d ++ payload s'.
Proof.
  unfold read_exact. destruct (fill_loop n [] s) as [[k| |] r] eqn:E; intros [= <- <-].
  apply fill_loop_filled in E as (k' & -> & ? & ?). auto.
Qed.

(** A stream that only delivers data. *)
Definition steady (s : stream) : bool :=
  forallb (fun e => match e with Data _ => true | _ => false end) s.

Lemma steady_intact s : steady s = true -> intact s = true.
Proof.
  unfold steady, intact. rewrite !forallb_forall. intros H e He. specialize (H e He).
  destruct e; congruence.
Qed.

(** ** Writing

    A [sink] is the peer's end of the socket: the bytes it has been sent by completed
    [write_all] calls and the number of further calls that will succeed.  An operation
    writes and reports success; [;!] is the [?]-sequencing of [io::Result<()>]. *)

Record sink : Type := { sent : bytes; room : nat }.
Definition sink_op : Type := sink -> sink * bool.

Definition write_all (b : bytes) : sink_op := fun k =>
  match room k with
  | O => (k, false)
  | S r => ({| sent := sent k ++ b; room := r |}, true)
  end.
Definition op_ok : sink_op := fun k => (k, true).
Definition op_fail : sink_op := fun k => (k, false).
Definition op_seq (a b : sink_op) : sink_op := fun k =>
  match a k with (k', true) => b k' | (k', false) => (k', false) end.
Notation "a ;! b" := (op_seq a b) (at level 90, right associativity) : oxo_scope.

(** [writes_to op l ok]: the operation hands the buffers [l] to [write_all] one by one,
    stops at the first refusal, and then succeeds iff [ok]. *)
Definition writes_to (op : sink_op) (l : list bytes) (ok : bool) : Prop :=
  forall k, op k = ({| sent := sent k ++ concat (take (room k) l); room := room k - length l |},
                    (length l <=? room k)%nat && ok).

Lemma writes_to_all b : writes_to (write_all b) [b] true.
Proof.
  intros [t [|r]]; unfold write_all; cbn [room sent]; simpl.
  - rewrite app_nil_r. reflexivity.
  - rewrite take_nil. simpl. rewrite app_nil_r, Nat.sub_0_r. reflexivity.
Qed.
Lemma writes_to_ok : writes_to op_ok [] true.
Proof. intros [t r]. unfold op_ok. rewrite take_nil. simpl. rewrite app_nil_r, Nat.sub_0_r. reflexivity. Qed.
Lemma writes_to_fail : writes_to op_fail [] false.
Proof. intros [t r]. unfold op_fail. rewrite take_nil. simpl. rewrite app_nil_r, Nat.sub_0_r. reflexivity. Qed.

Lemma writes_to_seq a b l1 l2 ok :
  writes_to a l1 true -> writes_to b l2 ok -> writes_to (a ;! b) (l1 ++ l2) ok.
Proof.
  intros Ha Hb k. unfold op_seq. rewrite Ha, andb_true_r, length_app, take_app, concat_app.
  destruct (Nat.leb_spec (length l1) (room k)) as [Hle | Hgt].
  - rewrite Hb. cbn [sent room]. rewrite app_assoc. f_equal; [f_equal; lia|].
    destruct (Nat.leb_spec (length l2) (room k - length l1)),
             (Nat.leb_spec (length l1 + length l2) (room k)); lia || reflexivity.
  - replace (room k - length l1)%nat with 0%nat by lia. rewrite take_0. simpl. rewrite app_nil_r.
    destruct (Nat.leb_spec (length l1 + length l2) (room k)); [lia|].
    replace (room k - (length l1 + length l2))%nat with 0%nat by lia. reflexivity.
Qed.

(** With room for everything the whole text is sent. *)
Lemma writes_to_enough op l ok k :
  writes_to op l ok -> (length l <= room k)%nat ->
  op k = ({| sent := sent k ++ concat l; room := room k - length l |}, ok).
Proof.
  intros H L. rewrite H, take_ge by lia. destruct (Nat.leb_spec (length l) (room k)); [reflexivity | lia].
Qed.
