(* ===== verification/WorkerParser.v ===== *)
(** * WorkerParser: the worker's HTTP/1.1 request parser

    Model of [crates/oxo-worker/src/native/parser.rs]: [read_head] byte by byte with
    strict CRLF and a size cap, [parse_head], and [parse_request] with the reserved
    [x-oxo-*] metadata and the header drop table.  A [HashMap] is iterated in an
    unspecified order in Rust; the iteration order is the parameter [order]. *)

From S2P Require Import Prelude Text HeaderPolicy Stream.

Definition MAX_HEADER_BYTES : Z := 64 * 1024.
Definition MAX_HEADERS : Z := 100.

Record ParseError : Type := { pe_status : Z; pe_message : bytes }.
#[global] Instance ParseError_eq_dec : EqDecision ParseError.
Proof. solve_decision. Defined.

Definition pe_bad (m : string) : ParseError := {| pe_status := 400; pe_message := bs m |}.
Definition pe_large (m : string) : ParseError := {| pe_status := 413; pe_message := bs m |}.
Definition pe_headers (m : string) : ParseError := {| pe_status := 431; pe_message := bs m |}.

Record WorkerRequest : Type := {
  w_method : bytes;
  w_path : bytes;
  w_query : bytes;
  w_server_name : bytes;
  w_server_port : Z;
  w_url_scheme : bytes;
  w_remote_addr : bytes;
  w_headers : list (bytes * bytes);
  w_body : bytes;
}.

Record WorkerResponse : Type := {
  resp_status : Z;
  resp_headers : list (bytes * bytes);
  resp_body : bytes;
}.
Definition text_headers : list (bytes * bytes) :=
  [(bs "content-type", bs "text/plain; charset=utf-8")].
(** [WorkerResponse::text] *)
Definition response_text (status : Z) (body : bytes) : WorkerResponse :=
  {| resp_status := status; resp_headers := text_headers; resp_body := body |}.

Record WorkerResponseHead : Type := {
  head_status : Z;
  head_headers : list (bytes * bytes);
}.
(** [WorkerResponseHead::text] *)
Definition head_text (status : Z) : WorkerResponseHead :=
  {| head_status := status; head_headers := text_headers |}.

Inductive WorkerEvent : Type :=
| EvStart (h : WorkerResponseHead)
| EvChunk (c : bytes)
| EvEnd.

(** ** Reading the head *)

Definition crlf : bytes := [zb 13; zb 10].

Inductive head_step : Type :=
| HDone (r : result ParseError bytes) (rest : bytes)
| HMore (head : bytes) (prev : Z).

(** The [read_head] loop over the bytes of one piece of data. *)
Fixpoint head_bytes (d head : bytes) (prev : Z) : head_step :=
  match d with
  | [] => HMore head prev
  | b :: d' =>
      if (bz b =? 10) && negb (prev =? 13) then HDone (Err (pe_bad "bare LF in request head")) d'
      else
        let head' := head ++ [b] in
        if zlen head' >? MAX_HEADER_BYTES then HDone (Err (pe_headers "headers too large")) d'
        else if ends_with (crlf ++ crlf) head' then HDone (Ok head') d'
        else head_bytes d' head' (bz b)
  end.

(** [read_head]: one-byte reads; an interrupted read is an error here. *)
Fixpoint read_head (s : stream) (head : bytes) (prev : Z) : result ParseError bytes * stream :=
  match s with
  | [] => (Err (pe_bad "unterminated headers"), [])
  | (Interrupted | Failed) :: s' => (Err (pe_bad "read error"), s')
  | Data d :: s' =>
      match head_bytes d head prev with
      | HDone r rest => (r, Data rest :: s')
      | HMore head' prev' => read_head s' head' prev'
      end
  end.

(** ** Parsing the head *)

Definition token_punct : bytes := bs "!#$%&'*+-.^_`|~".
Definition valid_token (s : bytes) : bool :=
  negb (bool_decide (s = []))
  && forallb (fun b => is_ascii_alphanumeric b || contains_byte b token_punct) s.

Definition forbidden_names : list string :=
  ["transfer-encoding"; "expect"; "upgrade"; "trailer"; "te"; "keep-alive"; "proxy-connection";
   "proxy-authenticate"; "proxy-authorization"]%string.

Abbreviation hmap := (list (bytes * bytes)).
Definition hget (k : bytes) (m : hmap) : option bytes :=
  snd <$> List.find (fun e => bool_decide (fst e = k)) m.

Definition colon : byte := zb 58.
Definition comma : byte := zb 44.
Definition space : byte := zb 32.

(** One header line. *)
Definition parse_header_line (line : bytes) (m : hmap) : result ParseError hmap :=
  match line with
  | b :: _ =>
      if is_sp_or_tab b then Err (pe_bad "obsolete line folding")
      else match split_once colon line with
      | None => Err (pe_bad "malformed header")
      | Some (name, raw_value) =>
          if bool_decide (name = []) || negb (eq_bytes (trim_end name) name) || negb (valid_token name)
          then Err (pe_bad "malformed header name")
          else
            let name := to_ascii_lowercase name in
            if bool_decide (is_Some (hget name m)) then Err (pe_bad "duplicate header")
            else
              let value := trim_by is_sp_or_tab raw_value in
              if existsb is_ctl value then Err (pe_bad "malformed header value")
              else if one_of name forbidden_names
              then Err {| pe_status := 400; pe_message := name ++ bs " not allowed" |}
              else if eq_bytes name (bs "connection")
                      && existsb (fun t => negb (eq_ignore_case (trim t) (bs "close")))
                           (split_byte comma value)
              then Err (pe_bad "connection tokens are not allowed")
              else Ok (m ++ [(name, value)])
      end
  | [] => Ok m
  end.

(** The [for line in lines] loop: it stops at the first empty line. *)
Fixpoint parse_lines (lines : list bytes) (count : Z) (m : hmap) : result ParseError hmap :=
  match lines with
  | [] => Ok m
  | [] :: _ => Ok m
  | line :: lines' =>
      let count := count + 1 in
      if count >? MAX_HEADERS then Err (pe_headers "too many headers")
      else let? m' := parse_header_line line m in parse_lines lines' count m'
  end.

Definition parse_head (head : bytes) : result ParseError (bytes * bytes * bytes * hmap) :=
  if negb (utf8 head) then Err (pe_bad "non-utf8 request head")
  else
    match split_crlf head with
    | [] => Err (pe_bad "missing request line")
    | request_line :: lines =>
        match split_byte space request_line with
        | [m; t; v] =>
            if bool_decide (m = []) || bool_decide (t = []) || bool_decide (v = [])
            then Err (pe_bad "malformed request line")
            else if negb (valid_token m) then Err (pe_bad "malformed method")
            else let? headers := parse_lines lines 0 [] in Ok (m, t, v, headers)
        | _ => Err (pe_bad "malformed request line")
        end
    end.

Definition parse_content_length (value : bytes) : result ParseError Z :=
  if bool_decide (value = []) || negb (forallb is_ascii_digit value)
  then Err (pe_bad "bad content-length")
  else ok_or (parse_uint u64_max value) (pe_bad "bad content-length").

Definition question : byte := zb 63.
Definition split_target (target : bytes) : bytes * bytes :=
  match split_once question target with Some (p, q) => (p, q) | None => (target, []) end.
Definition parse_host_name (host : bytes) : bytes :=
  match rsplit_once colon host with Some (n, _) => n | None => host end.
Definition parse_host_port (host : bytes) : option Z :=
  match rsplit_once colon host with Some (_, p) => parse_uint u16_max p | None => None end.

(** ** The metadata and drop table *)

Record hop_fields : Type := {
  f_server_name : bytes;
  f_server_port : Z;
  f_url_scheme : bytes;
  f_remote_addr : bytes;
  f_app_headers : list (bytes * bytes);
}.

(** One turn of [for (name, value) in headers]. *)
Definition classify (f : hop_fields) (h : bytes * bytes) : hop_fields :=
  let '(name, value) := h in
  let set sn sp us ra ah := {| f_server_name := sn; f_server_port := sp; f_url_scheme := us;
                               f_remote_addr := ra; f_app_headers := ah |} in
  let sn := f_server_name f in let sp := f_server_port f in let us := f_url_scheme f in
  let ra := f_remote_addr f in let ah := f_app_headers f in
  if eq_bytes name (bs "x-oxo-remote-addr") then set sn sp us value ah
  else if eq_bytes name (bs "x-oxo-url-scheme")
  then if eq_bytes value (bs "http") || eq_bytes value (bs "https") then set sn sp value ra ah else f
  else if eq_bytes name (bs "x-oxo-server-name") then set value sp us ra ah
  else if eq_bytes name (bs "x-oxo-server-port")
  then match parse_uint u16_max value with Some port => set sn port us ra ah | None => f end
  else if eq_bytes name (bs "host") then set sn sp us ra (ah ++ [(bs "host", value)])
  else if eq_bytes name (bs "connection") then f
  else if is_client_forwarding_header name then f
  else if is_reserved name then f
  else match normalize_header_name name with
       | Some n => set sn sp us ra (ah ++ [(n, value)])
       | None => f
       end.

Definition slash : byte := zb 47.

(** The checks between the head and the body: version, target form, Host, length. *)
Definition admit_head (max_body : Z) (h : bytes * bytes * bytes * hmap)
    : result ParseError (bytes * Z) :=
  let '(m, target, version, headers) := h in
  if negb (eq_bytes version (bs "HTTP/1.1")) then Err (pe_bad "only HTTP/1.1 is supported")
  else if negb (starts_with [slash] target) || starts_with [slash; slash] target
          || contains_sub (bs "://") target
  then Err (pe_bad "only origin-form targets are supported")
  else
    let? host := ok_or (hget (bs "host") headers) (pe_bad "host header is required") in
    let? content_length :=
      match hget (bs "content-length") headers with
      | Some v => let? n := parse_content_length v in Ok (Some n)
      | None => Ok None
      end in
    if match hget (bs "content-type") headers with
       | Some v => starts_with (bs "application/grpc") (to_ascii_lowercase v)
       | None => false
       end
    then Err (pe_bad "gRPC is not supported by the Rack worker")
    else
      let len := unwrap_or 0 content_length in
      if len >? max_body then Err (pe_large "payload too large") else Ok (host, len).

Section Parse.
Variable order : hmap -> hmap.

(** The worker request built from a parsed head and its body. *)
Definition finish_request (h : bytes * bytes * bytes * hmap) (host body : bytes) : WorkerRequest :=
  let '(m, target, _, headers) := h in
  let '(path, query) := split_target target in
  let f := fold_left classify (order headers)
    {| f_server_name := parse_host_name host;
       f_server_port := unwrap_or 80 (parse_host_port host);
       f_url_scheme := bs "http"; f_remote_addr := bs "127.0.0.1"; f_app_headers := [] |} in
  {| w_method := m; w_path := path; w_query := query; w_server_name := f_server_name f;
     w_server_port := f_server_port f; w_url_scheme := f_url_scheme f;
     w_remote_addr := f_remote_addr f; w_headers := f_app_headers f; w_body := body |}.

Definition parse_request (s : stream) (max_body : Z) : result ParseError WorkerRequest * stream :=
  match read_head s [] 0 with
  | (Err e, s1) => (Err e, s1)
  | (Ok head, s1) =>
      match (let? h := parse_head head in let? a := admit_head max_body h in Ok (h, a)) with
      | Err e => (Err e, s1)
      | Ok (h, (host, len)) =>
          if len >? 0 then
            match read_exact (Z.to_nat len) s1 with
            | (Some body, s2) => (Ok (finish_request h host body), s2)
            | (None, s2) => (Err (pe_bad "short body"), s2)
            end
          else (Ok (finish_request h host []), s1)
      end
  end.
End Parse.

(** ** The head on the wire *)

Lemma head_bytes_app d1 d2 head prev :
  head_bytes (d1 ++ d2) head prev =
  match head_bytes d1 head prev with
  | HDone r rest => HDone r (rest ++ d2)
  | HMore h p => head_bytes d2 h p
  end.
Proof.
  revert head prev. induction d1 as [|b d1 IH]; intros head prev; [reflexivity|].
  cbn [app head_bytes]. repeat cases_if; try reflexivity. apply IH.
Qed.

(** On a stream that only delivers data the head depends on the bytes alone. *)
Lemma read_head_steady s head prev :
  steady s = true ->
  match head_bytes (payload s) head prev with
  | HDone r rest => exists s', read_head s head prev = (r, s') /\ payload s' = rest /\ steady s' = true
  | HMore _ _ => read_head s head prev = (Err (pe_bad "unterminated headers"), [])
  end.
Proof.
  revert head prev. induction s as [|e s IH]; intros head prev Hs; [reflexivity|].
  destruct e as [d| |]; try discriminate. cbn [payload read_head]. rewrite head_bytes_app.
  destruct (head_bytes d head prev) as [r rest | h p]; [|apply IH, Hs]. eauto.
Qed.

Lemma head_bytes_done d head prev h rest :
  head_bytes d head prev = HDone (Ok h) rest ->
  exists used, d = used ++ rest /\ h = head ++ used /\ zlen h <= MAX_HEADER_BYTES.
Proof.
  revert head prev. induction d as [|b d IH]; intros head prev; cbn [head_bytes]; [discriminate|].
  destruct (_ && _); [discriminate|]. destruct (zlen (head ++ [b]) >? MAX_HEADER_BYTES) eqn:E; [discriminate|].
  destruct (ends_with _ _).
  - intros [= <- <-]. exists [b]. split; [reflexivity|]. split; [reflexivity|]. lia.
  - intros (used & -> & -> & ?)%IH. exists (b :: used). rewrite <- app_assoc in *. auto.
Qed.

Lemma head_bytes_more d head prev h p :
  head_bytes d head prev = HMore h p -> h = head ++ d.
Proof.
  revert head prev. induction d as [|b d IH]; intros head prev; cbn [head_bytes].
  - intros [= <- _]. rewrite app_nil_r. reflexivity.
  - repeat (cases_if; [discriminate|]). intros ->%IH. rewrite <- app_assoc. reflexivity.
Qed.

Lemma read_head_ok s head prev h s' :
  read_head s head prev = (Ok h, s') ->
  exists used, h = head ++ used /\ payload s = used ++ payload s' /\ zlen h <= MAX_HEADER_BYTES.
Proof.
  revert head prev. induction s as [|e s IH]; intros head prev; cbn [read_head]; [discriminate|].
  destruct e as [d| |]; try discriminate.
  destruct (head_bytes d head prev) as [r rest | h1 p] eqn:E.
  - intros [= -> <-]. apply head_bytes_done in E as (used & -> & -> & ?).
    exists used. cbn [payload]. rewrite app_assoc. auto.
  - intros (used & -> & Hp & ?)%IH. apply head_bytes_more in E as ->.
    exists (d ++ used). cbn [payload]. rewrite <- !app_assoc in *. rewrite Hp. auto.
Qed.

(** ** The drop table

    What one header contributes to the application: [app_header] is the specification
    the HTTP path's [classify] and the frame path's conversion both meet. *)

Definition app_header (h : bytes * bytes) : option (bytes * bytes) :=
  if eq_bytes (fst h) (bs "host") then Some (bs "host", snd h)
  else if eq_bytes (fst h) (bs "connection") || is_client_forwarding_header (fst h)
          || is_reserved (fst h) then None
  else (fun n => (n, snd h)) <$> normalize_header_name (fst h).

Lemma app_header_reserved h : is_reserved (fst h) = true -> app_header h = None.
Proof.
  unfold app_header. intros H. rewrite H, !orb_true_r.
  destruct (eq_bytes (fst h) (bs "host")) eqn:E; [|reflexivity].
  apply eq_bytes_true in E. rewrite E in H. discriminate.
Qed.

Lemma classify_app f h :
  f_app_headers (classify f h) = f_app_headers f ++ option_list (app_header h).
Proof.
  destruct h as [n v]. unfold classify.
  destruct (is_reserved n) eqn:R.
  - rewrite app_header_reserved by assumption. cbn [option_list]. rewrite app_nil_r.
    assert (eq_bytes n (bs "host") = false).
    { apply not_true_iff_false. intros ->%eq_bytes_true. discriminate. }
    rewrite H. repeat (cases_if || destruct (parse_uint _ _)); reflexivity.
  - unfold app_header. cbn [fst snd]. rewrite R, orb_false_r.
    assert (N : forall x, is_reserved x = true -> eq_bytes n x = false).
    { intros x Hx. apply not_true_iff_false. intros ->%eq_bytes_true. congruence. }
    rewrite !N by reflexivity. repeat (cases_if; simpl; rewrite ?app_nil_r; try reflexivity).
    destruct (normalize_header_name n); simpl; rewrite ?app_nil_r; reflexivity.
Qed.

Lemma classify_fold_app hs f :
  f_app_headers (fold_left classify hs f) = f_app_headers f ++ omap app_header hs.
Proof.
  revert f. induction hs as [|h hs IH]; intros f; simpl; [rewrite app_nil_r; reflexivity|].
  rewrite IH, classify_app, <- app_assoc. destruct (app_header h); reflexivity.
Qed.

(** A header the application may see. *)
Definition app_visible (h : bytes * bytes) : Prop :=
  existsb is_ascii_upper (fst h) = false /\ contains_byte underscore (fst h) = false /\
  is_client_forwarding_header (fst h) = false /\ is_reserved (fst h) = false /\
  fst h <> bs "connection".

Lemma app_header_visible h k :
  is_lower_name (fst h) -> app_header h = Some k -> app_visible k /\ fst k = fst h /\ snd k = snd h.
Proof.
  unfold app_header, is_lower_name. intros L.
  destruct (eq_bytes (fst h) (bs "host")) eqn:Eh.
  - apply eq_bytes_true in Eh. intros [= <-]. rewrite Eh. repeat split; discriminate.
  - destruct (_ || _ || _) eqn:G; [discriminate|]. apply orb_false_iff in G as [G R].
    apply orb_false_iff in G as [C F].
    destruct (normalize_header_name (fst h)) as [n|] eqn:N; [|discriminate]. intros [= <-].
    pose proof (normalize_some _ _ N) as [U1 U2].
    assert (n = fst h) as ->.
    { unfold normalize_header_name in N. cases_if; congruence. }
    repeat split; try assumption. cbn [fst]. intros E. rewrite E in C. discriminate.
Qed.

(** ** Parsed header lines *)

Definition hmap_ok (m : hmap) : Prop :=
  NoDup (map fst m) /\
  Forall (fun h => is_lower_name (fst h) /\ valid_token (fst h) = true /\
                   existsb is_ctl (snd h) = false /\ one_of (fst h) forbidden_names = false) m.

Lemma hget_none k m : hget k m = None -> k ∉ map fst m.
Proof.
  unfold hget. destruct (List.find _ m) eqn:E; [discriminate|]. intros _ H.
  apply list_elem_of_In, in_map_iff in H as (h & Hh & Hin).
  apply (List.find_none _ _ E) in Hin. apply bool_decide_eq_false in Hin. auto.
Qed.

Lemma hget_some k v m : hget k m = Some v -> In (k, v) m.
Proof.
  unfold hget. destruct (List.find _ m) as [h|] eqn:E; [|discriminate]. intros [= <-].
  apply List.find_some in E as [Hin E]. apply bool_decide_eq_true in E. subst k.
  destruct h; assumption.
Qed.

Lemma valid_token_lower s : valid_token s = true -> valid_token (to_ascii_lowercase s) = true.
Proof.
  unfold valid_token, to_ascii_lowercase. rewrite !andb_true_iff, !forallb_forall.
  intros [Hne Hall]. split; [destruct s; [exact Hne | reflexivity]|].
  intros b (c & <- & Hc)%in_map_iff. specialize (Hall c Hc). unfold lower_byte.
  destruct (is_ascii_upper c) eqn:E; [|exact Hall].
  unfold is_ascii_alphanumeric, is_ascii_alphabetic, is_ascii_upper, is_ascii_lower, in_range in *.
  pose proof (bz_range c). rewrite !bz_zb by lia. lia.
Qed.

Lemma parse_header_line_ok line m m' :
  parse_header_line line m = Ok m' -> hmap_ok m -> hmap_ok m' /\ (length m' <= S (length m))%nat.
Proof.
  unfold parse_header_line. destruct line as [|b line]; [intros [= <-]; auto|].
  destruct (is_sp_or_tab b); [discriminate|].
  destruct (split_once colon (b :: line)) as [[name raw]|]; [|discriminate].
  destruct (_ || _ || _) eqn:G; [discriminate|]. cbn zeta.
  destruct (bool_decide (is_Some _)) eqn:D; [discriminate|].
  destruct (existsb is_ctl _) eqn:C; [discriminate|].
  destruct (one_of _ forbidden_names) eqn:F; [discriminate|].
  destruct (_ && _); [discriminate|]. intros [= <-] [ND All].
  split; [|rewrite length_app; simpl; lia]. split.
  - rewrite map_app, list.NoDup_app. split; [assumption|]. split; [|apply NoDup_singleton].
    intros x Hx Hx'. apply list_elem_of_singleton in Hx'. subst x. revert Hx. apply hget_none.
    apply bool_decide_eq_false in D. destruct (hget _ m); [destruct D; eauto | reflexivity].
  - apply Forall_app. split; [assumption|]. repeat constructor; cbn [fst snd].
    + apply to_ascii_lowercase_idem.
    + apply orb_false_iff in G as [_ G]. apply negb_false_iff in G. apply valid_token_lower, G.
    + assumption.
    + assumption.
Qed.

Lemma parse_lines_ok lines count m m' :
  0 <= count <= MAX_HEADERS -> parse_lines lines count m = Ok m' -> hmap_ok m -> zlen m <= count ->
  hmap_ok m' /\ zlen m' <= MAX_HEADERS.
Proof.
  revert count m. induction lines as [|line lines IH]; intros count m Hc; cbn [parse_lines].
  - intros [= <-]. split; [assumption | lia].
  - destruct line as [|b line]; [intros [= <-]; split; [assumption | lia]|]. cbn zeta.
    destruct (count + 1 >? MAX_HEADERS) eqn:E; [discriminate|]. intros H Hm Hl. inv_result.
    apply parse_header_line_ok in Ha as [? ?]; [|assumption].
    apply (IH (count + 1) a); try assumption; unfold zlen in *; lia.
Qed.

Lemma parse_head_ok head m t v hs :
  parse_head head = Ok (m, t, v, hs) -> hmap_ok hs /\ zlen hs <= MAX_HEADERS /\ valid_token m = true.
Proof.
  unfold parse_head. destruct (negb (utf8 head)); [discriminate|].
  destruct (split_crlf head) as [|l ls]; [discriminate|].
  destruct (split_byte space l) as [|m1 [|t1 [|v1 [|]]]]; try discriminate.
  destruct (_ || _ || _); [discriminate|]. destruct (valid_token m1) eqn:V; [|discriminate].
  cbn [negb]. intros H. inv_result.
  assert (H0 : hmap_ok []) by (split; constructor).
  destruct (parse_lines_ok ls 0 [] hs) as [? ?]; try assumption; try (unfold MAX_HEADERS, zlen; simpl; lia).
  auto.
Qed.

Lemma admit_head_ok max_body m t v hs host len :
  admit_head max_body (m, t, v, hs) = Ok (host, len) ->
  v = bs "HTTP/1.1" /\ starts_with [slash] t = true /\ hget (bs "host") hs = Some host /\
  len <= max_body /\
  match hget (bs "content-length") hs with
  | Some cl => parse_content_length cl = Ok len
  | None => len = 0
  end.
Proof.
  unfold admit_head. intros H. inv_result.
  apply negb_false_iff, eq_bytes_true in Heqb. subst v.
  apply orb_false_iff in Heqb0 as [T _]. apply orb_false_iff in T as [T _]. apply negb_false_iff in T.
  repeat split; try assumption; try lia.
  destruct (hget (bs "content-length") hs); inv_result; [assumption | reflexivity].
Qed.

Lemma parse_content_length_range v n : parse_content_length v = Ok n -> is_u64 n.
Proof.
  unfold parse_content_length. intros H. inv_result.
  apply parse_uint_range in H; unfold is_u64; [exact H | discriminate].
Qed.

(** ** Properties *)

Lemma finish_request_headers order m t v hs host body :
  w_headers (finish_request order (m, t, v, hs) host body) = omap app_header (order hs).
Proof.
  unfold finish_request. destruct (split_target t). cbn [w_headers].
  rewrite classify_fold_app. reflexivity.
Qed.
Lemma finish_request_body order h host body : w_body (finish_request order h host body) = body.
Proof. unfold finish_request. destruct h as [[[m t] v] hs], (split_target t). reflexivity. Qed.

Lemma app_headers_visible hs :
  Forall (fun h => is_lower_name (fst h)) hs -> NoDup (map fst hs) ->
  Forall app_visible (omap app_header hs) /\ NoDup (map fst (omap app_header hs)) /\
  map fst (omap app_header hs) ⊆ map fst hs.
Proof.
  intros HL ND. induction hs as [|h hs IH]; [repeat constructor; set_solver|].
  apply Forall_cons_iff in HL as [Lh HL]. cbn [map] in ND; apply list.NoDup_cons in ND as [Nh ND].
  destruct (IH HL ND) as (V & N & S). cbn [omap list_omap map].
  destruct (app_header h) as [k|] eqn:E; [|set_solver].
  apply app_header_visible in E as (Vk & E & _); [|assumption]. cbn [map]. rewrite E.
  split; [constructor; assumption|]. split; [constructor; [set_solver | assumption] | set_solver].
Qed.

Lemma length_omap {A B} (f : A -> option B) l : (length (omap f l) <= length l)%nat.
Proof. induction l as [|x l IH]; [reflexivity|]. cbn. destruct (f x); cbn; lia. Qed.

Lemma parse_request_ok order s max_body r s' :
  parse_request order s max_body = (Ok r, s') ->
  exists head m t v hs host,
    parse_head head = Ok (m, t, v, hs) /\ admit_head max_body (m, t, v, hs) = Ok (host, zlen (w_body r)) /\
    r = finish_request order (m, t, v, hs) host (w_body r) /\ zlen head <= MAX_HEADER_BYTES /\
    payload s = head ++ w_body r ++ payload s'.
Proof.
  unfold parse_request. destruct (read_head s [] 0) as [[head|e] s1] eqn:R; [|discriminate].
  apply read_head_ok in R as (used & -> & P & L). cbn [app] in *.
  destruct (rbind (parse_head used) _) as [[[[[m t] v] hs] [host len]]|e] eqn:G; [|discriminate].
  intros H. inv_result.
  pose proof (admit_head_ok _ _ _ _ _ _ _ Ha0) as (_ & _ & _ & _ & CL).
  assert (0 <= len).
  { destruct (hget _ hs); [apply parse_content_length_range in CL; unfold is_u64 in CL|]; lia. }
  destruct (len >? 0) eqn:Z0.
  - destruct (read_exact (Z.to_nat len) s1) as [[body|] s2] eqn:E; [|discriminate].
    apply pair_equal_spec in H as [<-%Ok_inj <-]. apply read_exact_some in E as [El Ep].
    rewrite finish_request_body.
    assert (zlen body = len) as -> by (unfold zlen; lia).
    exists used, m, t, v, hs, host. rewrite P, Ep. auto.
  - apply pair_equal_spec in H as [<-%Ok_inj <-]. rewrite finish_request_body. assert (len = 0) as -> by lia.
    exists used, m, t, v, hs, host. auto.
Qed.

(** What the HTTP path hands to the application: when [parse_request] succeeds, it
    consumed exactly one head of at most 64 KiB and the body its Content-Length
    declares (none without one), the body is within the cap, and the application sees at
    most 100 headers, each once, all lower case, none with an underscore, none of the
    forwarding family, none in the reserved [x-oxo-] namespace and no [connection]. *)
Theorem parse_request_sound order s max_body r s' :
  (forall m, order m ≡ₚ m) -> parse_request order s max_body = (Ok r, s') ->
  exists head m t v hs,
    parse_head head = Ok (m, t, v, hs) /\ payload s = head ++ w_body r ++ payload s' /\
    zlen head <= MAX_HEADER_BYTES /\ zlen (w_body r) <= max_body /\
    match hget (bs "content-length") hs with
    | Some cl => parse_content_length cl = Ok (zlen (w_body r))
    | None => w_body r = []
    end /\
    Forall app_visible (w_headers r) /\ NoDup (map fst (w_headers r)) /\
    zlen (w_headers r) <= MAX_HEADERS.
Proof.
  intros Ho H. apply parse_request_ok in H as (head & m & t & v & hs & host & Hh & Ha & Er & L & P).
  exists head, m, t, v, hs. pose proof (admit_head_ok _ _ _ _ _ _ _ Ha) as (_ & _ & _ & Hb & CL).
  apply parse_head_ok in Hh as HH. destruct HH as ([ND All] & Hn & _).
  assert (EH : w_headers r = omap app_header (order hs)) by (rewrite Er; apply finish_request_headers).
  destruct (app_headers_visible (order hs)) as (V & N & _).
  { apply list.Forall_forall. intros x Hx. rewrite (Ho hs) in Hx.
    rewrite list.Forall_forall in All. apply (All x Hx). }
  { rewrite (Ho hs). exact ND. }
  rewrite EH. repeat split; try assumption.
  - destruct (hget _ hs); [assumption|]. destruct (w_body r); [reflexivity | discriminate].
  - etransitivity; [|exact Hn]. unfold zlen. rewrite (Permutation_length (symmetry (Ho hs))).
    apply inj_le, length_omap.
Qed.

Definition sample_head : bytes :=
  bs "POST /a?b=1 HTTP/1.1" ++ crlf ++ bs "Host: x.test:81" ++ crlf ++ bs "X-Forwarded-For: 6.6.6.6" ++ crlf
  ++ bs "X-Oxo-Url-Scheme: https" ++ crlf ++ bs "X_Real_Ip: 6.6.6.6" ++ crlf ++ bs "Accept: */*" ++ crlf
  ++ bs "Content-Length: 3" ++ crlf ++ crlf.
Definition sample_http_request : WorkerRequest :=
  {| w_method := bs "POST"; w_path := bs "/a"; w_query := bs "b=1"; w_server_name := bs "x.test";
     w_server_port := 81; w_url_scheme := bs "https"; w_remote_addr := bs "127.0.0.1";
     w_headers := [(bs "host", bs "x.test:81"); (bs "accept", bs "*/*"); (bs "content-length", bs "3")];
     w_body := bs "abc" |}.

Lemma parse_request_sound_witness :
  Forall app_visible (w_headers sample_http_request).
Proof.
  destruct (parse_request_sound (fun m => m) [Data sample_head; Data (bs "ab"); Interrupted; Data (bs "cd")]
              10 sample_http_request [Data (bs "d")])
    as (h & m & t & v & hs & _ & _ & _ & _ & _ & V & _); [reflexivity | vm_compute; reflexivity | exact V].
Defined.

(** The parser does not depend on how the bytes arrive: two data-only deliveries
    of the same bytes, cut anywhere, give the same request or the same error, and on
    success leave the same bytes unread. *)
Theorem parse_request_arrival order s1 s2 max_body :
  steady s1 = true -> steady s2 = true -> payload s1 = payload s2 ->
  fst (parse_request order s1 max_body) = fst (parse_request order s2 max_body) /\
  (is_ok (fst (parse_request order s1 max_body)) = true ->
   payload (snd (parse_request order s1 max_body)) = payload (snd (parse_request order s2 max_body))).
Proof.
  intros H1 H2 E. unfold parse_request.
  pose proof (read_head_steady s1 [] 0 H1) as R1. pose proof (read_head_steady s2 [] 0 H2) as R2.
  rewrite <- E in R2. destruct (head_bytes (payload s1) [] 0) as [r rest|]; [|rewrite R1, R2; auto].
  destruct R1 as (t1 & -> & P1 & T1), R2 as (t2 & -> & P2 & T2).
  destruct r as [head|e]; [|split; [reflexivity | discriminate]].
  destruct (rbind _ _) as [[h [host len]]|e]; [|split; [reflexivity | discriminate]].
  destruct (len >? 0); [|cbn [fst snd]; split; congruence].
  pose proof (read_exact_intact (Z.to_nat len) t1 (steady_intact _ T1)) as X1.
  pose proof (read_exact_intact (Z.to_nat len) t2 (steady_intact _ T2)) as X2.
  destruct (read_exact (Z.to_nat len) t1) as [o1 u1], (read_exact (Z.to_nat len) t2) as [o2 u2].
  destruct X1 as [_ X1], X2 as [_ X2]. rewrite P1 in X1. rewrite P2 in X2.
  destruct (_ <=? _)%nat; [destruct X1 as [-> X1], X2 as [-> X2]; cbn [fst snd]; split; congruence|].
  subst. split; [reflexivity | discriminate].
Qed.

Lemma parse_request_arrival_witness :
  fst (parse_request (fun m => m) (map (fun b => Data [b]) (sample_head ++ bs "abc")) 10)
  = Ok sample_http_request.
Proof.
  rewrite (proj1 (parse_request_arrival (fun m => m) (map (fun b => Data [b]) (sample_head ++ bs "abc")) [Data (sample_head ++ bs "abc")] 10
                    ltac:(vm_compute; reflexivity) ltac:(reflexivity) ltac:(vm_compute; reflexivity))).
  vm_compute. reflexivity.
Defined.
