(* ===== verification/JobQueue.v ===== *)
(** * JobQueue: the bounded queue between connection threads and Ruby threads

    Model of [JobQueue] in [crates/oxo-worker/src/native/serve.rs].  Every method body
    runs under the queue's mutex, so it is one atomic transition of [QueueState]; the
    condition variable is modelled by which consumers wait on it.  [step] interleaves
    any number of producers, consumers and closers; a consumer may also wake up
    spuriously, as [Condvar::wait] allows. *)

From S2P Require Import Prelude.

Definition QUEUE_CAPACITY : Z := 1024.

Section Queue.
Context {Job : Type}.

Record QueueState : Type := { closed : bool; jobs : list Job }.

(** [JobQueue::new], [close], [is_closed] and [push]. *)
Definition queue_new : QueueState := {| closed := false; jobs := [] |}.
Definition close (q : QueueState) : QueueState := {| closed := true; jobs := jobs q |}.
Definition is_closed (q : QueueState) : bool := closed q.
Definition push (capacity : Z) (job : Job) (q : QueueState) : bool * QueueState :=
  if closed q || (zlen (jobs q) >=? capacity) then (false, q)
  else (true, {| closed := closed q; jobs := jobs q ++ [job] |}).

(** One turn of the loop of [pop_blocking]: it returns a job, returns [None], or waits
    on the condition variable. *)
Inductive pop_turn : Type :=
| Popped (j : Job) (q : QueueState)
| Stopped
| Waits.
Definition pop_blocking_turn (q : QueueState) : pop_turn :=
  match jobs q with
  | j :: js => Popped j {| closed := closed q; jobs := js |}
  | [] => if closed q then Stopped else Waits
  end.

(** A consumer is about to take a turn, waits to be notified, runs a job, or has left
    its loop. *)
Inductive consumer : Type :=
| Ready
| Waiting
| Busy (j : Job)
| Exited.

Record system : Type := {
  queue : QueueState;
  consumers : list consumer;
  accepted : list Job;  (** jobs whose [push] returned true, in order *)
  taken : list Job;     (** jobs handed to a consumer, in order *)
}.

Definition is_waiting (c : consumer) : bool := match c with Waiting => true | _ => false end.
Definition is_ready (c : consumer) : bool := match c with Ready => true | _ => false end.
Definition waiting (s : system) : nat := length (List.filter is_waiting (consumers s)).
Definition ready (s : system) : nat := length (List.filter is_ready (consumers s)).
Definition wake (c : consumer) : consumer := if is_waiting c then Ready else c.

(** [notify_one] wakes some waiting consumer, if there is one. *)
Inductive notified_one : list consumer -> list consumer -> Prop :=
| notify_some cs i : cs !! i = Some Waiting -> notified_one cs (<[i := Ready]> cs)
| notify_none cs : Forall (fun c => is_waiting c = false) cs -> notified_one cs cs.

Variable capacity : Z.

Inductive step : system -> system -> Prop :=
| step_push s j q' cs' :
    push capacity j (queue s) = (true, q') -> notified_one (consumers s) cs' ->
    step s {| queue := q'; consumers := cs'; accepted := accepted s ++ [j]; taken := taken s |}
| step_refuse s j :
    push capacity j (queue s) = (false, queue s) -> step s s
| step_pop s i j q' :
    consumers s !! i = Some Ready -> pop_blocking_turn (queue s) = Popped j q' ->
    step s {| queue := q'; consumers := <[i := Busy j]> (consumers s);
              accepted := accepted s; taken := taken s ++ [j] |}
| step_wait s i :
    consumers s !! i = Some Ready -> pop_blocking_turn (queue s) = Waits ->
    step s {| queue := queue s; consumers := <[i := Waiting]> (consumers s);
              accepted := accepted s; taken := taken s |}
| step_stop s i :
    consumers s !! i = Some Ready -> pop_blocking_turn (queue s) = Stopped ->
    step s {| queue := queue s; consumers := <[i := Exited]> (consumers s);
              accepted := accepted s; taken := taken s |}
| step_finish s i j :
    consumers s !! i = Some (Busy j) ->
    step s {| queue := queue s; consumers := <[i := Ready]> (consumers s);
              accepted := accepted s; taken := taken s |}
| step_spurious s i :
    consumers s !! i = Some Waiting ->
    step s {| queue := queue s; consumers := <[i := Ready]> (consumers s);
              accepted := accepted s; taken := taken s |}
| step_close s :
    step s {| queue := close (queue s); consumers := map wake (consumers s);
              accepted := accepted s; taken := taken s |}.

Definition initial (threads : nat) : system :=
  {| queue := queue_new; consumers := replicate threads Ready; accepted := []; taken := [] |}.
Definition reachable (threads : nat) (s : system) : Prop := rtc step (initial threads) s.

(** ** Counting consumers *)

Definition b2n (b : bool) : nat := if b then 1 else 0.

Lemma count_insert (p : consumer -> bool) cs i c c' :
  cs !! i = Some c ->
  (length (List.filter p (<[i := c']> cs)) + b2n (p c) = length (List.filter p cs) + b2n (p c'))%nat.
Proof.
  revert i. induction cs as [|d cs IH]; intros [|i]; simpl; try discriminate.
  - intros [= ->]. destruct (p c), (p c'); simpl; lia.
  - intros H. specialize (IH i H). destruct (p d); simpl; lia.
Qed.

Lemma count_wake cs :
  length (List.filter is_waiting (map wake cs)) = 0%nat.
Proof. induction cs as [|c cs IH]; [reflexivity|]. destruct c; simpl; assumption. Qed.

Lemma count_none cs : Forall (fun c => is_waiting c = false) cs -> length (List.filter is_waiting cs) = 0%nat.
Proof. induction 1 as [|c cs H _ IH]; [reflexivity|]. simpl. rewrite H. assumption. Qed.

(** ** The invariant *)

Record Inv (s : system) : Prop := {
  inv_cap : zlen (jobs (queue s)) <= Z.max 0 capacity;
  inv_fifo : accepted s = taken s ++ jobs (queue s);
  inv_wakeup : (0 < waiting s)%nat -> (length (jobs (queue s)) <= ready s)%nat;
  inv_closed : closed (queue s) = true -> waiting s = 0%nat;
  inv_exit : In Exited (consumers s) -> closed (queue s) = true /\ jobs (queue s) = [];
}.

Lemma push_true j q q' :
  push capacity j q = (true, q') ->
  closed q = false /\ zlen (jobs q) < capacity /\ q' = {| closed := false; jobs := jobs q ++ [j] |}.
Proof.
  unfold push. destruct (closed q); simpl; [discriminate|].
  destruct (_ >=? _) eqn:E; intros [= <-]. repeat split. lia.
Qed.

Lemma pop_turn_inv q :
  match pop_blocking_turn q with
  | Popped j q' => jobs q = j :: jobs q' /\ closed q' = closed q
  | Stopped => closed q = true /\ jobs q = []
  | Waits => closed q = false /\ jobs q = []
  end.
Proof. unfold pop_blocking_turn. destruct (jobs q), (closed q) eqn:E; simpl; auto. Qed.

Lemma in_insert {A} (l : list A) i (x y : A) : In x (<[i := y]> l) -> x = y \/ In x l.
Proof.
  intros H%list_elem_of_In. apply list_elem_of_lookup in H as [k Hk].
  apply list_lookup_insert_Some in Hk as [(_ & -> & _)|(_ & Hk)]; [auto|].
  right. apply list_elem_of_In, list_elem_of_lookup. eauto.
Qed.

(** Each transition preserves the invariant.  [inv_cases] opens the record and
    normalises the projections of the new state. *)
Ltac inv_cases :=
  constructor; unfold waiting, ready in *; cbn [queue consumers accepted taken jobs closed] in *.
Ltac no_exit Hex :=
  let Hin := fresh in intros Hin; apply in_insert in Hin as [|Hin]; [discriminate|];
  apply Hex in Hin.

Lemma notified_counts cs cs' :
  notified_one cs cs' ->
  (length (List.filter is_waiting cs') = 0 \/
   length (List.filter is_waiting cs') + 1 = length (List.filter is_waiting cs) /\
   length (List.filter is_ready cs') = length (List.filter is_ready cs) + 1)%nat /\
  (In Exited cs' -> In Exited cs).
Proof.
  intros [? i L | ? F].
  - pose proof (count_insert is_waiting _ i _ Ready L). pose proof (count_insert is_ready _ i _ Ready L).
    simpl in *. split; [right; lia|]. intros [|]%in_insert; [discriminate | assumption].
  - split; [left; apply count_none, F | auto].
Qed.

Lemma push_inv s j q' cs' :
  Inv s -> push capacity j (queue s) = (true, q') -> notified_one (consumers s) cs' ->
  Inv {| queue := q'; consumers := cs'; accepted := accepted s ++ [j]; taken := taken s |}.
Proof.
  intros [Hcap Hfifo Hwake Hcl Hex] (C & Z & ->)%push_true (W & E)%notified_counts. inv_cases.
  - rewrite zlen_app, zlen_cons, zlen_nil. lia.
  - rewrite Hfifo, <- app_assoc. reflexivity.
  - rewrite length_app. simpl. lia.
  - discriminate.
  - intros Hin. apply E, Hex in Hin as [? _]. congruence.
Qed.

Lemma pop_inv s i j q' :
  Inv s -> consumers s !! i = Some Ready -> pop_blocking_turn (queue s) = Popped j q' ->
  Inv {| queue := q'; consumers := <[i := Busy j]> (consumers s);
         accepted := accepted s; taken := taken s ++ [j] |}.
Proof.
  intros [Hcap Hfifo Hwake Hcl Hex] L P. pose proof (pop_turn_inv (queue s)) as T.
  rewrite P in T. destruct T as [T C].
  pose proof (count_insert is_waiting _ i _ (Busy j) L). pose proof (count_insert is_ready _ i _ (Busy j) L).
  rewrite T in *. rewrite zlen_cons in Hcap. simpl in *. inv_cases.
  - lia.
  - rewrite Hfifo, <- app_assoc. reflexivity.
  - lia.
  - intros ?. rewrite C in *. specialize (Hcl ltac:(assumption)). lia.
  - no_exit Hex. naive_solver.
Qed.

(** A consumer that finds the queue empty waits, or leaves when it is closed. *)
Lemma idle_inv s i c' :
  Inv s -> consumers s !! i = Some Ready -> jobs (queue s) = [] ->
  c' = (if closed (queue s) then Exited else Waiting) ->
  Inv {| queue := queue s; consumers := <[i := c']> (consumers s);
         accepted := accepted s; taken := taken s |}.
Proof.
  intros [Hcap Hfifo Hwake Hcl Hex] L T E. pose proof (count_insert is_waiting _ i _ c' L).
  rewrite T in *. inv_cases; rewrite ?T in *; auto.
  - simpl. lia.
  - intros C. specialize (Hcl C). rewrite C in E. subst c'. simpl in *. lia.
  - intros Hin. apply in_insert in Hin as [<-|Hin].
    + destruct (closed (queue s)); [auto | discriminate].
    + auto.
Qed.

(** A consumer that comes back to its loop. *)
Lemma return_inv s i c :
  Inv s -> consumers s !! i = Some c -> c <> Ready ->
  Inv {| queue := queue s; consumers := <[i := Ready]> (consumers s);
         accepted := accepted s; taken := taken s |}.
Proof.
  intros [Hcap Hfifo Hwake Hcl Hex] L N.
  pose proof (count_insert is_waiting _ i _ Ready L). pose proof (count_insert is_ready _ i _ Ready L).
  simpl in *. inv_cases; auto; try (destruct c; simpl in *; congruence || lia).
  no_exit Hex. assumption.
Qed.

Lemma close_inv s :
  Inv s -> Inv {| queue := close (queue s); consumers := map wake (consumers s);
                  accepted := accepted s; taken := taken s |}.
Proof.
  intros [Hcap Hfifo Hwake Hcl Hex]. unfold close. inv_cases; auto.
  - rewrite count_wake. lia.
  - intros _. apply count_wake.
  - intros Hin. apply in_map_iff in Hin as (c & E & Hin). destruct c; try discriminate. apply Hex in Hin.
    intuition.
Qed.

Lemma queue_step_inv s s' : step s s' -> Inv s -> Inv s'.
Proof.
  intros St I.
  destruct St as [s j q' cs' P N | s j P | s i j q' L P | s i L P | s i L P | s i j L | s i L | s].
  - eapply push_inv; eassumption.
  - exact I.
  - eapply pop_inv; eassumption.
  - pose proof (pop_turn_inv (queue s)) as T. rewrite P in T. destruct T as [C T].
    apply idle_inv; try assumption. rewrite C. reflexivity.
  - pose proof (pop_turn_inv (queue s)) as T. rewrite P in T. destruct T as [C T].
    apply idle_inv; try assumption. rewrite C. reflexivity.
  - eapply return_inv; [assumption | eassumption | discriminate].
  - eapply return_inv; [assumption | eassumption | discriminate].
  - apply close_inv, I.
Qed.

Lemma queue_initial_inv threads : Inv (initial threads).
Proof.
  assert (W : waiting (initial threads) = 0%nat).
  { unfold waiting, initial. cbn [consumers]. apply count_none. apply Forall_replicate. reflexivity. }
  constructor; rewrite ?W; cbn [initial queue jobs queue_new closed accepted taken]; try reflexivity.
  - change (zlen (@nil Job)) with 0. lia.
  - lia.
  - intros Hin%list_elem_of_In. apply elem_of_replicate in Hin as [? _]. discriminate.
Qed.

Lemma queue_reachable_inv threads s : reachable threads s -> Inv s.
Proof.
  unfold reachable. intros R. remember (initial threads) as s0 eqn:E.
  assert (I0 : Inv s0) by (subst; apply queue_initial_inv). clear E.
  induction R; eauto using queue_step_inv.
Qed.
End Queue.

(** ** Properties *)

(** Queue safety, for any number of producers, Ruby threads and closers, in any
    interleaving: the queue never holds more jobs than its capacity, and the jobs handed
    to Ruby threads are, in order and each exactly once, a prefix of the accepted ones;
    what is missing is still queued.  A Ruby thread leaves its loop only after the queue
    was closed and drained. *)
Theorem queue_is_bounded_fifo {Job : Type} (capacity : Z) (threads : nat) (s : @system Job) :
  reachable capacity threads s ->
  zlen (jobs (queue s)) <= Z.max 0 capacity /\ accepted s = taken s ++ jobs (queue s) /\
  (In Exited (consumers s) -> closed (queue s) = true /\ taken s = accepted s).
Proof.
  intros [Hcap Hfifo _ _ Hex]%queue_reachable_inv. split; [assumption|]. split; [assumption|].
  intros [C E]%Hex. rewrite Hfifo, E, app_nil_r. auto.
Qed.

Definition demo : @system nat :=
  {| queue := {| closed := false; jobs := [2%nat] |}; consumers := [Busy 1%nat];
     accepted := [1%nat; 2%nat]; taken := [1%nat] |}.

Lemma demo_reachable : reachable 2 1 demo.
Proof.
  unfold reachable, demo.
  eapply rtc_l.
  { apply (step_push 2 (initial 1) 1%nat); [reflexivity|]. apply notify_none. repeat constructor. }
  eapply rtc_l. { eapply (step_pop _ _ 0); reflexivity. }
  eapply rtc_l.
  { eapply (step_push _ _ 2%nat); [reflexivity|]. apply notify_none. repeat constructor. }
  apply rtc_refl.
Qed.

Lemma queue_is_bounded_fifo_witness : accepted demo = taken demo ++ jobs (queue demo).
Proof. apply (queue_is_bounded_fifo 2 1 demo demo_reachable). Defined.

(** C32. No lost wake-up: in every reachable state, while some Ruby thread sleeps on the
    condition variable there are at least as many awake threads about to look at the
    queue as there are queued jobs, and once the queue is closed no thread sleeps at
    all; so a queued job is never left with every idle thread asleep, and a close
    reaches every idle thread. *)
Theorem no_lost_wakeup {Job : Type} (capacity : Z) (threads : nat) (s : @system Job) (i : nat) :
  reachable capacity threads s -> consumers s !! i = Some Waiting ->
  closed (queue s) = false /\ (length (jobs (queue s)) <= ready s)%nat.
Proof.
  intros [_ _ Hwake Hcl _]%queue_reachable_inv L.
  assert (0 < waiting s)%nat.
  { pose proof (count_insert is_waiting _ i _ Ready L). unfold waiting. simpl in *. lia. }
  split; [|auto]. destruct (closed (queue s)); [|reflexivity]. specialize (Hcl eq_refl). lia.
Qed.

Lemma no_lost_wakeup_witness :
  (length (jobs (queue (initial (Job := nat) 2))) <= 1)%nat.
Proof.
  apply (no_lost_wakeup 4 2 {| queue := queue_new; consumers := [Waiting; Ready]; accepted := []; taken := [] |} 0).
  - apply rtc_once. apply (step_wait 4 (initial 2) 0); reflexivity.
  - reflexivity.
Defined.
