(* ===== verification/WorkerRuby.v ===== *)
(** * WorkerRuby: jobs, dispatch and the Ruby worker loop

    Model of [Job], [JobReply] and the two [dispatch_*_request] functions of
    [crates/oxo-worker/src/native/serve.rs], and of [ruby_worker_loop], [call_ruby],
    [call_ruby_streaming] and [send_stream_error] of [native/ruby.rs].  The Ruby VM is
    not part of the sources: [handle] and [handle_stream] stand for the calls into it. *)

From S2P Require Import Prelude Text WorkerParser JobQueue.

(** A job carries its request and the kind of its reply channel. *)
Inductive JobReply : Type := Buffered | Streaming.
Record Job : Type := { request : WorkerRequest; reply : JobReply }.

Record WorkerOptions : Type := { multithread : bool; multiprocess : bool }.

Definition internal_error : bytes := bs "Internal Server Error".

(** ** The Ruby side *)

(** [status as u16] of an [i64]. *)
Definition as_u16 (z : Z) : Z := z mod 65536.

Section Ruby.
Context {E : Type}.
(** [Oxo.handle]: status, flat header array and body, or a Ruby error. *)
Variable handle : WorkerRequest -> WorkerOptions -> result E (Z * list bytes * bytes).
(** [Oxo.handle_stream]: status, flat headers, and the successive results of popping
    the chunk queue until it yields nil (the end of the list). *)
Variable handle_stream :
  WorkerRequest -> WorkerOptions -> result E (Z * list bytes * list (result E bytes)).
(** Which Ruby strings magnus converts to a Rust [String], and the error otherwise. *)
Variable convertible : bytes -> bool.
Variable conversion_error : E.

(** [let status: i64 = result.entry(0)?] *)
Definition as_i64 (status : Z) : result E Z :=
  if (- 2 ^ 63 <=? status) && (status <? 2 ^ 63) then Ok status else Err conversion_error.
(** [let k: String = flat_headers.entry(i)?] *)
Definition as_string (s : bytes) : result E bytes := if convertible s then Ok s else Err conversion_error.
(** The flat [k, v, k, v, ...] array, read two by two; a trailing odd entry is ignored. *)
Fixpoint pair_up (flat : list bytes) : result E (list (bytes * bytes)) :=
  match flat with
  | k :: v :: rest =>
      let? k := as_string k in
      let? v := as_string v in
      let? hs := pair_up rest in
      Ok ((k, v) :: hs)
  | _ => Ok []
  end.

Definition call_ruby (req : WorkerRequest) (opts : WorkerOptions) : result E WorkerResponse :=
  let? (status, flat, body) := handle req opts in
  let? status := as_i64 status in
  let? headers := pair_up flat in
  Ok {| resp_status := as_u16 status; resp_headers := headers; resp_body := body |}.
(** The head of a streamed answer: what precedes its [WorkerEvent::Start]. *)
Definition stream_head (status : Z) (flat : list bytes) : result E WorkerResponseHead :=
  let? status := as_i64 status in
  let? headers := pair_up flat in
  Ok {| head_status := as_u16 status; head_headers := headers |}.

(** The [loop] of [call_ruby_streaming]: [alive] more sends find their receiver. *)
Fixpoint stream_chunks (pops : list (result E bytes)) (alive : nat)
    : list WorkerEvent * result E unit :=
  match pops with
  | [] => (match alive with O => [] | S _ => [EvEnd] end, Ok tt)
  | Err e :: _ => ([], Err e)
  | Ok c :: pops' =>
      match alive with
      | O => ([], Ok tt)
      | S a => let '(evs, r) := stream_chunks pops' a in (EvChunk c :: evs, r)
      end
  end.

Definition call_ruby_streaming (req : WorkerRequest) (opts : WorkerOptions) (alive : nat)
    : list WorkerEvent * result E unit :=
  match handle_stream req opts with
  | Err e => ([], Err e)
  | Ok (status, flat, pops) =>
      match stream_head status flat with
      | Err e => ([], Err e)
      | Ok head =>
          match alive with
          | O => ([], Ok tt)
          | S a => let '(evs, r) := stream_chunks pops a in (EvStart head :: evs, r)
          end
      end
  end.

Definition send_stream_error (status : Z) (body : bytes) : list WorkerEvent :=
  [EvStart (head_text status); EvChunk body; EvEnd].

(** What one turn of [ruby_worker_loop] sends on the job's reply channel. *)
Definition buffered_reply (opts : WorkerOptions) (req : WorkerRequest) : WorkerResponse :=
  match call_ruby req opts with
  | Ok resp => resp
  | Err _ => response_text 500 internal_error
  end.
Definition streaming_reply (opts : WorkerOptions) (req : WorkerRequest) (alive : nat)
    : list WorkerEvent :=
  match call_ruby_streaming req opts alive with
  | (evs, Ok _) => evs
  | (evs, Err _) => evs ++ send_stream_error 500 internal_error
  end.
End Ruby.

(** ** Dispatch

    The connection thread pushes a job and waits for its reply.  [q] is the queue at the
    moment of the push; [answer] and [events] are what arrives on the reply channel of the
    job that was pushed before every sender is gone. *)

Definition unavailable : bytes := bs "Service Unavailable".

Definition dispatch_buffered_request (q : QueueState) (answer : Job -> option WorkerResponse)
    (req : WorkerRequest) : WorkerResponse :=
  let job := {| request := req; reply := Buffered |} in
  if negb (fst (push QUEUE_CAPACITY job q))
  then response_text 503 unavailable
  else match answer job with Some resp => resp | None => response_text 500 internal_error end.

Definition dispatch_streaming_request (q : QueueState) (events : Job -> list WorkerEvent)
    (req : WorkerRequest) : list WorkerEvent :=
  let job := {| request := req; reply := Streaming |} in
  if negb (fst (push QUEUE_CAPACITY job q))
  then [EvStart (head_text 503); EvChunk unavailable; EvEnd]
  else events job.

(** The same, said of the queue: it takes a job when it is open and not full. *)
Definition takes_job (q : @QueueState Job) : bool := negb (closed q) && (zlen (jobs q) <? QUEUE_CAPACITY).
Lemma push_taken (job : Job) q : fst (push QUEUE_CAPACITY job q) = takes_job q.
Proof. unfold push, takes_job. destruct (closed q); cbn; [reflexivity|]. destruct (zlen (jobs q) >=? QUEUE_CAPACITY) eqn:E; cbn; lia. Qed.
