(* ===== verification/WorkerFrame.v ===== *)
(** * WorkerFrame: the worker's persistent binary-frame connection

    Model of [crates/oxo-worker/src/native/frame.rs]: reading one request frame, the
    header drop table for frames, the response frames and the [frame_loop] that serves
    one exchange after the other.  The shared queue and the Ruby side enter each turn of
    the loop through [turn], what the connection thread observes of them. *)

From S2P Require Import Prelude Text HopFrame HeaderPolicy Stream WorkerParser JobQueue WorkerRuby.

(** ** Limits and errors *)

Definition frame_caps (max_body : Z) : FrameCaps :=
  {| max_header_bytes := MAX_HEADER_BYTES; max_headers := MAX_HEADERS;
     max_body_bytes := unwrap_or u32_max (try_from_u32 max_body) |}.

Definition frame_error_status (e : FrameError) : Z :=
  match e with
  | TooManyHeaders _ _ => 431
  | HeaderBytesExceeded _ => 431
  | BodyTooLarge _ _ | EnvelopeTooLarge _ _ => 413
  | _ => 400
  end.

Definition error_body (status : Z) : bytes :=
  if status =? 413 then bs "Payload Too Large"
  else if status =? 431 then bs "Request Header Fields Too Large"
  else bs "Bad Request".

(** ** Reading a request frame *)

(** The six prefix bytes as the fixed array [[u8; 6]]. *)
Definition to_prefix (d : bytes) : option prefix6 :=
  match d with [a; b; c; d; e; f] => Some (P6 a b c d e f) | _ => None end.

Definition read_request_frame (caps : FrameCaps) (s : stream)
    : result Z (option RequestFrame) * stream :=
  match read_exact_or_eof (Z.to_nat PREFIX_LEN) s with
  | (CleanEof, s1) => (Ok None, s1)
  | (Broken, s1) => (Err 400, s1)
  | (Filled d, s1) =>
      match to_prefix d with
      | None => (Err 400, s1)
      | Some p =>
          match prefix_parse p caps with
          | Err e => (Err (frame_error_status e), s1)
          | Ok len =>
              match read_exact (Z.to_nat len) s1 with
              | (None, s2) => (Err 400, s2)
              | (Some envelope, s2) =>
                  (let? r := map_err frame_error_status (decode_request envelope caps) in Ok (Some r), s2)
              end
          end
      end
  end.

(** ** Requests *)

(** One turn of the header loop of [request_frame_to_worker_request]. *)
Definition frame_header (h : bytes * bytes) : option (bytes * bytes) :=
  let '(name, value) := h in
  let lower := to_ascii_lowercase name in
  if eq_bytes lower (bs "host") then Some (bs "host", value)
  else if eq_bytes lower (bs "connection") then None
  else if is_client_forwarding_header lower then None
  else if is_reserved lower then None
  else match normalize_header_name lower with
       | Some normalized => Some (normalized, value)
       | None => None
       end.

Definition request_frame_to_worker_request (f : RequestFrame) : WorkerRequest :=
  {| w_method := method f; w_path := path f; w_query := query f;
     w_server_name := server_name f; w_server_port := server_port f;
     w_url_scheme := match scheme f with Http => bs "http" | Https => bs "https" end;
     w_remote_addr := remote_addr f;
     w_headers := omap frame_header (headers f); w_body := body f |}.

(** ** Responses *)

Definition valid_response_header_value (value : bytes) : bool :=
  forallb (fun b => (32 <=? bz b) && negb (bz b =? 127)) value.

Definition framing_names : list string := ["content-length"; "transfer-encoding"; "connection"]%string.

Definition keeps_response_header (h : bytes * bytes) : bool :=
  let '(name, value) := h in
  let lower := to_ascii_lowercase name in
  if one_of lower framing_names then false
  else
    let valid_name := negb (bool_decide (name = []))
                      && forallb (fun b => (32 <? bz b) && (bz b <? 127)) name in
    if negb valid_name || negb (valid_response_header_value value) then false else true.
Definition sanitize_response_headers (hs : list (bytes * bytes)) : list (bytes * bytes) :=
  List.filter keeps_response_header hs.

Definition write_frame (encoded : FResult bytes) : sink_op :=
  match encoded with Ok b => write_all b | Err _ => op_fail end.

Definition write_full_response (r : WorkerResponse) : sink_op :=
  write_frame (encode_response
    (Full (resp_status r) (sanitize_response_headers (resp_headers r)) (resp_body r))).

(** The head taken from the first event on the channel, and the events left. *)
Definition first_head (evs : list WorkerEvent) : WorkerResponseHead * list WorkerEvent :=
  match evs with
  | [] => (head_text 500, [])
  | EvStart h :: evs' => (h, evs')
  | (EvChunk _ | EvEnd) :: evs' => (head_text 500, evs')
  end.

(** The [for event in rx] loop. *)
Fixpoint write_event_frames (evs : list WorkerEvent) : sink_op :=
  match evs with
  | [] => op_ok
  | EvStart _ :: evs' => write_event_frames evs'
  | EvChunk [] :: evs' => write_event_frames evs'
  | EvChunk c :: evs' => write_frame (encode_response (Chunk c)) ;! write_event_frames evs'
  | EvEnd :: _ => op_ok
  end.

Definition write_streaming_frames (evs : list WorkerEvent) : sink_op :=
  let '(head, evs') := first_head evs in
  write_frame (encode_response
    (Head (head_status head) (sanitize_response_headers (head_headers head)))) ;!
  write_event_frames evs' ;!
  write_frame (encode_response End_).

(** ** The loop *)

(** What one turn of the loop observes: [queue.is_closed()], the queue at the push, and
    the reply of the Ruby side to the job that is pushed, in either mode. *)
Record turn : Type := {
  t_closed : bool;
  t_queue : @QueueState Job;
  t_answer : Job -> option WorkerResponse;
  t_events : Job -> list WorkerEvent;
}.

Inductive loop_end : Type :=
| PeerClosed          (** end of file at a frame boundary *)
| BadFrame (status : Z)
| WorkerStopping
| WriteFailed
| OutOfFuel.

Definition serve_turn (streaming : bool) (t : turn) (w : WorkerRequest) : sink_op :=
  if streaming
  then write_streaming_frames (dispatch_streaming_request (t_queue t) (t_events t) w)
  else write_full_response (dispatch_buffered_request (t_queue t) (t_answer t) w).

Fixpoint frame_loop (fuel : nat) (env : nat -> turn) (n : nat) (max_body : Z) (streaming : bool)
    (s : stream) (k : sink) : loop_end * stream * sink :=
  match fuel with
  | O => (OutOfFuel, s, k)
  | S fuel' =>
      match read_request_frame (frame_caps max_body) s with
      | (Ok None, s') => (PeerClosed, s', k)
      | (Err status, s') =>
          (BadFrame status, s', fst (write_full_response (response_text status (error_body status)) k))
      | (Ok (Some req), s') =>
          if t_closed (env n) then (WorkerStopping, s', k)
          else match serve_turn streaming (env n) (request_frame_to_worker_request req) k with
               | (k', false) => (WriteFailed, s', k')
               | (k', true) => frame_loop fuel' env (S n) max_body streaming s' k'
               end
      end
  end.

(** [try_handle_frame_connection]: peek at the first byte without consuming it.
    [None] is a failed peek; [Some false] hands the connection to the HTTP path. *)
Fixpoint peek_first_byte (s : stream) : option (option byte) :=
  match s with
  | [] => Some None
  | Interrupted :: s' => peek_first_byte s'
  | Failed :: _ => None
  | Data [] :: s' => peek_first_byte s'
  | Data (b :: _) :: _ => Some (Some b)
  end.

Definition try_handle_frame_connection (fuel : nat) (env : nat -> turn) (max_body : Z)
    (streaming : bool) (s : stream) (k : sink) : option bool * stream * sink :=
  match peek_first_byte s with
  | None => (None, s, k)
  | Some None => (Some true, s, k)
  | Some (Some first) =>
      if negb (bool_decide (first = FRAME_MAGIC)) then (Some false, s, k)
      else let '(_, s', k') := frame_loop fuel env 0 max_body streaming s k in (Some true, s', k')
  end.

(** ** Reading *)

Lemma frame_caps_wf max_body : 0 <= max_body -> caps_wf (frame_caps max_body).
Proof.
  intros H. unfold caps_wf, frame_caps, try_from_u32, MAX_HEADER_BYTES, MAX_HEADERS.
  cbn [max_header_bytes max_headers max_body_bytes].
  cases_if; cbn [unwrap_or]; unfold_ints; lia.
Qed.

Lemma to_prefix_bytes p : to_prefix (prefix_bytes p) = Some p.
Proof. destruct p. reflexivity. Qed.

(** The request frames a worker with the given caps admits. *)
Definition admissible (caps : FrameCaps) (r : RequestFrame) : Prop :=
  request_ok caps r /\ zlen (request_envelope r) <= Z.min u32_max (max_remaining_length caps).

Lemma read_request_frame_ok caps r s rest :
  caps_wf caps -> admissible caps r -> intact s = true ->
  payload s = framed (request_envelope r) ++ rest ->
  exists s', read_request_frame caps s = (Ok (Some r), s') /\ intact s' = true /\ payload s' = rest.
Proof.
  intros Hc [Hok Hl] Hi Hp. destruct (prefix_of_framed (request_envelope r)) as (p & _ & Hf & Hpp).
  rewrite Hf, <- app_assoc in Hp. unfold read_request_frame, read_exact_or_eof.
  pose proof (fill_loop_intact 6 [] s Hi) as F. change (Z.to_nat PREFIX_LEN) with 6%nat.
  destruct (fill_loop 6 [] s) as [d s1]. destruct F as [Hi1 F].
  assert (L6 : length (prefix_bytes p) = 6%nat) by (destruct p; reflexivity).
  rewrite Hp in F. rewrite <- L6 in F. rewrite take_app_exact, drop_app_exact, length_app in F.
  destruct (Nat.leb_spec (length (prefix_bytes p)) (length (prefix_bytes p) + length (request_envelope r ++ rest)));
    [|lia].
  destruct F as [-> P1]. cbn [app]. rewrite to_prefix_bytes, Hpp by lia.
  cases_if; [lia|]. pose proof (read_exact_intact (Z.to_nat (zlen (request_envelope r))) s1 Hi1) as R.
  destruct (read_exact _ s1) as [o s2]. destruct R as [Hi2 R]. unfold zlen in R. rewrite Nat2Z.id in R.
  rewrite P1, take_app_exact, drop_app_exact, length_app in R.
  destruct (Nat.leb_spec (length (request_envelope r)) (length (request_envelope r) + length rest)); [|lia].
  destruct R as [-> P2]. exists s2. split; [|auto]. f_equal.
  assert (decode_request (request_envelope r) caps = Ok r) as ->; [|reflexivity].
  apply (denotes_tiled _ (fun r b => request_ok caps r /\ b = request_envelope r)); [|auto].
  apply denotes_request, Hc.
Qed.

Lemma read_request_frame_eof caps s :
  intact s = true -> payload s = [] ->
  exists s', read_request_frame caps s = (Ok None, s') /\ payload s' = [].
Proof.
  intros Hi Hp. unfold read_request_frame, read_exact_or_eof.
  pose proof (fill_loop_intact (Z.to_nat PREFIX_LEN) [] s Hi) as F. rewrite Hp in F.
  destruct (fill_loop _ [] s) as [d s1]. destruct F as [_ [-> P]]. eauto.
Qed.

(** Every accepted frame uses up at least its prefix. *)
Lemma read_request_frame_consumes caps s r s' :
  read_request_frame caps s = (Ok (Some r), s') -> (length (payload s') + 6 <= length (payload s))%nat.
Proof.
  unfold read_request_frame, read_exact_or_eof.
  destruct (fill_loop (Z.to_nat PREFIX_LEN) [] s) as [[d| |] s1] eqn:F; try discriminate.
  apply fill_loop_filled in F as (k & -> & Lk & P). cbn [app].
  destruct (to_prefix k) as [p|]; [|discriminate]. destruct (prefix_parse p caps); [|discriminate].
  destruct (read_exact _ s1) as [[e|] s2] eqn:R; [|discriminate]. intros [= _ <-].
  apply read_exact_some in R as [_ P1]. rewrite P, P1, !length_app, Lk. simpl. lia.
Qed.

Lemma frame_error_status_range e : In (frame_error_status e) [400; 413; 431].
Proof. destruct e; simpl; auto. Qed.

Lemma read_request_frame_err caps s status s' :
  read_request_frame caps s = (Err status, s') -> In status [400; 413; 431].
Proof.
  unfold read_request_frame. destruct (read_exact_or_eof _ s) as [[d| |] s1]; try discriminate.
  - destruct (to_prefix d) as [p|]; [|intros [= <- _]; simpl; auto].
    destruct (prefix_parse p caps) as [len|e]; [|intros [= <- _]; apply frame_error_status_range].
    destruct (read_exact _ s1) as [[env|] s2]; [|intros [= <- _]; simpl; auto].
    destruct (decode_request env caps); simpl; [discriminate|]. intros [= <- _]. apply frame_error_status_range.
  - intros [= <- _]. simpl. auto.
Qed.

(** ** Writing *)

(** The response frames an exchange consists of. *)
Definition chunks_until_end : list WorkerEvent -> list bytes :=
  fix go evs :=
    match evs with
    | [] | EvEnd :: _ => []
    | EvStart _ :: evs' | EvChunk [] :: evs' => go evs'
    | EvChunk c :: evs' => c :: go evs'
    end.
Definition stream_frames (evs : list WorkerEvent) : list ResponseFrame :=
  let '(head, evs') := first_head evs in
  Head (head_status head) (sanitize_response_headers (head_headers head))
    :: map Chunk (chunks_until_end evs') ++ [End_].
Definition full_frame (r : WorkerResponse) : ResponseFrame :=
  Full (resp_status r) (sanitize_response_headers (resp_headers r)) (resp_body r).
(** For one request: the frames of what the Ruby side replies to the job of this request, of a
    500 when no reply comes, and of a 503 when the queue does not take the job. *)
Definition turn_frames (streaming : bool) (t : turn) (w : WorkerRequest) : list ResponseFrame :=
  if streaming then
    stream_frames (if takes_job (t_queue t) then t_events t {| request := w; reply := Streaming |}
                   else [EvStart (head_text 503); EvChunk unavailable; EvEnd])
  else
    [full_frame (if takes_job (t_queue t)
                 then match t_answer t {| request := w; reply := Buffered |} with Some r => r | None => response_text 500 internal_error end
                 else response_text 503 unavailable)].
Lemma turn_frames_dispatch streaming t w :
  turn_frames streaming t w =
  if streaming then stream_frames (dispatch_streaming_request (t_queue t) (t_events t) w)
  else [full_frame (dispatch_buffered_request (t_queue t) (t_answer t) w)].
Proof. unfold turn_frames, dispatch_streaming_request, dispatch_buffered_request. rewrite !push_taken. destruct (takes_job (t_queue t)); reflexivity. Qed.

Definition encodable (f : ResponseFrame) : bool :=
  response_fits f && (zlen (response_envelope f) <=? u32_max).
Definition wire (f : ResponseFrame) : bytes := framed (response_envelope f).

Lemma write_frame_writes f : encodable f = true -> writes_to (write_frame (encode_response f)) [wire f] true.
Proof. intros H. rewrite encode_response_spec. unfold encodable in H. rewrite H. apply writes_to_all. Qed.

Lemma write_event_frames_writes evs :
  forallb encodable (map Chunk (chunks_until_end evs)) = true ->
  writes_to (write_event_frames evs) (map wire (map Chunk (chunks_until_end evs))) true.
Proof.
  induction evs as [|e evs IH]; [intros _; apply writes_to_ok|].
  destruct e as [h|[|b c]|]; cbn [write_event_frames chunks_until_end]; try exact IH.
  - cbn [map forallb]. rewrite andb_true_iff. intros [H1 H2].
    apply (writes_to_seq _ _ [_]); [apply write_frame_writes, H1 | apply IH, H2].
  - intros _. apply writes_to_ok.
Qed.

Lemma serve_turn_writes streaming t w :
  forallb encodable (turn_frames streaming t w) = true ->
  writes_to (serve_turn streaming t w) (map wire (turn_frames streaming t w)) true.
Proof.
  rewrite turn_frames_dispatch. unfold serve_turn. destruct streaming.
  - unfold stream_frames, write_streaming_frames.
    destruct (first_head _) as [head evs]. cbn [forallb map]. rewrite forallb_app, !andb_true_iff, map_app.
    intros (H1 & H2 & _). apply (writes_to_seq _ _ [_]); [apply write_frame_writes, H1|].
    apply writes_to_seq; [apply write_event_frames_writes, H2 | apply (write_frame_writes End_); reflexivity].
  - cbn [forallb map]. rewrite andb_true_r. intros H. apply write_frame_writes, H.
Qed.

(** ** A session *)

Fixpoint session_frames (streaming : bool) (env : nat -> turn) (n : nat) (rs : list RequestFrame)
    : list ResponseFrame :=
  match rs with
  | [] => []
  | r :: rs' => turn_frames streaming (env n) (request_frame_to_worker_request r)
                ++ session_frames streaming env (S n) rs'
  end.
Definition requests_wire (rs : list RequestFrame) : bytes :=
  concat (map (fun r => framed (request_envelope r)) rs).

Section Session.
Variables (max_body : Z) (streaming : bool) (env : nat -> turn).
Hypothesis Hbody : 0 <= max_body.
Hypothesis Hopen : forall n, t_closed (env n) = false.

Lemma frame_loop_steps rs n s k rest fuel :
  Forall (admissible (frame_caps max_body)) rs ->
  forallb encodable (session_frames streaming env n rs) = true ->
  (length (session_frames streaming env n rs) <= room k)%nat ->
  intact s = true -> payload s = requests_wire rs ++ rest ->
  exists s' k', frame_loop (length rs + fuel) env n max_body streaming s k
                = frame_loop fuel env (n + length rs) max_body streaming s' k' /\
    intact s' = true /\ payload s' = rest /\
    sent k' = sent k ++ concat (map wire (session_frames streaming env n rs)) /\
    room k' = (room k - length (session_frames streaming env n rs))%nat.
Proof.
  revert n s k. induction rs as [|r rs IH]; intros n s k HF HE HR Hi Hp.
  - exists s, k. cbn [length session_frames map concat Nat.add]. rewrite app_nil_r, Nat.add_0_r, Nat.sub_0_r. auto.
  - apply Forall_cons_iff in HF as [Hr HF]. cbn [session_frames] in *.
    rewrite forallb_app, andb_true_iff in HE. destruct HE as [HE1 HE2]. rewrite length_app in *.
    unfold requests_wire in Hp. cbn [map concat] in Hp. rewrite <- app_assoc in Hp.
    destruct (read_request_frame_ok _ r s _ (frame_caps_wf _ Hbody) Hr Hi Hp) as (s1 & E1 & Hi1 & P1).
    cbn [length Nat.add frame_loop]. rewrite E1, Hopen.
    rewrite (writes_to_enough _ _ _ k (serve_turn_writes _ _ _ HE1)) by (rewrite length_map; lia).
    destruct (IH (S n) s1 {| sent := sent k ++ concat (map wire (turn_frames streaming (env n) (request_frame_to_worker_request r)));
                             room := room k - length (map wire (turn_frames streaming (env n) (request_frame_to_worker_request r))) |})
      as (s' & k' & E & Hi' & P' & S' & R'); cbn [sent room] in *; rewrite ?length_map in *; try assumption; try lia.
    exists s', k'. rewrite E, map_app, concat_app, app_assoc. repeat split; try assumption; try lia.
    f_equal. lia.
Qed.
End Session.

(** ** Header parity with the HTTP path *)

Lemma frame_header_spec h :
  frame_header h = app_header (to_ascii_lowercase (fst h), snd h).
Proof.
  destruct h as [n v]. unfold frame_header, app_header. cbn [fst snd].
  repeat (cases_if; simpl; try reflexivity).
Qed.

Lemma omap_frame_header hs :
  Forall (fun h => is_lower_name (fst h)) hs -> omap frame_header hs = omap app_header hs.
Proof.
  induction 1 as [|[n v] hs L _ IH]; [reflexivity|]. cbn [omap list_omap].
  change (list_omap _ _ frame_header hs) with (omap frame_header hs).
  change (list_omap _ _ app_header hs) with (omap app_header hs).
  rewrite IH, frame_header_spec. cbn [fst snd] in *. rewrite L. reflexivity.
Qed.

(** The value a metadata header leaves behind, when header names are unique. *)
Lemma hget_cons k n v m : hget k ((n, v) :: m) = if decide (n = k) then Some v else hget k m.
Proof.
  unfold hget. cbn [List.find fst].
  destruct (decide (n = k)) as [E|E]; [rewrite bool_decide_eq_true_2 | rewrite bool_decide_eq_false_2]; auto.
Qed.
Lemma hget_notin k m : k ∉ map fst m -> hget k m = None.
Proof.
  induction m as [|[n v] m IH]; [reflexivity|]. rewrite hget_cons. cbn [map fst].
  intros H. destruct (decide (n = k)); [set_solver|]. apply IH. set_solver.
Qed.
Lemma hget_perm k m m' : NoDup (map fst m) -> m ≡ₚ m' -> hget k m = hget k m'.
Proof.
  intros ND P. induction P as [|[n v] m m' P IH|[n1 v1] [n2 v2] m|m m' m'' P1 IH1 P2 IH2].
  - reflexivity.
  - cbn [map] in ND. apply list.NoDup_cons in ND as [_ ND]. rewrite !hget_cons, IH by assumption. reflexivity.
  - cbn [map fst] in ND. apply list.NoDup_cons in ND as [N _]. rewrite !hget_cons.
    repeat destruct (decide _); subst; set_solver.
  - rewrite IH1 by assumption. apply IH2. rewrite <- P1. exact ND.
Qed.

(** A component of the [classify] state that only the header [k] changes. *)
Lemma classify_fold_get {A} (proj : hop_fields -> A) (k : bytes) (upd : bytes -> A -> A) hs f :
  (forall g h, proj (classify g h) = if eq_bytes (fst h) k then upd (snd h) (proj g) else proj g) ->
  NoDup (map fst hs) ->
  proj (fold_left classify hs f) = match hget k hs with Some v => upd v (proj f) | None => proj f end.
Proof.
  intros Hs. revert f. induction hs as [|[n v] hs IH]; intros f ND; [reflexivity|].
  cbn [map] in ND. apply list.NoDup_cons in ND as [N ND]. cbn [fold_left fst snd] in *.
  rewrite IH, Hs, hget_cons by assumption. cbn [fst snd]. unfold eq_bytes.
  destruct (decide (n = k)) as [->|E].
  - rewrite bool_decide_eq_true_2, hget_notin by auto. reflexivity.
  - rewrite bool_decide_eq_false_2 by auto. reflexivity.
Qed.

(** Which header each field of the state listens to. *)
Ltac classify_cases :=
  intros g [n v]; unfold classify; cbn [fst snd]; unfold eq_bytes;
  repeat match goal with
  | |- context [bool_decide (n = ?k)] => destruct (bool_decide_reflect (n = k)) as [-> | ?]
  | |- context [bool_decide (?a = ?k)] => rewrite (bool_decide_eq_false_2 (a = k)) by discriminate
  | |- context [if ?b then _ else _] => destruct b
  | |- context [match ?o with Some _ => _ | None => _ end] => destruct o
  end; try reflexivity; try discriminate.

Lemma classify_remote g h :
  f_remote_addr (classify g h) = if eq_bytes (fst h) (bs "x-oxo-remote-addr") then snd h else f_remote_addr g.
Proof. revert g h. classify_cases. Qed.
Lemma classify_name g h :
  f_server_name (classify g h) = if eq_bytes (fst h) (bs "x-oxo-server-name") then snd h else f_server_name g.
Proof. revert g h. classify_cases. Qed.
Definition scheme_update (v old : bytes) : bytes :=
  if eq_bytes v (bs "http") || eq_bytes v (bs "https") then v else old.
Lemma classify_scheme g h :
  f_url_scheme (classify g h) =
  if eq_bytes (fst h) (bs "x-oxo-url-scheme") then scheme_update (snd h) (f_url_scheme g) else f_url_scheme g.
Proof. revert g h. unfold scheme_update. classify_cases. Qed.
Lemma classify_port g h :
  f_server_port (classify g h) =
  if eq_bytes (fst h) (bs "x-oxo-server-port") then unwrap_or (f_server_port g) (parse_uint u16_max (snd h))
  else f_server_port g.
Proof. revert g h. classify_cases. Qed.

(** ** Properties *)

(** C31. End-to-end service of a frame connection: when the edge sends any number of request
    frames within the caps back to back, cut into reads in any way and without a read error,
    the worker answers them one by one and in order, each with exactly the frames of the reply
    the Ruby side gives to the job of this request (one [Full] frame, or [Head], the non-empty
    chunks and [End] when streaming; a 500 when no reply comes, a 503 when the queue does not
    take the job), and then returns at the clean end of file; nothing else is written.  This
    is for a worker that is not asked to stop meanwhile, replies that fit a frame, and a
    socket that takes all of the writes.  One turn of fuel per request plus the final one
    suffices. *)
Theorem frame_session_served max_body streaming env rs s k :
  0 <= max_body -> (forall n, t_closed (env n) = false) ->
  Forall (admissible (frame_caps max_body)) rs ->
  forallb encodable (session_frames streaming env 0 rs) = true ->
  (length (session_frames streaming env 0 rs) <= room k)%nat ->
  intact s = true -> payload s = requests_wire rs ->
  exists s' k', frame_loop (S (length rs)) env 0 max_body streaming s k = (PeerClosed, s', k') /\
    payload s' = [] /\ sent k' = sent k ++ concat (map wire (session_frames streaming env 0 rs)).
Proof.
  intros Hb Ho HF HE HR Hi Hp. rewrite <- Nat.add_1_r.
  destruct (frame_loop_steps max_body streaming env Hb Ho rs 0 s k [] 1) as (s1 & k1 & E & Hi1 & P1 & S1 & _);
    try assumption; [rewrite app_nil_r; assumption|].
  rewrite E. cbn [frame_loop].
  destruct (read_request_frame_eof (frame_caps max_body) s1 Hi1 P1) as (s2 & -> & P2). eauto.
Qed.

Definition demo_turn : turn :=
  {| t_closed := false; t_queue := queue_new;
     t_answer := fun job => Some {| resp_status := 200; resp_headers := [(bs "x-a", bs "1"); (bs "Connection", bs "close")];
                                    resp_body := w_path (request job) |};
     t_events := fun job => [EvStart (head_text 200); EvChunk (w_path (request job)); EvChunk []; EvChunk (bs "b"); EvEnd; EvChunk (bs "z")] |}.
Definition demo_stream : stream :=
  let w := framed (request_envelope sample_request) in
  [Data (take 3 w); Interrupted; Data (drop 3 w ++ take 9 w); Data (drop 9 w)].

Lemma frame_session_served_witness :
  exists s' k', frame_loop 3 (fun _ => demo_turn) 0 1000 true demo_stream {| sent := []; room := 8 |}
                = (PeerClosed, s', k') /\ payload s' = [] /\
    sent k' = concat (map wire (let fs := [Head 200 text_headers; Chunk (bs "/submit"); Chunk (bs "b"); End_] in fs ++ fs)).
Proof.
  apply (frame_session_served 1000 true (fun _ => demo_turn) [sample_request; sample_request]);
    try reflexivity; try lia.
  - repeat constructor; vm_compute; congruence.
Defined.

(** The frame loop always returns: whatever the peer sends and however the
    operating system delivers it, a turn per byte received (plus one) is enough, so the
    connection thread never loops without consuming input. *)
Theorem frame_loop_returns env n max_body streaming s k :
  fst (fst (frame_loop (S (length (payload s))) env n max_body streaming s k)) <> OutOfFuel.
Proof.
  enough (G : forall fuel n s k, (length (payload s) < fuel)%nat ->
            fst (fst (frame_loop fuel env n max_body streaming s k)) <> OutOfFuel) by (apply G; lia).
  clear. induction fuel as [|fuel IH]; intros n s k L; [lia|]. cbn [frame_loop].
  destruct (read_request_frame _ s) as [[[r|]|st] s'] eqn:E; try discriminate.
  destruct (t_closed (env n)); [discriminate|].
  destruct (serve_turn _ _ _ k) as [k' []]; [|discriminate].
  apply read_request_frame_consumes in E. apply IH. lia.
Qed.

(** A malformed or oversized frame ends the connection after one error response:
    behind any number of served requests, input that [read_request_frame] rejects makes
    the worker write exactly one [Full] frame with status 400, 413 or 431 and stop. *)
Theorem bad_frame_answered_once max_body streaming env rs s k bad status :
  0 <= max_body -> (forall n, t_closed (env n) = false) ->
  Forall (admissible (frame_caps max_body)) rs ->
  forallb encodable (session_frames streaming env 0 rs) = true ->
  (length (session_frames streaming env 0 rs) < room k)%nat ->
  intact s = true -> payload s = requests_wire rs ++ bad ->
  (forall s1, intact s1 = true -> payload s1 = bad ->
     fst (read_request_frame (frame_caps max_body) s1) = Err status) ->
  In status [400; 413; 431] /\
  exists s' k', frame_loop (S (length rs)) env 0 max_body streaming s k = (BadFrame status, s', k') /\
    sent k' = sent k ++ concat (map wire (session_frames streaming env 0 rs))
              ++ wire (Full status text_headers (error_body status)).
Proof.
  intros Hb Ho HF HE HR Hi Hp Hbad. rewrite <- Nat.add_1_r.
  destruct (frame_loop_steps max_body streaming env Hb Ho rs 0 s k bad 1)
    as (s1 & k1 & E & Hi1 & P1 & S1 & R1); try assumption; [lia|].
  specialize (Hbad s1 Hi1 P1). destruct (read_request_frame (frame_caps max_body) s1) as [r s2] eqn:F.
  cbn [fst] in Hbad. subst r. pose proof (read_request_frame_err _ _ _ _ F) as Hs. split; [assumption|].
  rewrite E. cbn [frame_loop]. rewrite F. eexists _, _. split; [reflexivity|].
  assert (HW : writes_to (write_full_response (response_text status (error_body status)))
                 [wire (Full status text_headers (error_body status))] true).
  { apply (write_frame_writes (Full status text_headers (error_body status))).
    destruct Hs as [<-|[<-|[<-|[]]]]; vm_compute; reflexivity. }
  rewrite (writes_to_enough _ _ _ k1 HW) by (simpl; lia). cbn [fst sent concat].
  rewrite S1, app_nil_r, <- app_assoc. reflexivity.
Qed.

Lemma read_bad_magic caps s :
  intact s = true -> payload s = bs "GET / " -> fst (read_request_frame caps s) = Err 400.
Proof.
  intros Hi Hp. unfold read_request_frame, read_exact_or_eof.
  pose proof (fill_loop_intact 6 [] s Hi) as F. rewrite Hp in F. change (Z.to_nat PREFIX_LEN) with 6%nat.
  destruct (fill_loop 6 [] s) as [d s1]. destruct F as [_ [-> _]]. reflexivity.
Qed.

Lemma bad_frame_answered_once_witness :
  In 400 [400; 413; 431] /\ exists s' k', frame_loop 2 (fun _ => demo_turn) 0 1000 false
                  [Data (framed (request_envelope sample_request) ++ bs "GET"); Data (bs " / ")]
                  {| sent := []; room := 3 |} = (BadFrame 400, s', k') /\
    sent k' = concat [wire (Full 200 [(bs "x-a", bs "1")] (bs "/submit"))] ++ wire (Full 400 text_headers (bs "Bad Request")).
Proof.
  refine (bad_frame_answered_once 1000 false (fun _ => demo_turn) [sample_request]
            [Data (framed (request_envelope sample_request) ++ bs "GET"); Data (bs " / ")]
            {| sent := []; room := 3 |} (bs "GET / ") 400 _ _ _ _ _ _ _ _);
    try reflexivity; try lia.
  - repeat constructor; vm_compute; congruence.
  - simpl. lia.
  - intros. apply read_bad_magic; assumption.
Defined.

(** The request as the HTTP hop carries it: the application headers of a frame with the
    frame's trusted fields as [x-oxo-*] headers. *)
Definition with_metadata (f : RequestFrame) : hmap :=
  [(bs "x-oxo-remote-addr", remote_addr f); (bs "x-oxo-url-scheme", scheme_as_str (scheme f));
   (bs "x-oxo-server-name", server_name f); (bs "x-oxo-server-port", show_uint (server_port f))]
  ++ headers f.

(** C37. The two hops give the application the same request: for any frame whose header names are
    lower case, unique and outside the reserved namespace, whose port is one and whose path has
    no question mark, the frame path and the HTTP path (the same method, target and body, and
    the same headers plus the [x-oxo-*] metadata, iterated in whatever order the hash map
    yields) build requests that are equal in every field - method, path, query, server name and
    port, scheme, remote address and body - and in their headers up to order; both apply one
    drop table. *)
Theorem hop_paths_agree order f host :
  (forall m, order m ≡ₚ m) -> Forall (fun h => is_lower_name (fst h)) (headers f) ->
  NoDup (map fst (headers f)) -> Forall (fun h => is_reserved (fst h) = false) (headers f) ->
  is_u16 (server_port f) -> contains_byte question (path f) = false ->
  let http := finish_request order
    (method f, path f ++ [question] ++ query f, bs "HTTP/1.1", with_metadata f) host (body f) in
  let framed_request := request_frame_to_worker_request f in
  w_method http = w_method framed_request /\ w_path http = w_path framed_request /\
  w_query http = w_query framed_request /\ w_server_name http = w_server_name framed_request /\
  w_server_port http = w_server_port framed_request /\ w_url_scheme http = w_url_scheme framed_request /\
  w_remote_addr http = w_remote_addr framed_request /\ w_body http = w_body framed_request /\
  w_headers http ≡ₚ w_headers framed_request.
Proof.
  intros Ho HL ND HR HP HT. cbn zeta.
  apply (parse_show_uint u16_max) in HP; [|unfold is_u16 in HP; int_lia].
  assert (ND' : NoDup (map fst (with_metadata f))).
  { unfold with_metadata. rewrite map_app. apply list.NoDup_app. split; [|split; [|exact ND]].
    - apply (bool_decide_unpack _). vm_compute. reflexivity.
    - intros x Hx Hin. apply list_elem_of_In, in_map_iff in Hin as (h & <- & Hin).
      rewrite list.Forall_forall in HR. specialize (HR h (proj2 (list_elem_of_In _ _) Hin)).
      cbn [map fst] in Hx. set_unfold in Hx. repeat destruct Hx as [Hx|Hx]; rewrite ?Hx in HR; discriminate || easy. }
  assert (NDo : NoDup (map fst (order (with_metadata f)))) by (rewrite (Ho _); exact ND').
  assert (G : forall k, hget k (order (with_metadata f)) = hget k (with_metadata f)).
  { intros k. apply hget_perm; [exact NDo | apply Ho]. }
  unfold finish_request, split_target. rewrite split_once_app by exact HT. cbn [w_method w_path w_query w_server_name w_server_port w_url_scheme
    w_remote_addr w_headers w_body request_frame_to_worker_request].
  rewrite (classify_fold_get _ _ (fun v _ => v) _ _ classify_remote NDo), G.
  rewrite (classify_fold_get _ _ (fun v _ => v) _ _ classify_name NDo), G.
  rewrite (classify_fold_get _ _ scheme_update _ _ classify_scheme NDo), G.
  rewrite (classify_fold_get _ _ (fun v old => unwrap_or old (parse_uint u16_max v)) _ _ classify_port NDo), G.
  unfold with_metadata. cbn [app]. rewrite !hget_cons.
  repeat first [rewrite decide_False by discriminate | rewrite decide_True by reflexivity].
  cbn beta iota. rewrite HP, classify_fold_app, omap_frame_header by assumption. cbn [app f_app_headers].
  repeat split; try reflexivity; [destruct (scheme f); reflexivity|].
  rewrite (Ho _). reflexivity.
Qed.

Definition parity_frame : RequestFrame :=
  {| method := bs "GET"; path := bs "/p"; query := bs "a=1?"; server_name := bs "x.test"; server_port := 8443;
     scheme := Https; remote_addr := bs "9.9.9.9";
     headers := [(bs "host", bs "x.test"); (bs "x-forwarded-for", bs "6.6.6.6"); (bs "accept", bs "*/*")];
     body := bs "{}" |}.

Lemma hop_paths_agree_witness :
  w_headers (finish_request (@rev _) (bs "GET", bs "/p?a=1?", bs "HTTP/1.1", with_metadata parity_frame) (bs "x.test") (bs "{}"))
  ≡ₚ [(bs "host", bs "x.test"); (bs "accept", bs "*/*")].
Proof.
  apply (hop_paths_agree (@rev _) parity_frame (bs "x.test")).
  - intros m. symmetry. apply Permutation_rev.
  - repeat constructor; reflexivity.
  - apply (bool_decide_unpack _). vm_compute. reflexivity.
  - repeat constructor; reflexivity.
  - vm_compute. split; discriminate.
  - reflexivity.
Defined.

(** ** Response hygiene *)

Lemma keeps_clean h :
  keeps_response_header h = true -> utf8 (fst h) = true -> utf8 (snd h) = true ->
  clean_text (fst h) = true /\ clean_text (snd h) = true /\
  one_of (to_ascii_lowercase (fst h)) framing_names = false.
Proof.
  destruct h as [n v]. unfold keeps_response_header, clean_text, valid_response_header_value. cbn [fst snd].
  intros H Hn Hv. destruct (one_of _ _); [discriminate|].
  destruct (_ || _) eqn:G; [discriminate|]. apply orb_false_iff in G as [Gn Gv].
  apply negb_false_iff in Gn, Gv. apply andb_true_iff in Gn as [_ Gn]. rewrite forallb_forall in Gn, Gv.
  rewrite Hn, Hv. repeat split; cbn [andb]; apply negb_true_iff, existsb_false; intros b Hb; unfold is_ctl.
  - specialize (Gn b Hb). lia.
  - specialize (Gv b Hb). lia.
Qed.

Lemma sanitize_headers_ok caps hs :
  forallb (fun h => utf8 (fst h) && utf8 (snd h)) hs = true -> forallb header_fits hs = true ->
  zlen hs <= Z.min u16_max (max_headers caps) -> header_total hs <= max_header_bytes caps ->
  headers_ok caps (sanitize_response_headers hs) /\
  Forall (fun h => one_of (to_ascii_lowercase (fst h)) framing_names = false) (sanitize_response_headers hs).
Proof.
  intros HU HF HC HT. unfold headers_ok.
  enough (forallb header_ok (sanitize_response_headers hs) = true /\
          header_total (sanitize_response_headers hs) <= header_total hs /\
          zlen (sanitize_response_headers hs) <= zlen hs /\
          Forall (fun h => one_of (to_ascii_lowercase (fst h)) framing_names = false) (sanitize_response_headers hs))
    as (? & ? & ? & ?) by (repeat split; try assumption; lia).
  clear HC HT. induction hs as [|[n v] hs IH]; [repeat split; reflexivity || constructor|].
  cbn [forallb] in *. apply andb_true_iff in HU as [HU1 HU], HF as [HF1 HF]. destruct (IH HU HF) as (I1 & I2 & I3 & I4).
  apply andb_true_iff in HU1 as [Un Uv]. pose proof (zlen_nonneg n). pose proof (zlen_nonneg v).
  unfold sanitize_response_headers in *. cbn [List.filter]. destruct (keeps_response_header (n, v)) eqn:K.
  - destruct (keeps_clean _ K Un Uv) as (C1 & C2 & C3). cbn [forallb header_total] in *. rewrite !zlen_cons.
    unfold header_ok at 1. rewrite HF1, C1, C2. repeat split; try assumption; try lia. constructor; assumption.
  - cbn [header_total] in *. rewrite zlen_cons. repeat split; try assumption; lia.
Qed.

(** A buffered response always reaches the edge intact: for a status the edge
    accepts, text headers within the caps and a body within the cap, the [Full] frame the
    worker writes decodes at the edge to that status, that body and exactly the
    sanitised headers, none of which is a framing header. *)
Theorem full_response_reaches_edge caps r :
  caps_wf caps -> 100 <= resp_status r <= 599 ->
  forallb (fun h => utf8 (fst h) && utf8 (snd h)) (resp_headers r) = true ->
  forallb header_fits (resp_headers r) = true ->
  zlen (resp_headers r) <= Z.min u16_max (max_headers caps) ->
  header_total (resp_headers r) <= max_header_bytes caps ->
  zlen (resp_body r) <= max_body_bytes caps ->
  Forall (fun h => one_of (to_ascii_lowercase (fst h)) framing_names = false)
    (sanitize_response_headers (resp_headers r)) /\
  decode_response (response_envelope (full_frame r)) caps = Ok (full_frame r).
Proof.
  intros Hc Hs HU HF HC HT HB. destruct (sanitize_headers_ok caps _ HU HF HC HT) as [Hok Hfr].
  split; [assumption|].
  apply (denotes_tiled _ (fun r b => response_ok caps r /\ b = response_envelope r));
    [apply denotes_response, Hc|]. split; [|reflexivity].
  split; [|exact (conj Hs (conj Hok HB))]. unfold full_frame, response_fits. rewrite (headers_ok_fit _ _ Hok).
  destruct Hc as (_ & _ & Hm). unfold is_u32 in Hm. rewrite (proj2 (Z.leb_le _ _)) by lia. reflexivity.
Qed.

Lemma full_response_reaches_edge_witness :
  let r := {| resp_status := 200; resp_headers := [(bs "X", bs "1"); (bs "Content-Length", bs "9")]; resp_body := bs "ok" |} in
  decode_response (response_envelope (Full 200 [(bs "X", bs "1")] (bs "ok"))) sample_caps
  = Ok (Full 200 [(bs "X", bs "1")] (bs "ok")).
Proof.
  apply (full_response_reaches_edge sample_caps
    {| resp_status := 200; resp_headers := [(bs "X", bs "1"); (bs "Content-Length", bs "9")]; resp_body := bs "ok" |}
    sample_caps_wf); vm_compute; try split; congruence.
Defined.
