(* ===== verification/WorkerServe.v ===== *)
(** * WorkerServe: the worker's HTTP/1.1 responses and connection handler

    Model of the response writers and of [handle_connection] in
    [crates/oxo-worker/src/native/serve.rs], and of [Config::from_env] in
    [native/config.rs]. *)

From S2P Require Import Prelude Text HeaderPolicy HopFrame Stream WorkerParser JobQueue WorkerRuby WorkerFrame.

(** ** Response heads *)

Definition reason (status : Z) : bytes :=
  if status =? 200 then bs "OK" else if status =? 400 then bs "Bad Request"
  else if status =? 403 then bs "Forbidden" else if status =? 413 then bs "Payload Too Large"
  else if status =? 431 then bs "Request Header Fields Too Large"
  else if status =? 500 then bs "Internal Server Error"
  else if status =? 503 then bs "Service Unavailable" else bs "Status".

Inductive ResponseBodyMode : Type :=
| Fixed (len : Z)
| Chunked.

(** Whether the header loop writes a header, and the line it writes. *)
Definition writes_header (h : bytes * bytes) : bool :=
  negb (one_of (to_ascii_lowercase (fst h)) framing_names)
  && valid_token (fst h) && valid_response_header_value (snd h).
Definition header_line (h : bytes * bytes) : bytes := fst h ++ bs ": " ++ snd h ++ crlf.

Definition clamp_status (status : Z) : Z := if (100 <=? status) && (status <=? 999) then status else 500.

Definition response_head (status : Z) (hs : list (bytes * bytes)) (mode : ResponseBodyMode) : bytes :=
  let status := clamp_status status in
  bs "HTTP/1.1 " ++ show_uint status ++ bs " " ++ reason status ++ crlf
  ++ concat (map (fun h => if writes_header h then header_line h else []) hs)
  ++ match mode with
     | Fixed len => bs "content-length: " ++ show_uint len ++ crlf
     | Chunked => bs "transfer-encoding: chunked" ++ crlf
     end
  ++ bs "connection: close" ++ crlf ++ crlf.
Definition write_response_head (status : Z) (hs : list (bytes * bytes)) (mode : ResponseBodyMode) : sink_op :=
  write_all (response_head status hs mode).

Definition write_response (r : WorkerResponse) : sink_op :=
  write_response_head (resp_status r) (resp_headers r) (Fixed (zlen (resp_body r))) ;!
  write_all (resp_body r).

(** ** Chunked responses *)

Definition hex_digit (n : Z) : byte := if n <? 10 then zb (48 + n) else zb (87 + n).
Fixpoint show_hex_fuel (fuel : nat) (n : Z) : bytes :=
  match fuel with
  | O => []
  | S k => if n <? 16 then [hex_digit n] else show_hex_fuel k (n / 16) ++ [hex_digit (n mod 16)]
  end.
(** [format!("{:x}")] of a 64-bit integer: at most 16 digits. *)
Definition show_hex (n : Z) : bytes := show_hex_fuel 16 n.

Fixpoint write_chunks (evs : list WorkerEvent) : sink_op :=
  match evs with
  | [] => op_ok
  | EvStart _ :: evs' => write_chunks evs'
  | EvChunk [] :: evs' => write_chunks evs'
  | EvChunk c :: evs' =>
      write_all (show_hex (zlen c) ++ crlf) ;! write_all c ;! write_all crlf ;! write_chunks evs'
  | EvEnd :: _ => op_ok
  end.

Definition last_chunk : bytes := bs "0" ++ crlf ++ crlf.

Definition write_streaming_response (evs : list WorkerEvent) : sink_op :=
  let '(head, evs') := first_head evs in
  write_response_head (head_status head) (head_headers head) Chunked ;!
  write_chunks evs' ;! write_all last_chunk.

(** ** One connection *)

Section Connection.
Variable order : hmap -> hmap.

(** [handle_connection]; the frame loop and the HTTP path see the environment's turns. *)
Definition handle_connection (fuel : nat) (env : nat -> turn) (max_body : Z) (streaming : bool)
    (s : stream) (k : sink) : sink :=
  match try_handle_frame_connection fuel env max_body streaming s k with
  | (None, _, k') => k'
  | (Some true, _, k') => k'
  | (Some false, s', k') =>
      let t := env 0%nat in
      match parse_request order s' max_body with
      | (Ok w, _) =>
          if streaming
          then fst (write_streaming_response (dispatch_streaming_request (t_queue t) (t_events t) w) k')
          else fst (write_response (dispatch_buffered_request (t_queue t) (t_answer t) w) k')
      | (Err e, _) => fst (write_response (response_text (pe_status e) (pe_message e)) k')
      end
  end.
End Connection.

(** ** Configuration *)

Record Config : Type := {
  cfg_app : bytes; cfg_socket : bytes; cfg_threads : Z; cfg_max_body_bytes : Z;
  cfg_rack_lint : bool; cfg_multiprocess : bool; cfg_streaming : bool;
}.
Definition DEFAULT_MAX_BODY_BYTES : Z := 1024 * 1024.

Section Env.
(** The process environment; a variable that is not Unicode counts as unset for
    [std::env::var], and is used as it is by [var_os]. *)
Variable var_os : bytes -> option bytes.

Definition var (name : bytes) : option bytes :=
  match var_os name with Some v => if utf8 v then Some v else None | None => None end.

Definition env_path (name : bytes) : result bytes bytes :=
  match var_os name with
  | Some (b :: v) => Ok (b :: v)
  | _ => Err (name ++ bs " is required")
  end.
Definition env_usize (name : bytes) (dflt : Z) : result bytes Z :=
  match var name with
  | Some s => if bool_decide (trim s = []) then Ok dflt
              else ok_or (parse_uint u64_max (trim s)) (name ++ bs " must be an unsigned integer")
  | None => Ok dflt
  end.
Definition env_bool (name : bytes) (dflt : bool) : result bytes bool :=
  match var name with
  | Some s =>
      if bool_decide (trim s = []) then Ok dflt
      else if one_of (trim s) ["1"; "true"; "TRUE"; "yes"; "YES"]%string then Ok true
      else if one_of (trim s) ["0"; "false"; "FALSE"; "no"; "NO"]%string then Ok false
      else Err (name ++ bs " must be 0/1 or true/false")
  | None => Ok dflt
  end.

Definition from_env : result bytes Config :=
  let? app := env_path (bs "OXO_WORKER_APP") in
  let? socket := env_path (bs "OXO_WORKER_SOCKET") in
  let? threads := env_usize (bs "OXO_WORKER_THREADS") 1 in
  if threads =? 0 then Err (bs "OXO_WORKER_THREADS must be >= 1")
  else
    let? max_body_bytes := env_usize (bs "OXO_WORKER_MAX_BODY") DEFAULT_MAX_BODY_BYTES in
    let? rack_lint := env_bool (bs "OXO_WORKER_RACK_LINT") false in
    let? multiprocess := env_bool (bs "OXO_WORKER_MULTIPROCESS") false in
    let? streaming := env_bool (bs "OXO_WORKER_STREAMING") false in
    Ok {| cfg_app := app; cfg_socket := socket; cfg_threads := threads; cfg_max_body_bytes := max_body_bytes;
          cfg_rack_lint := rack_lint; cfg_multiprocess := multiprocess; cfg_streaming := streaming |}.
End Env.
