(* ===== verification/ClientRequest.v ===== *)
(** * ClientRequest: admission of client requests at the edge

    Model of the request validators of
    [crates/oxo-pingora-edge/src/platform/worker_wire.rs]: the shared header
    arithmetic, the public-host gate, [validate_client_request],
    [validate_grpc_unary_request] and [validate_action_cable_request].  Errors are the
    HTTP status the edge answers with.  The request head is what the HTTP library
    hands over: [client_head] holds the results of its accessors. *)

From S2P Require Import Prelude Text HeaderPolicy EdgeHeaders.

Definition MAX_REQUEST_HEADERS : Z := 100.
Definition MAX_REQUEST_HEADER_BYTES : Z := 64 * 1024.

Record client_head : Type := {
  http2 : bool;                       (** [version == HTTP_2] *)
  rq_method : bytes;
  path_and_query : option bytes;
  uri_path : bytes;
  uri_scheme : option bytes;
  authority : option bytes;
}.

(** ** Shared checks *)

Definition header_name_bytes : list Z := [33; 35; 36; 37; 38; 39; 42; 43; 45; 46; 94; 95; 96; 124; 126].
Definition is_valid_header_name (s : bytes) : bool :=
  negb (bool_decide (s = []))
  && forallb (fun b => is_ascii_alphanumeric b || existsb (Z.eqb (bz b)) header_name_bytes) s.
Definition has_invalid_header_value_bytes (s : bytes) : bool :=
  existsb (fun b => (bz b <=? 8) || ((10 <=? bz b) && (bz b <=? 31)) || (bz b =? 127)) s.

Definition accumulate_header_bytes (header_bytes : Z) (name value : bytes) : result Z Z :=
  if negb (is_valid_header_name name) then Err 400
  else
    let header_bytes :=
      saturating_add (saturating_add (saturating_add header_bytes (zlen name)) (zlen value)) 4 in
    if header_bytes >? MAX_REQUEST_HEADER_BYTES then Err 431 else Ok header_bytes.

Definition colon : byte := zb 58.
Definition lbracket : byte := zb 91.
Definition rbracket : byte := zb 93.
Definition slash : byte := zb 47.

(** [host.split_once(':').map(|(name, _)| name).unwrap_or(host)] *)
Definition before_colon (host : bytes) : bytes :=
  match split_once colon host with Some (name, _) => name | None => host end.
Definition host_matches_server_name (presented expected : bytes) : bool :=
  let host := trim presented in
  let plain := eq_ignore_case (before_colon host) expected in
  match host with
  | b :: rest =>
      if decide (b = lbracket)
      then match split_once rbracket rest with
           | Some (inside, _) => eq_ignore_case inside expected
           | None => plain
           end
      else plain
  | [] => plain
  end.

Definition check_public_host (expected presented : bytes) (host_value : option bytes)
    : result Z unit :=
  if negb (host_matches_server_name presented expected) then Err 421
  else match host_value with
       | Some host => if negb (host_matches_server_name host expected) then Err 421 else Ok tt
       | None => Ok tt
       end.

(** [content_length]: at most one header, an unsigned 64-bit number. *)
Fixpoint content_length_from (seen : option Z) (hs : list LoweredHeader) : result Z (option Z) :=
  match hs with
  | [] => Ok seen
  | h :: hs' =>
      if eq_bytes (lower h) (bs "content-length") then
        match seen with
        | Some _ => Err 400
        | None => let? n := ok_or (parse_uint u64_max (trim (lh_value h))) 400 in
                  content_length_from (Some n) hs'
        end
      else content_length_from seen hs'
  end.
Definition content_length (hs : list LoweredHeader) : result Z (option Z) := content_length_from None hs.

(** ** Ordinary client requests *)

(** What a validator's header loop carries. *)
Record scan : Type := { sc_bytes : Z; sc_hosts : Z; sc_host : option bytes }.

Definition refused_names : list string :=
  ["expect"; "trailer"; "transfer-encoding"; "http2-settings"; "keep-alive"; "proxy-connection"]%string.
Definition close_token (t : bytes) : bool :=
  bool_decide (trim t = []) || eq_ignore_case (trim t) (bs "close").

(** One turn of the loop of [validate_client_request]. *)
Definition scan_client (is_h2 : bool) (sc : scan) (h : LoweredHeader) : result Z scan :=
  let value := lh_value h in
  let? total := accumulate_header_bytes (sc_bytes sc) (lh_name h) value in
  let lo := lower h in
  let sc' :=
    if eq_bytes lo (bs "host")
    then {| sc_bytes := total; sc_hosts := sc_hosts sc + 1; sc_host := Some value |}
    else {| sc_bytes := total; sc_hosts := sc_hosts sc; sc_host := sc_host sc |} in
  if eq_bytes lo (bs "te")
  then if is_h2 && eq_ignore_case (trim value) (bs "trailers") then Ok sc' else Err 400
  else if one_of lo refused_names then Err 400
  else if eq_bytes lo (bs "connection") && negb (forallb close_token (split_byte comma value))
  then Err 400
  else Ok sc'.

Fixpoint scan_headers {S} (turn : S -> LoweredHeader -> result Z S) (sc : S)
    (hs : list LoweredHeader) : result Z S :=
  match hs with
  | [] => Ok sc
  | h :: hs' => let? sc' := turn sc h in scan_headers turn sc' hs'
  end.
Definition empty_scan : scan := {| sc_bytes := 0; sc_hosts := 0; sc_host := None |}.

(** The checks on the request target that precede the headers. *)
Definition check_target (r : client_head) : result Z unit :=
  match path_and_query r with
  | None => Err 400
  | Some pq =>
      if negb (starts_with [slash] pq) then Err 400
      else if http2 r then
        if match uri_scheme r with
           | Some scheme => negb (eq_ignore_case scheme (bs "https"))
           | None => false
           end then Err 400
        else match authority r with None => Err 400 | Some _ => Ok tt end
      else if bool_decide (is_Some (uri_scheme r)) || bool_decide (is_Some (authority r)) then Err 400
      else Ok tt
  end.

Definition check_host_count (r : client_head) (sc : scan) : result Z unit :=
  if sc_hosts sc >? 1 then Err 400
  else if http2 r then
    match sc_host sc, authority r with
    | Some host, Some auth => if negb (eq_ignore_case host auth) then Err 400 else Ok tt
    | _, _ => Ok tt
    end
  else if negb (sc_hosts sc =? 1) then Err 400 else Ok tt.

Definition check_length (hs : list LoweredHeader) (max_body : Z) : result Z (option Z) :=
  let? len := content_length hs in
  match len with
  | Some n => if n >? max_body then Err 413 else Ok (Some n)
  | None => Ok None
  end.

Definition validate_client_request (r : client_head) (hs : list LoweredHeader) (max_body : Z)
    (public_server_name : option bytes) : result Z (option Z) :=
  let? _ := check_target r in
  if eq_ignore_case (rq_method r) (bs "CONNECT") then Err 400
  else if zlen hs >? MAX_REQUEST_HEADERS then Err 431
  else
    let? sc := scan_headers (scan_client (http2 r)) empty_scan hs in
    let? _ := check_host_count r sc in
    let? _ :=
      match public_server_name with
      | Some expected =>
          let? presented := ok_or (if http2 r then authority r else sc_host sc) 400 in
          check_public_host expected presented (sc_host sc)
      | None => Ok tt
      end in
    check_length hs max_body.

(** ** Native gRPC *)

Record grpc_scan : Type := {
  g_scan : scan;
  g_types : Z;         (** [content_type_count] *)
  g_native : bool;
  g_trailers : bool;
  g_timeouts : Z;
}.
Definition empty_grpc : grpc_scan :=
  {| g_scan := empty_scan; g_types := 0; g_native := false; g_trailers := false; g_timeouts := 0 |}.
Definition grpc_refused_names : list string :=
  ["connection"; "upgrade"; "transfer-encoding"; "expect"; "trailer"; "http2-settings"; "keep-alive";
   "proxy-connection"]%string.

Definition scan_grpc (g : grpc_scan) (h : LoweredHeader) : result Z grpc_scan :=
  let value := lh_value h in
  let? total := accumulate_header_bytes (sc_bytes (g_scan g)) (lh_name h) value in
  let lo := lower h in
  let sc := g_scan g in
  let keep := {| sc_bytes := total; sc_hosts := sc_hosts sc; sc_host := sc_host sc |} in
  let set s t n r o := {| g_scan := s; g_types := t; g_native := n; g_trailers := r; g_timeouts := o |} in
  if eq_bytes lo (bs "host")
  then Ok (set {| sc_bytes := total; sc_hosts := sc_hosts sc + 1; sc_host := Some value |}
             (g_types g) (g_native g) (g_trailers g) (g_timeouts g))
  else if eq_bytes lo (bs "content-type")
  then if is_grpc_web_content_type value then Err 415
       else Ok (set keep (g_types g + 1) (is_native_grpc_content_type value) (g_trailers g) (g_timeouts g))
  else if eq_bytes lo (bs "te")
  then if eq_ignore_case (trim value) (bs "trailers")
       then Ok (set keep (g_types g) (g_native g) true (g_timeouts g)) else Err 400
  else if eq_bytes lo (bs "grpc-timeout")
  then if (g_timeouts g + 1 >? 1) || negb (is_valid_grpc_timeout value) then Err 400
       else Ok (set keep (g_types g) (g_native g) (g_trailers g) (g_timeouts g + 1))
  else if one_of lo grpc_refused_names then Err 400
  else Ok (set keep (g_types g) (g_native g) (g_trailers g) (g_timeouts g)).

Definition is_native_grpc_request_attempt (hs : list LoweredHeader) : bool :=
  existsb (fun h => eq_bytes (lower h) (bs "content-type") && is_native_grpc_content_type (lh_value h)) hs.

Definition validate_grpc_unary_request (r : client_head) (hs : list LoweredHeader) (max_body : Z)
    (public_server_name : option bytes) : result Z unit :=
  if negb (http2 r) || negb (eq_bytes (rq_method r) (bs "POST")) then Err 400
  else
    let? pq := ok_or (path_and_query r) 400 in
    if negb (starts_with [slash] pq) then Err 400
    else if match uri_scheme r with
            | Some scheme => negb (eq_ignore_case scheme (bs "https"))
            | None => false
            end then Err 400
    else
      let? auth := ok_or (authority r) 400 in
      if zlen hs >? MAX_REQUEST_HEADERS then Err 431
      else
        let? g := scan_headers scan_grpc empty_grpc hs in
        if (sc_hosts (g_scan g) >? 1) || negb (g_types g =? 1) || negb (g_native g)
           || negb (g_trailers g) then Err 400
        else if match sc_host (g_scan g) with
                | Some host => negb (eq_ignore_case host auth)
                | None => false
                end then Err 400
        else
          let? _ := match public_server_name with
                    | Some expected => check_public_host expected auth (sc_host (g_scan g))
                    | None => Ok tt
                    end in
          let? _ := check_length hs max_body in
          Ok tt.

(** ** Action Cable *)

Definition is_valid_websocket_key (value : bytes) : bool :=
  let trimmed := trim value in
  (zlen trimmed =? 24)
  && forallb (fun b => is_ascii_alphanumeric b || existsb (fun c => bool_decide (b = c)) (bs "+/=")) trimmed.

(** [str::split_once("://")] *)
Fixpoint split_once_sub (p s : bytes) : option (bytes * bytes) :=
  if starts_with p s then Some ([], drop (length p) s)
  else match s with
       | [] => None
       | x :: s' => match split_once_sub p s' with Some (l, r) => Some (x :: l, r) | None => None end
       end.

Definition default_port (url_scheme : bytes) (port : Z) : bool :=
  (eq_bytes url_scheme (bs "http") && (port =? 80)) || (eq_bytes url_scheme (bs "https") && (port =? 443)).

Definition origin_matches_edge (origin url_scheme server_name : bytes) (server_port : Z) : bool :=
  match split_once_sub (bs "://") (trim origin) with
  | None => false
  | Some (scheme, rest) =>
      if negb (eq_ignore_case scheme url_scheme) || contains_byte slash rest then false
      else if negb (host_matches_server_name rest server_name) then false
      else
        match rsplit_once colon rest with
        | Some (host, port) =>
            if negb (ends_with [rbracket] host)
            then match parse_uint u16_max port with Some p => p =? server_port | None => false end
            else default_port url_scheme server_port
        | None => default_port url_scheme server_port
        end
  end.

Record cable_scan : Type := {
  c_scan : scan;
  c_upgrade : bool;     (** [connection_upgrade] *)
  c_websocket : bool;   (** [upgrade_websocket] *)
  c_key : bool;
  c_version : bool;
  c_protocol : bool;
  c_origin : option bytes;
}.
Definition empty_cable : cable_scan :=
  {| c_scan := empty_scan; c_upgrade := false; c_websocket := false; c_key := false; c_version := false;
     c_protocol := false; c_origin := None |}.
Definition cable_refused_names : list string :=
  ["content-length"; "transfer-encoding"; "expect"; "trailer"; "http2-settings"; "keep-alive";
   "proxy-connection"]%string.
Definition has_token (token : string) (value : bytes) : bool :=
  existsb (fun t => eq_ignore_case (trim t) (bs token)) (split_byte comma value).

Definition scan_cable (c : cable_scan) (h : LoweredHeader) : result Z cable_scan :=
  let value := lh_value h in
  let? total := accumulate_header_bytes (sc_bytes (c_scan c)) (lh_name h) value in
  let lo := lower h in
  let sc := c_scan c in
  let keep := {| sc_bytes := total; sc_hosts := sc_hosts sc; sc_host := sc_host sc |} in
  let set s u w k v p o := {| c_scan := s; c_upgrade := u; c_websocket := w; c_key := k; c_version := v;
                              c_protocol := p; c_origin := o |} in
  if eq_bytes lo (bs "host")
  then Ok (set {| sc_bytes := total; sc_hosts := sc_hosts sc + 1; sc_host := Some value |}
             (c_upgrade c) (c_websocket c) (c_key c) (c_version c) (c_protocol c) (c_origin c))
  else if eq_bytes lo (bs "connection")
  then Ok (set keep (c_upgrade c || has_token "upgrade" value) (c_websocket c) (c_key c) (c_version c)
             (c_protocol c) (c_origin c))
  else if eq_bytes lo (bs "upgrade")
  then Ok (set keep (c_upgrade c) (eq_ignore_case (trim value) (bs "websocket")) (c_key c) (c_version c)
             (c_protocol c) (c_origin c))
  else if eq_bytes lo (bs "sec-websocket-key")
  then Ok (set keep (c_upgrade c) (c_websocket c) (is_valid_websocket_key value) (c_version c)
             (c_protocol c) (c_origin c))
  else if eq_bytes lo (bs "sec-websocket-version")
  then Ok (set keep (c_upgrade c) (c_websocket c) (c_key c) (eq_bytes (trim value) (bs "13"))
             (c_protocol c) (c_origin c))
  else if eq_bytes lo (bs "sec-websocket-protocol")
  then Ok (set keep (c_upgrade c) (c_websocket c) (c_key c) (c_version c)
             (has_token "actioncable-v1-json" value) (c_origin c))
  else if eq_bytes lo (bs "origin")
  then Ok (set keep (c_upgrade c) (c_websocket c) (c_key c) (c_version c) (c_protocol c) (Some value))
  else if one_of lo cable_refused_names then Err 400
  else Ok (set keep (c_upgrade c) (c_websocket c) (c_key c) (c_version c) (c_protocol c) (c_origin c)).

Definition is_action_cable_upgrade_attempt (r : client_head) (hs : list LoweredHeader) : bool :=
  eq_bytes (uri_path r) (bs "/cable")
  && existsb (fun h => eq_bytes (lower h) (bs "upgrade") && eq_ignore_case (trim (lh_value h)) (bs "websocket")) hs.

Definition validate_action_cable_request (r : client_head) (hs : list LoweredHeader)
    (public_server_name : option bytes) (url_scheme server_name : bytes) (server_port : Z)
    : result Z unit :=
  if http2 r then Err 400
  else if negb (eq_bytes (rq_method r) (bs "GET")) || negb (eq_bytes (uri_path r) (bs "/cable")) then Err 400
  else if bool_decide (is_Some (uri_scheme r)) || bool_decide (is_Some (authority r)) then Err 400
  else if zlen hs >? MAX_REQUEST_HEADERS then Err 431
  else
    let? c := scan_headers scan_cable empty_cable hs in
    if negb (sc_hosts (c_scan c) =? 1) then Err 400
    else
      let? host := ok_or (sc_host (c_scan c)) 400 in
      if match public_server_name with
         | Some expected => negb (host_matches_server_name host expected)
         | None => false
         end then Err 421
      else if negb (host_matches_server_name host server_name) then Err 421
      else if negb (c_upgrade c) || negb (c_websocket c) || negb (c_key c) || negb (c_version c)
              || negb (c_protocol c) then Err 400
      else match c_origin c with
           | None => Err 403
           | Some origin =>
               if negb (origin_matches_edge origin url_scheme server_name server_port) then Err 403
               else Ok tt
           end.

(** ** What the header loops compute *)

Definition is_host (h : LoweredHeader) : bool := eq_bytes (lower h) (bs "host").
Definition hosts (hs : list LoweredHeader) : list bytes := map lh_value (List.filter is_host hs).
Definition header_size (h : LoweredHeader) : Z := zlen (lh_name h) + zlen (lh_value h) + 4.
Fixpoint headers_size (hs : list LoweredHeader) : Z :=
  match hs with [] => 0 | h :: hs' => header_size h + headers_size hs' end.

Lemma header_size_pos h : 4 <= header_size h.
Proof. unfold header_size. pose proof (zlen_nonneg (lh_name h)). pose proof (zlen_nonneg (lh_value h)). lia. Qed.
Lemma headers_size_nonneg hs : 0 <= headers_size hs.
Proof. induction hs as [|h hs IH]; simpl; [lia|]. pose proof (header_size_pos h). lia. Qed.

Lemma accumulate_ok total name value total' :
  0 <= total <= MAX_REQUEST_HEADER_BYTES ->
  accumulate_header_bytes total name value = Ok total' <->
  is_valid_header_name name = true /\ total' = total + zlen name + zlen value + 4 /\
  total' <= MAX_REQUEST_HEADER_BYTES.
Proof.
  intros Ht. unfold accumulate_header_bytes, MAX_REQUEST_HEADER_BYTES in *.
  pose proof (zlen_nonneg name). pose proof (zlen_nonneg value).
  destruct (is_valid_header_name name); cbn [negb]; [|split; [discriminate | intros [? _]; discriminate]].
  split.
  - intros H1. inv_result. split; [reflexivity|]. int_lia.
  - intros (_ & -> & Hle). cases_if; [int_lia|]. f_equal. int_lia.
Qed.

(** The loops of the three validators share one shape: a check of each header on its own,
    and a running summary of size and hosts. *)
Definition host_scan (sc : scan) (hs : list LoweredHeader) : scan :=
  {| sc_bytes := sc_bytes sc + headers_size hs;
     sc_hosts := sc_hosts sc + zlen (hosts hs);
     sc_host := match list.last (hosts hs) with Some v => Some v | None => sc_host sc end |}.

Lemma host_scan_nil sc : host_scan sc [] = sc.
Proof. unfold host_scan. destruct sc. cbn. rewrite !Z.add_0_r. reflexivity. Qed.
Lemma host_scan_cons sc h hs :
  host_scan (host_scan sc [h]) hs = host_scan sc (h :: hs).
Proof.
  unfold host_scan, hosts. cbn [sc_bytes sc_hosts sc_host headers_size List.filter map].
  destruct (is_host h); cbn [map]; rewrite ?list.last_cons, ?zlen_cons, ?zlen_nil; f_equal; try lia.
  all: first [unfold zlen; cbn [length]; lia
             | destruct (list.last (map lh_value (List.filter is_host hs))); reflexivity].
Qed.

Definition client_header_ok (is_h2 : bool) (h : LoweredHeader) : Prop :=
  is_valid_header_name (lh_name h) = true /\
  (lower h = bs "te" -> is_h2 = true /\ eq_ignore_case (trim (lh_value h)) (bs "trailers") = true) /\
  one_of (lower h) refused_names = false /\
  (lower h = bs "connection" -> forallb close_token (split_byte comma (lh_value h)) = true).

Lemma scan_client_ok is_h2 sc h sc' :
  0 <= sc_bytes sc <= MAX_REQUEST_HEADER_BYTES ->
  scan_client is_h2 sc h = Ok sc' <->
  client_header_ok is_h2 h /\ sc_bytes sc' <= MAX_REQUEST_HEADER_BYTES /\ sc' = host_scan sc [h].
Proof.
  intros Hs. unfold scan_client, client_header_ok.
  assert (HS : forall total, total = sc_bytes sc + zlen (lh_name h) + zlen (lh_value h) + 4 ->
    (if eq_bytes (lower h) (bs "host")
     then {| sc_bytes := total; sc_hosts := sc_hosts sc + 1; sc_host := Some (lh_value h) |}
     else {| sc_bytes := total; sc_hosts := sc_hosts sc; sc_host := sc_host sc |}) = host_scan sc [h]).
  { intros total ->. unfold host_scan, hosts, headers_size, header_size. cbn [List.filter]. unfold is_host.
    destruct (eq_bytes (lower h) (bs "host")); cbn [map list.last]; f_equal; try reflexivity;
      unfold zlen; cbn [length]; lia. }
  split.
  - intros H. inv_result. apply accumulate_ok in Ha as (Hv & -> & Hle); [|assumption].
    cbn zeta in H. rewrite HS in H by reflexivity.
    destruct (eq_bytes (lower h) (bs "te")) eqn:Te.
    + apply eq_bytes_true in Te. destruct (is_h2 && _) eqn:G; [|discriminate]. injection H as <-.
      apply andb_true_iff in G. rewrite Te. split; [|split; [|reflexivity]].
      * repeat split; try (intros; tauto); try assumption; discriminate.
      * cbn. unfold header_size. lia.
    + destruct (one_of _ _) eqn:R; [discriminate|].
      destruct (_ && _) eqn:C; [discriminate|]. injection H as <-. split; [|split; [|reflexivity]].
      * split; [assumption|]. split; [intros E; rewrite E in Te; discriminate|]. split; [reflexivity|].
        intros E. rewrite E in C. apply negb_false_iff in C. exact C.
      * cbn. unfold header_size. lia.
  - intros ((Hv & Hte & Hr & Hc) & Hle & ->).
    assert (accumulate_header_bytes (sc_bytes sc) (lh_name h) (lh_value h)
            = Ok (sc_bytes sc + zlen (lh_name h) + zlen (lh_value h) + 4)) as ->.
    { apply accumulate_ok; [assumption|]. cbn in Hle. unfold header_size in Hle. repeat split; [assumption|lia]. }
    cbn [rbind]. rewrite HS by reflexivity.
    destruct (eq_bytes (lower h) (bs "te")) eqn:Te.
    + apply eq_bytes_true, Hte in Te as [-> ->]. reflexivity.
    + rewrite Hr. destruct (eq_bytes (lower h) (bs "connection")) eqn:C; [|reflexivity].
      apply eq_bytes_true, Hc in C. rewrite C. reflexivity.
Qed.

Lemma scan_client_all is_h2 hs sc sc' :
  0 <= sc_bytes sc <= MAX_REQUEST_HEADER_BYTES ->
  scan_headers (scan_client is_h2) sc hs = Ok sc' <->
  Forall (client_header_ok is_h2) hs /\ sc_bytes sc + headers_size hs <= MAX_REQUEST_HEADER_BYTES /\
  sc' = host_scan sc hs.
Proof.
  revert sc. induction hs as [|h hs IH]; intros sc Hs; cbn [scan_headers].
  - rewrite host_scan_nil. split; [intros [= <-] | intros (_ & _ & ->); reflexivity].
    split; [constructor|]. cbn. split; [lia | reflexivity].
  - rewrite rbind_ok, Forall_cons_iff, <- host_scan_cons. pose proof (header_size_pos h).
    pose proof (headers_size_nonneg hs). cbn [headers_size].
    split.
    + intros (sc1 & H1 & H2). apply scan_client_ok in H1 as (O1 & L1 & ->); [|assumption].
      assert (sc_bytes (host_scan sc [h]) = sc_bytes sc + header_size h) as E by (cbn; lia).
      rewrite E in L1. apply IH in H2 as (O2 & L2 & ->); [|lia]. rewrite E in L2.
      split; [split; assumption|]. split; [lia | reflexivity].
    + intros ((O1 & O2) & L & ->). exists (host_scan sc [h]).
      assert (sc_bytes (host_scan sc [h]) = sc_bytes sc + header_size h) as E by (cbn; lia).
      rewrite scan_client_ok by assumption. rewrite IH by (rewrite E; lia). rewrite E.
      split; [split; [assumption|]; split; [lia | reflexivity]|]. split; [assumption|].
      split; [lia | reflexivity].
Qed.

(** ** Specification of an admissible client request *)

Definition target_ok (r : client_head) : Prop :=
  (exists pq, path_and_query r = Some pq /\ starts_with [slash] pq = true) /\
  if http2 r
  then is_Some (authority r) /\ (forall s, uri_scheme r = Some s -> eq_ignore_case s (bs "https") = true)
  else uri_scheme r = None /\ authority r = None.

Definition hosts_ok (r : client_head) (hs : list LoweredHeader) : Prop :=
  match hosts hs with
  | [] => http2 r = true
  | [v] => http2 r = true -> forall a, authority r = Some a -> eq_ignore_case v a = true
  | _ => False
  end.

Definition public_name_ok (r : client_head) (hs : list LoweredHeader) (name : option bytes) : Prop :=
  forall expected, name = Some expected ->
    Forall (fun v => host_matches_server_name v expected = true) (hosts hs) /\
    (http2 r = true -> exists a, authority r = Some a /\ host_matches_server_name a expected = true).

Lemma check_target_ok r u : check_target r = Ok u <-> target_ok r.
Proof.
  unfold check_target, target_ok. destruct u, (path_and_query r) as [pq|];
    [|split; [discriminate | intros [(? & ? & _) _]; discriminate]].
  destruct (starts_with [slash] pq) eqn:S; cbn [negb];
    [|split; [discriminate | intros [(? & [= <-] & ?) _]; congruence]].
  assert (X : exists p, Some pq = Some p /\ starts_with [slash] p = true) by eauto.
  destruct (http2 r).
  - destruct (authority r) as [a|]; [|cases_if; (split; [discriminate | intros (_ & [? ?] & _); discriminate])].
    destruct (uri_scheme r) as [sch|].
    + destruct (eq_ignore_case sch (bs "https")) eqn:Q; cbn [negb].
      * split; [intros _; split; [exact X|]; split; [eauto|]; intros ? [= <-]; exact Q | reflexivity].
      * split; [discriminate | intros (_ & _ & H)]. rewrite (H sch eq_refl) in Q. discriminate.
    + split; [intros _; split; [exact X|]; split; [eauto | discriminate] | reflexivity].
  - destruct (uri_scheme r), (authority r); cbn;
      (split; [discriminate | intros (_ & ? & ?); discriminate]) || (split; [auto | reflexivity]).
Qed.

Lemma check_host_count_ok r hs u :
  check_host_count r (host_scan empty_scan hs) = Ok u <-> hosts_ok r hs.
Proof.
  unfold check_host_count, hosts_ok, host_scan. cbn [sc_hosts sc_host empty_scan]. destruct u.
  destruct (hosts hs) as [|v [|w l]]; unfold zlen; cbn [length list.last].
  - destruct (http2 r); cbn; [|split; discriminate].
    split; [reflexivity | intros _]. reflexivity.
  - cbn. destruct (http2 r); [|split; [intros _; discriminate | reflexivity]].
    destruct (authority r) as [a|]; [|split; [intros _ _ ?; discriminate | reflexivity]].
    destruct (eq_ignore_case v a) eqn:E; cbn.
    + split; [intros _ _ ? [= <-]; exact E | reflexivity].
    + split; [discriminate | intros H]. rewrite (H eq_refl a eq_refl) in E. discriminate.
  - destruct (0 + Z.of_nat (S (S (length l))) >? 1) eqn:E; [split; [discriminate | tauto] | lia].
Qed.

Lemma check_public_host_ok expected presented host u :
  check_public_host expected presented host = Ok u <->
  host_matches_server_name presented expected = true /\
  (forall h, host = Some h -> host_matches_server_name h expected = true).
Proof.
  unfold check_public_host. destruct u, (host_matches_server_name presented expected); cbn [negb];
    [|split; [discriminate | intros [? _]; discriminate]].
  destruct host as [h|]; [|split; [split; [reflexivity | discriminate] | reflexivity]].
  destruct (host_matches_server_name h expected) eqn:E; cbn [negb].
  - split; [split; [reflexivity | intros ? [= <-]; exact E] | reflexivity].
  - split; [discriminate | intros [_ H]]. rewrite (H h eq_refl) in E. discriminate.
Qed.

Lemma check_length_ok hs max_body cl :
  check_length hs max_body = Ok cl <->
  content_length hs = Ok cl /\ (forall n, cl = Some n -> n <= max_body).
Proof.
  unfold check_length. rewrite rbind_ok. split.
  - intros (o & E & H). destruct o as [n|]; [|injection H as <-; split; [assumption | discriminate]].
    destruct (n >? max_body) eqn:L; [discriminate|]. injection H as <-.
    split; [assumption|]. intros ? [= <-]. lia.
  - intros [E H]. exists cl. split; [assumption|]. destruct cl as [n|]; [|reflexivity].
    specialize (H n eq_refl). destruct (n >? max_body) eqn:L; [lia | reflexivity].
Qed.

(** Under one Host at most, the last Host value is the only one. *)
Lemma public_check_ok r hs name u :
  hosts_ok r hs -> 
  match name with
  | Some expected =>
      rbind (ok_or (if http2 r then authority r else sc_host (host_scan empty_scan hs)) 400)
        (fun presented => check_public_host expected presented (sc_host (host_scan empty_scan hs)))
  | None => Ok tt
  end = Ok u <-> public_name_ok r hs name.
Proof.
  unfold hosts_ok, public_name_ok, host_scan. cbn [sc_host empty_scan]. intros H.
  destruct name as [e|]; [|split; [discriminate | destruct u; reflexivity]].
  rewrite rbind_ok. setoid_rewrite ok_or_ok. setoid_rewrite check_public_host_ok.
  destruct (hosts hs) as [|v [|w l]]; [| |tauto]; cbn [list.last].
  - rewrite H. split.
    + intros (a & E & M & _) e' [= <-]. split; [constructor | eauto].
    + intros G. destruct (G e eq_refl) as [_ G']. destruct (G' eq_refl) as (a & E & M).
      exists a. split; [assumption|]. split; [assumption | discriminate].
  - split.
    + intros (a & E & M & Hh) e' [= <-]. split; [repeat constructor; apply Hh; reflexivity|].
      intros H2. rewrite H2 in E. eauto.
    + intros G. destruct (G e eq_refl) as [F G']. apply Forall_cons_iff in F as [F _].
      destruct (http2 r).
      * destruct (G' eq_refl) as (a & E & M). exists a. repeat split; try assumption. intros ? [= <-]. exact F.
      * exists v. repeat split; try assumption. intros ? [= <-]. exact F.
Qed.

(** ** Properties *)

(** C33. The edge admits exactly the safe requests: [validate_client_request] succeeds iff
    the target is in origin form (an authority and no foreign scheme on HTTP/2), the
    method is not CONNECT, there are at most 100 headers of at most 64 KiB in total with
    legal names, none of them is a refused hop-by-hop header (TE only as [trailers] on
    HTTP/2, Connection only [close]), there is exactly one Host on HTTP/1.1 and none, or one
    agreeing with the authority, on HTTP/2, every presented name is the configured public
    name, and the single Content-Length, which it returns, is within the body cap. *)
Theorem validate_client_request_exact r hs max_body name cl :
  validate_client_request r hs max_body name = Ok cl <->
  target_ok r /\ eq_ignore_case (rq_method r) (bs "CONNECT") = false /\
  zlen hs <= MAX_REQUEST_HEADERS /\ headers_size hs <= MAX_REQUEST_HEADER_BYTES /\
  Forall (client_header_ok (http2 r)) hs /\ hosts_ok r hs /\ public_name_ok r hs name /\
  content_length hs = Ok cl /\ (forall n, cl = Some n -> n <= max_body).
Proof.
  unfold validate_client_request. rewrite rbind_ok. setoid_rewrite check_target_ok.
  destruct (eq_ignore_case (rq_method r) _).
  { split; [intros (_ & _ & ?); discriminate | intros (_ & ? & _); discriminate]. }
  destruct (zlen hs >? MAX_REQUEST_HEADERS) eqn:N.
  { split; [intros (_ & _ & ?); discriminate | intros (_ & _ & ? & _); lia]. }
  setoid_rewrite rbind_ok. setoid_rewrite scan_client_all; [|cbn; unfold MAX_REQUEST_HEADER_BYTES; lia].
  setoid_rewrite rbind_ok. setoid_rewrite rbind_ok. setoid_rewrite check_length_ok. cbn [sc_bytes empty_scan].
  split.
  - intros (u0 & T & sc & (F & L & ->) & u1 & HC & u2 & P & C & M). apply check_host_count_ok in HC.
    apply public_check_ok in P; [|assumption].
    refine (conj T (conj eq_refl (conj _ (conj _ (conj F (conj HC (conj P (conj C M)))))))); lia.
  - intros (T & _ & _ & L & F & HC & P & C & M). exists tt. split; [assumption|].
    exists (host_scan empty_scan hs). split; [repeat split; [assumption | lia]|].
    exists tt. split; [apply check_host_count_ok, HC|].
    exists tt. split; [apply public_check_ok; assumption|]. auto.
Qed.

Definition demo_head : client_head :=
  {| http2 := false; rq_method := bs "POST"; path_and_query := Some (bs "/a?b"); uri_path := bs "/a";
     uri_scheme := None; authority := None |}.
Definition demo_headers : list LoweredHeader :=
  [lh_new (bs "Host") (bs "Example.com:443"); lh_new (bs "Content-Length") (bs " 12 ");
   lh_new (bs "Connection") (bs "close, ")].

Lemma validate_client_request_exact_witness :
  validate_client_request demo_head demo_headers 12 (Some (bs "example.COM")) = Ok (Some 12) /\
  validate_client_request demo_head demo_headers 11 (Some (bs "example.com")) = Err 413 /\
  validate_client_request demo_head demo_headers 12 (Some (bs "example.org")) = Err 421 /\
  target_ok demo_head.
Proof.
  split; [vm_compute; reflexivity|]. split; [vm_compute; reflexivity|]. split; [vm_compute; reflexivity|].
  apply (validate_client_request_exact demo_head demo_headers 12 (Some (bs "example.com")) (Some 12)).
  vm_compute. reflexivity.
Defined.

(** ** Same-origin check of Action Cable *)

Lemma host_matches_plain host expected :
  contains_byte lbracket host = false -> trim host = host ->
  host_matches_server_name host expected = eq_ignore_case (before_colon host) expected.
Proof.
  unfold host_matches_server_name. intros H ->. destruct host as [|b host]; [reflexivity|].
  unfold contains_byte in H. cbn [existsb] in H. apply orb_false_iff in H as [H _].
  apply bool_decide_eq_false in H. rewrite decide_False by assumption. reflexivity.
Qed.

Definition is_origin (h : LoweredHeader) : bool := eq_bytes (lower h) (bs "origin").

Lemma scan_cable_ok c h c' :
  0 <= sc_bytes (c_scan c) <= MAX_REQUEST_HEADER_BYTES -> scan_cable c h = Ok c' ->
  c_scan c' = host_scan (c_scan c) [h] /\ sc_bytes (c_scan c') <= MAX_REQUEST_HEADER_BYTES /\
  c_origin c' = if is_origin h then Some (lh_value h) else c_origin c.
Proof.
  intros Hs H. unfold scan_cable in H. inv_result. apply accumulate_ok in Ha as (_ & -> & Hle); [|assumption].
  assert (HS : c_scan c' = host_scan (c_scan c) [h] <->
    c_scan c' = if is_host h
    then {| sc_bytes := sc_bytes (c_scan c) + zlen (lh_name h) + zlen (lh_value h) + 4;
            sc_hosts := sc_hosts (c_scan c) + 1; sc_host := Some (lh_value h) |}
    else {| sc_bytes := sc_bytes (c_scan c) + zlen (lh_name h) + zlen (lh_value h) + 4;
            sc_hosts := sc_hosts (c_scan c); sc_host := sc_host (c_scan c) |}).
  { unfold host_scan, hosts, headers_size, header_size. cbn [List.filter].
    destruct (is_host h); cbn [map list.last]; unfold zlen; cbn [length]; split; intros ->; f_equal; lia. }
  rewrite HS. unfold is_host, is_origin, eq_bytes in *. clear HS.
  repeat match type of H with
  | context [bool_decide (lower h = ?k)] =>
      destruct (bool_decide_reflect (lower h = k)) as [E|?];
      [rewrite E in *; repeat rewrite (bool_decide_eq_false_2 (bs _ = bs _)) by discriminate |]
  | context [if ?b then _ else _] => destruct b
  end; try discriminate; apply Ok_inj in H; subst c'; cbn [c_scan c_origin sc_bytes];
  rewrite ?bool_decide_eq_true_2 by reflexivity; rewrite ?bool_decide_eq_false_2 by assumption; auto.
Qed.

Lemma scan_cable_all c hs c' :
  0 <= sc_bytes (c_scan c) <= MAX_REQUEST_HEADER_BYTES -> scan_headers scan_cable c hs = Ok c' ->
  c_scan c' = host_scan (c_scan c) hs /\
  forall o, c_origin c' = Some o -> c_origin c = Some o \/ In o (map lh_value (List.filter is_origin hs)).
Proof.
  revert c. induction hs as [|h hs IH]; intros c Hs; cbn [scan_headers].
  - intros [= <-]. rewrite host_scan_nil. auto.
  - intros H. inv_result. apply scan_cable_ok in Ha as (S1 & B1 & O1); [|assumption].
    apply IH in H as (S2 & O2).
    + rewrite S2, S1, host_scan_cons. split; [reflexivity|]. intros o Ho. cbn [List.filter].
      destruct (O2 o Ho) as [E|Hin]; [|right; destruct (is_origin h); [right|]; exact Hin].
      rewrite O1 in E. destruct (is_origin h); [injection E as <-; right; left; reflexivity | auto].
    + rewrite S1 in *. cbn [host_scan sc_bytes headers_size] in *. pose proof (header_size_pos h). lia.
Qed.

(** Cross-site WebSocket protection: a request that [validate_action_cable_request]
    admits is an HTTP/1.1 GET of [/cable] with exactly one Host, which names this server,
    and carries an Origin header that [origin_matches_edge] accepts. *)
Theorem action_cable_requires_same_origin r hs name scheme server port :
  validate_action_cable_request r hs name scheme server port = Ok tt ->
  http2 r = false /\ rq_method r = bs "GET" /\ uri_path r = bs "/cable" /\
  exists host origin, hosts hs = [host] /\ host_matches_server_name host server = true /\
    In origin (map lh_value (List.filter is_origin hs)) /\
    origin_matches_edge origin scheme server port = true.
Proof.
  unfold validate_action_cable_request. destruct (http2 r); [discriminate|]. intros H.
  destruct (_ || _) eqn:M; [discriminate|]. apply orb_false_iff in M as [M1 M2].
  apply negb_false_iff, eq_bytes_true in M1, M2.
  destruct (_ || _); [discriminate|]. destruct (zlen hs >? _); [discriminate|]. inv_result.
  apply negb_false_iff in Heqb, Heqb1. apply scan_cable_all in Ha as [S O]; [|cbn; unfold MAX_REQUEST_HEADER_BYTES; lia].
  rewrite S in *. destruct (c_origin a) as [origin|]; [|discriminate].
  destruct (origin_matches_edge _ _ _ _) eqn:Q; [|discriminate].
  repeat split; try assumption. exists a0, origin. destruct (O origin eq_refl) as [|Hin]; [discriminate|].
  unfold host_scan in *. cbn [sc_hosts sc_host c_scan empty_cable empty_scan] in *.
  destruct (hosts hs) as [|v [|w l]]; unfold zlen in Heqb; cbn [length list.last] in *; try (exfalso; lia).
  injection Ha0 as ->. auto.
Qed.

Definition cable_head : client_head :=
  {| http2 := false; rq_method := bs "GET"; path_and_query := Some (bs "/cable"); uri_path := bs "/cable";
     uri_scheme := None; authority := None |}.
Definition cable_headers (origin : string) : list LoweredHeader :=
  [lh_new (bs "Host") (bs "app.test"); lh_new (bs "Connection") (bs "keep-alive, Upgrade");
   lh_new (bs "Upgrade") (bs "websocket"); lh_new (bs "Sec-WebSocket-Version") (bs "13");
   lh_new (bs "Sec-WebSocket-Key") (bs "dGhlIHNhbXBsZSBub25jZQ==");
   lh_new (bs "Sec-WebSocket-Protocol") (bs "actioncable-v1-json, x"); lh_new (bs "Origin") (bs origin)].

Lemma action_cable_requires_same_origin_witness :
  hosts (cable_headers "https://app.test") = [bs "app.test"] /\
  validate_action_cable_request cable_head (cable_headers "https://evil.test") None (bs "https") (bs "app.test") 443
  = Err 403.
Proof.
  split; [|vm_compute; reflexivity].
  destruct (action_cable_requires_same_origin cable_head (cable_headers "https://app.test") None (bs "https")
              (bs "app.test") 443) as (_ & _ & _ & host & origin & H & _); [vm_compute; reflexivity|].
  vm_compute in H |- *. reflexivity.
Defined.

(** The port of a bracketed IPv6 origin is not compared: with server name [::1], an
    origin [https://[::1]:p] is judged by the edge's own port alone, whatever [p] is, so a
    page served from another port of the host passes on port 443 and the edge's own page
    fails on any other port; the origin without a port never passes. *)
Theorem bracketed_origin_port_ignored p server_port :
  forallb is_ascii_digit p = true -> p <> [] ->
  origin_matches_edge (bs "https://[::1]:" ++ p) (bs "https") (bs "::1") server_port = (server_port =? 443) /\
  origin_matches_edge (bs "https://[::1]") (bs "https") (bs "::1") server_port = false.
Proof.
  intros Hd Hne. split; [|reflexivity]. unfold origin_matches_edge.
  rewrite trim_graphic; [|reflexivity|].
  2: { rewrite rev_app_distr. destruct (rev p) as [|c q] eqn:E.
       - apply (f_equal (@rev _)) in E. rewrite rev_involutive in E. contradiction.
       - cbn [app]. apply digit_graphic. rewrite forallb_forall in Hd. apply Hd, in_rev. rewrite E. left. reflexivity. }
  change (split_once_sub (bs "://") (bs "https://[::1]:" ++ p)) with (Some (bs "https", bs "[::1]:" ++ p)).
  cbn iota beta. rewrite contains_byte_app, (digits_no_byte slash p) by (assumption || reflexivity).
  change (negb (eq_ignore_case (bs "https") (bs "https")) || (contains_byte slash (bs "[::1]:") || false)) with false.
  cbn iota.
  assert (T : trim (bs "[::1]:" ++ p) = bs "[::1]:" ++ p).
  { apply trim_graphic; [reflexivity|]. rewrite rev_app_distr. destruct (rev p) as [|c q] eqn:E; [reflexivity|].
    cbn [app]. apply digit_graphic. rewrite forallb_forall in Hd. apply Hd, in_rev. rewrite E. left. reflexivity. }
  assert (host_matches_server_name (bs "[::1]:" ++ p) (bs "::1") = true) as ->.
  { unfold host_matches_server_name. rewrite T. reflexivity. }
  cbn [negb]. change (bs "[::1]:" ++ p) with (bs "[::1]" ++ [colon] ++ p).
  rewrite rsplit_once_app by (apply digits_no_byte; assumption || reflexivity).
  change (negb (ends_with [rbracket] (bs "[::1]"))) with false. cbn iota. unfold default_port.
  change (eq_bytes (bs "https") (bs "http")) with false. reflexivity.
Qed.

Lemma bracketed_origin_port_ignored_witness :
  origin_matches_edge (bs "https://[::1]:9999") (bs "https") (bs "::1") 443 = true /\
  origin_matches_edge (bs "https://[::1]:8443") (bs "https") (bs "::1") 8443 = false.
Proof.
  split.
  - apply (bracketed_origin_port_ignored (bs "9999") 443); [reflexivity | discriminate].
  - apply (bracketed_origin_port_ignored (bs "8443") 8443); [reflexivity | discriminate].
Defined.
