(* ===== verification/WorkerWire.v ===== *)
(** * WorkerWire: the edge's side of the HTTP/1.1 worker hop

    Model of the request builder and the response parser of
    [crates/oxo-pingora-edge/src/platform/worker_wire.rs].  The response header object
    belongs to the HTTP library: [HeaderLib] is the interface the edge uses of it, and
    [HeaderLaws] its documented behaviour as a case-insensitive multimap. *)

From S2P Require Import Prelude Text HeaderPolicy Stream WorkerParser ClientRequest.

Definition MAX_RESPONSE_HEADER_BYTES : Z := 64 * 1024.
Definition MAX_RESPONSE_BYTES : Z := 64 * 1024 * 1024.

(** ** Building the request *)

Definition append_header_line (request name value : bytes) : result Z bytes :=
  if negb (is_valid_header_name name) || has_invalid_header_value_bytes value then Err 400
  else Ok (request ++ name ++ bs ": " ++ value ++ crlf).

Definition owned_by_hop (h : bytes * bytes) : bool :=
  eq_ignore_case (fst h) (bs "connection") || eq_ignore_case (fst h) (bs "content-length").

(** The [for (name, value) in headers] loop. *)
Fixpoint append_header_lines (request : bytes) (hs : list (bytes * bytes)) : result Z bytes :=
  match hs with
  | [] => Ok request
  | h :: hs' =>
      if owned_by_hop h then append_header_lines request hs'
      else let? request' := append_header_line request (fst h) (snd h) in
           append_header_lines request' hs'
  end.

Definition has_host (hs : list (bytes * bytes)) : bool :=
  existsb (fun h => eq_ignore_case (fst h) (bs "host")) hs.

Definition build_worker_request (r : client_head) (hs : list (bytes * bytes)) (body : bytes)
    : result Z bytes :=
  let? path := ok_or (path_and_query r) 400 in
  let request := rq_method r ++ bs " " ++ path ++ bs " HTTP/1.1" ++ crlf in
  let? request :=
    if negb (has_host hs) then
      match authority r with
      | Some authority => append_header_line request (bs "Host") authority
      | None => Ok request
      end
    else Ok request in
  let? request := append_header_lines request hs in
  let? request := append_header_line request (bs "Content-Length") (show_uint (zlen body)) in
  let? request := append_header_line request (bs "Connection") (bs "close") in
  Ok (request ++ crlf ++ body).

(** ** Parsing the response *)

Fixpoint position_from (p s : bytes) (i : nat) : option nat :=
  if starts_with p s then Some i
  else match s with [] => None | _ :: s' => position_from p s' (S i) end.
(** [buf.windows(4).position(|w| w == b"\r\n\r\n")] *)
Definition find_header_end (s : bytes) : option nat := position_from (crlf ++ crlf) s 0.

Definition lf : byte := zb 10.
Definition cr : byte := zb 13.
Definition strip_trailing_cr (line : bytes) : bytes :=
  match rev line with
  | b :: r => if decide (b = cr) then rev r else line
  | [] => line
  end.
Definition trim_optional_whitespace (s : bytes) : bytes := trim_by is_sp_or_tab s.

(** [str::split_whitespace]: the next word and what follows it. *)
Fixpoint word_from (s : bytes) : bytes * bytes :=
  match s with
  | [] => ([], [])
  | b :: s' => match strip_one ws_fwd s with
               | Some _ => ([], s)
               | None => let '(w, r) := word_from s' in (b :: w, r)
               end
  end.
Definition next_word (s : bytes) : option (bytes * bytes) :=
  match trim_start s with
  | [] => None
  | s' => Some (word_from s')
  end.

Definition parse_status_line (line : bytes) : result Z Z :=
  if negb (utf8 line) then Err 502
  else match next_word line with
       | Some (w, rest) =>
           if negb (eq_bytes w (bs "HTTP/1.1")) then Err 502
           else match next_word rest with
                | Some (c, _) =>
                    let? code := ok_or (parse_uint u16_max c) 502 in
                    if negb ((100 <=? code) && (code <=? 599)) then Err 502 else Ok code
                | None => Err 502
                end
       | None => Err 502
       end.

(** One header line of the worker's response: its name and trimmed value. *)
Definition response_line (raw : bytes) : result Z (bytes * bytes) :=
  let line := strip_trailing_cr raw in
  match line with
  | [] => Err 502
  | b :: _ =>
      if is_sp_or_tab b then Err 502
      else match split_once WorkerParser.colon line with
           | None => Err 502
           | Some (name, rest) =>
               let value := trim_optional_whitespace rest in
               if negb (is_valid_header_name name) || has_invalid_header_value_bytes value then Err 502
               else if negb (utf8 name) then Err 502
               else Ok (name, value)
           end
  end.

Fixpoint chunked_lines (lines : list bytes) (chunked : bool) : result Z bool :=
  match lines with
  | [] => Ok chunked
  | raw :: lines' =>
      let? (name, value) := response_line raw in
      if eq_ignore_case name (bs "transfer-encoding") then
        if negb (utf8 value) then Err 502
        else if eq_ignore_case value (bs "chunked") then chunked_lines lines' true
        else Err 502
      else chunked_lines lines' chunked
  end.
Definition worker_response_is_chunked (head : bytes) : result Z bool :=
  match split_byte lf head with
  | [] => Err 502
  | _ :: lines => chunked_lines lines false
  end.

Definition hop_framing : list string := ["connection"; "content-length"; "transfer-encoding"]%string.

(** The response header object of the HTTP library. *)
Class HeaderLib (H : Type) : Type := {
  hl_build : Z -> option H;
  hl_append : bytes -> bytes -> H -> option H;
  hl_insert : bytes -> bytes -> H -> option H;
}.

Record EdgeResponse (H : Type) : Type := { er_status : Z; er_header : H; er_body : bytes }.
Arguments er_status {H}.
Arguments er_header {H}.
Arguments er_body {H}.

Section Parse.
Context {H : Type} `{HeaderLib H}.

Fixpoint append_lines (lines : list bytes) (header : H) : result Z H :=
  match lines with
  | [] => Ok header
  | raw :: lines' =>
      let? (name, value) := response_line raw in
      if one_of (to_ascii_lowercase name) hop_framing then append_lines lines' header
      else if negb (utf8 value) then Err 502
      else let? header' := ok_or (hl_append name value header) 502 in append_lines lines' header'
  end.

(** The status line and the header lines, common to both response forms. *)
Definition parse_response_head (head : bytes) : result Z (H * Z) :=
  match split_byte lf head with
  | [] => Err 502
  | status_line :: lines =>
      let? status := parse_status_line (strip_trailing_cr status_line) in
      let? header := ok_or (hl_build status) 502 in
      let? header := append_lines lines header in
      Ok (header, status)
  end.

Definition insert_close (keepalive : bool) (header : H) : result Z H :=
  if negb keepalive then ok_or (hl_insert (bs "Connection") (bs "close") header) 502 else Ok header.

Definition parse_chunked_worker_response_head (head : bytes) (keepalive : bool) : result Z (H * Z) :=
  let? (header, status) := parse_response_head head in
  let? header := insert_close keepalive header in
  Ok (header, status).

Definition parse_worker_response (bytes_ : bytes) (keepalive : bool) : result Z (EdgeResponse H) :=
  let? header_end := ok_or (find_header_end bytes_) 502 in
  if (Z.of_nat header_end >? MAX_RESPONSE_HEADER_BYTES) || (zlen bytes_ >? MAX_RESPONSE_BYTES) then Err 502
  else
    let head := take header_end bytes_ in
    let body := drop (header_end + 4) bytes_ in
    let? (header, status) := parse_response_head head in
    let? header := ok_or (hl_insert (bs "Content-Length") (show_uint (zlen body)) header) 502 in
    let? header := insert_close keepalive header in
    Ok {| er_status := status; er_header := header; er_body := body |}.
End Parse.

(** [parse_chunk_size]: hexadecimal, an optional extension after [;]. *)
Definition is_hex (b : byte) : bool := is_ascii_digit b || in_range 65 70 b || in_range 97 102 b.
Definition hex_value (b : byte) : Z :=
  if is_ascii_digit b then bz b - 48 else if in_range 65 70 b then bz b - 55 else bz b - 87.
Fixpoint parse_hex (max acc : Z) (s : bytes) : option Z :=
  match s with
  | [] => Some acc
  | b :: s' => let n := acc * 16 + hex_value b in if n <=? max then parse_hex max n s' else None
  end.
Definition semicolon : byte := zb 59.
Definition parse_chunk_size (line : bytes) : result Z Z :=
  if negb (utf8 line) then Err 502
  else
    let size := trim (match split_byte semicolon line with p :: _ => p | [] => [] end) in
    if bool_decide (size = []) || negb (forallb is_hex size) then Err 502
    else ok_or (parse_hex u64_max 0 size) 502.
