(* ===== verification/HttpHop.v ===== *)
(** * HttpHop: the two ends of the HTTP/1.1 worker hop agree

    The edge writes requests with [build_worker_request] and reads responses with
    [parse_worker_response]; the worker reads requests with [parse_request] and writes
    responses with [write_response].  The theorems relate the two programs: each end
    understands what the other one writes. *)

From S2P Require Import Prelude Text HeaderPolicy HopFrame Stream WorkerParser JobQueue WorkerRuby WorkerFrame WorkerServe ClientRequest WorkerWire.

(** Lines terminated by CRLF. *)
Definition text (ls : list bytes) : bytes := concat (map (fun l => l ++ crlf) ls).

(** ** The worker's head reader on lines *)

Lemma ends_crlf2 h b :
  ends_with (crlf ++ crlf) (h ++ [b]) = starts_with [zb 10; zb 13; zb 10; zb 13] (b :: rev h).
Proof. unfold ends_with. rewrite (rev_app_distr h). reflexivity. Qed.

Lemma head_bytes_plain b h prev d :
  bz b <> 10 -> zlen (h ++ [b]) <= MAX_HEADER_BYTES ->
  head_bytes (b :: d) h prev = head_bytes d (h ++ [b]) (bz b).
Proof.
  intros Hb Hl. cbn [head_bytes]. rewrite (proj2 (Z.eqb_neq _ _)) by assumption. cbn [andb].
  cases_if; [lia|]. rewrite ends_crlf2. cbn [starts_with]. rewrite bool_decide_eq_false_2; [reflexivity|].
  intros E. rewrite <- E in Hb. apply Hb. reflexivity.
Qed.

Lemma head_bytes_run l h prev d :
  one_line l = true -> zlen (h ++ l) <= MAX_HEADER_BYTES ->
  exists p, head_bytes (l ++ d) h prev = head_bytes d (h ++ l) p.
Proof.
  revert h prev. induction l as [|b l IH]; intros h prev Ho Hl; [exists prev; rewrite app_nil_r; reflexivity|].
  cbn [one_line forallb] in Ho. apply andb_true_iff in Ho as [Hb Ho].
  assert (L : zlen (h ++ [b]) <= MAX_HEADER_BYTES) by (pose proof (zlen_nonneg l); rewrite !zlen_app, !zlen_cons, ?zlen_nil in *; lia).
  rewrite <- app_comm_cons, head_bytes_plain by (assumption || (apply andb_true_iff in Hb; lia)).
  destruct (IH (h ++ [b]) (bz b) Ho) as [p Hp]; [rewrite <- app_assoc; exact Hl|].
  exists p. rewrite Hp, <- app_assoc. reflexivity.
Qed.

(** A non-empty line and its terminator. *)
Lemma head_bytes_line l h prev d :
  l <> [] -> one_line l = true -> zlen (h ++ l ++ crlf) <= MAX_HEADER_BYTES ->
  head_bytes ((l ++ crlf) ++ d) h prev = head_bytes d (h ++ l ++ crlf) 10.
Proof.
  intros Hne Ho Hl. rewrite <- app_assoc.
  assert (L1 : zlen (h ++ l) + 2 <= MAX_HEADER_BYTES).
  { rewrite !zlen_app in *. change (zlen crlf) with 2 in Hl. lia. }
  destruct (head_bytes_run l h prev (crlf ++ d) Ho) as [p ->]; [lia|].
  change (crlf ++ d) with (zb 13 :: zb 10 :: d). rewrite head_bytes_plain by (discriminate || (rewrite zlen_app; change (zlen [zb 13]) with 1; lia)).
  cbn [head_bytes]. change (bz (zb 10) =? 10) with true. change (bz (zb 13) =? 13) with true. cbn [andb negb].
  rewrite !zlen_app. change (zlen [zb 13]) with 1. change (zlen [zb 10]) with 1. rewrite <- zlen_app.
  cases_if; [lia|]. rewrite ends_crlf2, !rev_app_distr. cbn [rev app starts_with].
  destruct (rev l) as [|x r] eqn:E.
  { apply (f_equal (@rev _)) in E. rewrite rev_involutive in E. contradiction. }
  cbn [app starts_with]. rewrite (bool_decide_eq_false_2 (zb 10 = x)).
  - rewrite !andb_false_r. rewrite <- !app_assoc. reflexivity.
  - intros <-. assert (In (zb 10) l) as Hin by (apply in_rev; rewrite E; left; reflexivity).
    unfold one_line in Ho. rewrite forallb_forall in Ho. specialize (Ho _ Hin). discriminate.
Qed.

Lemma head_bytes_lines ls h prev d :
  Forall (fun l => l <> [] /\ one_line l = true) ls -> zlen (h ++ text ls) <= MAX_HEADER_BYTES ->
  head_bytes (text ls ++ d) h prev = head_bytes d (h ++ text ls) (match ls with [] => prev | _ => 10 end).
Proof.
  revert h prev. induction ls as [|l ls IH]; intros h prev HF Hl.
  - unfold text. cbn [map concat app]. rewrite app_nil_r. reflexivity.
  - apply Forall_cons_iff in HF as [[Hne Ho] HF]. unfold text in *. cbn [map concat] in *.
    set (t := concat (map (fun l => l ++ crlf) ls)) in *. rewrite app_assoc in Hl.
    pose proof (zlen_nonneg t). rewrite <- app_assoc, head_bytes_line; try assumption;
      [|rewrite (zlen_app (h ++ l ++ crlf)) in Hl; lia].
    rewrite IH by (try assumption; rewrite <- !app_assoc in *; exact Hl).
    rewrite <- !app_assoc. destruct ls; reflexivity.
Qed.

Lemma head_bytes_end h d :
  zlen (h ++ crlf ++ crlf) <= MAX_HEADER_BYTES ->
  head_bytes (crlf ++ d) (h ++ crlf) 10 = HDone (Ok (h ++ crlf ++ crlf)) d.
Proof.
  intros Hl. assert (L : zlen h + 4 <= MAX_HEADER_BYTES).
  { rewrite !zlen_app in Hl. change (zlen crlf) with 2 in Hl. lia. }
  change (crlf ++ d) with (zb 13 :: zb 10 :: d). rewrite head_bytes_plain; [|discriminate|rewrite !zlen_app; change (zlen crlf) with 2; change (zlen [zb 13]) with 1; lia].
  cbn [head_bytes]. change (bz (zb 10) =? 10) with true. change (bz (zb 13) =? 13) with true. cbn [andb negb].
  rewrite !zlen_app. change (zlen crlf) with 2. change (zlen [zb 13]) with 1. change (zlen [zb 10]) with 1.
  cases_if; [lia|]. rewrite ends_crlf2, !rev_app_distr. cbn [rev app starts_with].
  rewrite !bool_decide_eq_true_2 by reflexivity. cbn [andb]. rewrite <- !app_assoc. reflexivity.
Qed.

Lemma text_snoc ls : ls <> [] -> exists h, text ls = h ++ crlf.
Proof.
  intros Hne. destruct (exists_last Hne) as (ls' & l & ->). exists (text ls' ++ l).
  unfold text. rewrite map_app, concat_app. cbn [map concat]. rewrite app_nil_r, <- !app_assoc. reflexivity.
Qed.

(** The head of a message whose lines are not empty ends at the empty line. *)
Lemma head_bytes_text ls d :
  ls <> [] -> Forall (fun l => l <> [] /\ one_line l = true) ls ->
  zlen (text ls ++ crlf) <= MAX_HEADER_BYTES ->
  head_bytes (text ls ++ crlf ++ d) [] 0 = HDone (Ok (text ls ++ crlf)) d.
Proof.
  intros Hne HF Hl. rewrite head_bytes_lines; [|assumption|rewrite zlen_app in Hl; pose proof (zlen_nonneg crlf); cbn [app]; lia].
  destruct ls as [|l ls]; [contradiction|]. cbn [app]. destruct (text_snoc (l :: ls) Hne) as [h E]. rewrite E in *.
  rewrite <- app_assoc in *. apply head_bytes_end, Hl.
Qed.

Lemma split_text ls :
  Forall (fun l => one_line l = true) ls -> split_crlf (text ls ++ crlf) = ls ++ [ []; [] ].
Proof.
  induction 1 as [|l ls Ho _ IH]; [reflexivity|]. unfold text in *. cbn [map concat]. rewrite <- !app_assoc.
  change crlf with [zb 13; zb 10] at 1. rewrite split_crlf_line by assumption. rewrite IH. reflexivity.
Qed.

(** ** Header lines *)

Lemma token_byte b :
  is_ascii_alphanumeric b || contains_byte b token_punct
  = is_ascii_alphanumeric b || existsb (Z.eqb (bz b)) header_name_bytes.
Proof. destruct b; vm_compute; reflexivity. Qed.

(** The edge and the worker use the same grammar of names. *)
Lemma valid_token_header_name s : valid_token s = is_valid_header_name s.
Proof.
  unfold valid_token, is_valid_header_name. f_equal. induction s as [|b s IH]; [reflexivity|].
  cbn [forallb]. rewrite token_byte, IH. reflexivity.
Qed.

Lemma token_bytes b : is_ascii_alphanumeric b || contains_byte b token_punct = true ->
  graphic b = true /\ is_sp_or_tab b = false /\ bool_decide (b = WorkerParser.colon) = false /\
  bool_decide (b = space) = false /\ (bz b <? 128) = true /\ negb (bz b =? 13) && negb (bz b =? 10) = true.
Proof. destruct b; vm_compute; intros; try discriminate; repeat split. Qed.

Lemma valid_token_forall s : valid_token s = true ->
  s <> [] /\ Forall (fun b => is_ascii_alphanumeric b || contains_byte b token_punct = true) s.
Proof.
  unfold valid_token. rewrite andb_true_iff, negb_true_iff, bool_decide_eq_false, forallb_forall.
  intros [Hne H]. split; [exact Hne|]. apply List.Forall_forall, H.
Qed.

Lemma token_facts s : valid_token s = true ->
  s <> [] /\ trim_end s = s /\ one_line s = true /\ contains_byte WorkerParser.colon s = false /\
  contains_byte space s = false /\ utf8 s = true /\
  match s with [] => True | b :: _ => is_sp_or_tab b = false end.
Proof.
  intros [Hne HF]%valid_token_forall. rewrite List.Forall_forall in HF.
  split; [assumption|]. split.
  { destruct (exists_last Hne) as (t & b & ->). apply trim_end_graphic, token_bytes, HF.
    apply in_or_app. right. left. reflexivity. }
  split; [apply forallb_forall; intros b Hb; apply token_bytes, HF, Hb|].
  split; [apply existsb_false; intros b Hb; apply token_bytes, HF, Hb|].
  split; [apply existsb_false; intros b Hb; apply token_bytes, HF, Hb|].
  split; [apply utf8_ascii, forallb_forall; intros b Hb; apply token_bytes, HF, Hb|].
  destruct s as [|b s]; [exact I|]. apply token_bytes, HF. left. reflexivity.
Qed.

Definition hop_line (h : bytes * bytes) : bytes := fst h ++ bs ": " ++ snd h.
Definition lowered (h : bytes * bytes) : bytes * bytes := (to_ascii_lowercase (fst h), snd h).

(** A header that survives the hop as it is: a legal name, a value without control bytes
    or outer blanks, and not one the worker refuses. *)
Definition line_ok (h : bytes * bytes) : Prop :=
  is_valid_header_name (fst h) = true /\ existsb is_ctl (snd h) = false /\
  not_blank_ends (snd h) = true /\ utf8 (snd h) = true /\
  one_of (to_ascii_lowercase (fst h)) forbidden_names = false /\
  (to_ascii_lowercase (fst h) = bs "connection" -> snd h = bs "close").

Lemma no_ctl_one_line v : existsb is_ctl v = false -> one_line v = true.
Proof.
  rewrite existsb_false. intros H. apply forallb_forall. intros b Hb. specialize (H b Hb). unfold is_ctl in H. lia.
Qed.

Lemma hop_line_facts h : line_ok h -> hop_line h <> [] /\ one_line (hop_line h) = true /\ utf8 (hop_line h) = true.
Proof.
  intros (Hn & Hc & _ & Hu & _). rewrite <- valid_token_header_name in Hn.
  destruct (token_facts _ Hn) as (Hne & _ & H1 & _ & _ & Hun & _). unfold hop_line. split; [|split].
  - destruct (fst h); [contradiction | discriminate].
  - rewrite !one_line_app, H1, (no_ctl_one_line (snd h)) by assumption. reflexivity.
  - rewrite utf8_app, utf8_app by (assumption || reflexivity). exact Hu.
Qed.

Lemma parse_header_line_hop h m :
  line_ok h -> hget (to_ascii_lowercase (fst h)) m = None ->
  parse_header_line (hop_line h) m = Ok (m ++ [lowered h]).
Proof.
  intros (Hn & Hc & Hb & Hu & Hf & Hcl) Hg. rewrite <- valid_token_header_name in Hn.
  destruct (token_facts _ Hn) as (Hne & Ht & _ & Hcol & _ & _ & Hsp).
  unfold parse_header_line, hop_line.
  change (fst h ++ bs ": " ++ snd h) with (fst h ++ [WorkerParser.colon] ++ (space :: snd h)).
  rewrite split_once_app by assumption.
  destruct (fst h) as [|b n] eqn:E; [contradiction|]. rewrite <- app_comm_cons, Hsp.
  rewrite Ht, Hn, (bool_decide_eq_false_2 (b :: n = [])) by discriminate.
  rewrite (proj2 (eq_bytes_true _ _) eq_refl). cbn [negb orb]. rewrite Hg, bool_decide_eq_false_2 by (intros [? ?]; discriminate).
  rewrite trim_by_blank, trim_blanks by (assumption || reflexivity). rewrite Hc, Hf.
  unfold lowered. rewrite E. destruct (eq_bytes _ (bs "connection")) eqn:C; [|reflexivity].
  apply eq_bytes_true in C. rewrite (Hcl C). reflexivity.
Qed.

Lemma parse_lines_hop hs m count :
  Forall line_ok hs -> NoDup (map fst m ++ map (fun h => to_ascii_lowercase (fst h)) hs) ->
  0 <= count -> count + zlen hs <= MAX_HEADERS ->
  parse_lines (map hop_line hs ++ [ []; [] ]) count m = Ok (m ++ map lowered hs).
Proof.
  revert m count. induction hs as [|h hs IH]; intros m count HF ND Hc Hn.
  - cbn [map app parse_lines]. rewrite app_nil_r. reflexivity.
  - apply Forall_cons_iff in HF as [Hh HF]. cbn [map] in *. rewrite <- app_comm_cons.
    rewrite zlen_cons in Hn. pose proof (zlen_nonneg hs). cbn [parse_lines].
    destruct (hop_line_facts h Hh) as (Hne & _). destruct (hop_line h) as [|b l] eqn:E; [contradiction|].
    rewrite <- E. cases_if; [lia|]. rewrite parse_header_line_hop; [|assumption|].
    + cbn [rbind]. rewrite IH; try assumption; try lia.
      * rewrite <- app_assoc. reflexivity.
      * rewrite map_app, <- app_assoc. exact ND.
    + apply hget_notin. intros Hin. apply list.NoDup_app in ND as (_ & D & _).
      apply (D _ Hin). left.
Qed.

(** ** Requests *)

(** The header lines [build_worker_request] writes. *)
Definition hop_headers (r : client_head) (hs : list (bytes * bytes)) (body : bytes) : list (bytes * bytes) :=
  (if has_host hs then [] else match authority r with Some a => [(bs "Host", a)] | None => [] end)
  ++ List.filter (fun h => negb (owned_by_hop h)) hs
  ++ [(bs "Content-Length", show_uint (zlen body)); (bs "Connection", bs "close")].
Definition request_line (r : client_head) (pq : bytes) : bytes := rq_method r ++ bs " " ++ pq ++ bs " HTTP/1.1".
Definition request_head (r : client_head) (pq : bytes) (hs : list (bytes * bytes)) (body : bytes) : bytes :=
  text (request_line r pq :: map hop_line (hop_headers r hs body)) ++ crlf.

Lemma append_header_line_ok request n v :
  line_ok (n, v) -> append_header_line request n v = Ok (request ++ hop_line (n, v) ++ crlf).
Proof.
  intros (Hn & Hc & _). unfold append_header_line, hop_line. cbn [fst snd] in *. rewrite Hn.
  assert (has_invalid_header_value_bytes v = false) as ->.
  { apply existsb_false. intros b Hb. rewrite existsb_false in Hc. specialize (Hc b Hb). unfold is_ctl in Hc. lia. }
  cbn [negb orb]. rewrite <- !app_assoc. reflexivity.
Qed.

Lemma append_header_lines_ok request hs :
  Forall line_ok (List.filter (fun h => negb (owned_by_hop h)) hs) ->
  append_header_lines request hs
  = Ok (request ++ text (map hop_line (List.filter (fun h => negb (owned_by_hop h)) hs))).
Proof.
  revert request. induction hs as [|[n v] hs IH]; intros request HF; cbn [append_header_lines List.filter map].
  - unfold text. cbn. rewrite app_nil_r. reflexivity.
  - cbn [List.filter] in HF. destruct (owned_by_hop (n, v)); cbn [negb fst snd] in *; [apply IH, HF|].
    apply Forall_cons_iff in HF as [Hh HF]. rewrite append_header_line_ok by assumption. cbn [rbind].
    rewrite IH by assumption. unfold text. cbn [map concat]. rewrite <- !app_assoc. reflexivity.
Qed.

Lemma text_app a b : text (a ++ b) = text a ++ text b.
Proof. unfold text. rewrite map_app, concat_app. reflexivity. Qed.
Lemma text_one l : text [l] = l ++ crlf.
Proof. unfold text. cbn. apply app_nil_r. Qed.

Lemma build_worker_request_ok r pq hs body :
  path_and_query r = Some pq -> Forall line_ok (hop_headers r hs body) ->
  build_worker_request r hs body = Ok (request_head r pq hs body ++ body).
Proof.
  intros Hp HF. unfold build_worker_request, hop_headers in *. rewrite Hp. cbn [ok_or rbind].
  apply Forall_app in HF as [H1 HF]. apply Forall_app in HF as [H2 H3].
  apply Forall_cons_iff in H3 as [Hl H3]. apply Forall_cons_iff in H3 as [Hc _].
  set (q := rq_method r ++ bs " " ++ pq ++ bs " HTTP/1.1" ++ crlf).
  set (hosts := if has_host hs then [] else match authority r with Some a => [(bs "Host", a)] | None => [] end) in *.
  assert (E : (if negb (has_host hs)
               then match authority r with Some a => append_header_line q (bs "Host") a | None => Ok q end
               else Ok q) = Ok (q ++ text (map hop_line hosts))).
  { unfold hosts in *. destruct (has_host hs); cbn [negb map]; [rewrite app_nil_r; reflexivity|].
    destruct (authority r) as [a|]; cbn [map]; [|rewrite app_nil_r; reflexivity].
    apply Forall_cons_iff in H1 as [H1 _]. rewrite append_header_line_ok by assumption.
    rewrite text_one. reflexivity. }
  rewrite E. cbn [rbind]. rewrite append_header_lines_ok by assumption. cbn [rbind].
  rewrite append_header_line_ok by assumption. cbn [rbind].
  rewrite append_header_line_ok by assumption. cbn [rbind].
  unfold request_head, hop_headers. fold hosts. cbn [map]. rewrite !map_app. cbn [map].
  change (request_line r pq :: ?l) with ([request_line r pq] ++ l).
  change [hop_line ?a; hop_line ?b] with ([hop_line a] ++ [hop_line b]).
  rewrite !text_app, !text_one. unfold q, request_line. rewrite <- !app_assoc. reflexivity.
Qed.

(** What a request needs to cross the hop. *)
Record hop_request (r : client_head) (pq : bytes) (hs : list (bytes * bytes)) (body : bytes)
    (max_body : Z) (host : bytes) : Prop := {
  hr_path : path_and_query r = Some pq;
  hr_target : starts_with [slash] pq && negb (starts_with [slash; slash] pq)
              && negb (contains_sub (bs "://") pq) = true;
  hr_text : one_line pq && negb (contains_byte space pq) && utf8 pq = true;
  hr_method : valid_token (rq_method r) = true;
  hr_lines : Forall line_ok (hop_headers r hs body);
  hr_unique : NoDup (map (fun h => to_ascii_lowercase (fst h)) (hop_headers r hs body));
  hr_count : zlen (hop_headers r hs body) <= MAX_HEADERS;
  hr_size : zlen (request_head r pq hs body) <= MAX_HEADER_BYTES;
  hr_host : In (bs "host", host) (map lowered (hop_headers r hs body));
  hr_grpc : forall v, In (bs "content-type", v) (map lowered (hop_headers r hs body)) ->
            starts_with (bs "application/grpc") (to_ascii_lowercase v) = false;
  hr_body : zlen body <= max_body <= u64_max;
}.

Lemma hget_in k v m : NoDup (map fst m) -> In (k, v) m -> hget k m = Some v.
Proof.
  induction m as [|[n w] m IH]; intros ND Hin; [destruct Hin|]. rewrite hget_cons.
  cbn [map] in ND. apply list.NoDup_cons in ND as [N ND]. destruct Hin as [[= -> ->]|Hin].
  - rewrite decide_True by reflexivity. reflexivity.
  - destruct (decide (n = k)) as [->|]; [|auto]. destruct N. apply list_elem_of_In, in_map_iff. exists (k, v). auto.
Qed.

Section RequestHop.
Context (r : client_head) (pq : bytes) (hs : list (bytes * bytes)) (body : bytes) (max_body : Z) (host : bytes).
Hypothesis HR : hop_request r pq hs body max_body host.
Let all := hop_headers r hs body.

Lemma request_line_facts :
  request_line r pq <> [] /\ one_line (request_line r pq) = true /\ utf8 (request_line r pq) = true /\
  split_byte space (request_line r pq) = [rq_method r; pq; bs "HTTP/1.1"] /\ rq_method r <> [] /\ pq <> [].
Proof.
  destruct HR. clear HR. unfold request_line.
  destruct (token_facts _ hr_method0) as (Hne & _ & H1 & _ & H2 & H3 & _).
  apply andb_true_iff in hr_text0 as [T U]. apply andb_true_iff in T as [T1 T2]. apply negb_true_iff in T2.
  split; [destruct (rq_method r); [contradiction | discriminate]|].
  split; [rewrite !one_line_app, H1, T1; reflexivity|].
  split; [rewrite utf8_app, utf8_app, utf8_app by (assumption || reflexivity); reflexivity|].
  split; [|split; [assumption|]].
  - change (bs " ") with [space]. rewrite split_byte_piece by assumption.
    change (bs " HTTP/1.1") with ([space] ++ bs "HTTP/1.1"). rewrite split_byte_piece by assumption. reflexivity.
  - intros ->. discriminate.
Qed.

Lemma head_lines_ok :
  Forall (fun l => l <> [] /\ one_line l = true) (request_line r pq :: map hop_line all).
Proof.
  destruct request_line_facts as (H1 & H2 & _). constructor; [auto|].
  apply Forall_map. eapply List.Forall_impl; [|exact (hr_lines _ _ _ _ _ _ HR)]. intros h Hh.
  destruct (hop_line_facts h Hh) as (? & ? & _). auto.
Qed.

Lemma utf8_text ls : Forall (fun l => utf8 l = true) ls -> utf8 (text ls ++ crlf) = true.
Proof.
  induction 1 as [|l ls Hl _ IH]; [reflexivity|]. unfold text in *. cbn [map concat]. rewrite <- !app_assoc.
  rewrite utf8_app by assumption. rewrite utf8_app by reflexivity. exact IH.
Qed.

Lemma parse_head_hop :
  parse_head (request_head r pq hs body) = Ok (rq_method r, pq, bs "HTTP/1.1", map lowered all).
Proof.
  destruct request_line_facts as (_ & _ & U & S & N1 & N2). unfold parse_head, request_head. fold all.
  rewrite utf8_text.
  - rewrite split_text by (eapply List.Forall_impl; [|exact head_lines_ok]; cbv beta; tauto). cbn [negb app].
    rewrite S. rewrite !bool_decide_eq_false_2 by (assumption || discriminate). cbn [orb].
    rewrite (hr_method _ _ _ _ _ _ HR). cbn [negb].
    rewrite parse_lines_hop; [reflexivity | exact (hr_lines _ _ _ _ _ _ HR) | exact (hr_unique _ _ _ _ _ _ HR) | lia |].
    pose proof (hr_count _ _ _ _ _ _ HR). unfold all. lia.
  - constructor; [assumption|]. apply Forall_map. eapply List.Forall_impl; [|exact (hr_lines _ _ _ _ _ _ HR)].
    intros h Hh. apply (hop_line_facts h Hh).
Qed.

Lemma lowered_unique : NoDup (map fst (map lowered all)).
Proof.
  pose proof (hr_unique _ _ _ _ _ _ HR) as H. unfold all. rewrite map_map. exact H.
Qed.

Lemma admit_head_hop :
  admit_head max_body (rq_method r, pq, bs "HTTP/1.1", map lowered all) = Ok (host, zlen body).
Proof.
  pose proof lowered_unique as ND. unfold admit_head.
  rewrite (proj2 (eq_bytes_true _ _) eq_refl). cbn [negb].
  pose proof (hr_target _ _ _ _ _ _ HR) as T. apply andb_true_iff in T as [T T3]. apply andb_true_iff in T as [T1 T2].
  change WorkerParser.slash with slash. apply negb_true_iff in T2, T3. rewrite T1, T2, T3. cbn [negb orb].
  rewrite (hget_in _ host _ ND (hr_host _ _ _ _ _ _ HR)). cbn [ok_or rbind].
  rewrite (hget_in (bs "content-length") (show_uint (zlen body)) _ ND).
  2: { unfold all, hop_headers. rewrite !map_app. apply in_or_app. right. apply in_or_app. right. left. reflexivity. }
  pose proof (hr_body _ _ _ _ _ _ HR) as [B1 B2]. pose proof (zlen_nonneg body).
  unfold parse_content_length. rewrite bool_decide_eq_false_2 by apply show_uint_nonempty.
  rewrite show_uint_digits, parse_show_uint by lia. cbn [negb orb ok_or rbind].
  destruct (hget (bs "content-type") _) as [v|] eqn:E.
  - apply hget_some in E. rewrite (hr_grpc _ _ _ _ _ _ HR v E). cbn [unwrap_or]. cases_if; [lia | reflexivity].
  - cbn [unwrap_or]. cases_if; [lia | reflexivity].
Qed.
End RequestHop.

(** ** Properties: requests *)

(** The worker understands every request the edge builds: for a request that can cross
    the hop, [build_worker_request] succeeds, and a worker that receives those bytes, in
    pieces of any size, parses exactly the method, the target, the header lines and the
    body the edge wrote, with nothing left over.  The Content-Length the worker trusts is
    the one the edge computed. *)
Theorem worker_parses_edge_request order r pq hs body max_body host :
  hop_request r pq hs body max_body host ->
  exists wire_bytes, build_worker_request r hs body = Ok wire_bytes /\
    forall s, steady s = true -> payload s = wire_bytes ->
    exists s', parse_request order s max_body
               = (Ok (finish_request order (rq_method r, pq, bs "HTTP/1.1", map lowered (hop_headers r hs body)) host body), s')
               /\ payload s' = [].
Proof.
  intros HR. exists (request_head r pq hs body ++ body).
  split; [apply build_worker_request_ok; apply HR|]. intros s Hs Hp. unfold parse_request.
  pose proof (read_head_steady s [] 0 Hs) as R. rewrite Hp in R. unfold request_head in R at 1.
  rewrite <- app_assoc, head_bytes_text in R; [|discriminate|eapply head_lines_ok; eassumption|apply HR].
  destruct R as (s1 & -> & P1 & S1). fold (request_head r pq hs body).
  rewrite (parse_head_hop _ _ _ _ _ _ HR). cbn [rbind]. rewrite (admit_head_hop _ _ _ _ _ _ HR). cbn [rbind].
  destruct (zlen body >? 0) eqn:Z0.
  - pose proof (read_exact_intact (Z.to_nat (zlen body)) s1 (steady_intact _ S1)) as X.
    destruct (read_exact _ s1) as [o s2]. destruct X as [_ X]. rewrite P1 in X. unfold zlen in X. rewrite Nat2Z.id in X.
    rewrite Nat.leb_refl, take_ge, drop_ge in X by lia. destruct X as [-> X]. eauto.
  - destruct body as [|b body]; [eauto|]. rewrite zlen_cons in Z0. pose proof (zlen_nonneg body). lia.
Qed.

Definition hop_demo_head : client_head :=
  {| http2 := true; rq_method := bs "PUT"; path_and_query := Some (bs "/x?y=z"); uri_path := bs "/x";
     uri_scheme := Some (bs "https"); authority := Some (bs "h.test") |}.
Definition hop_demo_headers : list (bytes * bytes) :=
  [(bs "accept", bs "*/*"); (bs "connection", bs "close"); (bs "x-oxo-url-scheme", bs "https")].

Lemma hop_demo_ok :
  hop_request hop_demo_head (bs "/x?y=z") hop_demo_headers (bs "hi") 100 (bs "h.test").
Proof.
  constructor.
  - reflexivity.
  - vm_compute. reflexivity.
  - vm_compute. reflexivity.
  - vm_compute. reflexivity.
  - repeat constructor; vm_compute; congruence.
  - apply (bool_decide_unpack _). vm_compute. reflexivity.
  - vm_compute. discriminate.
  - vm_compute. discriminate.
  - left. reflexivity.
  - intros v H. vm_compute in H. repeat destruct H as [H|H]; inversion H.
  - vm_compute. split; discriminate.
Qed.

Lemma worker_parses_edge_request_witness :
  exists wire_bytes, build_worker_request hop_demo_head hop_demo_headers (bs "hi") = Ok wire_bytes /\
    forall s, steady s = true -> payload s = wire_bytes ->
    exists s', parse_request (fun m => m) s 100
      = (Ok {| w_method := bs "PUT"; w_path := bs "/x"; w_query := bs "y=z"; w_server_name := bs "h.test";
               w_server_port := 80; w_url_scheme := bs "https"; w_remote_addr := bs "127.0.0.1";
               w_headers := [(bs "host", bs "h.test"); (bs "accept", bs "*/*"); (bs "content-length", bs "2")];
               w_body := bs "hi" |}, s') /\ payload s' = [].
Proof.
  exact (worker_parses_edge_request (fun m => m) hop_demo_head (bs "/x?y=z") hop_demo_headers (bs "hi") 100
           (bs "h.test") hop_demo_ok).
Defined.

(** ** Responses: finding the head *)

Lemma position_run l s i :
  one_line l = true -> position_from (crlf ++ crlf) (l ++ s) i = position_from (crlf ++ crlf) s (i + length l).
Proof.
  revert i. induction l as [|b l IH]; intros i H; [cbn [app length]; rewrite Nat.add_0_r; reflexivity|].
  cbn [one_line forallb] in H. apply andb_true_iff in H as [Hb Hl]. rewrite <- app_comm_cons.
  cbn [position_from app crlf starts_with length]. rewrite bool_decide_eq_false_2.
  - cbn [andb]. rewrite IH by assumption. f_equal. lia.
  - intros <-. discriminate.
Qed.

Lemma position_skip b s i :
  b <> zb 13 -> position_from (crlf ++ crlf) (crlf ++ b :: s) i = position_from (crlf ++ crlf) (b :: s) (S (S i)).
Proof.
  intros Hb. change (crlf ++ b :: s) with (zb 13 :: zb 10 :: b :: s).
  change (crlf ++ crlf) with [zb 13; zb 10; zb 13; zb 10]. cbn [position_from starts_with].
  rewrite (bool_decide_eq_false_2 (zb 13 = b)) by congruence. rewrite !andb_false_r.
  rewrite (bool_decide_eq_false_2 (zb 13 = zb 10)) by discriminate. reflexivity.
Qed.

Lemma position_text ls d i :
  ls <> [] -> Forall (fun l => l <> [] /\ one_line l = true) ls ->
  position_from (crlf ++ crlf) (text ls ++ crlf ++ d) i = Some (i + length (text ls) - 2)%nat.
Proof.
  intros Hne HF. revert i Hne. induction HF as [|l ls [Hl Ho] HF IH]; intros i Hne; [contradiction|].
  change (text (l :: ls)) with ((l ++ crlf) ++ text ls).
  rewrite <- !app_assoc, position_run, !length_app by assumption. change (length crlf) with 2%nat.
  destruct ls as [|l2 ls].
  - change (text []) with (@nil byte). cbn [app length].
    assert (forall j, position_from (crlf ++ crlf) (crlf ++ crlf ++ d) j = Some j) as -> by reflexivity. f_equal. lia.
  - apply Forall_cons_iff in HF as [[Hl2 Ho2] _]. specialize (IH (S (S (i + length l))) ltac:(discriminate)).
    assert (exists b t, text (l2 :: ls) = b :: t /\ b <> zb 13) as (b & t & E & Hb).
    { destruct l2 as [|b l2]; [contradiction|]. exists b. eexists. split; [reflexivity|]. intros ->. discriminate. }
    rewrite E in *. rewrite <- app_comm_cons, position_skip by assumption. rewrite app_comm_cons, IH. f_equal. lia.
Qed.

(** The head without its terminator, cut at line feeds. *)
Lemma split_lf_text ls l :
  Forall (fun l => one_line l = true) ls -> one_line l = true ->
  split_byte lf (text ls ++ l) = map (fun x => x ++ [cr]) ls ++ [l].
Proof.
  assert (NL : forall x, one_line x = true -> contains_byte lf x = false).
  { intros x Hx. apply existsb_false. intros b Hb. unfold one_line in Hx. rewrite forallb_forall in Hx.
    specialize (Hx b Hb). apply bool_decide_eq_false. intros ->. discriminate. }
  intros HF Hl. induction HF as [|x ls Hx _ IH]; [apply split_byte_last, NL, Hl|].
  unfold text in *. cbn [map concat]. change crlf with ([cr] ++ [lf]) at 1. rewrite <- !app_assoc.
  rewrite (app_assoc x), split_byte_piece; [rewrite IH; reflexivity|].
  rewrite contains_byte_app, NL by assumption. reflexivity.
Qed.

Lemma strip_cr_line l : one_line l = true -> strip_trailing_cr l = l /\ strip_trailing_cr (l ++ [cr]) = l.
Proof.
  intros H. unfold strip_trailing_cr. rewrite rev_app_distr. cbn [rev app]. rewrite decide_True by reflexivity.
  rewrite rev_involutive. split; [|reflexivity]. destruct (rev l) as [|b r] eqn:E; [reflexivity|].
  rewrite decide_False; [reflexivity|]. intros ->. assert (In cr l) as Hin by (apply in_rev; rewrite E; left; reflexivity).
  unfold one_line in H. rewrite forallb_forall in H. specialize (H _ Hin). discriminate.
Qed.

(** ** Responses: the header object *)

(** The documented behaviour of the header object: a map from case-insensitive names to
    the list of their values, in the order they were appended. *)
Class HeaderLaws (H : Type) `{HeaderLib H} : Type := {
  get_all : bytes -> H -> list bytes;
  get_build s : 100 <= s <= 999 -> exists h, hl_build s = Some h /\ forall k, get_all k h = [];
  get_append n v h : is_valid_header_name n = true -> has_invalid_header_value_bytes v = false ->
    exists h', hl_append n v h = Some h' /\
      forall k, get_all k h' = get_all k h ++ (if eq_bytes (to_ascii_lowercase n) k then [v] else []);
  get_insert n v h : is_valid_header_name n = true -> has_invalid_header_value_bytes v = false ->
    exists h', hl_insert n v h = Some h' /\
      forall k, get_all k h' = if eq_bytes (to_ascii_lowercase n) k then [v] else get_all k h;
}.

(** A header the worker writes and the edge reads back unchanged. *)
Definition answer_ok (h : bytes * bytes) : Prop :=
  valid_token (fst h) = true /\ valid_response_header_value (snd h) = true /\
  not_blank_ends (snd h) = true /\ utf8 (snd h) = true.

Lemma response_value_clean v : valid_response_header_value v = true ->
  has_invalid_header_value_bytes v = false /\ one_line v = true.
Proof.
  unfold valid_response_header_value. rewrite forallb_forall. intros H. split.
  - apply existsb_false. intros b Hb. specialize (H b Hb). lia.
  - apply forallb_forall. intros b Hb. specialize (H b Hb). lia.
Qed.

Lemma answer_line_facts h : answer_ok h ->
  hop_line h <> [] /\ one_line (hop_line h) = true /\ response_line (hop_line h) = Ok h /\
  response_line (hop_line h ++ [cr]) = Ok h.
Proof.
  destruct h as [n v]. unfold answer_ok. cbn [fst snd]. intros (Hn & Hv & Hb & Hu).
  destruct (token_facts _ Hn) as (Hne & _ & H1 & Hcol & _ & Hun & Hsp).
  destruct (response_value_clean _ Hv) as [Hi Ho].
  assert (HO : one_line (hop_line (n, v)) = true).
  { unfold hop_line. cbn [fst snd]. rewrite !one_line_app, H1, Ho. reflexivity. }
  destruct (strip_cr_line _ HO) as [S1 S2].
  assert (R : response_line (hop_line (n, v)) = Ok (n, v)).
  { unfold response_line. rewrite S1. unfold hop_line. cbn [fst snd].
    change (n ++ bs ": " ++ v) with (n ++ [WorkerParser.colon] ++ (space :: v)).
    rewrite split_once_app by assumption. destruct n as [|b n]; [contradiction|]. rewrite <- app_comm_cons, Hsp.
    unfold trim_optional_whitespace. rewrite trim_by_blank, trim_blanks by (assumption || reflexivity).
    rewrite <- valid_token_header_name, Hn, Hi, Hun. reflexivity. }
  split; [unfold hop_line; cbn [fst]; destruct n; [contradiction | discriminate]|].
  split; [assumption|]. split; [assumption|]. unfold response_line in *. rewrite S1 in R. rewrite S2. exact R.
Qed.

Definition same_name (k : bytes) (h : bytes * bytes) : bool := eq_bytes (to_ascii_lowercase (fst h)) k.
(** The values of the headers called [k] that are not framing headers. *)
Definition values_of (k : bytes) (hs : list (bytes * bytes)) : list bytes :=
  map snd (List.filter (same_name k) (List.filter (fun h => negb (one_of (to_ascii_lowercase (fst h)) hop_framing)) hs)).

Section ResponseHop.
Context {H : Type} `{HeaderLaws H}.

Lemma append_lines_ok (line : bytes * bytes -> bytes) hs header :
  (forall h, In h hs -> response_line (line h) = Ok h) -> Forall answer_ok hs ->
  exists header', append_lines (map line hs) header = Ok header' /\
    forall k, get_all k header' = get_all k header ++ values_of k hs.
Proof.
  revert header. induction hs as [|[n v] hs IH]; intros header Hr HF.
  - exists header. cbn. split; [reflexivity|]. intros k. rewrite app_nil_r. reflexivity.
  - apply Forall_cons_iff in HF as [Hh HF]. cbn [map append_lines]. rewrite (Hr (n, v)) by (left; reflexivity).
    cbn [rbind]. unfold values_of. cbn [List.filter fst].
    destruct (one_of (to_ascii_lowercase n) hop_framing); cbn [negb].
    { apply IH; [intros; apply Hr; right; assumption | assumption]. }
    destruct Hh as (Hn & Hv & _ & Hu). cbn [fst snd] in *. rewrite Hu. cbn [negb].
    destruct (get_append n v header) as (h1 & -> & G1);
      [rewrite <- valid_token_header_name; assumption | apply response_value_clean, Hv|].
    cbn [ok_or rbind]. destruct (IH h1) as (h2 & -> & G2); [intros; apply Hr; right; assumption | assumption|].
    exists h2. split; [reflexivity|]. intros k. rewrite G2, G1, <- app_assoc. f_equal. unfold values_of, same_name.
    cbn [List.filter fst]. destruct (eq_bytes (to_ascii_lowercase n) k); reflexivity.
Qed.

Lemma append_lines_app l1 l2 (header : H) :
  append_lines (l1 ++ l2) header = rbind (append_lines l1 header) (append_lines l2).
Proof.
  revert header. induction l1 as [|x l1 IH]; intros header; [reflexivity|]. cbn [app append_lines].
  destruct (response_line x) as [[n v]|e]; cbn [rbind]; [|reflexivity].
  destruct (one_of _ _); [apply IH|]. destruct (negb (utf8 v)); [reflexivity|].
  destruct (hl_append n v header); cbn [ok_or rbind]; [apply IH | reflexivity].
Qed.
End ResponseHop.

Definition status_line (status : Z) : bytes := bs "HTTP/1.1 " ++ show_uint status ++ bs " " ++ reason status.

Lemma reason_line status : one_line (reason status) = true /\ utf8 (reason status) = true.
Proof. unfold reason. repeat cases_if; auto. Qed.

(** ** The status line *)

Lemma digit_no_space b s : is_ascii_digit b = true -> strip_one ws_fwd (b :: s) = None.
Proof. intros Hb. apply strip_one_graphic; [vm_compute; reflexivity | apply digit_graphic, Hb]. Qed.

Lemma word_from_digits ds s :
  forallb is_ascii_digit ds = true -> word_from (ds ++ space :: s) = (ds, space :: s).
Proof.
  induction ds as [|b ds IH]; intros Hd.
  - cbn [app word_from]. destruct (strip_one ws_fwd (space :: s)) eqn:E; [reflexivity|].
    unfold strip_one in E. vm_compute in E. discriminate.
  - cbn [forallb] in Hd. apply andb_true_iff in Hd as [Hb Hd]. rewrite <- app_comm_cons. cbn [word_from].
    rewrite digit_no_space, IH by assumption. reflexivity.
Qed.

Lemma parse_status_line_ok status :
  100 <= status <= 599 -> parse_status_line (status_line status) = Ok status.
Proof.
  intros Hs. unfold parse_status_line, status_line.
  assert (D : forallb is_ascii_digit (show_uint status) = true) by (apply show_uint_digits; lia).
  rewrite utf8_app by reflexivity. rewrite utf8_app by
    (apply utf8_ascii; rewrite forallb_forall in *; intros b Hb; specialize (D b Hb); unfold is_ascii_digit, in_range in D; lia).
  rewrite utf8_app by reflexivity. rewrite (proj2 (reason_line status)). cbn [negb].
  assert (next_word (bs "HTTP/1.1 " ++ show_uint status ++ bs " " ++ reason status)
          = Some (bs "HTTP/1.1", space :: show_uint status ++ bs " " ++ reason status)) as ->.
  { generalize (show_uint status ++ bs " " ++ reason status) as tail. intros tail.
    unfold next_word. change (bs "HTTP/1.1 ") with (bs "HTTP/1.1" ++ [space]). rewrite <- app_assoc.
    change (bs "HTTP/1.1" ++ [space] ++ ?x) with (zb 72 :: (bs "TTP/1.1" ++ space :: x)).
    rewrite trim_start_graphic by reflexivity. vm_compute. reflexivity. }
  change (eq_bytes (bs "HTTP/1.1") (bs "HTTP/1.1")) with true. cbn [negb].
  assert (next_word (space :: show_uint status ++ bs " " ++ reason status)
          = Some (show_uint status, space :: reason status)) as ->.
  { pose proof (show_uint_nonempty status) as NE. destruct (show_uint status) as [|b ds]; [congruence|].
    assert (trim_start (space :: (b :: ds) ++ bs " " ++ reason status) = (b :: ds) ++ bs " " ++ reason status) as T.
    { unfold trim_start. cbn [length strip_many].
      assert (strip_one ws_fwd (space :: (b :: ds) ++ bs " " ++ reason status)
              = Some ((b :: ds) ++ bs " " ++ reason status)) as -> by reflexivity.
      rewrite <- app_comm_cons. cbn [length strip_many forallb] in *. apply andb_true_iff in D as [Hb _].
      rewrite digit_no_space by assumption. reflexivity. }
    unfold next_word. rewrite T, <- app_comm_cons. cbv iota. rewrite app_comm_cons.
    change (bs " " ++ reason status) with (space :: reason status). rewrite word_from_digits by assumption. reflexivity. }
  rewrite parse_show_uint by (unfold u16_max, u64_max; lia). cbn [ok_or rbind].
  destruct ((100 <=? status) && (status <=? 599)) eqn:E; [reflexivity | lia].
Qed.

(** The header lines [write_response] writes. *)
Definition answer_headers (r : WorkerResponse) : list (bytes * bytes) :=
  List.filter writes_header (resp_headers r)
  ++ [(bs "content-length", show_uint (zlen (resp_body r))); (bs "connection", bs "close")].
Definition answer_lines (r : WorkerResponse) : list bytes :=
  status_line (clamp_status (resp_status r)) :: map hop_line (answer_headers r).

Lemma written_lines hs :
  concat (map (fun h => if writes_header h then header_line h else []) hs)
  = text (map hop_line (List.filter writes_header hs)).
Proof.
  induction hs as [|h hs IH]; [reflexivity|]. cbn [map concat List.filter]. rewrite IH.
  destruct (writes_header h); [|reflexivity]. unfold text. cbn [map concat].
  unfold header_line, hop_line. rewrite <- !app_assoc. reflexivity.
Qed.

Lemma response_head_text r :
  response_head (resp_status r) (resp_headers r) (Fixed (zlen (resp_body r))) = text (answer_lines r) ++ crlf.
Proof.
  unfold response_head, answer_lines, answer_headers. rewrite written_lines, map_app. cbn [map].
  rewrite (app_comm_cons _ _ (status_line _)), text_app.
  change (text (?a :: ?l)) with ((a ++ crlf) ++ text l). unfold status_line, hop_line. cbn [fst snd].
  change (text []) with (@nil byte). rewrite <- !app_assoc. reflexivity.
Qed.

Lemma written_headers_ok hs :
  Forall (fun h => not_blank_ends (snd h) = true /\ utf8 (snd h) = true) (List.filter writes_header hs) ->
  Forall answer_ok (List.filter writes_header hs).
Proof.
  rewrite !List.Forall_forall. intros HF h Hh. specialize (HF h Hh). apply List.filter_In in Hh as [_ Hw].
  unfold writes_header in Hw. apply andb_true_iff in Hw as [Hw Hv]. apply andb_true_iff in Hw as [_ Hn].
  destruct HF. repeat split; assumption.
Qed.
Lemma answer_headers_ok r :
  Forall (fun h => not_blank_ends (snd h) = true /\ utf8 (snd h) = true) (List.filter writes_header (resp_headers r)) ->
  Forall answer_ok (answer_headers r).
Proof.
  intros HF. unfold answer_headers. apply Forall_app. split.
  - apply written_headers_ok, HF.
  - constructor; [|repeat constructor]. pose proof (zlen_nonneg (resp_body r)) as Z0.
    pose proof (show_uint_digits _ Z0) as D. repeat split; cbn [snd].
    + apply forallb_forall. intros b Hb. rewrite forallb_forall in D. specialize (D b Hb).
      unfold is_ascii_digit, in_range in D. lia.
    + assert (E : forall l, forallb is_ascii_digit l = true -> match l with [] => true | b :: _ => negb (is_sp_or_tab b) end = true).
      { intros [|b l]; [reflexivity|]. cbn [forallb]. intros Q. apply andb_true_iff in Q as [Q _].
        unfold is_sp_or_tab. unfold is_ascii_digit, in_range in Q. lia. }
      unfold not_blank_ends. rewrite E by exact D. apply E, forallb_forall. intros b Hb.
      rewrite forallb_forall in D. apply D, in_rev, Hb.
    + apply utf8_ascii, forallb_forall. intros b Hb. rewrite forallb_forall in D. specialize (D b Hb).
      unfold is_ascii_digit, in_range in D. lia.
Qed.

Lemma written_not_framing h : writes_header h = true -> one_of (to_ascii_lowercase (fst h)) hop_framing = false.
Proof.
  unfold writes_header. intros W. apply andb_true_iff in W as [W _]. apply andb_true_iff in W as [W _].
  apply negb_true_iff in W. unfold one_of, framing_names, hop_framing in *. cbn [existsb] in *.
  rewrite !orb_false_r in *. apply orb_false_iff in W as [W1 W]. apply orb_false_iff in W as [W2 W3].
  rewrite W1, W2, W3. reflexivity.
Qed.
(** The framing headers at the end do not count. *)
Lemma values_of_written k hs extra :
  forallb (fun h => one_of (to_ascii_lowercase (fst h)) hop_framing) extra = true ->
  values_of k (List.filter writes_header hs ++ extra) = map snd (List.filter (same_name k) (List.filter writes_header hs)).
Proof.
  intros X. unfold values_of. rewrite List.filter_app.
  assert (List.filter (fun h => negb (one_of (to_ascii_lowercase (fst h)) hop_framing)) extra = []) as ->.
  { induction extra as [|e extra IH]; [reflexivity|]. cbn [forallb List.filter] in *. apply andb_true_iff in X as [-> X]. apply IH, X. }
  rewrite app_nil_r. do 2 f_equal. induction hs as [|h hs IH]; [reflexivity|]. cbn [List.filter].
  destruct (writes_header h) eqn:W; [|exact IH]. cbn [List.filter]. rewrite written_not_framing by exact W. cbn [negb]. rewrite IH. reflexivity.
Qed.
Lemma values_of_answer k r :
  values_of k (answer_headers r) = map snd (List.filter (same_name k) (List.filter writes_header (resp_headers r))).
Proof. apply values_of_written. reflexivity. Qed.

Lemma status_line_one_line status : 0 <= status -> one_line (status_line status) = true.
Proof.
  intros Hs. unfold status_line. rewrite !one_line_app, (proj1 (reason_line _)).
  assert (one_line (show_uint status) = true) as ->; [|reflexivity].
  pose proof (show_uint_digits status Hs) as D. apply forallb_forall. intros b Hb.
  rewrite forallb_forall in D. specialize (D b Hb). unfold is_ascii_digit, in_range in D. lia.
Qed.

Lemma answer_lines_ok r :
  Forall answer_ok (answer_headers r) -> Forall (fun l => l <> [] /\ one_line l = true) (answer_lines r).
Proof.
  intros HF. unfold answer_lines. constructor.
  - split; [discriminate|]. apply status_line_one_line. unfold clamp_status. cases_if; lia.
  - apply Forall_map. eapply List.Forall_impl; [|exact HF]. intros x Hx.
    destruct (answer_line_facts x Hx) as (? & ? & _). auto.
Qed.

(** A head made of a status line and headers the worker wrote. *)
Lemma parse_head_lines_ok {H} `{HeaderLaws H} status all :
  100 <= status <= 599 -> all <> [] -> Forall answer_ok all ->
  exists init last header, status_line status :: map hop_line all = init ++ [last] /\
    split_byte lf (text init ++ last) = map (fun x => x ++ [cr]) init ++ [last] /\
    parse_response_head (text init ++ last) = Ok (header, status) /\ forall k, get_all k header = values_of k all.
Proof.
  intros Hs Ne HF. destruct (exists_last Ne) as (hs & h & ->). apply Forall_app in HF as [HF Hh]. apply Forall_cons_iff in Hh as [Hh _].
  exists (status_line status :: map hop_line hs), (hop_line h). pose proof (status_line_one_line status ltac:(lia)) as SL.
  destruct (get_build status) as (h0 & B & G0); [lia|].
  destruct (append_lines_ok (fun x => hop_line x ++ [cr]) hs h0) as (h1 & A1 & G1);
    [intros x Hx; rewrite List.Forall_forall in HF; apply answer_line_facts, HF, Hx | assumption|].
  destruct (append_lines_ok hop_line [h] h1) as (h2 & A2 & G2);
    [intros x [<-|[]]; apply answer_line_facts, Hh | repeat constructor; apply Hh|].
  exists h2. rewrite map_app. split; [reflexivity|]. unfold parse_response_head.
  rewrite split_lf_text; [| |apply answer_line_facts, Hh].
  2: { constructor; [assumption|]. apply Forall_map. eapply List.Forall_impl; [|exact HF]. intros x Hx. apply answer_line_facts, Hx. }
  split; [reflexivity|]. cbn [map app]. rewrite (proj2 (strip_cr_line _ SL)), parse_status_line_ok by assumption. cbn [rbind]. rewrite B. cbn [ok_or rbind].
  rewrite map_map, append_lines_app, A1. cbn [rbind map] in *. rewrite A2.
  cbn [rbind]. split; [reflexivity|]. intros k. rewrite G2, G1, G0. cbn [app]. unfold values_of.
  rewrite !List.filter_app, map_app. reflexivity.
Qed.
Lemma parse_response_head_ok {H} `{HeaderLaws H} r :
  100 <= resp_status r <= 599 -> Forall answer_ok (answer_headers r) ->
  exists init last header, answer_lines r = init ++ [last] /\
    parse_response_head (text init ++ last) = Ok (header, resp_status r) /\
    forall k, get_all k header = values_of k (answer_headers r).
Proof.
  intros Hs HF. unfold answer_lines. assert (clamp_status (resp_status r) = resp_status r) as ->.
  { unfold clamp_status. cases_if; [reflexivity | lia]. }
  destruct (parse_head_lines_ok (resp_status r) (answer_headers r) Hs) as (init & last & header & E & _ & P & G); [|assumption|exists init, last, header; auto].
  unfold answer_headers. intros E. apply app_eq_nil in E as [_ E]. discriminate.
Qed.

Lemma filter_none {A} (f : A -> bool) l : (forall x, In x l -> f x = false) -> List.filter f l = [].
Proof.
  induction l as [|x l IH]; intros Hf; [reflexivity|]. cbn [List.filter]. rewrite (Hf x) by (left; reflexivity).
  apply IH. intros y Hy. apply Hf. right. exact Hy.
Qed.

(** The head and body of a message made of lines. *)
Lemma cut_message lines init last body :
  lines = init ++ [last] -> Forall (fun l => l <> [] /\ one_line l = true) lines ->
  exists n, find_header_end ((text lines ++ crlf) ++ body) = Some n /\
    take n ((text lines ++ crlf) ++ body) = text init ++ last /\
    drop (n + 4) ((text lines ++ crlf) ++ body) = body /\ Z.of_nat n + 2 = zlen (text lines).
Proof.
  intros E HF. unfold find_header_end. exists (length (text init ++ last)).
  assert (T : text lines = (text init ++ last) ++ crlf) by (subst; rewrite text_app, text_one, app_assoc; reflexivity).
  assert (L : (length (text lines) - 2 = length (text init ++ last))%nat).
  { rewrite T, length_app. change (length crlf) with 2%nat. lia. }
  split; [rewrite <- app_assoc, position_text by (assumption || (subst; destruct init; discriminate)); cbn [Nat.add]; rewrite L; reflexivity|].
  rewrite T, <- !(app_assoc (text init ++ last)), take_app_exact. split; [reflexivity|].
  rewrite !app_assoc. split.
  - replace (length (text init ++ last) + 4)%nat with (length ((((text init ++ last) ++ crlf) ++ crlf)))
      by (rewrite (length_app _ crlf), (length_app _ crlf); change (length crlf) with 2%nat; lia).
    rewrite <- !app_assoc in *. rewrite !app_assoc. apply drop_app_exact.
  - rewrite zlen_app. change (zlen crlf) with 2. reflexivity.
Qed.

Lemma no_connection_value r : values_of (bs "connection") (answer_headers r) = [].
Proof.
  rewrite values_of_answer, filter_none; [reflexivity|]. intros h Hh.
  apply List.filter_In in Hh as [_ Hw]. unfold same_name. apply not_true_iff_false. intros Q%eq_bytes_true.
  unfold writes_header in Hw. rewrite Q in Hw. discriminate.
Qed.

(** ** Properties: responses *)

(** The edge understands every buffered response the worker writes: for a status the
    edge accepts and header values that are text without outer blanks, within the size
    limits, the bytes [write_response] sends parse at the edge to the same status and
    body, with exactly one Content-Length (the body's), the connection policy the edge
    chose, and under every other name exactly the values of the headers the worker kept,
    in order.  This holds for any header object with the documented multimap laws. *)
Theorem edge_parses_worker_response {H} `{HeaderLaws H} r k keepalive :
  100 <= resp_status r <= 599 ->
  Forall (fun h => not_blank_ends (snd h) = true /\ utf8 (snd h) = true)
    (List.filter writes_header (resp_headers r)) ->
  zlen (text (answer_lines r)) <= MAX_RESPONSE_HEADER_BYTES ->
  zlen (text (answer_lines r)) + 2 + zlen (resp_body r) <= MAX_RESPONSE_BYTES -> (2 <= room k)%nat ->
  exists wire_bytes k' resp,
    write_response r k = (k', true) /\ sent k' = sent k ++ wire_bytes /\
    parse_worker_response wire_bytes keepalive = Ok resp /\
    er_status resp = resp_status r /\ er_body resp = resp_body r /\
    get_all (bs "content-length") (er_header resp) = [show_uint (zlen (resp_body r))] /\
    get_all (bs "connection") (er_header resp) = (if keepalive then [] else [bs "close"]) /\
    forall name, name <> bs "content-length" -> name <> bs "connection" ->
      get_all name (er_header resp)
      = map snd (List.filter (same_name name) (List.filter writes_header (resp_headers r))).
Proof.
  intros Hs HF HL HB HK. apply answer_headers_ok in HF.
  destruct (parse_response_head_ok r Hs HF) as (init & last & h0 & E & P & G).
  destruct (get_insert (bs "Content-Length") (show_uint (zlen (resp_body r))) h0) as (h1 & I1 & G1); [reflexivity| |].
  { pose proof (show_uint_digits _ (zlen_nonneg (resp_body r))) as D. apply existsb_false. intros b Hb.
    rewrite forallb_forall in D. specialize (D b Hb). unfold is_ascii_digit, in_range in D. lia. }
  assert (exists h2, insert_close keepalive h1 = Ok h2 /\
    forall n, get_all n h2 = if negb keepalive && eq_bytes (bs "connection") n then [bs "close"] else get_all n h1)
    as (h2 & I2 & G2).
  { unfold insert_close. destruct keepalive; cbn [negb andb]; [eauto|].
    destruct (get_insert (bs "Connection") (bs "close") h1) as (h2 & -> & G2); [reflexivity | reflexivity|].
    exists h2. split; [reflexivity | exact G2]. }
  assert (W : writes_to (write_response r) [text (answer_lines r) ++ crlf; resp_body r] true).
  { unfold write_response, write_response_head. rewrite response_head_text.
    apply (writes_to_seq _ _ [_]); apply writes_to_all. }
  exists ((text (answer_lines r) ++ crlf) ++ resp_body r). eexists. exists {| er_status := resp_status r; er_header := h2; er_body := resp_body r |}.
  split; [apply (writes_to_enough _ _ _ k W HK)|]. cbn [sent er_status er_body er_header concat].
  rewrite app_nil_r. split; [reflexivity|]. split.
  - destruct (cut_message _ _ _ (resp_body r) E (answer_lines_ok r HF)) as (n & F & T & D & L).
    unfold parse_worker_response. rewrite F. cbn [ok_or rbind].
    destruct (_ || _) eqn:Z0.
    { exfalso. apply orb_true_iff in Z0. rewrite !zlen_app in Z0. change (zlen crlf) with 2 in Z0. lia. }
    rewrite T, D, P. cbn [rbind]. rewrite I1. cbn [ok_or rbind]. rewrite I2. reflexivity.
  - split; [reflexivity|]. split; [reflexivity|]. split; [|split].
    + rewrite G2, G1. change (eq_bytes (bs "connection") (bs "content-length")) with false. rewrite andb_false_r. reflexivity.
    + rewrite G2, G1. destruct keepalive; [|reflexivity]. rewrite G. apply no_connection_value.
    + intros name N1 N2. rewrite G2, G1, G, values_of_answer.
      assert (eq_bytes (bs "connection") name = false) as -> by (apply not_true_iff_false; intros Q%eq_bytes_true; congruence).
      assert (eq_bytes (to_ascii_lowercase (bs "Content-Length")) name = false) as ->
        by (apply not_true_iff_false; intros Q%eq_bytes_true; apply N1; rewrite <- Q; reflexivity).
      rewrite andb_false_r. reflexivity.
Qed.

(** A header object with the required laws: an association list. *)
#[global] Instance list_lib : HeaderLib (list (bytes * bytes)) := {
  hl_build := fun _ => Some [];
  hl_append := fun n v h => Some (h ++ [(to_ascii_lowercase n, v)]);
  hl_insert := fun n v h =>
    Some (List.filter (fun e => negb (eq_bytes (fst e) (to_ascii_lowercase n))) h ++ [(to_ascii_lowercase n, v)]);
}.

#[global] Instance list_laws : HeaderLaws (list (bytes * bytes)).
Proof.
  refine {| get_all := fun k h => map snd (List.filter (fun e => eq_bytes (fst e) k) h) |}.
  - intros s _. exists []. auto.
  - intros n v h _ _. eexists. split; [reflexivity|]. intros k. rewrite List.filter_app, map_app. f_equal.
    cbn [List.filter fst]. destruct (eq_bytes _ k); reflexivity.
  - intros n v h _ _. eexists. split; [reflexivity|]. intros k. rewrite List.filter_app, map_app. cbn [List.filter fst].
    destruct (eq_bytes (to_ascii_lowercase n) k) eqn:E.
    + apply eq_bytes_true in E. subst k. rewrite filter_none; [reflexivity|]. intros e He.
      apply List.filter_In in He as [_ He]. apply negb_true_iff, He.
    + rewrite app_nil_r. f_equal. induction h as [|e h IH]; [reflexivity|]. cbn [List.filter].
      destruct (eq_bytes (fst e) (to_ascii_lowercase n)) eqn:Q; cbn [negb List.filter]; rewrite IH.
      * apply eq_bytes_true in Q. rewrite Q, E. reflexivity.
      * reflexivity.
Defined.

Definition demo_answer : WorkerResponse :=
  {| resp_status := 201;
     resp_headers := [(bs "Set-Cookie", bs "a=1"); (bs "Content-Length", bs "999"); (bs "X-Bad", bs "x" ++ crlf);
                      (bs "set-cookie", bs "b=2")];
     resp_body := bs "hello" |}.

Lemma edge_parses_worker_response_witness :
  exists wire_bytes k' (resp : EdgeResponse (list (bytes * bytes))),
    write_response demo_answer {| sent := []; room := 2 |} = (k', true) /\ sent k' = wire_bytes /\
    parse_worker_response wire_bytes false = Ok resp /\ er_body resp = bs "hello" /\
    get_all (bs "set-cookie") (er_header resp) = [bs "a=1"; bs "b=2"].
Proof.
  destruct (edge_parses_worker_response demo_answer {| sent := []; room := 2 |} false)
    as (w & k' & resp & W & S & P & _ & B & _ & _ & G).
  - vm_compute. split; discriminate.
  - repeat constructor.
  - vm_compute. discriminate.
  - vm_compute. discriminate.
  - repeat constructor.
  - exists w, k', resp. repeat split; try assumption. apply G; discriminate.
Defined.
