(* ===== verification/HopLimits.v ===== *)
(** * HopLimits: the two worker hops admit different requests

    The edge's admission, the HTTP hop and the frame hop each have a header limit of 100.
    This file relates them end to end: the HTTP hop spends part of the worker's limit on
    the edge's own metadata headers, the frame hop does not. *)

From S2P Require Import Prelude Text HopFrame Stream EdgeHeaders WorkerParser WorkerFrame ClientRequest WorkerWire.

(** A plain GET with a Host and [n] more headers. *)
Definition crowded (n : nat) : list LoweredHeader :=
  lh_new (bs "host") (bs "a.test")
  :: map (fun i => lh_new (bs "h" ++ show_uint (Z.of_nat i)) (bs "v")) (seq 0 n).
Definition crowded_head : client_head :=
  {| http2 := false; rq_method := bs "GET"; path_and_query := Some (bs "/"); uri_path := bs "/";
     uri_scheme := None; authority := None |}.

(** What the worker answers to a request that takes the HTTP hop. *)
Definition http_hop (order : hmap -> hmap) (hs : list LoweredHeader) (m : TrustedHopMetadata) (max_body : Z)
    : result Z (result ParseError WorkerRequest) :=
  match sanitize_lowered hs m {| sse := false |} with
  | Err _ => Err 400
  | Ok s => let? wire_bytes := build_worker_request crowded_head (clean_headers s) [] in
            Ok (fst (parse_request order [Data wire_bytes] max_body))
  end.

(** What the worker reads from a request that takes the frame hop. *)
Definition frame_hop (hs : list LoweredHeader) (m : TrustedHopMetadata) (max_body : Z)
    : result Z (result Z (option RequestFrame)) :=
  match sanitize_frame_headers hs {| sse := false |} with
  | Err _ => Err 400
  | Ok plan =>
      match assemble_into [] (bs "GET") (bs "/") [] None hs plan [] m None with
      | (frame, Ok _) => Ok (fst (read_request_frame (frame_caps max_body) [Data frame]))
      | (_, Err e) => Err e
      end
  end.

(** The limits of the hops do not coincide: a request with 100 headers passes the
    edge's validation and is decoded by a worker on the frame hop, but on the HTTP hop
    the same request, which now also carries the metadata, length and connection headers,
    is refused by the worker with 431; 94 headers pass on both. *)
Theorem frame_hop_is_more_permissive order :
  validate_client_request crowded_head (crowded 99) 1000 None = Ok None /\
  match frame_hop (crowded 99) sample_metadata 1000 with
  | Ok (Ok (Some f)) => zlen (headers f) = 100
  | _ => False
  end /\
  http_hop order (crowded 99) sample_metadata 1000 = Ok (Err (pe_headers "too many headers")) /\
  match http_hop order (crowded 93) sample_metadata 1000 with
  | Ok (Ok _) => True
  | _ => False
  end.
Proof. split; [vm_compute; reflexivity|]. split; [vm_compute; reflexivity|]. split; vm_compute; reflexivity || exact I. Qed.
