(* ===== verification/Fairness.v ===== *)
(** * Fairness: admission limiters of the edge

    Model of [crates/oxo-pingora-edge/src/platform/fairness.rs].  [GlobalInFlightLimiter]
    and [LongLivedRegistry] are lock-free: their [acquire]/[try_admit] loops, the
    high-water mark loop and the guards' [Drop] are broken into their single atomic
    operations, and [step] interleaves any number of threads; a weak compare-exchange may
    fail spuriously.  [IdentityFairnessLimiter] works under a mutex, so each of its calls
    is one transition. *)

From S2P Require Import Prelude Text.

(** [fetch_add(1)] on an [AtomicU64]. *)
Definition incr (z : Z) : Z := (z + 1) mod (u64_max + 1).

(** ** Threads

    [A] is what an admitted thread carries. *)

Section Threads.
Context {A : Type}.

(** The program counter of a thread; the loops of [acquire] and [record_max_active]. *)
Inductive pc : Type :=
| Idle
| Start                       (** at the head of the [loop] of [acquire] *)
| Loaded (a : Z)              (** [active] read, about to compare *)
| Counting (m : Z)            (** slot taken, [admitted_total] not yet bumped *)
| MaxLoad (m : Z)             (** entering [record_max_active] *)
| MaxTest (m current : Z)
| Held (adm : A)
| Releasing (adm : A).        (** slot freed, closing counters not yet bumped *)

(** ** Counting threads *)

Definition owns (p : pc) : Z :=
  match p with Counting _ | MaxLoad _ | MaxTest _ _ | Held _ => 1 | _ => 0 end.
(** Grants that have been counted and have not ended. *)
Definition counted (p : pc) : Z :=
  match p with MaxLoad _ | MaxTest _ _ | Held _ | Releasing _ => 1 | _ => 0 end.
Definition tally (f : pc -> Z) (l : list pc) : Z := fold_right (fun p n => f p + n) 0 l.

Lemma tally_insert f l i p q :
  l !! i = Some p -> tally f (<[i := q]> l) = tally f l - f p + f q.
Proof.
  revert i. induction l as [|x l IH]; intros [|i]; simpl; try discriminate.
  - intros [= ->]. lia.
  - intros H. rewrite (IH i H). lia.
Qed.
Lemma tally_replicate f n : f Idle = 0 -> tally f (replicate n Idle) = 0.
Proof. intros H. induction n as [|n IH]; simpl; lia. Qed.
Lemma tally_nonneg f l : (forall p, 0 <= f p) -> 0 <= tally f l.
Proof. intros H. induction l as [|x l IH]; simpl; [lia|]. specialize (H x). lia. Qed.
Lemma tally_ge f l i p : (forall p, 0 <= f p) -> l !! i = Some p -> f p <= tally f l.
Proof.
  intros H. revert i. induction l as [|x l IH]; intros [|i]; simpl; try discriminate.
  - intros [= ->]. pose proof (tally_nonneg f l H). lia.
  - intros Hi. specialize (IH i Hi). pose proof (H x). lia.
Qed.
Lemma owns_nonneg p : 0 <= owns p.
Proof. destruct p; simpl; lia. Qed.

(** A thread that still has to record the value [m] of [active] it produced. *)
Definition pending (m : Z) (p : pc) : Prop :=
  match p with Counting m' | MaxLoad m' | MaxTest m' _ => m' = m | _ => False end.

Lemma lookup_insert_cases {X} (l : list X) i j x y :
  <[i := x]> l !! j = Some y -> (i = j /\ y = x) \/ (i <> j /\ l !! j = Some y).
Proof. intros H. apply list_lookup_insert_Some in H. naive_solver. Qed.

End Threads.

(** ** The slot limiter

    What the two lock-free limiters share: [active] slots under a limit, a total of
    grants, a total of refusals and a high-water mark.  A holder carries an admission of
    type [A]; [C] are the counters its operations and its end update. *)

Section Slots.
Context {A C O : Type}.
Variable fresh : A.
Variable hold : O -> A * C -> A * C.     (** an operation on a live admission *)
Variable finish : A -> C -> C.           (** what [Drop] does after freeing the slot *)
Variable limit : Z.

Record slots : Type := {
  active : Z;
  granted_total : Z;          (** [admitted_total] or [accepted_total] *)
  refused_total : Z;          (** [overload_total] or [rejected_total] *)
  max_active_observed : Z;
  counters : C;
}.

(** The shared state with the thread pool and two history variables: the largest value
    [active] ever had and the number of admissions that ended. *)
Record system : Type := {
  sh : slots;
  pool : list (@pc A);
  peak : Z;
  finished : Z;
}.

Definition set_active (s : slots) (v : Z) : slots :=
  {| active := v; granted_total := granted_total s; refused_total := refused_total s;
     max_active_observed := max_active_observed s; counters := counters s |}.
Definition set_max (s : slots) (v : Z) : slots :=
  {| active := active s; granted_total := granted_total s; refused_total := refused_total s;
     max_active_observed := v; counters := counters s |}.
Definition set_counters (s : slots) (c : C) : slots :=
  {| active := active s; granted_total := granted_total s; refused_total := refused_total s;
     max_active_observed := max_active_observed s; counters := c |}.
Definition grant (s : slots) : slots :=
  {| active := active s; granted_total := incr (granted_total s); refused_total := refused_total s;
     max_active_observed := max_active_observed s; counters := counters s |}.
Definition refuse (s : slots) : slots :=
  {| active := active s; granted_total := granted_total s; refused_total := incr (refused_total s);
     max_active_observed := max_active_observed s; counters := counters s |}.

(** One atomic operation of one thread: the new shared state and program counter. *)
Inductive act : slots -> @pc A -> slots -> @pc A -> Prop :=
| act_call s : act s Idle s Start
| act_load s : act s Start s (Loaded (active s))
| act_full s a : limit <= a -> act s (Loaded a) (refuse s) Idle
| act_take s a : a < limit -> active s = a -> act s (Loaded a) (set_active s (a + 1)) (Counting (a + 1))
| act_retry s a : a < limit -> act s (Loaded a) s Start
| act_count s m : act s (Counting m) (grant s) (MaxLoad m)
| act_max_load s m : act s (MaxLoad m) s (MaxTest m (max_active_observed s))
| act_max_done s m c : m <= c -> act s (MaxTest m c) s (Held fresh)
| act_max_set s m c : c < m -> max_active_observed s = c -> act s (MaxTest m c) (set_max s m) (Held fresh)
| act_max_again s m c : c < m -> act s (MaxTest m c) s (MaxTest m (max_active_observed s))
| act_hold s o adm adm' c' :
    hold o (adm, counters s) = (adm', c') -> act s (Held adm) (set_counters s c') (Held adm')
| act_release s adm : act s (Held adm) (set_active s (active s - 1)) (Releasing adm)
| act_finish s adm : act s (Releasing adm) (set_counters s (finish adm (counters s))) Idle.

Definition ends (p q : @pc A) : Z := match p, q with Releasing _, Idle => 1 | _, _ => 0 end.

Inductive step : system -> system -> Prop :=
| step_thread s i p q sh' :
    pool s !! i = Some p -> act (sh s) p sh' q ->
    step s {| sh := sh'; pool := <[i := q]> (pool s); peak := Z.max (peak s) (active sh');
              finished := finished s + ends p q |}.

Definition initial (c : C) (n : nat) : system :=
  {| sh := {| active := 0; granted_total := 0; refused_total := 0; max_active_observed := 0; counters := c |};
     pool := replicate n Idle; peak := 0; finished := 0 |}.
Definition reachable (c : C) (n : nat) (s : system) : Prop := rtc step (initial c n) s.

Record Inv (s : system) : Prop := {
  inv_active : active (sh s) = tally owns (pool s);
  inv_limit : active (sh s) <= Z.max 0 limit;
  inv_granted : granted_total (sh s) = (finished s + tally counted (pool s)) mod (u64_max + 1);
  inv_peak : max_active_observed (sh s) <= peak s /\ active (sh s) <= peak s <= Z.max 0 limit;
  inv_pending : forall i p m, pool s !! i = Some p -> pending m p -> m <= peak s;
  inv_seen : forall i m c, pool s !! i = Some (MaxTest m c) -> c <= max_active_observed (sh s);
  inv_mark : peak s <= max_active_observed (sh s) \/ exists i p, pool s !! i = Some p /\ pending (peak s) p;
}.

Lemma initial_inv c n : Inv (initial c n).
Proof.
  constructor; cbn [initial sh pool peak finished active granted_total max_active_observed].
  - symmetry. apply tally_replicate. reflexivity.
  - lia.
  - rewrite tally_replicate by reflexivity. reflexivity.
  - lia.
  - intros i p m H. apply lookup_replicate in H as [-> _]. intros [].
  - intros i m k H. apply lookup_replicate in H as [? _]. discriminate.
  - left. lia.
Qed.

(** How an atomic operation changes the quantities the invariant speaks of. *)
Lemma act_delta s p s' q :
  act s p s' q ->
  active s' = active s + owns q - owns p /\
  (active s' <= active s \/ active s' <= limit) /\
  (granted_total s' = granted_total s /\ ends p q + counted q = counted p \/
   granted_total s' = incr (granted_total s) /\ ends p q + counted q = counted p + 1) /\
  max_active_observed s <= max_active_observed s' /\
  (forall m c, q = MaxTest m c -> c <= max_active_observed s').
Proof.
  destruct 1; cbn [active granted_total max_active_observed set_active set_max set_counters grant refuse owns counted ends];
    repeat split; try lia; intros; simplify_eq; try lia.
Qed.

(** The values of [active] still to be recorded. *)
Lemma act_pending s p s' q m :
  act s p s' q -> pending m q -> pending m p \/ m = active s'.
Proof. destruct 1; simpl; intros Hp; auto; contradiction || (right; congruence). Qed.
Lemma act_recorded s p s' q m :
  act s p s' q -> pending m p -> (forall m c, p = MaxTest m c -> c <= max_active_observed s) ->
  pending m q \/ m <= max_active_observed s'.
Proof.
  destruct 1; simpl; intros Hp Hc; auto; try contradiction; subst; right; [|lia].
  specialize (Hc m c eq_refl). lia.
Qed.
Lemma act_max s p s' q :
  act s p s' q -> max_active_observed s' = max_active_observed s \/ pending (max_active_observed s') p.
Proof. destruct 1; simpl; auto. Qed.
Lemma act_new_peak s p s' q :
  act s p s' q -> active s' <= active s \/ pending (active s') q.
Proof. destruct 1; simpl; auto; left; lia. Qed.

Lemma step_inv s s' : step s s' -> Inv s -> Inv s'.
Proof.
  intros [s0 i p q sh' L Ac] [IA IL IG [IP1 IP2] IPe IS IM].
  destruct (act_delta _ _ _ _ Ac) as (D1 & D2 & D3 & D4 & D5).
  pose proof (act_max _ _ _ _ Ac) as DM. pose proof (act_new_peak _ _ _ _ Ac) as DP.
  assert (Lq : <[i := q]> (pool s0) !! i = Some q) by (apply list_lookup_insert_eq; eapply lookup_lt_Some, L).
  constructor; cbn [sh pool peak finished].
  - rewrite (tally_insert _ _ _ _ _ L). lia.
  - lia.
  - rewrite (tally_insert _ _ _ _ _ L). destruct D3 as [[-> E]|[-> E]]; [rewrite IG; f_equal; lia|].
    unfold incr. rewrite IG, Zplus_mod_idemp_l. f_equal. lia.
  - split; [|lia]. destruct DM as [->|Hp]; [lia|]. specialize (IPe i p _ L Hp). lia.
  - intros j r m Hj Hm. apply lookup_insert_cases in Hj as [[<- ->]|[_ Hj]].
    + destruct (act_pending _ _ _ _ _ Ac Hm) as [Hp| ->]; [specialize (IPe i p m L Hp)|]; lia.
    + specialize (IPe j r m Hj Hm). lia.
  - intros j m c Hj. apply lookup_insert_cases in Hj as [[<- E]|[_ Hj]]; [eauto|].
    specialize (IS j m c Hj). lia.
  - destruct (Z_le_gt_dec (active sh') (peak s0)) as [Hle|Hgt].
    + rewrite Z.max_l by lia. destruct IM as [IM|(j & r & Hj & Hr)]; [left; lia|].
      destruct (decide (i = j)) as [<-|Hij].
      * assert (r = p) as -> by congruence.
        destruct (act_recorded _ _ _ _ _ Ac Hr) as [Hq|Hq]; [intros m c ->; eauto | right; eauto | left; lia].
      * right. exists j, r. split; [rewrite list_lookup_insert_ne by assumption; exact Hj | exact Hr].
    + rewrite Z.max_r by lia. destruct DP as [|Hq]; [lia|]. right. eauto.
Qed.

Lemma reachable_inv c n s : reachable c n s -> Inv s.
Proof.
  unfold reachable. intros R. remember (initial c n) as s0 eqn:E.
  assert (I0 : Inv s0) by (subst; apply initial_inv). clear E.
  induction R; eauto using step_inv.
Qed.
End Slots.

(** ** The two lock-free limiters *)

(** [GlobalInFlightLimiter]: its admission only holds the slot.  With no limit configured
    [acquire] returns [Ok(None)] and touches nothing. *)
Definition no_hold (o : Empty_set) (x : unit * unit) : unit * unit := x.
Definition no_finish (_ _ : unit) : unit := tt.
Definition global_step (max_requests : Z) := @step unit unit Empty_set tt no_hold no_finish max_requests.
Definition global_acquire_unlimited (max_requests : option Z) : option (option unit) :=
  match max_requests with None => Some None | Some _ => None end.

(** [LongLivedAdmission] and the counters of [LongLivedRegistry] it updates. *)
Record LongLivedAdmission : Type := { bytes_streamed : Z; completed : bool; drained : bool }.
Record LongLivedCounters : Type := {
  completed_total : Z;
  drained_total : Z;
  cancelled_total : Z;
  downstream_timeout_total : Z;
  bytes_streamed_total : Z;
}.
Definition new_admission : LongLivedAdmission := {| bytes_streamed := 0; completed := false; drained := false |}.
Definition zero_counters : LongLivedCounters :=
  {| completed_total := 0; drained_total := 0; cancelled_total := 0; downstream_timeout_total := 0;
     bytes_streamed_total := 0 |}.

Inductive LongLivedOp : Type :=
| RecordBytes (bytes : Z)
| Complete
| CompleteDrained
| WriteError (timeout : bool).

(** [record_bytes], [complete], [complete_drained] and [record_downstream_write_error]. *)
Definition long_lived_hold (o : LongLivedOp) (x : LongLivedAdmission * LongLivedCounters)
    : LongLivedAdmission * LongLivedCounters :=
  let '(a, c) := x in
  match o with
  | RecordBytes n =>
      ({| bytes_streamed := saturating_add (bytes_streamed a) n; completed := completed a; drained := drained a |},
       {| completed_total := completed_total c; drained_total := drained_total c;
          cancelled_total := cancelled_total c; downstream_timeout_total := downstream_timeout_total c;
          bytes_streamed_total := (bytes_streamed_total c + n) mod (u64_max + 1) |})
  | Complete => ({| bytes_streamed := bytes_streamed a; completed := true; drained := drained a |}, c)
  | CompleteDrained =>
      ({| bytes_streamed := bytes_streamed a; completed := true; drained := true |},
       if drained a then c
       else {| completed_total := completed_total c; drained_total := incr (drained_total c);
               cancelled_total := cancelled_total c; downstream_timeout_total := downstream_timeout_total c;
               bytes_streamed_total := bytes_streamed_total c |})
  | WriteError timeout =>
      (a, if timeout
          then {| completed_total := completed_total c; drained_total := drained_total c;
                  cancelled_total := cancelled_total c;
                  downstream_timeout_total := incr (downstream_timeout_total c);
                  bytes_streamed_total := bytes_streamed_total c |}
          else c)
  end.
(** The verdict [record_bytes] returns. *)
Definition within_buffer (max_buffered_bytes : Z) (a : LongLivedAdmission) : bool :=
  bytes_streamed a <=? max_buffered_bytes.

(** The second half of [Drop for LongLivedAdmission]. *)
Definition long_lived_finish (a : LongLivedAdmission) (c : LongLivedCounters) : LongLivedCounters :=
  if completed a
  then {| completed_total := incr (completed_total c); drained_total := drained_total c;
          cancelled_total := cancelled_total c; downstream_timeout_total := downstream_timeout_total c;
          bytes_streamed_total := bytes_streamed_total c |}
  else {| completed_total := completed_total c; drained_total := drained_total c;
          cancelled_total := incr (cancelled_total c); downstream_timeout_total := downstream_timeout_total c;
          bytes_streamed_total := bytes_streamed_total c |}.

Definition long_lived_reachable (max_connections : Z) :=
  reachable new_admission long_lived_hold long_lived_finish max_connections zero_counters.

(** ** Long-lived accounting *)

Definition adm_of (p : @pc LongLivedAdmission) : option LongLivedAdmission :=
  match p with Held a | Releasing a => Some a | _ => None end.
Definition drained_here (p : @pc LongLivedAdmission) : Z :=
  match adm_of p with Some a => if drained a then 1 else 0 | None => 0 end.
Definition two64 : Z := u64_max + 1.
Lemma incr_mod n : incr (n mod two64) = (n + 1) mod two64.
Proof. apply Zplus_mod_idemp_l. Qed.

(** How many admissions ended completed, cancelled and drained: exact counts behind the
    wrapping totals. *)
Record Ledger (s : @system LongLivedAdmission LongLivedCounters) (nc nx nd : Z) : Prop := {
  led_completed : completed_total (counters (sh s)) = nc mod two64;
  led_cancelled : cancelled_total (counters (sh s)) = nx mod two64;
  led_drained : drained_total (counters (sh s)) = nd mod two64;
  led_finished : finished s = nc + nx;
  led_bound : 0 <= nd <= nc + tally drained_here (pool s);
  led_nonneg : 0 <= nc /\ 0 <= nx;
  led_flags : forall i p a, pool s !! i = Some p -> adm_of p = Some a -> drained a = true -> completed a = true;
}.

Ltac ledger_case dc dx dd :=
  exists dc, dx, dd; cbn;
  repeat match goal with E : drained _ = _ |- _ => rewrite E; revert E end; intros;
  repeat split; try lia; intros; simplify_eq/=; rewrite ?Z.add_0_r; eauto;
  try match goal with H : _ = _ mod two64 |- _ => rewrite H; apply incr_mod end.

Lemma act_ledger limit s p s' q (D : forall a, adm_of p = Some a -> drained a = true -> completed a = true) :
  act new_admission long_lived_hold long_lived_finish limit s p s' q ->
  exists dc dx dd, 0 <= dc /\ 0 <= dx /\ 0 <= dd /\ ends p q = dc + dx /\
    (forall n, completed_total (counters s) = n mod two64 -> completed_total (counters s') = (n + dc) mod two64) /\
    (forall n, cancelled_total (counters s) = n mod two64 -> cancelled_total (counters s') = (n + dx) mod two64) /\
    (forall n, drained_total (counters s) = n mod two64 -> drained_total (counters s') = (n + dd) mod two64) /\
    dd + drained_here p <= dc + drained_here q /\
    (forall a, adm_of q = Some a -> drained a = true -> completed a = true).
Proof.
  intros Ac. destruct Ac as [| | | | | | | | | |s o adm adm' c' Hh|s adm|s adm].
  1-10, 12: ledger_case 0 0 0.
  - destruct o as [n| | |t]; cbn [long_lived_hold] in Hh; injection Hh as <- <-.
    + ledger_case 0 0 0.
    + ledger_case 0 0 0.
    + destruct (drained adm) eqn:E; [ledger_case 0 0 0 | ledger_case 0 0 1].
    + destruct t; ledger_case 0 0 0.
  - specialize (D adm eq_refl). cbn [counters set_counters]. unfold long_lived_finish.
    destruct (completed adm) eqn:E, (drained adm) eqn:Ed; try (specialize (D eq_refl); discriminate).
    + ledger_case 1 0 0.
    + ledger_case 1 0 0.
    + ledger_case 0 1 0.
Qed.

Lemma step_ledger limit s s' nc nx nd :
  step new_admission long_lived_hold long_lived_finish limit s s' -> Ledger s nc nx nd ->
  exists nc' nx' nd', Ledger s' nc' nx' nd'.
Proof.
  intros [s0 i p q sh' L Ac] [L1 L2 L3 L4 L5 L6 L7].
  destruct (act_ledger _ _ _ _ _ (fun a => L7 i p a L) Ac) as (dc & dx & dd & P1 & P2 & P3 & E & Hc & Hx & Hd & B & F).
  exists (nc + dc), (nx + dx), (nd + dd). constructor; cbn [sh pool finished]; auto; try lia.
  - erewrite tally_insert by exact L. lia.
  - intros j r a Hj. apply lookup_insert_cases in Hj as [[<- ->]|[_ Hj]]; [apply F | eapply L7, Hj].
Qed.

Lemma ledger_exists limit n s :
  long_lived_reachable limit n s -> exists nc nx nd, Ledger s nc nx nd.
Proof.
  unfold long_lived_reachable, reachable. intros R. remember (initial zero_counters n) as s0 eqn:E.
  assert (I0 : exists nc nx nd, Ledger s0 nc nx nd).
  { exists 0, 0, 0. subst s0. constructor; try reflexivity; try lia.
    - cbn [initial pool]. rewrite (tally_replicate drained_here n) by reflexivity. lia.
    - intros i p a H. apply lookup_replicate in H as [-> _]. discriminate. }
  clear E. induction R as [|x y z St _ IH]; [exact I0|]. apply IH.
  destruct I0 as (nc & nx & nd & I0). eapply step_ledger; eassumption.
Qed.

Lemma tally_all_idle {A} (f : @pc A -> Z) l : f Idle = 0 -> Forall (fun p => p = Idle) l -> tally f l = 0.
Proof. intros H. induction 1 as [|p l -> _ IH]; simpl; lia. Qed.

(** ** Per-identity fairness *)

Record IdentityFairnessLimiter : Type := {
  max_per_identity : option Z;
  in_flight : gmap bytes Z;         (** the [active] map *)
  id_admitted_total : Z;
  saturation_total : Z;
}.

Inductive id_result : Type :=
| Unlimited                          (** [Ok(None)] *)
| Granted (identity : bytes)        (** [Ok(Some(guard))] *)
| Saturated.                         (** [Err(())] *)

Definition identity_acquire (identity : bytes) (l : IdentityFairnessLimiter)
    : id_result * IdentityFairnessLimiter :=
  match max_per_identity l with
  | None => (Unlimited, l)
  | Some max =>
      let current := unwrap_or 0 (in_flight l !! identity) in
      if current >=? max
      then (Saturated, {| max_per_identity := max_per_identity l; in_flight := in_flight l;
                          id_admitted_total := id_admitted_total l;
                          saturation_total := incr (saturation_total l) |})
      else (Granted identity,
            {| max_per_identity := max_per_identity l;
               in_flight := <[identity := current + 1]> (in_flight l);
               id_admitted_total := incr (id_admitted_total l); saturation_total := saturation_total l |})
  end.

(** [Drop for IdentityAdmission] *)
Definition identity_release (identity : bytes) (l : IdentityFairnessLimiter) : IdentityFairnessLimiter :=
  let set m := {| max_per_identity := max_per_identity l; in_flight := m;
                  id_admitted_total := id_admitted_total l; saturation_total := saturation_total l |} in
  match in_flight l !! identity with
  | Some count => if count >? 1 then set (<[identity := count - 1]> (in_flight l))
                  else set (delete identity (in_flight l))
  | None => l
  end.

(** Calls on the limiter, with the multiset of live guards. *)
Inductive id_step : IdentityFairnessLimiter * list bytes -> IdentityFairnessLimiter * list bytes -> Prop :=
| id_admit l gs i l' : identity_acquire i l = (Granted i, l') -> id_step (l, gs) (l', i :: gs)
| id_refuse l gs i l' : identity_acquire i l = (Saturated, l') -> id_step (l, gs) (l', gs)
| id_drop l gs1 i gs2 : id_step (l, gs1 ++ i :: gs2) (identity_release i l, gs1 ++ gs2).

Definition identity_new (max : option Z) : IdentityFairnessLimiter :=
  {| max_per_identity := max; in_flight := ∅; id_admitted_total := 0; saturation_total := 0 |}.

(** The guards an identity holds. *)
Definition held (i : bytes) (gs : list bytes) : Z := Z.of_nat (length (List.filter (fun g => eq_bytes g i) gs)).

Definition id_inv (max : Z) (x : IdentityFairnessLimiter * list bytes) : Prop :=
  max_per_identity (fst x) = Some max /\
  forall i, in_flight (fst x) !! i = (if 0 <? held i (snd x) then Some (held i (snd x)) else None) /\
            held i (snd x) <= Z.max 0 max.

Lemma held_cons i g gs : held i (g :: gs) = (if eq_bytes g i then 1 else 0) + held i gs.
Proof. unfold held. cbn [List.filter]. destruct (eq_bytes g i); simpl; lia. Qed.
Lemma held_app i a b : held i (a ++ b) = held i a + held i b.
Proof. unfold held. rewrite List.filter_app, length_app. lia. Qed.
Lemma held_nonneg i gs : 0 <= held i gs.
Proof. unfold held. lia. Qed.
Lemma eq_bytes_refl i : eq_bytes i i = true.
Proof. apply eq_bytes_true. reflexivity. Qed.
Lemma eq_bytes_ne i j : i <> j -> eq_bytes i j = false.
Proof. intros H. apply bool_decide_eq_false. exact H. Qed.

Lemma id_admit_inv max l gs i l' :
  id_inv max (l, gs) -> identity_acquire i l = (Granted i, l') -> id_inv max (l', i :: gs).
Proof.
  intros [M I] H. unfold identity_acquire in H. cbn [fst snd] in *. rewrite M in H.
  destruct (unwrap_or 0 (in_flight l !! i) >=? max) eqn:C; [discriminate|]. injection H as <-.
  destruct (I i) as [Li Bi]. assert (unwrap_or 0 (in_flight l !! i) = held i gs) as Hc.
  { rewrite Li. pose proof (held_nonneg i gs). destruct (0 <? held i gs) eqn:E; simpl; lia. }
  rewrite Hc in *. split; [reflexivity|]. intros j. cbn [fst snd in_flight]. rewrite held_cons.
  destruct (decide (i = j)) as [<-|N].
  - rewrite lookup_insert_eq, eq_bytes_refl. pose proof (held_nonneg i gs).
    destruct (0 <? 1 + held i gs) eqn:E; [|lia]. split; [f_equal; lia | lia].
  - rewrite lookup_insert_ne, eq_bytes_ne by assumption. apply I.
Qed.

Lemma id_release_inv max l gs1 i gs2 :
  id_inv max (l, gs1 ++ i :: gs2) -> id_inv max (identity_release i l, gs1 ++ gs2).
Proof.
  intros [M I]. cbn [fst snd] in *. assert (H : forall j, held j (gs1 ++ i :: gs2) = (if eq_bytes i j then 1 else 0) + held j (gs1 ++ gs2)).
  { intros j. rewrite !held_app, held_cons. lia. }
  destruct (I i) as [Li Bi]. rewrite H, eq_bytes_refl in Li, Bi. pose proof (held_nonneg i (gs1 ++ gs2)) as N0.
  unfold identity_release. rewrite Li. destruct (0 <? 1 + held i (gs1 ++ gs2)) eqn:E; [|lia].
  destruct (1 + held i (gs1 ++ gs2) >? 1) eqn:G; (split; [exact M|]); intros j; cbn [fst snd in_flight];
    destruct (decide (i = j)) as [<-|N]; rewrite ?lookup_insert_eq, ?lookup_delete_eq, ?lookup_insert_ne, ?lookup_delete_ne by assumption.
  - destruct (0 <? held i (gs1 ++ gs2)) eqn:Q; [split; [f_equal; lia | lia] | lia].
  - specialize (I j). rewrite H, (eq_bytes_ne i j) in I by assumption. exact I.
  - destruct (0 <? held i (gs1 ++ gs2)) eqn:Q; [lia|]. split; [reflexivity | lia].
  - specialize (I j). rewrite H, (eq_bytes_ne i j) in I by assumption. exact I.
Qed.

Lemma id_reachable_inv max x : rtc id_step (identity_new (Some max), []) x -> id_inv max x.
Proof.
  intros R. remember (identity_new (Some max), []) as s0 eqn:E.
  assert (I0 : id_inv max s0).
  { subst. split; [reflexivity|]. intros i. cbn. rewrite lookup_empty. unfold held. cbn. split; [reflexivity | lia]. }
  clear E. induction R as [|a b c St _ IH]; [exact I0|]. apply IH. destruct St as [l gs i l' H|l gs i l' H|l gs1 i gs2].
  - eapply id_admit_inv; eassumption.
  - destruct I0 as [M I]. cbn [fst snd] in *. unfold identity_acquire in H. rewrite M in H.
    destruct (_ >=? _); [|discriminate]. injection H as <-. split; [reflexivity | exact I].
  - apply id_release_inv, I0.
Qed.

(** ** Idle timeout *)

(** [SlowClientPolicy::keepalive_idle_secs]: [div_ceil(1000).max(1)]. *)
Definition keepalive_idle_secs (keepalive_idle_timeout_ms : Z) : Z :=
  Z.max ((keepalive_idle_timeout_ms + 999) / 1000) 1.

(** ** Properties *)

(** C35. The lock-free limiters never over-admit: in every interleaving of the atomic
    operations of any number of threads, the number of slots in use is exactly the
    number of threads that hold one, it never exceeds the configured limit and never
    underflows, and the grant counter equals, modulo 2^64, the admissions that ended
    plus those still counted.  This covers [GlobalInFlightLimiter] and
    [LongLivedRegistry], which differ in what an admission carries. *)
Theorem slots_never_exceed_limit {A C O} (fresh : A) (hold : O -> A * C -> A * C) finish limit c n s :
  reachable fresh hold finish limit c n s ->
  active (sh s) = tally owns (pool s) /\ 0 <= active (sh s) <= Z.max 0 limit /\
  granted_total (sh s) = (finished s + tally counted (pool s)) mod (u64_max + 1).
Proof.
  intros [IA IL IG _ _ _ _]%reachable_inv. split; [assumption|]. split; [|assumption].
  split; [rewrite IA; apply tally_nonneg, owns_nonneg | assumption].
Qed.

Definition one_slot : @system unit unit :=
  {| sh := {| active := 1; granted_total := 0; refused_total := 1; max_active_observed := 0; counters := tt |};
     pool := [Counting 1; Idle]; peak := 1; finished := 0 |}.

(** Take one step of thread [i] by the operation [tac], and normalise the state. *)
Ltac thread_step i tac :=
  eapply rtc_l; [eapply (step_thread _ _ _ _ _ i); [reflexivity | tac]|];
  match goal with |- rtc _ ?s _ => let s' := eval vm_compute in s in change s with s' end.

(** Two threads race for one slot: the second one sees it taken and is refused. *)
Lemma one_slot_reachable : reachable tt no_hold no_finish 1 tt 2 one_slot.
Proof.
  unfold reachable, one_slot.
  thread_step 0%nat ltac:(apply act_call). thread_step 0%nat ltac:(apply act_load).
  thread_step 1%nat ltac:(apply act_call).
  thread_step 0%nat ltac:(apply act_take; [cbn; lia | reflexivity]).
  thread_step 1%nat ltac:(apply act_load). thread_step 1%nat ltac:(apply act_full; cbn; lia).
  apply rtc_refl.
Qed.

Lemma slots_never_exceed_limit_witness :
  active (sh one_slot) = tally owns (pool one_slot) /\ 0 <= active (sh one_slot) <= Z.max 0 1.
Proof.
  pose proof (slots_never_exceed_limit tt no_hold no_finish 1 tt 2 one_slot one_slot_reachable) as (H1 & H2 & _).
  split; assumption.
Defined.

(** The high-water mark is exact: it never overstates, and whenever no thread is
    inside the recording loop it equals the largest number of slots that were ever in use
    at once, although the mark is updated after the slot is taken and by racing
    compare-exchange loops. *)
Theorem high_water_mark_exact {A C O} (fresh : A) (hold : O -> A * C -> A * C) finish limit c n s :
  reachable fresh hold finish limit c n s ->
  max_active_observed (sh s) <= peak s <= Z.max 0 limit /\ active (sh s) <= peak s /\
  ((forall i p m, pool s !! i = Some p -> ~ pending m p) -> max_active_observed (sh s) = peak s).
Proof.
  intros [_ _ _ [IP1 IP2] _ _ IM]%reachable_inv. split; [lia|]. split; [lia|].
  intros Hq. destruct IM as [IM|(i & p & Hp & Hm)]; [lia|]. destruct (Hq i p _ Hp Hm).
Qed.

Lemma high_water_mark_exact_witness :
  max_active_observed (sh one_slot) <= peak one_slot <= Z.max 0 1.
Proof. apply (high_water_mark_exact tt no_hold no_finish 1 tt 2 one_slot one_slot_reachable). Defined.

(** Every long-lived response is accounted for exactly once: when no admission is
    live, the accepted total equals, modulo 2^64, the completed plus the cancelled ones,
    the totals are those counts, and every drained response is also counted as
    completed. *)
Theorem long_lived_accounting limit n s :
  long_lived_reachable limit n s -> Forall (fun p => p = Idle) (pool s) ->
  active (sh s) = 0 /\ exists nc nx nd,
    0 <= nd <= nc /\ 0 <= nx /\
    granted_total (sh s) = (nc + nx) mod two64 /\ completed_total (counters (sh s)) = nc mod two64 /\
    cancelled_total (counters (sh s)) = nx mod two64 /\ drained_total (counters (sh s)) = nd mod two64.
Proof.
  intros R Q. destruct (ledger_exists _ _ _ R) as (nc & nx & nd & [L1 L2 L3 L4 L5 L6 L7]).
  apply reachable_inv in R as [IA _ IG _ _ _ _]. rewrite (tally_all_idle owns _ eq_refl Q) in IA.
  rewrite (tally_all_idle counted _ eq_refl Q) in IG. rewrite (tally_all_idle drained_here _ eq_refl Q) in L5.
  split; [assumption|]. exists nc, nx, nd. rewrite IG, L4, Z.add_0_r. repeat split; try assumption; lia.
Qed.

Definition one_streamed : @system LongLivedAdmission LongLivedCounters :=
  {| sh := {| active := 0; granted_total := 1; refused_total := 0; max_active_observed := 1;
              counters := {| completed_total := 1; drained_total := 1; cancelled_total := 0;
                             downstream_timeout_total := 0; bytes_streamed_total := 5 |} |};
     pool := [Idle]; peak := 1; finished := 1 |}.

Lemma one_streamed_reachable : long_lived_reachable 3 1 one_streamed.
Proof.
  unfold long_lived_reachable, reachable, one_streamed.
  thread_step 0%nat ltac:(apply act_call). thread_step 0%nat ltac:(apply act_load).
  thread_step 0%nat ltac:(apply act_take; [cbn; lia | reflexivity]).
  thread_step 0%nat ltac:(apply act_count). thread_step 0%nat ltac:(apply act_max_load).
  thread_step 0%nat ltac:(apply act_max_set; [cbn; lia | reflexivity]).
  thread_step 0%nat ltac:(eapply (act_hold _ _ _ _ _ (RecordBytes 5)); reflexivity).
  thread_step 0%nat ltac:(eapply (act_hold _ _ _ _ _ CompleteDrained); reflexivity).
  thread_step 0%nat ltac:(apply act_release). thread_step 0%nat ltac:(apply act_finish).
  apply rtc_refl.
Qed.

Lemma long_lived_accounting_witness : active (sh one_streamed) = 0.
Proof. apply (long_lived_accounting 3 1 one_streamed one_streamed_reachable). repeat constructor. Defined.

(** Fair shares are per identity: in every sequence of acquisitions and drops the
    table holds for each identity exactly the number of its live guards (and no entry for
    the others), that number never exceeds the share, and the next acquisition of an
    identity is admitted iff it is below its share, whatever the others hold. *)
Theorem identity_shares_are_exact max x i :
  rtc id_step (identity_new (Some max), []) x ->
  unwrap_or 0 (in_flight (fst x) !! i) = held i (snd x) /\ held i (snd x) <= Z.max 0 max /\
  (in_flight (fst x) !! i = None <-> held i (snd x) = 0) /\
  (fst (identity_acquire i (fst x)) = Granted i <-> held i (snd x) < max).
Proof.
  intros [M I]%id_reachable_inv. destruct (I i) as [L B]. pose proof (held_nonneg i (snd x)).
  assert (E : unwrap_or 0 (in_flight (fst x) !! i) = held i (snd x)).
  { rewrite L. destruct (0 <? held i (snd x)) eqn:Q; simpl; lia. }
  split; [assumption|]. split; [assumption|]. split.
  - rewrite L. destruct (0 <? held i (snd x)) eqn:Q; split; intros; try discriminate; try reflexivity; lia.
  - unfold identity_acquire. rewrite M, E. destruct (held i (snd x) >=? max) eqn:Q; cbn [fst];
      split; intros; try discriminate; try reflexivity; lia.
Qed.

Lemma identity_shares_are_exact_witness :
  exists l, rtc id_step (identity_new (Some 1), []) (l, [bs "10.0.0.1"]) /\
    fst (identity_acquire (bs "10.0.0.2") l) = Granted (bs "10.0.0.2") /\
    unwrap_or 0 (in_flight l !! bs "10.0.0.1") = 1.
Proof.
  eexists. split; [eapply rtc_once, (id_admit _ _ (bs "10.0.0.1")); reflexivity|]. split.
  - eapply (identity_shares_are_exact 1 (_, [bs "10.0.0.1"]) (bs "10.0.0.2")).
    + eapply rtc_once, (id_admit _ _ (bs "10.0.0.1")). reflexivity.
    + vm_compute. reflexivity.
  - eapply (identity_shares_are_exact 1 (_, [bs "10.0.0.1"]) (bs "10.0.0.1")).
    eapply rtc_once, (id_admit _ _ (bs "10.0.0.1")). reflexivity.
Defined.
