(* ===== verification/FramePool.v ===== *)
(** * FramePool: the edge's pool of idle worker connections

    Model of [crates/oxo-pingora-edge/src/platform/frame_pool.rs].  The pool keeps three
    indexes ([by_key], [by_id], [order]) under one lock, so each call is one transition
    of [Inner].  The specification is one list of idle connections in insertion order;
    the theorems show that the three indexes always agree with such a list and that
    every call is the list operation it stands for. *)

From S2P Require Import Prelude Text.

(** ** Ordered maps

    A [BTreeMap] with integer keys, as its entries in key order. *)
Section BTree.
Context {V : Type}.
Abbreviation btree := (list (Z * V)).

Fixpoint bt_insert (k : Z) (v : V) (m : btree) : btree :=
  match m with
  | [] => [(k, v)]
  | (k', v') :: m' =>
      if k <? k' then (k, v) :: m
      else if k =? k' then (k, v) :: m'
      else (k', v') :: bt_insert k v m'
  end.
Definition bt_get (k : Z) (m : btree) : option V := snd <$> List.find (fun e => fst e =? k) m.
Definition bt_remove (k : Z) (m : btree) : btree := List.filter (fun e => negb (fst e =? k)) m.
Definition bt_pop_first (m : btree) : option ((Z * V) * btree) :=
  match m with [] => None | e :: m' => Some (e, m') end.
End BTree.

(** ** The pool *)

Section Pool.
Context {S : Type}.

Record ConnectionMeta : Type := { key : Z; id : Z }.
(** An entry; its two notification channels are named by its id. *)
Record Entry : Type := { conn : S; e_id : Z }.

Record Inner : Type := {
  next_seq : Z;
  by_key : gmap Z (list (Z * Entry));
  by_id : gmap Z Z;
  order : list (Z * (Z * Z));
  high_water : Z;
}.

(** What a call sends on the channels of the entries it removes. *)
Inductive signal : Type :=
| PickedUp (id : Z)      (** [notify_use.send(true)] *)
| Evicted (id : Z).      (** [notify_close.notify_one()], then the pickup sender drops *)

Definition inner_new : Inner :=
  {| next_seq := 1; by_key := ∅; by_id := ∅; order := []; high_water := 0 |}.
(** [ConnectionPool::new]: the ceiling is at least one. *)
Definition pool_size (size : Z) : Z := Z.max size 1.

(** [if by_key.get(key).is_some_and(|node| node.is_empty()) { by_key.remove(key) }] *)
Definition prune (k : Z) (m : gmap Z (list (Z * Entry))) : gmap Z (list (Z * Entry)) :=
  match m !! k with Some [] => delete k m | _ => m end.
(** [by_key.get_mut(key).and_then(|node| node.remove(seq))] *)
Definition node_remove (k seq : Z) (m : gmap Z (list (Z * Entry)))
    : option Entry * gmap Z (list (Z * Entry)) :=
  match m !! k with
  | Some node => (bt_get seq node, <[k := bt_remove seq node]> m)
  | None => (None, m)
  end.

Definition evict_oldest (g : Inner) : option Entry * Inner :=
  match bt_pop_first (order g) with
  | None => (None, g)
  | Some ((seq, (k, i)), order') =>
      let '(e, m) := node_remove k seq (by_key g) in
      (e, {| next_seq := next_seq g; by_key := prune k m; by_id := delete i (by_id g); order := order';
             high_water := high_water g |})
  end.

Definition get (k : Z) (g : Inner) : option S * Inner * list signal :=
  match by_key g !! k with
  | None => (None, g, [])
  | Some node =>
      match bt_pop_first node with
      | None => (None, g, [])
      | Some ((seq, e), node') =>
          (Some (conn e),
           {| next_seq := next_seq g; by_key := prune k (<[k := node']> (by_key g));
              by_id := delete (e_id e) (by_id g); order := bt_remove seq (order g);
              high_water := high_water g |},
           [PickedUp (e_id e)])
      end
  end.

Definition put (size : Z) (meta : ConnectionMeta) (c : S) (g : Inner) : Inner * list signal :=
  let seq := next_seq g in
  let node := unwrap_or [] (by_key g !! key meta) in
  let order' := bt_insert seq (key meta, id meta) (order g) in
  let offered := zlen order' in
  let g1 :=
    {| next_seq := seq + 1;
       by_key := <[key meta := bt_insert seq {| conn := c; e_id := id meta |} node]> (by_key g);
       by_id := <[id meta := seq]> (by_id g); order := order';
       high_water := if offered >? high_water g then offered else high_water g |} in
  if offered >? size
  then let '(v, g2) := evict_oldest g1 in (g2, match v with Some e => [Evicted (e_id e)] | None => [] end)
  else (g1, []).

Definition pop_closed (meta : ConnectionMeta) (g : Inner) : Inner :=
  match by_id g !! id meta with
  | None => {| next_seq := next_seq g; by_key := prune (key meta) (by_key g); by_id := delete (id meta) (by_id g);
               order := order g; high_water := high_water g |}
  | Some seq =>
      let '(_, m) := node_remove (key meta) seq (by_key g) in
      {| next_seq := next_seq g; by_key := prune (key meta) m; by_id := delete (id meta) (by_id g);
         order := bt_remove seq (order g); high_water := high_water g |}
  end.

(** The agreement [Inner::check] asserts in debug builds. *)
Definition check (g : Inner) : Prop :=
  Z.of_nat (map_fold (fun _ node n => length node + n)%nat 0%nat (by_key g)) = zlen (order g) /\
  zlen (order g) = Z.of_nat (size (by_id g)) /\
  forall seq k i, In (seq, (k, i)) (order g) ->
    by_id g !! i = Some seq /\ exists node e, by_key g !! k = Some node /\ bt_get seq node = Some e.

(** ** Specification: one list, oldest first *)

Record item : Type := { i_seq : Z; i_key : Z; i_id : Z; i_conn : S }.

Definition of_key (k : Z) (l : list item) : list item := List.filter (fun x => i_key x =? k) l.
Definition drop_seq (q : Z) (l : list item) : list item := List.filter (fun x => negb (i_seq x =? q)) l.

Definition spec_get (k : Z) (l : list item) : option item * list item :=
  match of_key k l with
  | [] => (None, l)
  | x :: _ => (Some x, drop_seq (i_seq x) l)
  end.
Definition spec_put (size : Z) (x : item) (l : list item) : list item * option item :=
  if zlen (l ++ [x]) >? size
  then match l ++ [x] with v :: rest => (rest, Some v) | [] => ([], None) end
  else (l ++ [x], None).
Definition spec_close (i : Z) (l : list item) : list item := List.filter (fun x => negb (i_id x =? i)) l.

(** ** Refinement relation *)

Definition to_entry (x : item) : Z * Entry := (i_seq x, {| conn := i_conn x; e_id := i_id x |}).
Definition to_order (x : item) : Z * (Z * Z) := (i_seq x, (i_key x, i_id x)).
Definition node_of (k : Z) (l : list item) : list (Z * Entry) := map to_entry (of_key k l).

Fixpoint ascending (lo : Z) (l : list item) (hi : Z) : Prop :=
  match l with
  | [] => lo <= hi
  | x :: l' => lo <= i_seq x /\ ascending (i_seq x + 1) l' hi
  end.

Record agrees (g : Inner) (l : list item) : Prop := {
  ag_order : order g = map to_order l;
  ag_key : forall k, by_key g !! k = match node_of k l with [] => None | n => Some n end;
  ag_id : forall i q, by_id g !! i = Some q <-> exists x, In x l /\ i_id x = i /\ i_seq x = q;
  ag_seq : ascending 1 l (next_seq g);
  ag_ids : NoDup (map i_id l);
}.
End Pool.
Arguments Inner : clear implicits.
Arguments Entry : clear implicits.
Arguments item : clear implicits.

(** ** Configuration of the ceiling *)

(** [worker_count.max(1) * 32] on [usize]; the product is the machine's. *)
Definition default_idle_ceiling (worker_count : Z) : Z := Z.max 512 (Z.max worker_count 1 * 32).

Inductive IdleCeilingSource : Type := FromEnv | FromDefault.

Definition resolve_idle_ceiling (raw : option bytes) (worker_count : Z) : Z * IdleCeilingSource :=
  match raw with
  | Some v =>
      match parse_uint u64_max (trim v) with
      | Some n => if n >? 0 then (n, FromEnv) else (default_idle_ceiling worker_count, FromDefault)
      | None => (default_idle_ceiling worker_count, FromDefault)
      end
  | None => (default_idle_ceiling worker_count, FromDefault)
  end.

(** [parse_pool_impl]: the only implementation is the owned one; an error tells whether
    the retired name was used. *)
Definition parse_pool_impl (raw : option bytes) : result bool unit :=
  match raw with
  | None => Ok tt
  | Some v => if bool_decide (trim v = []) || eq_bytes (trim v) (bs "owned") then Ok tt
              else Err (eq_bytes (trim v) (bs "pingora"))
  end.

(** ** Facts *)

Section Facts.
Context {S : Type}.
Implicit Types (l : list (item S)) (x y : item S) (g : Inner S).

Lemma ascending_weaken lo lo' l hi : ascending lo l hi -> lo' <= lo -> ascending lo' l hi.
Proof. destruct l; simpl; [lia|]. intros [? ?] ?. split; [lia | assumption]. Qed.
Lemma ascending_le lo l hi : ascending lo l hi -> lo <= hi.
Proof. revert lo. induction l as [|z l IH]; simpl; [auto|]. intros lo [? H]. apply IH in H. lia. Qed.
Lemma ascending_range lo l hi x : ascending lo l hi -> In x l -> lo <= i_seq x < hi.
Proof.
  revert lo. induction l as [|y l IH]; intros lo; simpl; [tauto|]. intros [Hy Ha] [<-|Hin].
  - apply ascending_le in Ha. lia.
  - specialize (IH _ Ha Hin). lia.
Qed.
Lemma ascending_unique lo l hi x y : ascending lo l hi -> In x l -> In y l -> i_seq x = i_seq y -> x = y.
Proof.
  revert lo. induction l as [|z l IH]; intros lo; simpl; [tauto|]. intros [Hz Ha] [<-|Hx] [<-|Hy] E; auto.
  - pose proof (ascending_range _ _ _ _ Ha Hy). lia.
  - pose proof (ascending_range _ _ _ _ Ha Hx). lia.
  - eauto.
Qed.
Lemma ascending_filter lo l hi f : ascending lo l hi -> ascending lo (List.filter f l) hi.
Proof.
  revert lo. induction l as [|z l IH]; intros lo; simpl; [auto|]. intros [Hz Ha].
  destruct (f z); simpl; [auto|]. eapply ascending_weaken; [apply IH, Ha | lia].
Qed.
Lemma ascending_snoc lo l hi x : ascending lo l hi -> i_seq x = hi -> ascending lo (l ++ [x]) (hi + 1).
Proof.
  revert lo. induction l as [|z l IH]; intros lo; simpl; [intros ? ->; split; lia|].
  intros [Hz Ha] E. auto.
Qed.
Lemma bt_insert_last {V} (f : item S -> V) lo l hi v :
  ascending lo l hi -> bt_insert hi v (map (fun x => (i_seq x, f x)) l) = map (fun x => (i_seq x, f x)) l ++ [(hi, v)].
Proof.
  revert lo. induction l as [|z l IH]; intros lo Ha; [reflexivity|]. destruct Ha as [Hz Ha]. cbn [map bt_insert].
  pose proof (ascending_le _ _ _ Ha). destruct (Z.ltb_spec hi (i_seq z)); [lia|].
  destruct (Z.eqb_spec hi (i_seq z)); [lia|]. rewrite (IH _ Ha). reflexivity.
Qed.

Lemma bt_remove_map {V} (f : item S -> V) q l :
  bt_remove q (map (fun x => (i_seq x, f x)) l) = map (fun x => (i_seq x, f x)) (drop_seq q l).
Proof.
  induction l as [|z l IH]; [reflexivity|]. unfold bt_remove, drop_seq in *. cbn [map List.filter fst].
  destruct (negb (i_seq z =? q)); cbn [map]; rewrite IH; reflexivity.
Qed.
Lemma of_key_drop k q l : of_key k (drop_seq q l) = drop_seq q (of_key k l).
Proof.
  unfold of_key, drop_seq. induction l as [|z l IH]; [reflexivity|]. cbn [List.filter].
  destruct (negb (i_seq z =? q)) eqn:E, (i_key z =? k) eqn:F; cbn [List.filter]; rewrite ?E, ?F, IH; reflexivity.
Qed.
Lemma node_drop k q l : node_of k (drop_seq q l) = bt_remove q (node_of k l).
Proof. unfold node_of. rewrite of_key_drop. symmetry. apply (bt_remove_map (fun x => {| conn := i_conn x; e_id := i_id x |})). Qed.
Lemma drop_absent q l : (forall x, In x l -> i_seq x <> q) -> drop_seq q l = l.
Proof.
  unfold drop_seq. induction l as [|z l IH]; intros H; [reflexivity|]. cbn [List.filter].
  rewrite (proj2 (Z.eqb_neq _ _)) by (apply H; left; reflexivity). cbn [negb]. f_equal. apply IH. intros; apply H; right; assumption.
Qed.
Lemma drop_head lo x l hi : ascending lo (x :: l) hi -> drop_seq (i_seq x) (x :: l) = l.
Proof.
  intros [_ Ha]. unfold drop_seq at 1. cbn [List.filter]. rewrite Z.eqb_refl. cbn [negb]. apply drop_absent.
  intros y Hy. pose proof (ascending_range _ _ _ _ Ha Hy). lia.
Qed.
Lemma in_drop q l y : In y (drop_seq q l) <-> In y l /\ i_seq y <> q.
Proof. unfold drop_seq. rewrite List.filter_In, negb_true_iff, Z.eqb_neq. reflexivity. Qed.
Lemma id_unique l x y : NoDup (map i_id l) -> In x l -> In y l -> i_id x = i_id y -> x = y.
Proof.
  induction l as [|z l IH]; cbn [map In]; [tauto|]. intros [N ND]%list.NoDup_cons [<-|Hx] [<-|Hy] E; auto.
  - destruct N. rewrite E. apply list_elem_of_In, in_map, Hy.
  - destruct N. rewrite <- E. apply list_elem_of_In, in_map, Hx.
Qed.

Lemma ids_filter f l : NoDup (map i_id l) -> NoDup (map i_id (List.filter f l)).
Proof.
  induction l as [|z l IH]; [auto|]. cbn [map List.filter]. intros [N ND]%list.NoDup_cons.
  destruct (f z); [|auto]. cbn [map]. apply list.NoDup_cons. split; [|auto].
  intros H. apply N. apply list_elem_of_In, in_map_iff in H as (y & <- & Hy). apply List.filter_In in Hy as [Hy _].
  apply list_elem_of_In, in_map, Hy.
Qed.

(** Every removal takes one connection out of the three indexes at once. *)
Definition removed (x : item S) (g : Inner S) : Inner S :=
  {| next_seq := next_seq g;
     by_key := prune (i_key x) (<[i_key x := bt_remove (i_seq x) (unwrap_or [] (by_key g !! i_key x))]> (by_key g));
     by_id := delete (i_id x) (by_id g); order := bt_remove (i_seq x) (order g); high_water := high_water g |}.

Lemma node_at g l k : agrees g l -> unwrap_or [] (by_key g !! k) = node_of k l.
Proof. intros A. rewrite (ag_key _ _ A). destruct (node_of k l); reflexivity. Qed.

Lemma removed_agrees g l x : agrees g l -> In x l -> agrees (removed x g) (drop_seq (i_seq x) l).
Proof.
  intros A Hx. pose proof A as [Ao Ak Ai As An]. constructor; cbn [removed order by_key by_id next_seq].
  - rewrite Ao. apply (bt_remove_map (fun x => (i_key x, i_id x))).
  - intros k. rewrite (node_at _ _ _ A), <- node_drop. unfold prune. rewrite lookup_insert_eq.
    destruct (decide (i_key x = k)) as [<-|N].
    + destruct (node_of (i_key x) (drop_seq (i_seq x) l)) eqn:E; [rewrite lookup_delete_eq | rewrite lookup_insert_eq]; reflexivity.
    + assert (node_of k (drop_seq (i_seq x) l) = node_of k l) as ->.
      { unfold node_of. rewrite of_key_drop, drop_absent; [reflexivity|]. intros y Hy E.
        unfold of_key in Hy. apply List.filter_In in Hy as [Hy Hk].
        assert (y = x) as -> by (eapply ascending_unique; eassumption). lia. }
      destruct (node_of (i_key x) _); [rewrite lookup_delete_ne|]; rewrite ?lookup_insert_ne by assumption; auto.
  - intros i q. rewrite lookup_delete_Some, Ai. split.
    + intros [N (y & Hy & <- & <-)]. exists y. rewrite in_drop. repeat split; try assumption.
      intros E. apply N. f_equal. eapply ascending_unique; eauto.
    + intros (y & Hy & <- & <-). rewrite in_drop in Hy. destruct Hy as [Hy N]. split; [|eauto].
      intros E. apply N. f_equal. symmetry. eapply id_unique; eauto.
  - apply ascending_filter, As.
  - apply ids_filter, An.
Qed.

(** ** The calls, through the specification *)

Lemma new_agrees : agrees (@inner_new S) [].
Proof.
  constructor; cbn; try reflexivity; try lia; [|constructor].
  intros i q. rewrite lookup_empty. split; [discriminate | intros (x & [] & _)].
Qed.

Lemma get_refines g l k :
  agrees g l ->
  let '(r, g', sigs) := get k g in
  let '(x, l') := spec_get k l in
  agrees g' l' /\ r = (i_conn <$> x) /\ sigs = match x with Some x => [PickedUp (i_id x)] | None => [] end.
Proof.
  intros A. unfold get, spec_get. rewrite (ag_key _ _ A). unfold node_of.
  destruct (of_key k l) as [|x es] eqn:E; cbn [map]; [auto|]. cbn [bt_pop_first to_entry conn e_id].
  assert (Hx : In x l /\ i_key x = k).
  { assert (In x (of_key k l)) as H by (rewrite E; left; reflexivity). unfold of_key in H.
    apply List.filter_In in H as [? ?]. split; [assumption | lia]. }
  destruct Hx as [Hx <-]. split; [|auto]. pose proof (removed_agrees g l x A Hx) as R. unfold removed in R.
  rewrite (node_at _ _ _ A) in R. unfold node_of in R. rewrite E in R.
  assert (bt_remove (i_seq x) (map to_entry (x :: es)) = map to_entry es) as Hr.
  { change (map to_entry ?z) with (map (fun x => (i_seq x, {| conn := i_conn x; e_id := i_id x |})) z).
    rewrite bt_remove_map. rewrite (drop_head 1 x es (next_seq g)); [reflexivity|].
    rewrite <- E. apply ascending_filter, (ag_seq _ _ A). }
  rewrite Hr in R. exact R.
Qed.

Lemma evict_refines g x l :
  agrees g (x :: l) ->
  exists g', evict_oldest g = (Some {| conn := i_conn x; e_id := i_id x |}, g') /\ agrees g' l.
Proof.
  intros A. unfold evict_oldest. rewrite (ag_order _ _ A). cbn [map to_order bt_pop_first].
  pose proof (removed_agrees g (x :: l) x A (or_introl eq_refl)) as R. unfold removed in R.
  rewrite (node_at _ _ _ A), (drop_head _ _ _ _ (ag_seq _ _ A)) in R.
  unfold node_remove. rewrite (ag_key _ _ A). unfold node_of at 1 in R. unfold node_of, of_key in *.
  cbn [List.filter] in *. rewrite Z.eqb_refl in *. cbn [map to_entry] in *.
  eexists. split; [unfold bt_get; cbn [List.find fst]; rewrite Z.eqb_refl; reflexivity|].
  rewrite (ag_order _ _ A) in R. cbn [map to_order] in R.
  assert (Ho : bt_remove (i_seq x) (map to_order (x :: l)) = map to_order l).
  { change (map to_order ?z) with (map (fun x => (i_seq x, (i_key x, i_id x))) z).
    rewrite bt_remove_map, (drop_head _ _ _ _ (ag_seq _ _ A)). reflexivity. }
  cbn [map to_order] in Ho. rewrite Ho in R. exact R.
Qed.

Lemma insert_agrees g l x hw :
  agrees g l -> i_seq x = next_seq g -> (forall y, In y l -> i_id y <> i_id x) ->
  agrees {| next_seq := next_seq g + 1;
            by_key := <[i_key x := bt_insert (next_seq g) {| conn := i_conn x; e_id := i_id x |}
                                     (unwrap_or [] (by_key g !! i_key x))]> (by_key g);
            by_id := <[i_id x := next_seq g]> (by_id g);
            order := bt_insert (next_seq g) (i_key x, i_id x) (order g); high_water := hw |} (l ++ [x]).
Proof.
  intros A Es Fr. pose proof A as [Ao Ak Ai As An]. constructor; cbn [order by_key by_id next_seq].
  - rewrite Ao, map_app. change (map to_order l) with (map (fun x => (i_seq x, (i_key x, i_id x))) l).
    rewrite (bt_insert_last _ 1) by assumption. f_equal. cbn [map]. unfold to_order. rewrite Es. reflexivity.
  - intros k. unfold node_of, of_key. rewrite List.filter_app, map_app. cbn [List.filter].
    destruct (decide (i_key x = k)) as [<-|N].
    + rewrite lookup_insert_eq, (node_at _ _ _ A), Z.eqb_refl. unfold node_of, of_key. cbn [map].
      change (map to_entry ?z) with (map (fun x => (i_seq x, {| conn := i_conn x; e_id := i_id x |})) z) at 1.
      rewrite (bt_insert_last _ 1) by (apply ascending_filter; assumption).
      change (fun x => (i_seq x, {| conn := i_conn x; e_id := i_id x |})) with (@to_entry S).
      change (to_entry x) with (i_seq x, {| conn := i_conn x; e_id := i_id x |}). rewrite Es.
      destruct (map to_entry _); reflexivity.
    + rewrite lookup_insert_ne, Ak by assumption. rewrite (proj2 (Z.eqb_neq _ _)) by assumption.
      cbn [map]. rewrite app_nil_r. reflexivity.
  - intros i q. rewrite lookup_insert_Some, Ai. split.
    + intros [[<- <-]|[N (y & Hy & E)]]; [exists x | exists y]; rewrite in_app_iff; simpl; auto.
    + intros (y & [Hy|[<-|[]]]%in_app_iff & <- & <-); [right | left; auto]. split; [|eauto]. intros E. eapply Fr; eauto.
  - apply ascending_snoc; assumption.
  - rewrite map_app. apply list.NoDup_app. split; [assumption|]. split; [|apply NoDup_singleton].
    intros i Hi Hx. apply list_elem_of_singleton in Hx. subst i.
    apply list_elem_of_In, in_map_iff in Hi as (y & E & Hy). exact (Fr y Hy E).
Qed.

Lemma put_refines size g l meta c :
  agrees g l -> (forall y, In y l -> i_id y <> id meta) ->
  let x := {| i_seq := next_seq g; i_key := key meta; i_id := id meta; i_conn := c |} in
  let '(g', sigs) := put size meta c g in
  let '(l', v) := spec_put size x l in
  agrees g' l' /\ sigs = match v with Some v => [Evicted (i_id v)] | None => [] end /\
  high_water g' = Z.max (high_water g) (zlen l + 1).
Proof.
  intros A Fr x. pose proof (fun hw => insert_agrees g l x hw A eq_refl Fr) as I. unfold put, spec_put.
  assert (L : zlen (bt_insert (next_seq g) (key meta, id meta) (order g)) = zlen l + 1).
  { pose proof (ag_order _ _ (I 0)) as E. cbn [order i_key i_id x] in E. rewrite E. unfold zlen.
    rewrite length_map, length_app. cbn [length]. lia. }
  rewrite L, zlen_app, zlen_cons, zlen_nil, Z.add_0_r.
  assert (HW : (if zlen l + 1 >? high_water g then zlen l + 1 else high_water g) = Z.max (high_water g) (zlen l + 1))
    by (cases_if; lia).
  destruct (zlen l + 1 >? size); [|split; [apply I | split; [reflexivity | exact HW]]].
  destruct (l ++ [x]) as [|v rest] eqn:E; [destruct l; discriminate|].
  match goal with |- context [evict_oldest ?g1] => assert (A1 : agrees g1 (v :: rest)) by apply I;
    destruct (evict_refines g1 v rest A1) as (g' & Ev & A'); rewrite Ev end.
  split; [assumption|]. split; [reflexivity|]. clear -Ev HW.
  unfold evict_oldest in Ev. cbn [order high_water] in Ev.
  destruct (bt_pop_first _) as [[[q [k i]] o]|]; [|discriminate].
  destruct (node_remove _ _ _) as [e m]. injection Ev as _ <-. exact HW.
Qed.

Lemma close_is_drop l x : NoDup (map i_id l) -> In x l ->
  (forall y, In y l -> i_seq y = i_seq x -> y = x) -> spec_close (i_id x) l = drop_seq (i_seq x) l.
Proof.
  intros ND Hx U. unfold spec_close, drop_seq. apply List.filter_ext_in. intros y Hy. f_equal.
  destruct (Z.eqb_spec (i_id y) (i_id x)) as [E|E].
  - rewrite (id_unique _ _ _ ND Hy Hx E), Z.eqb_refl. reflexivity.
  - destruct (Z.eqb_spec (i_seq y) (i_seq x)) as [F|]; [|reflexivity]. rewrite (U y Hy F) in E. contradiction.
Qed.

Lemma close_refines g l meta :
  agrees g l -> (forall x, In x l -> i_id x = id meta -> i_key x = key meta) ->
  agrees (pop_closed meta g) (spec_close (id meta) l).
Proof.
  intros A K. pose proof A as [Ao Ak Ai As An]. unfold pop_closed.
  destruct (by_id g !! id meta) as [q|] eqn:E.
  - apply Ai in E as (x & Hx & Ei & <-). specialize (K x Hx Ei). rewrite <- Ei, <- K.
    pose proof (removed_agrees g l x A Hx) as R. unfold removed in R. unfold node_remove.
    rewrite close_is_drop; try assumption; [|intros; eapply ascending_unique; eassumption].
    pose proof (node_at g l (i_key x) A) as N. destruct (by_key g !! i_key x) as [node|] eqn:B; cbn [unwrap_or] in *; [exact R|].
    exfalso. assert (In (to_entry x) (node_of (i_key x) l)) as H.
    { apply in_map. unfold of_key. apply List.filter_In. split; [assumption | apply Z.eqb_refl]. }
    rewrite <- N in H. destruct H.
  - assert (spec_close (id meta) l = l) as ->.
    { unfold spec_close. induction l as [|x l IH]; [reflexivity|]. clear IH. apply List.forallb_filter_id.
      apply forallb_forall. intros y Hy. apply negb_true_iff, Z.eqb_neq. intros F.
      rewrite (proj2 (Ai _ _) (ex_intro _ y (conj Hy (conj F eq_refl)))) in E. discriminate. }
    constructor; cbn [order by_key by_id next_seq]; try assumption.
    + intros k. unfold prune. destruct (by_key g !! key meta) as [[|n node]|] eqn:B; try apply Ak.
      rewrite Ak in B. destruct (node_of (key meta) l); discriminate.
    + intros i q. rewrite lookup_delete_Some, <- Ai. split; [tauto|]. intros H. split; [|exact H]. intros <-. congruence.
Qed.
End Facts.

(** ** Histories

    A history interleaves calls of any threads; each is atomic.  The caller's discipline
    is that an id is not put while it is still idle, and that an id belongs to one key. *)

Section Histories.
Context {S : Type}.
Variable size : Z.

Inductive pool_step : Inner S * list (item S) -> Inner S * list (item S) -> Prop :=
| ps_get g l k r g' sigs x l' :
    get k g = (r, g', sigs) -> spec_get k l = (x, l') -> pool_step (g, l) (g', l')
| ps_put g l meta c g' sigs l' v :
    (forall y, In y l -> i_id y <> id meta) -> put (pool_size size) meta c g = (g', sigs) ->
    spec_put (pool_size size) {| i_seq := next_seq g; i_key := key meta; i_id := id meta; i_conn := c |} l = (l', v) ->
    pool_step (g, l) (g', l')
| ps_close g l meta :
    (forall x, In x l -> i_id x = id meta -> i_key x = key meta) ->
    pool_step (g, l) (pop_closed meta g, spec_close (id meta) l).

Definition pool_reachable (x : Inner S * list (item S)) : Prop := rtc pool_step (inner_new, []) x.

Lemma zlen_filter f (l : list (item S)) : zlen (List.filter f l) <= zlen l.
Proof. induction l as [|x l IH]; simpl; [lia|]. destruct (f x); rewrite ?zlen_cons; lia. Qed.

Lemma spec_put_bound x (l : list (item S)) :
  zlen l <= pool_size size -> zlen (fst (spec_put (pool_size size) x l)) <= pool_size size.
Proof.
  intros H. unfold spec_put. destruct (zlen (l ++ [x]) >? pool_size size) eqn:E; [|simpl; lia].
  rewrite zlen_app, zlen_cons, zlen_nil in E. destruct (l ++ [x]) as [|v rest] eqn:F; [destruct l; discriminate|].
  apply (f_equal zlen) in F. rewrite zlen_app, !zlen_cons, zlen_nil in F. simpl. lia.
Qed.

Lemma pool_step_inv x y :
  pool_step x y -> agrees (fst x) (snd x) /\ zlen (snd x) <= pool_size size ->
  agrees (fst y) (snd y) /\ zlen (snd y) <= pool_size size.
Proof.
  intros [g l k r g' sigs z l' Hg Hs | g l meta c g' sigs l' v Fr Hp Hs | g l meta K] [A B]; cbn [fst snd] in *.
  - pose proof (get_refines g l k A) as R. rewrite Hg, Hs in R. destruct R as (A' & _). split; [assumption|].
    unfold spec_get in Hs. destruct (of_key k l); injection Hs as _ <-; [assumption|].
    etransitivity; [apply zlen_filter | assumption].
  - pose proof (put_refines (pool_size size) g l meta c A Fr) as R. cbv zeta in R. rewrite Hp, Hs in R.
    destruct R as (A' & _). split; [assumption|].
    pose proof (spec_put_bound {| i_seq := next_seq g; i_key := key meta; i_id := id meta; i_conn := c |} l B) as Q.
    rewrite Hs in Q. exact Q.
  - split; [apply close_refines; assumption|]. etransitivity; [apply zlen_filter | assumption].
Qed.

Lemma pool_reachable_inv x :
  pool_reachable x -> agrees (fst x) (snd x) /\ zlen (snd x) <= pool_size size.
Proof.
  unfold pool_reachable. intros R. remember (inner_new, []) as x0 eqn:E.
  assert (I0 : agrees (fst x0) (snd x0) /\ zlen (snd x0) <= pool_size size).
  { subst. split; [apply new_agrees|]. unfold pool_size, zlen. simpl. lia. }
  clear E. induction R as [|a b c St _ IH]; [exact I0|]. apply IH. eapply pool_step_inv; eassumption.
Qed.
End Histories.

Definition entries {S} (m : gmap Z (list (Z * Entry S))) : nat :=
  map_fold (fun _ node n => length node + n)%nat 0%nat m.
Lemma entries_insert {S} k node (m : gmap Z (list (Z * Entry S))) :
  m !! k = None -> entries (<[k := node]> m) = (length node + entries m)%nat.
Proof. intros N. unfold entries. rewrite map_fold_insert_L; [reflexivity | intros; lia | exact N]. Qed.
Lemma entries_total {S} (l : list (item S)) m :
  (forall k, m !! k = match node_of k l with [] => None | n => Some n end) -> entries m = length l.
Proof.
  revert m. induction l as [|x l IH]; intros m A.
  - replace m with (∅ : gmap Z (list (Z * Entry S))); [reflexivity|]. apply map_eq. intros k. rewrite A, lookup_empty. reflexivity.
  - set (k0 := i_key x). assert (m !! k0 = Some (to_entry x :: node_of k0 l)) as L.
    { rewrite A. unfold node_of, of_key. cbn [List.filter]. subst k0. rewrite Z.eqb_refl. reflexivity. }
    assert (forall k, k <> k0 -> node_of k (x :: l) = node_of k l) as O.
    { intros k N. unfold node_of, of_key. cbn [List.filter]. fold k0. destruct (Z.eqb_spec k0 k); [congruence | reflexivity]. }
    rewrite <- (insert_delete_id m k0 _ L), entries_insert by apply lookup_delete_eq. cbn [length].
    set (m0 := delete k0 m). assert (m0 !! k0 = None) as N0 by apply lookup_delete_eq.
    assert (forall m', m' !! k0 = match node_of k0 l with [] => None | n => Some n end ->
              (forall k, k <> k0 -> m' !! k = m0 !! k) -> entries m' = length l) as G.
    { intros m' E0 E1. apply IH. intros k. destruct (decide (k = k0)) as [->|N]; [exact E0|].
      rewrite E1 by exact N. subst m0. rewrite lookup_delete_ne by congruence. rewrite A, O by exact N. reflexivity. }
    destruct (node_of k0 l) as [|n ns] eqn:E; cbn [length].
    + rewrite (G m0); [lia | exact N0 | reflexivity].
    + rewrite <- (G (<[k0 := n :: ns]> m0)); [rewrite entries_insert by exact N0; cbn [length]; lia | apply lookup_insert_eq |].
      intros k N. apply lookup_insert_ne. congruence.
Qed.
Lemma agrees_check {S} (g : Inner S) l : agrees g l -> check g.
Proof.
  intros [Ao Ak Ai As An]. split; [|split].
  - change (Z.of_nat (entries (by_key g)) = zlen (order g)). rewrite (entries_total l _ Ak), Ao. unfold zlen.
    rewrite length_map. reflexivity.
  - rewrite Ao. assert (by_id g = list_to_map (map (fun x => (i_id x, i_seq x)) l)) as ->.
    { apply map_eq. intros i. apply option_eq. intros q. rewrite Ai, <- elem_of_list_to_map.
      - rewrite list_elem_of_In, in_map_iff. split.
        + intros (x & Hx & <- & <-). eauto.
        + intros (x & [= <- <-] & Hx). eauto.
      - change (map (fun x => (i_id x, i_seq x)) l).*1 with (map fst (map (fun x => (i_id x, i_seq x)) l)).
        rewrite map_map. exact An. }
    rewrite map_size_list_to_map.
    + unfold zlen. rewrite !length_map. reflexivity.
    + change (map (fun x => (i_id x, i_seq x)) l).*1 with (map fst (map (fun x => (i_id x, i_seq x)) l)).
      rewrite map_map. exact An.
  - intros q k i Hin. rewrite Ao in Hin. apply in_map_iff in Hin as (x & E & Hx). injection E as <- <- <-.
    split; [apply Ai; eauto|]. exists (node_of (i_key x) l). assert (Hn : In (to_entry x) (node_of (i_key x) l)).
    { apply in_map. unfold of_key. apply List.filter_In. split; [assumption | apply Z.eqb_refl]. }
    rewrite Ak. destruct (node_of (i_key x) l) as [|n ns] eqn:E; [destruct Hn|]. rewrite <- E in *.
    unfold bt_get. destruct (List.find _ _) as [e|] eqn:F; [eexists; split; reflexivity|].
    exfalso. pose proof (List.find_none _ _ F _ Hn) as H. cbn in H. lia.
Qed.

(** ** Properties *)

(** The three indexes of the pool never disagree: after any history of checkouts,
    insertions and closes the agreement that debug builds assert holds, and the pool
    never holds more idle connections than its ceiling (at least one), over all workers
    together. *)
Theorem pool_indexes_agree {S} size (x : Inner S * list (item S)) :
  pool_reachable size x -> check (fst x) /\ zlen (order (fst x)) <= pool_size size.
Proof.
  intros [A B]%pool_reachable_inv. split; [eapply agrees_check, A|].
  rewrite (ag_order _ _ A). unfold zlen in *. rewrite length_map. exact B.
Qed.

(** C34. The pool is a bounded queue per worker: in every reachable state a checkout for a
    key returns the connection of that key that has been idle longest and signals it,
    or nothing when there is none; an insertion keeps every connection unless the ceiling
    is exceeded, and then evicts exactly the one that has been idle longest over all
    keys; a close removes at most its own connection, and closing again, or after a
    checkout or an eviction, changes nothing.  The ids are the caller's: an insertion uses one
    that is not idle, a close names an idle connection under its own key. *)
Theorem pool_calls_refine_list {S} size (g : Inner S) (l : list (item S)) :
  pool_reachable size (g, l) ->
  (forall k, let '(r, g', sigs) := get k g in let '(x, l') := spec_get k l in
     agrees g' l' /\ r = (i_conn <$> x) /\ sigs = match x with Some x => [PickedUp (i_id x)] | None => [] end) /\
  (forall meta c, (forall y, In y l -> i_id y <> id meta) ->
     let x := {| i_seq := next_seq g; i_key := key meta; i_id := id meta; i_conn := c |} in
     let '(g', sigs) := put (pool_size size) meta c g in let '(l', v) := spec_put (pool_size size) x l in
     agrees g' l' /\ sigs = match v with Some v => [Evicted (i_id v)] | None => [] end /\
     high_water g' = Z.max (high_water g) (zlen l + 1)) /\
  (forall meta, (forall x, In x l -> i_id x = id meta -> i_key x = key meta) ->
     agrees (pop_closed meta g) (spec_close (id meta) l) /\
     agrees (pop_closed meta (pop_closed meta g)) (spec_close (id meta) l)).
Proof.
  intros [A _]%pool_reachable_inv. cbn [fst snd] in A. split; [intros k; apply get_refines, A|].
  split; [intros meta c Fr; apply put_refines; assumption|]. intros meta K.
  pose proof (close_refines g l meta A K) as A1. split; [assumption|].
  assert (E : spec_close (id meta) (spec_close (id meta) l) = spec_close (id meta) l).
  { apply List.forallb_filter_id, forallb_forall. intros x Hx. apply List.filter_In in Hx as [_ Hx]. exact Hx. }
  rewrite <- E. apply close_refines; [assumption|]. intros x Hx. apply List.filter_In in Hx as [Hx _]. auto.
Qed.

Definition demo_pool : Inner nat * list (item nat) :=
  let '(g1, _) := put 1 {| key := 7; id := 1 |} 10%nat inner_new in
  let '(g2, _) := put 1 {| key := 8; id := 2 |} 20%nat g1 in
  (g2, [{| i_seq := 2; i_key := 8; i_id := 2; i_conn := 20%nat |}]).

Lemma demo_pool_reachable : pool_reachable 1 demo_pool.
Proof.
  unfold pool_reachable, demo_pool.
  eapply rtc_l; [eapply (ps_put 1 inner_new [] {| key := 7; id := 1 |} 10%nat); [intros y [] | reflexivity | reflexivity]|].
  eapply rtc_l; [eapply (ps_put 1 _ _ {| key := 8; id := 2 |} 20%nat); [intros y [<-|[]]; discriminate | reflexivity | reflexivity]|].
  apply rtc_refl.
Qed.

Lemma pool_indexes_agree_witness : zlen (order (fst demo_pool)) <= 1.
Proof. apply (pool_indexes_agree 1 demo_pool demo_pool_reachable). Defined.

Lemma pool_calls_refine_list_witness :
  fst (fst (get 8 (fst demo_pool))) = Some 20%nat /\ fst (fst (get 7 (fst demo_pool))) = None.
Proof.
  destruct (pool_calls_refine_list 1 (fst demo_pool) (snd demo_pool) demo_pool_reachable) as (G & _ & _).
  split.
  - specialize (G 8). destruct (get 8 (fst demo_pool)) as [[r g'] sigs]. cbn in *. apply G.
  - specialize (G 7). destruct (get 7 (fst demo_pool)) as [[r g'] sigs]. cbn in *. apply G.
Defined.
