(* ===== verification/Dispatch.v ===== *)
(** * Dispatch: choosing a worker

    Model of the [dispatch] module of [crates/oxo-pingora-edge/src/platform/frame_hop.rs]:
    the candidate orders of the four dispatch modes, and the sticky pin store with its
    per-worker pin counts.  The in-flight gauges are an argument of the selection
    ([depth]); a shard's critical section is one transition of the pin store. *)

From S2P Require Import Prelude Text.

Definition MAX_WORKERS : nat := 16.

Inductive DispatchMode : Type := Rr | LeastOutstanding | FreeFirst | Sticky.

Definition parse_mode (value : bytes) : option DispatchMode :=
  if eq_bytes value (bs "rr") then Some Rr
  else if eq_bytes value (bs "least-outstanding") then Some LeastOutstanding
  else if eq_bytes value (bs "free-first") then Some FreeFirst
  else if eq_bytes value (bs "sticky") then Some Sticky
  else None.
Definition mode_name (m : DispatchMode) : bytes :=
  match m with
  | Rr => bs "rr"
  | LeastOutstanding => bs "least-outstanding"
  | FreeFirst => bs "free-first"
  | Sticky => bs "sticky"
  end.

(** ** Candidate orders *)

Inductive CandidateOrder : Type :=
| Rotated (start n : nat)
| Ordered (buf : list nat).      (** the first [len] entries of the buffer *)

Definition rotation (start n len : nat) : list nat := map (fun o => (start + o) mod n)%nat (seq 0 len).

(** [CandidateOrder::iter] *)
Definition order_iter (c : CandidateOrder) : list nat :=
  match c with Rotated start n => rotation start n n | Ordered buf => buf end.

Section Select.
Variable depth : nat -> nat.    (** [in_flight[i.min(MAX_WORKERS - 1)]] *)

(** [sort_by_key], which is stable. *)
Fixpoint insert_sorted (x : nat) (l : list nat) : list nat :=
  match l with
  | [] => [x]
  | y :: l' => if (depth x <=? depth y)%nat then x :: l else y :: insert_sorted x l'
  end.
Definition sort_by_depth (l : list nat) : list nat := fold_right insert_sorted [] l.

(** [position(|&i| depth(i) == 0)] *)
Fixpoint idle_position (l : list nat) : option nat :=
  match l with
  | [] => None
  | x :: l' => if (depth x =? 0)%nat then Some 0%nat else S <$> idle_position l'
  end.
(** [buf[..=pos].rotate_right(1)] *)
Definition promote (pos : nat) (l : list nat) : list nat :=
  match drop pos l with
  | x :: rest => x :: take pos l ++ rest
  | [] => l
  end.
Definition free_first (l : list nat) : list nat :=
  match l with
  | x :: _ => if (0 <? depth x)%nat
              then match idle_position l with Some pos => promote pos l | None => l end
              else l
  | [] => l
  end.

Definition candidate_order_with (start n : nat) (m : DispatchMode) : CandidateOrder :=
  match m with
  | Rr => Rotated start n
  | _ =>
      let buf := rotation start n (Nat.min n MAX_WORKERS) in
      match m with
      | Rr => Rotated start n
      | LeastOutstanding | Sticky => Ordered (sort_by_depth buf)
      | FreeFirst => Ordered (free_first buf)
      end
  end.
End Select.

Definition sticky_order (pinned start n : nat) : CandidateOrder :=
  let len := Nat.min n MAX_WORKERS in
  let first := Nat.min pinned (len - 1) in
  Ordered (first :: List.filter (fun i => negb (i =? first)%nat) (rotation start len len)).

(** ** Facts on orders *)

Lemma rotation_mod start n len : (0 < n)%nat -> rotation (start mod n) n len = rotation start n len.
Proof. intros Hn. unfold rotation. apply map_ext. intros o. apply Nat.Div0.add_mod_idemp_l. Qed.

Lemma seq_split a n : (a <= n)%nat -> seq 0 n = seq 0 a ++ seq a (n - a).
Proof. intros H. pose proof (seq_app a (n - a) 0) as E. replace (a + (n - a))%nat with n in E by lia. exact E. Qed.

Lemma rotation_split s n : (s < n)%nat -> rotation s n n = seq s (n - s) ++ seq 0 s.
Proof.
  intros Hs. unfold rotation.
  rewrite (seq_split (n - s)), map_app by lia. replace (n - (n - s))%nat with s by lia. f_equal.
  - rewrite (map_ext_in _ (fun o => s + o)%nat).
    + rewrite <- (map_id (seq s (n - s))). clear Hs. generalize (n - s)%nat as k. intros k.
      assert (forall a, map (fun o => s + o)%nat (seq a k) = map (fun x => x) (seq (s + a) k)) as G.
      { induction k as [|k IH]; intros a; [reflexivity|]. cbn [seq map]. rewrite IH, Nat.add_succ_r. reflexivity. }
      rewrite G, Nat.add_0_r. reflexivity.
    + intros o Ho. apply in_seq in Ho. apply Nat.mod_small. lia.
  - rewrite (map_ext_in _ (fun o => o - (n - s))%nat).
    + assert (forall k a, map (fun o => o - (n - s))%nat (seq ((n - s) + a) k) = seq a k) as G.
      { induction k as [|k IH]; intros a; [reflexivity|]. cbn [seq map]. f_equal; [lia|].
        rewrite <- Nat.add_succ_r. apply IH. }
      specialize (G s 0%nat). rewrite Nat.add_0_r in G. exact G.
    + intros o Ho. apply in_seq in Ho. replace (s + o)%nat with ((o - (n - s)) + 1 * n)%nat by lia.
      rewrite Nat.Div0.mod_add. apply Nat.mod_small. lia.
Qed.

Lemma rotation_permutation start n : (0 < n)%nat -> rotation start n n ≡ₚ seq 0 n.
Proof.
  intros Hn. rewrite <- rotation_mod by assumption. pose proof (Nat.mod_upper_bound start n ltac:(lia)) as Hs.
  rewrite rotation_split by assumption. rewrite Permutation_app_comm.
  rewrite <- seq_split by lia. reflexivity.
Qed.

Section SelectFacts.
Variable depth : nat -> nat.

Lemma insert_sorted_perm x l : insert_sorted depth x l ≡ₚ x :: l.
Proof.
  induction l as [|y l IH]; [reflexivity|]. cbn [insert_sorted]. destruct (_ <=? _)%nat; [reflexivity|].
  rewrite IH. apply Permutation_swap.
Qed.
Lemma sort_perm l : sort_by_depth depth l ≡ₚ l.
Proof.
  induction l as [|x l IH]; [reflexivity|]. cbn [sort_by_depth fold_right].
  change (fold_right (insert_sorted depth) [] l) with (sort_by_depth depth l). rewrite insert_sorted_perm, IH. reflexivity.
Qed.

(** The first candidate has the least depth, and among those comes first in the rotation. *)
Lemma sort_head l x rest :
  sort_by_depth depth l = x :: rest ->
  (forall y, In y l -> (depth x <= depth y)%nat) /\
  exists a b, l = a ++ x :: b /\ forall y, In y a -> (depth x < depth y)%nat.
Proof.
  revert x rest. induction l as [|z l IH]; [discriminate|]. intros x rest. cbn [sort_by_depth fold_right].
  change (fold_right (insert_sorted depth) [] l) with (sort_by_depth depth l).
  destruct (sort_by_depth depth l) as [|h t] eqn:E.
  - intros [= <- <-]. assert (l = []) as -> by (apply Permutation_nil; rewrite <- E; apply sort_perm).
    split; [intros y [<-|[]]; lia|]. exists [], []. split; [reflexivity | intros y []].
  - destruct (IH h t eq_refl) as (M & a & b & El & Ha). cbn [insert_sorted].
    destruct (Nat.leb_spec (depth z) (depth h)).
    + intros [= <- <-]. split; [intros y [<-|Hy]; [lia | specialize (M y Hy); lia]|].
      exists [], l. split; [reflexivity | intros y []].
    + intros [= <- <-]. split; [intros y [<-|Hy]; [lia | apply M, Hy]|].
      exists (z :: a), b. split; [rewrite El; reflexivity|]. intros y [<-|Hy]; [lia | apply Ha, Hy].
Qed.

Lemma promote_perm pos l : promote pos l ≡ₚ l.
Proof.
  unfold promote. destruct (drop pos l) as [|x rest] eqn:E; [reflexivity|].
  rewrite <- (take_drop pos l) at 2. rewrite E. apply Permutation_middle.
Qed.
Lemma free_first_perm l : free_first depth l ≡ₚ l.
Proof.
  destruct l as [|x l]; [reflexivity|]. unfold free_first. destruct (0 <? depth x)%nat; [|reflexivity].
  destruct (idle_position depth (x :: l)); [apply promote_perm | reflexivity].
Qed.
Lemma idle_position_spec l :
  match idle_position depth l with
  | Some p => exists x, l !! p = Some x /\ depth x = 0%nat /\ forall y, In y (take p l) -> (0 < depth y)%nat
  | None => forall y, In y l -> (0 < depth y)%nat
  end.
Proof.
  induction l as [|z l IH]; [intros y []|]. cbn [idle_position]. destruct (Nat.eqb_spec (depth z) 0) as [E|E].
  - exists z. split; [reflexivity|]. split; [assumption | intros y []].
  - destruct (idle_position depth l) as [p|]; cbn.
    + destruct IH as (x & L & D & T). exists x. split; [exact L|]. split; [exact D|]. intros y [<-|Hy]; [lia | auto].
    + intros y [<-|Hy]; [lia | auto].
Qed.
End SelectFacts.

Definition others (first : nat) (l : list nat) : list nat := List.filter (fun i => negb (i =? first)%nat) l.

Lemma others_all first l : ~ In first l -> others first l = l.
Proof.
  induction l as [|x l IH]; [reflexivity|]. intros H. cbn. destruct (Nat.eqb_spec x first) as [->|].
  - destruct H. left. reflexivity.
  - cbn. f_equal. apply IH. intros G. apply H. right. exact G.
Qed.
Lemma others_middle first a b : List.NoDup (a ++ first :: b) -> others first (a ++ first :: b) = a ++ b.
Proof.
  intros H. pose proof (List.NoDup_remove_2 _ _ _ H) as N. unfold others. rewrite List.filter_app. cbn.
  rewrite Nat.eqb_refl. cbn. rewrite <- List.filter_app. apply others_all. exact N.
Qed.
Lemma rotation_nodup start n : (0 < n)%nat -> List.NoDup (rotation start n n).
Proof.
  intros H. apply (Permutation_NoDup (l := seq 0 n)); [symmetry; apply rotation_permutation, H | apply List.seq_NoDup].
Qed.
Lemma rotation_in start n x : (0 < n)%nat -> In x (rotation start n n) <-> (x < n)%nat.
Proof.
  intros H. split; intros G.
  - apply (Permutation_in _ (rotation_permutation start n H)), in_seq in G. lia.
  - apply (Permutation_in _ (symmetry (rotation_permutation start n H))), in_seq. lia.
Qed.
Lemma rotation_cons start n : (0 < n)%nat -> exists rest, rotation start n n = (start mod n)%nat :: rest.
Proof.
  intros H. unfold rotation. destruct n as [|k]; [lia|]. cbn [seq map]. rewrite Nat.add_0_r. eexists. reflexivity.
Qed.

Lemma free_first_spec depth start n :
  (0 < n)%nat ->
  exists first a b,
    rotation start n n = a ++ first :: b /\ free_first depth (rotation start n n) = first :: a ++ b /\
    (depth first = 0%nat /\ (forall y, In y a -> (0 < depth y)%nat) \/ a = [] /\ forall y, (y < n)%nat -> (0 < depth y)%nat).
Proof.
  intros Hn. destruct (rotation_cons start n Hn) as [rest E]. set (x := (start mod n)%nat) in *.
  unfold free_first. rewrite E. destruct (Nat.ltb_spec 0 (depth x)) as [B|B].
  - pose proof (idle_position_spec depth (x :: rest)) as P. destruct (idle_position depth (x :: rest)) as [p|].
    + destruct P as (y & L & D & T). exists y, (take p (x :: rest)), (drop (S p) (x :: rest)).
      pose proof (drop_S (x :: rest) y p L) as Dr.
      split; [rewrite <- Dr; symmetry; apply take_drop|]. split; [unfold promote; rewrite Dr; reflexivity | left; auto].
    + exists x, [], rest. split; [reflexivity|]. split; [reflexivity|]. right. split; [reflexivity|].
      intros y Hy. apply P. rewrite <- E. apply rotation_in; assumption.
  - exists x, [], rest. split; [reflexivity|]. split; [reflexivity|]. left. split; [lia | intros y []].
Qed.

Lemma sticky_order_spec pinned start n :
  (pinned < n <= MAX_WORKERS)%nat ->
  order_iter (sticky_order pinned start n) = pinned :: others pinned (rotation start n n).
Proof.
  intros H. unfold sticky_order, others, rotation. rewrite (Nat.min_l n MAX_WORKERS) by lia.
  rewrite (Nat.min_l pinned) by lia. reflexivity.
Qed.
Lemma others_perm first l : List.NoDup l -> In first l -> first :: others first l ≡ₚ l.
Proof.
  intros N I. apply in_split in I as (a & b & ->). rewrite others_middle by exact N. apply Permutation_middle.
Qed.

Lemma sort_order_spec depth start n :
  (0 < n)%nat ->
  exists first rest a b,
    sort_by_depth depth (rotation start n n) = first :: rest /\ (forall y, (y < n)%nat -> (depth first <= depth y)%nat) /\
    rotation start n n = a ++ first :: b /\ forall y, In y a -> (depth first < depth y)%nat.
Proof.
  intros Hn. destruct (rotation_cons start n Hn) as [t E].
  destruct (sort_by_depth depth (rotation start n n)) as [|first rest] eqn:S.
  - pose proof (sort_perm depth (rotation start n n)) as P. rewrite S, E in P. apply Permutation_nil_cons in P as [].
  - destruct (sort_head depth _ _ _ S) as (M & a & b & R & A). exists first, rest, a, b. split; [reflexivity|].
    split; [intros y Hy; apply M, rotation_in; assumption | auto].
Qed.

(** Every dispatch order tries each worker of the fleet exactly once (round robin for any
    fleet, the gauge-reading modes for up to [MAX_WORKERS]), so that failover along it reaches
    every worker; and its head is what the mode promises: the rotation start for [rr]; for
    [least-outstanding] a worker of least depth, every worker earlier in the rotation being
    strictly deeper; for [free-first] the first idle worker in rotation order, the others
    keeping their order, or plain rotation when none is idle; and under a live pin the pinned
    worker, followed by the rotation of the rest. *)
Theorem dispatch_orders_cover_the_fleet depth start n m :
  (0 < n)%nat -> m = Rr \/ (n <= MAX_WORKERS)%nat ->
  let rr := rotation start n n in
  let order := order_iter (candidate_order_with depth start n m) in
  order ≡ₚ seq 0 n /\
  match m with
  | Rr => order = seq (start mod n) (n - start mod n) ++ seq 0 (start mod n)
  | LeastOutstanding | Sticky =>
      exists first rest a b,
        order = first :: rest /\ (forall y, (y < n)%nat -> (depth first <= depth y)%nat) /\
        rr = a ++ first :: b /\ forall y, In y a -> (depth first < depth y)%nat
  | FreeFirst =>
      exists first a b,
        rr = a ++ first :: b /\ order = first :: others first rr /\
        (depth first = 0%nat /\ (forall y, In y a -> (0 < depth y)%nat) \/
         a = [] /\ forall y, (y < n)%nat -> (0 < depth y)%nat)
  end /\
  forall pinned, (pinned < n <= MAX_WORKERS)%nat ->
    order_iter (sticky_order pinned start n) = pinned :: others pinned rr /\
    order_iter (sticky_order pinned start n) ≡ₚ seq 0 n.
Proof.
  intros Hn Hm rr order. pose proof (rotation_permutation start n Hn) as P. fold rr in P.
  assert (forall pinned, (pinned < n <= MAX_WORKERS)%nat ->
    order_iter (sticky_order pinned start n) = pinned :: others pinned rr /\
    order_iter (sticky_order pinned start n) ≡ₚ seq 0 n) as St.
  { intros pinned Hp. rewrite sticky_order_spec by exact Hp. split; [reflexivity|]. rewrite others_perm; [exact P | |].
    - apply rotation_nodup, Hn.
    - apply rotation_in; lia. }
  assert (m <> Rr -> Nat.min n MAX_WORKERS = n) as Len by (destruct Hm; [contradiction | lia]).
  subst order. destruct m; cbn [candidate_order_with order_iter]; try rewrite Len by discriminate; fold rr.
  - split; [exact P|]. split; [|exact St]. subst rr. rewrite <- rotation_mod by exact Hn.
    apply rotation_split, Nat.mod_upper_bound. lia.
  - split; [rewrite sort_perm; exact P|]. split; [|exact St]. apply sort_order_spec; assumption.
  - destruct (free_first_spec depth start n Hn) as (first & a & b & E & F & D). fold rr in E, F.
    split; [rewrite free_first_perm; exact P|]. split; [|exact St]. exists first, a, b. split; [exact E|].
    split; [|exact D]. rewrite F, E, others_middle; [reflexivity|]. rewrite <- E. apply rotation_nodup, Hn.
  - split; [rewrite sort_perm; exact P|]. split; [|exact St]. apply sort_order_spec; assumption.
Qed.
Lemma dispatch_orders_cover_the_fleet_witness :
  order_iter (candidate_order_with (fun i => nth i [2; 1; 1]%nat 0%nat) 2 3 LeastOutstanding) = [2; 1; 0]%nat /\
  order_iter (candidate_order_with (fun i => nth i [2; 1; 1]%nat 0%nat) 2 3 LeastOutstanding) ≡ₚ seq 0 3.
Proof.
  split; [reflexivity|].
  apply (dispatch_orders_cover_the_fleet (fun i => nth i [2; 1; 1]%nat 0%nat) 2 3 LeastOutstanding); [lia | right; unfold MAX_WORKERS; lia].
Defined.

(** ** The pin store *)

Definition STICKY_SHARDS : nat := 16.
Definition STICKY_SHARD_MAX : nat := Nat.div 4096 STICKY_SHARDS.

Record PinStore : Type := {
  shards : list (gmap Z nat);     (** [STICKY_SHARDS] maps from key to worker *)
  pin_counts : list Z;            (** [PIN_COUNTS], one per worker slot *)
  evict_total : Z;
}.

Definition as_u8 (i : nat) : nat := (i mod 256)%nat.
Definition sticky_shard (key : Z) : nat := Z.to_nat (key mod Z.of_nat STICKY_SHARDS).
Definition shard_of (key : Z) (s : PinStore) : gmap Z nat := unwrap_or ∅ (shards s !! sticky_shard key).
Definition set_shard (key : Z) (m : gmap Z nat) (s : PinStore) : list (gmap Z nat) :=
  <[sticky_shard key := m]> (shards s).

Definition bump (i : nat) (d : Z) (counts : list Z) : list Z := alter (fun c => c + d) i counts.
Definition clamp (i : nat) : nat := Nat.min i (MAX_WORKERS - 1).
(** [if old < MAX_WORKERS { PIN_COUNTS[old].fetch_sub(1) }] *)
Definition unpin (old : nat) (counts : list Z) : list Z :=
  if (old <? MAX_WORKERS)%nat then bump old (-1) counts else counts.
(** [for (_, old) in map.drain() { .. }] *)
Definition drain_counts (m : gmap Z nat) (counts : list Z) : list Z :=
  foldr (fun kv c => unpin (snd kv) c) counts (map_to_list m).

(** The hit path of [sticky_lookup_or_assign]. *)
Definition sticky_lookup (key : Z) (n : nat) (s : PinStore) : option nat :=
  match shard_of key s !! key with
  | Some idx => if (idx <? Nat.min n MAX_WORKERS)%nat then Some idx else None
  | None => None
  end.
(** [min_by_key(|i| (PIN_COUNTS[i], in_flight[i], i))]: the running minimum after the key of
    worker [i] has been read. *)
Definition rank_lt (x y : Z * nat * nat) : bool :=
  let '(c, d, i) := x in let '(c', d', i') := y in
  (c <? c') || (c =? c') && ((d <? d')%nat || (d =? d')%nat && (i <? i')%nat).
Definition rank_min (best : option (Z * nat * nat)) (x : Z * nat * nat) : option (Z * nat * nat) :=
  match best with
  | None => Some x
  | Some b => if rank_lt x b then Some x else Some b
  end.
Definition rank_of (depth : nat -> nat) (counts : list Z) (i : nat) : Z * nat * nat :=
  (unwrap_or 0 (counts !! i), depth i, i).
(** [.unwrap_or(0)] *)
Definition rank_index (best : option (Z * nat * nat)) : nat :=
  match best with Some (_, _, i) => i | None => 0%nat end.
(** The rest of the miss path, under the shard lock, with the chosen worker. *)
Definition sticky_assign (key : Z) (idx : nat) (s : PinStore) : PinStore :=
  let m := shard_of key s in
  let full := (STICKY_SHARD_MAX <=? size m)%nat in
  let m1 := if full then ∅ else m in
  let counts1 := if full then drain_counts m (pin_counts s) else pin_counts s in
  let counts2 := match m1 !! key with Some prev => unpin prev counts1 | None => counts1 end in
  {| shards := set_shard key (<[key := as_u8 idx]> m1) s; pin_counts := bump idx 1 counts2;
     evict_total := if full then evict_total s + Z.of_nat (size m) else evict_total s |}.

(** [sticky_lookup_or_assign] with no other thread in between. *)
Definition fewest_pins (depth : nat -> nat) (counts : list Z) (len : nat) : nat :=
  rank_index (fold_left (fun b i => rank_min b (rank_of depth counts i)) (seq 0 len) None).
Definition sticky_lookup_or_assign (depth : nat -> nat) (key : Z) (n : nat) (s : PinStore) : nat * PinStore :=
  match sticky_lookup key n s with
  | Some idx => (idx, s)
  | None => let idx := fewest_pins depth (pin_counts s) (Nat.min n MAX_WORKERS) in (idx, sticky_assign key idx s)
  end.

Definition sticky_reread (key : Z) (prior : nat) (s : PinStore) : nat * PinStore :=
  match shard_of key s !! key with
  | Some idx => (idx, s)
  | None => (prior, {| shards := set_shard key (<[key := as_u8 prior]> (shard_of key s)) s;
                       pin_counts := bump (clamp prior) 1 (pin_counts s); evict_total := evict_total s |})
  end.

Definition sticky_repin (key : Z) (from to : nat) (s : PinStore) : PinStore :=
  if decide (shard_of key s !! key = Some (as_u8 from))
  then {| shards := set_shard key (<[key := as_u8 to]> (shard_of key s)) s;
          pin_counts := bump (clamp to) 1 (bump (clamp from) (-1) (pin_counts s));
          evict_total := evict_total s |}
  else s.

Definition empty_store : PinStore :=
  {| shards := replicate STICKY_SHARDS ∅; pin_counts := replicate MAX_WORKERS 0; evict_total := 0 |}.

Definition sticky_entries (s : PinStore) : nat := list_sum (map size (shards s)).

(** ** Threads on the pin store

    A thread in [sticky_lookup_or_assign] looks its key up under the shard lock, takes the
    assignment lock on a miss, reads the workers' keys one after the other, and commits under
    the shard lock.  Threads that park or fail over call [sticky_reread] and [sticky_repin],
    one critical section each. *)
Inductive pin_pc : Type :=
| Looking (key : Z)
| Missed (key : Z)
| Choosing (key : Z) (j : nat) (best : option (Z * nat * nat))
| Resolved (idx : nat)
| Rereading (key : Z) (prior : nat)
| Repinning (key : Z) (from to : nat)
| PinDone.

Record PinState : Type := {
  store : PinStore;
  assign_holder : option nat;        (** who holds [assign_lock] *)
  hit_total : Z;                     (** [STICKY_HIT_TOTAL] *)
  miss_total : Z;                    (** [STICKY_MISS_TOTAL] *)
  pin_threads : list pin_pc;
}.

(** Thread [t] moves on to [p], leaving the store and the assignment lock as given. *)
Definition go (t : nat) (p : pin_pc) (s : PinStore) (holder : option nat) (st : PinState) : PinState :=
  {| store := s; assign_holder := holder; hit_total := hit_total st; miss_total := miss_total st;
     pin_threads := <[t := p]> (pin_threads st) |}.
Definition found (t i : nat) (st : PinState) : PinState :=
  {| store := store st; assign_holder := assign_holder st; hit_total := hit_total st + 1;
     miss_total := miss_total st; pin_threads := <[t := Resolved i]> (pin_threads st) |}.
Definition missed (t : nat) (key : Z) (st : PinState) : PinState :=
  {| store := store st; assign_holder := assign_holder st; hit_total := hit_total st;
     miss_total := miss_total st + 1; pin_threads := <[t := Missed key]> (pin_threads st) |}.

(** What thread [t] does next; [d] is the in-flight gauge it reads while choosing.  [None]: it is
    finished, or waits for the assignment lock. *)
Definition pin_act (n : nat) (t d : nat) (st : PinState) : option PinState :=
  let len := Nat.min n MAX_WORKERS in
  let s := store st in
  let lock := assign_holder st in
  match pin_threads st !! t with
  | Some (Looking key) =>
      match sticky_lookup key n s with Some i => Some (found t i st) | None => Some (missed t key st) end
  | Some (Missed key) =>
      match lock with None => Some (go t (Choosing key 0 None) s (Some t) st) | Some _ => None end
  | Some (Choosing key j best) =>
      if (j <? len)%nat
      then Some (go t (Choosing key (S j) (rank_min best (rank_of (fun _ => d) (pin_counts s) j))) s lock st)
      else let idx := rank_index best in Some (go t (Resolved idx) (sticky_assign key idx s) None st)
  | Some (Rereading key prior) =>
      let '(idx, s') := sticky_reread key prior s in Some (go t (Resolved idx) s' lock st)
  | Some (Repinning key from to) => Some (go t PinDone (sticky_repin key from to s) lock st)
  | Some (Resolved _) | Some PinDone | None => None
  end.

(** A step is a thread's next action, or a request thread entering one of the three calls with
    worker indices below [MAX_WORKERS], which is what the callers hold. *)
Inductive pin_step (n : nat) : PinState -> PinState -> Prop :=
| pin_runs t d st st' : pin_act n t d st = Some st' -> pin_step n st st'
| pin_enters st p :
    match p with
    | Looking _ => True
    | Rereading _ prior => (prior < MAX_WORKERS)%nat
    | Repinning _ from to => (from < MAX_WORKERS)%nat /\ (to < MAX_WORKERS)%nat
    | _ => False
    end ->
    pin_step n st {| store := store st; assign_holder := assign_holder st; hit_total := hit_total st;
                     miss_total := miss_total st; pin_threads := pin_threads st ++ [p] |}.

Definition pins_start : PinState :=
  {| store := empty_store; assign_holder := None; hit_total := 0; miss_total := 0; pin_threads := [] |}.

(** ** Pin counts *)

Definition ind (b : bool) : nat := if b then 1%nat else 0%nat.
(** How many keys are pinned to worker [i]: in a shard, and in the store. *)
Definition pins_in (i : nat) (m : gmap Z nat) : nat :=
  length (List.filter (fun kv => (snd kv =? i)%nat) (map_to_list m)).
Definition pins (i : nat) (s : PinStore) : nat := list_sum (map (pins_in i) (shards s)).

Lemma filter_length_perm {A} (f : A -> bool) l k :
  l ≡ₚ k -> length (List.filter f l) = length (List.filter f k).
Proof. induction 1; cbn; repeat destruct (f _); cbn; congruence. Qed.
Lemma pins_in_new i k v (m : gmap Z nat) :
  m !! k = None -> pins_in i (<[k := v]> m) = (ind (v =? i) + pins_in i m)%nat.
Proof.
  intros N. unfold pins_in. rewrite (filter_length_perm _ _ _ (map_to_list_insert m k v N)). cbn.
  destruct (v =? i)%nat; reflexivity.
Qed.
Lemma pins_in_over i k v w (m : gmap Z nat) :
  m !! k = Some w -> (pins_in i (<[k := v]> m) + ind (w =? i) = ind (v =? i) + pins_in i m)%nat.
Proof.
  intros L. pose proof (pins_in_new i k v _ (lookup_delete_eq m k)) as V.
  pose proof (pins_in_new i k w _ (lookup_delete_eq m k)) as W.
  rewrite insert_delete_eq in V, W. rewrite (insert_id m k w L) in W. lia.
Qed.
Lemma list_sum_insert {A} (f : A -> nat) l k a b :
  l !! k = Some a -> (list_sum (map f (<[k := b]> l)) + f a = list_sum (map f l) + f b)%nat.
Proof.
  revert k. induction l as [|x l IH]; [discriminate|].
  assert (forall y r, list_sum (map f (y :: r)) = (f y + list_sum (map f r))%nat) as C by reflexivity.
  intros [|k] L.
  - injection L as ->. change (<[0%nat := b]> (a :: l)) with (b :: l). rewrite !C. lia.
  - specialize (IH k L). change (<[S k := b]> (x :: l)) with (x :: <[k := b]> l). rewrite !C. lia.
Qed.

Lemma bump_lookup i j d counts :
  bump i d counts !! j = (fun c => c + (if (i =? j)%nat then d else 0)) <$> counts !! j.
Proof.
  unfold bump. destruct (Nat.eqb_spec i j) as [->|N].
  - apply list_lookup_alter_eq.
  - rewrite list_lookup_alter_ne by exact N. destruct (counts !! j); cbn; [rewrite Z.add_0_r|]; reflexivity.
Qed.
Lemma bump_length i d counts : length (bump i d counts) = length counts.
Proof. apply length_alter. Qed.

Lemma drain_counts_lookup m counts j :
  map_Forall (fun _ v => (v < MAX_WORKERS)%nat) m ->
  drain_counts m counts !! j = (fun c => c - Z.of_nat (pins_in j m)) <$> counts !! j.
Proof.
  intros F. unfold drain_counts, pins_in. apply map_Forall_to_list in F. induction F as [|[k v] l Hv F IH]; cbn.
  - destruct (counts !! j); cbn; [rewrite Z.sub_0_r|]; reflexivity.
  - cbn in Hv. unfold unpin at 1. destruct (Nat.ltb_spec v MAX_WORKERS) as [_|]; [|lia].
    rewrite bump_lookup, IH. destruct (counts !! j) as [c|]; cbn; [|reflexivity]. f_equal.
    destruct (Nat.eqb_spec v j); cbn [length]; lia.
Qed.

Record store_ok (s : PinStore) : Prop := {
  ok_shards : length (shards s) = STICKY_SHARDS;
  ok_range : Forall (map_Forall (fun _ v => (v < MAX_WORKERS)%nat)) (shards s);
  ok_exact : forall i, (i < MAX_WORKERS)%nat -> pin_counts s !! i = Some (Z.of_nat (pins i s));
}.

Lemma shard_lookup s key : store_ok s -> shards s !! sticky_shard key = Some (shard_of key s).
Proof.
  intros K. unfold shard_of. destruct (shards s !! sticky_shard key) eqn:E; [reflexivity|].
  apply lookup_ge_None in E. rewrite (ok_shards s K) in E. unfold sticky_shard in E.
  pose proof (Z.mod_pos_bound key (Z.of_nat STICKY_SHARDS)). unfold STICKY_SHARDS in *. lia.
Qed.
Lemma shard_range s key : store_ok s -> map_Forall (fun _ v => (v < MAX_WORKERS)%nat) (shard_of key s).
Proof. intros K. eapply Forall_lookup_1; [apply (ok_range s K) | apply shard_lookup, K]. Qed.

(** One shard's map and the counts change together. *)
Lemma store_update s key m counts ev :
  store_ok s -> map_Forall (fun _ v => (v < MAX_WORKERS)%nat) m ->
  (forall i, (i < MAX_WORKERS)%nat ->
     counts !! i = Some (Z.of_nat (pins i s) - Z.of_nat (pins_in i (shard_of key s)) + Z.of_nat (pins_in i m))) ->
  store_ok {| shards := set_shard key m s; pin_counts := counts; evict_total := ev |}.
Proof.
  intros K R C. pose proof (shard_lookup s key K) as L. constructor; cbn [shards pin_counts].
  - unfold set_shard. rewrite length_insert. apply ok_shards, K.
  - apply Forall_insert; [apply (ok_range s K) | exact R].
  - intros i Hi. rewrite (C i Hi). f_equal. unfold pins, set_shard. cbn [shards].
    pose proof (list_sum_insert (pins_in i) _ _ _ m L). unfold pins. lia.
Qed.

Lemma as_u8_worker i : (i < MAX_WORKERS)%nat -> as_u8 i = i.
Proof. unfold as_u8, MAX_WORKERS. intros. apply Nat.mod_small. lia. Qed.
Lemma clamp_worker i : (i < MAX_WORKERS)%nat -> clamp i = i.
Proof. unfold clamp. lia. Qed.

Lemma assign_ok s key idx : store_ok s -> (idx < MAX_WORKERS)%nat -> store_ok (sticky_assign key idx s).
Proof.
  intros K Hi. unfold sticky_assign. rewrite as_u8_worker by exact Hi. pose proof (shard_range s key K) as R.
  destruct (_ <=? _)%nat; apply store_update; try exact K.
  - apply map_Forall_insert_2; [exact Hi | apply map_Forall_empty].
  - intros i Hw. rewrite lookup_empty, bump_lookup, drain_counts_lookup, (ok_exact s K i Hw) by exact R.
    rewrite pins_in_new by apply lookup_empty. change (pins_in i ∅) with 0%nat. cbn. f_equal.
    destruct (idx =? i)%nat; cbn; lia.
  - apply map_Forall_insert_2; assumption.
  - intros i Hw. rewrite bump_lookup. destruct (shard_of key s !! key) as [prev|] eqn:E.
    + pose proof (pins_in_over i key idx prev _ E). pose proof (R key prev E) as Hp. cbn in Hp. unfold unpin.
      destruct (Nat.ltb_spec prev MAX_WORKERS) as [_|]; [|lia]. rewrite bump_lookup, (ok_exact s K i Hw). cbn. f_equal.
      destruct (idx =? i)%nat, (prev =? i)%nat; cbn in *; lia.
    + rewrite (ok_exact s K i Hw), pins_in_new by exact E. cbn. f_equal. destruct (idx =? i)%nat; cbn; lia.
Qed.

Lemma reread_ok s key prior : store_ok s -> (prior < MAX_WORKERS)%nat -> store_ok (snd (sticky_reread key prior s)).
Proof.
  intros K Hp. unfold sticky_reread. destruct (shard_of key s !! key) eqn:E; [exact K|]. cbn [snd].
  rewrite as_u8_worker, clamp_worker by exact Hp. apply store_update; [exact K | |].
  - apply map_Forall_insert_2; [exact Hp | apply shard_range, K].
  - intros i Hw. rewrite bump_lookup, (ok_exact s K i Hw), pins_in_new by exact E. cbn. f_equal.
    destruct (prior =? i)%nat; cbn; lia.
Qed.

Lemma repin_ok s key from to :
  store_ok s -> (from < MAX_WORKERS)%nat -> (to < MAX_WORKERS)%nat -> store_ok (sticky_repin key from to s).
Proof.
  intros K Hf Ht. unfold sticky_repin. rewrite !as_u8_worker, !clamp_worker by assumption.
  destruct (decide _) as [E|]; [|exact K]. apply store_update; [exact K | |].
  - apply map_Forall_insert_2; [exact Ht | apply shard_range, K].
  - intros i Hw. rewrite !bump_lookup, (ok_exact s K i Hw). pose proof (pins_in_over i key to from _ E). cbn. f_equal.
    destruct (to =? i)%nat, (from =? i)%nat; cbn in *; lia.
Qed.

(** What a thread holds between its steps is a worker slot. *)
Definition pc_ok (p : pin_pc) : Prop :=
  match p with
  | Choosing _ _ best => (rank_index best < MAX_WORKERS)%nat
  | Rereading _ prior => (prior < MAX_WORKERS)%nat
  | Repinning _ from to => (from < MAX_WORKERS)%nat /\ (to < MAX_WORKERS)%nat
  | _ => True
  end.
Definition pins_ok (st : PinState) : Prop := store_ok (store st) /\ Forall pc_ok (pin_threads st).

Lemma rank_min_index best x :
  (rank_index best < MAX_WORKERS)%nat -> (snd x < MAX_WORKERS)%nat -> (rank_index (rank_min best x) < MAX_WORKERS)%nat.
Proof.
  destruct x as [[c d] i]. cbn. intros Hb Hx. destruct best as [b|]; cbn [rank_min]; [|exact Hx].
  destruct (rank_lt _ _); [exact Hx | exact Hb].
Qed.

Lemma pin_step_ok n st st' : pins_ok st -> pin_step n st st' -> pins_ok st'.
Proof.
  intros Ok S. revert Ok. destruct S as [t d st0 st1 H | st0 p Hp]; intros [K T].
  - unfold pin_act in H. destruct (pin_threads st0 !! t) as [p|] eqn:E; [|discriminate].
    pose proof (Forall_lookup_1 _ _ _ _ T E) as P.
    destruct p as [key | key | key j best | idx | key prior | key from to |]; try discriminate.
    + destruct (sticky_lookup _ _ _); injection H as <-; (split; [exact K | apply Forall_insert; [exact T | exact I]]).
    + destruct (assign_holder st0); [discriminate|]. injection H as <-. split; [exact K|].
      apply Forall_insert; [exact T|]. cbn. unfold MAX_WORKERS. lia.
    + destruct (Nat.ltb_spec j (Nat.min n MAX_WORKERS)); injection H as <-.
      * split; [exact K|]. apply Forall_insert; [exact T|]. apply rank_min_index; [exact P | cbn; lia].
      * split; [apply assign_ok; assumption | apply Forall_insert; [exact T | exact I]].
    + pose proof (reread_ok _ key prior K P) as R. destruct (sticky_reread _ _ _) as [i s']. injection H as <-.
      split; [exact R | apply Forall_insert; [exact T | exact I]].
    + injection H as <-. destruct P. split; [apply repin_ok; assumption | apply Forall_insert; [exact T | exact I]].
  - split; [exact K|]. apply Forall_app. split; [exact T|]. constructor; [|constructor]. destruct p; auto; contradiction.
Qed.

Lemma empty_store_ok : store_ok empty_store.
Proof.
  constructor; [reflexivity | |].
  - apply Forall_replicate, map_Forall_empty.
  - intros i Hi. cbn [pin_counts empty_store]. rewrite lookup_replicate_2 by exact Hi. reflexivity.
Qed.
Lemma pins_reachable_ok n st : rtc (pin_step n) pins_start st -> pins_ok st.
Proof.
  intros H. assert (pins_ok pins_start) as K by (split; [apply empty_store_ok | constructor]).
  induction H; eauto using pin_step_ok.
Qed.

Lemma pins_in_total (m : gmap Z nat) :
  map_Forall (fun _ v => (v < MAX_WORKERS)%nat) m ->
  list_sum (map (fun i => pins_in i m) (seq 0 MAX_WORKERS)) = size m.
Proof.
  assert (forall l v, (v < MAX_WORKERS)%nat ->
    list_sum (map (fun i => ind (v =? i) + l i)%nat (seq 0 MAX_WORKERS)) = S (list_sum (map l (seq 0 MAX_WORKERS)))) as G.
  { intros l v Hv. do 16 (destruct v as [|v]; [cbn; lia|]). unfold MAX_WORKERS in Hv. lia. }
  induction m as [|k v m N IH] using map_ind; [reflexivity|]. intros R.
  apply map_Forall_insert in R as [Hv R]; [|exact N].
  rewrite (map_ext _ (fun i => ind (v =? i) + pins_in i m)%nat) by (intros i; apply pins_in_new, N).
  rewrite G by exact Hv. rewrite IH by exact R. rewrite map_size_insert_None by exact N. reflexivity.
Qed.
Lemma list_sum_swap {A B} (f : A -> B -> nat) l k :
  list_sum (map (fun a => list_sum (map (f a) k)) l) = list_sum (map (fun b => list_sum (map (fun a => f a b) l)) k).
Proof.
  induction l as [|a l IH]; [induction k as [|b k IHk]; [reflexivity | exact IHk]|].
  transitivity (list_sum (map (f a) k) + list_sum (map (fun b => list_sum (map (fun a => f a b) l)) k))%nat.
  - rewrite <- IH. reflexivity.
  - clear IH. induction k as [|b k IHk]; [reflexivity|].
    change (f a b + list_sum (map (f a) k) + (list_sum (map (fun a0 => f a0 b) l) + list_sum (map (fun b0 => list_sum (map (fun a0 => f a0 b0) l)) k))
      = (f a b + list_sum (map (fun a0 => f a0 b) l)) + list_sum (map (fun b0 => list_sum (map (fun a0 => f a0 b0) (a :: l))) k))%nat.
    rewrite <- IHk. lia.
Qed.
Lemma entries_are_pins s :
  store_ok s -> list_sum (map (fun i => pins i s) (seq 0 MAX_WORKERS)) = sticky_entries s.
Proof.
  intros K. unfold pins, sticky_entries. rewrite (list_sum_swap pins_in (seq 0 MAX_WORKERS) (shards s)). f_equal.
  apply map_ext_in. intros m Hm. apply pins_in_total.
  exact (proj1 (List.Forall_forall _ _) (ok_range s K) m Hm).
Qed.

(** Whatever the interleaving of lookups, raced assignments (same key included), rereads
    after parking, repins after a connection failure and evictions of a full shard, the
    published count of every worker is the number of connection keys pinned to it; the counts
    never go negative, and they add up to the number of stored keys. *)
Theorem pin_counts_stay_exact n st :
  rtc (pin_step n) pins_start st ->
  (forall i, (i < MAX_WORKERS)%nat -> pin_counts (store st) !! i = Some (Z.of_nat (pins i (store st)))) /\
  list_sum (map (fun i => pins i (store st)) (seq 0 MAX_WORKERS)) = sticky_entries (store st).
Proof. intros H. apply pins_reachable_ok in H as [K _]. split; [apply ok_exact, K | apply entries_are_pins, K]. Qed.

(** ** Balance *)

Definition rank_count (x : Z * nat * nat) : Z := fst (fst x).

Lemma rank_fold depth counts l b :
  exists r, fold_left (fun b i => rank_min b (rank_of depth counts i)) l (Some b) = Some r /\
    (r = b \/ exists i, In i l /\ r = rank_of depth counts i) /\ rank_count r <= rank_count b /\
    forall i, In i l -> rank_count r <= unwrap_or 0 (counts !! i).
Proof.
  revert b. induction l as [|x l IH]; intros b; cbn [fold_left].
  - exists b. repeat split; [left; reflexivity | lia | intros i []].
  - assert (exists b', rank_min (Some b) (rank_of depth counts x) = Some b' /\ (b' = b \/ b' = rank_of depth counts x) /\
      rank_count b' <= rank_count b /\ rank_count b' <= unwrap_or 0 (counts !! x)) as (b' & -> & W & L1 & L2).
    { cbn [rank_min]. destruct (rank_lt _ _) eqn:E; unfold rank_of, rank_lt, rank_count in *; destruct b as [[c d] j]; cbn [fst snd] in *.
      - eexists. split; [reflexivity|]. split; [right; reflexivity|]. cbn [fst]. lia.
      - eexists. split; [reflexivity|]. split; [left; reflexivity|]. cbn [fst]. lia. }
    destruct (IH b') as (r & -> & W' & L3 & L4). exists r. split; [reflexivity|]. split.
    + destruct W' as [->|(i & Hi & ->)]; [destruct W as [-> | ->]; [left | right; exists x; split; [left|]]; reflexivity
        | right; exists i; split; [right; exact Hi | reflexivity]].
    + split; [lia|]. intros i [<-|Hi]; [lia | apply L4, Hi].
Qed.

Lemma fewest_pins_spec depth counts len :
  (0 < len)%nat ->
  (fewest_pins depth counts len < len)%nat /\
  forall j, (j < len)%nat ->
    unwrap_or 0 (counts !! fewest_pins depth counts len) <= unwrap_or 0 (counts !! j).
Proof.
  intros Hl. unfold fewest_pins. destruct len as [|k]; [lia|]. cbn [seq fold_left rank_min].
  destruct (rank_fold depth counts (seq 1 k) (rank_of depth counts 0)) as (r & -> & W & L1 & L2).
  assert (exists i, (i < S k)%nat /\ r = rank_of depth counts i) as (i & Hi & ->).
  { destruct W as [->|(i & Hi%in_seq & ->)]; [exists 0%nat | exists i]; split; auto; lia. }
  cbn in *. split; [exact Hi|]. intros [|j] Hj; [exact L1 | apply L2, in_seq; lia].
Qed.

(** Pins spread evenly over the first [len] workers, and no shard holds more than [c] keys. *)
Record balanced (len c : nat) (s : PinStore) : Prop := {
  bal_store : store_ok s;
  bal_range : Forall (map_Forall (fun _ v => (v < len)%nat)) (shards s);
  bal_size : Forall (fun m : gmap Z nat => (size m <= c)%nat) (shards s);
  bal_even : forall i j, (i < len)%nat -> (j < len)%nat -> (pins i s <= pins j s + 1)%nat;
}.

Lemma pins_assign_new s key idx i :
  store_ok s -> (idx < MAX_WORKERS)%nat -> (size (shard_of key s) < STICKY_SHARD_MAX)%nat -> shard_of key s !! key = None ->
  shards (sticky_assign key idx s) = set_shard key (<[key := idx]> (shard_of key s)) s /\
  pins i (sticky_assign key idx s) = (ind (idx =? i) + pins i s)%nat.
Proof.
  intros K Hi Hs N. unfold sticky_assign. destruct (Nat.leb_spec STICKY_SHARD_MAX (size (shard_of key s))); [lia|].
  rewrite as_u8_worker by exact Hi. split; [reflexivity|]. unfold pins, set_shard. cbn [shards].
  pose proof (list_sum_insert (pins_in i) _ _ _ (<[key := idx]> (shard_of key s)) (shard_lookup s key K)) as L.
  rewrite pins_in_new in L by exact N. lia.
Qed.

Lemma balanced_weaken len c s : balanced len c s -> balanced len (S c) s.
Proof. intros [K R S E]. constructor; auto. eapply List.Forall_impl; [|exact S]. cbn. lia. Qed.

Lemma lookup_or_assign_balanced depth key n c s :
  (0 < n)%nat -> (c < STICKY_SHARD_MAX)%nat -> balanced (Nat.min n MAX_WORKERS) c s ->
  balanced (Nat.min n MAX_WORKERS) (S c) (snd (sticky_lookup_or_assign depth key n s)).
Proof.
  intros Hn Hc B. unfold sticky_lookup_or_assign. destruct (sticky_lookup key n s) eqn:E; [apply balanced_weaken, B|].
  destruct B as [K R Sz Ev]. cbn [snd]. set (len := Nat.min n MAX_WORKERS) in *.
  assert (0 < len)%nat as Hl by (subst len; unfold MAX_WORKERS; lia).
  destruct (fewest_pins_spec depth (pin_counts s) len Hl) as [Hf Hmin].
  set (idx := fewest_pins depth (pin_counts s) len) in *.
  pose proof (Forall_lookup_1 _ _ _ _ Sz (shard_lookup s key K)) as Hsz. cbn in Hsz.
  pose proof (Forall_lookup_1 _ _ _ _ R (shard_lookup s key K)) as Hrg.
  assert (shard_of key s !! key = None) as N.
  { unfold sticky_lookup in E. destruct (shard_of key s !! key) as [v|] eqn:L; [|reflexivity].
    pose proof (Hrg key v L) as Hv. cbn in Hv. fold len in E. destruct (Nat.ltb_spec v len); [discriminate | lia]. }
  assert (idx < MAX_WORKERS)%nat as Hw by (subst len; lia).
  pose proof (fun i => pins_assign_new s key idx i K Hw ltac:(lia) N) as P.
  constructor.
  - apply assign_ok; assumption.
  - rewrite (proj1 (P 0%nat)). apply Forall_insert; [exact R|]. apply map_Forall_insert_2; assumption.
  - rewrite (proj1 (P 0%nat)). apply Forall_insert; [eapply List.Forall_impl; [|exact Sz]; cbn; lia|].
    rewrite map_size_insert_None by exact N. lia.
  - intros i j Hi Hj. rewrite !(proj2 (P _)). pose proof (Ev i j Hi Hj). pose proof (Hmin j Hj) as M.
    rewrite !(ok_exact s K) in M by (subst len; lia). cbn in M.
    destruct (Nat.eqb_spec idx i) as [<-|]; cbn [ind]; lia.
Qed.

(** A run of thread actions. *)
Fixpoint run_pins (n : nat) (acts : list nat) (st : PinState) : option PinState :=
  match acts with
  | [] => Some st
  | t :: acts' => match pin_act n t 0 st with Some st' => run_pins n acts' st' | None => None end
  end.
Lemma run_pins_sound n acts st st' : run_pins n acts st = Some st' -> rtc (pin_step n) st st'.
Proof.
  revert st. induction acts as [|t acts IH]; cbn; intros st H; [injection H as <-; constructor|].
  destruct (pin_act n t 0 st) eqn:E; [|discriminate]. eapply rtc_l; [eapply pin_runs, E | apply IH, H].
Qed.
Definition lookups_in (keys : list Z) : PinState :=
  {| store := empty_store; assign_holder := None; hit_total := 0; miss_total := 0; pin_threads := map Looking keys |}.
Lemma lookups_reachable n keys : rtc (pin_step n) pins_start (lookups_in keys).
Proof.
  unfold pins_start, lookups_in. induction keys as [|k keys IH] using rev_ind; [constructor|].
  eapply rtc_r; [exact IH|]. rewrite map_app. apply (pin_enters n (lookups_in keys) (Looking k)). exact I.
Qed.

Lemma pin_counts_stay_exact_witness :
  exists st, rtc (pin_step 2) pins_start st /\ pin_threads st = [Resolved 0; Resolved 1]%nat /\
    pin_counts (store st) !! 0%nat = Some (Z.of_nat (pins 0 (store st))).
Proof.
  assert (exists st, run_pins 2 [0; 0; 0; 0; 0; 1; 1; 1; 1; 1]%nat (lookups_in [1; 2]) = Some st /\
    pin_threads st = [Resolved 0; Resolved 1]%nat) as (st & R & T) by (eexists; vm_compute; split; reflexivity).
  apply run_pins_sound in R. assert (rtc (pin_step 2) pins_start st) as H.
  { etransitivity; [apply lookups_reachable | exact R]. }
  exists st. split; [exact H|]. split; [exact T|].
  apply (proj1 (pin_counts_stay_exact 2 st H)). unfold MAX_WORKERS. lia.
Defined.

Definition assign_all (n : nat) (calls : list ((nat -> nat) * Z)) : PinStore :=
  fold_left (fun s c => snd (sticky_lookup_or_assign (fst c) (snd c) n s)) calls empty_store.

Lemma assign_all_balanced n calls :
  (0 < n)%nat -> (length calls <= STICKY_SHARD_MAX)%nat ->
  balanced (Nat.min n MAX_WORKERS) (length calls) (assign_all n calls).
Proof.
  intros Hn. unfold assign_all. induction calls as [|c calls IH] using rev_ind; intros H.
  - constructor; [apply empty_store_ok | | |].
    + apply Forall_replicate, map_Forall_empty.
    + apply Forall_replicate. reflexivity.
    + intros i j _ _. vm_compute. lia.
  - rewrite length_app, Nat.add_1_r in *. rewrite fold_left_app. cbn [fold_left]. apply lookup_or_assign_balanced; [exact Hn | lia | apply IH; lia].
Qed.

(** Fewest-pins assignment spreads connections evenly: as long as no shard has filled up,
    any sequence of lookups leaves the pin counts of two workers at most one apart, whatever
    the in-flight gauges were.  The assignment lock does not extend this to concurrent misses:
    two first requests that race on one connection key both assign it, the second moving the
    pin off a worker that need not be the fuller one, and two workers end up two pins apart
    with only three lookups in the system. *)
Theorem pin_balance_and_the_same_key_race :
  (forall n calls, (0 < n)%nat -> (length calls <= STICKY_SHARD_MAX)%nat ->
     forall i j, (i < Nat.min n MAX_WORKERS)%nat -> (j < Nat.min n MAX_WORKERS)%nat ->
       (pins i (assign_all n calls) <= pins j (assign_all n calls) + 1)%nat) /\
  exists st,
    rtc (pin_step 2) (lookups_in [1; 2; 2]) st /\ rtc (pin_step 2) pins_start st /\
    pin_threads st = [Resolved 0; Resolved 1; Resolved 0]%nat /\
    pins 0 (store st) = 2%nat /\ pins 1 (store st) = 0%nat.
Proof.
  split; [intros n calls Hn Hc i j Hi Hj; apply (bal_even _ _ _ (assign_all_balanced n calls Hn Hc)); assumption|].
  assert (exists st, run_pins 2 [1; 2; 0; 0; 0; 0; 0; 1; 1; 1; 1; 2; 2; 2; 2]%nat (lookups_in [1; 2; 2]) = Some st /\
    pin_threads st = [Resolved 0; Resolved 1; Resolved 0]%nat /\ pins 0 (store st) = 2%nat /\ pins 1 (store st) = 0%nat)
    as (st & R & T & P0 & P1) by (eexists; vm_compute; repeat split; reflexivity).
  apply run_pins_sound in R. exists st. split; [exact R|]. split; [|auto].
  etransitivity; [apply lookups_reachable | exact R].
Qed.
