(* ===== verification/FrameClient.v ===== *)
(** * FrameClient: one exchange on the binary hop, at the edge

    Model of [FrameReadBuffer], [exchange] and [stream_frames_downstream] of
    [crates/oxo-pingora-edge/src/platform/frame_hop.rs].  The worker's socket is the list
    of outcomes its reads will have; a piece of data is whatever one [read_buf] returned,
    so the buffer's spare capacity and the kernel's splitting are covered by quantifying
    over the list.  The drain watch enters twice, as in the code: [DrainSet] is the point
    at which [drain.changed()] completes, and [drained n] is what the [n]-th
    [*drain.borrow()] of the relay loop reads.  The client's session belongs to the HTTP
    library: [session] records what was written to it and how many writes it accepts. *)

From S2P Require Import Prelude Text HopFrame Stream WorkerParser JobQueue WorkerRuby WorkerFrame ClientRequest WorkerWire HttpHop Fairness.

(** ** The read buffer *)

Inductive io : Type :=
| Got (d : bytes)        (** [Ok(n)]; [n = 0] is the end of the stream *)
| PeerReset              (** [ErrorKind::ConnectionReset] *)
| ReadFailed             (** any other error, or [WORKER_READ_TIMEOUT] *)
| DrainSet.              (** the drain flag was raised *)

Record FrameReadBuffer : Type := { rb_buf : bytes; rb_pos : nat }.

Definition rb_new : FrameReadBuffer := {| rb_buf := []; rb_pos := 0 |}.
Definition available (b : FrameReadBuffer) : nat := length (rb_buf b) - rb_pos b.
Definition has_surplus (b : FrameReadBuffer) : bool := (0 <? available b)%nat.

Definition compact (b : FrameReadBuffer) : FrameReadBuffer :=
  if (rb_pos b =? 0)%nat then b
  else if (available b =? 0)%nat then {| rb_buf := []; rb_pos := 0 |}
  else {| rb_buf := drop (rb_pos b) (rb_buf b); rb_pos := 0 |}.

Definition extend (b : FrameReadBuffer) (d : bytes) : FrameReadBuffer :=
  {| rb_buf := rb_buf b ++ d; rb_pos := rb_pos b |}.

(** [fill_to]; inside a [select!] with the drain watch it is [interruptible], and is then
    abandoned when the flag is raised, keeping what was read ([None]). *)
Fixpoint fill_to (needed : nat) (eof_ok interruptible : bool) (b : FrameReadBuffer) (s : list io)
    : option (result Z bool) * FrameReadBuffer * list io :=
  if (needed <=? available b)%nat then (Some (Ok true), b, s)
  else
    let at_zero := eof_ok && (available b =? 0)%nat in
    match s with
    | [] | Got [] :: _ => (Some (if at_zero then Ok false else Err 502), b, s)
    | Got d :: s' => fill_to needed eof_ok interruptible (extend b d) s'
    | PeerReset :: s' => (Some (if at_zero then Ok false else Err 502), b, s')
    | ReadFailed :: s' => (Some (Err 502), b, s')
    | DrainSet :: s' => if interruptible then (None, b, s') else fill_to needed eof_ok interruptible b s'
    end.

(** The six prefix bytes at the front. *)
Definition front_prefix (b : FrameReadBuffer) : option prefix6 := to_prefix (take 6 (drop (rb_pos b) (rb_buf b))).
Definition front_total (caps : FrameCaps) (b : FrameReadBuffer) : result Z nat :=
  match front_prefix b with
  | None => Err 502
  | Some p => let? len := map_err (fun _ => 502) (prefix_parse p caps) in Ok (6 + Z.to_nat len)%nat
  end.

Definition buffered_frame_len (caps : FrameCaps) (b : FrameReadBuffer) : result Z (option nat) :=
  if (available b <? 6)%nat then Ok None
  else let? total := front_total caps b in Ok (if (total <=? available b)%nat then Some total else None).

(** On a decoding error the position is left where it was. *)
Definition decode_front (total : nat) (caps : FrameCaps) (b : FrameReadBuffer)
    : result Z ResponseFrame * FrameReadBuffer :=
  match decode_response (drop 6 (take total (drop (rb_pos b) (rb_buf b)))) caps with
  | Err _ => (Err 502, b)
  | Ok f => (Ok f, {| rb_buf := rb_buf b; rb_pos := rb_pos b + total |})
  end.

Definition lift_some {A} (r : result Z A) : result Z (option A) := let? a := r in Ok (Some a).

(** The common tail of the two readers: with the prefix in the buffer, complete the
    envelope (not interruptible) and decode. *)
Definition read_envelope (caps : FrameCaps) (b : FrameReadBuffer) (s : list io)
    : result Z (option ResponseFrame) * FrameReadBuffer * list io :=
  match front_total caps b with
  | Err e => (Err e, b, s)
  | Ok total =>
      match fill_to total false false b s with
      | (Some (Ok _), b', s') => let '(r, b'') := decode_front total caps b' in (lift_some r, b'', s')
      | (Some (Err e), b', s') => (Err e, b', s')
      | (None, b', s') => (Ok None, b', s')
      end
  end.

Definition read_frame (caps : FrameCaps) (first_of_exchange : bool) (b : FrameReadBuffer) (s : list io)
    : result Z (option ResponseFrame) * FrameReadBuffer * list io :=
  match fill_to 6 first_of_exchange false (compact b) s with
  | (Some (Ok true), b', s') => read_envelope caps b' s'
  | (Some (Ok false), b', s') => (Ok None, b', s')
  | (Some (Err e), b', s') => (Err e, b', s')
  | (None, b', s') => (Ok None, b', s')
  end.

(** [Ok None]: the drain flag was raised while waiting for a prefix. *)
Definition read_frame_or_drain (caps : FrameCaps) (b : FrameReadBuffer) (s : list io)
    : result Z (option ResponseFrame) * FrameReadBuffer * list io :=
  let b0 := compact b in
  match buffered_frame_len caps b0 with
  | Err e => (Err e, b0, s)
  | Ok (Some total) => let '(r, b') := decode_front total caps b0 in (lift_some r, b', s)
  | Ok None =>
      match fill_to 6 false true b0 s with
      | (Some (Ok _), b', s') => read_envelope caps b' s'
      | (Some (Err e), b', s') => (Err e, b', s')
      | (None, b', s') => (Ok None, b', s')
      end
  end.

(** ** The session and the response header *)

Section Exchange.
Context {H : Type} `{HeaderLib H}.

Inductive dwrite : Type :=
| DHeader (header : H) (end_ : bool)
| DBody (body : option bytes) (end_ : bool).

(** What the client's session was given, how many further writes it accepts, and whether a
    refused write is a timeout. *)
Record session : Type := { written : list dwrite; accepts : nat; refusal_is_timeout : bool }.

Definition session_write (w : dwrite) (k : session) : result Z unit * session :=
  match accepts k with
  | O => (Err 502, k)
  | S n => (Ok tt, {| written := written k ++ [w]; accepts := n; refusal_is_timeout := refusal_is_timeout k |})
  end.

Definition is_framing_header (name : bytes) : bool :=
  eq_ignore_case name (bs "content-length") || eq_ignore_case name (bs "transfer-encoding")
  || eq_ignore_case name (bs "connection").

Fixpoint append_app_headers (hs : list (bytes * bytes)) (header : H) : result Z H :=
  match hs with
  | [] => Ok header
  | (name, value) :: hs' =>
      if is_framing_header name then append_app_headers hs' header
      else let? header' := ok_or (hl_append name value header) 502 in append_app_headers hs' header'
  end.

Definition build_response_header (status : Z) (hs : list (bytes * bytes)) (body_len : Z) (keepalive : bool) : result Z H :=
  let? header := ok_or (hl_build status) 502 in
  let? header := append_app_headers hs header in
  let? header := ok_or (hl_insert (bs "Content-Length") (show_uint body_len) header) 502 in
  insert_close keepalive header.

Definition build_response_chunked_header (status : Z) (hs : list (bytes * bytes)) (keepalive : bool) : result Z H :=
  let? header := ok_or (hl_build status) 502 in
  let? header := append_app_headers hs header in
  insert_close keepalive header.

(** ** Relaying a streamed response *)

(** What the relay holds: the long-lived admission with the registry's counters, the read
    buffer, the socket and the session. *)
Record relay : Type := {
  adm : LongLivedAdmission;
  ctrs : LongLivedCounters;
  rbuf : FrameReadBuffer;
  sock : list io;
  sess : session;
}.

Definition set_rb (st : relay) (b : FrameReadBuffer) (s : list io) : relay :=
  {| adm := adm st; ctrs := ctrs st; rbuf := b; sock := s; sess := sess st |}.
Definition on_admission (o : LongLivedOp) (st : relay) : relay :=
  let '(a, c) := long_lived_hold o (adm st, ctrs st) in
  {| adm := a; ctrs := c; rbuf := rbuf st; sock := sock st; sess := sess st |}.

(** [write_long_lived_header_with_timeout] and [.._body_..]: a refused write is recorded on
    the admission and is a 502. *)
Definition write_long_lived (w : dwrite) (st : relay) : result Z unit * relay :=
  match session_write w (sess st) with
  | (Ok _, k) => (Ok tt, {| adm := adm st; ctrs := ctrs st; rbuf := rbuf st; sock := sock st; sess := k |})
  | (Err e, _) => (Err e, on_admission (WriteError (refusal_is_timeout (sess st))) st)
  end.
(** [if let Some(header) = header.take() { write header }], then a body write. *)
Definition write_after_header (header : option H) (body : option bytes) (end_ : bool) (st : relay) : result Z unit * relay :=
  match header with
  | None => write_long_lived (DBody body end_) st
  | Some h =>
      match write_long_lived (DHeader h false) st with
      | (Ok _, st') => write_long_lived (DBody body end_) st'
      | r => r
      end
  end.

(** The end of the response: the last body write, then [complete] or [complete_drained]. *)
Definition finish_stream (o : LongLivedOp) (header : option H) (status : Z) (reusable : relay -> bool) (st : relay)
    : result Z (Z * bool) * relay :=
  match write_after_header header None true st with
  | (Err e, st') => (Err e, st')
  | (Ok _, st') => (Ok (status, reusable st'), on_admission o st')
  end.

Variable caps : FrameCaps.
Variable max_buffered_bytes : Z.
Variable drained : nat -> bool.

(** The [loop] of [stream_frames_downstream], [n] counting its turns.  [None]: out of fuel. *)
Fixpoint relay_loop (fuel n : nat) (header : option H) (status streamed : Z) (st : relay)
    : option (result Z (Z * bool) * relay) :=
  match fuel with
  | O => None
  | S fuel' =>
      if drained n then Some (finish_stream CompleteDrained header status (fun _ => false) st)
      else
        let '(r, b, s) := read_frame_or_drain caps (rbuf st) (sock st) in
        let st := set_rb st b s in
        match r with
        | Err e => Some (Err e, st)
        | Ok None => Some (finish_stream CompleteDrained header status (fun _ => false) st)
        | Ok (Some (Chunk [])) => relay_loop fuel' (S n) header status streamed st
        | Ok (Some (Chunk data)) =>
            let streamed := saturating_add streamed (zlen data) in
            if streamed >? MAX_RESPONSE_BYTES then Some (Err 502, st)
            else
              let st := on_admission (RecordBytes (zlen data)) st in
              if negb (within_buffer max_buffered_bytes (adm st)) then Some (Err 502, st)
              else match write_after_header header (Some data) false st with
                   | (Err e, st) => Some (Err e, st)
                   | (Ok _, st) => relay_loop fuel' (S n) None status streamed st
                   end
        | Ok (Some End_) => Some (finish_stream Complete header status (fun st' => negb (has_surplus (rbuf st'))) st)
        | Ok (Some _) => Some (Err 502, st)
        end
  end.

(** A turn that goes on consumed a frame of at least six bytes, so the bytes that can still
    be read bound the number of turns. *)
Fixpoint inflow (s : list io) : bytes :=
  match s with
  | [] => []
  | Got d :: s' => d ++ inflow s'
  | _ :: s' => inflow s'
  end.
Definition front (b : FrameReadBuffer) : bytes := drop (rb_pos b) (rb_buf b).
Definition content (b : FrameReadBuffer) (s : list io) : bytes := front b ++ inflow s.
Definition relay_fuel (st : relay) : nat := S (length (content (rbuf st) (sock st))).

(** [stream_frames_downstream]: admission first; dropping the admission closes its account. *)
Definition stream_frames_downstream (admitted : bool) (header : H) (status : Z) (b : FrameReadBuffer) (s : list io)
    (c : LongLivedCounters) (k : session)
    : option (result Z (Z * bool) * FrameReadBuffer * list io * LongLivedCounters * session) :=
  if negb admitted then Some (Err 503, b, s, c, k)
  else
    let st := {| adm := new_admission; ctrs := c; rbuf := b; sock := s; sess := k |} in
    match relay_loop (relay_fuel st) 0 (Some header) status 0 st with
    | None => None
    | Some (r, st') => Some (r, rbuf st', sock st', long_lived_finish (adm st') (ctrs st'), sess st')
    end.

(** ** One exchange *)

Inductive ExchangeError : Type :=
| StaleBeforeDispatch (request_delivered : bool)
| EStatus (status : Z).
Definition exchange_status (e : ExchangeError) : Z :=
  match e with StaleBeforeDispatch _ => 502 | EStatus s => s end.

(** A connection: its buffer, whether the next request write completes, and the reads. *)
Record link : Type := { l_buf : FrameReadBuffer; l_write_ok : bool; l_reads : list io }.
(** The parts of an exchange that survive it. *)
Record after : Type := { a_buf : FrameReadBuffer; a_reads : list io; a_ctrs : LongLivedCounters; a_sess : session }.

Definition status_err {A} (r : result Z A) : result ExchangeError A := map_err EStatus r.

Definition exchange (admitted keepalive : bool) (c : LongLivedCounters) (k : session) (l : link)
    : option (result ExchangeError (Z * bool) * after) :=
  let keep b s k := {| a_buf := b; a_reads := s; a_ctrs := c; a_sess := k |} in
  if negb (l_write_ok l) then Some (Err (StaleBeforeDispatch false), keep (l_buf l) (l_reads l) k)
  else
    let '(r, b, s) := read_frame caps true (l_buf l) (l_reads l) in
    match r with
    | Err e => Some (Err (EStatus e), keep b s k)
    | Ok None => Some (Err (StaleBeforeDispatch true), keep b s k)
    | Ok (Some (Full status hs body)) =>
        match build_response_header status hs (zlen body) keepalive with
        | Err e => Some (Err (EStatus e), keep b s k)
        | Ok header =>
            match session_write (DHeader header false) k with
            | (Err e, k1) => Some (Err (EStatus e), keep b s k1)
            | (Ok _, k1) =>
                match session_write (DBody (Some body) true) k1 with
                | (Err e, k2) => Some (Err (EStatus e), keep b s k2)
                | (Ok _, k2) => Some (Ok (status, negb (has_surplus b)), keep b s k2)
                end
            end
        end
    | Ok (Some (Head status hs)) =>
        match build_response_chunked_header status hs keepalive with
        | Err e => Some (Err (EStatus e), keep b s k)
        | Ok header =>
            match stream_frames_downstream admitted header status b s c k with
            | None => None
            | Some (r, b', s', c', k') =>
                Some (status_err r, {| a_buf := b'; a_reads := s'; a_ctrs := c'; a_sess := k' |})
            end
        end
    | Ok (Some _) => Some (Err (EStatus 502), keep b s k)
    end.
End Exchange.

(** ** Reading does not depend on how the bytes arrive *)

(** Only data and drain notices; only data. *)
Definition calm (s : list io) : bool :=
  forallb (fun e => match e with Got (_ :: _) | DrainSet => true | _ => false end) s.
Definition quiet (s : list io) : bool :=
  forallb (fun e => match e with Got (_ :: _) => true | _ => false end) s.
Definition rb_wf (b : FrameReadBuffer) : Prop := (rb_pos b <= length (rb_buf b))%nat.

Lemma quiet_calm s : quiet s = true -> calm s = true.
Proof.
  unfold quiet, calm. rewrite !forallb_forall. intros Q e He. specialize (Q e He). destruct e as [[|]| | |]; congruence.
Qed.
Lemma length_front b : length (front b) = available b.
Proof. unfold front, available. apply length_drop. Qed.
Lemma compact_wf b : rb_wf (compact b).
Proof.
  unfold compact, rb_wf. destruct (Nat.eqb_spec (rb_pos b) 0); [lia|]. destruct (_ =? _)%nat; cbn; lia.
Qed.
Lemma compact_front b : front (compact b) = front b.
Proof.
  unfold compact. destruct (Nat.eqb_spec (rb_pos b) 0); [reflexivity|].
  destruct (Nat.eqb_spec (available b) 0) as [E|]; [|reflexivity].
  rewrite <- length_front in E. unfold front at 1. cbn. symmetry. apply length_zero_iff_nil, E.
Qed.
Lemma extend_front b d : rb_wf b -> front (extend b d) = front b ++ d.
Proof. intros W. unfold front, extend. cbn. apply drop_app_le, W. Qed.
Lemma extend_wf b d : rb_wf b -> rb_wf (extend b d).
Proof. unfold rb_wf, extend. cbn. rewrite length_app. lia. Qed.

(** A fill that succeeds only moves bytes from the socket into the buffer. *)
Lemma fill_to_calm needed eof_ok intr b s :
  rb_wf b -> calm s = true -> (intr = true -> quiet s = true) -> (needed <= length (content b s))%nat ->
  exists b' s', fill_to needed eof_ok intr b s = (Some (Ok true), b', s') /\ rb_wf b' /\ calm s' = true /\
    (quiet s = true -> quiet s' = true) /\ (needed <= available b')%nat /\ content b' s' = content b s.
Proof.
  intros W C Q L. revert b W L. induction s as [|e s IH]; intros b W L; cbn [fill_to];
    destruct (Nat.leb_spec needed (available b)) as [Le|Gt]; try (exists b; eexists; repeat split; auto; fail).
  - exfalso. unfold content in L. cbn [inflow] in L. rewrite app_nil_r, length_front in L. lia.
  - cbn [calm forallb] in C. apply andb_true_iff in C as [C0 C]. destruct e as [[|x d]| | |]; try discriminate.
    + destruct (IH C) with (b := extend b (x :: d)) as (b' & s' & E & W' & C' & Q' & A & Co).
      * intros Hi. specialize (Q Hi). cbn in Q. apply Q.
      * apply extend_wf, W.
      * unfold content in *. rewrite extend_front by exact W. cbn [inflow] in L. rewrite <- app_assoc. exact L.
      * exists b', s'. split; [exact E|]. split; [exact W'|]. split; [exact C'|]. split; [intros Hq; cbn in Hq; auto|].
        split; [exact A|]. rewrite Co. unfold content. rewrite extend_front, <- app_assoc by exact W. reflexivity.
    + destruct intr; [specialize (Q eq_refl); discriminate|].
      destruct (IH C) with (b := b) as (b' & s' & E & W' & C' & Q' & A & Co); [discriminate | exact W | exact L |].
      exists b', s'. split; [exact E|]. split; [exact W'|]. split; [exact C'|]. split; [discriminate|]. split; [exact A | exact Co].
Qed.

(** The frame [f] fits the caps, wire and envelope bound. *)
Definition frame_ok (caps : FrameCaps) (f : ResponseFrame) : Prop :=
  response_ok caps f /\ zlen (response_envelope f) <= Z.min u32_max (max_remaining_length caps).

Lemma length_wire f : length (wire f) = (6 + length (response_envelope f))%nat.
Proof. unfold wire, framed. rewrite !length_app, length_to_le. reflexivity. Qed.

Lemma front_total_ok caps f b rest :
  frame_ok caps f -> (6 <= available b)%nat -> (exists tail, front b ++ tail = wire f ++ rest) ->
  front_total caps b = Ok (length (wire f)).
Proof.
  intros [_ Hl] A [tail E]. unfold front_total, front_prefix. fold (front b).
  destruct (prefix_of_framed (response_envelope f)) as (p & _ & Hf & Hp).
  assert (take 6 (front b) = prefix_bytes p) as ->.
  { rewrite <- (take_app_le _ tail) by (rewrite length_front; exact A). rewrite E. unfold wire. rewrite Hf, <- app_assoc.
    change 6%nat with (length (prefix_bytes p)). apply take_app_exact. }
  rewrite to_prefix_bytes, Hp by lia. cases_if; [lia|]. cbn [map_err rbind]. rewrite length_wire. unfold zlen. rewrite Nat2Z.id. reflexivity.
Qed.

Lemma decode_front_ok caps f b rest :
  caps_wf caps -> frame_ok caps f -> rb_wf b -> front b = wire f ++ rest ->
  exists b', decode_front (length (wire f)) caps b = (Ok f, b') /\ rb_wf b' /\ front b' = rest.
Proof.
  intros Hc [Ok_ _] W F. unfold decode_front. fold (front b). rewrite F, take_app_exact.
  assert (drop 6 (wire f) = response_envelope f) as ->.
  { unfold wire. destruct (prefix_of_framed (response_envelope f)) as (p & _ & -> & _).
    change 6%nat with (length (prefix_bytes p)). apply drop_app_exact. }
  assert (decode_response (response_envelope f) caps = Ok f) as ->.
  { apply (denotes_tiled _ (fun r b => response_ok caps r /\ b = response_envelope r)); [|auto]. apply denotes_response, Hc. }
  eexists. split; [reflexivity|]. assert (rest = drop (length (wire f)) (front b)) as R by (rewrite F, drop_app_exact; reflexivity).
  split; [|unfold front at 1; cbn; rewrite R; unfold front; rewrite drop_drop; reflexivity].
  unfold rb_wf in *. cbn [rb_pos rb_buf]. pose proof (length_front b) as L. rewrite F, length_app in L. unfold available in L. lia.
Qed.

Lemma read_envelope_ok caps f b s rest :
  caps_wf caps -> frame_ok caps f -> rb_wf b -> calm s = true -> (6 <= available b)%nat -> content b s = wire f ++ rest ->
  exists b' s', read_envelope caps b s = (Ok (Some f), b', s') /\ rb_wf b' /\ calm s' = true /\
    (quiet s = true -> quiet s' = true) /\ content b' s' = rest.
Proof.
  intros Hc Hf W C A Co. unfold read_envelope. rewrite (front_total_ok caps f b rest Hf A) by (exists (inflow s); exact Co).
  destruct (fill_to_calm (length (wire f)) false false b s W C) as (b1 & s1 & -> & W1 & C1 & Q1 & A1 & Co1);
    [discriminate | rewrite Co, length_app; lia |].
  rewrite Co in Co1. unfold content in Co1.
  assert (front b1 = wire f ++ drop (length (wire f)) (front b1)) as F1.
  { rewrite <- (take_drop (length (wire f)) (front b1)) at 1. f_equal.
    rewrite <- (take_app_le _ (inflow s1)) by (rewrite length_front; exact A1). rewrite Co1. apply take_app_exact. }
  destruct (decode_front_ok caps f b1 _ Hc Hf W1 F1) as (b2 & -> & W2 & F2). exists b2, s1.
  split; [reflexivity|]. split; [exact W2|]. split; [exact C1|]. split; [exact Q1|]. unfold content. rewrite F2.
  apply (app_inv_head (wire f)). rewrite app_assoc, <- F1. exact Co1.
Qed.

Lemma read_frame_ok caps first f b s rest :
  caps_wf caps -> frame_ok caps f -> calm s = true -> content b s = wire f ++ rest ->
  exists b' s', read_frame caps first b s = (Ok (Some f), b', s') /\ rb_wf b' /\ calm s' = true /\
    (quiet s = true -> quiet s' = true) /\ content b' s' = rest.
Proof.
  intros Hc Hf C Co. unfold read_frame. assert (content (compact b) s = wire f ++ rest) as Co0
    by (unfold content; rewrite compact_front; exact Co).
  destruct (fill_to_calm 6 first false (compact b) s (compact_wf b) C) as (b1 & s1 & -> & W1 & C1 & Q1 & A1 & Co1);
    [discriminate | rewrite Co0, length_app, length_wire; lia |].
  destruct (read_envelope_ok caps f b1 s1 rest Hc Hf W1 C1 A1) as (b2 & s2 & E & W2 & C2 & Q2 & Co2); [congruence|].
  exists b2, s2. repeat split; auto.
Qed.

Lemma read_frame_or_drain_ok caps f b s rest :
  caps_wf caps -> frame_ok caps f -> quiet s = true -> content b s = wire f ++ rest ->
  exists b' s', read_frame_or_drain caps b s = (Ok (Some f), b', s') /\ rb_wf b' /\ quiet s' = true /\ content b' s' = rest.
Proof.
  intros Hc Hf Q Co. unfold read_frame_or_drain. pose proof (quiet_calm s Q) as C.
  assert (content (compact b) s = wire f ++ rest) as Co0 by (unfold content; rewrite compact_front; exact Co).
  pose proof (compact_wf b) as W. set (b0 := compact b) in *. unfold buffered_frame_len.
  assert (exists b' s', match fill_to 6 false true b0 s with
      | (Some (Ok _), b', s') => read_envelope caps b' s'
      | (Some (Err e), b', s') => (Err e, b', s')
      | (None, b', s') => (Ok None, b', s')
      end = (Ok (Some f), b', s') /\ rb_wf b' /\ quiet s' = true /\ content b' s' = rest) as Slow.
  { destruct (fill_to_calm 6 false true b0 s W C) as (b1 & s1 & -> & W1 & C1 & Q1 & A1 & Co1);
      [intros _; exact Q | rewrite Co0, length_app, length_wire; lia |].
    destruct (read_envelope_ok caps f b1 s1 rest Hc Hf W1 C1 A1) as (b2 & s2 & E & W2 & C2 & Q2 & Co2); [congruence|].
    exists b2, s2. repeat split; auto. }
  destruct (Nat.ltb_spec (available b0) 6) as [|A]; [exact Slow|].
  rewrite (front_total_ok caps f b0 rest Hf A) by (exists (inflow s); exact Co0). cbn [rbind].
  destruct (Nat.leb_spec (length (wire f)) (available b0)) as [L|]; [|exact Slow].
  assert (front b0 = wire f ++ drop (length (wire f)) (front b0)) as F.
  { rewrite <- (take_drop (length (wire f)) (front b0)) at 1. f_equal.
    rewrite <- (take_app_le _ (inflow s)) by (rewrite length_front; exact L). fold (content b0 s). rewrite Co0. apply take_app_exact. }
  destruct (decode_front_ok caps f b0 _ Hc Hf W F) as (b2 & -> & W2 & F2). exists b2, s.
  split; [reflexivity|]. split; [exact W2|]. split; [exact Q|]. unfold content. rewrite F2.
  apply (app_inv_head (wire f)). rewrite app_assoc, <- F. exact Co0.
Qed.

(** ** The relay always returns *)

Lemma fill_to_content needed eof_ok intr b s r b' s' :
  rb_wf b -> fill_to needed eof_ok intr b s = (r, b', s') ->
  rb_wf b' /\ content b' s' = content b s /\ (r = Some (Ok true) -> (needed <= available b')%nat) /\
  (eof_ok = false -> r <> Some (Ok false)).
Proof.
  revert b. induction s as [|e s IH]; intros b W; cbn [fill_to];
    destruct (Nat.leb_spec needed (available b)) as [Le|Gt].
  1, 3: intros E; inversion E; subst; repeat split; auto; discriminate.
  - intros E. inversion E; subst. repeat split; auto; destruct eof_ok, (available b' =? 0)%nat; discriminate.
  - destruct e as [[|x d]| | |].
    + intros E. inversion E; subst. repeat split; auto; destruct eof_ok, (available b' =? 0)%nat; discriminate.
    + intros E. destruct (IH _ (extend_wf b _ W) E) as (W' & Co & R). split; [exact W'|]. split; [|exact R].
      rewrite Co. unfold content. rewrite extend_front, <- app_assoc by exact W. reflexivity.
    + intros E. inversion E; subst. repeat split; auto; destruct eof_ok, (available b' =? 0)%nat; discriminate.
    + intros E. inversion E; subst. repeat split; auto; discriminate.
    + destruct intr; [intros E; inversion E; subst; repeat split; auto; discriminate | apply IH, W].
Qed.

Lemma decode_front_consumes total caps b f b' :
  rb_wf b -> (total <= available b)%nat -> decode_front total caps b = (Ok f, b') ->
  (length (front b') + total = length (front b))%nat.
Proof.
  intros W A. unfold decode_front. destruct (decode_response _ _); [|discriminate]. intros E. inversion E; subst.
  rewrite !length_front. unfold available in *. cbn [rb_pos rb_buf]. lia.
Qed.

Lemma front_total_six caps b total : front_total caps b = Ok total -> (6 <= total)%nat.
Proof.
  unfold front_total. destruct (front_prefix b); [|discriminate]. destruct (prefix_parse _ _); [|discriminate].
  cbn. intros E. apply Ok_inj in E. lia.
Qed.

Lemma read_frame_or_drain_consumes caps b s f b' s' :
  read_frame_or_drain caps b s = (Ok (Some f), b', s') -> (length (content b' s') < length (content b s))%nat.
Proof.
  unfold read_frame_or_drain. replace (length (content b s)) with (length (content (compact b) s))
    by (unfold content; rewrite compact_front; reflexivity).
  pose proof (compact_wf b) as W. set (b0 := compact b) in *. clearbody b0. unfold content. rewrite !length_app.
  assert (forall r b' s', match fill_to 6 false true b0 s with
      | (Some (Ok _), b', s') => read_envelope caps b' s'
      | (Some (Err e), b', s') => (Err e, b', s')
      | (None, b', s') => (Ok None, b', s')
      end = (r, b', s') -> r = Ok (Some f) ->
    (length (front b') + length (inflow s') < length (front b0) + length (inflow s))%nat) as Slow.
  { intros r b2 s2 E ->. destruct (fill_to 6 false true b0 s) as [[o b1] s1] eqn:F.
    destruct (fill_to_content _ _ _ _ _ _ _ _ W F) as (W1 & Co & _ & _). unfold content in Co.
    apply (f_equal length) in Co. rewrite !length_app in Co.
    destruct o as [[x|e]|]; [| discriminate | discriminate]. unfold read_envelope in E.
    destruct (front_total caps b1) as [total|e] eqn:T; [|discriminate]. apply front_total_six in T.
    destruct (fill_to total false false b1 s1) as [[o b3] s3] eqn:F3.
    destruct (fill_to_content _ _ _ _ _ _ _ _ W1 F3) as (W3 & Co3 & A3 & N3). unfold content in Co3.
    apply (f_equal length) in Co3. rewrite !length_app in Co3.
    destruct o as [[[]|e]|]; [| destruct (N3 eq_refl eq_refl) | discriminate | discriminate]. specialize (A3 eq_refl).
    destruct (decode_front total caps b3) as [[g|e] b4] eqn:D; [|discriminate].
    pose proof (decode_front_consumes _ _ _ _ _ W3 A3 D). inversion E; subst. lia. }
  unfold buffered_frame_len. destruct (Nat.ltb_spec (available b0) 6); [intros E; exact (Slow _ _ _ E eq_refl)|].
  destruct (front_total caps b0) as [total|e] eqn:T; [|discriminate]. cbn [rbind].
  destruct (Nat.leb_spec total (available b0)) as [A|]; [|intros E; exact (Slow _ _ _ E eq_refl)].
  apply front_total_six in T. destruct (decode_front total caps b0) as [[g|e] b1] eqn:D; [|discriminate].
  pose proof (decode_front_consumes _ _ _ _ _ W A D). intros E. inversion E; subst. lia.
Qed.

Section Relay.
Context {H : Type} `{HeaderLib H}.
Variable caps : FrameCaps.
Variable max_buffered_bytes : Z.

Lemma write_after_header_io header body end_ (st : relay (H := H)) r st' :
  write_after_header header body end_ st = (r, st') -> rbuf st' = rbuf st /\ sock st' = sock st.
Proof.
  unfold write_after_header. assert (forall w st r st', write_long_lived (H := H) w st = (r, st') -> rbuf st' = rbuf st /\ sock st' = sock st) as G.
  { intros w st0 r0 st1. unfold write_long_lived. destruct (session_write _ _) as [[u|e] k].
    - intros E. inversion E; subst. auto.
    - unfold on_admission. destruct (long_lived_hold _ _). intros E. inversion E; subst. auto. }
  destruct header as [h|]; [|apply G]. destruct (write_long_lived (DHeader h false) st) as [[u|e] st1] eqn:E1.
  - intros E2. destruct (G _ _ _ _ E1), (G _ _ _ _ E2). split; congruence.
  - intros E2. inversion E2; subst. exact (G _ _ _ _ E1).
Qed.

Lemma relay_loop_returns drained fuel n header status streamed st :
  (length (content (rbuf st) (sock st)) < fuel)%nat ->
  relay_loop (H := H) caps max_buffered_bytes drained fuel n header status streamed st <> None.
Proof.
  revert n header streamed st. induction fuel as [|fuel IH]; intros n header streamed st Hf; [lia|]. cbn [relay_loop].
  destruct (drained n); [discriminate|]. destruct (read_frame_or_drain caps (rbuf st) (sock st)) as [[r b] s] eqn:R.
  destruct r as [[f|]|e]; try discriminate. apply read_frame_or_drain_consumes in R.
  destruct f as [? ? ?|? ?|[|x d]|]; try discriminate.
  - apply IH. cbn. lia.
  - destruct (_ >? _); [discriminate|]. destruct (negb _); [discriminate|].
    destruct (write_after_header _ _ _ _) as [[u|e] st'] eqn:W; [|discriminate]. apply write_after_header_io in W as [W1 W2].
    apply IH. rewrite W1, W2. unfold on_admission. destruct (long_lived_hold _ _). cbn. lia.
Qed.

(** Writes that the session accepts. *)
Definition header_writes (header : option H) : list (dwrite (H := H)) :=
  match header with Some h => [DHeader h false] | None => [] end.
Definition give (st : relay (H := H)) (ws : list (dwrite (H := H))) : relay (H := H) :=
  {| adm := adm st; ctrs := ctrs st; rbuf := rbuf st; sock := sock st;
     sess := {| written := written (sess st) ++ ws; accepts := accepts (sess st) - length ws;
                refusal_is_timeout := refusal_is_timeout (sess st) |} |}.
Lemma write_long_lived_ok w st :
  (0 < accepts (sess st))%nat -> write_long_lived w st = (Ok tt, give st [w]).
Proof.
  intros A. unfold write_long_lived, session_write, give. destruct (accepts (sess st)) eqn:E; [lia|].
  cbn [length]. rewrite Nat.sub_succ, Nat.sub_0_r. reflexivity.
Qed.
Lemma write_after_header_ok header body end_ st :
  (length (header_writes header) < accepts (sess st))%nat ->
  write_after_header header body end_ st = (Ok tt, give st (header_writes header ++ [DBody body end_])).
Proof.
  intros A. unfold write_after_header. destruct header as [h|]; cbn [header_writes length app] in *.
  - rewrite write_long_lived_ok by lia. rewrite write_long_lived_ok by (cbn; lia). unfold give. cbn.
    rewrite <- app_assoc. do 3 f_equal. lia.
  - apply write_long_lived_ok. lia.
Qed.

(** What the client's session receives for the chunks of a streamed response. *)
Definition chunk_writes (ds : list bytes) : list (dwrite (H := H)) :=
  map (fun d => DBody (Some d) false) (List.filter (fun d => negb (bool_decide (d = []))) ds).
Definition total_len (ds : list bytes) : Z := fold_right (fun d n => zlen d + n) 0 ds.
Lemma total_len_nonneg ds : 0 <= total_len ds.
Proof. unfold total_len. induction ds as [|d ds IH]; cbn [fold_right]; [lia|]. pose proof (zlen_nonneg d). lia. Qed.
Definition admission_after (n : Z) (a : LongLivedAdmission) : LongLivedAdmission :=
  {| bytes_streamed := bytes_streamed a + n; completed := true; drained := Fairness.drained a |}.

Lemma relay_chunks fuel n header status streamed st ds extra :
  caps_wf caps -> Forall (fun d => frame_ok caps (Chunk d)) ds -> frame_ok caps End_ -> quiet (sock st) = true ->
  content (rbuf st) (sock st) = concat (map wire (map Chunk ds)) ++ wire End_ ++ extra ->
  (length ds < fuel)%nat -> 0 <= streamed -> streamed + total_len ds <= MAX_RESPONSE_BYTES ->
  0 <= bytes_streamed (adm st) -> bytes_streamed (adm st) + total_len ds <= Z.min max_buffered_bytes MAX_RESPONSE_BYTES ->
  (length (header_writes header) + length (chunk_writes ds) < accepts (sess st))%nat ->
  exists st', relay_loop caps max_buffered_bytes (fun _ => false) fuel n header status streamed st
      = Some (Ok (status, negb (has_surplus (rbuf st'))), st') /\
    written (sess st') = written (sess st) ++ header_writes header ++ chunk_writes ds ++ [DBody None true] /\
    content (rbuf st') (sock st') = extra /\ quiet (sock st') = true /\ adm st' = admission_after (total_len ds) (adm st).
Proof.
  intros Hc HF He. revert fuel n header streamed st. induction ds as [|d ds IH]; intros fuel n header streamed st Q Co Hf S0 S1 B0 B1 A;
    (destruct fuel as [|fuel]; [cbn in Hf; lia|]); cbn [relay_loop].
  - cbn [map concat app] in Co. destruct (read_frame_or_drain_ok caps End_ _ _ extra Hc He Q Co) as (b & s & -> & W & Q' & Co').
    unfold finish_stream. cbn [chunk_writes total_len] in *. rewrite write_after_header_ok by (cbn in *; lia).
    exists (on_admission Complete (give (set_rb st b s) (header_writes header ++ [DBody None true]))).
    split; [reflexivity|]. cbn. split; [reflexivity|]. split; [exact Co'|]. split; [exact Q'|].
    unfold admission_after. rewrite Z.add_0_r. reflexivity.
  - apply List.Forall_cons_iff in HF as [Hd HF]. cbn [map concat] in Co. rewrite <- app_assoc in Co.
    destruct (read_frame_or_drain_ok caps _ _ _ _ Hc Hd Q Co) as (b & s & -> & W & Q' & Co').
    cbn [total_len fold_right] in S1, B1. change (fold_right _ 0 ds) with (total_len ds) in S1, B1.
    pose proof (zlen_nonneg d) as Zd. pose proof (total_len_nonneg ds) as Zt. destruct d as [|x d].
    + destruct (IH HF fuel (S n) header streamed (set_rb st b s)) as (st' & E & R); cbn in *; auto; try lia.
      exists st'. split; [exact E|]. exact R.
    + set (dd := x :: d) in *. assert (chunk_writes (dd :: ds) = DBody (Some dd) false :: chunk_writes ds) as CW by reflexivity.
      rewrite CW in A |- *. cbn [length] in A.
      assert (saturating_add streamed (zlen dd) = streamed + zlen dd) as -> by (unfold MAX_RESPONSE_BYTES in *; int_lia).
      destruct (streamed + zlen dd >? MAX_RESPONSE_BYTES) eqn:Z1; [lia|].
      assert (saturating_add (bytes_streamed (adm st)) (zlen dd) = bytes_streamed (adm st) + zlen dd) as SA
        by (unfold MAX_RESPONSE_BYTES in *; int_lia).
      unfold on_admission, long_lived_hold, set_rb. cbn [adm ctrs rbuf sock sess]. rewrite SA.
      unfold within_buffer. cbn [bytes_streamed]. destruct (_ <=? max_buffered_bytes) eqn:Z2; [|lia]. cbn [negb].
      rewrite write_after_header_ok by (cbn [sess]; lia).
      match goal with |- context [relay_loop _ _ _ _ _ None _ _ ?x] => set (st1 := x) end.
      destruct (IH HF fuel (S n) None (streamed + zlen dd) st1) as (st' & E & Wr & Ex & Qu & Ad);
        [(unfold st1, give; cbn [rbuf sock sess adm accepts bytes_streamed header_writes length];
          rewrite ?length_app; cbn [length]; cbn [length] in Hf; auto; lia) .. |].
      exists st'. split; [exact E|]. split; [|split; [exact Ex|]; split; [exact Qu|]].
      * rewrite Wr. unfold st1, give. cbn [sess written]. rewrite <- !app_assoc. reflexivity.
      * rewrite Ad. unfold st1, give, admission_after. cbn [adm bytes_streamed Fairness.drained]. f_equal. cbn [total_len fold_right].
        change (fold_right _ 0 ds) with (total_len ds). lia.
Qed.
End Relay.

(** ** Response headers *)

Definition response_frame_caps : FrameCaps :=
  {| max_header_bytes := MAX_RESPONSE_HEADER_BYTES; max_headers := 100;
     max_body_bytes := unwrap_or u32_max (try_from_u32 MAX_RESPONSE_BYTES) |}.
Lemma response_frame_caps_wf : caps_wf response_frame_caps.
Proof. vm_compute. repeat split; discriminate. Qed.

Definition app_headers (hs : list (bytes * bytes)) : list (bytes * bytes) :=
  List.filter (fun h => negb (is_framing_header (fst h))) hs.
(** Names and values the HTTP library accepts. *)
Definition library_ok (hs : list (bytes * bytes)) : Prop :=
  Forall (fun h => is_valid_header_name (fst h) = true /\ has_invalid_header_value_bytes (snd h) = false) (app_headers hs).
Definition values (k : bytes) (hs : list (bytes * bytes)) : list bytes := map snd (List.filter (same_name k) (app_headers hs)).

Section Headers.
Context {H : Type} `{HeaderLaws H}.

Lemma append_app_headers_ok hs (header : H) :
  library_ok hs ->
  exists h', append_app_headers hs header = Ok h' /\ forall k, get_all k h' = get_all k header ++ values k hs.
Proof.
  unfold library_ok, values, app_headers. revert header. induction hs as [|[n v] hs IH]; intros header L.
  - exists header. split; [reflexivity|]. intros k. cbn. rewrite app_nil_r. reflexivity.
  - cbn [append_app_headers List.filter fst] in *. destruct (is_framing_header n); cbn [negb] in *; [apply IH, L|].
    apply List.Forall_cons_iff in L as [[L1 L2] L]. destruct (get_append n v header L1 L2) as (h1 & -> & G1). cbn [ok_or rbind].
    destruct (IH h1 L) as (h2 & -> & G2). exists h2. split; [reflexivity|]. intros k. rewrite G2, G1, <- app_assoc. f_equal.
    cbn [List.filter]. unfold same_name at 2. cbn [fst]. destruct (eq_bytes (to_ascii_lowercase n) k); reflexivity.
Qed.

Lemma insert_close_ok keepalive (header : H) :
  exists h', insert_close keepalive header = Ok h' /\
    forall k, get_all k h' = if negb keepalive && eq_bytes (bs "connection") k then [bs "close"] else get_all k header.
Proof.
  unfold insert_close. destruct keepalive; cbn [negb andb]; [eauto|].
  destruct (get_insert (bs "Connection") (bs "close") header) as (h2 & -> & G); [reflexivity | reflexivity|].
  exists h2. split; [reflexivity | exact G].
Qed.

Lemma show_uint_valid n : 0 <= n -> has_invalid_header_value_bytes (show_uint n) = false.
Proof.
  intros Hn. pose proof (show_uint_digits _ Hn) as D. apply existsb_false. intros b Hb.
  rewrite forallb_forall in D. specialize (D b Hb). unfold is_ascii_digit, in_range in D. lia.
Qed.

Lemma build_response_header_ok status hs body_len keepalive :
  100 <= status <= 599 -> library_ok hs -> 0 <= body_len ->
  exists h : H, build_response_header status hs body_len keepalive = Ok h /\
    get_all (bs "content-length") h = [show_uint body_len] /\
    forall k, k <> bs "content-length" -> k <> bs "connection" -> get_all k h = values k hs.
Proof.
  intros Hs L Hb. unfold build_response_header. destruct (get_build status) as (h0 & -> & G0); [lia|]. cbn [ok_or rbind].
  destruct (append_app_headers_ok hs h0 L) as (h1 & -> & G1). cbn [rbind].
  destruct (get_insert (bs "Content-Length") (show_uint body_len) h1) as (h2 & -> & G2); [reflexivity | apply show_uint_valid, Hb |].
  cbn [ok_or rbind]. destruct (insert_close_ok keepalive h2) as (h3 & -> & G3). exists h3. split; [reflexivity|]. split.
  - rewrite G3. change (eq_bytes (bs "connection") (bs "content-length")) with false. rewrite andb_false_r, G2. reflexivity.
  - intros k N1 N2. rewrite G3, G2, G1, G0.
    assert (eq_bytes (bs "connection") k = false) as -> by (apply not_true_iff_false; intros Q%eq_bytes_true; congruence).
    assert (eq_bytes (to_ascii_lowercase (bs "Content-Length")) k = false) as ->
      by (apply not_true_iff_false; intros Q%eq_bytes_true; apply N1; rewrite <- Q; reflexivity).
    rewrite andb_false_r. reflexivity.
Qed.

Lemma build_response_chunked_header_ok status hs keepalive :
  100 <= status <= 599 -> library_ok hs ->
  exists h : H, build_response_chunked_header status hs keepalive = Ok h /\
    forall k, k <> bs "connection" -> get_all k h = values k hs.
Proof.
  intros Hs L. unfold build_response_chunked_header. destruct (get_build status) as (h0 & -> & G0); [lia|]. cbn [ok_or rbind].
  destruct (append_app_headers_ok hs h0 L) as (h1 & -> & G1). cbn [rbind].
  destruct (insert_close_ok keepalive h1) as (h3 & -> & G3). exists h3. split; [reflexivity|]. intros k N.
  rewrite G3, G1, G0. assert (eq_bytes (bs "connection") k = false) as -> by (apply not_true_iff_false; intros Q%eq_bytes_true; congruence).
  rewrite andb_false_r. reflexivity.
Qed.
End Headers.

(** ** From the worker to the client *)

Inductive reply : Type :=
| Whole (status : Z) (hs : list (bytes * bytes)) (body : bytes)
| Streamed (status : Z) (hs : list (bytes * bytes)) (ds : list bytes).

Definition reply_frames (r : reply) : list ResponseFrame :=
  match r with
  | Whole status hs body => [Full status hs body]
  | Streamed status hs ds => Head status hs :: map Chunk ds ++ [End_]
  end.
Definition reply_status (r : reply) : Z := match r with Whole status _ _ | Streamed status _ _ => status end.
Definition reply_headers (r : reply) : list (bytes * bytes) := match r with Whole _ hs _ | Streamed _ hs _ => hs end.
Definition reply_data (r : reply) : list bytes := match r with Whole _ _ body => [body] | Streamed _ _ ds => ds end.
(** What the client's session is given for a reply, with the header object [h]. *)
Definition client_view {H} (h : H) (r : reply) : list (dwrite (H := H)) :=
  DHeader h false ::
  match r with
  | Whole _ _ body => [DBody (Some body) true]
  | Streamed _ _ ds => chunk_writes ds ++ [DBody None true]
  end.

(** The reply of one turn of the worker's frame loop. *)
Definition turn_reply (streaming : bool) (t : turn) (w : WorkerRequest) : reply :=
  if streaming
  then let '(head, evs) := first_head (dispatch_streaming_request (t_queue t) (t_events t) w) in
       Streamed (head_status head) (sanitize_response_headers (head_headers head)) (chunks_until_end evs)
  else let r := dispatch_buffered_request (t_queue t) (t_answer t) w in
       Whole (resp_status r) (sanitize_response_headers (resp_headers r)) (resp_body r).

Lemma turn_reply_frames streaming t w : reply_frames (turn_reply streaming t w) = turn_frames streaming t w.
Proof.
  rewrite turn_frames_dispatch. unfold turn_reply, stream_frames. destruct streaming; [|reflexivity]. destruct (first_head _). reflexivity.
Qed.
Lemma frame_ok_encodable caps f : frame_ok caps f -> encodable f = true.
Proof. intros [[F _] L]. unfold encodable. rewrite F. apply Z.leb_le. lia. Qed.

Section EndToEnd.
Context {H : Type} `{HeaderLaws H}.
Variable max_buffered_bytes : Z.

(** A reply the edge accepts, and a session that takes all of it. *)
Record relayable (r : reply) (k : session (H := H)) : Prop := {
  rl_frames : Forall (frame_ok response_frame_caps) (reply_frames r);
  rl_headers : library_ok (reply_headers r);
  rl_bytes : total_len (reply_data r) <= Z.min max_buffered_bytes MAX_RESPONSE_BYTES;
  rl_room : (length (reply_data r) + 2 <= accepts k)%nat;
}.

Lemma chunk_writes_short ds : (length (chunk_writes (H := H) ds) <= length ds)%nat.
Proof. unfold chunk_writes. rewrite length_map. apply List.filter_length_le. Qed.

Lemma exchange_relays r k keepalive c reads extra :
  relayable r k -> quiet reads = true -> inflow reads = concat (map wire (reply_frames r)) ++ extra ->
  exists h a,
    exchange response_frame_caps max_buffered_bytes (fun _ => false) true keepalive c k
      {| l_buf := rb_new; l_write_ok := true; l_reads := reads |}
    = Some (Ok (reply_status r, negb (has_surplus (a_buf a))), a) /\
    written (a_sess a) = written k ++ client_view h r /\ content (a_buf a) (a_reads a) = extra /\
    (match r with Whole _ _ body => get_all (bs "content-length") h = [show_uint (zlen body)] | _ => True end) /\
    forall name, name <> bs "content-length" -> name <> bs "connection" -> get_all name h = values name (reply_headers r).
Proof.
  intros [HF HL HB HR] Q I. unfold exchange. cbn [l_write_ok l_buf l_reads negb].
  destruct r as [status hs body | status hs ds]; cbn [reply_frames reply_headers reply_data reply_status map concat] in *.
  - apply List.Forall_cons_iff in HF as [Hf _]. rewrite app_nil_r in I.
    destruct (read_frame_ok response_frame_caps true _ rb_new reads extra response_frame_caps_wf Hf (quiet_calm _ Q) I)
      as (b & s & -> & _ & _ & _ & Co). destruct Hf as [[_ (Hs & _)] _].
    destruct (build_response_header_ok status hs (zlen body) keepalive Hs HL (zlen_nonneg _)) as (h & -> & G1 & G2).
    unfold session_write. destruct (accepts k) as [|[|n]] eqn:A; [cbn in HR; lia | cbn in HR; lia |]. cbn [accepts].
    exists h. match goal with |- exists a, Some (_, ?x) = _ /\ _ => exists x end.
    split; [reflexivity|]. cbn [a_sess a_buf a_reads written client_view reply_headers]. split; [rewrite <- app_assoc; reflexivity|]. split; [exact Co|]. split; [exact G1|]. auto.
  - apply List.Forall_cons_iff in HF as [Hf HF]. rewrite <- app_assoc in I.
    apply Forall_app in HF as [HF He]. apply List.Forall_cons_iff in He as [He _]. rewrite Forall_map in HF.
    destruct (read_frame_ok response_frame_caps true _ rb_new reads _ response_frame_caps_wf Hf (quiet_calm _ Q) I)
      as (b & s & -> & _ & _ & Qs & Co). destruct Hf as [[_ (Hs & _)] _]. specialize (Qs Q).
    destruct (build_response_chunked_header_ok status hs keepalive Hs HL) as (h & -> & G).
    unfold stream_frames_downstream. cbn [negb].
    match goal with |- context [relay_loop _ _ _ _ _ _ _ _ ?x] => set (st := x) end.
    rewrite map_app, concat_app in Co. cbn [map concat] in Co. rewrite app_nil_r, <- app_assoc in Co.
    destruct (relay_chunks response_frame_caps max_buffered_bytes (relay_fuel st) 0 (Some h) status 0 st ds extra) as (st' & -> & Wr & Ex & _ & _).
    + apply response_frame_caps_wf.
    + exact HF.
    + exact He.
    + exact Qs.
    + exact Co.
    + unfold relay_fuel. cbn [st rbuf sock]. rewrite Co, !length_app. clear. induction ds as [|d ds IH]; [cbn [length map concat]; lia|].
      cbn [map concat length]. rewrite length_app, length_wire. lia.
    + lia.
    + lia.
    + cbn. lia.
    + cbn [st adm new_admission bytes_streamed]. lia.
    + pose proof (chunk_writes_short ds). cbn [header_writes length st sess]. lia.
    + exists h. match goal with |- exists a, Some (_, ?x) = _ /\ _ => exists x end.
      split; [reflexivity|]. cbn [a_sess a_buf a_reads]. split; [rewrite Wr; reflexivity|].
      split; [exact Ex|]. split; [exact Logic.I|]. intros name _ N. apply G, N.
Qed.
End EndToEnd.

Lemma exchange_ends_stale {H} `{HeaderLib H} caps max_buffered_bytes drained admitted keepalive c (k : session (H := H)) l :
  exists r a, exchange caps max_buffered_bytes drained admitted keepalive c k l = Some (r, a) /\
    forall delivered, r = Err (StaleBeforeDispatch delivered) ->
      a_sess a = k /\ a_ctrs a = c /\ delivered = l_write_ok l.
Proof.
  unfold exchange. destruct (l_write_ok l) eqn:Wk; cbn [negb]; [|eexists; eexists; split; [reflexivity|]; intros d E; inversion E; subst; auto].
  destruct (read_frame caps true (l_buf l) (l_reads l)) as [[r b] s]. destruct r as [[f|]|e];
    [|eexists; eexists; split; [reflexivity|]; intros d E; inversion E; subst; auto |eexists; eexists; split; [reflexivity|]; discriminate].
  destruct f as [status hs body|status hs|data|]; try (eexists; eexists; split; [reflexivity|]; discriminate).
  - destruct (build_response_header _ _ _ _) as [h|e]; [|eexists; eexists; split; [reflexivity|]; discriminate].
    destruct (session_write _ k) as [[u|e] k1]; [|eexists; eexists; split; [reflexivity|]; discriminate].
    destruct (session_write _ k1) as [[u1|e] k2]; eexists; eexists; (split; [reflexivity|]); discriminate.
  - destruct (build_response_chunked_header _ _ _) as [h|e]; [|eexists; eexists; split; [reflexivity|]; discriminate].
    unfold stream_frames_downstream. destruct admitted; cbn [negb]; [|eexists; eexists; split; [reflexivity|]; discriminate].
    match goal with |- context [relay_loop _ _ _ _ _ _ _ _ ?x] => set (st := x) end.
    pose proof (relay_loop_returns caps max_buffered_bytes drained (relay_fuel st) 0 (Some h) status 0 st (Nat.lt_succ_diag_r _)) as NR.
    destruct (relay_loop _ _ _ _ _ _ _ _ _) as [[[v|e] st']|]; [| |congruence];
      eexists; eexists; (split; [reflexivity|]); discriminate.
Qed.

(** ** Properties *)

(** C27. A reply crosses the binary hop unchanged: whatever a turn of the worker's frame loop
    produces, buffered or streamed, if the edge's caps admit it, the bytes the worker writes,
    delivered to the edge in pieces of any size, make the exchange succeed with the reply's
    status, give the client's session the header (the application's values under every name
    but the framing ones, and the right Content-Length for a buffered reply) followed by
    exactly the body or the non-empty chunks in order and one end of body, and leave the
    connection empty and reusable.  This is the undisturbed course: no drain begins, a streamed
    reply is admitted, the worker's socket takes its frames and the client takes the writes. *)
Theorem worker_turn_reaches_client {H} `{HeaderLaws H} max_buffered_bytes streaming t w k0 keepalive c (k : session (H := H)) :
  relayable max_buffered_bytes (turn_reply streaming t w) k ->
  (length (turn_frames streaming t w) <= room k0)%nat ->
  exists k1 sent_bytes,
    serve_turn streaming t w k0 = (k1, true) /\ sent k1 = sent k0 ++ sent_bytes /\
    forall reads, quiet reads = true -> inflow reads = sent_bytes ->
    exists h a,
      exchange response_frame_caps max_buffered_bytes (fun _ => false) true keepalive c k
        {| l_buf := rb_new; l_write_ok := true; l_reads := reads |}
      = Some (Ok (reply_status (turn_reply streaming t w), true), a) /\
      written (a_sess a) = written k ++ client_view h (turn_reply streaming t w) /\
      content (a_buf a) (a_reads a) = [] /\
      (streaming = false -> get_all (bs "content-length") h = [show_uint (total_len (reply_data (turn_reply streaming t w)))]) /\
      forall name, name <> bs "content-length" -> name <> bs "connection" ->
        get_all name h = values name (reply_headers (turn_reply streaming t w)).
Proof.
  intros R Room. pose proof (rl_frames _ _ _ R) as HF. rewrite turn_reply_frames in HF.
  assert (forallb encodable (turn_frames streaming t w) = true) as En.
  { apply forallb_forall. intros f Hf. rewrite List.Forall_forall in HF. eapply frame_ok_encodable, HF, Hf. }
  pose proof (writes_to_enough _ _ _ k0 (serve_turn_writes streaming t w En)) as W.
  rewrite length_map in W. specialize (W Room).
  eexists. exists (concat (map wire (turn_frames streaming t w))). split; [exact W|]. split; [reflexivity|].
  intros reads Q I. rewrite <- turn_reply_frames in I. rewrite <- (app_nil_r (concat _)) in I.
  destruct (exchange_relays max_buffered_bytes _ k keepalive c reads [] R Q I) as (h & a & E & Wr & Co & G1 & G2).
  exists h, a. assert (has_surplus (a_buf a) = false) as S.
  { unfold has_surplus. rewrite <- length_front. unfold content in Co. apply app_eq_nil in Co as [-> _]. reflexivity. }
  rewrite S in E. split; [exact E|]. split; [exact Wr|]. split; [exact Co|]. split; [|exact G2].
  intros ->. cbn [turn_reply] in G1. rewrite G1. unfold total_len. cbn [turn_reply reply_data fold_right]. rewrite Z.add_0_r. reflexivity.
Qed.

(** An exchange always ends, whatever the worker sends and however its socket and the
    drain flag behave: the bytes that can still be read bound the turns of the relay.  And a
    stale outcome, the only one that may be retried, means that the client's session and the
    long-lived accounting have not been touched. *)
Theorem exchange_ends_and_stale_is_clean {H} `{HeaderLib H} caps max_buffered_bytes drained admitted keepalive c (k : session (H := H)) l :
  exists r a, exchange caps max_buffered_bytes drained admitted keepalive c k l = Some (r, a) /\
    forall delivered, r = Err (StaleBeforeDispatch delivered) ->
      a_sess a = k /\ a_ctrs a = c /\ delivered = l_write_ok l.
Proof. apply exchange_ends_stale. Qed.

Definition demo_turn : turn :=
  {| t_closed := false; t_queue := queue_new; t_answer := fun _ => None;
     t_events := fun _ => [EvStart {| head_status := 200; head_headers := [(bs "x-a", bs "1"); (bs "Connection", bs "close")] |};
                  EvChunk (bs "he"); EvChunk []; EvChunk (bs "llo"); EvEnd] |}.
Definition demo_client : session (H := list (bytes * bytes)) := {| written := []; accepts := 9; refusal_is_timeout := false |}.

Lemma demo_relayable : relayable 1000 (turn_reply true demo_turn sample_http_request) demo_client.
Proof.
  change (turn_reply true demo_turn sample_http_request) with (Streamed 200 [(bs "x-a", bs "1")] [bs "he"; bs "llo"]).
  constructor; cbn [reply_frames reply_headers reply_data map app].
  - repeat (apply List.Forall_cons; [|]); [| | | |constructor]; (split; [split; [vm_compute; reflexivity|] | vm_compute; discriminate]);
      try exact I; try (vm_compute; discriminate).
    split; [lia|]. split; [vm_compute; discriminate|]. split; [reflexivity | vm_compute; discriminate].
  - repeat constructor.
  - vm_compute. discriminate.
  - vm_compute. lia.
Qed.

Lemma worker_turn_reaches_client_witness :
  exists k1 sent_bytes,
    serve_turn true demo_turn sample_http_request {| sent := []; room := 9 |} = (k1, true) /\ sent k1 = sent_bytes /\
    exists h a,
      exchange response_frame_caps 1000 (fun _ => false) true true zero_counters demo_client
        {| l_buf := rb_new; l_write_ok := true; l_reads := map (fun b => Got [b]) sent_bytes |} = Some (Ok (200, true), a) /\
      written (a_sess a) = [DHeader h false; DBody (Some (bs "he")) false; DBody (Some (bs "llo")) false; DBody None true] /\
      get_all (bs "x-a") h = [bs "1"].
Proof.
  destruct (worker_turn_reaches_client 1000 true demo_turn sample_http_request {| sent := []; room := 9 |} true zero_counters
              demo_client demo_relayable) as (k1 & w & E & S & R); [vm_compute; lia|].
  exists k1, w. split; [exact E|]. split; [exact S|]. destruct (R (map (fun b => Got [b]) w)) as (h & a & X & Wr & _ & _ & G).
  - clear. induction w as [|b w IH]; [reflexivity | exact IH].
  - clear. induction w as [|b w IH]; [reflexivity | cbn; f_equal; exact IH].
  - exists h, a. split; [exact X|]. split; [exact Wr | apply (G (bs "x-a")); discriminate].
Defined.
