(* ===== verification/FrameSend.v ===== *)
(** * FrameSend: failover, retry and admission on the binary hop

    Model of [send_worker_frame_to_pool], [send_to_worker], [park_for_slot] and the
    admission gauges of [crates/oxo-pingora-edge/src/platform/frame_hop.rs].  What other
    requests, the workers and the operating system do is the environment: an [attempt]
    holds everything one call of [send_to_worker] observes, a [pass] everything one turn
    of the selection loop observes, a [wake] what one turn of the parking loop observes.
    Shared counters, the pool, the gauges and the pin store are changed through the trace
    of [hop_event]s; the client's session and the long-lived counters are threaded. *)

From S2P Require Import Prelude Text HopFrame WorkerWire Fairness Dispatch FrameClient.

Inductive WorkerKind : Type := Classic | Async.
Definition parse_kind (value : bytes) : option WorkerKind :=
  if eq_bytes value (bs "classic") then Some Classic
  else if eq_bytes value (bs "async") then Some Async
  else None.
Definition is_async (k : WorkerKind) : bool := match k with Async => true | Classic => false end.

Inductive FrameSendError : Type :=
| Connect
| AfterWrite (status : Z)
| AtCapacity.

Abbreviation outcome := (result ExchangeError (Z * bool)).

Inductive hop_event : Type :=
| ConnectFailed (worker : nat)
| FreshConnect (worker : nat)                          (** [fresh_connect_total += 1] *)
| Acquired (worker : nat)                              (** gauge up *)
| Released (worker : nat)                              (** gauge down, wake a parked request *)
| Exchanged (worker : nat) (reused : bool) (o : outcome)
| StaleEvicted (worker : nat)                          (** [stale_evictions += 1] *)
| CheckedIn (worker : nat)                             (** the connection went back to the pool *)
| Repinned (key : Z) (from to : nat).

(** [InFlightGuard::try_acquire]: the compare-exchange loop ends on a gauge value that
    decides; without a cap the increment always succeeds. *)
Definition try_acquire (cap : option Z) (gauge : Z) : bool :=
  match cap with None => true | Some kv => negb (gauge >=? kv) end.

Section Send.
Context {H : Type} `{HeaderLib H}.
Variable caps : FrameCaps.
Variable max_buffered_bytes : Z.
Variables (keepalive : bool) (cap : option Z) (kind : WorkerKind).

(** What one exchange observes besides its connection. *)
Record exchange_env : Type := { x_admit : bool; x_drained : nat -> bool; x_drain_after : bool }.
Record attempt : Type := {
  t_drained : bool;                 (** [*drain.borrow()] on entry *)
  t_gauge : Z;                      (** the gauge at the pre-check *)
  t_pooled : option link;           (** [pool.checkout(worker_idx)] *)
  t_fresh : option link;            (** [connect_worker(socket)], [None] when refused or too slow *)
  t_slot : Z;                       (** the gauge that decides [try_acquire] *)
  t_first : exchange_env;
  t_again : option link;            (** the reconnect of a stale retry *)
  t_second : exchange_env;
}.

Definition client : Type := (LongLivedCounters * session (H := H))%type.

Definition run_exchange (x : exchange_env) (l : link) (cs : client) : outcome * FrameReadBuffer * client :=
  match exchange caps max_buffered_bytes (x_drained x) (x_admit x) keepalive (fst cs) (snd cs) l with
  | Some (r, a) => (r, a_buf a, (a_ctrs a, a_sess a))
  | None => (Err (EStatus 502), l_buf l, cs)      (** does not happen: an exchange ends *)
  end.

(** [checkin]: a connection with buffered surplus is dropped instead. *)
Definition checkin (worker : nat) (b : FrameReadBuffer) : list hop_event :=
  if has_surplus b then [] else [CheckedIn worker].
Definition checkin_after (worker : nat) (x : exchange_env) (reusable : bool) (b : FrameReadBuffer) : list hop_event :=
  if reusable && negb (x_drain_after x) then checkin worker b else [].

(** The second match arm: may a stale exchange be repeated on a fresh connection? *)
Definition may_retry (reused : bool) (e : ExchangeError) : bool :=
  match e with
  | StaleBeforeDispatch delivered => reused && (negb delivered || negb (is_async kind))
  | EStatus _ => false
  end.

Definition retry_exchange (worker : nat) (t : attempt) (cs : client)
    : result FrameSendError Z * list hop_event * client :=
  match t_again t with
  | None => (Err Connect, [StaleEvicted worker; ConnectFailed worker], cs)
  | Some l =>
      let '(r, b, cs') := run_exchange (t_second t) l cs in
      let evs := [StaleEvicted worker; FreshConnect worker; Exchanged worker false r] in
      match r with
      | Ok (status, reusable) => (Ok status, evs ++ checkin_after worker (t_second t) reusable b, cs')
      | Err e => (Err (AfterWrite (exchange_status e)), evs, cs')
      end
  end.

Definition committed (worker : nat) (t : attempt) (l : link) (reused : bool) (cs : client)
    : result FrameSendError Z * list hop_event * client :=
  let '(r, b, cs') := run_exchange (t_first t) l cs in
  let ev := Exchanged worker reused r in
  match r with
  | Ok (status, reusable) => (Ok status, ev :: checkin_after worker (t_first t) reusable b, cs')
  | Err e =>
      if may_retry reused e
      then let '(r2, evs, cs2) := retry_exchange worker t cs' in (r2, ev :: evs, cs2)
      else (Err (AfterWrite (exchange_status e)), [ev], cs')
  end.

Definition send_to_worker (worker : nat) (t : attempt) (cs : client)
    : result FrameSendError Z * list hop_event * client :=
  if t_drained t then (Err (AfterWrite 503), [], cs)
  else if match cap with Some kv => t_gauge t >=? kv | None => false end then (Err AtCapacity, [], cs)
  else
    let conn := match t_pooled t with
                | Some l => Some (l, true)
                | None => match t_fresh t with Some l => Some (l, false) | None => None end
                end in
    match conn with
    | None => (Err Connect, [ConnectFailed worker], cs)
    | Some (l, reused) =>
        let opened := if reused then [] else [FreshConnect worker] in
        if negb (try_acquire cap (t_slot t)) then (Err AtCapacity, opened ++ checkin worker (l_buf l), cs)
        else let '(r, evs, cs') := committed worker t l reused cs in
             (r, opened ++ Acquired worker :: evs ++ [Released worker], cs')
    end.

(** ** One pass over the candidates *)

Inductive pass_end : Type :=
| Served (status : Z)
| Rejected (status : Z)
| Exhausted (at_capacity_mask : Z).

Definition mask_bit (worker : nat) : Z := Z.shiftl 1 (Z.of_nat (clamp worker)).

(** The [for idx in order.iter()] loop; attempt [j] of the pass. *)
Fixpoint try_order (order : list nat) (env : nat -> attempt) (j : nat) (pinned : option (Z * nat)) (mask : Z)
    (pin_connect_failed : bool) (cs : client) : pass_end * list hop_event * client :=
  match order with
  | [] => (Exhausted mask, [], cs)
  | worker :: order' =>
      let '(r, evs, cs') := send_to_worker worker (env j) cs in
      match r with
      | Ok status =>
          let repin := match pinned with
                       | Some (key, p) => if negb (worker =? p)%nat && pin_connect_failed then [Repinned key p worker] else []
                       | None => []
                       end in
          (Served status, evs ++ repin, cs')
      | Err Connect =>
          let failed := pin_connect_failed || match pinned with Some (_, p) => (p =? worker)%nat | None => false end in
          let '(e, evs', cs'') := try_order order' env (S j) pinned mask failed cs' in (e, evs ++ evs', cs'')
      | Err AtCapacity =>
          let '(e, evs', cs'') := try_order order' env (S j) pinned (Z.lor mask (mask_bit worker)) pin_connect_failed cs' in
          (e, evs ++ evs', cs'')
      | Err (AfterWrite status) => (Rejected status, evs, cs')
      end
  end.

(** ** The selection loop *)

Record pass : Type := {
  p_start : nat;                    (** [next_worker.fetch_add(1)] *)
  p_depth : nat -> nat;             (** the gauges the selection reads *)
  p_reread : nat;                   (** [sticky_reread], after a wake *)
  p_attempts : nat -> attempt;
  p_park : result Z unit;           (** how [park_for_slot] ends *)
}.

Definition resolve_pin (woken : bool) (p : pass) (pinned : option (Z * nat)) : option (Z * nat) :=
  match pinned with
  | Some (key, prior) => Some (key, if woken then p_reread p else prior)
  | None => None
  end.
Definition pass_order (mode : DispatchMode) (n : nat) (p : pass) (pinned : option (Z * nat)) : list nat :=
  let start := (p_start p mod n)%nat in
  order_iter (match pinned with
              | Some (_, idx) => sticky_order idx start n
              | None => candidate_order_with (p_depth p) start n mode
              end).

(** The [loop]; [None] when the request is still parked after the given passes. *)
Fixpoint send_loop (mode : DispatchMode) (n : nat) (ps : list pass) (woken : bool) (pinned : option (Z * nat)) (cs : client)
    : option (result Z Z) * list hop_event * client :=
  match ps with
  | [] => (None, [], cs)
  | p :: ps' =>
      let pinned := resolve_pin woken p pinned in
      let '(e, evs, cs') := try_order (pass_order mode n p pinned) (p_attempts p) 0 pinned 0 false cs in
      match e with
      | Served status => (Some (Ok status), evs, cs')
      | Rejected status => (Some (Err status), evs, cs')
      | Exhausted mask =>
          if mask =? 0 then (Some (Err 503), evs, cs')
          else match p_park p with
               | Err e => (Some (Err e), evs, cs')
               | Ok _ => let '(r, evs', cs'') := send_loop mode n ps' true pinned cs' in (r, evs ++ evs', cs'')
               end
      end
  end.

(** [lookup] is the resolved pin of a keyed request under sticky mode; [barge] is how the
    park of a fresh arrival ends when the cap is on and someone is already parked. *)
Definition send_worker_frame_to_pool (mode : DispatchMode) (n : nat) (sticky_key : option Z) (lookup : Z -> nat)
    (barge : option (result Z unit)) (ps : list pass) (cs : client)
    : option (result Z Z) * list hop_event * client :=
  if (n =? 0)%nat then (Some (Err 503), [], cs)
  else
    let pinned := match mode, sticky_key with
                  | Sticky, Some key => Some (key, lookup key)
                  | _, _ => None
                  end in
    match cap, barge with
    | Some _, Some (Err e) => (Some (Err e), [], cs)
    | _, _ => send_loop mode n ps false pinned cs
    end.
End Send.

(** ** Parking *)

(** The all-worker mask [u32::MAX]. *)
Definition all_workers : Z := u32_max.

Definition any_admittable (mask k : Z) (gauges : list Z) : bool :=
  existsb (fun i => Z.testbit mask (Z.of_nat i) && (unwrap_or 0 (gauges !! i) <? k)) (seq 0 MAX_WORKERS).

(** What one turn of [park_for_slot] observes: the drain flag, the gauges and [PARKED] at
    the rescan, and what ends the wait ([Some b]: the drain watch changed and reads [b];
    [None]: a notification). *)
Record wake : Type := { w_drained : bool; w_gauges : list Z; w_parked : Z; w_event : option bool }.

(** The result ([None]: still waiting) and the number of notifications sent on. *)
Fixpoint park_for_slot (mask k : Z) (ws : list wake) : option (result Z unit) * nat :=
  match ws with
  | [] => (None, 0%nat)
  | w :: ws' =>
      if w_drained w then (Some (Err 503), 0%nat)
      else if any_admittable mask k (w_gauges w) then (Some (Ok tt), if w_parked w >? 1 then 1%nat else 0%nat)
      else match w_event w with
           | Some true => (Some (Err 503), 0%nat)
           | _ => park_for_slot mask k ws'
           end
  end.

(** ** What a trace shows *)

Definition exchanges (evs : list hop_event) : list (bool * outcome) :=
  omap (fun e => match e with Exchanged _ u o => Some (u, o) | _ => None end) evs.
Definition exchange_of (e : hop_event) : list (bool * outcome) := match e with Exchanged _ u o => [(u, o)] | _ => [] end.
Lemma exchanges_cons e evs : exchanges (e :: evs) = exchange_of e ++ exchanges evs.
Proof. destruct e; reflexivity. Qed.
Lemma exchanges_app a b : exchanges (a ++ b) = exchanges a ++ exchanges b.
Proof. induction a as [|e a IH]; [reflexivity|]. cbn [app]. rewrite !exchanges_cons, IH, app_assoc. reflexivity. Qed.
(** The request may be sent again after this exchange. *)
Definition replayable (kind : WorkerKind) (x : bool * outcome) : Prop :=
  match snd x with Err e => may_retry kind (fst x) e = true | Ok _ => False end.
(** The whole request was written. *)
Definition delivered (x : bool * outcome) : bool :=
  match snd x with Err (StaleBeforeDispatch d) => d | _ => true end.

(** The slot held while running through a trace: [None] if a slot is taken while another is
    held, released by someone else, or an exchange runs without its worker's slot. *)
Fixpoint guard_run (h : option nat) (evs : list hop_event) : option (option nat) :=
  match evs with
  | [] => Some h
  | e :: evs' =>
      match e with
      | Acquired i => match h with None => guard_run (Some i) evs' | Some _ => None end
      | Released i => if decide (h = Some i) then guard_run None evs' else None
      | Exchanged i _ _ | StaleEvicted i => if decide (h = Some i) then guard_run h evs' else None
      | _ => guard_run h evs'
      end
  end.
Lemma guard_run_app h a b : guard_run h (a ++ b) = match guard_run h a with Some h' => guard_run h' b | None => None end.
Proof.
  revert h. induction a as [|e a IH]; intros h; [reflexivity|]. cbn [app guard_run].
  destruct e; try apply IH; try (destruct (decide _); [apply IH | reflexivity]). destruct h; [reflexivity | apply IH].
Qed.

(** Every repin in [evs], seen after [ctx], follows a connection failure of the old pin. *)
Definition repins_licensed (ctx evs : list hop_event) : Prop :=
  forall pre key from to post, evs = pre ++ Repinned key from to :: post ->
    In (ConnectFailed from) (ctx ++ pre) /\ from <> to.
Lemma repins_none ctx evs :
  Forall (fun e => match e with Repinned _ _ _ => False | _ => True end) evs -> repins_licensed ctx evs.
Proof.
  intros F pre key from to post ->. apply Forall_app in F as [_ F]. apply List.Forall_cons_iff in F as [[] _].
Qed.
Lemma repins_app ctx a b : repins_licensed ctx a -> repins_licensed (ctx ++ a) b -> repins_licensed ctx (a ++ b).
Proof.
  intros Ha Hb pre key from to post E. apply app_eq_app in E as (l & [[-> E]|[-> E]]).
  - destruct l as [|x l].
    + rewrite app_nil_r in *. cbn in E. destruct (Hb [] key from to post (eq_sym E)) as [I N]. rewrite app_nil_r in I. auto.
    + cbn in E. injection E as <- ->. destruct (Ha pre key from to l eq_refl). auto.
  - destruct (Hb l key from to post E) as [I N]. rewrite <- app_assoc in I. auto.
Qed.

Section SendFacts.
Context {H : Type} `{HeaderLib H}.
Variable caps : FrameCaps.
Variable max_buffered_bytes : Z.
Variables (keepalive : bool) (cap : option Z) (kind : WorkerKind).
Local Abbreviation send_to_worker := (send_to_worker caps max_buffered_bytes keepalive cap kind).
Local Abbreviation committed := (committed caps max_buffered_bytes keepalive kind).
Local Abbreviation try_order := (try_order caps max_buffered_bytes keepalive cap kind).

Definition quiet_event (e : hop_event) : bool :=
  match e with Exchanged _ _ _ | Acquired _ | Released _ | Repinned _ _ _ | StaleEvicted _ => false | _ => true end.
Lemma quiet_events evs : forallb quiet_event evs = true ->
  exchanges evs = [] /\ (forall h, guard_run h evs = Some h) /\ (forall ctx, repins_licensed ctx evs).
Proof.
  intros Q. split; [|split].
  - induction evs as [|e evs IH]; [reflexivity|]. cbn in Q. apply andb_true_iff in Q as [Q0 Q]. rewrite exchanges_cons, IH by exact Q. destruct e; discriminate || reflexivity.
  - induction evs as [|e evs IH]; [reflexivity|]. cbn in Q. apply andb_true_iff in Q as [Q0 Q]. intros h. destruct e; try discriminate; apply IH, Q.
  - intros ctx. apply repins_none, List.Forall_forall. intros e He. rewrite forallb_forall in Q. specialize (Q e He). destruct e; discriminate || exact I.
Qed.
Lemma checkin_quiet w b : forallb quiet_event (checkin w b) = true.
Proof. unfold checkin. destruct (has_surplus b); reflexivity. Qed.
Lemma checkin_after_quiet w x u b : forallb quiet_event (checkin_after w x u b) = true.
Proof. unfold checkin_after. destruct (u && _); [apply checkin_quiet | reflexivity]. Qed.

Lemma run_exchange_stale x l cs r b cs' d :
  run_exchange caps max_buffered_bytes keepalive x l cs = (r, b, cs') -> r = Err (StaleBeforeDispatch d) -> cs' = cs.
Proof.
  unfold run_exchange. destruct (exchange_ends_stale caps max_buffered_bytes (x_drained x) (x_admit x) keepalive (fst cs) (snd cs) l)
    as (r0 & a & E & S). rewrite E. intros G ->. injection G as -> <- <-. destruct (S d eq_refl) as (-> & -> & _). destruct cs. reflexivity.
Qed.

(** What a call of [send_to_worker] leaves behind. *)
Record sent_well (r : result FrameSendError Z) (evs : list hop_event) (cs cs' : client (H := H)) : Prop := {
  sw_retries : match r with
               | Err Connect | Err AtCapacity => Forall (replayable kind) (exchanges evs) /\ cs' = cs
               | Err (AfterWrite _) => Forall (replayable kind) (removelast (exchanges evs))
               | Ok status => exists xs reused reusable, exchanges evs = xs ++ [(reused, Ok (status, reusable))] /\
                                Forall (replayable kind) xs
               end;
}.

Lemma retry_exchange_well w t cs r evs cs' :
  retry_exchange caps max_buffered_bytes keepalive w t cs = (r, evs, cs') ->
  sent_well r evs cs cs' /\ r <> Err AtCapacity /\ guard_run (Some w) evs = Some (Some w) /\
  Forall (fun e => match e with Repinned _ _ _ => False | _ => True end) evs /\ (r = Err Connect -> In (ConnectFailed w) evs).
Proof.
  unfold retry_exchange. destruct (t_again t) as [l|].
  - destruct (run_exchange _ _ _ _ _ _) as [[o b] cs1] eqn:X. destruct o as [[status reusable]|e]; intros E; injection E as <- <- <-.
    + pose proof (checkin_after_quiet w (t_second t) reusable b) as Q. destruct (quiet_events _ Q) as (Ex & Gr & _).
      split; [constructor; cbn [app]; rewrite !exchanges_cons, Ex; exists [], false, reusable; split; [reflexivity | constructor]|]. split; [discriminate|]. cbn.
      rewrite !decide_True by reflexivity. split; [apply Gr|]. split; [|discriminate]. do 3 (constructor; [exact I|]).
      apply List.Forall_forall. intros e He. rewrite forallb_forall in Q. specialize (Q e He). destruct e; discriminate || exact I.
    + split; [constructor; cbn; constructor|]. split; [discriminate|]. cbn. rewrite !decide_True by reflexivity.
      split; [reflexivity|]. split; [|discriminate]. repeat constructor.
  - intros E. injection E as <- <- <-. split; [constructor; cbn; split; [constructor | reflexivity]|]. split; [discriminate|]. cbn.
    rewrite decide_True by reflexivity. split; [reflexivity|]. split; [repeat constructor | right; left; reflexivity].
Qed.

Lemma committed_well w t l reused cs r evs cs' :
  committed w t l reused cs = (r, evs, cs') ->
  sent_well r evs cs cs' /\ r <> Err AtCapacity /\ guard_run (Some w) evs = Some (Some w) /\
  Forall (fun e => match e with Repinned _ _ _ => False | _ => True end) evs /\ (r = Err Connect -> In (ConnectFailed w) evs).
Proof.
  unfold FrameSend.committed. destruct (run_exchange _ _ _ _ _ _) as [[o b] cs1] eqn:X. destruct o as [[status reusable]|e].
  - intros E. injection E as <- <- <-. pose proof (checkin_after_quiet w (t_first t) reusable b) as Q.
    destruct (quiet_events _ Q) as (Ex & Gr & _).
    split; [constructor; rewrite exchanges_cons, Ex; exists [], reused, reusable; split; [reflexivity | constructor]|].
    split; [discriminate|]. cbn [guard_run]. rewrite decide_True by reflexivity. split; [apply Gr|]. split; [|discriminate].
    constructor; [exact I|]. apply List.Forall_forall. intros e He. rewrite forallb_forall in Q. specialize (Q e He). destruct e; discriminate || exact I.
  - destruct (may_retry kind reused e) eqn:M.
    + destruct (retry_exchange _ _ _ _ _ _) as [[r2 evs2] cs2] eqn:R. intros E. injection E as <- <- <-.
      apply retry_exchange_well in R as ([S] & NC & G & F & C).
      assert (cs1 = cs) as ->.
      { destruct e as [d|]; [|discriminate]. exact (run_exchange_stale _ _ _ _ _ _ d X eq_refl). }
      assert (replayable kind (reused, Err e)) as RP by exact M.
      split; [|split; [exact NC|]; cbn [guard_run]; rewrite decide_True by reflexivity; split; [exact G|]; split; [constructor; [exact I | exact F]|]; intros E; right; apply C, E].
      constructor. rewrite exchanges_cons. cbn [exchange_of app]. destruct r2 as [status|[|status|]].
      * destruct S as (xs & u & ru & -> & Fx). exists ((reused, Err e) :: xs), u, ru. split; [reflexivity | constructor; assumption].
      * destruct S as [Fx ->]. split; [constructor; assumption | reflexivity].
      * destruct (exchanges evs2) as [|x xs]; [constructor|]. change (removelast ((reused, Err e) :: x :: xs)) with ((reused, @Err _ (Z * bool) e) :: removelast (x :: xs)).
        constructor; assumption.
      * congruence.
    + intros E. injection E as <- <- <-. split; [constructor; cbn; constructor|]. split; [discriminate|]. cbn [guard_run].
      rewrite decide_True by reflexivity. split; [reflexivity|]. split; [repeat constructor | discriminate].
Qed.

Lemma send_to_worker_well w t cs r evs cs' :
  send_to_worker w t cs = (r, evs, cs') ->
  sent_well r evs cs cs' /\ guard_run None evs = Some None /\
  Forall (fun e => match e with Repinned _ _ _ => False | _ => True end) evs /\ (r = Err Connect -> In (ConnectFailed w) evs).
Proof.
  unfold FrameSend.send_to_worker.
  destruct (t_drained t); [intros E; injection E as <- <- <-; split; [constructor; constructor | repeat split; discriminate || constructor]|].
  destruct (match cap with Some _ => _ | None => _ end);
    [intros E; injection E as <- <- <-; split; [constructor; split; [constructor | reflexivity] | repeat split; discriminate || constructor]|].
  destruct (match t_pooled t with Some _ => _ | None => _ end) as [[l reused]|].
  2: { intros E. injection E as <- <- <-. split; [constructor; split; [constructor | reflexivity]|]. split; [reflexivity|].
       split; [repeat constructor | left; reflexivity]. }
  assert (forallb quiet_event (if reused then [] else [FreshConnect w]) = true) as Q0 by (destruct reused; reflexivity).
  destruct (quiet_events _ Q0) as (Ex0 & G0 & _).
  assert (Forall (fun e => match e with Repinned _ _ _ => False | _ => True end) (if reused then [] else [FreshConnect w])) as F0
    by (destruct reused; repeat constructor).
  destruct (negb (try_acquire cap (t_slot t))).
  - intros E. injection E as <- <- <-. pose proof (checkin_quiet w (l_buf l)) as Q. destruct (quiet_events _ Q) as (Ex & Gr & _).
    split; [constructor; rewrite exchanges_app, Ex0, Ex; split; [constructor | reflexivity]|].
    split; [rewrite guard_run_app, G0; apply Gr|]. split; [|discriminate]. apply Forall_app. split; [exact F0|].
    apply List.Forall_forall. intros e He. rewrite forallb_forall in Q. specialize (Q e He). destruct e; discriminate || exact I.
  - destruct (FrameSend.committed _ _ _ _ _ _ _ _ _) as [[r1 evs1] cs1] eqn:C. intros E. injection E as <- <- <-.
    apply committed_well in C as ([S] & NC & G & F & Cn).
    assert (exchanges ((if reused then [] else [FreshConnect w]) ++ Acquired w :: evs1 ++ [Released w]) = exchanges evs1) as Ex1.
    { rewrite exchanges_app, Ex0, exchanges_cons, exchanges_app. cbn. apply app_nil_r. }
    split; [constructor; rewrite Ex1; exact S|]. split.
    { rewrite guard_run_app, G0. cbn [guard_run]. rewrite guard_run_app, G. cbn [guard_run]. rewrite decide_True by reflexivity. reflexivity. }
    split; [apply Forall_app; split; [exact F0|]; constructor; [exact I|]; apply Forall_app; split; [exact F | repeat constructor]|].
    intros E. apply in_or_app. right. right. apply in_or_app. left. apply Cn, E.
Qed.

(** ** A pass, and the loop *)

Definition pass_retries (e : pass_end) (evs : list hop_event) (cs cs' : client (H := H)) : Prop :=
  match e with
  | Exhausted _ => Forall (replayable kind) (exchanges evs) /\ cs' = cs
  | Rejected _ => Forall (replayable kind) (removelast (exchanges evs))
  | Served status => exists xs reused reusable, exchanges evs = xs ++ [(reused, Ok (status, reusable))] /\ Forall (replayable kind) xs
  end.

Lemma removelast_app_Forall {A} (P : A -> Prop) a b : Forall P a -> Forall P (removelast b) -> Forall P (removelast (a ++ b)).
Proof.
  intros Ha Hb. destruct b as [|x b].
  - rewrite app_nil_r. apply List.Forall_forall. intros y Hy. rewrite List.Forall_forall in Ha. apply Ha.
    clear -Hy. induction a as [|z a IH]; [destruct Hy|]. destruct a as [|z' a]; [destruct Hy|].
    destruct Hy as [<-|Hy]; [left; reflexivity | right; apply IH, Hy].
  - rewrite removelast_app by discriminate. apply Forall_app. auto.
Qed.

(** A prefix of repeatable exchanges in front. *)
Lemma pass_retries_app e a b cs cs' :
  Forall (replayable kind) (exchanges a) -> pass_retries e b cs cs' -> pass_retries e (a ++ b) cs cs'.
Proof.
  intros Ha. unfold pass_retries. rewrite exchanges_app. destruct e.
  - intros (xs & u & ru & -> & F). exists (exchanges a ++ xs), u, ru. rewrite app_assoc. split; [reflexivity | apply Forall_app; auto].
  - apply removelast_app_Forall, Ha.
  - intros [F ->]. split; [apply Forall_app; auto | reflexivity].
Qed.

Lemma try_order_well order env j pinned mask failed cs e evs cs' ctx :
  try_order order env j pinned mask failed cs = (e, evs, cs') ->
  (failed = true -> forall key p, pinned = Some (key, p) -> In (ConnectFailed p) ctx) ->
  pass_retries e evs cs cs' /\ guard_run None evs = Some None /\ repins_licensed ctx evs.
Proof.
  revert j mask failed cs e evs cs' ctx. induction order as [|w order IH]; intros j mask failed cs e evs cs' ctx;
    cbn [FrameSend.try_order].
  - intros E _. injection E as <- <- <-. split; [split; [constructor | reflexivity]|]. split; [reflexivity | apply repins_none; constructor].
  - destruct (FrameSend.send_to_worker _ _ _ _ _ _ _ _) as [[r evs1] cs1] eqn:S. apply send_to_worker_well in S as ([R] & G & F & C).
    pose proof (repins_none ctx evs1 F) as L1. intros E Hf. destruct r as [status|[|status|]].
    + injection E as <- <- <-. destruct R as (xs & u & ru & Ex & Fx).
      match goal with |- context [evs1 ++ ?x] => set (rep := x) end.
      assert (exchanges rep = [] /\ guard_run None rep = Some None) as [Exr Gr]
        by (subst rep; destruct pinned as [[key p]|]; [destruct (_ && _)|]; split; reflexivity).
      split; [exists xs, u, ru; rewrite exchanges_app, Exr, app_nil_r; auto|].
      split; [rewrite guard_run_app, G; exact Gr|]. apply repins_app; [exact L1|]. subst rep.
      destruct pinned as [[key p]|]; [|apply repins_none; constructor].
      destruct (negb (w =? p)%nat && failed) eqn:B; [|apply repins_none; constructor].
      apply andb_true_iff in B as [B1 ->]. apply negb_true_iff, Nat.eqb_neq in B1.
      intros pre key' from to post Eq. destruct pre as [|? [|]]; [|discriminate|discriminate]. injection Eq as <- <- <- _.
      split; [|congruence]. rewrite app_nil_r. apply in_or_app. left. exact (Hf eq_refl key p eq_refl).
    + destruct R as [Fx ->]. destruct (FrameSend.try_order _ _ _ _ _ _ _ _ _ _ _ _) as [[e2 evs2] cs2] eqn:T.
      injection E as <- <- <-. destruct (IH _ _ _ _ _ _ _ (ctx ++ evs1) T) as (P2 & G2 & L2).
      { intros Hb key p Ep. apply in_or_app. subst pinned. apply orb_true_iff in Hb as [Hb|Hb]; [left; eapply Hf; eauto|].
        apply Nat.eqb_eq in Hb as ->. right. apply C. reflexivity. }
      split; [apply pass_retries_app; assumption|]. split; [rewrite guard_run_app, G; exact G2 | apply repins_app; assumption].
    + injection E as <- <- <-. auto.
    + destruct R as [Fx ->]. destruct (FrameSend.try_order _ _ _ _ _ _ _ _ _ _ _ _) as [[e2 evs2] cs2] eqn:T.
      injection E as <- <- <-. destruct (IH _ _ _ _ _ _ _ (ctx ++ evs1) T) as (P2 & G2 & L2).
      { intros Hb key p Ep. apply in_or_app. left. eapply Hf; eauto. }
      split; [apply pass_retries_app; assumption|]. split; [rewrite guard_run_app, G; exact G2 | apply repins_app; assumption].
Qed.

(** What the whole loop leaves behind: [None] is a request that is still parked. *)
Definition loop_retries (r : option (result Z Z)) (evs : list hop_event) (cs cs' : client (H := H)) : Prop :=
  Forall (replayable kind) (removelast (exchanges evs)) /\
  match r with
  | None => Forall (replayable kind) (exchanges evs) /\ cs' = cs
  | Some (Ok status) => exists xs reused reusable, exchanges evs = xs ++ [(reused, Ok (status, reusable))]
  | Some (Err _) => True
  end.
Lemma removelast_Forall {A} (P : A -> Prop) a : Forall P a -> Forall P (removelast a).
Proof. intros Ha. rewrite <- (app_nil_r a). apply removelast_app_Forall; [exact Ha | constructor]. Qed.

Lemma send_loop_well mode n ps woken pinned cs r evs cs' ctx :
  send_loop caps max_buffered_bytes keepalive cap kind mode n ps woken pinned cs = (r, evs, cs') ->
  loop_retries r evs cs cs' /\ guard_run None evs = Some None /\ repins_licensed ctx evs.
Proof.
  revert woken pinned cs r evs cs' ctx. induction ps as [|p ps IH]; intros woken pinned cs r evs cs' ctx; cbn [send_loop].
  - intros E. injection E as <- <- <-.
    split; [split; [constructor | split; [constructor | reflexivity]] | split; [reflexivity | apply repins_none; constructor]].
  - set (pin := resolve_pin woken p pinned). destruct (FrameSend.try_order _ _ _ _ _ _ _ _ _ _ _ _) as [[e evs1] cs1] eqn:T.
    destruct (try_order_well _ _ _ _ _ _ _ _ _ _ ctx T ltac:(discriminate)) as (R & G & L). intros E.
    destruct e as [status|status|mask].
    + injection E as <- <- <-. destruct R as (xs & u & ru & Ex & F). split; [|auto]. split; [|exists xs, u, ru; exact Ex].
      rewrite Ex, removelast_last. exact F.
    + injection E as <- <- <-. split; [split; [exact R | exact I] | auto].
    + destruct R as [F ->].
      assert (loop_retries (Some (Err 503)) evs1 cs cs) as Stop by (split; [apply removelast_Forall, F | exact I]).
      destruct (mask =? 0); [injection E as <- <- <-; auto|]. destruct (p_park p) as [u|er]; [|injection E as <- <- <-; auto].
      destruct (send_loop _ _ _ _ _ _ _ _ _ _ _) as [[r2 evs2] cs2] eqn:S. injection E as <- <- <-.
      destruct (IH _ _ _ _ _ _ (ctx ++ evs1) S) as ((F2 & R2) & G2 & L2).
      split; [|split; [rewrite guard_run_app, G; exact G2 | apply repins_app; assumption]].
      split; [rewrite exchanges_app; apply removelast_app_Forall; assumption|].
      destruct r2 as [[status|]|]; [| exact I |].
      * destruct R2 as (xs & u' & ru & E2). exists (exchanges evs1 ++ xs), u', ru. rewrite exchanges_app, E2, app_assoc. reflexivity.
      * destruct R2 as [F2' ->]. rewrite exchanges_app. split; [apply Forall_app; auto | reflexivity].
Qed.

Lemma send_well mode n key lookup barge ps cs r evs cs' :
  send_worker_frame_to_pool caps max_buffered_bytes keepalive cap kind mode n key lookup barge ps cs = (r, evs, cs') ->
  loop_retries r evs cs cs' /\ guard_run None evs = Some None /\ repins_licensed [] evs.
Proof.
  unfold send_worker_frame_to_pool.
  assert (forall s, loop_retries (Some (Err s)) [] cs cs /\ guard_run None [] = Some None /\ repins_licensed [] []) as Stop
    by (intros s; split; [split; [constructor | exact I] | split; [reflexivity | apply repins_none; constructor]]).
  destruct (n =? 0)%nat; [intros E; injection E as <- <- <-; apply Stop|].
  destruct cap as [kv|] eqn:Ec; [destruct barge as [[u|er]|]|]; try (rewrite <- Ec; apply send_loop_well).
  intros E. injection E as <- <- <-. apply Stop.
Qed.

(** An exchange that may be repeated on an async worker has not delivered its request. *)
Lemma replayable_async_undelivered xs :
  is_async kind = true -> Forall (replayable kind) xs -> List.filter delivered xs = [].
Proof.
  intros A. induction xs as [|[u o] xs IH]; [reflexivity|]. intros F. apply List.Forall_cons_iff in F as [R F].
  cbn [List.filter]. rewrite (IH F). destruct o as [?|[d|?]]; cbn in R |- *; [destruct R| |discriminate].
  rewrite A, orb_false_r in R. apply andb_true_iff in R as [_ R]. destruct d; [discriminate | reflexivity].
Qed.

(** C28. Retry discipline of the frame hop: for any workers, connections, caps and wake-ups,
    every exchange of a request but the last one ended on a reused connection before any
    response byte; under the async worker kind the complete request frame reaches a worker
    at most once over all failovers, stale retries and parked passes; a status is returned
    as success only if the last exchange produced it; and a request that is still parked
    has written nothing to its client. *)
Theorem retries_never_repeat_an_answered_request mode n key lookup barge ps cs :
  let '(r, tr, cs') := send_worker_frame_to_pool caps max_buffered_bytes keepalive cap kind mode n key lookup barge ps cs in
  Forall (fun x => exists d, x = (true, Err (StaleBeforeDispatch d)) /\ (d = true -> is_async kind = false))
    (removelast (exchanges tr)) /\
  (is_async kind = true -> (length (List.filter delivered (exchanges tr)) <= 1)%nat) /\
  match r with
  | None => cs' = cs
  | Some (Ok status) => exists xs reused reusable, exchanges tr = xs ++ [(reused, Ok (status, reusable))]
  | Some (Err _) => True
  end.
Proof.
  destruct (send_worker_frame_to_pool _ _ _ _ _ _ _ _ _ _ _ _) as [[r tr] cs'] eqn:E.
  apply send_well in E as ((F & R) & _). split; [|split].
  - eapply List.Forall_impl; [|exact F]. intros [u o] Hx. unfold replayable in Hx. cbn [fst snd] in Hx.
    destruct o as [?|[d|?]]; [destruct Hx | | discriminate]. cbn in Hx. apply andb_true_iff in Hx as [-> Hx].
    exists d. split; [reflexivity|]. intros ->. cbn in Hx. apply negb_true_iff, Hx.
  - intros A. pose proof (replayable_async_undelivered _ A F) as Z0. destruct (exchanges tr) as [|x xs] eqn:Ex; [cbn; lia|].
    rewrite (app_removelast_last x (l := x :: xs)) by discriminate. rewrite List.filter_app, Z0. cbn.
    destruct (delivered _); cbn; lia.
  - destruct r as [[?|?]|]; [exact R | exact I | exact (proj2 R)].
Qed.

(** Slots and pins: every exchange runs between the acquisition and the release of its
    own worker's admission slot, no second slot is taken meanwhile, and no slot is held when
    the request ends or parks; a sticky pin moves only to another worker, and only after a
    connection to the pinned one failed in this request - never because it was full. *)
Theorem slots_bracket_exchanges_and_repins_follow_failures mode n key lookup barge ps cs :
  let '(_, tr, _) := send_worker_frame_to_pool caps max_buffered_bytes keepalive cap kind mode n key lookup barge ps cs in
  guard_run None tr = Some None /\
  (forall pre k from to post, tr = pre ++ Repinned k from to :: post -> In (ConnectFailed from) pre /\ from <> to).
Proof.
  destruct (send_worker_frame_to_pool _ _ _ _ _ _ _ _ _ _ _ _) as [[r tr] cs'] eqn:E.
  apply send_well in E as (_ & G & L). split; [exact G | exact L].
Qed.
End SendFacts.

(** ** Parking *)

Lemma any_admittable_free mask k gauges i :
  (i < MAX_WORKERS)%nat -> Z.testbit mask (Z.of_nat i) = true -> unwrap_or 0 (gauges !! i) < k -> any_admittable mask k gauges = true.
Proof.
  intros Hi Hb Hg. apply existsb_exists. exists i. split; [apply in_seq; lia|]. rewrite Hb. apply Z.ltb_lt, Hg.
Qed.

Lemma testbit_all_workers i : (i < MAX_WORKERS)%nat -> Z.testbit all_workers (Z.of_nat i) = true.
Proof. intros Hi. change all_workers with (Z.ones 32). apply Z.ones_spec_low. unfold MAX_WORKERS in Hi. lia. Qed.

(** The anti-barging check does not wait: it parks a fresh arrival with the mask of all
    [MAX_WORKERS] gauges, so in a fleet of fewer workers the gauge of an index without a
    worker, which nothing ever raises, always reads as a free slot, and the arrival goes on
    at its first turn - even when every real worker is full and others are parked. *)
Theorem barging_guard_never_waits n k w ws :
  (n < MAX_WORKERS)%nat -> 1 <= k -> unwrap_or 0 (w_gauges w !! n) = 0 -> w_drained w = false ->
  park_for_slot all_workers k (w :: ws) = (Some (Ok tt), if w_parked w >? 1 then 1%nat else 0%nat).
Proof.
  intros Hn Hk Hg Hd. cbn [park_for_slot]. rewrite Hd, (any_admittable_free _ _ _ n Hn (testbit_all_workers n Hn)) by lia. reflexivity.
Qed.

(** Two workers, both at their cap of one, and another request parked. *)
Definition full_fleet_wake : wake := {| w_drained := false; w_gauges := 1 :: 1 :: replicate 14 0; w_parked := 2; w_event := None |}.
Lemma barging_guard_never_waits_witness :
  any_admittable 3 1 (w_gauges full_fleet_wake) = false /\
  park_for_slot all_workers 1 [full_fleet_wake] = (Some (Ok tt), 1%nat).
Proof.
  split; [reflexivity|]. apply (barging_guard_never_waits 2 1 full_fleet_wake []); [unfold MAX_WORKERS; lia | lia | reflexivity | reflexivity].
Defined.
