(* ===== verification/Parking.v ===== *)
(** * Parking: the wake-up protocol of requests that wait for a worker slot

    The interleaving model of [park_for_slot], [ParkGuard], [any_admittable] and the drop of
    [InFlightGuard] in [crates/oxo-pingora-edge/src/platform/frame_hop.rs].  Every atomic
    access of the code is a step of its own: registering in [PARKED], enabling the
    notification, reading the drain flag, each load of the capacity rescan, the load that
    decides whether to forward, the notification, the drops; and on the completing side the
    decrement, the load of [PARKED] and the notification.  The [Notify] of the async runtime
    is used through what it documents: [notify_one] marks one registered and not yet notified
    waiter, whichever, or leaves a permit that the next registration consumes; dropping a
    notified waiter passes the notification on. *)

From S2P Require Import Prelude Fairness Dispatch FrameSend.

Inductive park_phase : Type :=
| Entered                           (** [ParkGuard::enter] done, or a new turn of the loop *)
| Enabled                           (** [notified.enable()] done *)
| Scanning (next : nat)             (** [any_admittable], workers below [next] read and full *)
| Found                             (** a free slot was read *)
| Forwarding                        (** [PARKED > 1] was read *)
| Waiting                           (** in the [select!] *)
| Leaving                           (** returning, or cancelled at the [select!] *)
| Dropped                           (** the notification is dropped, the guard is not *)
| Gone.

Record parked_request : Type := { pk_mask : Z; pk_phase : park_phase; pk_noted : bool }.
Definition at_phase (a : parked_request) (p : park_phase) : parked_request :=
  {| pk_mask := pk_mask a; pk_phase := p; pk_noted := pk_noted a |}.
Definition noting (a : parked_request) (b : bool) : parked_request :=
  {| pk_mask := pk_mask a; pk_phase := pk_phase a; pk_noted := b |}.

(** Registered with the [Notify], and counted in [PARKED]. *)
Definition registered (a : parked_request) : bool :=
  match pk_phase a with Entered | Dropped | Gone => false | _ => true end.
Definition counted (a : parked_request) : bool := match pk_phase a with Gone => false | _ => true end.
Definition PARKED (ws : list parked_request) : nat := length (List.filter counted ws).

Record park_state : Type := {
  k_gauges : list Z;
  k_waiters : list parked_request;
  k_permit : bool;
  k_released : nat;                 (** completions that decremented and have not read [PARKED] *)
  k_waking : nat;                   (** completions that read [PARKED > 0], about to notify *)
  k_drained : bool;
}.
Definition with_waiters (s : park_state) (ws : list parked_request) (permit : bool) : park_state :=
  {| k_gauges := k_gauges s; k_waiters := ws; k_permit := permit; k_released := k_released s;
     k_waking := k_waking s; k_drained := k_drained s |}.
Definition with_completions (s : park_state) (g : list Z) (released waking : nat) : park_state :=
  {| k_gauges := g; k_waiters := k_waiters s; k_permit := k_permit s; k_released := released;
     k_waking := waking; k_drained := k_drained s |}.
Definition move (s : park_state) (i : nat) (a : parked_request) : park_state :=
  with_waiters s (<[i := a]> (k_waiters s)) (k_permit s).

(** [Notify::notify_one]. *)
Inductive notify_one (ws : list parked_request) (permit : bool) : list parked_request -> bool -> Prop :=
| notify_marks i a :
    ws !! i = Some a -> registered a = true -> pk_noted a = false ->
    notify_one ws permit (<[i := noting a true]> ws) permit
| notify_permit :
    Forall (fun a => registered a && negb (pk_noted a) = false) ws -> notify_one ws permit ws true.

(** [gauges().in_flight[i]] and one load of the rescan. *)
Definition gauge (s : park_state) (i : nat) : Z := unwrap_or 0 (k_gauges s !! i).
Definition reads_slot (mask k : Z) (s : park_state) (i : nat) : bool :=
  Z.testbit mask (Z.of_nat i) && (gauge s i <? k).

Section Protocol.
Variable k : Z.
(** The masks requests park with. *)
Variable masks : Z -> Prop.

Inductive park_step (s : park_state) : park_state -> Prop :=
| park_enter m :
    masks m ->
    park_step s (with_waiters s (k_waiters s ++ [{| pk_mask := m; pk_phase := Entered; pk_noted := false |}]) (k_permit s))
| park_enable i a :
    k_waiters s !! i = Some a -> pk_phase a = Entered ->
    park_step s (with_waiters s (<[i := noting (at_phase a Enabled) (k_permit s)]> (k_waiters s)) false)
| park_drained i a :
    k_waiters s !! i = Some a -> pk_phase a = Enabled -> k_drained s = true ->
    park_step s (move s i (at_phase a Leaving))
| park_scan i a :
    k_waiters s !! i = Some a -> pk_phase a = Enabled -> k_drained s = false ->
    park_step s (move s i (at_phase a (Scanning 0)))
| park_scan_full i a j :
    k_waiters s !! i = Some a -> pk_phase a = Scanning j -> (j < MAX_WORKERS)%nat ->
    reads_slot (pk_mask a) k s j = false ->
    park_step s (move s i (at_phase a (Scanning (S j))))
| park_scan_found i a j :
    k_waiters s !! i = Some a -> pk_phase a = Scanning j -> (j < MAX_WORKERS)%nat ->
    reads_slot (pk_mask a) k s j = true ->
    park_step s (move s i (at_phase a Found))
| park_wait i a :
    k_waiters s !! i = Some a -> pk_phase a = Scanning MAX_WORKERS ->
    park_step s (move s i (at_phase a Waiting))
| park_forward i a :
    k_waiters s !! i = Some a -> pk_phase a = Found -> (PARKED (k_waiters s) > 1)%nat ->
    park_step s (move s i (at_phase a Forwarding))
| park_alone i a :
    k_waiters s !! i = Some a -> pk_phase a = Found -> (PARKED (k_waiters s) <= 1)%nat ->
    park_step s (move s i (at_phase a Leaving))
| park_forwards i a ws' permit' :
    k_waiters s !! i = Some a -> pk_phase a = Forwarding ->
    notify_one (<[i := at_phase a Leaving]> (k_waiters s)) (k_permit s) ws' permit' ->
    park_step s (with_waiters s ws' permit')
| park_woken i a :
    k_waiters s !! i = Some a -> pk_phase a = Waiting -> pk_noted a = true ->
    park_step s (move s i (noting (at_phase a Entered) false))
| park_drain_wakes i a :
    k_waiters s !! i = Some a -> pk_phase a = Waiting -> k_drained s = true ->
    park_step s (move s i (at_phase a Leaving))
| park_cancelled i a :
    k_waiters s !! i = Some a -> pk_phase a = Waiting ->
    park_step s (move s i (at_phase a Leaving))
| park_drops i a :
    k_waiters s !! i = Some a -> pk_phase a = Leaving -> pk_noted a = false ->
    park_step s (move s i (at_phase a Dropped))
| park_passes_on i a ws' permit' :
    k_waiters s !! i = Some a -> pk_phase a = Leaving -> pk_noted a = true ->
    notify_one (<[i := noting (at_phase a Dropped) false]> (k_waiters s)) (k_permit s) ws' permit' ->
    park_step s (with_waiters s ws' permit')
| park_exit i a :
    k_waiters s !! i = Some a -> pk_phase a = Dropped ->
    park_step s (move s i (at_phase a Gone))
| slot_acquired w g :
    k_gauges s !! w = Some g -> g < k ->
    park_step s (with_completions s (<[w := g + 1]> (k_gauges s)) (k_released s) (k_waking s))
| slot_released w g :
    k_gauges s !! w = Some g -> 0 < g ->
    park_step s (with_completions s (<[w := g - 1]> (k_gauges s)) (S (k_released s)) (k_waking s))
| release_sees_parked r :
    k_released s = S r -> (PARKED (k_waiters s) > 0)%nat ->
    park_step s (with_completions s (k_gauges s) r (S (k_waking s)))
| release_sees_none r :
    k_released s = S r -> PARKED (k_waiters s) = 0%nat ->
    park_step s (with_completions s (k_gauges s) r (k_waking s))
| release_notifies r ws' permit' :
    k_waking s = S r -> notify_one (k_waiters s) (k_permit s) ws' permit' ->
    park_step s (with_waiters (with_completions s (k_gauges s) (k_released s) r) ws' permit')
| drain_begins :
    park_step s {| k_gauges := k_gauges s; k_waiters := k_waiters s; k_permit := k_permit s;
                   k_released := k_released s; k_waking := k_waking s; k_drained := true |}.

Definition park_init : park_state :=
  {| k_gauges := replicate MAX_WORKERS 0; k_waiters := []; k_permit := false; k_released := 0; k_waking := 0; k_drained := false |}.
Definition park_reachable (s : park_state) : Prop := rtc park_step park_init s.
End Protocol.

(** ** The invariant *)

(** A waiter that will not look at worker [w] again unless it is notified, and one that
    will, or that will notify someone. *)
Definition needs_wake (w : nat) (a : parked_request) : bool :=
  negb (pk_noted a) && match pk_phase a with Waiting => true | Scanning j => (w <? j)%nat | _ => false end.
Definition will_look (w : nat) (a : parked_request) : bool :=
  pk_noted a ||
  match pk_phase a with Entered | Enabled | Found | Forwarding => true | Scanning j => (j <=? w)%nat | _ => false end.

Definition covered (w completions : nat) (ws : list parked_request) : Prop :=
  (exists i a, ws !! i = Some a /\ needs_wake w a = true) ->
  (completions > 0)%nat \/ exists i a, ws !! i = Some a /\ will_look w a = true.
Definition all_masked (m : Z) (ws : list parked_request) : Prop := forall i a, ws !! i = Some a -> pk_mask a = m.
Definition park_inv (m k : Z) (s : park_state) : Prop :=
  all_masked m (k_waiters s) /\
  (k_drained s = false -> forall w, (w < MAX_WORKERS)%nat -> reads_slot m k s w = true ->
     covered w (k_released s + k_waking s) (k_waiters s)).

Lemma all_masked_insert m ws i a a' :
  ws !! i = Some a -> pk_mask a' = pk_mask a -> all_masked m ws -> all_masked m (<[i := a']> ws).
Proof.
  intros Hi E M j b Hj. apply list_lookup_insert_Some in Hj as [(<- & <- & _)|[_ Hj]]; [rewrite E|]; eauto.
Qed.

Lemma covered_insert w c ws i a a' :
  ws !! i = Some a -> (needs_wake w a' = true -> needs_wake w a = true) -> (will_look w a = true -> will_look w a' = true) ->
  covered w c ws -> covered w c (<[i := a']> ws).
Proof.
  intros Hi Hn Hl C (j & b & Hj & B).
  assert (exists j b, ws !! j = Some b /\ needs_wake w b = true) as N.
  { apply list_lookup_insert_Some in Hj as [(<- & <- & _)|[_ Hj]]; eauto. }
  destruct (C N) as [?|(x & d & Hx & D)]; [auto | right].
  destruct (decide (i = x)) as [<-|Ne]; [exists i, a' | exists x, d].
  - rewrite list_lookup_insert_eq by eauto using lookup_lt_Some. split; [reflexivity|]. apply Hl. congruence.
  - rewrite list_lookup_insert_ne by exact Ne. auto.
Qed.

(** Whoever is notified will look. *)
Lemma notify_covers w c ws p ws' p' : notify_one ws p ws' p' -> covered w c ws'.
Proof.
  intros [i a Hi R N|F].
  - intros _. right. exists i, (noting a true). rewrite list_lookup_insert_eq by eauto using lookup_lt_Some. auto.
  - intros (j & b & Hj & B). exfalso. eapply Forall_lookup_1 in F; [|exact Hj]. cbn in F. unfold needs_wake in B. unfold registered in F.
    destruct (pk_noted b), (pk_phase b); discriminate.
Qed.
Lemma notify_masked m ws p ws' p' : notify_one ws p ws' p' -> all_masked m ws -> all_masked m ws'.
Proof. intros [i a Hi R N|F] M; [|exact M]. eapply all_masked_insert; eauto. Qed.

Lemma parked_one ws i a : ws !! i = Some a -> counted a = true -> (PARKED ws > 0)%nat.
Proof.
  unfold PARKED. revert i. induction ws as [|d ws' IH]; intros [|x]; try discriminate; simpl.
  - intros [= ->] ->. simpl. lia.
  - intros Hx He. specialize (IH x Hx He). destruct (counted d); simpl; lia.
Qed.
Lemma needs_wake_counted w a : needs_wake w a = true -> counted a = true.
Proof. unfold needs_wake, counted. destruct (pk_noted a), (pk_phase a); discriminate || reflexivity. Qed.
Lemma parked_two ws i j a b :
  ws !! i = Some a -> ws !! j = Some b -> i <> j -> counted a = true -> counted b = true -> (PARKED ws > 1)%nat.
Proof.
  revert i j. unfold PARKED. induction ws as [|d ws' IH]; intros [|i] [|j]; try discriminate; try lia; simpl; intros Hi Hj Ne Ha Hb.
  - injection Hi as ->. rewrite Ha. pose proof (parked_one ws' j b Hj Hb) as O. unfold PARKED in O. cbn. lia.
  - injection Hj as ->. rewrite Hb. pose proof (parked_one ws' i a Hi Ha) as O. unfold PARKED in O. cbn. lia.
  - specialize (IH i j Hi Hj ltac:(lia) Ha Hb). destruct (counted d); cbn; lia.
Qed.

Lemma gauge_insert s g w x r kw :
  gauge (with_completions s (<[w := g]> (k_gauges s)) r kw) x
  = if decide (w = x /\ (w < length (k_gauges s))%nat) then g else gauge s x.
Proof.
  unfold gauge. cbn [k_gauges with_completions]. rewrite list_lookup_insert. destruct (decide _); reflexivity.
Qed.

(** Every step keeps the invariant when all requests park with the same mask. *)
Lemma park_step_inv m k s s' : park_step k (eq m) s s' -> park_inv m k s -> park_inv m k s'.
Proof.
  intros St [M C].
  assert (forall i a a', k_waiters s !! i = Some a -> pk_mask a' = pk_mask a ->
            (k_drained s = false -> forall w, (w < MAX_WORKERS)%nat -> reads_slot m k s w = true ->
               (needs_wake w a' = true -> needs_wake w a = true) /\ (will_look w a = true -> will_look w a' = true)) ->
            park_inv m k (move s i a')) as Mv.
  { intros i a a' Hi E W. split; [eapply all_masked_insert; eauto|]. intros D w Hw R. destruct (W D w Hw R).
    eapply covered_insert; eauto. }
  assert (forall i a p, k_waiters s !! i = Some a ->
            (k_drained s = false -> forall w, (w < MAX_WORKERS)%nat -> reads_slot m k s w = true ->
               (needs_wake w (at_phase a p) = true -> needs_wake w a = true) /\ (will_look w a = true -> will_look w (at_phase a p) = true)) ->
            park_inv m k (move s i (at_phase a p))) as MvP by (intros; eapply Mv; eauto).
  destruct St.
  all: try (eapply MvP; [eassumption|]; intros D w Hw R; unfold needs_wake, will_look; cbn [pk_phase pk_noted at_phase];
            match goal with E : pk_phase _ = _ |- _ => rewrite E end; destruct (pk_noted a); cbn; auto; fail).
  - (* park_enter *)
    split.
    + intros j b Hj. apply lookup_app_Some in Hj as [Hj|[_ Hj]]; [eauto|]. apply list_lookup_singleton_Some in Hj as [_ <-]. auto.
    + intros D w Hw R _. right. exists (length (k_waiters s)), {| pk_mask := m0; pk_phase := Entered; pk_noted := false |}.
      cbn [k_waiters with_waiters]. rewrite lookup_app_r, Nat.sub_diag by lia. auto.
  - (* park_enable *)
    split; [eapply all_masked_insert; eauto|]. intros D w Hw R _. right. exists i, (noting (at_phase a Enabled) (k_permit s)).
    cbn [k_waiters with_waiters]. rewrite list_lookup_insert_eq by eauto using lookup_lt_Some. split; [reflexivity|]. apply orb_true_r.
  - (* park_drained *)
    eapply MvP; [eassumption|]. congruence.
  - (* park_scan_full *)
    eapply MvP; [eassumption|]. intros D w Hw R. rewrite <- (M i a) in R by assumption.
    assert (j <> w) by congruence. unfold needs_wake, will_look. cbn [pk_phase pk_noted at_phase].
    match goal with E : pk_phase _ = _ |- _ => rewrite E end. destruct (pk_noted a); cbn [negb andb orb]; [auto|].
    split; rewrite ?Nat.ltb_lt, ?Nat.leb_le; lia.
  - (* park_scan_found *)
    eapply MvP; [eassumption|]. intros D w Hw R. unfold needs_wake, will_look. cbn [pk_phase pk_noted at_phase].
    rewrite andb_false_r, orb_true_r. split; [discriminate | auto].
  - (* park_wait *)
    eapply MvP; [eassumption|]. intros D w Hw R. unfold needs_wake, will_look. cbn [pk_phase pk_noted at_phase].
    match goal with E : pk_phase _ = _ |- _ => rewrite E end. destruct (pk_noted a); cbn [negb andb orb]; [auto|].
    split; rewrite ?Nat.ltb_lt, ?Nat.leb_le; lia.
  - (* park_alone *)
    split; [eapply all_masked_insert; eauto|]. intros D w Hw R (j & b & Hj & B). exfalso. cbn [k_waiters with_waiters move] in Hj.
    apply list_lookup_insert_Some in Hj as [(<- & <- & _)|[Ne Hj]].
    + unfold needs_wake in B. cbn in B. rewrite andb_false_r in B. discriminate.
    + assert (counted a = true) as Ca by (unfold counted; match goal with E : pk_phase _ = _ |- _ => rewrite E end; reflexivity).
      pose proof (parked_two (k_waiters s) i j a b ltac:(assumption) Hj Ne Ca (needs_wake_counted w b B)). lia.
  - (* park_forwards *)
    split; [eapply notify_masked; [eassumption|]; eapply all_masked_insert; eauto|]. intros D w Hw R. eapply notify_covers; eassumption.
  - (* park_woken *)
    eapply Mv; [eassumption | reflexivity|]. intros D w Hw R. unfold needs_wake, will_look. cbn. split; [discriminate | reflexivity].
  - (* park_passes_on *)
    split; [eapply notify_masked; [eassumption|]; eapply all_masked_insert; eauto|]. intros D w Hw R. eapply notify_covers; eassumption.
  - (* slot_acquired *)
    split; [exact M|]. intros D x Hx R. apply (C D x Hx). unfold reads_slot in *. rewrite gauge_insert in R.
    destruct (decide _) as [[-> L]|]; [|exact R]. apply andb_true_iff in R as [-> R]. apply Z.ltb_lt in R. cbn.
    unfold gauge. match goal with E : _ !! x = Some _ |- _ => rewrite E end. cbn. apply Z.ltb_lt. lia.
  - (* slot_released *)
    split; [exact M|]. intros D x Hx R _. left. cbn. lia.
  - (* release_sees_parked *)
    split; [exact M|]. intros D x Hx R _. left. cbn. lia.
  - (* release_sees_none *)
    split; [exact M|]. intros D x Hx R (j & b & Hj & B). exfalso. cbn [k_waiters with_completions] in Hj.
    pose proof (parked_one _ j b Hj (needs_wake_counted x b B)). lia.
  - (* release_notifies *)
    split; [eapply notify_masked; eassumption|]. intros D w Hw R. eapply notify_covers; eassumption.
  - (* drain_begins *)
    split; [exact M|]. discriminate.
Qed.

Lemma park_inv_reachable m k s : park_reachable k (eq m) s -> park_inv m k s.
Proof.
  intros R. assert (park_inv m k park_init) as I0.
  { split; [intros i a Hi; discriminate Hi|]. intros _ w _ _ (i & a & Hi & _). discriminate Hi. }
  revert I0. unfold park_reachable in R. induction R as [|x y z St _ IH]; [auto|]. intros I0. eapply IH, park_step_inv; eauto.
Qed.

(** Nothing is on its way to a waiter: no completion is under way, nobody is notified, and
    everybody parked sits in the [select!]. *)
Definition asleep (s : park_state) : Prop :=
  (k_released s + k_waking s = 0)%nat /\
  Forall (fun a => (pk_phase a = Gone \/ pk_phase a = Waiting) /\ pk_noted a = false) (k_waiters s).

Lemma any_admittable_slot mask k s :
  any_admittable mask k (k_gauges s) = true -> exists w, (w < MAX_WORKERS)%nat /\ reads_slot mask k s w = true.
Proof. intros A. apply existsb_exists in A as (w & I & E). apply in_seq in I. exists w. split; [lia | exact E]. Qed.

(** C29. No lost wake-up: whatever the interleaving of arrivals, rescans, cancellations,
    admissions and completions, as long as all requests park on the same set of workers and
    the edge is not draining, the system never comes to rest with a request parked while one
    of those workers has a free slot. *)
Theorem parked_requests_are_not_stranded m k s i a :
  park_reachable k (eq m) s -> k_drained s = false -> asleep s ->
  k_waiters s !! i = Some a -> pk_phase a = Waiting -> any_admittable m k (k_gauges s) = false.
Proof.
  intros R D [Z0 F] Hi Ph. apply not_true_is_false. intros A. apply any_admittable_slot in A as (w & Hw & Rs).
  apply park_inv_reachable in R as [_ C].
  assert (needs_wake w a = true) as N.
  { unfold needs_wake. rewrite Ph. rewrite (proj2 (Forall_lookup_1 _ _ _ _ F Hi)). reflexivity. }
  destruct (C D w Hw Rs (ex_intro _ i (ex_intro _ a (conj Hi N)))) as [?|(j & b & Hj & L)]; [lia|].
  destruct (Forall_lookup_1 _ _ _ _ F Hj) as [[Fb|Fb] Nb]; unfold will_look in L; rewrite Fb, Nb in L; discriminate.
Qed.

(** ** Runs of the protocol *)

Lemma move_move s i a b : move (move s i a) i b = move s i b.
Proof. unfold move, with_waiters. cbn. rewrite list_insert_insert_eq. reflexivity. Qed.
Lemma move_lookup s i a b : k_waiters s !! i = Some a -> k_waiters (move s i b) !! i = Some b.
Proof. intros Hi. apply list_lookup_insert_eq. eauto using lookup_lt_Some. Qed.

Lemma scan_ends_waiting k ok s i a j :
  (j <= MAX_WORKERS)%nat -> k_waiters s !! i = Some a -> pk_phase a = Scanning j ->
  (forall x, (j <= x < MAX_WORKERS)%nat -> reads_slot (pk_mask a) k s x = false) ->
  rtc (park_step k ok) s (move s i (at_phase a Waiting)).
Proof.
  remember (MAX_WORKERS - j)%nat as d eqn:Ed. revert s a j Ed. induction d as [|d IH]; intros s a j Ed Hj Hi Ph F.
  - apply rtc_once, park_wait; [exact Hi|]. replace j with MAX_WORKERS in Ph by lia. exact Ph.
  - eapply rtc_l; [eapply (park_scan_full k ok s i a j Hi Ph); [lia | apply F; lia]|].
    specialize (IH (move s i (at_phase a (Scanning (S j)))) (at_phase a (Scanning (S j))) (S j)).
    rewrite move_move in IH. apply IH; [lia | lia | eapply move_lookup, Hi | reflexivity|]. intros x Hx. apply (F x). lia.
Qed.

(** A request that finds its workers full goes to sleep. *)
Lemma full_parks k ok s i a :
  k_waiters s !! i = Some a -> pk_phase a = Entered -> pk_noted a = false -> k_permit s = false -> k_drained s = false ->
  any_admittable (pk_mask a) k (k_gauges s) = false -> rtc (park_step k ok) s (move s i (at_phase a Waiting)).
Proof.
  intros Hi Ph No Pe Dr Fu.
  assert (with_waiters s (<[i := noting (at_phase a Enabled) (k_permit s)]> (k_waiters s)) false = move s i (at_phase a Enabled)) as E1.
  { unfold move. rewrite Pe. f_equal. f_equal. destruct a. cbn in *. subst. reflexivity. }
  eapply rtc_l; [apply (park_enable k ok s i a Hi Ph)|]. rewrite E1.
  eapply rtc_l; [apply (park_scan k ok _ i (at_phase a Enabled)); [eapply move_lookup, Hi | reflexivity | exact Dr]|]. rewrite move_move.
  pose proof (scan_ends_waiting k ok (move s i (at_phase a (Scanning 0))) i (at_phase a (Scanning 0)) 0) as W. rewrite move_move in W.
  apply W; [lia | eapply move_lookup, Hi | reflexivity|]. intros x Hx. apply not_true_is_false. intros R.
  assert (any_admittable (pk_mask a) k (k_gauges s) = true); [|congruence]. apply existsb_exists. exists x. split; [apply in_seq; lia | exact R].
Qed.

Definition parked_on (m : Z) (p : park_phase) (noted : bool) : parked_request := {| pk_mask := m; pk_phase := p; pk_noted := noted |}.
Definition park_state_of (gauges : list Z) (ws : list parked_request) (released waking : nat) : park_state :=
  {| k_gauges := gauges; k_waiters := ws; k_permit := false; k_released := released; k_waking := waking; k_drained := false |}.
Definition gauges_of (a b : Z) : list Z := a :: b :: replicate 14 0.

(** Worker 0 is taken, and one request is parked on it. *)
Lemma one_parked_reachable : park_reachable 1 (eq 1) (park_state_of (gauges_of 1 0) [parked_on 1 Waiting false] 0 0).
Proof.
  eapply rtc_l; [apply (slot_acquired 1 _ park_init 0 0); reflexivity|].
  eapply rtc_l; [apply (park_enter 1 _ _ 1 eq_refl)|].
  apply (full_parks 1 (eq 1) (park_state_of (gauges_of 1 0) [parked_on 1 Entered false] 0 0) 0 (parked_on 1 Entered false)); reflexivity.
Qed.

Lemma parked_requests_are_not_stranded_witness :
  any_admittable 1 1 (gauges_of 1 0) = false.
Proof.
  apply (parked_requests_are_not_stranded 1 1 (park_state_of (gauges_of 1 0) [parked_on 1 Waiting false] 0 0) 0 (parked_on 1 Waiting false)).
  - exact one_parked_reachable.
  - reflexivity.
  - split; [reflexivity|]. constructor; [|constructor]. split; [right|]; reflexivity.
  - reflexivity.
  - reflexivity.
Defined.

(** With different masks a wake-up is lost: a request parked on worker 0 alone (worker 1
    refused its connection in that pass) and one parked on workers 0 and 1; worker 1
    completes its request and notifies the first one, which rescans only worker 0, goes back
    to sleep and tells nobody; the second one sleeps on although worker 1 has a free slot. *)
Theorem different_masks_strand_a_request :
  exists s a, park_reachable 1 (fun m => m = 1 \/ m = 3) s /\ k_drained s = false /\ asleep s /\
    k_waiters s !! 1%nat = Some a /\ pk_phase a = Waiting /\ any_admittable (pk_mask a) 1 (k_gauges s) = true.
Proof.
  exists (park_state_of (gauges_of 1 0) [parked_on 1 Waiting false; parked_on 3 Waiting false] 0 0), (parked_on 3 Waiting false).
  split; [|split; [reflexivity|]; split; [|repeat split]].
  2: { split; [reflexivity|]. constructor; [split; [right|]; reflexivity|]. constructor; [split; [right|]; reflexivity | constructor]. }
  eapply rtc_l; [apply (slot_acquired 1 _ park_init 0 0); reflexivity|].
  eapply rtc_l; [apply (slot_acquired 1 _ _ 1 0); reflexivity|].
  eapply rtc_l; [apply (park_enter 1 _ _ 1 (or_introl eq_refl))|].
  etransitivity; [apply (full_parks 1 _ (park_state_of (gauges_of 1 1) [parked_on 1 Entered false] 0 0) 0 (parked_on 1 Entered false)); reflexivity|].
  eapply rtc_l; [apply (park_enter 1 _ _ 3 (or_intror eq_refl))|].
  etransitivity; [apply (full_parks 1 _ (park_state_of (gauges_of 1 1) [parked_on 1 Waiting false; parked_on 3 Entered false] 0 0)
                                   1 (parked_on 3 Entered false)); reflexivity|].
  eapply rtc_l; [apply (slot_released 1 _ _ 1 1); reflexivity|].
  eapply rtc_l; [apply (release_sees_parked 1 _ _ 0); [reflexivity | cbn; lia]|].
  eapply rtc_l; [apply (release_notifies 1 _ _ 0); [reflexivity | apply (notify_marks _ _ 0 (parked_on 1 Waiting false)); reflexivity]|].
  eapply rtc_l; [apply (park_woken 1 _ _ 0 (parked_on 1 Waiting true)); reflexivity|].
  apply (full_parks 1 _ (park_state_of (gauges_of 1 0) [parked_on 1 Entered false; parked_on 3 Waiting false] 0 0) 0 (parked_on 1 Entered false)); reflexivity.
Qed.
