(* ===== verification/PoolHandover.v ===== *)
(** * PoolHandover: a pooled connection between its watcher and its next request

    Model of [WorkerFramePool::checkin] and [checkout] and of [watch_idle_connection] of
    [crates/oxo-pingora-edge/src/platform/frame_hop.rs], on the pool of [FramePool].  An idle
    connection is shared by the pool and by a watcher that holds its lock; a checkout takes
    it from the pool, waits for the watcher to let the lock go, and then needs to be the
    last holder of the reference before it may use the connection.

    Threads interleave at the calls into the pool (one critical section each) and at the
    steps of the watcher: it wakes, takes the connection out of the pool, releases the lock
    and only then drops its reference.  The socket is read through the reactor: bytes that
    have arrived are seen by a read only once the reactor has noticed them, which is an event
    of its own.  A run is a list of such events. *)

From S2P Require Import Prelude Text FramePool.

Definition UNWRAP_YIELD_ATTEMPTS : nat := 64.
(** Milliseconds *)
Definition UNWRAP_WAIT_BUDGET_DEFAULT : Z := 20.
Definition UNWRAP_SLEEP_STEP : Z := 1.
Definition POOL_IDLE_TIMEOUT : Z := 15000.

(** What is on the socket of an idle connection: bytes the worker sent unasked, whether it
    closed, how many bytes a watcher's probe has taken off it, and whether the reactor has
    read readiness cached for it. *)
Record wire : Type := { unasked : Z; closed : bool; taken : Z; noticed : bool }.
Definition quiet : wire := {| unasked := 0; closed := false; taken := 0; noticed := false |}.
Definition set_noticed (b : bool) (s : wire) : wire := {| unasked := unasked s; closed := closed s; taken := taken s; noticed := b |}.
(** What [try_read] of one byte answers: without cached readiness it would block, and the
    socket is not asked. *)
Inductive read_result : Type := WouldBlock | Eof | OneByte.
Definition read_socket (s : wire) : read_result := if unasked s =? 0 then (if closed s then Eof else WouldBlock) else OneByte.
Definition try_read (s : wire) : read_result := if noticed s then read_socket s else WouldBlock.
Definition is_stream_live (s : wire) : bool := match try_read s with WouldBlock => true | _ => false end.

(** The pickup channel: not used, used by [get], or its sender dropped. *)
Inductive sender : Type := Unsent | Sent | SenderGone.
(** The watcher: waiting; awake and about to leave the pool; about to release the lock; about
    to drop its reference; gone. *)
Inductive watch : Type := Watching | Closing | Releasing | Unlocked | WatchGone.
(** A checkout holding the reference: waiting for the lock, or trying to unwrap it. *)
Inductive user : Type := Nobody | Locking (t : nat) | Unwrapping (t : nat) (attempts : nat).
Record slot : Type := { w_key : Z; w_sender : sender; w_watch : watch; w_user : user; w_wire : wire }.
Definition set_sender (x : sender) (w : slot) : slot := {| w_key := w_key w; w_sender := x; w_watch := w_watch w; w_user := w_user w; w_wire := w_wire w |}.
Definition set_watch (x : watch) (w : slot) : slot := {| w_key := w_key w; w_sender := w_sender w; w_watch := x; w_user := w_user w; w_wire := w_wire w |}.
Definition set_user (x : user) (w : slot) : slot := {| w_key := w_key w; w_sender := w_sender w; w_watch := w_watch w; w_user := x; w_wire := w_wire w |}.
Definition set_wire (x : wire) (w : slot) : slot := {| w_key := w_key w; w_sender := w_sender w; w_watch := w_watch w; w_user := w_user w; w_wire := x |}.
(** The watcher holds the guard until it releases the lock. *)
Definition locked (w : slot) : bool := match w_watch w with Watching | Closing | Releasing => true | _ => false end.
(** Strong references beside the pool's. *)
Definition holders (w : slot) : Z :=
  (match w_watch w with WatchGone => 0 | _ => 1 end) + (match w_user w with Nobody => 0 | _ => 1 end).

Record totals : Type := {
  pool_reuse_total : Z; try_unwrap_fail_total : Z; unwrap_retry_total : Z; checkin_total : Z; fresh_connect_total : Z; lru_evictions : Z;
  unwrap_wait_ns : Z; unwrap_wait_max_ns : Z }.
Definition fetch_add (x n : Z) : Z := (x + n) mod (u64_max + 1).
(** [record_unwrap_wait] *)
Definition record_unwrap_wait (waited : Z) (c : totals) : totals :=
  let ns := Z.min waited u64_max in
  {| pool_reuse_total := pool_reuse_total c; try_unwrap_fail_total := try_unwrap_fail_total c; unwrap_retry_total := unwrap_retry_total c; checkin_total := checkin_total c;
     fresh_connect_total := fresh_connect_total c; lru_evictions := lru_evictions c;
     unwrap_wait_ns := fetch_add (unwrap_wait_ns c) ns; unwrap_wait_max_ns := Z.max (unwrap_wait_max_ns c) ns |}.
Definition bump (reuse fail retry checkin fresh lru : Z) (c : totals) : totals :=
  {| pool_reuse_total := fetch_add (pool_reuse_total c) reuse; try_unwrap_fail_total := fetch_add (try_unwrap_fail_total c) fail;
     unwrap_retry_total := fetch_add (unwrap_retry_total c) retry; checkin_total := fetch_add (checkin_total c) checkin;
     fresh_connect_total := fetch_add (fresh_connect_total c) fresh; lru_evictions := fetch_add (lru_evictions c) lru;
     unwrap_wait_ns := unwrap_wait_ns c; unwrap_wait_max_ns := unwrap_wait_max_ns c |}.
Definition zero_totals : totals :=
  {| pool_reuse_total := 0; try_unwrap_fail_total := 0; unwrap_retry_total := 0; checkin_total := 0; fresh_connect_total := 0; lru_evictions := 0; unwrap_wait_ns := 0; unwrap_wait_max_ns := 0 |}.

(** A connection in use: the task that has it, its worker and its socket. *)
Record in_use : Type := { u_task : nat; u_key : Z; u_wire : wire }.
(** The pool holds the number of the shared reference; [p_next] is [next_id]. *)
Record pool_state : Type := { p_pool : Inner Z; p_slots : gmap Z slot; p_next : Z; p_used : list in_use; p_totals : totals }.
Definition with_slots (m : gmap Z slot) (s : pool_state) : pool_state :=
  {| p_pool := p_pool s; p_slots := m; p_next := p_next s; p_used := p_used s; p_totals := p_totals s |}.
Definition on_slot (c : Z) (f : slot -> slot) (s : pool_state) : pool_state := with_slots (alter f c (p_slots s)) s.
Definition count (f : totals -> totals) (s : pool_state) : pool_state :=
  {| p_pool := p_pool s; p_slots := p_slots s; p_next := p_next s; p_used := p_used s; p_totals := f (p_totals s) |}.
Definition with_pool (g : Inner Z) (s : pool_state) : pool_state :=
  {| p_pool := g; p_slots := p_slots s; p_next := p_next s; p_used := p_used s; p_totals := p_totals s |}.
Definition with_used (l : list in_use) (s : pool_state) : pool_state :=
  {| p_pool := p_pool s; p_slots := p_slots s; p_next := p_next s; p_used := l; p_totals := p_totals s |}.
(** [next_id] is a 32-bit counter that wraps. *)
Definition wrap_i32 (z : Z) : Z := (z + 2147483648) mod 4294967296 - 2147483648.
Definition empty_pool : pool_state := {| p_pool := inner_new; p_slots := ∅; p_next := 1; p_used := []; p_totals := zero_totals |}.

Section Handover.
(** The idle ceiling, and the unwrap budget in nanoseconds. *)
Variable size : Z.
Variable unwrap_wait_budget : Z.

(** ** The calls *)

Definition meta_of (c : Z) (w : slot) : ConnectionMeta := {| key := w_key w; id := c |}.
(** What [get] and [put] tell the watchers. *)
Definition deliver (sig : signal) (m : gmap Z slot) : gmap Z slot :=
  match sig with PickedUp c => alter (set_sender Sent) c m | Evicted c => alter (set_sender SenderGone) c m end.
Definition deliver_all (sigs : list signal) (m : gmap Z slot) : gmap Z slot := fold_left (fun m sig => deliver sig m) sigs m.

(** [checkin] of a connection in use, with its watcher spawned.  One with bytes left over is
    dropped. *)
Definition checkin (u : in_use) (surplus : bool) (s : pool_state) : pool_state :=
  if surplus then s
  else
    let c := p_next s in
    let w := {| w_key := u_key u; w_sender := Unsent; w_watch := Watching; w_user := Nobody; w_wire := u_wire u |} in
    match put size (meta_of c w) c (p_pool s) with
    | (g, sigs) =>
        count (bump 0 0 0 1 0 0)
          {| p_pool := g; p_slots := deliver_all sigs (<[c := w]> (p_slots s)); p_next := wrap_i32 (c + 1); p_used := p_used s; p_totals := p_totals s |}
    end.
(** The first step of [checkout]: [get]. *)
Definition checkout_get (t : nat) (k : Z) (s : pool_state) : pool_state :=
  match get k (p_pool s) with
  | (Some c, g, sigs) => on_slot c (set_user (Locking t)) (with_slots (deliver_all sigs (p_slots s)) (with_pool g s))
  | (None, g, _) => with_pool g s
  end.
(** One turn of the unwrap loop, the time waited so far given: the connection, another turn,
    or the end of the budget. *)
Inductive turn : Type := Unwrapped | Again | GaveUp.
Definition unwrap_turn (refs waited : Z) : turn := if refs =? 1 then Unwrapped else if unwrap_wait_budget <=? waited then GaveUp else Again.
(** Whether this retry yields or sleeps. *)
Definition retry_pause (attempts : nat) : Z := if (attempts <=? UNWRAP_YIELD_ATTEMPTS)%nat then 0 else UNWRAP_SLEEP_STEP.
(** The whole loop, the references and the time waited at each attempt given. *)
Fixpoint unwrap_loop (fuel attempts : nat) (refs waited : nat -> Z) : option (bool * nat) :=
  match fuel with
  | O => None
  | S fuel =>
      match unwrap_turn (refs attempts) (waited attempts) with
      | Unwrapped => Some (true, attempts)
      | GaveUp => Some (false, attempts)
      | Again => unwrap_loop fuel (S attempts) refs waited
      end
  end.
Definition is_idle (c : Z) (s : pool_state) : bool := match by_id (p_pool s) !! c with Some _ => true | None => false end.
Definition strong_count (c : Z) (w : slot) (s : pool_state) : Z := holders w + (if is_idle c s then 1 else 0).
Definition checkout_unwrap (c : Z) (w : slot) (t attempts : nat) (waited : Z) (s : pool_state) : pool_state :=
  match unwrap_turn (strong_count c w s) waited with
  | GaveUp => on_slot c (set_user Nobody) (count (fun x => record_unwrap_wait waited (bump 0 1 0 0 0 0 x)) s)
  | Again => on_slot c (set_user (Unwrapping t (S attempts))) s
  | Unwrapped =>
      let s := match attempts with O => s | S _ => count (fun x => record_unwrap_wait waited (bump 0 0 1 0 0 0 x)) s end in
      let s := with_slots (delete c (p_slots s)) s in
      if is_stream_live (w_wire w)
      then count (bump 1 0 0 0 0 0) (with_used ({| u_task := t; u_key := w_key w; u_wire := set_noticed false (w_wire w) |} :: p_used s) s)
      else s
  end.

(** What the select of the watcher finds ready beside the pickup channel. *)
Inductive probe : Type := ReadByte | ReadEof | ReadFails | IdleTimeout.
Record ready : Type := { r_evicted : bool; r_drain : bool; r_probe : option probe }.
Definition read_byte (s : wire) : wire := {| unasked := unasked s - 1; closed := closed s; taken := taken s + 1; noticed := noticed s |}.
(** A poll of [watch_idle_connection]: the arms in their order, and whether an eviction is
    counted.  [None] when no arm is ready. *)
Definition watch_poll (r : ready) (w : slot) : option (slot * Z) :=
  match w_sender w with
  | Sent => Some (set_watch Releasing w, 0)
  | SenderGone => Some (set_watch Closing w, 1)
  | Unsent =>
      if r_evicted r then Some (set_watch Closing w, 1)
      else if r_drain r then Some (set_watch Closing w, 0)
      else match r_probe r with
           | Some ReadByte => match try_read (w_wire w) with OneByte => Some (set_watch Closing (set_wire (read_byte (w_wire w)) w), 0) | _ => None end
           | Some ReadEof => match try_read (w_wire w) with Eof => Some (set_watch Closing w, 0) | _ => None end
           | Some _ => Some (set_watch Closing w, 0)
           | None => None
           end
  end.

(** ** Events *)

(** [Reactor]: the reactor caches readiness, of what has arrived or stale; [Blocked]: the
    watcher's read finds an empty socket and clears it. *)
Inductive event : Type :=
| Connect (t : nat) (k : Z)
| Checkin (t : nat) (surplus : bool)
| Discard (t : nat)
| Checkout (t : nat) (k : Z)
| TakeLock (c : Z)
| Unwrap (c waited : Z)
| Poll (c : Z) (r : ready)
| PopClosed (c : Z)
| Unlock (c : Z)
| DropArc (c : Z)
| WatcherDropped (c : Z)
| WorkerSpeaks (c n : Z)
| WorkerCloses (c : Z)
| Reactor (c : Z)
| Blocked (c : Z).
Fixpoint take_use (t : nat) (l : list in_use) : option (in_use * list in_use) :=
  match l with
  | [] => None
  | u :: l' => if (u_task u =? t)%nat then Some (u, l') else (fun r => (fst r, u :: snd r)) <$> take_use t l'
  end.
(** One event; [None] when it cannot happen. *)
Definition handover_step (ev : event) (s : pool_state) : option pool_state :=
  match ev with
  | Connect t k => Some (count (bump 0 0 0 0 1 0) (with_used ({| u_task := t; u_key := k; u_wire := quiet |} :: p_used s) s))
  | Checkin t surplus => (fun r => checkin (fst r) surplus (with_used (snd r) s)) <$> take_use t (p_used s)
  | Discard t => (fun r => with_used (snd r) s) <$> take_use t (p_used s)
  | Checkout t k => Some (checkout_get t k s)
  | TakeLock c => w ← p_slots s !! c; match w_user w with Locking t => if locked w then None else Some (on_slot c (set_user (Unwrapping t 0)) s) | _ => None end
  | Unwrap c waited => w ← p_slots s !! c; match w_user w with Unwrapping t n => Some (checkout_unwrap c w t n waited s) | _ => None end
  | Poll c r => w ← p_slots s !! c; match w_watch w with
                | Watching => x ← watch_poll r w; Some (count (bump 0 0 0 0 0 (snd x)) (on_slot c (fun _ => fst x) s))
                | _ => None
                end
  | PopClosed c => w ← p_slots s !! c; match w_watch w with
                   | Closing => Some (on_slot c (set_watch Releasing) (with_pool (pop_closed (meta_of c w) (p_pool s)) s))
                   | _ => None
                   end
  | Unlock c => w ← p_slots s !! c; match w_watch w with Releasing => Some (on_slot c (set_watch Unlocked) s) | _ => None end
  | DropArc c => w ← p_slots s !! c; match w_watch w with Unlocked => Some (on_slot c (set_watch WatchGone) s) | _ => None end
  | WatcherDropped c => w ← p_slots s !! c; match w_watch w with Watching => Some (on_slot c (set_watch Releasing) s) | _ => None end
  | WorkerSpeaks c n => w ← p_slots s !! c; if 0 <? n then Some (on_slot c (set_wire {| unasked := unasked (w_wire w) + n; closed := closed (w_wire w); taken := taken (w_wire w); noticed := noticed (w_wire w) |}) s) else None
  | WorkerCloses c => w ← p_slots s !! c; Some (on_slot c (set_wire {| unasked := unasked (w_wire w); closed := true; taken := taken (w_wire w); noticed := noticed (w_wire w) |}) s)
  | Reactor c => w ← p_slots s !! c; Some (on_slot c (set_wire (set_noticed true (w_wire w))) s)
  | Blocked c => w ← p_slots s !! c; match w_watch w, read_socket (w_wire w) with Watching, WouldBlock => Some (on_slot c (set_wire (set_noticed false (w_wire w))) s) | _, _ => None end
  end.
Fixpoint handover (evs : list event) (s : pool_state) : option pool_state :=
  match evs with [] => Some s | ev :: evs' => handover_step ev s ≫= handover evs' end.
End Handover.

(** ** The pool, by who is idle in it *)

Definition idle (g : Inner Z) (c : Z) : Prop := is_Some (by_id g !! c).
(** The pool agrees with a list of idle connections, each named by its own number. *)
Definition pool_ok (g : Inner Z) (l : list (item Z)) : Prop := agrees g l /\ forall x, In x l -> i_conn x = i_id x.
Lemma idle_in g l c : pool_ok g l -> idle g c <-> exists x, In x l /\ i_id x = c.
Proof.
  intros [A _]. unfold idle. split; [intros [q Q]; apply (ag_id _ _ A) in Q as (x & I & E & _); eauto|].
  intros (x & I & E). exists (i_seq x). apply (ag_id _ _ A). eauto.
Qed.
Lemma in_drop_id (l : list (item Z)) x y : NoDup (map i_id l) -> In x l -> (forall a b, In a l -> In b l -> i_seq a = i_seq b -> a = b) -> In y (drop_seq (i_seq x) l) <-> In y l /\ i_id y <> i_id x.
Proof.
  intros ND X U. rewrite in_drop. split; intros [I N]; (split; [exact I|]); intros E; apply N; [rewrite (id_unique _ _ _ ND I X E); reflexivity | rewrite (U _ _ I X E); reflexivity].
Qed.
Lemma seq_unique (g : Inner Z) l x y : agrees g l -> In x l -> In y l -> i_seq x = i_seq y -> x = y.
Proof. intros A. apply (ascending_unique _ _ _ _ _ (ag_seq _ _ A)). Qed.

Lemma get_idle g l k r g' sigs :
  pool_ok g l -> get k g = (r, g', sigs) ->
  exists l', pool_ok g' l' /\ (forall x, In x l' -> In x l) /\
    match r with
    | None => l' = l
    | Some c => sigs = [PickedUp c] /\ idle g c /\ forall d, idle g' d <-> idle g d /\ d <> c
    end.
Proof.
  intros P E. pose proof P as [A C]. pose proof (get_refines g l k A) as R. rewrite E in R. unfold spec_get in R. destruct (of_key k l) as [|x es] eqn:O.
  - destruct R as (A' & -> & ->). exists l. split; [split; assumption|]. split; [auto | reflexivity].
  - destruct R as (A' & Er & ->). cbn in Er. assert (In x l) as X by (assert (In x (of_key k l)) as H by (rewrite O; left; reflexivity); apply filter_In in H; apply H).
    assert (pool_ok g' (drop_seq (i_seq x) l)) as P' by (split; [exact A' | intros y [Y _]%in_drop; apply C, Y]).
    exists (drop_seq (i_seq x) l). split; [exact P'|]. split; [intros y [Y _]%in_drop; exact Y|].
    subst r. rewrite (C x X). split; [reflexivity|]. split; [apply (idle_in _ _ _ P); eauto|]. intros d. rewrite (idle_in _ _ d P'), (idle_in _ _ d P).
    pose proof (fun y => in_drop_id l x y (ag_ids _ _ A) X (fun a b => seq_unique g l a b A)) as D. split.
    + intros (y & [Y N]%D & <-). eauto.
    + intros [(y & Y & <-) N]. exists y. split; [apply D; auto | reflexivity].
Qed.
Lemma put_idle size g l k c g' sigs :
  pool_ok g l -> ~ idle g c -> put size {| key := k; id := c |} c g = (g', sigs) ->
  exists l', pool_ok g' l' /\ (forall x, In x l' -> In x l \/ (i_id x = c /\ i_key x = k)) /\
    ((sigs = [] /\ forall d, idle g' d <-> idle g d \/ d = c) \/
     exists v, sigs = [Evicted v] /\ (idle g v \/ v = c) /\ forall d, idle g' d <-> (idle g d \/ d = c) /\ d <> v).
Proof.
  intros P N E. pose proof P as [A C]. assert (forall y, In y l -> i_id y <> id {| key := k; id := c |}) as Fr by (intros y Y F; apply N, (idle_in _ _ _ P); eauto).
  pose proof (put_refines size g l {| key := k; id := c |} c A Fr) as R. cbv zeta in R. rewrite E in R. cbn [key id] in R. set (x := {| i_seq := next_seq g; i_key := k; i_id := c; i_conn := c |}) in R.
  assert (forall d, (exists y, In y (l ++ [x]) /\ i_id y = d) <-> idle g d \/ d = c) as All.
  { intros d. rewrite (idle_in _ _ d P). split; [intros (y & [Y|[<-|[]]]%in_app_iff & <-); eauto|]. intros [(y & Y & <-)| ->]; [exists y | exists x]; (split; [apply in_app_iff; cbn; auto | reflexivity]). }
  assert (forall y, In y (l ++ [x]) -> i_conn y = i_id y /\ (In y l \/ (i_id y = c /\ i_key y = k))) as Mem by (intros y [Y|[<-|[]]]%in_app_iff; [split; [apply C, Y | auto] | split; auto]).
  unfold spec_put in R. destruct (zlen (l ++ [x]) >? size).
  - destruct (l ++ [x]) as [|v rest] eqn:L; [destruct l; discriminate|]. destruct R as (A' & -> & _).
    assert (pool_ok g' rest) as P' by (split; [exact A' | intros y Y; apply Mem; right; exact Y]). exists rest. split; [exact P'|].
    split; [intros y Y; apply Mem; right; exact Y|]. right. exists (i_id v). split; [reflexivity|]. split; [apply All; exists v; split; [left; reflexivity | reflexivity]|].
    assert (NoDup (map i_id (v :: rest))) as ND.
    { rewrite <- L, map_app. cbn. apply list.NoDup_app. split; [apply (ag_ids _ _ A)|]. split; [|apply NoDup_singleton]. intros q Q1 Q2%list_elem_of_singleton. subst q.
      apply list_elem_of_In, in_map_iff in Q1 as (y & Q & Y). apply (Fr y Y Q). }
    intros d. rewrite (idle_in _ _ d P'), <- All. split.
    + intros (y & Y & <-). split; [exists y; split; [right; exact Y | reflexivity]|]. intros F. cbn in ND. apply list.NoDup_cons in ND as [Nv _]. apply Nv, list_elem_of_In, in_map_iff. eauto.
    + intros [(y & [<-|Y] & <-) F]; [congruence | eauto].
  - destruct R as (A' & -> & _). assert (pool_ok g' (l ++ [x])) as P' by (split; [exact A' | intros y Y; apply Mem, Y]). exists (l ++ [x]). split; [exact P'|].
    split; [intros y Y; apply Mem, Y|]. left. split; [reflexivity|]. intros d. rewrite (idle_in _ _ d P'). apply All.
Qed.
Lemma close_idle g l meta :
  pool_ok g l -> (forall x, In x l -> i_id x = id meta -> i_key x = key meta) ->
  exists l', pool_ok (pop_closed meta g) l' /\ (forall x, In x l' -> In x l) /\ forall d, idle (pop_closed meta g) d <-> idle g d /\ d <> id meta.
Proof.
  intros P K. pose proof P as [A C]. assert (pool_ok (pop_closed meta g) (spec_close (id meta) l)) as P' by (split; [apply close_refines; assumption | intros y [Y _]%filter_In; apply C, Y]).
  exists (spec_close (id meta) l). split; [exact P'|]. split; [intros y [Y _]%filter_In; exact Y|]. intros d. rewrite (idle_in _ _ d P'), (idle_in _ _ d P). unfold spec_close. split.
  - intros (y & [Y N]%filter_In & <-). split; [eauto | lia].
  - intros [(y & Y & <-) N]. exists y. split; [apply filter_In; split; [exact Y | lia] | reflexivity].
Qed.

(** ** What every reachable state keeps *)

Definition id_of (n : Z) : Z := wrap_i32 (1 + n).
Lemma id_of_next n : wrap_i32 (id_of n + 1) = id_of (n + 1).
Proof. unfold id_of, wrap_i32. Z.div_mod_to_equations. lia. Qed.
Lemma id_of_inj i j : 0 <= i -> i < j < 4294967296 -> id_of i <> id_of j.
Proof. unfold id_of, wrap_i32. intros. Z.div_mod_to_equations. lia. Qed.
(** An id given out before the [n]-th check-in. *)
Definition named (n c : Z) : Prop := exists j, 0 <= j < n /\ c = id_of j.

(** An idle connection has no user, its pickup channel is unused and, unless a watcher was
    dropped, it is watched; a connection with a user was picked up; one being unwrapped is
    not locked; a watcher that still waits has its connection in the pool or something to
    wake for. *)
Record slot_ok (strict in_pool : Prop) (w : slot) : Prop := {
  sl_idle : in_pool -> w_user w = Nobody /\ w_sender w = Unsent;
  sl_watched : strict -> in_pool -> w_watch w = Watching \/ w_watch w = Closing;
  sl_used : w_user w <> Nobody -> w_sender w = Sent;
  sl_unlocked : match w_user w with Unwrapping _ _ => locked w = false | _ => True end;
  sl_waiting : w_watch w = Watching -> w_sender w = Unsent -> in_pool }.
Record sound (strict : Prop) (n : Z) (s : pool_state) : Prop := {
  so_pool : exists l, pool_ok (p_pool s) l /\ forall x, In x l -> exists w, p_slots s !! i_id x = Some w /\ w_key w = i_key x;
  so_next : p_next s = id_of n;
  so_named : forall c w, p_slots s !! c = Some w -> named n c;
  so_slots : forall c w, p_slots s !! c = Some w -> slot_ok strict (idle (p_pool s) c) w }.

Lemma slot_ok_iff strict P Q w : (P <-> Q) -> slot_ok strict P w -> slot_ok strict Q w.
Proof. intros E [A B C D F]. split; auto; intros; [apply A, E | apply B; [|apply E]| apply E, F]; assumption. Qed.
Lemma empty_sound strict : sound strict 0 empty_pool.
Proof.
  split; [exists []; split; [split; [apply new_agrees | intros x []] | intros x []] | reflexivity | intros c w E..]; cbn in E; rewrite lookup_empty in E; discriminate.
Qed.

Section Steps.
Variable strict : Prop.
Variable n : Z.

Lemma sound_count f s : sound strict n s -> sound strict n (count f s).
Proof. intros [A B C D]. split; assumption. Qed.
Lemma sound_used l s : sound strict n s -> sound strict n (with_used l s).
Proof. intros [A B C D]. split; assumption. Qed.
(** One slot changes, and nothing of the pool. *)
Lemma sound_slot c f s w :
  sound strict n s -> p_slots s !! c = Some w -> w_key (f w) = w_key w -> slot_ok strict (idle (p_pool s) c) (f w) -> sound strict n (on_slot c f s).
Proof.
  intros [(l & P & K) B C D] W Kf Ok. split; [exists l; split; [exact P|] | exact B | |].
  - intros x X. destruct (K x X) as (v & V & Kv). cbn. destruct (decide (i_id x = c)) as [E|N]; [|rewrite lookup_alter_ne by congruence; eauto].
    rewrite E in *. rewrite lookup_alter_eq, W. exists (f w). split; [reflexivity | congruence].
  - cbn. intros d v. destruct (decide (d = c)) as [->|N]; [intros _; exact (C _ _ W) | rewrite lookup_alter_ne by congruence; apply C].
  - cbn. intros d v. destruct (decide (d = c)) as [->|N]; [rewrite lookup_alter_eq, W; intros [= <-]; exact Ok | rewrite lookup_alter_ne by congruence; apply D].
Qed.
(** Traffic on the socket touches nothing else. *)
Lemma sound_wire c x s w : sound strict n s -> p_slots s !! c = Some w -> sound strict n (on_slot c (set_wire x) s).
Proof. intros S W. apply (sound_slot c _ s w S W); [reflexivity|]. destruct (so_slots _ _ _ S _ _ W) as [A B C D F]. split; cbn; auto. Qed.
Lemma sound_delete c s w : sound strict n s -> p_slots s !! c = Some w -> ~ idle (p_pool s) c -> sound strict n (with_slots (delete c (p_slots s)) s).
Proof.
  intros [(l & P & K) B C D] W N. split; [exists l; split; [exact P|] | exact B | |].
  - intros x X. destruct (K x X) as (v & V & Kv). exists v. cbn. split; [|exact Kv]. rewrite lookup_delete_ne; [exact V|]. intros E. apply N. rewrite E. apply (idle_in _ _ _ P). eauto.
  - cbn. intros d v [_ V]%lookup_delete_Some. exact (C _ _ V).
  - cbn. intros d v [_ V]%lookup_delete_Some. exact (D _ _ V).
Qed.

Lemma is_idle_spec c s : is_idle c s = true <-> idle (p_pool s) c.
Proof. unfold is_idle, idle. destruct (by_id (p_pool s) !! c); split; intros; eauto; try discriminate. destruct H. discriminate. Qed.
Lemma one_holder c w s : w_user w <> Nobody -> strong_count c w s = 1 -> w_watch w = WatchGone /\ ~ idle (p_pool s) c.
Proof.
  unfold strong_count, holders. intros U E. split; [destruct (w_watch w), (w_user w), (is_idle c s); try lia; congruence|].
  intros I%is_idle_spec. rewrite I in E. destruct (w_watch w), (w_user w); try lia; congruence.
Qed.
Lemma last_holder c w s : w_watch w = WatchGone -> w_user w <> Nobody -> ~ idle (p_pool s) c -> strong_count c w s = 1.
Proof.
  unfold strong_count, holders. intros -> U N. destruct (is_idle c s) eqn:I; [destruct (N (proj1 (is_idle_spec c s) I))|]. destruct (w_user w); [congruence | reflexivity..].
Qed.
Lemma sound_unwrap budget c w t k waited s :
  sound strict n s -> p_slots s !! c = Some w -> w_user w = Unwrapping t k -> sound strict n (checkout_unwrap budget c w t k waited s).
Proof.
  intros S W U. pose proof (so_slots _ _ _ S _ _ W) as [A B C D E]. unfold checkout_unwrap, unwrap_turn. destruct (strong_count c w s =? 1) eqn:R; [|destruct (budget <=? waited)].
  - destruct (one_holder c w s) as [_ N]; [congruence | lia|].
    assert (forall s', p_slots s' = p_slots s -> p_pool s' = p_pool s -> sound strict n s' -> sound strict n (with_slots (delete c (p_slots s')) s')) as Del.
    { intros s' Es Ep S'. apply (sound_delete c s' w); [exact S' | rewrite Es; exact W | rewrite Ep; exact N]. }
    destruct k; destruct (is_stream_live _); try apply sound_count; try apply sound_used; apply Del; auto using sound_count.
  - apply (sound_slot c _ _ w); [apply sound_count, S | exact W | reflexivity|]. split; cbn; auto; try congruence. intros I. split; [reflexivity | apply A, I].
  - apply (sound_slot c _ _ w); [exact S | exact W | reflexivity|]. rewrite U in *. split; cbn; [intros I; destruct (A I); congruence | exact B | intros _; apply C; discriminate | exact D | exact E].
Qed.
Lemma sound_get t k s : sound strict n s -> sound strict n (checkout_get t k s).
Proof.
  intros S. pose proof S as [(l & P & K) B C D]. unfold checkout_get. destruct (get k (p_pool s)) as [[r g'] sigs] eqn:G. destruct (get_idle _ _ _ _ _ _ P G) as (l' & P' & Sub & R).
  destruct r as [c|].
  - destruct R as (-> & I & Eq). cbn [deliver_all fold_left deliver]. apply (idle_in _ _ _ P) in I as (x & X & <-). destruct (K x X) as (w & W & Kw). set (c := i_id x) in *.
    split; cbn.
    + exists l'. split; [exact P'|]. intros y Y. destruct (K y (Sub y Y)) as (v & V & Kv). assert (i_id y <> c) as Ne by (apply Eq, (idle_in _ _ _ P'); eauto).
      rewrite !lookup_alter_ne by congruence. eauto.
    + exact B.
    + intros d v. destruct (decide (d = c)) as [->|Ne]; [intros _; exact (C _ _ W) | rewrite !lookup_alter_ne by congruence; apply C].
    + intros d v. destruct (decide (d = c)) as [->|Ne].
      * rewrite !lookup_alter_eq, W. cbn. intros [= <-]. assert (~ idle g' c) as Ni by (intros [_ F]%Eq; congruence).
        split; cbn; auto; try contradiction; try discriminate.
      * rewrite !lookup_alter_ne by congruence. intros V. apply (slot_ok_iff strict (idle (p_pool s) d)); [|exact (D _ _ V)]. rewrite Eq. tauto.
  - subst l'. split; cbn; [exists l; split; [exact P' | exact K] | exact B | exact C|]. intros d v V. apply (slot_ok_iff strict (idle (p_pool s) d)); [|exact (D _ _ V)].
    rewrite (idle_in _ _ d P), (idle_in _ _ d P'). reflexivity.
Qed.
End Steps.

(** A connection with an unused pickup channel that the pool evicts loses its sender. *)
Lemma evicted_ok strict (P : Prop) w : ~ P -> w_user w = Nobody -> slot_ok strict P (set_sender SenderGone w).
Proof. intros N U. split; cbn; rewrite ?U; try contradiction; try discriminate; auto. Qed.
Lemma sound_checkin strict n size u surplus s :
  sound strict n s -> 0 <= n -> n < 4294967296 - 1 -> exists n', n <= n' <= n + 1 /\ sound strict n' (checkin size u surplus s).
Proof.
  intros S N0 N1. unfold checkin. destruct surplus; [exists n; split; [lia | exact S]|]. exists (n + 1). split; [lia|].
  pose proof S as [(l & P & K) B C D]. set (c := p_next s) in *. set (w := {| w_key := u_key u |}). unfold meta_of. cbn [w_key w].
  assert (p_slots s !! c = None) as Fresh.
  { destruct (p_slots s !! c) as [v|] eqn:V; [|reflexivity]. destruct (C _ _ V) as (j & J & E). rewrite B in E. symmetry in E. destruct (id_of_inj j n); [lia.. | exact E]. }
  assert (~ idle (p_pool s) c) as Ni by (intros (x & X & E)%(idle_in _ _ _ P); destruct (K x X) as (v & V & _); rewrite E in V; congruence).
  destruct (put size _ c (p_pool s)) as [g sigs] eqn:Pu. destruct (put_idle _ _ _ _ _ _ _ P Ni Pu) as (l' & P' & Sub & Sig).
  apply sound_count. split; cbn [p_pool p_slots p_next].
  - exists l'. split; [exact P'|]. intros x X. assert (exists v, <[c:=w]> (p_slots s) !! i_id x = Some v /\ w_key v = i_key x) as (v & V & Kv).
    { destruct (Sub x X) as [X'|[E Ek]]; [|rewrite E, lookup_insert_eq; exists w; auto]. destruct (K x X') as (v & V & Kv). exists v. split; [|exact Kv].
      rewrite lookup_insert_ne; [exact V|]. intros E. rewrite E in Fresh. congruence. }
    destruct Sig as [[-> _]|(ev & -> & _)]; cbn [deliver_all fold_left deliver]; [eauto|].
    destruct (decide (i_id x = ev)) as [E|E]; [rewrite E in *; rewrite lookup_alter_eq, V; eexists; split; [reflexivity | exact Kv] | rewrite lookup_alter_ne by congruence; eauto].
  - rewrite B. apply id_of_next.
  - assert (forall d v, <[c:=w]> (p_slots s) !! d = Some v -> named (n + 1) d) as Nm.
    { intros d v [[<- _]|[_ V]]%lookup_insert_Some; [exists n; split; [lia | exact B]|]. destruct (C _ _ V) as (j & J & E). exists j. split; [lia | exact E]. }
    destruct Sig as [[-> _]|(ev & -> & _)]; cbn [deliver_all fold_left deliver]; [exact Nm|]. intros d v V.
    destruct (decide (d = ev)) as [->|E]; [rewrite lookup_alter_eq in V; destruct (<[c:=w]> (p_slots s) !! ev) eqn:Q; [exact (Nm _ _ Q) | discriminate] | rewrite lookup_alter_ne in V by congruence; exact (Nm _ _ V)].
  - assert (forall Q d v, (forall e, Q e <-> idle (p_pool s) e \/ e = c) -> <[c:=w]> (p_slots s) !! d = Some v -> slot_ok strict (Q d) v) as Ins.
    { intros Q d v E [[<- <-]|[Ne V]]%lookup_insert_Some; [split; cbn; auto; try congruence; intros; apply E; auto|]. apply (slot_ok_iff strict (idle (p_pool s) d)); [rewrite E; intuition congruence | exact (D _ _ V)]. }
    destruct Sig as [[-> Id]|(ev & -> & Ie & Id)]; cbn [deliver_all fold_left deliver]; intros d v V; [exact (Ins _ _ _ Id V)|].
    destruct (decide (d = ev)) as [->|E].
    + rewrite lookup_alter_eq in V. destruct (<[c:=w]> (p_slots s) !! ev) as [v0|] eqn:Q; [|discriminate]. injection V as <-.
      apply evicted_ok; [rewrite Id; tauto|]. apply (sl_idle _ _ _ (Ins (fun e => idle (p_pool s) e \/ e = c) _ _ (fun _ => iff_refl _) Q)). exact Ie.
    + rewrite lookup_alter_ne in V by congruence. apply (slot_ok_iff strict (idle (p_pool s) d \/ d = c)); [rewrite Id; tauto|]. exact (Ins (fun e => idle (p_pool s) e \/ e = c) _ _ (fun _ => iff_refl _) V).
Qed.

(** Waking for a reason other than a pickup; the wire may lose a byte to the probe. *)
Lemma closing_ok strict (P : Prop) w x : w_watch w = Watching -> w_sender w <> Sent -> slot_ok strict P w -> slot_ok strict P (set_watch Closing (set_wire x w)).
Proof.
  intros W N [A B C D E]. assert (w_user w = Nobody) as U by (destruct (w_user w); [reflexivity | destruct (N (C ltac:(discriminate))) ..]).
  split; cbn; rewrite ?U; auto; try congruence. intros I. split; [reflexivity | apply A, I].
Qed.
Lemma watch_poll_ok strict P r w x : slot_ok strict P w -> w_watch w = Watching -> watch_poll r w = Some x -> w_key (fst x) = w_key w /\ slot_ok strict P (fst x).
Proof.
  intros O W. assert (w_sender w <> Sent -> slot_ok strict P (set_watch Closing w)) as Cl by (intros N; exact (closing_ok strict P w (w_wire w) W N O)).
  unfold watch_poll. destruct (w_sender w) eqn:Se.
  - repeat (case_match; try discriminate); intros [= <-]; (split; [reflexivity|]); cbn [fst]; first [apply Cl; discriminate | apply closing_ok; [exact W | congruence | exact O]].
  - intros [= <-]. split; [reflexivity|]. destruct O as [A B C D E]. split; cbn; auto; try discriminate; [intros _ I; destruct (A I); congruence|].
    destruct (w_user w); auto. unfold locked in D. rewrite W in D. discriminate.
  - intros [= <-]. split; [reflexivity|]. apply Cl. discriminate.
Qed.
Lemma sound_pop_closed strict n c w s :
  sound strict n s -> p_slots s !! c = Some w -> w_watch w = Closing -> sound strict n (on_slot c (set_watch Releasing) (with_pool (pop_closed (meta_of c w) (p_pool s)) s)).
Proof.
  intros [(l & P & K) B C D] W V. assert (forall x, In x l -> i_id x = id (meta_of c w) -> i_key x = key (meta_of c w)) as Ky.
  { intros x X E. destruct (K x X) as (v & Vx & Kv). cbn in E. rewrite E in Vx. cbn. congruence. }
  destruct (close_idle _ _ _ P Ky) as (l' & P' & Sub & Id). cbn [meta_of id] in Id. set (g := pop_closed _ _) in *.
  assert (sound strict n (with_pool g (with_slots (alter (set_watch Releasing) c (p_slots s)) s))) as S'.
  { split; cbn; [exists l'; split; [exact P'|] | exact B | |].
    - intros x X. destruct (K x (Sub x X)) as (v & Vx & Kv). assert (i_id x <> c) by (apply Id, (idle_in _ _ _ P'); eauto). rewrite lookup_alter_ne by congruence. eauto.
    - intros d v. destruct (decide (d = c)) as [->|Ne]; [intros _; exact (C _ _ W) | rewrite lookup_alter_ne by congruence; apply C].
    - intros d v. destruct (decide (d = c)) as [->|Ne].
      + rewrite lookup_alter_eq, W. intros [= <-]. assert (~ idle g c) as Ni by (intros [_ F]%Id; congruence). destruct (D _ _ W) as [A0 B0 C0 D0 E0].
        split; cbn; auto; try contradiction; try discriminate. destruct (w_user w); auto. unfold locked in D0. rewrite V in D0. discriminate.
      + rewrite lookup_alter_ne by congruence. intros Vd. apply (slot_ok_iff strict (idle (p_pool s) d)); [rewrite Id; tauto | exact (D _ _ Vd)]. }
  exact S'.
Qed.

Definition is_checkin (ev : event) : bool := match ev with Checkin _ _ => true | _ => false end.
Definition keeps_watchers (ev : event) : bool := match ev with WatcherDropped _ => false | _ => true end.
(** The slot an event is about, and its invariant. *)
Ltac open_slot := match goal with E : (p_slots ?s !! ?c ≫= _) = Some _ |- _ =>
  let w := fresh "w" in let W := fresh "W" in destruct (p_slots s !! c) as [w|] eqn:W; [|discriminate E]; cbn in E end.
Lemma sound_step strict n size budget ev s s' :
  sound strict n s -> 0 <= n < 4294967296 - 1 -> (strict -> keeps_watchers ev = true) -> handover_step size budget ev s = Some s' ->
  exists n', n <= n' <= n + (if is_checkin ev then 1 else 0) /\ sound strict n' s'.
Proof.
  intros S N Kw E.
  assert (sound strict n s' -> is_checkin ev = false -> exists n', n <= n' <= n + (if is_checkin ev then 1 else 0) /\ sound strict n' s') as Same by (intros; exists n; rewrite H0; split; [lia | assumption]).
  destruct ev as [t k|t b|t|t k|c|c z|c r|c|c|c|c|c m|c|c|c]; cbn [handover_step] in E.
  - injection E as <-. apply Same; [apply sound_count, sound_used, S | reflexivity].
  - destruct (take_use t (p_used s)) as [[u l]|]; [|discriminate]. injection E as <-. apply sound_checkin; [apply sound_used, S | lia..].
  - destruct (take_use t (p_used s)) as [[u l]|]; [|discriminate]. injection E as <-. apply Same; [apply sound_used, S | reflexivity].
  - injection E as <-. apply Same; [apply sound_get, S | reflexivity].
  - open_slot. destruct (w_user w) eqn:U; try discriminate. destruct (locked w) eqn:L; [discriminate|]. injection E as <-.
    apply Same; [|reflexivity]. apply (sound_slot _ _ c _ s w S W); [reflexivity|]. destruct (so_slots _ _ _ S _ _ W) as [A B C D F]. rewrite U in *.
    split; cbn; [intros I; destruct (A I); discriminate | exact B | intros _; apply C; discriminate | exact L | exact F].
  - open_slot. destruct (w_user w) as [| |t k] eqn:U; try discriminate. injection E as <-.
    apply Same; [apply sound_unwrap; assumption | reflexivity].
  - open_slot. destruct (w_watch w) eqn:V; try discriminate. destruct (watch_poll r w) as [x|] eqn:Po; [|discriminate]. injection E as <-.
    destruct (watch_poll_ok _ _ _ _ _ (so_slots _ _ _ S _ _ W) V Po) as [Ky O]. apply Same; [apply sound_count, (sound_slot _ _ c _ s w S W); assumption | reflexivity].
  - open_slot. destruct (w_watch w) eqn:V; try discriminate. injection E as <-. apply Same; [apply sound_pop_closed; assumption | reflexivity].
  - open_slot. destruct (w_watch w) eqn:V; try discriminate. injection E as <-. apply Same; [|reflexivity].
    apply (sound_slot _ _ c _ s w S W); [reflexivity|]. destruct (so_slots _ _ _ S _ _ W) as [A B C D F]. split; cbn; auto; try discriminate; [intros St I; destruct (B St I); congruence|]. destruct (w_user w); auto.
  - open_slot. destruct (w_watch w) eqn:V; try discriminate. injection E as <-. apply Same; [|reflexivity].
    apply (sound_slot _ _ c _ s w S W); [reflexivity|]. destruct (so_slots _ _ _ S _ _ W) as [A B C D F]. split; cbn; auto; try discriminate; [intros St I; destruct (B St I); congruence|]. destruct (w_user w); auto.
  - open_slot. destruct (w_watch w) eqn:V; try discriminate. injection E as <-. apply Same; [|reflexivity].
    apply (sound_slot _ _ c _ s w S W); [reflexivity|]. destruct (so_slots _ _ _ S _ _ W) as [A B C D F]. split; cbn; auto; try discriminate; [intros St; specialize (Kw St); discriminate|].
    destruct (w_user w); auto. unfold locked in D. rewrite V in D. discriminate.
  - open_slot. destruct (0 <? m); [|discriminate]. injection E as <-. apply Same; [|reflexivity].
    apply (sound_wire _ _ c _ s w S W).
  - open_slot. injection E as <-. apply Same; [apply (sound_wire _ _ c _ s w S W) | reflexivity].
  - open_slot. injection E as <-. apply Same; [apply (sound_wire _ _ c _ s w S W) | reflexivity].
  - open_slot. destruct (w_watch w); try discriminate. destruct (read_socket (w_wire w)); try discriminate. injection E as <-. apply Same; [apply (sound_wire _ _ c _ s w S W) | reflexivity].
Qed.

Fixpoint checkins (evs : list event) : Z := match evs with [] => 0 | ev :: evs' => (if is_checkin ev then 1 else 0) + checkins evs' end.
Lemma checkins_nonneg evs : 0 <= checkins evs.
Proof. induction evs as [|ev evs IH]; cbn [checkins]; [lia|]. destruct (is_checkin ev); lia. Qed.
Lemma sound_run (strict : Prop) size budget evs : forall n s s',
  sound strict n s -> 0 <= n -> n + checkins evs < 4294967296 - 1 -> (strict -> forallb keeps_watchers evs = true) -> handover size budget evs s = Some s' ->
  exists n', sound strict n' s'.
Proof.
  induction evs as [|ev evs IH]; intros n s s' S N L Kw; cbn [handover]; [intros [= <-]; eauto|]. cbn [checkins forallb] in L, Kw. pose proof (checkins_nonneg evs).
  destruct (handover_step size budget ev s) as [s1|] eqn:E; [|discriminate]. destruct (sound_step strict n size budget ev s s1 S) as (n1 & L1 & S1); [destruct (is_checkin ev); lia | | exact E|].
  - intros St. apply Kw, andb_true_iff in St as [-> _]. reflexivity.
  - apply (IH n1); [exact S1 | lia | lia|]. intros St. apply Kw, andb_true_iff in St as [_ St]. exact St.
Qed.
Lemma reached size budget evs s :
  handover size budget evs empty_pool = Some s -> checkins evs < 4294967296 - 1 -> exists n, sound (forallb keeps_watchers evs = true) n s.
Proof. intros R L. apply (sound_run _ size budget evs 0 empty_pool); [apply empty_sound | lia | lia | auto | exact R]. Qed.

(** ** Theorems *)

(** The probe lets a connection through when nothing the reactor has noticed can be read. *)
Lemma is_stream_live_spec x : is_stream_live x = true <-> (noticed x = true -> unasked x = 0 /\ closed x = false).
Proof.
  unfold is_stream_live, try_read, read_socket. destruct (noticed x); [|split; [discriminate | reflexivity]].
  destruct (unasked x =? 0) eqn:U; [destruct (closed x)|]; split; intros H; try discriminate; try reflexivity; [|intros _; split; [lia | reflexivity]|]; destruct (H eq_refl); [discriminate | lia].
Qed.

(** C40. A pooled connection has one holder that can use it.  Whatever order check-ins, checkouts,
    evictions, drains, worker traffic, reactor wake-ups and watchers run in, for as long as
    fewer than 2^32 - 1 check-ins were made (the 32-bit connection ids do not come round): a
    connection in the pool has no user and, as long as no watcher is cut off, is being
    watched; a connection a checkout has taken is not in the pool; and a checkout ends with a
    connection exactly when it is the last holder (the watcher has dropped its reference and
    can read it no more, the pool has let it go) and nothing the reactor has noticed is
    waiting to be read: if the reactor has readiness cached for the socket, the worker has
    neither sent a byte that is still there nor closed.  What has arrived and the reactor has
    not noticed is not excluded: the probe does not ask the socket then. *)
Theorem pooled_connection_has_one_user size budget evs s :
  handover size budget evs empty_pool = Some s -> checkins evs < 4294967296 - 1 ->
  (forall c, idle (p_pool s) c -> exists w, p_slots s !! c = Some w /\ w_user w = Nobody /\ (forallb keeps_watchers evs = true -> w_watch w = Watching \/ w_watch w = Closing)) /\
  (forall c w, p_slots s !! c = Some w -> w_user w <> Nobody -> ~ idle (p_pool s) c) /\
  (forall c w t n waited, p_slots s !! c = Some w -> w_user w = Unwrapping t n ->
     exists s', handover_step size budget (Unwrap c waited) s = Some s' /\
       ((w_watch w = WatchGone /\ (noticed (w_wire w) = true -> unasked (w_wire w) = 0 /\ closed (w_wire w) = false) /\
         ~ idle (p_pool s) c /\ p_slots s' !! c = None /\ p_used s' = {| u_task := t; u_key := w_key w; u_wire := set_noticed false (w_wire w) |} :: p_used s) \/
        (~ (w_watch w = WatchGone /\ (noticed (w_wire w) = true -> unasked (w_wire w) = 0 /\ closed (w_wire w) = false)) /\ p_used s' = p_used s))).
Proof.
  intros R L. destruct (reached _ _ _ _ R L) as (n & [(l & P & K) B C D]). split; [|split].
  - intros c I. pose proof I as (x & X & <-)%(idle_in _ _ _ P). destruct (K x X) as (w & W & _). exists w. split; [exact W|]. destruct (D _ _ W) as [A Wa _ _ _]. split; [apply A, I | auto].
  - intros c w W U I. apply U, (sl_idle _ _ _ (D _ _ W) I).
  - intros c w t k waited W U. cbn [handover_step]. rewrite W. cbn [mbind option_bind]. rewrite U. eexists. split; [reflexivity|]. rewrite <- is_stream_live_spec.
    assert (~ idle (p_pool s) c) as Ni by (intros I; destruct (sl_idle _ _ _ (D _ _ W) I); congruence). unfold checkout_unwrap, unwrap_turn.
    destruct (strong_count c w s =? 1) eqn:Q; [|right; split; [intros [G _]; rewrite (last_holder c w s G) in Q; [discriminate | congruence | exact Ni] | destruct (budget <=? waited); reflexivity]].
    destruct (one_holder c w s) as [G _]; [congruence | lia|].
    destruct (is_stream_live (w_wire w)) eqn:Lv; [left | right; split; [intros [_ F]; discriminate | destruct k; reflexivity]]. repeat (split; [assumption || reflexivity|]).
    destruct k; (split; [apply lookup_delete_eq | reflexivity]).
Qed.

(** The steps the watcher of a picked-up connection still has to make. *)
Definition finish (c : Z) (w : slot) : list event :=
  let poll := Poll c {| r_evicted := false; r_drain := false; r_probe := None |} in
  match w_watch w with
  | Watching => [poll; Unlock c; DropArc c]
  | Closing => [PopClosed c; Unlock c; DropArc c]
  | Releasing => [Unlock c; DropArc c]
  | Unlocked => [DropArc c]
  | WatchGone => []
  end.

Lemma at_slot c f s w : p_slots s !! c = Some w -> p_slots (on_slot c f s) !! c = Some (f w).
Proof. intros W. cbn. rewrite lookup_alter_eq, W. reflexivity. Qed.
Lemma handover_cons size budget ev evs s : handover size budget (ev :: evs) s = handover_step size budget ev s ≫= handover size budget evs.
Proof. reflexivity. Qed.
Lemma handover_app size budget a b s : handover size budget (a ++ b) s = handover size budget a s ≫= handover size budget b.
Proof. revert s. induction a as [|ev a IH]; intros s; [reflexivity|]. cbn [app handover]. destruct (handover_step size budget ev s); [apply IH | reflexivity]. Qed.
Lemma pop_closed_absent (g : Inner Z) meta : ~ idle g (id meta) -> ~ idle (pop_closed meta g) (id meta).
Proof. unfold idle, pop_closed. intros N. destruct (by_id g !! id meta) eqn:E; [destruct N; eauto|]. cbn. rewrite lookup_delete_eq. intros [? F]. discriminate. Qed.
(** Two steps from the release of the lock to the drop of the reference. *)
Lemma watcher_leaves size budget s c w :
  p_slots s !! c = Some w -> w_watch w = Releasing -> handover size budget [Unlock c; DropArc c] s = Some (on_slot c (set_watch WatchGone) (on_slot c (set_watch Unlocked) s)).
Proof.
  intros W V. cbn [handover handover_step]. rewrite W. cbn [mbind option_bind]. rewrite V. cbn [mbind option_bind handover handover_step]. rewrite (at_slot c _ s w W). reflexivity.
Qed.
Lemma watcher_finishes size budget s c w :
  p_slots s !! c = Some w -> w_sender w = Sent -> ~ idle (p_pool s) c ->
  exists s', handover size budget (finish c w) s = Some s' /\ p_slots s' !! c = Some (set_watch WatchGone w) /\ ~ idle (p_pool s') c.
Proof.
  intros W Se Ni. unfold finish. destruct (w_watch w) eqn:V.
  - rewrite handover_cons. cbn [handover_step]. rewrite W. cbn [mbind option_bind]. rewrite V. unfold watch_poll. rewrite Se. cbn [mbind option_bind fst snd].
    set (s1 := count _ _). assert (p_slots s1 !! c = Some (set_watch Releasing w)) as W1 by (apply (at_slot c (fun _ => set_watch Releasing w) s w W)).
    rewrite (watcher_leaves size budget s1 c _ W1 eq_refl). eexists. split; [reflexivity|]. split; [|exact Ni]. exact (at_slot c _ _ _ (at_slot c _ _ _ W1)).
  - rewrite handover_cons. cbn [handover_step]. rewrite W. cbn [mbind option_bind]. rewrite V. cbn [mbind option_bind].
    set (s1 := on_slot _ _ _). assert (p_slots s1 !! c = Some (set_watch Releasing w)) as W1 by (apply (at_slot c (set_watch Releasing)); exact W).
    rewrite (watcher_leaves size budget s1 c _ W1 eq_refl). eexists. split; [reflexivity|]. split; [exact (at_slot c _ _ _ (at_slot c _ _ _ W1))|]. exact (pop_closed_absent (p_pool s) (meta_of c w) Ni).
  - rewrite (watcher_leaves size budget s c w W V). eexists. split; [reflexivity|]. split; [exact (at_slot c _ _ _ (at_slot c _ _ _ W)) | exact Ni].
  - cbn [handover handover_step]. rewrite W. cbn [mbind option_bind]. rewrite V. eexists. split; [reflexivity|]. split; [exact (at_slot c _ s w W) | exact Ni].
  - exists s. split; [reflexivity|]. split; [|exact Ni]. rewrite W. f_equal. destruct w. cbn in V. subst. reflexivity.
Qed.
(** With the watcher gone and the pool out of it, the next try unwraps. *)
Lemma unwraps_at_once size budget s c w t n :
  p_slots s !! c = Some w -> w_watch w = WatchGone -> w_user w = Unwrapping t n -> ~ idle (p_pool s) c ->
  exists s', handover size budget [Unwrap c 0] s = Some s' /\ p_slots s' !! c = None.
Proof.
  intros W V U Ni. cbn [handover handover_step]. rewrite W. cbn [mbind option_bind]. rewrite U. cbn [mbind option_bind]. eexists. split; [reflexivity|].
  unfold checkout_unwrap, unwrap_turn, strong_count, holders. rewrite V, U. destruct (is_idle c s) eqn:I; [apply is_idle_spec in I; contradiction|]. cbn [Z.add Z.eqb Pos.eqb].
  destruct n, (is_stream_live _); cbn; apply lookup_delete_eq.
Qed.

(** A checkout is never stuck behind the watcher.  In every reachable state, whatever a
    checkout of a connection waits for, at most three steps of that connection's own watcher
    bring its lock and its reference, and the next try unwraps the connection: nobody else
    has to act. *)
Theorem checkout_waits_only_for_its_watcher size budget evs s c w t :
  handover size budget evs empty_pool = Some s -> checkins evs < 4294967296 - 1 -> p_slots s !! c = Some w ->
  (w_user w = Locking t \/ exists n, w_user w = Unwrapping t n) ->
  (length (finish c w) <= 3)%nat /\
  exists s', handover size budget (finish c w ++ match w_user w with Locking _ => [TakeLock c] | _ => [] end ++ [Unwrap c 0]) s = Some s' /\ p_slots s' !! c = None.
Proof.
  intros R L W U. destruct (reached _ _ _ _ R L) as (n & S). pose proof (so_slots _ _ _ S _ _ W) as [A _ C D _]. split; [unfold finish; destruct (w_watch w); cbn; lia|].
  assert (w_user w <> Nobody) as Nu by (destruct U as [U|[k U]]; rewrite U; discriminate). assert (~ idle (p_pool s) c) as Ni by (intros I; apply Nu, A, I).
  destruct (watcher_finishes size budget s c w W (C Nu) Ni) as (s1 & R1 & W1 & I1). rewrite handover_app, R1. cbn [mbind option_bind].
  destruct U as [U|[k U]]; rewrite U; [|apply (unwraps_at_once size budget s1 c _ t k W1); auto].
  cbn [app]. rewrite handover_cons. cbn [handover_step]. rewrite W1. cbn [mbind option_bind set_watch w_user]. rewrite U. cbn [locked w_watch mbind option_bind].
  apply (unwraps_at_once size budget _ c (set_user (Unwrapping t 0) (set_watch WatchGone w)) t 0); auto. apply (at_slot c _ s1 _ W1).
Qed.

(** The unwrap loop ends: after 64 yields every attempt sleeps at least a millisecond, so the
    budget is spent. *)
Lemma unwrap_loop_ends budget refs waited fuel attempts :
  (forall n, waited n <= waited (S n)) -> (forall n, (UNWRAP_YIELD_ATTEMPTS < n)%nat -> waited n + 1000000 <= waited (S n)) -> 0 <= waited 0%nat ->
  (UNWRAP_YIELD_ATTEMPTS < attempts)%nat -> budget <= waited attempts + 1000000 * Z.of_nat fuel -> is_Some (unwrap_loop budget (S fuel) attempts refs waited).
Proof.
  intros Mono Sleep W0. revert attempts. induction fuel as [|fuel IH]; intros attempts At B; cbn [unwrap_loop]; unfold unwrap_turn; destruct (refs attempts =? 1); eauto;
    destruct (budget <=? waited attempts) eqn:E; eauto; [lia|]. apply IH; [lia|]. specialize (Sleep attempts At). lia.
Qed.

(** ** Concrete runs *)

Definition budget_ns : Z := 20000000.
Definition nothing_ready : ready := {| r_evicted := false; r_drain := false; r_probe := None |}.
Definition probed (p : probe) : ready := {| r_evicted := false; r_drain := false; r_probe := Some p |}.
(** One request checks its connection in, another takes it over. *)
Definition taken_over : list event := [Connect 1 0; Checkin 1 false; Checkout 2 0; Poll 1 nothing_ready; Unlock 1; TakeLock 1; DropArc 1].
Lemma pooled_connection_has_one_user_witness :
  exists s s', handover 4 budget_ns taken_over empty_pool = Some s /\ handover_step 4 budget_ns (Unwrap 1 0) s = Some s' /\ map u_task (p_used s') = [2%nat].
Proof.
  destruct (handover 4 budget_ns taken_over empty_pool) as [s|] eqn:R; [|vm_compute in R; discriminate].
  destruct (pooled_connection_has_one_user 4 budget_ns taken_over s R ltac:(vm_compute; reflexivity)) as (_ & _ & U).
  destruct (p_slots s !! 1) as [w|] eqn:W; [|vm_compute in R; injection R as <-; vm_compute in W; discriminate].
  assert (w_user w = Unwrapping 2 0 /\ w_watch w = WatchGone /\ noticed (w_wire w) = false /\ p_used s = []) as (U1 & U2 & U3 & U4).
  { vm_compute in R. injection R as <-. vm_compute in W. injection W as <-. repeat split; reflexivity. }
  destruct (U 1 w 2%nat 0%nat 0 W U1) as (s' & E & [(_ & _ & _ & _ & Us)|[N _]]); [|destruct N; split; [exact U2 | rewrite U3; discriminate]].
  exists s, s'. split; [reflexivity|]. split; [exact E|]. rewrite Us, U4. reflexivity.
Defined.
Lemma checkout_waits_only_for_its_watcher_witness :
  exists s w, handover 4 budget_ns [Connect 1 0; Checkin 1 false; Checkout 2 0] empty_pool = Some s /\ p_slots s !! 1 = Some w /\ (length (finish 1 w) <= 3)%nat.
Proof.
  destruct (handover 4 budget_ns [Connect 1 0; Checkin 1 false; Checkout 2 0] empty_pool) as [s|] eqn:R; [|vm_compute in R; discriminate].
  destruct (p_slots s !! 1) as [w|] eqn:W; [|vm_compute in R; injection R as <-; vm_compute in W; discriminate]. exists s, w. split; [reflexivity|]. split; [exact W|].
  assert (w_user w = Locking 2) as U by (vm_compute in R; injection R as <-; vm_compute in W; injection W as <-; reflexivity).
  apply (checkout_waits_only_for_its_watcher 4 budget_ns _ s 1 w 2%nat R ltac:(vm_compute; reflexivity) W (or_introl U)).
Defined.

(** ** Corners *)

(** The probe of a watcher can eat the one byte that marks a connection as dirty: if a checkout
    takes the connection before the watcher has removed it from the pool, the checkout's own
    probe finds nothing and the connection is used. *)
Lemma dirty_connection_can_be_reused :
  exists s, handover 4 budget_ns [Connect 1 0; Checkin 1 false; WorkerSpeaks 1 1; Reactor 1; Poll 1 (probed ReadByte); Checkout 2 0; PopClosed 1; Unlock 1; DropArc 1; TakeLock 1; Unwrap 1 0] empty_pool = Some s /\
    p_used s = [{| u_task := 2; u_key := 0; u_wire := {| unasked := 0; closed := false; taken := 1; noticed := false |} |}] /\ pool_reuse_total (p_totals s) = 1.
Proof. eexists. split; [vm_compute; reflexivity|]. split; vm_compute; reflexivity. Qed.
(** The checkout's probe is only as fresh as the reactor: with the same traffic the connection
    is discarded once the reactor has noticed it, and used before. *)
Lemma probe_sees_what_the_reactor_noticed :
  exists s s', handover 4 budget_ns (taken_over ++ [WorkerSpeaks 1 1; WorkerCloses 1; Unwrap 1 0]) empty_pool = Some s /\
    handover 4 budget_ns (taken_over ++ [WorkerSpeaks 1 1; WorkerCloses 1; Reactor 1; Unwrap 1 0]) empty_pool = Some s' /\
    p_used s = [{| u_task := 2; u_key := 0; u_wire := {| unasked := 1; closed := true; taken := 0; noticed := false |} |}] /\ p_used s' = [] /\ p_slots s' = ∅.
Proof. do 2 eexists. split; [vm_compute; reflexivity|]. split; [vm_compute; reflexivity|]. repeat split; vm_compute; reflexivity. Qed.
(** An eviction that meets a watcher already awake for the idle timeout is not counted. *)
Lemma eviction_can_go_uncounted :
  exists s, handover 1 budget_ns [Connect 1 0; Checkin 1 false; Poll 1 (probed IdleTimeout); Connect 2 0; Checkin 2 false; PopClosed 1; Unlock 1; DropArc 1] empty_pool = Some s /\
    (exists w, p_slots s !! 1 = Some w /\ w_sender w = SenderGone /\ w_watch w = WatchGone) /\ lru_evictions (p_totals s) = 0.
Proof. eexists. split; [vm_compute; reflexivity|]. split; [eexists; split; [vm_compute; reflexivity | split; reflexivity] | vm_compute; reflexivity]. Qed.
(** A watcher cut off (the shared reaper panics) leaves its connection idle and unwatched. *)
Lemma dropped_watcher_leaves_it_unwatched :
  exists s, handover 4 budget_ns [Connect 1 0; Checkin 1 false; WatcherDropped 1; Unlock 1; DropArc 1] empty_pool = Some s /\
    is_idle 1 s = true /\ exists w, p_slots s !! 1 = Some w /\ w_watch w = WatchGone.
Proof. eexists. split; [vm_compute; reflexivity|]. split; [vm_compute; reflexivity|]. eexists. split; vm_compute; reflexivity. Qed.
