(* ===== verification/HttpClient.v ===== *)
(** * HttpClient: one request on the HTTP/1.1 worker hop, at the edge

    Model of the connection side of [crates/oxo-pingora-edge/src/platform/worker_wire.rs]:
    [read_complete_body], which collects the client's body, [send_worker_request_to_pool] and
    [send_worker_request], which find a worker and write the request, and
    [read_worker_response_and_write] with [stream_chunked_worker_response], which relay the
    answer.  Sockets, the drain watch, the session and the long-lived admission are those of
    [FrameClient]: a read is one element of a list of outcomes, [drained n] is what the [n]-th
    [*drain.borrow()] reads. *)

From S2P Require Import Prelude Text HopFrame Stream WorkerParser JobQueue WorkerRuby WorkerFrame WorkerServe ClientRequest WorkerWire HttpHop Fairness Dispatch FrameClient.

(** ** The client's body *)

Inductive body_read : Type :=
| BodyChunk (d : bytes)
| BodyEnd
| BodyError
| BodyTimeout.

(** A client that sends nothing more runs into the timeout. *)
Fixpoint read_known (expected : nat) (body : bytes) (rs : list body_read) : result Z bytes * list body_read :=
  if (expected <=? length body)%nat then (Ok body, rs)
  else match rs with
       | BodyChunk d :: rs' => if (expected <? length body + length d)%nat then (Err 400, rs') else read_known expected (body ++ d) rs'
       | BodyEnd :: rs' | BodyError :: rs' => (Err 400, rs')
       | BodyTimeout :: rs' => (Err 408, rs')
       | [] => (Err 408, [])
       end.
Fixpoint read_unknown (max_body : Z) (body : bytes) (rs : list body_read) : result Z bytes * list body_read :=
  match rs with
  | BodyChunk d :: rs' => if saturating_add (zlen body) (zlen d) >? max_body then (Err 413, rs') else read_unknown max_body (body ++ d) rs'
  | BodyEnd :: rs' => (Ok body, rs')
  | BodyError :: rs' => (Err 400, rs')
  | BodyTimeout :: rs' => (Err 408, rs')
  | [] => (Err 408, [])
  end.
(** Lengths fit the 64-bit [usize]: the [try_from] conversions cannot fail. *)
Definition read_complete_body (content_length : option Z) (is_http2 : bool) (max_body : Z) (rs : list body_read) : result Z bytes * list body_read :=
  match content_length with
  | Some expected => if expected =? 0 then (Ok [], rs) else read_known (Z.to_nat expected) [] rs
  | None => if negb is_http2 then (Ok [], rs) else read_unknown max_body [] rs
  end.

(** ** Reading the worker *)

(** What one read of [read_more_worker_bytes_or_drain] makes of an outcome: data, the drain
    flag ([None]), or a failure; no data is the end of the stream, which is a failure. *)
Definition read_event (e : io) : result Z (option bytes) :=
  match e with
  | Got [] => Err 502
  | Got d => Ok (Some d)
  | PeerReset | ReadFailed => Err 502
  | DrainSet => Ok None
  end.

Section Hop.
Context {H : Type} `{HeaderLib H}.
Variable max_buffered_bytes : Z.
Variable keepalive : bool.

Section Streaming.
Variable drained : nat -> bool.

(** [read_until_crlf_or_drain]: the position of the line end, [None] when draining. *)
Fixpoint read_until_crlf (n : nat) (pending : bytes) (s : list io) : result Z (option nat) * nat * bytes * list io :=
  match position_from crlf pending 0 with
  | Some pos => (Ok (Some pos), n, pending, s)
  | None =>
      if drained n then (Ok None, S n, pending, s)
      else match s with
           | [] => (Err 502, S n, pending, s)
           | e :: s' =>
               match read_event e with
               | Err st => (Err st, S n, pending, s')
               | Ok None => (Ok None, S n, pending, s')
               | Ok (Some d) =>
                   let pending := pending ++ d in
                   if zlen pending >? MAX_RESPONSE_HEADER_BYTES then (Err 502, S n, pending, s') else read_until_crlf (S n) pending s'
               end
           end
  end.
(** [read_until_available_or_drain]: [Ok false] when draining. *)
Fixpoint read_until_available (len n : nat) (pending : bytes) (s : list io) : result Z bool * nat * bytes * list io :=
  if (len <=? length pending)%nat then (Ok true, n, pending, s)
  else if drained n then (Ok false, S n, pending, s)
  else match s with
       | [] => (Err 502, S n, pending, s)
       | e :: s' =>
           match read_event e with
           | Err st => (Err st, S n, pending, s')
           | Ok None => (Ok false, S n, pending, s')
           | Ok (Some d) => read_until_available len (S n) (pending ++ d) s'
           end
       end.

(** The state of the relay: [pending] is the buffer, read from its start. *)
Definition holding (pending : bytes) (s : list io) (st : relay (H := H)) : relay := set_rb st {| rb_buf := pending; rb_pos := 0 |} s.
Definition pending (st : relay (H := H)) : bytes := rb_buf (rbuf st).

Definition finished (o : LongLivedOp) (header : option H) (st : relay) : result Z unit * relay :=
  match write_after_header header None true st with
  | (Err e, st') => (Err e, st')
  | (Ok _, st') => (Ok tt, on_admission o st')
  end.
Definition finish_drained_chunked_response : option H -> relay -> result Z unit * relay := finished CompleteDrained.

(** The [loop] of [stream_chunked_worker_response], [n] counting the reads of the drain flag.
    [None]: out of fuel. *)
Fixpoint chunk_loop (fuel n : nat) (header : option H) (decoded : Z) (st : relay) : option (result Z unit * relay) :=
  match fuel with
  | O => None
  | S fuel =>
      let '(r, n, p, s) := read_until_crlf n (pending st) (sock st) in
      let st := holding p s st in
      match r with
      | Err e => Some (Err e, st)
      | Ok None => Some (finish_drained_chunked_response header st)
      | Ok (Some line_end) =>
          match parse_chunk_size (take line_end p) with
          | Err e => Some (Err e, st)
          | Ok size =>
              let p := drop (line_end + 2) p in
              if size =? 0 then
                let '(r, _, p, s) := read_until_available 2 n p s in
                let st := holding p s st in
                match r with
                | Err e => Some (Err e, st)
                | Ok false => Some (finish_drained_chunked_response header st)
                | Ok true => if eq_bytes (take 2 p) crlf then Some (finished Complete header st) else Some (Err 502, st)
                end
              else if decoded + size >? u64_max then Some (Err 502, holding p s st)
              else
                let decoded := decoded + size in
                if decoded >? MAX_RESPONSE_BYTES then Some (Err 502, holding p s st)
                else
                  let st := on_admission (RecordBytes size) (holding p s st) in
                  if negb (within_buffer max_buffered_bytes (adm st)) then Some (Err 502, st)
                  else
                    let size := Z.to_nat size in
                    let '(r, n, p, s) := read_until_available (size + 2) n p s in
                    let st := holding p s st in
                    match r with
                    | Err e => Some (Err e, st)
                    | Ok false => Some (finish_drained_chunked_response header st)
                    | Ok true =>
                        if negb (eq_bytes (take 2 (drop size p)) crlf) then Some (Err 502, st)
                        else
                          let chunk := take size p in
                          let st := holding (drop (size + 2) p) s st in
                          match write_after_header header (Some chunk) false st with
                          | (Err e, st) => Some (Err e, st)
                          | (Ok _, st) => chunk_loop fuel n None decoded st
                          end
                    end
          end
      end
  end.

(** Dropping the admission closes its account. *)
Definition stream_chunked_worker_response (admitted : bool) (header : H) (initial : bytes) (s : list io) (c : LongLivedCounters) (k : session (H := H))
    : option (result Z unit * LongLivedCounters * session) :=
  if negb admitted then Some (Err 503, c, k)
  else
    let st := {| adm := new_admission; ctrs := c; rbuf := {| rb_buf := initial; rb_pos := 0 |}; sock := s; sess := k |} in
    match chunk_loop (S (length (initial ++ inflow s))) 0 (Some header) 0 st with
    | None => None
    | Some (r, st') => Some (r, long_lived_finish (adm st') (ctrs st'), sess st')
    end.
End Streaming.

(** ** The whole answer *)

(** The first [loop]: until the end of the head is in the buffer.  The drain flag is not
    looked at. *)
Fixpoint read_head_bytes (response : bytes) (s : list io) : result Z nat * bytes * list io :=
  match s with
  | [] => (Err 502, response, [])
  | DrainSet :: s' => read_head_bytes response s'
  | e :: s' =>
      match read_event e with
      | Ok (Some d) =>
          let response := response ++ d in
          if zlen response >? MAX_RESPONSE_BYTES then (Err 502, response, s')
          else match find_header_end response with
               | Some header_end => if Z.of_nat header_end >? MAX_RESPONSE_HEADER_BYTES then (Err 502, response, s') else (Ok header_end, response, s')
               | None => if zlen response >? MAX_RESPONSE_HEADER_BYTES then (Err 502, response, s') else read_head_bytes response s'
               end
      | _ => (Err 502, response, s')
      end
  end.
(** The second [loop]: until the worker closes. *)
Fixpoint read_to_end (response : bytes) (s : list io) : result Z bytes :=
  match s with
  | [] | Got [] :: _ => Ok response
  | Got d :: s' => if zlen (response ++ d) >? MAX_RESPONSE_BYTES then Err 502 else read_to_end (response ++ d) s'
  | DrainSet :: s' => read_to_end response s'
  | PeerReset :: _ | ReadFailed :: _ => Err 502
  end.

Definition write_downstream_response (r : EdgeResponse H) (k : session (H := H)) : result Z Z * session :=
  match session_write (DHeader (er_header r) false) k with
  | (Err e, k') => (Err e, k')
  | (Ok _, k') =>
      match session_write (DBody (Some (er_body r)) true) k' with
      | (Err e, k'') => (Err e, k'')
      | (Ok _, k'') => (Ok (er_status r), k'')
      end
  end.

(** [admitted] is what [long_lived.try_admit] answers if the response is streamed. *)
Definition read_worker_response_and_write (drained : nat -> bool) (admitted : bool) (s : list io) (c : LongLivedCounters) (k : session)
    : option (result Z Z * LongLivedCounters * session) :=
  let '(r, response, s) := read_head_bytes [] s in
  match r with
  | Err e => Some (Err e, c, k)
  | Ok header_end =>
      match worker_response_is_chunked (take header_end response) with
      | Err e => Some (Err e, c, k)
      | Ok true =>
          match parse_chunked_worker_response_head (take header_end response) keepalive with
          | Err e => Some (Err e, c, k)
          | Ok (header, status) =>
              match stream_chunked_worker_response drained admitted header (drop (header_end + 4) response) s c k with
              | None => None
              | Some (r, c, k) => Some ((let? _ := r in Ok status), c, k)
              end
          end
      | Ok false =>
          match (let? response := read_to_end response s in parse_worker_response response keepalive) with
          | Err e => Some (Err e, c, k)
          | Ok r => let '(r, k) := write_downstream_response r k in Some (r, c, k)
          end
      end
  end.

(** ** Finding a worker *)

Inductive WorkerSendError : Type :=
| NotConnected
| AfterWriting (status : Z).

(** What one attempt observes: the drain flag, the connection or [None] when it is refused or
    too slow, whether the write and the shutdown succeed, and the answer. *)
Record http_link : Type := { hl_write_ok : bool; hl_shutdown_ok : bool; hl_reads : list io; hl_admitted : bool; hl_drained : nat -> bool }.
Record http_attempt : Type := { ha_drained : bool; ha_link : option http_link }.

Definition send_worker_request (t : http_attempt) (c : LongLivedCounters) (k : session) : option (result WorkerSendError Z * LongLivedCounters * session) :=
  if ha_drained t then Some (Err (AfterWriting 503), c, k)
  else match ha_link t with
       | None => Some (Err NotConnected, c, k)
       | Some l =>
           if negb (hl_write_ok l) || negb (hl_shutdown_ok l) then Some (Err (AfterWriting 502), c, k)
           else match read_worker_response_and_write (hl_drained l) (hl_admitted l) (hl_reads l) c k with
                | None => None
                | Some (r, c, k) => Some (map_err AfterWriting r, c, k)
                end
       end.

(** The workers that bytes of the request may have reached. *)
Definition reached_by (w : nat) (t : http_attempt) : list nat :=
  if ha_drained t then [] else match ha_link t with Some _ => [w] | None => [] end.
(** The [for offset in 0..sockets.len()] loop. *)
Fixpoint try_workers (order : list nat) (env : nat -> http_attempt) (c : LongLivedCounters) (k : session)
    : option (result Z Z * list nat * LongLivedCounters * session) :=
  match order with
  | [] => Some (Err 503, [], c, k)
  | w :: order' =>
      let reached := reached_by w (env w) in
      match send_worker_request (env w) c k with
      | None => None
      | Some (Ok status, c, k) => Some (Ok status, reached, c, k)
      | Some (Err (AfterWriting status), c, k) => Some (Err status, reached, c, k)
      | Some (Err NotConnected, c, k) => try_workers order' env c k
      end
  end.
(** [next] is the value [next_worker.fetch_add] returns. *)
Definition send_worker_request_to_pool (workers next : nat) (env : nat -> http_attempt) (c : LongLivedCounters) (k : session)
    : option (result Z Z * list nat * LongLivedCounters * session) :=
  if (workers =? 0)%nat then Some (Err 503, [], c, k)
  else try_workers (rotation (next mod workers) workers workers) env c k.
End Hop.

(** ** Every loop ends *)

Lemma position_bound p s i pos : position_from p s i = Some pos -> (i <= pos /\ pos - i + length p <= length s)%nat.
Proof.
  revert i. induction s as [|b s IH]; intros i; cbn [position_from]; destruct (starts_with p _) eqn:S; try discriminate.
  - intros [= <-]. rewrite starts_with_take in S. apply eq_bytes_true in S. rewrite take_nil in S. subst p. cbn. lia.
  - intros [= <-]. rewrite starts_with_take in S. apply eq_bytes_true in S. rewrite <- S at 1. rewrite length_take. lia.
  - intros K%IH. cbn [length]. lia.
Qed.

Section Ends.
Context {H : Type} `{HeaderLib H}.
Variable max_buffered_bytes : Z.
Variable drained : nat -> bool.

(** Reading only appends what the socket delivers. *)
Lemma read_event_data e d : read_event e = Ok (Some d) -> e = Got d /\ d <> [].
Proof. destruct e as [[|b r]| | |]; cbn; intros [=]; subst; split; [reflexivity | discriminate]. Qed.
Lemma inflow_shrinks e s : (length (inflow s) <= length (inflow (e :: s)))%nat.
Proof. destruct e; cbn [inflow]; rewrite ?length_app; lia. Qed.
Lemma crlf_read_keeps n p s r n' p' s' :
  read_until_crlf drained n p s = (r, n', p', s') -> (length (p' ++ inflow s') <= length (p ++ inflow s))%nat.
Proof.
  revert n p. induction s as [|e s IH]; intros n p; cbn [read_until_crlf]; destruct (position_from crlf p 0); try (intros [= _ _ <- <-]; lia);
    destruct (drained n); try (intros [= _ _ <- <-]; lia).
  pose proof (inflow_shrinks e s). destruct (read_event e) as [[d|]|] eqn:E; try (intros [= _ _ <- <-]; rewrite !length_app; lia).
  apply read_event_data in E as [-> _]. cbn [inflow]. cbv zeta. destruct (_ >? _).
  - intros [= _ _ <- <-]. rewrite <- app_assoc. lia.
  - intros K%IH. rewrite <- app_assoc in K. exact K.
Qed.
Lemma available_read_keeps len n p s r n' p' s' :
  read_until_available drained len n p s = (r, n', p', s') -> (length (p' ++ inflow s') <= length (p ++ inflow s))%nat.
Proof.
  revert n p. induction s as [|e s IH]; intros n p; cbn [read_until_available]; destruct (_ <=? _)%nat; try (intros [= _ _ <- <-]; lia);
    destruct (drained n); try (intros [= _ _ <- <-]; lia).
  pose proof (inflow_shrinks e s). destruct (read_event e) as [[d|]|] eqn:E; try (intros [= _ _ <- <-]; rewrite !length_app; lia).
  apply read_event_data in E as [-> _]. cbn [inflow]. intros K%IH. rewrite <- app_assoc in K. exact K.
Qed.
Lemma crlf_read_found n p s pos n' p' s' :
  read_until_crlf drained n p s = (Ok (Some pos), n', p', s') -> (pos + 2 <= length p')%nat.
Proof.
  revert n p. induction s as [|e s IH]; intros n p; cbn [read_until_crlf]; destruct (position_from crlf p 0) as [q|] eqn:Q;
    try (intros [= <- _ <- _]; apply position_bound in Q; cbn in Q; lia); destruct (drained n); try discriminate.
  destruct (read_event e) as [[d|]|]; try discriminate. cbv zeta. destruct (_ >? _); [discriminate | apply IH].
Qed.

(** A turn of the loop that goes on has consumed a line. *)
Lemma chunk_loop_ends fuel n header decoded (st : relay (H := H)) :
  (length (pending st ++ inflow (sock st)) < fuel)%nat -> exists r st', chunk_loop max_buffered_bytes drained fuel n header decoded st = Some (r, st').
Proof.
  revert n header decoded st. induction fuel as [|fuel IH]; intros n header decoded st L; [lia|]. cbn [chunk_loop].
  destruct (read_until_crlf drained n (pending st) (sock st)) as [[[r n1] p1] s1] eqn:E1.
  assert (forall x : result Z unit * relay (H := H), exists r st', Some x = Some (r, st')) as Ends by (intros []; eauto).
  destruct r as [[pos|]|e]; try apply Ends. pose proof (crlf_read_keeps _ _ _ _ _ _ _ E1). pose proof (crlf_read_found _ _ _ _ _ _ _ E1).
  destruct (parse_chunk_size _) as [size|]; [|apply Ends]. destruct (size =? 0).
  - destruct (read_until_available drained 2 n1 _ s1) as [[[r2 n2] p2] s2]. destruct r2 as [[]|]; try apply Ends. destruct (eq_bytes _ _); apply Ends.
  - destruct (_ >? u64_max); [apply Ends|]. cbv zeta. destruct (_ >? MAX_RESPONSE_BYTES); [apply Ends|].
    destruct (negb _); [apply Ends|].
    destruct (read_until_available drained (Z.to_nat size + 2) n1 _ s1) as [[[r2 n2] p2] s2] eqn:E2. pose proof (available_read_keeps _ _ _ _ _ _ _ _ E2) as L2.
    destruct r2 as [[]|]; try apply Ends. destruct (negb _); [apply Ends|].
    destruct (write_after_header _ _ _ _) as [[u|e] st3] eqn:E3; [|apply Ends]. apply write_after_header_io in E3 as [B S]. apply IH.
    unfold pending. rewrite B, S. cbn [holding set_rb rbuf sock rb_buf].
    rewrite !length_app, length_drop in *. lia.
Qed.
Lemma answer_ends keepalive admitted s c (k : session (H := H)) :
  exists r c' k', read_worker_response_and_write max_buffered_bytes keepalive drained admitted s c k = Some (r, c', k').
Proof.
  unfold read_worker_response_and_write. destruct (read_head_bytes [] s) as [[[e|] rs] s']; [|eauto].
  destruct (worker_response_is_chunked _) as [[]|]; [| |eauto].
  - destruct (parse_chunked_worker_response_head _ _) as [[h st]|]; [|eauto]. unfold stream_chunked_worker_response. destruct admitted; [|cbn; eauto]. cbn [negb].
    match goal with |- context [chunk_loop ?m ?d ?f ?n ?h ?x ?st] => destruct (chunk_loop_ends f n h x st) as (r & st' & ->) end; [cbn; lia | eauto].
  - destruct (rbind _ _) as [r|]; [|eauto]. destruct (write_downstream_response r k) as [r' k']. eauto.
Qed.
End Ends.

(** ** The body *)

(** The data of the reads that were consumed. *)
Definition body_data (rs : list body_read) : bytes := concat (map (fun r => match r with BodyChunk d => d | _ => [] end) rs).
Lemma read_known_ok expected body rs b rs' :
  (length body <= expected)%nat -> read_known expected body rs = (Ok b, rs') -> length b = expected /\ exists ds, rs = map BodyChunk ds ++ rs' /\ b = body ++ concat ds.
Proof.
  revert body. induction rs as [|r rs IH]; intros body L; cbn [read_known]; destruct (Nat.leb_spec expected (length body)).
  - intros [= <- <-]. split; [lia|]. exists []. cbn. rewrite app_nil_r. auto.
  - discriminate.
  - intros [= <- <-]. split; [lia|]. exists []. cbn. rewrite app_nil_r. auto.
  - destruct r as [d| | |]; try discriminate. destruct (Nat.ltb_spec expected (length body + length d)); [discriminate|]. intros E.
    apply IH in E as (Lb & ds & -> & ->); [|rewrite length_app; lia]. split; [exact Lb|]. exists (d :: ds). cbn. rewrite <- app_assoc. auto.
Qed.
Lemma read_unknown_ok max body rs b rs' :
  zlen body <= max -> max < u64_max -> read_unknown max body rs = (Ok b, rs') -> zlen b <= max /\ exists ds, rs = map BodyChunk ds ++ BodyEnd :: rs' /\ b = body ++ concat ds.
Proof.
  intros L M. revert body L. induction rs as [|r rs IH]; intros body L; cbn [read_unknown]; [discriminate|].
  destruct r as [d| | |]; try discriminate.
  - destruct (_ >? _) eqn:G; [discriminate|]. intros E. apply IH in E as (Lb & ds & -> & ->).
    + split; [exact Lb|]. exists (d :: ds). cbn. rewrite <- app_assoc. auto.
    + rewrite zlen_app. destruct (saturating_add_spec (zlen body) (zlen d)); lia.
  - intros [= <- <-]. split; [exact L|]. exists []. cbn. rewrite app_nil_r. auto.
Qed.

(** ** Chunk lines *)

Lemma hex_digit_value d : 0 <= d < 16 -> is_hex (hex_digit d) = true /\ hex_value (hex_digit d) = d /\ graphic (hex_digit d) = true /\ bz (hex_digit d) <> 59 /\ bz (hex_digit d) <> 13.
Proof.
  intros Hd. unfold is_hex, hex_value, hex_digit, is_ascii_digit, graphic, in_range. destruct (d <? 10) eqn:D; [rewrite !(bz_zb (48 + d)) by lia | rewrite !(bz_zb (87 + d)) by lia].
  - replace ((48 <=? 48 + d) && (48 + d <=? 57)) with true by lia. repeat split; lia.
  - replace ((48 <=? 87 + d) && (87 + d <=? 57)) with false by lia. replace ((65 <=? 87 + d) && (87 + d <=? 70)) with false by lia. repeat split; lia.
Qed.
Lemma show_hex_fuel_bytes (P : byte -> Prop) fuel n : (forall d, 0 <= d < 16 -> P (hex_digit d)) -> 0 <= n -> Forall P (show_hex_fuel fuel n).
Proof.
  intros Hd. revert n. induction fuel as [|fuel IH]; intros n Hn; cbn [show_hex_fuel]; [constructor|]. destruct (n <? 16) eqn:E.
  - constructor; [apply Hd; lia | constructor].
  - apply Forall_app. split; [apply IH, Z.div_pos; lia | constructor; [apply Hd, Z.mod_pos_bound; lia | constructor]].
Qed.
Lemma parse_hex_show fuel n max t :
  0 <= n < 16 ^ Z.of_nat fuel -> n <= max -> parse_hex max 0 (show_hex_fuel fuel n ++ t) = parse_hex max n t.
Proof.
  revert n t. induction fuel as [|fuel IH]; intros n t Hn Hm; [replace n with 0 by (cbn in Hn; lia); reflexivity|]. cbn [show_hex_fuel]. destruct (n <? 16) eqn:E.
  - cbn [app parse_hex]. destruct (hex_digit_value n) as (_ & -> & _); [lia|]. cbn. destruct (_ <=? max) eqn:M; [reflexivity | lia].
  - rewrite <- app_assoc. rewrite IH; [|rewrite Nat2Z.inj_succ, Z.pow_succ_r in Hn by lia; split; [apply Z.div_pos; lia | apply Z.div_lt_upper_bound; lia] | pose proof (Z.div_le_upper_bound n 16 n); lia].
    cbn [app parse_hex]. destruct (hex_digit_value (n mod 16)) as (_ & -> & _); [apply Z.mod_pos_bound; lia|].
    pose proof (Z_div_mod_eq_full n 16). replace (n / 16 * 16 + n mod 16) with n by lia. destruct (_ <=? max) eqn:M; [reflexivity | lia].
Qed.
Lemma show_hex_nonempty n : show_hex n <> [].
Proof. unfold show_hex. cbn [show_hex_fuel]. destruct (n <? 16); [discriminate|]. intros E. apply app_eq_nil in E as [_ E]. discriminate. Qed.
Lemma length_show_hex fuel n : (length (show_hex_fuel fuel n) <= fuel)%nat.
Proof. revert n. induction fuel as [|fuel IH]; intros n; cbn [show_hex_fuel]; [cbn; lia|]. destruct (n <? 16); [cbn; lia|]. rewrite length_app. specialize (IH (n / 16)). cbn [length]. lia. Qed.
Lemma Forall_forallb {A} (f : A -> bool) l : Forall (fun x => f x = true) l -> forallb f l = true.
Proof. rewrite List.Forall_forall, forallb_forall. auto. Qed.
Lemma parse_show_hex n : 0 <= n <= u64_max -> parse_chunk_size (show_hex n) = Ok n.
Proof.
  intros Hn. pose proof (show_hex_fuel_bytes (fun b => is_hex b = true /\ graphic b = true /\ bz b <> 59) 16 n) as B. fold (show_hex n) in B.
  assert (Forall (fun b => is_hex b = true /\ graphic b = true /\ bz b <> 59) (show_hex n)) as F.
  { apply B; [|lia]. intros d Hd. destruct (hex_digit_value d Hd) as (? & _ & ? & ? & _). auto. }
  clear B. assert (forallb graphic (show_hex n) = true) as G by (apply Forall_forallb; eapply List.Forall_impl; [|exact F]; tauto).
  assert (forallb is_hex (show_hex n) = true) as X by (apply Forall_forallb; eapply List.Forall_impl; [|exact F]; tauto).
  unfold parse_chunk_size. rewrite utf8_ascii by (apply forallb_forall; rewrite forallb_forall in G; intros x I; specialize (G x I); unfold graphic, in_range in G; lia).
  rewrite split_byte_last.
  - cbn [negb]. rewrite trim_graphic.
    + rewrite bool_decide_eq_false_2 by apply show_hex_nonempty. rewrite X. cbn [negb orb]. unfold show_hex. rewrite <- (app_nil_r (show_hex_fuel 16 n)), parse_hex_show; [reflexivity | | lia].
      change (16 ^ Z.of_nat 16) with (u64_max + 1). lia.
    + destruct (show_hex n); [exact I|]. cbn [forallb] in G. apply andb_true_iff in G. tauto.
    + destruct (rev (show_hex n)) as [|b r] eqn:R; [exact I|]. rewrite forallb_forall in G. apply G, in_rev. rewrite R. left. reflexivity.
  - apply existsb_false. intros x Hx. rewrite List.Forall_forall in F. apply bool_decide_eq_false. intros ->. destruct (F _ Hx) as (_ & _ & N). apply N. reflexivity.
Qed.

(** ** Chunks reach the client whatever the pieces *)

(** Only data, and no more per read than the buffer of 8192 bytes takes. *)
Definition pieces (s : list io) : bool := forallb (fun e => match e with Got (b :: d) => zlen (b :: d) <=? 8192 | _ => false end) s.
Lemma pieces_cons e s : pieces (e :: s) = true -> exists d, e = Got d /\ d <> [] /\ zlen d <= 8192 /\ pieces s = true.
Proof.
  cbn [pieces forallb]. rewrite andb_true_iff. intros [He Hs]. destruct e as [[|b d]| | |]; try discriminate. exists (b :: d).
  repeat split; [discriminate | lia | exact Hs].
Qed.

Section Arrivals.
Variable drained : nat -> bool.
Context (no_drain : forall n, drained n = false).

Lemma available_arrives len n p s :
  pieces s = true -> (len <= length (p ++ inflow s))%nat ->
  exists n' p' s', read_until_available drained len n p s = (Ok true, n', p', s') /\ p' ++ inflow s' = p ++ inflow s /\ pieces s' = true /\ (len <= length p')%nat.
Proof.
  revert n p. induction s as [|e s IH]; intros n p P L; cbn [read_until_available]; destruct (Nat.leb_spec len (length p)); try (eexists _, _, _; repeat split; eauto; fail).
  - cbn [inflow] in L. rewrite app_nil_r in L. lia.
  - rewrite no_drain. apply pieces_cons in P as (d & -> & Ne & _ & P). assert (read_event (Got d) = Ok (Some d)) as -> by (destruct d; [contradiction | reflexivity]).
    cbn [inflow] in *. destruct (IH (S n) (p ++ d) P) as (n' & p' & s' & -> & C & P' & L'); [rewrite <- app_assoc; exact L|].
    exists n', p', s'. rewrite <- app_assoc in C. auto.
Qed.

(** A line of visible characters is found as soon as its end is there, and not before. *)
Lemma position_line l r : one_line l = true -> forall i, position_from crlf (l ++ crlf ++ r) i = Some (i + length l)%nat.
Proof.
  induction l as [|b l IH]; intros Hl i.
  - cbn [app length]. rewrite Nat.add_0_r. reflexivity.
  - cbn [one_line forallb] in Hl. apply andb_true_iff in Hl as [Hb Hl]. cbn [app position_from]. change crlf with [zb 13; zb 10] at 1. cbn [starts_with].
    rewrite bool_decide_eq_false_2 by (intros <-; discriminate). cbn [andb]. rewrite IH by exact Hl. f_equal. cbn [length]. lia.
Qed.
Lemma position_unfinished l p q : one_line l = true -> p ++ q = l ++ [zb 13] -> forall i, position_from crlf p i = None.
Proof.
  revert l. induction p as [|b p IH]; intros l Hl E i; [reflexivity|]. destruct l as [|x l].
  - cbn [app] in E. injection E as -> E. apply app_eq_nil in E as [-> _]. reflexivity.
  - cbn [app] in E. injection E as -> E. cbn [one_line forallb] in Hl. apply andb_true_iff in Hl as [Hb Hl].
    cbn [position_from]. change crlf with [zb 13; zb 10] at 1. cbn [starts_with]. rewrite bool_decide_eq_false_2 by (intros <-; discriminate). cbn [andb].
    eapply IH; eassumption.
Qed.
Lemma app_split {A} (a b c d : list A) : a ++ b = c ++ d -> (length c <= length a)%nat -> exists m, a = c ++ m /\ d = m ++ b.
Proof.
  revert c. induction a as [|x a IH]; intros [|y c] E L; cbn in *; try lia.
  - exists []. auto.
  - exists (x :: a). auto.
  - injection E as -> E. destruct (IH c E) as (m & -> & ->); [lia|]. exists m. auto.
Qed.
Lemma line_arrives l r n p s :
  one_line l = true -> (length l <= 16)%nat -> pieces s = true -> p ++ inflow s = l ++ crlf ++ r ->
  exists n' p' s', read_until_crlf drained n p s = (Ok (Some (length l)), n', l ++ crlf ++ p', s') /\ p' ++ inflow s' = r /\ pieces s' = true.
Proof.
  intros Hl Len. revert n p. induction s as [|e s IH]; intros n p P C.
  - cbn [inflow] in C. rewrite app_nil_r in C. subst p. cbn [read_until_crlf]. rewrite position_line by exact Hl. eexists _, _, _. split; [reflexivity|]. cbn [inflow]. rewrite app_nil_r. auto.
  - assert ((length (l ++ crlf) <= length p)%nat \/ (length p <= length (l ++ [zb 13]))%nat) as [Lp|Lp] by (rewrite !length_app; cbn; lia).
    + rewrite app_assoc in C. destruct (app_split _ _ _ _ C Lp) as (m & -> & ->). rewrite <- app_assoc. cbn [read_until_crlf]. rewrite position_line by exact Hl.
      eexists _, _, _. split; [reflexivity|]. auto.
    + assert (exists q, p ++ q = l ++ [zb 13]) as (q & Eq).
      { replace (l ++ crlf ++ r) with ((l ++ [zb 13]) ++ zb 10 :: r) in C by (rewrite <- app_assoc; reflexivity). symmetry in C.
        destruct (app_split _ _ _ _ C Lp) as (m & E & _). eauto. }
      cbn [read_until_crlf]. rewrite (position_unfinished l p q Hl Eq), no_drain. apply pieces_cons in P as (d & -> & Ne & Ld & P).
      assert (read_event (Got d) = Ok (Some d)) as -> by (destruct d; [contradiction | reflexivity]). cbv zeta.
      destruct (_ >? MAX_RESPONSE_HEADER_BYTES) eqn:G; [unfold zlen, MAX_RESPONSE_HEADER_BYTES in *; rewrite !length_app in *; cbn [length] in Lp; lia|].
      apply IH; [exact P|]. rewrite <- app_assoc. exact C.
Qed.
End Arrivals.

(** A chunk on the wire, as [write_chunks] writes it. *)
Definition chunk_text (c : bytes) : bytes := show_hex (zlen c) ++ crlf ++ c ++ crlf.
Lemma show_hex_line n : 0 <= n -> one_line (show_hex n) = true /\ (length (show_hex n) <= 16)%nat.
Proof.
  intros Hn. split; [|apply length_show_hex]. apply Forall_forallb, show_hex_fuel_bytes; [|exact Hn]. intros d Hd.
  destruct (hex_digit_value d Hd) as (_ & _ & G & _ & C). unfold graphic, in_range in G. apply andb_true_iff. split; apply negb_true_iff, Z.eqb_neq; lia.
Qed.

Section Chunks.
Context {H : Type} `{HeaderLib H}.
Variable max_buffered_bytes : Z.
Variable drained : nat -> bool.
Context (no_drain : forall n, drained n = false).

(** One chunk: what the loop does with it. *)
Lemma chunk_turn fuel n header decoded (st : relay (H := H)) c rest :
  c <> [] -> pending st ++ inflow (sock st) = chunk_text c ++ rest -> pieces (sock st) = true ->
  0 <= decoded -> decoded + zlen c <= MAX_RESPONSE_BYTES -> bytes_streamed (adm st) = decoded -> decoded + zlen c <= max_buffered_bytes ->
  (length (header_writes header) < accepts (sess st))%nat ->
  exists n' p s st', chunk_loop max_buffered_bytes drained (S fuel) n header decoded st = chunk_loop max_buffered_bytes drained fuel n' None (decoded + zlen c) st' /\
    pending st' = p /\ sock st' = s /\ p ++ inflow s = rest /\ pieces s = true /\ bytes_streamed (adm st') = decoded + zlen c /\
    accepts (sess st') = (accepts (sess st) - length (header_writes header) - 1)%nat /\ completed_total (ctrs st') = completed_total (ctrs st) /\
    written (sess st') = written (sess st) ++ header_writes header ++ [DBody (Some c) false].
Proof.
  intros Ne C P D0 D1 B0 B1 A. assert (0 < zlen c) as Zc by (destruct c; [contradiction|]; rewrite zlen_cons; pose proof (zlen_nonneg c); lia).
  unfold chunk_text in C. rewrite <- !app_assoc in C. destruct (show_hex_line (zlen c)) as [Ol Ll]; [lia|].
  destruct (line_arrives drained no_drain _ _ n _ _ Ol Ll P C) as (n1 & p1 & s1 & E1 & C1 & P1). cbn [chunk_loop]. rewrite E1.
  rewrite take_app_length, parse_show_hex by (unfold MAX_RESPONSE_BYTES, u64_max in *; lia).
  replace (drop (length (show_hex (zlen c)) + 2) (show_hex (zlen c) ++ crlf ++ p1)) with p1
    by (rewrite app_assoc, (drop_app_length' (show_hex (zlen c) ++ crlf)) by (rewrite length_app; reflexivity); reflexivity).
  destruct (zlen c =? 0) eqn:Z0; [lia|]. destruct (_ >? u64_max) eqn:Z1; [unfold MAX_RESPONSE_BYTES, u64_max in *; lia|]. cbv zeta.
  destruct (_ >? MAX_RESPONSE_BYTES) eqn:Z2; [lia|].
  unfold on_admission, long_lived_hold, holding, set_rb. cbn [adm ctrs rbuf sock sess].
  rewrite B0. assert (saturating_add decoded (zlen c) = decoded + zlen c) as -> by (unfold saturating_add, MAX_RESPONSE_BYTES, u64_max in *; lia).
  unfold within_buffer. cbn [bytes_streamed]. destruct (_ <=? max_buffered_bytes) eqn:Z3; [|lia]. cbn [negb].
  assert (Z.to_nat (zlen c) = length c) as -> by (unfold zlen; lia).
  destruct (available_arrives drained no_drain (length c + 2) n1 p1 s1 P1) as (n2 & p2 & s2 & -> & C2 & P2 & L2); [rewrite C1, !length_app; cbn; lia|].
  rewrite C1 in C2. replace (c ++ crlf ++ rest) with ((c ++ crlf) ++ rest) in C2 by (rewrite <- app_assoc; reflexivity).
  destruct (app_split _ _ _ _ C2) as (m & -> & ->); [rewrite length_app; exact L2|].
  replace (take 2 (drop (length c) ((c ++ crlf) ++ m))) with crlf by (rewrite <- app_assoc, drop_app_length; reflexivity).
  assert (eq_bytes crlf crlf = true) as -> by reflexivity. cbn [negb].
  replace (take (length c) ((c ++ crlf) ++ m)) with c by (rewrite <- app_assoc, take_app_length; reflexivity).
  replace (drop (length c + 2) ((c ++ crlf) ++ m)) with m by (rewrite (drop_app_length' (c ++ crlf)) by (rewrite length_app; reflexivity); reflexivity).
  rewrite write_after_header_ok by (cbn [sess]; exact A). eexists _, m, s2, _. split; [reflexivity|]. unfold give, pending. cbn. rewrite length_app. cbn [length].
  repeat split; auto. lia.
Qed.
Lemma chunks_relay cs fuel n header decoded (st : relay (H := H)) rest :
  Forall (fun c => c <> []) cs -> pending st ++ inflow (sock st) = concat (map chunk_text cs) ++ last_chunk ++ rest -> pieces (sock st) = true ->
  (length cs < fuel)%nat -> 0 <= decoded -> decoded + total_len cs <= MAX_RESPONSE_BYTES ->
  bytes_streamed (adm st) = decoded -> decoded + total_len cs <= max_buffered_bytes ->
  (length (header_writes header) + length cs < accepts (sess st))%nat ->
  exists st', chunk_loop max_buffered_bytes drained fuel n header decoded st = Some (Ok tt, st') /\
    written (sess st') = written (sess st) ++ header_writes header ++ map (fun c => DBody (Some c) false) cs ++ [DBody None true] /\
    completed (adm st') = true /\ completed_total (ctrs st') = completed_total (ctrs st).
Proof.
  intros F. revert fuel n header decoded st. induction F as [|c cs Ne F IH]; intros fuel n header decoded st C P Lf D0 D1 B0 B1 A; (destruct fuel as [|fuel]; [cbn in Lf; lia|]).
  - cbn [map concat app] in C. assert (last_chunk ++ rest = bs "0" ++ crlf ++ crlf ++ rest) as E by (unfold last_chunk; rewrite <- !app_assoc; reflexivity). rewrite E in C.
    assert (length (bs "0") <= 16)%nat as L0 by (vm_compute; lia).
    destruct (line_arrives drained no_drain (bs "0") (crlf ++ rest) n _ _ eq_refl L0 P C) as (n1 & p1 & s1 & E1 & C1 & P1). cbn [chunk_loop]. rewrite E1.
    rewrite take_app_length. assert (parse_chunk_size (bs "0") = Ok 0) as -> by (vm_compute; reflexivity). cbn [Z.eqb].
    replace (drop (length (bs "0") + 2) (bs "0" ++ crlf ++ p1)) with p1 by reflexivity.
    destruct (available_arrives drained no_drain 2 n1 p1 s1 P1) as (n2 & p2 & s2 & -> & C2 & P2 & L2); [rewrite C1, length_app; cbn; lia|].
    rewrite C1 in C2. destruct (app_split _ _ _ _ C2) as (m & -> & ->); [exact L2|]. assert (eq_bytes (take 2 (crlf ++ m)) crlf = true) as -> by reflexivity.
    unfold finished. rewrite write_after_header_ok by (cbn in A |- *; lia). eexists. split; [reflexivity|].
    unfold on_admission, long_lived_hold, give, holding, set_rb. cbn. auto.
  - cbn [map concat] in C. rewrite <- app_assoc in C. cbn [total_len fold_right] in D1, B1. fold (total_len cs) in D1, B1. pose proof (total_len_nonneg cs). pose proof (zlen_nonneg c).
    cbn [length] in A, Lf.
    destruct (chunk_turn fuel n header decoded st c _ Ne C P D0 ltac:(lia) B0 ltac:(lia) ltac:(lia)) as (n' & p & s & st1 & -> & Ep & Es & C' & P' & B' & A' & T' & W').
    destruct (IH fuel n' None (decoded + zlen c) st1) as (st' & -> & W & Cm & Ct); try (rewrite ?Ep, ?Es; assumption); try lia.
    { rewrite A'. cbn [header_writes length]. lia. }
    exists st'. split; [reflexivity|]. split; [|split; [exact Cm|]].
    + rewrite W, W'. cbn [header_writes map app]. rewrite <- !app_assoc. reflexivity.
    + rewrite Ct. exact T'.
Qed.
End Chunks.

(** ** The head *)

Lemma starts_with_app p s t : (length p <= length s)%nat -> starts_with p (s ++ t) = starts_with p s.
Proof. intros L. rewrite !starts_with_take, take_app_le by exact L. reflexivity. Qed.
(** The first occurrence does not depend on what comes after it. *)
Lemma position_prefix pat p q i pos :
  pat <> [] -> position_from pat (p ++ q) i = Some pos -> position_from pat p i = if (length p <? pos - i + length pat)%nat then None else Some pos.
Proof.
  intros Ne. revert i. induction p as [|b p IH]; intros i E.
  - pose proof (position_bound _ _ _ _ E). destruct pat as [|x pat]; [contradiction|]. cbn [length position_from starts_with]. destruct (_ <? _)%nat eqn:L; [reflexivity|]. apply Nat.ltb_ge in L. lia.
  - cbn [app position_from] in *. destruct (starts_with pat (b :: p ++ q)) eqn:SW.
    + injection E as <-. replace (i - i)%nat with 0%nat by lia. cbn [Nat.add]. destruct (Nat.ltb_spec (length (b :: p)) (length pat)) as [L|L].
      * assert (starts_with pat (b :: p) = false) as ->.
        { apply not_true_iff_false. intros T. rewrite starts_with_take in T. apply eq_bytes_true in T. apply (f_equal (@length byte)) in T. rewrite length_take in T. lia. }
        clear IH SW. assert (forall j, position_from pat p j = None) as N; [|apply N]. cbn [length] in L. induction p as [|y p IHp]; intros j; cbn [position_from].
        -- destruct pat; [contradiction | reflexivity].
        -- assert (starts_with pat (y :: p) = false) as ->; [|apply IHp; cbn [length] in L; lia]. apply not_true_iff_false. intros T. rewrite starts_with_take in T. apply eq_bytes_true in T.
           apply (f_equal (@length byte)) in T. rewrite length_take in T. cbn [length] in *. lia.
      * change (b :: p ++ q) with ((b :: p) ++ q) in SW. rewrite starts_with_app in SW by exact L. rewrite SW. reflexivity.
    + pose proof (position_bound _ _ _ _ E). assert (starts_with pat (b :: p) = false) as ->.
      { apply not_true_iff_false. intros T. change (b :: p ++ q) with ((b :: p) ++ q) in SW. rewrite starts_with_app in SW; [congruence|].
        rewrite starts_with_take in T. apply eq_bytes_true in T. apply (f_equal (@length byte)) in T. rewrite length_take in T. lia. }
      rewrite (IH _ E). replace (length (b :: p) <? pos - i + length pat)%nat with (length p <? pos - S i + length pat)%nat; [reflexivity|]. cbn [length].
      destruct (Nat.ltb_spec (length p) (pos - S i + length pat)), (Nat.ltb_spec (S (length p)) (pos - i + length pat)); lia || reflexivity.
Qed.
Lemma head_arrives he s : forall response,
  pieces s = true -> find_header_end (response ++ inflow s) = Some he -> Z.of_nat he + 4 <= MAX_RESPONSE_HEADER_BYTES -> (length response < he + 4)%nat ->
  exists response' s', read_head_bytes response s = (Ok he, response', s') /\ response' ++ inflow s' = response ++ inflow s /\ pieces s' = true /\ (he + 4 <= length response')%nat.
Proof.
  induction s as [|e s IH]; intros response P F B L.
  - cbn [inflow] in F. rewrite app_nil_r in F. apply position_bound in F. cbn in F. lia.
  - apply pieces_cons in P as (d & -> & Ne & Ld & P). cbn [read_head_bytes inflow] in *. assert (read_event (Got d) = Ok (Some d)) as -> by (destruct d; [contradiction | reflexivity]).
    cbv zeta. rewrite app_assoc in F. destruct (_ >? MAX_RESPONSE_BYTES) eqn:Z0; [unfold zlen, MAX_RESPONSE_BYTES, MAX_RESPONSE_HEADER_BYTES in *; rewrite length_app in Z0; lia|].
    unfold find_header_end in F |- *. assert (crlf ++ crlf <> []) as Nc by discriminate. rewrite (position_prefix _ _ _ _ _ Nc F). change (length (crlf ++ crlf)) with 4%nat. rewrite Nat.sub_0_r.
    destruct (Nat.ltb_spec (length (response ++ d)) (he + 4)) as [L'|L'].
    + destruct (_ >? MAX_RESPONSE_HEADER_BYTES) eqn:Z1; [unfold zlen in Z1; lia|].
      destruct (IH (response ++ d) P F B L') as (r' & s' & E & C & P' & G). rewrite app_assoc. eauto 6.
    + destruct (_ >? MAX_RESPONSE_HEADER_BYTES) eqn:Z1; [lia|]. exists (response ++ d), s. rewrite <- app_assoc. auto.
Qed.

(** ** From the worker to the client *)

Definition stream_headers (hs : list (bytes * bytes)) : list (bytes * bytes) :=
  List.filter writes_header hs ++ [(bs "transfer-encoding", bs "chunked"); (bs "connection", bs "close")].
Definition stream_lines (head : WorkerResponseHead) : list bytes := status_line (clamp_status (head_status head)) :: map hop_line (stream_headers (head_headers head)).
Lemma streamed_head_text head : response_head (head_status head) (head_headers head) Chunked = text (stream_lines head) ++ crlf.
Proof.
  unfold response_head, stream_lines, stream_headers. rewrite written_lines, map_app. cbn [map].
  rewrite (app_comm_cons _ _ (status_line _)), text_app.
  change (text (?a :: ?l)) with ((a ++ crlf) ++ text l). unfold status_line, hop_line. cbn [fst snd].
  change (text []) with (@nil byte). rewrite <- !app_assoc. reflexivity.
Qed.
Lemma streamed_headers_ok hs :
  Forall (fun h => not_blank_ends (snd h) = true /\ utf8 (snd h) = true) (List.filter writes_header hs) -> Forall answer_ok (stream_headers hs).
Proof. intros F. apply Forall_app. split; [apply written_headers_ok, F | repeat constructor]. Qed.
Lemma chunked_lines_ok (line : bytes * bytes -> bytes) hs b rest :
  (forall h, In h hs -> response_line (line h) = Ok h) -> Forall answer_ok hs ->
  Forall (fun h => eq_ignore_case (fst h) (bs "transfer-encoding") = false \/ snd h = bs "chunked") hs ->
  chunked_lines (map line hs ++ rest) b = chunked_lines rest (b || existsb (fun h => eq_ignore_case (fst h) (bs "transfer-encoding")) hs).
Proof.
  intros R A F. revert b. induction hs as [|h hs IH]; intros b; cbn [map app existsb]; [rewrite orb_false_r; reflexivity|].
  apply List.Forall_cons_iff in A as [Ah A]. apply List.Forall_cons_iff in F as [Fh F]. cbn [chunked_lines]. rewrite R by (left; reflexivity). cbn [rbind]. destruct h as [n v]. cbn [fst snd] in *.
  assert (forall b, chunked_lines (map line hs ++ rest) b = chunked_lines rest (b || existsb (fun h => eq_ignore_case (fst h) (bs "transfer-encoding")) hs)) as IH' by (apply IH; auto; intros x Hx; apply R; right; exact Hx).
  destruct (eq_ignore_case n (bs "transfer-encoding")).
  - destruct Fh as [[=]| ->]. assert (utf8 (bs "chunked") = true) as -> by reflexivity. assert (eq_ignore_case (bs "chunked") (bs "chunked") = true) as -> by reflexivity.
    cbn [negb]. rewrite IH', orb_true_r. reflexivity.
  - rewrite IH'. reflexivity.
Qed.
Lemma write_chunks_writes evs : exists l, writes_to (write_chunks evs) l true /\ concat l = concat (map chunk_text (chunks_until_end evs)) /\ (length l = 3 * length (chunks_until_end evs))%nat.
Proof.
  induction evs as [|e evs (l & W & C & L)]; [exists []; split; [apply writes_to_ok | auto]|].
  destruct e as [h|[|b c]|]; cbn [write_chunks chunks_until_end]; [eauto | eauto | |exists []; split; [apply writes_to_ok | auto]].
  exists ([show_hex (zlen (b :: c)) ++ crlf] ++ [b :: c] ++ [crlf] ++ l). split.
  - repeat (apply writes_to_seq; [apply writes_to_all|]). exact W.
  - cbn [app concat map length]. rewrite C. split; [unfold chunk_text; rewrite <- !app_assoc; reflexivity | lia].
Qed.
Lemma chunks_nonempty evs : Forall (fun c => c <> []) (chunks_until_end evs).
Proof. induction evs as [|[h|[|b c]|] evs IH]; cbn [chunks_until_end]; try exact IH; try apply List.Forall_nil. apply List.Forall_cons; [discriminate | exact IH]. Qed.
Lemma chunk_text_long cs : (length cs <= length (concat (map chunk_text cs)))%nat.
Proof. induction cs as [|c cs IH]; cbn [map concat length]; [lia|]. rewrite length_app. unfold chunk_text at 1. rewrite !length_app. change (length crlf) with 2%nat. lia. Qed.
Lemma head_is_chunked init last (hs : list (bytes * bytes)) sl :
  sl :: map hop_line (stream_headers hs) = init ++ [last] -> Forall answer_ok (stream_headers hs) ->
  split_byte lf (text init ++ last) = map (fun x => x ++ [cr]) init ++ [last] -> worker_response_is_chunked (text init ++ last) = Ok true.
Proof.
  intros E A S. unfold worker_response_is_chunked. rewrite S. unfold stream_headers in E. set (hs1 := List.filter writes_header hs ++ [(bs "transfer-encoding", bs "chunked")]).
  replace (List.filter writes_header hs ++ [(bs "transfer-encoding", bs "chunked"); (bs "connection", bs "close")]) with (hs1 ++ [(bs "connection", bs "close")]) in E
    by (unfold hs1; rewrite <- app_assoc; reflexivity).
  rewrite map_app in E. cbn [map] in E. rewrite app_comm_cons in E. apply app_inj_tail in E as [<- <-]. cbn [map app]. rewrite map_map.
  unfold stream_headers in A. replace (List.filter writes_header hs ++ _) with (hs1 ++ [(bs "connection", bs "close")]) in A by (unfold hs1; rewrite <- app_assoc; reflexivity).
  apply Forall_app in A as [A1 _]. rewrite (chunked_lines_ok (fun x => hop_line x ++ [cr])).
  - unfold hs1. rewrite existsb_app. cbn [existsb fst]. assert (eq_ignore_case (bs "transfer-encoding") (bs "transfer-encoding") = true) as -> by reflexivity. rewrite !orb_true_r. vm_compute. reflexivity.
  - intros h Hh. rewrite List.Forall_forall in A1. apply answer_line_facts, A1, Hh.
  - exact A1.
  - unfold hs1. apply Forall_app. split; [|constructor; [right; reflexivity | constructor]]. apply List.Forall_forall. intros h Hh. left.
    apply List.filter_In in Hh as [_ Hw]. apply written_not_framing in Hw. unfold one_of, hop_framing in Hw. cbn [existsb] in Hw. rewrite !orb_false_iff in Hw.
    unfold eq_ignore_case. apply Hw.
Qed.

(** C39. A streamed answer crosses the HTTP hop.  Whatever the worker's Ruby side produces, if
    the status and the values are ones the edge accepts and the sizes are within its limits,
    then the bytes [write_streaming_response] sends, arriving in reads of any size up to the
    edge's buffer, make the edge answer the client with that status, the header values the
    worker kept, exactly the chunks in order and one end of body, and count one completed
    stream.  This is the undisturbed course: no drain begins, the stream is admitted, and the
    worker's socket and the client take every write. *)
Theorem streamed_response_reaches_client {H} `{HeaderLaws H} max_buffered_bytes keepalive evs k0 c (k : session (H := H)) :
  100 <= head_status (fst (first_head evs)) <= 599 ->
  Forall (fun h => not_blank_ends (snd h) = true /\ utf8 (snd h) = true) (List.filter writes_header (head_headers (fst (first_head evs)))) ->
  zlen (text (stream_lines (fst (first_head evs)))) + 2 <= MAX_RESPONSE_HEADER_BYTES ->
  total_len (chunks_until_end (snd (first_head evs))) <= Z.min max_buffered_bytes MAX_RESPONSE_BYTES ->
  (length (chunks_until_end (snd (first_head evs))) + 2 <= accepts k)%nat ->
  (3 * length (chunks_until_end (snd (first_head evs))) + 2 <= room k0)%nat ->
  exists k1 wire_bytes,
    write_streaming_response evs k0 = (k1, true) /\ sent k1 = sent k0 ++ wire_bytes /\
    forall reads, pieces reads = true -> inflow reads = wire_bytes ->
    exists h c' k',
      read_worker_response_and_write max_buffered_bytes keepalive (fun _ => false) true reads c k = Some (Ok (head_status (fst (first_head evs))), c', k') /\
      written k' = written k ++ DHeader h false :: map (fun d => DBody (Some d) false) (chunks_until_end (snd (first_head evs))) ++ [DBody None true] /\
      completed_total c' = incr (completed_total c) /\
      get_all (bs "connection") h = (if keepalive then [] else [bs "close"]) /\
      forall name, name <> bs "connection" -> get_all name h = map snd (List.filter (same_name name) (List.filter writes_header (head_headers (fst (first_head evs))))).
Proof.
  destruct (first_head evs) as [head evs'] eqn:FH. cbn [fst snd]. set (cs := chunks_until_end evs'). intros Hs HF HL HB HA HR.
  destruct (write_chunks_writes evs') as (l & W & C & L). apply streamed_headers_ok in HF.
  assert (writes_to (write_streaming_response evs) ([text (stream_lines head) ++ crlf] ++ l ++ [last_chunk]) true) as WS.
  { unfold write_streaming_response. rewrite FH. unfold write_response_head. rewrite streamed_head_text. apply writes_to_seq; [apply writes_to_all|].
    apply writes_to_seq; [exact W | apply writes_to_all]. }
  eexists. exists ((text (stream_lines head) ++ crlf) ++ concat (map chunk_text cs) ++ last_chunk).
  split; [apply (writes_to_enough _ _ _ k0 WS); rewrite !length_app, L; fold cs; cbn [length]; lia|].
  cbn [sent]. rewrite !concat_app, C. cbn [concat]. rewrite !app_nil_r. split; [reflexivity|]. intros reads P I.
  assert (clamp_status (head_status head) = head_status head) as Cl by (unfold clamp_status; cases_if; [reflexivity | lia]).
  destruct (parse_head_lines_ok (head_status head) (stream_headers (head_headers head)) Hs) as (init & last & h0 & E & Sp & Ph & G0).
  { unfold stream_headers. intros N. apply app_eq_nil in N as [_ N]. discriminate. }
  { exact HF. }
  assert (stream_lines head = init ++ [last]) as SL by (unfold stream_lines; rewrite Cl; exact E).
  assert (Forall (fun x => x <> [] /\ one_line x = true) (stream_lines head)) as LO.
  { unfold stream_lines. rewrite Cl. constructor; [split; [discriminate | apply status_line_one_line; lia]|]. apply Forall_map. eapply List.Forall_impl; [|exact HF].
    intros x Hx. destruct (answer_line_facts x Hx) as (? & ? & _). auto. }
  destruct (cut_message _ _ _ (concat (map chunk_text cs) ++ last_chunk) SL LO) as (he & Fh & Tk & Dr & Ln).
  destruct (head_arrives he reads [] P) as (resp & s' & RH & CI & P' & LR); [cbn [app]; rewrite I; exact Fh | lia | cbn; lia|]. cbn [app] in CI. rewrite I in CI.
  unfold read_worker_response_and_write. rewrite RH.
  assert (take he resp = text init ++ last) as ->. { rewrite <- Tk, <- CI, take_app_le by lia. reflexivity. }
  assert (drop (he + 4) resp ++ inflow s' = concat (map chunk_text cs) ++ last_chunk) as CD. { rewrite <- Dr, <- CI, drop_app_le by lia. reflexivity. }
  rewrite (head_is_chunked init last _ _ E HF Sp). unfold parse_chunked_worker_response_head. rewrite Ph. cbn [rbind].
  destruct (insert_close_ok keepalive h0) as (h1 & -> & G1). cbn [rbind]. unfold stream_chunked_worker_response. cbn [negb].
  set (st := {| adm := new_admission; ctrs := c; rbuf := _; sock := s'; sess := k |}).
  destruct (chunks_relay max_buffered_bytes (fun _ => false) (fun _ => eq_refl) cs (S (length (drop (he + 4) resp ++ inflow s'))) 0 (Some h1) 0 st []) as (st' & R & Wr & Cm & Ct).
  - apply chunks_nonempty.
  - rewrite app_nil_r. exact CD.
  - exact P'.
  - rewrite CD, length_app. pose proof (chunk_text_long cs). lia.
  - lia.
  - lia.
  - reflexivity.
  - lia.
  - cbn [header_writes length st sess]. fold cs in HA. lia.
  - rewrite R. cbn [rbind]. eexists h1, _, _. split; [reflexivity|]. split; [exact Wr|]. split; [|split].
    + unfold long_lived_finish. rewrite Cm. cbn. rewrite Ct. reflexivity.
    + rewrite G1, G0. destruct keepalive; [|reflexivity]. cbn [negb andb]. unfold stream_headers. rewrite values_of_written by reflexivity. rewrite filter_none; [reflexivity|].
      intros x Hx. apply List.filter_In in Hx as [_ Hw]. unfold same_name. apply not_true_iff_false. intros Q%eq_bytes_true. unfold writes_header in Hw. rewrite Q in Hw. discriminate.
    + intros name Nn. rewrite G1, G0. assert (eq_bytes (bs "connection") name = false) as -> by (apply not_true_iff_false; intros Q%eq_bytes_true; congruence).
      rewrite andb_false_r. unfold stream_headers. apply values_of_written. reflexivity.
Qed.
Lemma streamed_response_reaches_client_witness :
  exists k1 wire_bytes, write_streaming_response [EvStart {| head_status := 200; head_headers := [(bs "x-a", bs "1")] |}; EvChunk (bs "he"); EvChunk []; EvChunk (bs "llo"); EvEnd]
      {| sent := []; room := 9 |} = (k1, true) /\ sent k1 = wire_bytes /\
    exists h c' k', read_worker_response_and_write 1000 true (fun _ => false) true (map (fun b => Got [b]) wire_bytes) zero_counters demo_client = Some (Ok 200, c', k') /\
      written k' = [DHeader h false; DBody (Some (bs "he")) false; DBody (Some (bs "llo")) false; DBody None true] /\ get_all (bs "x-a") h = [bs "1"].
Proof.
  destruct (streamed_response_reaches_client 1000 true [EvStart {| head_status := 200; head_headers := [(bs "x-a", bs "1")] |}; EvChunk (bs "he"); EvChunk []; EvChunk (bs "llo"); EvEnd]
      {| sent := []; room := 9 |} zero_counters demo_client) as (k1 & w & E & S & R).
  - vm_compute. split; discriminate.
  - repeat constructor.
  - vm_compute. discriminate.
  - vm_compute. discriminate.
  - vm_compute. lia.
  - vm_compute. lia.
  - exists k1, w. split; [exact E|]. split; [exact S|]. destruct (R (map (fun b => Got [b]) w)) as (h & c' & k' & X & Wr & _ & _ & G).
    + clear. induction w as [|b w IH]; [reflexivity | exact IH].
    + clear. induction w as [|b w IH]; [reflexivity | cbn; f_equal; exact IH].
    + exists h, c', k'. split; [exact X|]. split; [exact Wr | apply (G (bs "x-a")); discriminate].
Defined.
