(* ===== verification/HttpPool.v ===== *)
(** * HttpPool: the HTTP hop over a pool of workers

    What [send_worker_request_to_pool] of [crates/oxo-pingora-edge/src/platform/worker_wire.rs],
    modelled in [HttpClient], guarantees for every behaviour of the workers: the calls end, also
    against a worker that never stops sending, at most one worker sees the request, and the
    answer is that worker's. *)

From S2P Require Import Prelude Text HopFrame Stream WorkerParser WorkerWire Fairness Dispatch FrameClient HttpClient.

(** ** A bounded number of reads *)

(** A worker that keeps sending is a list of reads that can be extended: an outcome is settled
    when it does not change however the list goes on.  [reads] counts the reads; the drain
    flag, which ends a wait but is no read, does not count. *)
Definition is_read (e : io) : bool := match e with DrainSet => false | _ => true end.
Definition reads (s : list io) : Z := zlen (List.filter is_read s).
Lemma reads_cons e s : reads (e :: s) = (if is_read e then 1 else 0) + reads s.
Proof. unfold reads, zlen. cbn [List.filter]. destruct (is_read e); cbn [length]; lia. Qed.
Lemma reads_nonneg s : 0 <= reads s.
Proof. unfold reads, zlen. lia. Qed.
Lemma data_read e d : read_event e = Ok (Some d) -> 1 <= zlen d /\ is_read e = true.
Proof. intros E. apply read_event_data in E as [-> N]. split; [|reflexivity]. unfold zlen. destruct d; [contradiction | cbn; lia]. Qed.

(** The head is found in what was delivered, and the response read so far is within the limit. *)
Lemma head_read s response he response' s' :
  read_head_bytes response s = (Ok he, response', s') ->
  zlen response' <= MAX_RESPONSE_BYTES /\ find_header_end response' = Some he /\ response' ++ inflow s' = response ++ inflow s.
Proof.
  revert response. induction s as [|e s IH]; intros response; cbn [read_head_bytes]; [discriminate|].
  destruct e as [[|b d]| | |]; cbn [read_event]; try discriminate; [|exact (IH response)]. cbn [inflow]. generalize (b :: d) as x. intros x.
  destruct (zlen (response ++ x) >? MAX_RESPONSE_BYTES) eqn:G; [discriminate|]. destruct (find_header_end (response ++ x)) as [h|] eqn:F.
  - destruct (Z.of_nat h >? _); [discriminate|]. intros [= <- <- <-]. rewrite app_assoc. split; [lia | auto].
  - destruct (zlen _ >? MAX_RESPONSE_HEADER_BYTES); [discriminate|]. intros K%IH. rewrite app_assoc. exact K.
Qed.
Lemma rest_read s response full : read_to_end response s = Ok full -> exists m, full = response ++ m /\ exists r, m ++ r = inflow s.
Proof.
  revert response. induction s as [|e s IH]; intros response; cbn [read_to_end]; [intros [= <-]; exists []; rewrite app_nil_r; split; [reflexivity | exists []; reflexivity]|].
  destruct e as [[|b d]| | |]; try discriminate; [intros [= <-]; exists []; rewrite app_nil_r; split; [reflexivity | eexists; reflexivity] | | exact (IH response)].
  destruct (_ >? _); [discriminate|]. intros E. apply IH in E as (m & -> & r & Er). exists ((b :: d) ++ m). rewrite <- app_assoc. split; [reflexivity|]. exists r. cbn [inflow]. rewrite <- Er, app_assoc. reflexivity.
Qed.

Section Readers.
Variable drained : nat -> bool.

Lemma head_settles t s response : zlen response <= MAX_RESPONSE_HEADER_BYTES ->
  let '(r, response', s') := read_head_bytes response s in
  (read_head_bytes response (s ++ t) = (r, response', s' ++ t) /\ reads s <= reads s' + (MAX_RESPONSE_HEADER_BYTES + 1 - zlen response)) \/
  reads s <= MAX_RESPONSE_HEADER_BYTES + 1 - zlen response.
Proof.
  revert response. induction s as [|e s IH]; intros response L; [right; change (reads []) with 0; lia|].
  assert (forall r response', read_head_bytes response ((e :: s) ++ t) = (r, response', s ++ t) ->
    (read_head_bytes response ((e :: s) ++ t) = (r, response', s ++ t) /\ reads (e :: s) <= reads s + (MAX_RESPONSE_HEADER_BYTES + 1 - zlen response)) \/
    reads (e :: s) <= MAX_RESPONSE_HEADER_BYTES + 1 - zlen response) as Here
    by (intros r response' E; left; split; [exact E | rewrite reads_cons; destruct (is_read e); lia]).
  cbn [app read_head_bytes] in *. destruct e as [[|b d]| | |]; try (apply Here; reflexivity).
  2: { specialize (IH response L). destruct (read_head_bytes response s) as [[r response'] s']. rewrite reads_cons. cbn [is_read]. exact IH. }
  cbn [read_event] in *. set (x := b :: d) in *. assert (1 <= zlen x) as Lx by (unfold x, zlen; cbn; lia).
  destruct (zlen (response ++ x) >? MAX_RESPONSE_BYTES); [apply Here; reflexivity|].
  destruct (find_header_end (response ++ x)) as [he|].
  - destruct (_ >? _); apply Here; reflexivity.
  - destruct (zlen (response ++ x) >? MAX_RESPONSE_HEADER_BYTES) eqn:G; [apply Here; reflexivity|]. rewrite zlen_app in *.
    specialize (IH (response ++ x)). rewrite zlen_app in IH. specialize (IH ltac:(lia)). destruct (read_head_bytes (response ++ x) s) as [[r response'] s'].
    rewrite reads_cons. cbn [is_read]. destruct IH as [[E B]|B]; [left; split; [exact E | lia] | right; lia].
Qed.
Lemma end_settles t s response : zlen response <= MAX_RESPONSE_BYTES ->
  read_to_end response (s ++ t) = read_to_end response s \/ reads s <= MAX_RESPONSE_BYTES - zlen response.
Proof.
  revert response. induction s as [|e s IH]; intros response L; [right; change (reads []) with 0; lia|]. rewrite reads_cons. cbn [app read_to_end].
  destruct e as [[|b d]| | |]; try (left; reflexivity); [|exact (IH response L)].
  destruct (zlen (response ++ b :: d) >? MAX_RESPONSE_BYTES) eqn:G; [left; reflexivity|]. destruct (IH (response ++ b :: d)) as [E|B]; [lia | left; exact E|].
  right. rewrite zlen_app in B. assert (1 <= zlen (b :: d)) by (unfold zlen; cbn; lia). cbn [is_read]. lia.
Qed.
Lemma line_settles t s n p :
  let '(r, n', p', s') := read_until_crlf drained n p s in
  (read_until_crlf drained n p (s ++ t) = (r, n', p', s' ++ t) /\ reads s <= reads s' + Z.max 1 (MAX_RESPONSE_HEADER_BYTES + 1 - zlen p)) \/
  reads s <= Z.max 1 (MAX_RESPONSE_HEADER_BYTES + 1 - zlen p).
Proof.
  revert n p. induction s as [|e s IH]; intros n p.
  - destruct (read_until_crlf drained n p []) as [[[r n'] p'] s']. right. change (reads []) with 0. lia.
  - cbn [app read_until_crlf]. destruct (position_from crlf p 0); [left; split; [reflexivity | lia]|]. destruct (drained n); [left; split; [reflexivity | lia]|].
    rewrite reads_cons. destruct (read_event e) as [[d|]|] eqn:E; try (left; split; [reflexivity | destruct (is_read e); lia]).
    apply data_read in E as [Ld ->]. cbv zeta. destruct (zlen (p ++ d) >? MAX_RESPONSE_HEADER_BYTES) eqn:G; [left; split; [reflexivity | lia]|].
    specialize (IH (S n) (p ++ d)). rewrite zlen_app in *. destruct (read_until_crlf drained (S n) (p ++ d) s) as [[[r n'] p'] s'].
    destruct IH as [[E B]|B]; [left; split; [exact E | lia] | right; lia].
Qed.
Lemma available_settles t len s n p :
  let '(r, n', p', s') := read_until_available drained len n p s in
  (read_until_available drained len n p (s ++ t) = (r, n', p', s' ++ t) /\ reads s <= reads s' + Z.max 0 (Z.of_nat len - zlen p)) \/
  reads s <= Z.max 0 (Z.of_nat len - zlen p).
Proof.
  revert n p. induction s as [|e s IH]; intros n p.
  - destruct (read_until_available drained len n p []) as [[[r n'] p'] s']. right. change (reads []) with 0. lia.
  - cbn [app read_until_available]. destruct (Nat.leb_spec len (length p)) as [Le|Lt]; [left; split; [reflexivity | lia]|]. destruct (drained n); [left; split; [reflexivity | lia]|].
    assert (zlen p < Z.of_nat len) as Lp by (unfold zlen; lia).
    rewrite reads_cons. destruct (read_event e) as [[d|]|] eqn:E; try (left; split; [reflexivity | destruct (is_read e); lia]).
    apply data_read in E as [Ld ->]. specialize (IH (S n) (p ++ d)). rewrite zlen_app in *.
    destruct (read_until_available drained len (S n) (p ++ d) s) as [[[r n'] p'] s']. destruct IH as [[E B]|B]; [left; split; [exact E | lia] | right; lia].
Qed.
End Readers.

(** The state of a relay whose socket has more to come. *)
Section More.
Context {H : Type} `{HeaderLib H}.
Definition more (t : list io) (st : relay (H := H)) : relay := set_rb st (rbuf st) (sock st ++ t).
Lemma admission_more t o (st : relay (H := H)) : on_admission o (more t st) = more t (on_admission o st).
Proof. unfold on_admission. change (adm (more t st), ctrs (more t st)) with (adm st, ctrs st). destruct (long_lived_hold o (adm st, ctrs st)). reflexivity. Qed.
Lemma write_more t header body end_ (st : relay (H := H)) :
  write_after_header header body end_ (more t st) = let '(r, st') := write_after_header header body end_ st in (r, more t st').
Proof.
  assert (forall w (x : relay (H := H)), write_long_lived w (more t x) = let '(r, x') := write_long_lived w x in (r, more t x')) as W.
  { intros w x. unfold write_long_lived. change (sess (more t x)) with (sess x). destruct (session_write w (sess x)) as [[u|e] k]; [|rewrite admission_more]; reflexivity. }
  unfold write_after_header. destruct header as [h|]; [|apply W]. rewrite W. destruct (write_long_lived (DHeader h false) st) as [[u|e] st']; [apply W | reflexivity].
Qed.
Lemma holding_more t p s (st : relay (H := H)) : holding p (s ++ t) (more t st) = more t (holding p s st).
Proof. reflexivity. Qed.
Lemma finished_more t o header (st : relay (H := H)) : finished o header (more t st) = let '(r, st') := finished o header st in (r, more t st').
Proof. unfold finished. rewrite write_more. destruct (write_after_header header None true st) as [[u|e] st']; [rewrite admission_more; reflexivity | reflexivity]. Qed.
End More.

Lemma parse_hex_nonneg max s acc n : forallb is_hex s = true -> 0 <= acc -> parse_hex max acc s = Some n -> 0 <= n.
Proof.
  revert acc. induction s as [|b s IH]; intros acc F A; cbn [parse_hex]; [intros [= <-]; exact A|]. cbn [forallb] in F. apply andb_true_iff in F as [Fb F].
  destruct (_ <=? max); [|discriminate]. apply IH; [exact F|]. assert (0 <= hex_value b); [|lia].
  unfold is_hex, hex_value, is_ascii_digit, in_range in *. destruct ((48 <=? bz b) && (bz b <=? 57)) eqn:D; [lia|]. destruct ((65 <=? bz b) && (bz b <=? 70)) eqn:U; lia.
Qed.
Lemma chunk_size_nonneg line size : parse_chunk_size line = Ok size -> 0 <= size.
Proof.
  unfold parse_chunk_size. destruct (negb (utf8 line)); [discriminate|]. cbv zeta. set (x := trim _). destruct (forallb is_hex x) eqn:F; [|rewrite orb_true_r; discriminate].
  destruct (bool_decide (x = [])); [discriminate|]. cbn. intros E. apply ok_or_ok in E. eapply parse_hex_nonneg; [exact F | | exact E]. lia.
Qed.

Section Relay.
Context {H : Type} `{HeaderLib H}.
Variable max_buffered_bytes : Z.
Variable drained : nat -> bool.

(** What a response of at most [MAX_RESPONSE_BYTES] decoded bytes can take: a line and its data
    for each byte, and the last line. *)
Definition chunk_reads (decoded : Z) : Z := (MAX_RESPONSE_BYTES - decoded + 1) * (MAX_RESPONSE_HEADER_BYTES + 4).
Lemma chunk_loop_settles t fuel n header decoded (st : relay (H := H)) fuel' :
  (length (pending st ++ inflow (sock st)) < fuel)%nat -> (length (pending st ++ inflow (sock st ++ t)) < fuel')%nat -> 0 <= decoded <= MAX_RESPONSE_BYTES ->
  chunk_loop max_buffered_bytes drained fuel' n header decoded (more t st) =
    (fun x => (fst x, more t (snd x))) <$> chunk_loop max_buffered_bytes drained fuel n header decoded st \/
  reads (sock st) <= chunk_reads decoded.
Proof.
  revert n header decoded st fuel'. induction fuel as [|fuel IH]; intros n header decoded st fuel' L L' Hd; [lia|]. destruct fuel' as [|fuel']; [lia|]. cbn [chunk_loop].
  change (pending (more t st)) with (pending st). change (sock (more t st)) with (sock st ++ t).
  pose proof (line_settles drained t (sock st) n (pending st)) as S1. destruct (read_until_crlf drained n (pending st) (sock st)) as [[[r n1] p1] s1] eqn:E1.
  assert (0 <= zlen (pending st)) as Lz by (unfold zlen; lia).
  destruct S1 as [[S1 B1]|B1]; [rewrite S1 | right; unfold chunk_reads, MAX_RESPONSE_HEADER_BYTES, MAX_RESPONSE_BYTES in *; lia].
  assert (length (p1 ++ inflow s1) <= length (pending st ++ inflow (sock st)))%nat as K1 by (eapply crlf_read_keeps, E1).
  assert (length (p1 ++ inflow (s1 ++ t)) <= length (pending st ++ inflow (sock st ++ t)))%nat as K1' by (eapply crlf_read_keeps, S1).
  destruct r as [[pos|]|e]; [|left; rewrite !holding_more; unfold finish_drained_chunked_response; rewrite finished_more; destruct (finished _ _ _); reflexivity | left; reflexivity].
  pose proof (crlf_read_found _ _ _ _ _ _ _ _ E1) as Pos. destruct (parse_chunk_size (take pos p1)) as [size|] eqn:Cs; [|left; reflexivity]. apply chunk_size_nonneg in Cs.
  destruct (size =? 0) eqn:Z0.
  - pose proof (available_settles drained t 2 s1 n1 (drop (pos + 2) p1)) as S2. destruct (read_until_available drained 2 n1 _ s1) as [[[r2 n2] p2] s2].
    assert (0 <= zlen (drop (pos + 2) p1)) by (unfold zlen; lia).
    destruct S2 as [[S2 B2]|B2]; [rewrite S2 | right; unfold chunk_reads, MAX_RESPONSE_HEADER_BYTES, MAX_RESPONSE_BYTES in *; lia].
    left. rewrite !holding_more. destruct r2 as [[]|]; [| |reflexivity].
    + destruct (eq_bytes (take 2 p2) crlf); [|reflexivity]. rewrite finished_more. destruct (finished _ _ _). reflexivity.
    + unfold finish_drained_chunked_response. rewrite finished_more. destruct (finished _ _ _). reflexivity.
  - destruct (_ >? u64_max); [left; reflexivity|]. cbv zeta. destruct (decoded + size >? MAX_RESPONSE_BYTES) eqn:Mx; [left; reflexivity|].
    rewrite !holding_more, admission_more. cbn [adm more set_rb]. destruct (negb (within_buffer _ _)); [left; reflexivity|].
    pose proof (available_settles drained t (Z.to_nat size + 2) s1 n1 (drop (pos + 2) p1)) as S2.
    destruct (read_until_available drained (Z.to_nat size + 2) n1 _ s1) as [[[r2 n2] p2] s2] eqn:E2.
    assert (0 <= zlen (drop (pos + 2) p1)) by (unfold zlen; lia).
    destruct S2 as [[S2 B2]|B2]; [rewrite S2 | right; unfold chunk_reads, MAX_RESPONSE_HEADER_BYTES, MAX_RESPONSE_BYTES in *; nia].
    pose proof (available_read_keeps _ _ _ _ _ _ _ _ _ E2) as K2. pose proof (available_read_keeps _ _ _ _ _ _ _ _ _ S2) as K2'.
    rewrite !holding_more. destruct r2 as [[]|]; [| |left; reflexivity].
    2: { left. unfold finish_drained_chunked_response. rewrite finished_more. destruct (finished _ _ _). reflexivity. }
    destruct (negb (eq_bytes _ crlf)); [left; reflexivity|]. rewrite ?holding_more, write_more.
    destruct (write_after_header _ _ _ _) as [[u|e] st3] eqn:E3; [|left; reflexivity]. apply write_after_header_io in E3 as [B S]. cbn [holding set_rb rbuf sock] in B, S.
    destruct (IH n2 None (decoded + size) st3 fuel') as [E|Bd].
    + unfold pending. rewrite B, S. cbn [rb_buf]. rewrite !length_app, length_drop in *. lia.
    + unfold pending. rewrite B, S. cbn [rb_buf]. rewrite !length_app, length_drop in *. lia.
    + lia.
    + left. exact E.
    + right. rewrite S in Bd. unfold chunk_reads, MAX_RESPONSE_HEADER_BYTES, MAX_RESPONSE_BYTES in *. nia.
Qed.

(** After this many reads an answer is over, whatever the worker goes on sending. *)
Definition READ_LIMIT : Z := (MAX_RESPONSE_BYTES + 2) * (MAX_RESPONSE_HEADER_BYTES + 4).
Lemma answer_settles keepalive admitted t s c (k : session (H := H)) :
  READ_LIMIT < reads s ->
  read_worker_response_and_write max_buffered_bytes keepalive drained admitted (s ++ t) c k = read_worker_response_and_write max_buffered_bytes keepalive drained admitted s c k.
Proof.
  intros L. unfold read_worker_response_and_write. pose proof (head_settles t s [] ltac:(discriminate)) as S.
  destruct (read_head_bytes [] s) as [[r response] s'] eqn:E. change (zlen []) with 0 in S. unfold READ_LIMIT in L.
  destruct S as [[-> B]|B]; [|unfold MAX_RESPONSE_HEADER_BYTES, MAX_RESPONSE_BYTES in *; lia].
  destruct r as [he|e]; [|reflexivity]. destruct (worker_response_is_chunked _) as [[]|]; [| |reflexivity].
  - destruct (parse_chunked_worker_response_head _ _) as [[h status]|]; [|reflexivity]. unfold stream_chunked_worker_response. destruct admitted; [|reflexivity]. cbn [negb].
    set (st := {| adm := new_admission; ctrs := c; rbuf := _; sock := s'; sess := k |}).
    change {| adm := new_admission; ctrs := c; rbuf := {| rb_buf := drop (he + 4) response; rb_pos := 0 |}; sock := s' ++ t; sess := k |} with (more t st).
    destruct (chunk_loop_settles t (S (length (drop (he + 4) response ++ inflow s'))) 0 (Some h) 0 st (S (length (drop (he + 4) response ++ inflow (s' ++ t))))) as [->|Bd].
    + cbn [pending st rbuf rb_buf sock]. lia.
    + cbn [pending st rbuf rb_buf sock]. lia.
    + unfold MAX_RESPONSE_BYTES. lia.
    + destruct (chunk_loop _ _ _ 0 (Some h) 0 st) as [[r st']|]; reflexivity.
    + exfalso. cbn [st sock] in Bd. unfold chunk_reads, MAX_RESPONSE_HEADER_BYTES, MAX_RESPONSE_BYTES in *. lia.
  - destruct (end_settles t s' response) as [->|Bd]; [apply (head_read _ _ _ _ _ E) | reflexivity|]. exfalso. pose proof (zlen_nonneg response). unfold MAX_RESPONSE_HEADER_BYTES, MAX_RESPONSE_BYTES in *. lia.
Qed.
End Relay.

(** ** The answer is what the worker said *)

(** The status of a status line: its first word is the protocol, the second the number. *)
Definition says_status (line : bytes) (status : Z) : Prop :=
  exists rest c rest', next_word line = Some (bs "HTTP/1.1", rest) /\ next_word rest = Some (c, rest') /\ parse_uint u16_max c = Some status /\ 100 <= status <= 599.
(** The delivered bytes begin with a head whose first line gives the status. *)
Definition answers_with (delivered : bytes) (status : Z) : Prop :=
  exists head rest line lines, delivered = head ++ crlf ++ crlf ++ rest /\ split_byte lf head = line :: lines /\ says_status (strip_trailing_cr line) status.

Lemma status_line_says line status : parse_status_line line = Ok status -> says_status line status.
Proof.
  unfold parse_status_line. destruct (negb (utf8 line)); [discriminate|]. destruct (next_word line) as [[w rest]|] eqn:N1; [|discriminate].
  destruct (eq_bytes w (bs "HTTP/1.1")) eqn:E; [|discriminate]. cbn [negb]. apply eq_bytes_true in E. subst w. destruct (next_word rest) as [[c rest']|] eqn:N2; [|discriminate].
  intros K. apply rbind_ok in K as (code & C & K). apply ok_or_ok in C. destruct (_ && _) eqn:R; [|discriminate]. injection K as <-. exists rest, c, rest'.
  rewrite N1, N2. split; [reflexivity|]. split; [reflexivity|]. split; [exact C | lia].
Qed.
Lemma position_found p s i pos : position_from p s i = Some pos -> exists rest, s = take (pos - i) s ++ p ++ rest.
Proof.
  revert i. induction s as [|b s IH]; intros i; cbn [position_from]; destruct (starts_with p _) eqn:S; try discriminate.
  - intros [= <-]. rewrite starts_with_take in S. apply eq_bytes_true in S. rewrite take_nil in S. subst p. exists []. rewrite take_nil. reflexivity.
  - intros [= <-]. rewrite Nat.sub_diag. rewrite starts_with_take in S. apply eq_bytes_true in S. exists (drop (length p) (b :: s)). cbn [take app]. transitivity (take (length p) (b :: s) ++ drop (length p) (b :: s)); [symmetry; apply take_drop | rewrite S; reflexivity].
  - intros E. pose proof (position_bound _ _ _ _ E). destruct (IH _ E) as (rest & R). exists rest. replace (pos - i)%nat with (Datatypes.S (pos - Datatypes.S i)) by lia. cbn [take app]. f_equal. exact R.
Qed.

Section Answer.
Context {H : Type} `{HeaderLib H}.
Variable max_buffered_bytes : Z.
Variables (keepalive : bool) (drained : nat -> bool).

Lemma head_says head (header : H) status : parse_response_head head = Ok (header, status) -> exists line lines, split_byte lf head = line :: lines /\ says_status (strip_trailing_cr line) status.
Proof.
  unfold parse_response_head. destruct (split_byte lf head) as [|line lines]; [discriminate|]. intros E. apply rbind_ok in E as (st & P & E). apply rbind_ok in E as (h & _ & E).
  apply rbind_ok in E as (h' & _ & E). injection E as _ <-. exists line, lines. split; [reflexivity | apply status_line_says, P].
Qed.
Lemma found_head_says response he (header : H) status more :
  find_header_end response = Some he -> parse_response_head (take he response) = Ok (header, status) -> answers_with (response ++ more) status.
Proof.
  intros F P. apply position_found in F as (rest & E). rewrite Nat.sub_0_r in E. destruct (head_says _ _ _ P) as (line & lines & S & Sa).
  exists (take he response), (rest ++ more), line, lines. split; [|auto]. rewrite E at 1. rewrite <- !app_assoc. reflexivity.
Qed.
Lemma answer_status admitted s c (k : session (H := H)) status c' k' :
  read_worker_response_and_write max_buffered_bytes keepalive drained admitted s c k = Some (Ok status, c', k') -> answers_with (inflow s) status.
Proof.
  unfold read_worker_response_and_write. destruct (read_head_bytes [] s) as [[r response] s'] eqn:E. destruct r as [he|]; [|discriminate].
  apply head_read in E as (_ & F & I). cbn [app] in I. rewrite <- I. destruct (worker_response_is_chunked _) as [[]|]; [| |discriminate].
  - destruct (parse_chunked_worker_response_head _ _) as [[h st]|] eqn:P; [|discriminate]. unfold parse_chunked_worker_response_head in P.
    apply rbind_ok in P as ([h0 st0] & P & K). apply rbind_ok in K as (h1 & _ & K). injection K as _ <-.
    destruct (stream_chunked_worker_response _ _ _ _ _ _ _) as [[[[u|e] c1] k1]|]; [|discriminate|discriminate]. intros [= <- _ _]. eapply found_head_says; eassumption.
  - destruct (read_to_end response s') as [full|] eqn:R; [|discriminate]. apply rest_read in R as (m & -> & r & Er). cbn [rbind]. unfold parse_worker_response.
    destruct (find_header_end (response ++ m)) as [he'|] eqn:F'; [|discriminate]. cbn [ok_or rbind]. destruct (_ || _); [discriminate|].
    destruct (parse_response_head _) as [[h st]|] eqn:P; [|discriminate]. cbn [rbind]. destruct (ok_or _ _) as [h1|]; [|discriminate]. cbn [rbind]. destruct (insert_close _ h1) as [h2|]; [|discriminate]. cbn [rbind].
    unfold write_downstream_response. cbn [er_header er_body er_status]. destruct (session_write _ k) as [[u|] k1]; [|discriminate]. destruct (session_write _ k1) as [[u'|] k2]; [|discriminate].
    intros [= <- _ _]. rewrite <- Er, app_assoc. eapply found_head_says; eassumption.
Qed.
End Answer.

(** ** At most one worker sees the request *)

Section Once.
Context {H : Type} `{HeaderLib H}.
Variables (max_buffered_bytes : Z) (keepalive : bool).

Definition connects (t : http_attempt) : Prop := ha_drained t = false /\ ha_link t <> None.
Definition refuses (t : http_attempt) : Prop := ha_drained t = false /\ ha_link t = None.

(** The answer of an exchange with a worker: its status, the counters and the session after it
    are those of reading this worker's connection, which delivered a head with that status. *)
Definition answered_by (t : http_attempt) (c : LongLivedCounters) (k : session (H := H)) (status : Z) (c' : LongLivedCounters) (k' : session (H := H)) : Prop :=
  exists l, ha_link t = Some l /\ hl_write_ok l = true /\ hl_shutdown_ok l = true /\
    read_worker_response_and_write max_buffered_bytes keepalive (hl_drained l) (hl_admitted l) (hl_reads l) c k = Some (Ok status, c', k') /\
    answers_with (inflow (hl_reads l)) status.
Lemma send_ends t c (k : session (H := H)) :
  exists r c' k', send_worker_request max_buffered_bytes keepalive t c k = Some (r, c', k') /\ (r = Err NotConnected <-> refuses t) /\
    (ha_drained t = true -> r = Err (AfterWriting 503)) /\ (refuses t -> c' = c /\ k' = k) /\ (forall status, r = Ok status -> answered_by t c k status c' k').
Proof.
  unfold send_worker_request, refuses. destruct (ha_drained t).
  - eexists _, _, _. split; [reflexivity|]. split; [split; [discriminate | intros [[=] _]]|]. split; [reflexivity|]. split; [auto | discriminate].
  - destruct (ha_link t) as [l|] eqn:L.
    + destruct (hl_write_ok l) eqn:Wr; [|eexists _, _, _; split; [reflexivity|]; split; [split; [discriminate | intros [_ [=]]] | split; [discriminate | split; [auto | discriminate]]]].
      destruct (hl_shutdown_ok l) eqn:Sd; [|eexists _, _, _; split; [reflexivity|]; split; [split; [discriminate | intros [_ [=]]] | split; [discriminate | split; [auto | discriminate]]]].
      cbn [negb orb]. destruct (answer_ends max_buffered_bytes (hl_drained l) keepalive (hl_admitted l) (hl_reads l) c k) as (r & c' & k' & E). rewrite E.
      eexists _, _, _. split; [reflexivity|]. split; [split; [destruct r; discriminate | intros [_ [=]]]|]. split; [discriminate|]. split; [intros [_ [=]]|].
      intros status. destruct r as [st|]; [|discriminate]. intros [= ->]. exists l. split; [exact L|]. split; [exact Wr|]. split; [exact Sd|]. split; [exact E | eapply answer_status, E].
    + eexists _, _, _. split; [reflexivity|]. split; [split; auto|]. split; [discriminate|]. split; [auto | discriminate].
Qed.
Lemma try_workers_once order env c (k : session (H := H)) :
  exists r reached c' k', try_workers max_buffered_bytes keepalive order env c k = Some (r, reached, c', k') /\
    ((exists pre w post, order = pre ++ w :: post /\ Forall (fun v => refuses (env v)) pre /\ ~ refuses (env w) /\
        ((connects (env w) /\ reached = [w] /\ forall status, r = Ok status -> answered_by (env w) c k status c' k') \/
         (ha_drained (env w) = true /\ reached = [] /\ r = Err 503))) \/
     (Forall (fun v => refuses (env v)) order /\ reached = [] /\ r = Err 503)).
Proof.
  revert c k. induction order as [|w order IH]; intros c k; cbn [try_workers].
  - eexists _, _, _, _. split; [reflexivity|]. right. auto.
  - destruct (send_ends (env w) c k) as (r & c1 & k1 & -> & N & D & Same & Ans). assert (r = Err NotConnected \/ r <> Err NotConnected) as [->|Ne] by (destruct r as [|[|]]; auto; right; discriminate).
    { pose proof (proj1 N eq_refl) as R. destruct (Same R) as [-> ->]. destruct (IH c k) as (r & reached & c' & k' & -> & Cases). eexists _, _, _, _. split; [reflexivity|].
      destruct Cases as [(pre & w' & post & -> & F & C)|(F & C)]; [left; exists (w :: pre), w', post | right]; auto. }
    rewrite N in Ne. exists (match r with Ok st => Ok st | Err (AfterWriting st) => Err st | Err NotConnected => Err 503 end), (reached_by w (env w)), c1, k1.
    split; [destruct r as [st|[|st]]; [reflexivity | exfalso; apply Ne, N; reflexivity | reflexivity]|].
    left. exists [], w, order. split; [reflexivity|]. split; [constructor|]. split; [exact Ne|]. unfold reached_by, connects, refuses in *. destruct (ha_drained (env w)) eqn:Dr.
    + right. rewrite (D eq_refl). auto.
    + left. destruct (ha_link (env w)); [|exfalso; auto]. split; [split; [reflexivity | discriminate]|]. split; [reflexivity|].
      intros status E. apply Ans. destruct r as [st|[]]; [|discriminate..]. injection E as ->. reflexivity.
Qed.

(** Workers that have more to send than was looked at. *)
Definition extended (t : list io) (a : http_attempt) : http_attempt :=
  {| ha_drained := ha_drained a;
     ha_link := (fun l => {| hl_write_ok := hl_write_ok l; hl_shutdown_ok := hl_shutdown_ok l; hl_reads := hl_reads l ++ t; hl_admitted := hl_admitted l; hl_drained := hl_drained l |}) <$> ha_link a |}.
Lemma try_workers_settle order env tails c (k : session (H := H)) :
  (forall w l, ha_link (env w) = Some l -> READ_LIMIT < reads (hl_reads l)) ->
  try_workers max_buffered_bytes keepalive order (fun w => extended (tails w) (env w)) c k = try_workers max_buffered_bytes keepalive order env c k.
Proof.
  intros Long. revert c k. induction order as [|w order IH]; intros c k; [reflexivity|]. cbn [try_workers].
  assert (send_worker_request max_buffered_bytes keepalive (extended (tails w) (env w)) c k = send_worker_request max_buffered_bytes keepalive (env w) c k) as ->.
  { unfold send_worker_request, extended. cbn [ha_drained ha_link]. destruct (ha_drained (env w)); [reflexivity|]. specialize (Long w). destruct (ha_link (env w)) as [l|]; [|reflexivity].
    cbn [fmap option_fmap option_map hl_write_ok hl_shutdown_ok hl_reads hl_admitted hl_drained]. rewrite answer_settles by (apply Long; reflexivity). reflexivity. }
  assert (reached_by w (extended (tails w) (env w)) = reached_by w (env w)) as -> by (unfold reached_by, extended; cbn [ha_drained ha_link]; destruct (ha_link (env w)); reflexivity).
  destruct (send_worker_request _ _ (env w) c k) as [[[[st|[|st]] c1] k1]|]; auto.
Qed.

(** C38. The HTTP hop always ends, a request is given to at most one worker, and the answer is that
    worker's.  For every fleet, starting point and behaviour of the workers and the client,
    [send_worker_request_to_pool] returns; at most one worker can have received bytes of the
    request; every worker before it in the rotation refused the connection; when the call
    succeeds with a status, a worker was reached, its connection delivered a head whose status
    line says that status, and the status and what the client's session was given are those of
    reading that connection; and when a worker accepts and no drain has begun, one is reached.
    No worker can keep the call from ending by sending without end: once each connection has
    delivered more reads than the response limits allow, nothing that follows is looked at, so
    the outcome is the same however the connections go on. *)
Theorem http_request_reaches_one_worker workers next env c (k : session (H := H)) :
  exists r reached c' k', send_worker_request_to_pool max_buffered_bytes keepalive workers next env c k = Some (r, reached, c', k') /\
    (length reached <= 1)%nat /\
    (forall w, In w reached -> (w < workers)%nat /\ connects (env w) /\
       exists pre post, rotation (next mod workers) workers workers = pre ++ w :: post /\ Forall (fun v => refuses (env v)) pre) /\
    (reached = [] -> r = Err 503) /\
    (forall status, r = Ok status -> exists w, reached = [w] /\ answered_by (env w) c k status c' k') /\
    ((forall w, (w < workers)%nat -> ha_drained (env w) = false) -> (exists w, (w < workers)%nat /\ connects (env w)) -> reached <> []) /\
    (forall tails, (forall w l, ha_link (env w) = Some l -> READ_LIMIT < reads (hl_reads l)) ->
       send_worker_request_to_pool max_buffered_bytes keepalive workers next (fun w => extended (tails w) (env w)) c k = Some (r, reached, c', k')).
Proof.
  unfold send_worker_request_to_pool. destruct (Nat.eqb_spec workers 0) as [->|Ne].
  - eexists _, _, _, _. split; [reflexivity|]. split; [cbn; lia|]. split; [intros w []|]. split; [reflexivity|]. split; [discriminate|]. split; [intros _ (w & L & _); lia | reflexivity].
  - set (order := rotation _ _ _).
    assert (forall w, In w order <-> (w < workers)%nat) as M by (intros w; apply rotation_in; lia).
    destruct (try_workers_once order env c k) as (r & reached & c' & k' & E0 & Cases). exists r, reached, c', k'. rewrite E0. split; [reflexivity|].
    assert (forall tails, (forall w l, ha_link (env w) = Some l -> READ_LIMIT < reads (hl_reads l)) ->
      try_workers max_buffered_bytes keepalive order (fun w => extended (tails w) (env w)) c k = Some (r, reached, c', k')) as Settle
      by (intros tails Long; rewrite try_workers_settle by exact Long; exact E0).
    destruct Cases as [(pre & w & post & E & F & NR & [(C & -> & A)|(D & -> & ->)])|(F & -> & ->)].
    + split; [cbn; lia|]. split; [intros v [<-|[]]; split; [apply M; rewrite E; apply in_or_app; right; left; reflexivity | eauto]|].
      split; [discriminate|]. split; [eauto|]. split; [discriminate | exact Settle].
    + split; [cbn; lia|]. split; [intros v []|]. split; [reflexivity|]. split; [discriminate|]. split; [|exact Settle].
      intros A _ _. rewrite A in D; [discriminate | apply M; rewrite E; apply in_or_app; right; left; reflexivity].
    + split; [cbn; lia|]. split; [intros v []|]. split; [reflexivity|]. split; [discriminate|]. split; [|exact Settle].
      intros _ (w & L & [_ C]) _. apply M in L. rewrite List.Forall_forall in F. apply F in L as [_ N]. contradiction.
Qed.
End Once.
