(* ===== verification/IpText.v ===== *)
(** * IpText: addresses as text

    What the edge uses of [std::net]: parsing and printing of [IpAddr] and [SocketAddr].
    The parser follows the recursive descent of the standard library, a function from the
    remaining input to a value and the rest; an IPv6 address is written with the longest run
    of zero groups compressed.  The theorems of this file are the round trips that the
    identity policy relies on. *)

From S2P Require Import Prelude Text.

Inductive IpAddr : Type :=
| V4 (bits : Z)                     (** [u32::from(ip)] *)
| V6 (segments : list Z).           (** the eight 16-bit groups *)
#[global] Instance IpAddr_eq_dec : EqDecision IpAddr.
Proof. solve_decision. Defined.

Definition ip_wf (ip : IpAddr) : Prop :=
  match ip with
  | V4 n => 0 <= n < 2 ^ 32
  | V6 gs => length gs = 8%nat /\ Forall (fun g => 0 <= g < 2 ^ 16) gs
  end.
(** [u128::from(ip)]: big-endian. *)
Definition v6_bits (gs : list Z) : Z := fold_left (fun acc g => acc * 65536 + g) gs 0.

(** ** Parsing *)

Definition colon : byte := zb 58.
Definition dot : byte := zb 46.

Definition to_digit (radix : Z) (b : byte) : option Z :=
  let d := if is_ascii_digit b then bz b - 48
           else if in_range 97 102 b then bz b - 87
           else if in_range 65 70 b then bz b - 55
           else 16 in
  if d <? radix then Some d else None.

Fixpoint span_digits (radix : Z) (s : bytes) : list Z * bytes :=
  match s with
  | [] => ([], [])
  | b :: s' =>
      match to_digit radix b with
      | Some d => let '(ds, r) := span_digits radix s' in (d :: ds, r)
      | None => ([], s)
      end
  end.
Definition digits_value (radix : Z) (ds : list Z) : Z := fold_left (fun acc d => acc * radix + d) ds 0.

(** [Parser::read_number]: all the digits that follow, at most [max_digits] of them. *)
Definition read_number (radix : Z) (max_digits : option nat) (allow_zero_prefix : bool) (limit : Z) (s : bytes)
    : option (Z * bytes) :=
  let '(ds, r) := span_digits radix s in
  if match max_digits with Some m => (m <? length ds)%nat | None => false end then None
  else match ds with
       | [] => None
       | d :: ds' =>
           if negb allow_zero_prefix && (d =? 0) && (0 <? length ds')%nat then None
           else if digits_value radix ds <=? limit then Some (digits_value radix ds, r) else None
       end.

Definition read_given (c : byte) (s : bytes) : option bytes :=
  match s with x :: s' => if decide (x = c) then Some s' else None | [] => None end.
Definition read_separator {A} (sep : byte) (first : bool) (inner : bytes -> option (A * bytes)) (s : bytes) : option (A * bytes) :=
  if first then inner s else match read_given sep s with Some s' => inner s' | None => None end.

Definition read_octet : bytes -> option (Z * bytes) := read_number 10 (Some 3%nat) false 255.
Definition read_ipv4_addr (s : bytes) : option (Z * bytes) :=
  match read_separator dot true read_octet s with
  | Some (a, s) =>
      match read_separator dot false read_octet s with
      | Some (b, s) =>
          match read_separator dot false read_octet s with
          | Some (c, s) =>
              match read_separator dot false read_octet s with
              | Some (d, s) => Some (((a * 256 + b) * 256 + c) * 256 + d, s)
              | None => None
              end
          | None => None
          end
      | None => None
      end
  | None => None
  end.

(** [read_groups] with [left] groups to go: what it read, and whether it ended in an
    embedded IPv4 address, which takes two of them. *)
Definition read_group : bytes -> option (Z * bytes) := read_number 16 (Some 4%nat) true 65535.
Fixpoint read_groups (left : nat) (first : bool) (s : bytes) : list Z * bool * bytes :=
  match left with
  | O => ([], false, s)
  | S left' =>
      match (if (1 <? left)%nat then read_separator colon first read_ipv4_addr s else None) with
      | Some (n, r) => ([n / 65536; n mod 65536], true, r)
      | None =>
          match read_separator colon first read_group s with
          | Some (g, r) => let '(gs, v4, r') := read_groups left' false r in (g :: gs, v4, r')
          | None => ([], false, s)
          end
      end
  end.

Definition read_ipv6_addr (s : bytes) : option (list Z * bytes) :=
  let '(head, head_ipv4, r) := read_groups 8 true s in
  if (length head =? 8)%nat then Some (head, r)
  else if head_ipv4 then None
  else match read_given colon r with
       | None => None
       | Some r =>
           match read_given colon r with
           | None => None
           | Some r =>
               let '(tail, _, r) := read_groups (8 - (length head + 1)) true r in
               Some (head ++ replicate (8 - length head - length tail) 0 ++ tail, r)
           end
       end.

Definition read_ip_addr (s : bytes) : option (IpAddr * bytes) :=
  match read_ipv4_addr s with
  | Some (n, r) => Some (V4 n, r)
  | None => match read_ipv6_addr s with Some (gs, r) => Some (V6 gs, r) | None => None end
  end.
Definition read_port (s : bytes) : option (Z * bytes) :=
  match read_given colon s with Some s => read_number 10 None true 65535 s | None => None end.
Definition read_scope_id (s : bytes) : option (Z * bytes) :=
  match read_given (zb 37) s with Some s => read_number 10 None true 4294967295 s | None => None end.
(** [SocketAddr]; [scope_id] is zero for an IPv4 address. *)
Record SocketAddr : Type := { sa_ip : IpAddr; sa_port : Z; sa_scope : Z }.
Definition read_socket_addr_v4 (s : bytes) : option (SocketAddr * bytes) :=
  match read_ipv4_addr s with
  | Some (n, s) => match read_port s with Some (p, r) => Some ({| sa_ip := V4 n; sa_port := p; sa_scope := 0 |}, r) | None => None end
  | None => None
  end.
Definition read_socket_addr_v6 (s : bytes) : option (SocketAddr * bytes) :=
  match read_given (zb 91) s with
  | None => None
  | Some s =>
      match read_ipv6_addr s with
      | None => None
      | Some (gs, s) =>
          let '(scope, s) := match read_scope_id s with Some x => x | None => (0, s) end in
          match read_given (zb 93) s with
          | None => None
          | Some s => match read_port s with Some (p, r) => Some ({| sa_ip := V6 gs; sa_port := p; sa_scope := scope |}, r) | None => None end
          end
      end
  end.

(** [str::parse]: the whole input. *)
Definition parse_ip (s : bytes) : option IpAddr :=
  match read_ip_addr s with Some (ip, []) => Some ip | _ => None end.
Definition parse_socket_addr (s : bytes) : option SocketAddr :=
  match (match read_socket_addr_v4 s with Some x => Some x | None => read_socket_addr_v6 s end) with
  | Some (a, []) => Some a
  | _ => None
  end.
Definition parse_socket (s : bytes) : option (IpAddr * Z) :=
  match parse_socket_addr s with Some a => Some (sa_ip a, sa_port a) | None => None end.

(** [IpAddr::is_loopback]. *)
Definition is_loopback (ip : IpAddr) : bool :=
  match ip with V4 n => n / 16777216 =? 127 | V6 gs => v6_bits gs =? 1 end.

(** ** Printing *)

Definition hex_digit (d : Z) : byte := if d <? 10 then zb (48 + d) else zb (87 + d).
Fixpoint show_hex_fuel (fuel : nat) (n : Z) : bytes :=
  match fuel with
  | O => []
  | S k => if n <? 16 then [hex_digit n] else show_hex_fuel k (n / 16) ++ [hex_digit (n mod 16)]
  end.
Definition show_group (g : Z) : bytes := show_hex_fuel 4 g.

Definition show_v4 (n : Z) : bytes :=
  show_uint (n / 16777216) ++ [dot] ++ show_uint (n / 65536 mod 256) ++ [dot] ++
  show_uint (n / 256 mod 256) ++ [dot] ++ show_uint (n mod 256).

Fixpoint show_groups (gs : list Z) : bytes :=
  match gs with
  | [] => []
  | [g] => show_group g
  | g :: gs' => show_group g ++ [colon] ++ show_groups gs'
  end.

(** The first longest run of zero groups, as [(start, len)]. *)
Fixpoint zero_span (i : nat) (gs : list Z) (current longest : nat * nat) : nat * nat :=
  match gs with
  | [] => longest
  | g :: gs' =>
      if g =? 0 then
        let current := (if (snd current =? 0)%nat then i else fst current, S (snd current)) in
        zero_span (S i) gs' current (if (snd longest <? snd current)%nat then current else longest)
      else zero_span (S i) gs' (0%nat, 0%nat) longest
  end.
Definition is_mapped (gs : list Z) : bool :=
  match gs with
  | [a; b; c; d; e; f; _; _] => (a =? 0) && (b =? 0) && (c =? 0) && (d =? 0) && (e =? 0) && (f =? 65535)
  | _ => false
  end.
Definition show_v6 (gs : list Z) : bytes :=
  if is_mapped gs
  then bs "::ffff:" ++ show_v4 (nth 6 gs 0 * 65536 + nth 7 gs 0)
  else
    let '(start, len) := zero_span 0 gs (0%nat, 0%nat) (0%nat, 0%nat) in
    if (1 <? len)%nat then show_groups (take start gs) ++ bs "::" ++ show_groups (drop (start + len) gs)
    else show_groups gs.
Definition show_ip (ip : IpAddr) : bytes := match ip with V4 n => show_v4 n | V6 gs => show_v6 gs end.
Definition show_socket_addr (a : SocketAddr) : bytes :=
  match sa_ip a with
  | V4 n => show_v4 n ++ [colon] ++ show_uint (sa_port a)
  | V6 gs => [zb 91] ++ show_v6 gs ++ (if sa_scope a =? 0 then [] else [zb 37] ++ show_uint (sa_scope a)) ++ [zb 93] ++ [colon] ++ show_uint (sa_port a)
  end.
Definition show_socket (ip : IpAddr) (port : Z) : bytes := show_socket_addr {| sa_ip := ip; sa_port := port; sa_scope := 0 |}.

Example parse_examples :
  parse_ip (bs "198.51.100.42") = Some (V4 3325256746) /\ parse_ip (bs "010.0.0.1") = None /\
  parse_ip (bs "2001:db8::42") = Some (V6 [8193; 3512; 0; 0; 0; 0; 0; 66]) /\
  parse_ip (bs "::ffff:10.0.0.1") = Some (V6 [0; 0; 0; 0; 0; 65535; 2560; 1]) /\
  parse_ip (bs "198.51.100.1:1234") = None /\ parse_ip (bs "::") = Some (V6 [0; 0; 0; 0; 0; 0; 0; 0]) /\
  parse_ip (bs "1:2:3:4:5:6:7::") = Some (V6 [1; 2; 3; 4; 5; 6; 7; 0]) /\ parse_ip (bs "1:2:3:4:5:6:7:8:") = None /\
  parse_socket (bs "[2001:db8::7]:443") = Some (V6 [8193; 3512; 0; 0; 0; 0; 0; 7], 443) /\
  show_v6 [1; 0; 0; 2; 0; 0; 0; 3] = bs "1:0:0:2::3" /\ show_v6 [0; 0; 0; 0; 0; 0; 0; 1] = bs "::1" /\
  show_v6 [1; 0; 2; 3; 4; 5; 6; 7] = bs "1:0:2:3:4:5:6:7" /\ show_v6 [0; 0; 0; 0; 0; 65535; 2560; 1] = bs "::ffff:10.0.0.1".
Proof. vm_compute. repeat split. Qed.

(** ** Numbers round-trip *)

Fixpoint show_gen (radix : Z) (dg : Z -> byte) (fuel : nat) (n : Z) : bytes :=
  match fuel with
  | O => []
  | S k => if n <? radix then [dg n] else show_gen radix dg k (n / radix) ++ [dg (n mod radix)]
  end.
Lemma show_fuel_gen fuel n : show_fuel fuel n = show_gen 10 (fun d => zb (48 + d)) fuel n.
Proof. revert n. induction fuel as [|k IH]; intros n; [reflexivity|]. cbn [show_fuel show_gen]. rewrite IH. reflexivity. Qed.
Lemma show_hex_gen fuel n : show_hex_fuel fuel n = show_gen 16 hex_digit fuel n.
Proof. revert n. induction fuel as [|k IH]; intros n; [reflexivity|]. cbn [show_hex_fuel show_gen]. rewrite IH. reflexivity. Qed.

Definition stops (radix : Z) (r : bytes) : Prop := match r with [] => True | b :: _ => to_digit radix b = None end.
Definition reads (radix : Z) (s : bytes) (ds : list Z) : Prop := Forall2 (fun b d => to_digit radix b = Some d) s ds.

Lemma span_app radix s ds r : reads radix s ds -> stops radix r -> span_digits radix (s ++ r) = (ds, r).
Proof.
  intros R St. induction R as [|b d s ds E _ IH]; cbn [app span_digits].
  - destruct r as [|b r]; [reflexivity|]. cbn in St. cbn [span_digits]. rewrite St. reflexivity.
  - rewrite E, IH. reflexivity.
Qed.

Lemma show_gen_reads radix dg fuel m n :
  2 <= radix -> (forall d, 0 <= d < radix -> to_digit radix (dg d) = Some d) ->
  (1 <= m <= fuel)%nat -> 0 <= n < radix ^ Z.of_nat m ->
  exists d ds, reads radix (show_gen radix dg fuel n) (d :: ds) /\ digits_value radix (d :: ds) = n /\
    (length (d :: ds) <= m)%nat /\ (d = 0 -> ds = []).
Proof.
  intros Hr Hd. revert m n. induction fuel as [|k IH]; intros m n Hm Hn; [lia|]. cbn [show_gen].
  destruct (n <? radix) eqn:L.
  - exists n, []. split; [constructor; [apply Hd; lia | constructor]|]. split; [cbn; lia|]. cbn. split; [lia | auto].
  - apply Z.ltb_ge in L. destruct m as [|m]; [lia|]. rewrite Nat2Z.inj_succ, Z.pow_succ_r in Hn by lia.
    assert (1 <= m)%nat. { destruct m; [|lia]. cbn in Hn. lia. }
    assert (1 <= n / radix < radix ^ Z.of_nat m) as Q.
    { split; [apply Z.div_le_lower_bound; lia | apply Z.div_lt_upper_bound; lia]. }
    destruct (IH m (n / radix) ltac:(lia) ltac:(lia)) as (d & ds & R & V & Le & Z0).
    exists d, (ds ++ [n mod radix]). split; [|split; [|split]].
    + change (d :: ds ++ [n mod radix]) with ((d :: ds) ++ [n mod radix]). apply Forall2_app; [exact R|].
      constructor; [apply Hd, Z.mod_pos_bound; lia | constructor].
    + unfold digits_value in *. change (d :: ds ++ [n mod radix]) with ((d :: ds) ++ [n mod radix]).
      rewrite fold_left_app, V. cbn. pose proof (Z_div_mod_eq_full n radix). lia.
    + cbn [length] in *. rewrite length_app. cbn. lia.
    + intros ->. rewrite (Z0 eq_refl) in V. cbn in V. lia.
Qed.

Lemma dec_digit d : 0 <= d < 10 -> to_digit 10 (zb (48 + d)) = Some d.
Proof. intros Hd. unfold to_digit, is_ascii_digit, in_range. rewrite !bz_zb by lia. repeat cases_if; try lia. f_equal. lia. Qed.
Lemma hex_digit_reads d : 0 <= d < 16 -> to_digit 16 (hex_digit d) = Some d.
Proof.
  intros Hd. unfold to_digit, hex_digit, is_ascii_digit, in_range. destruct (d <? 10) eqn:L; rewrite !bz_zb by lia; repeat cases_if; try lia; f_equal; lia.
Qed.

Lemma read_number_reads radix max allow limit s d ds r :
  reads radix s (d :: ds) -> stops radix r -> match max with Some m => (length (d :: ds) <= m)%nat | None => True end ->
  (d = 0 -> ds = []) -> digits_value radix (d :: ds) <= limit ->
  read_number radix max allow limit (s ++ r) = Some (digits_value radix (d :: ds), r).
Proof.
  intros R St Hm Z0 Hl. unfold read_number. rewrite (span_app radix s (d :: ds) r R St).
  replace (match max with Some m => (m <? length (d :: ds))%nat | None => false end) with false
    by (destruct max; [symmetry; apply Nat.ltb_ge, Hm | reflexivity]).
  replace (negb allow && (d =? 0) && (0 <? length ds)%nat) with false
    by (destruct (d =? 0) eqn:E; [apply Z.eqb_eq in E; rewrite (Z0 E) | ]; destruct allow; reflexivity).
  apply Z.leb_le in Hl. rewrite Hl. reflexivity.
Qed.

Lemma read_number_dec max allow limit n r :
  0 <= n <= limit -> n < 10 ^ 19 -> stops 10 r -> match max with Some m => (1 <= m <= 20)%nat /\ n < 10 ^ Z.of_nat m | None => True end ->
  read_number 10 max allow limit (show_uint n ++ r) = Some (n, r).
Proof.
  intros Hn Hb St Hm. unfold show_uint. rewrite show_fuel_gen.
  destruct (show_gen_reads 10 (fun d => zb (48 + d)) 20 (match max with Some m => m | None => 19 end) n) as (d & ds & R & V & Le & Z0);
    [lia | apply dec_digit | destruct max; lia | destruct max; lia |].
  rewrite <- V at 2. apply read_number_reads; try assumption; [destruct max; [exact Le | exact I] | lia].
Qed.
Lemma read_group_show g r : 0 <= g < 2 ^ 16 -> stops 16 r -> read_group (show_group g ++ r) = Some (g, r).
Proof.
  intros Hg St. unfold show_group. rewrite show_hex_gen.
  destruct (show_gen_reads 16 hex_digit 4 4 g) as (d & ds & R & V & Le & Z0); [lia | apply hex_digit_reads | lia | lia |].
  rewrite <- V at 2. unfold read_group. apply read_number_reads; try assumption. lia.
Qed.
Lemma show_group_hex g : 0 <= g < 2 ^ 16 -> exists ds, reads 16 (show_group g) ds /\ ds <> [].
Proof.
  intros Hg. unfold show_group. rewrite show_hex_gen.
  destruct (show_gen_reads 16 hex_digit 4 4 g) as (d & ds & R & _); [lia | apply hex_digit_reads | lia | lia |]. exists (d :: ds). auto.
Qed.

(** ** Addresses round-trip *)

Lemma read_octet_show n r : 0 <= n <= 255 -> stops 10 r -> read_octet (show_uint n ++ r) = Some (n, r).
Proof. intros Hn St. apply read_number_dec; [lia | lia | exact St | split; [lia | cbn; lia]]. Qed.
Lemma stops_dot r : stops 10 (dot :: r).
Proof. reflexivity. Qed.

Lemma read_ipv4_show n r : 0 <= n < 2 ^ 32 -> stops 10 r -> read_ipv4_addr (show_v4 n ++ r) = Some (n, r).
Proof.
  intros Hn St. unfold read_ipv4_addr, show_v4. rewrite <- !app_assoc. cbn [app]. unfold read_separator, read_given.
  assert (0 <= n / 16777216 <= 255) by (split; [apply Z.div_pos; lia | apply Z.lt_succ_r, Z.div_lt_upper_bound; lia]).
  pose proof (Z.mod_pos_bound (n / 65536) 256 ltac:(lia)). pose proof (Z.mod_pos_bound (n / 256) 256 ltac:(lia)). pose proof (Z.mod_pos_bound n 256 ltac:(lia)).
  rewrite read_octet_show by (lia || apply stops_dot). rewrite decide_True by reflexivity.
  rewrite read_octet_show by (lia || apply stops_dot). rewrite decide_True by reflexivity.
  rewrite read_octet_show by (lia || apply stops_dot). rewrite decide_True by reflexivity.
  rewrite read_octet_show by (lia || exact St). do 2 f_equal.
  replace (n / 16777216) with (n / 256 / 256 / 256) by (rewrite !Z.div_div by lia; reflexivity).
  replace (n / 65536) with (n / 256 / 256) by (rewrite Z.div_div by lia; reflexivity).
  pose proof (Z_div_mod_eq_full n 256). pose proof (Z_div_mod_eq_full (n / 256) 256). pose proof (Z_div_mod_eq_full (n / 256 / 256) 256). lia.
Qed.

(** An IPv4 address begins with decimal digits and a dot. *)
Lemma span_digits_split radix s ds r : span_digits radix s = (ds, r) -> exists p, s = p ++ r /\ reads radix p ds.
Proof.
  revert ds r. induction s as [|b s IH]; cbn [span_digits]; intros ds r.
  - intros [= <- <-]. exists []. split; [reflexivity | constructor].
  - destruct (to_digit radix b) as [d|] eqn:E.
    + destruct (span_digits radix s) as [ds' r'] eqn:S. intros [= <- <-]. destruct (IH _ _ eq_refl) as (p & -> & R).
      exists (b :: p). split; [reflexivity | constructor; assumption].
    + intros [= <- <-]. exists []. split; [reflexivity | constructor].
Qed.
Lemma read_ipv4_begins s x :
  read_ipv4_addr s = Some x -> exists p ds t, s = p ++ dot :: t /\ reads 10 p ds /\ ds <> [].
Proof.
  unfold read_ipv4_addr. cbn [read_separator]. unfold read_octet at 1, read_number at 1.
  destruct (span_digits 10 s) as [ds r] eqn:S. destruct (3 <? length ds)%nat; [discriminate|].
  destruct ds as [|d ds]; [discriminate|]. destruct (_ && _); [discriminate|]. destruct (digits_value _ _ <=? 255); [|discriminate].
  unfold read_given at 1. destruct r as [|b r]; [discriminate|]. destruct (decide (b = dot)) as [->|]; [|discriminate].
  intros _. apply span_digits_split in S as (p & -> & R). exists p, (d :: ds), r. split; [reflexivity|]. split; [exact R | discriminate].
Qed.

(** What may follow a group: not a digit, not a dot, and a colon only before another one. *)
Definition group_ends (r : bytes) : Prop :=
  match r with
  | [] => True
  | b :: r' => to_digit 16 b = None /\ b <> dot /\ (b = colon -> exists r'', r' = colon :: r'')
  end.

Lemma to_digit_10_16 b d : to_digit 10 b = Some d -> to_digit 16 b = Some d.
Proof.
  unfold to_digit. repeat cases_if; intros E; try discriminate; try exact E; lia.
Qed.
Lemma reads_app_group p ds t s gs r :
  p ++ dot :: t = s ++ r -> reads 10 p ds -> reads 16 s gs -> match r with [] => True | b :: _ => to_digit 16 b = None /\ b <> dot end -> False.
Proof.
  intros E Rp Rs Hr. apply app_eq_app in E as (l & [[-> E]|[-> E]]).
  - destruct l as [|b l].
    + cbn in E. rewrite E in Hr. destruct Hr as [_ Hr]. congruence.
    + cbn in E. rewrite E in Hr. destruct Hr as [Hr _]. apply Forall2_app_inv_l in Rp as (d1 & d2 & _ & R2 & _).
      inversion R2 as [|? ? ? ? Hb]; subst. apply to_digit_10_16 in Hb. congruence.
  - destruct l as [|b l].
    + cbn in E. rewrite <- E in Hr. destruct Hr as [_ Hr]. congruence.
    + injection E as <- ->. apply Forall2_app_inv_l in Rs as (d1 & d2 & _ & R2 & _).
      inversion R2 as [|? ? ? ? Hb]; subst. vm_compute in Hb. discriminate.
Qed.
Lemma read_ipv4_not_group g r :
  0 <= g < 2 ^ 16 -> match r with [] => True | b :: _ => to_digit 16 b = None /\ b <> dot end -> read_ipv4_addr (show_group g ++ r) = None.
Proof.
  intros Hg Hr. destruct (read_ipv4_addr _) as [x|] eqn:E; [exfalso | reflexivity].
  apply read_ipv4_begins in E as (p & ds & t & Eq & Rp & _). destruct (show_group_hex g Hg) as (gs & Rs & _).
  exact (reads_app_group p ds t _ gs r (eq_sym Eq) Rp Rs Hr).
Qed.
(** Neither a number nor an address starts at a byte that is no digit. *)
Lemma read_at_no_digit b r radix max allow limit : to_digit radix b = None -> read_number radix max allow limit (b :: r) = None.
Proof. intros E. unfold read_number. cbn [span_digits]. rewrite E. destruct max as [[|?]|]; reflexivity. Qed.
Lemma to_digit_16_10 b : to_digit 16 b = None -> to_digit 10 b = None.
Proof. destruct (to_digit 10 b) eqn:E; [|reflexivity]. apply to_digit_10_16 in E. congruence. Qed.
Lemma read_ipv4_at_no_digit b r : to_digit 16 b = None -> read_ipv4_addr (b :: r) = None.
Proof. intros E. unfold read_ipv4_addr. cbn [read_separator]. unfold read_octet at 1. rewrite read_at_no_digit by (apply to_digit_16_10, E). reflexivity. Qed.

Lemma read_groups_none left first r : group_ends r -> read_groups left first r = ([], false, r).
Proof.
  intros G. destruct left as [|left]; [reflexivity|]. cbn [read_groups].
  assert (read_separator colon first read_ipv4_addr r = None /\ read_separator colon first read_group r = None) as [E4 E6].
  { destruct r as [|b r]; [destruct first; split; reflexivity|]. destruct G as (G1 & G2 & G3). destruct first; cbn [read_separator].
    - split; [apply read_ipv4_at_no_digit, G1 | apply read_at_no_digit, G1].
    - unfold read_given. destruct (decide (b = colon)) as [->|]; [|split; reflexivity]. destruct (G3 eq_refl) as (r'' & ->).
      split; [apply read_ipv4_at_no_digit | apply read_at_no_digit]; reflexivity. }
  rewrite E4, E6. destruct (1 <? S left)%nat; reflexivity.
Qed.

Definition lead (first : bool) : bytes := if first then [] else [colon].
Lemma read_separator_lead {A} first (inner : bytes -> option (A * bytes)) s :
  read_separator colon first inner (lead first ++ s) = inner s.
Proof. destruct first; [reflexivity|]. cbn. rewrite decide_True by reflexivity. reflexivity. Qed.

Lemma show_groups_cons g g' gs : show_groups (g :: g' :: gs) = show_group g ++ [colon] ++ show_groups (g' :: gs).
Proof. reflexivity. Qed.
Lemma read_groups_show left first g gs r :
  (length (g :: gs) <= left)%nat -> Forall (fun x => 0 <= x < 2 ^ 16) (g :: gs) -> group_ends r ->
  read_groups left first (lead first ++ show_groups (g :: gs) ++ r) = (g :: gs, false, r).
Proof.
  intros Hl F G. revert left g first Hl F. induction gs as [|g' gs IH]; intros left g first Hl F;
    apply List.Forall_cons_iff in F as [Hg F]; (destruct left as [|left]; [cbn in Hl; lia|]); cbn [read_groups];
    rewrite !read_separator_lead.
  - cbn [show_groups]. rewrite read_ipv4_not_group by (exact Hg || (destruct r; [exact I | split; apply G])).
    rewrite read_group_show by (exact Hg || (destruct r; [exact I | apply G])).
    rewrite read_groups_none by exact G. destruct (1 <? S left)%nat; reflexivity.
  - rewrite show_groups_cons, <- !app_assoc. cbn [app].
    rewrite read_ipv4_not_group by (exact Hg || (split; [reflexivity | discriminate])).
    rewrite read_group_show by (exact Hg || reflexivity).
    change (colon :: show_groups (g' :: gs) ++ r) with (lead false ++ show_groups (g' :: gs) ++ r).
    rewrite IH by (cbn in *; lia || assumption). destruct (1 <? S left)%nat; reflexivity.
Qed.
Lemma read_groups_show_first left gs r :
  (length gs <= left)%nat -> Forall (fun x => 0 <= x < 2 ^ 16) gs -> group_ends r ->
  read_groups left true (show_groups gs ++ r) = (gs, false, r).
Proof.
  intros Hl F G. destruct gs as [|g gs]; [apply read_groups_none, G|]. exact (read_groups_show left true g gs r Hl F G).
Qed.

Lemma read_given_same c s : read_given c (c :: s) = Some s.
Proof. cbn. rewrite decide_True by reflexivity. reflexivity. Qed.
Lemma read_groups_eq left first s :
  read_groups (S left) first s =
  match (if (1 <? S left)%nat then read_separator colon first read_ipv4_addr s else None) with
  | Some (n, r) => ([n / 65536; n mod 65536], true, r)
  | None =>
      match read_separator colon first read_group s with
      | Some (g, r) => let '(gs, v4, r') := read_groups left false r in (g :: gs, v4, r')
      | None => ([], false, s)
      end
  end.
Proof. reflexivity. Qed.

(** ** The compressed run *)

Definition span_ok (all : list Z) (x : nat * nat) : Prop :=
  (fst x + snd x <= length all)%nat /\ take (snd x) (drop (fst x) all) = replicate (snd x) 0.
Lemma zero_span_ok all pre gs current longest :
  all = pre ++ gs -> (snd current = 0%nat \/ (fst current + snd current = length pre)%nat) -> span_ok pre current -> span_ok all longest ->
  span_ok all (zero_span (length pre) gs current longest).
Proof.
  revert pre current longest. induction gs as [|g gs IH]; intros pre current longest E Hc Oc Ol; cbn [zero_span]; [exact Ol|].
  assert (all = (pre ++ [g]) ++ gs) as E' by (rewrite <- app_assoc; exact E).
  assert (length (pre ++ [g]) = S (length pre)) as L by (rewrite length_app; cbn; lia). rewrite <- L.
  destruct (g =? 0) eqn:Z0; [apply Z.eqb_eq in Z0 as ->|].
  2: { apply IH; [exact E' | left; reflexivity | split; [cbn; lia | reflexivity] | exact Ol]. }
  set (cur := (if (snd current =? 0)%nat then length pre else fst current, S (snd current))).
  assert (fst cur + snd cur = length (pre ++ [0%Z]))%nat as Hcur.
  { subst cur. rewrite L. destruct (snd current =? 0)%nat eqn:Q; [apply Nat.eqb_eq in Q | apply Nat.eqb_neq in Q]; cbn; lia. }
  assert (span_ok (pre ++ [0]) cur) as Ocur.
  { split; [lia|]. subst cur. cbn [fst snd] in *. destruct Oc as [Oc1 Oc2]. destruct (snd current =? 0)%nat eqn:Q.
    - apply Nat.eqb_eq in Q. rewrite Q. rewrite drop_app_length. reflexivity.
    - rewrite drop_app_le by lia. rewrite replicate_S_end, <- Oc2. rewrite take_app_ge by (rewrite length_drop; lia).
      rewrite length_drop. apply Nat.eqb_neq in Q. replace (S (snd current) - (length pre - fst current))%nat with 1%nat by lia.
      rewrite (take_ge (drop (fst current) pre)) by (rewrite length_drop; lia). reflexivity. }
  apply IH; [exact E' | right; exact Hcur | exact Ocur |].
  destruct (snd longest <? snd cur)%nat; [|exact Ol]. destruct Ocur as [O1 O2]. split; [rewrite E', length_app; lia|].
  rewrite E', drop_app_le by lia. rewrite take_app_le by (rewrite length_drop; lia). exact O2.
Qed.
Lemma zero_span_splits gs start len :
  zero_span 0 gs (0%nat, 0%nat) (0%nat, 0%nat) = (start, len) ->
  gs = take start gs ++ replicate len 0 ++ drop (start + len) gs /\ (start + len <= length gs)%nat.
Proof.
  intros E. assert (span_ok gs (start, len)) as [O1 O2].
  { rewrite <- E. apply (zero_span_ok gs [] gs); [reflexivity | left; reflexivity | split; [cbn; lia | reflexivity] | split; [cbn; lia | reflexivity]]. }
  cbn [fst snd] in *. split; [|exact O1]. rewrite <- O2, <- drop_drop. rewrite !take_drop. reflexivity.
Qed.

Lemma Forall_take_drop {A} (P : A -> Prop) n l : Forall P l -> Forall P (take n l) /\ Forall P (drop n l).
Proof. intros F. rewrite <- (take_drop n l) in F. apply Forall_app in F. exact F. Qed.

Lemma nth_mapped gs : is_mapped gs = true -> exists x y, gs = [0; 0; 0; 0; 0; 65535; x; y].
Proof.
  unfold is_mapped. do 9 (destruct gs as [|? gs]; try discriminate). rewrite !andb_true_iff, !Z.eqb_eq.
  intros (((((-> & ->) & ->) & ->) & ->) & ->). eauto.
Qed.

(** What may follow an address inside a longer text. *)
Definition addr_ends (r : bytes) : Prop := match r with [] => True | b :: _ => to_digit 16 b = None /\ b <> dot /\ b <> colon end.
Lemma addr_ends_group r : addr_ends r -> group_ends r.
Proof. destruct r as [|b r]; [auto|]. intros (A & B & C). split; [exact A|]. split; [exact B|]. congruence. Qed.
Lemma addr_ends_stops r : addr_ends r -> stops 10 r.
Proof. destruct r as [|b r]; [auto|]. intros (A & _). apply to_digit_16_10, A. Qed.

Lemma read_ipv6_show gs r :
  length gs = 8%nat -> Forall (fun g => 0 <= g < 2 ^ 16) gs -> addr_ends r -> read_ipv6_addr (show_v6 gs ++ r) = Some (gs, r).
Proof.
  intros L F A. pose proof (addr_ends_group r A) as G. unfold show_v6. destruct (is_mapped gs) eqn:M.
  - apply nth_mapped in M as (x & y & ->). do 6 (apply List.Forall_cons_iff in F as [_ F]).
    apply List.Forall_cons_iff in F as [Hx F]. apply List.Forall_cons_iff in F as [Hy _]. cbn [nth].
    unfold read_ipv6_addr. change (bs "::ffff:" ++ show_v4 (x * 65536 + y)) with ([colon; colon] ++ show_group 65535 ++ [colon] ++ show_v4 (x * 65536 + y)).
    rewrite <- !app_assoc. cbn [app].
    rewrite (read_groups_none 8 true) by (split; [reflexivity | split; [discriminate | eauto]]). cbn [length Nat.eqb].
    rewrite !read_given_same. change (8 - (0 + 1))%nat with 7%nat. rewrite read_groups_eq.
    change (1 <? 7)%nat with true. cbn [read_separator].
    rewrite read_ipv4_not_group by (lia || (split; [reflexivity | discriminate])). rewrite read_group_show by (lia || reflexivity).
    rewrite read_groups_eq. change (1 <? 6)%nat with true. cbn [read_separator]. rewrite read_given_same.
    rewrite read_ipv4_show by (lia || apply addr_ends_stops, A). cbn [length app]. do 3 f_equal.
    + rewrite Z.div_add_l by lia. rewrite Z.div_small by lia. cbn. do 6 f_equal. f_equal; [lia|]. f_equal. rewrite Z.add_comm, Z.mod_add by lia. apply Z.mod_small. lia.
  - destruct (zero_span 0 gs _ _) as [start len] eqn:Z0. apply zero_span_splits in Z0 as [E Le].
    destruct (1 <? len)%nat eqn:Len; [apply Nat.ltb_lt in Len|].
    + set (hd := take start gs) in *. set (tl := drop (start + len) gs) in *.
      assert (length hd = start) as Lh by (subst hd; rewrite length_take; lia).
      assert (length tl = 8 - start - len)%nat as Lt by (subst tl; rewrite length_drop; lia).
      assert (Forall (fun g => 0 <= g < 2 ^ 16) hd /\ Forall (fun g => 0 <= g < 2 ^ 16) tl) as [Fh Ft] by (split; apply Forall_take_drop, F).
      unfold read_ipv6_addr. rewrite <- !app_assoc. rewrite (read_groups_show_first 8 hd) by (lia || exact Fh || (split; [reflexivity | split; [discriminate | eexists; reflexivity]])).
      replace (length hd =? 8)%nat with false by (symmetry; apply Nat.eqb_neq; lia). change (bs "::") with [colon; colon]. cbn [app].
      rewrite !read_given_same. rewrite (read_groups_show_first _ tl) by (lia || exact Ft || exact G).
      do 2 f_equal. rewrite E at 1. do 2 f_equal. f_equal. lia.
    + unfold read_ipv6_addr. rewrite (read_groups_show_first 8 gs) by (lia || assumption). rewrite L. reflexivity.
Qed.

Lemma read_ipv4_not_groups g gs r :
  Forall (fun x => 0 <= x < 2 ^ 16) (g :: gs) -> group_ends r -> read_ipv4_addr (show_groups (g :: gs) ++ r) = None.
Proof.
  intros F G. apply List.Forall_cons_iff in F as [Hg F]. destruct gs as [|g' gs].
  - apply read_ipv4_not_group; [exact Hg|]. destruct r; [exact I | split; apply G].
  - rewrite show_groups_cons, <- !app_assoc. apply read_ipv4_not_group; [exact Hg | split; [reflexivity | discriminate]].
Qed.
Lemma read_ipv4_not_v6 gs r :
  length gs = 8%nat -> Forall (fun g => 0 <= g < 2 ^ 16) gs -> addr_ends r -> read_ipv4_addr (show_v6 gs ++ r) = None.
Proof.
  intros L F A. unfold show_v6. destruct (is_mapped gs); [apply read_ipv4_at_no_digit; reflexivity|].
  destruct (zero_span 0 gs _ _) as [start len] eqn:Z0. destruct (1 <? len)%nat.
  - rewrite <- !app_assoc. pose proof (proj1 (Forall_take_drop _ start gs F)) as Fh. destruct (take start gs) as [|g hd].
    + apply read_ipv4_at_no_digit. reflexivity.
    + apply read_ipv4_not_groups; [exact Fh|]. split; [reflexivity|]. split; [discriminate | eexists; reflexivity].
  - destruct gs as [|g gs]; [discriminate|]. apply read_ipv4_not_groups; [exact F | apply addr_ends_group, A].
Qed.

(** An address's text is parsed back, alone and with a port. *)
Lemma parse_show_ip ip : ip_wf ip -> parse_ip (show_ip ip) = Some ip.
Proof.
  unfold parse_ip, read_ip_addr, show_ip. destruct ip as [n|gs]; cbn [ip_wf].
  - intros Hn. rewrite <- (app_nil_r (show_v4 n)), read_ipv4_show by (exact Hn || exact I). reflexivity.
  - intros [L F]. rewrite <- (app_nil_r (show_v6 gs)), read_ipv4_not_v6, read_ipv6_show by (assumption || exact I). reflexivity.
Qed.
Lemma read_port_show port : 0 <= port <= 65535 -> read_port ([colon] ++ show_uint port) = Some (port, []).
Proof.
  intros Hp. unfold read_port. cbn [app]. rewrite read_given_same, <- (app_nil_r (show_uint port)). apply read_number_dec; try exact I; lia.
Qed.
Definition socket_wf (a : SocketAddr) : Prop :=
  ip_wf (sa_ip a) /\ 0 <= sa_port a <= 65535 /\ match sa_ip a with V4 _ => sa_scope a = 0 | V6 _ => 0 <= sa_scope a <= 4294967295 end.
Lemma read_scope_show scope r : 0 <= scope <= 4294967295 -> stops 10 r -> read_scope_id ([zb 37] ++ show_uint scope ++ r) = Some (scope, r).
Proof. intros Hs Hr. unfold read_scope_id. cbn [app]. rewrite read_given_same. apply read_number_dec; try exact I; try assumption; lia. Qed.
Lemma parse_show_socket_addr a : socket_wf a -> parse_socket_addr (show_socket_addr a) = Some a /\ parse_ip (show_socket_addr a) = None.
Proof.
  destruct a as [ip port scope]. unfold socket_wf, parse_socket_addr, read_socket_addr_v4, read_socket_addr_v6, parse_ip, read_ip_addr, show_socket_addr.
  cbn [sa_ip sa_port sa_scope]. intros (W & Hp & Hs). destruct ip as [n|gs]; cbn [ip_wf] in *.
  - rewrite read_ipv4_show, read_port_show by (assumption || reflexivity). subst scope. split; reflexivity.
  - destruct W as [L F]. cbn [app]. rewrite read_ipv4_at_no_digit by reflexivity. rewrite read_given_same.
    set (rest := (if scope =? 0 then _ else _) ++ _). assert (addr_ends rest) as E
      by (unfold rest; destruct (scope =? 0); cbn [app]; (split; [reflexivity | split; discriminate])).
    rewrite read_ipv6_show by assumption.
    assert (match read_scope_id rest with Some x => x | None => (0, rest) end = (scope, zb 93 :: [colon] ++ show_uint port)) as ->.
    { unfold rest. destruct (scope =? 0) eqn:Z0.
      - cbn [app]. change (read_scope_id (zb 93 :: colon :: show_uint port)) with (@None (Z * bytes)). f_equal. lia.
      - pose proof (read_scope_show scope (zb 93 :: [colon] ++ show_uint port) Hs eq_refl) as R. cbn [app] in *. rewrite <- ?app_comm_cons. cbn [app]. rewrite R. reflexivity. }
    rewrite read_given_same, read_port_show by assumption.
    split; [reflexivity|]. unfold read_ipv6_addr. rewrite read_groups_none by (split; [reflexivity | split; discriminate]). reflexivity.
Qed.
Lemma parse_show_socket ip port :
  ip_wf ip -> 0 <= port <= 65535 -> parse_socket (show_socket ip port) = Some (ip, port) /\ parse_ip (show_socket ip port) = None.
Proof.
  intros W Hp. destruct (parse_show_socket_addr {| sa_ip := ip; sa_port := port; sa_scope := 0 |}) as [E N].
  { split; [exact W|]. split; [exact Hp|]. cbn. destruct ip; [reflexivity | lia]. }
  unfold parse_socket, show_socket. rewrite E, N. split; reflexivity.
Qed.

(** ** Parsed addresses are well formed *)

Lemma to_digit_range radix b d : to_digit radix b = Some d -> 0 <= d < radix.
Proof.
  unfold to_digit, is_ascii_digit, in_range. pose proof (bz_range b). destruct (_ <? radix) eqn:L; [|discriminate]. intros [= <-].
  split; [|lia]. repeat cases_if; lia.
Qed.
Lemma read_number_range radix max allow limit s n r : read_number radix max allow limit s = Some (n, r) -> 0 <= n <= limit.
Proof.
  unfold read_number. destruct (span_digits radix s) as [ds t] eqn:S. destruct (match max with Some _ => _ | None => _ end); [discriminate|].
  destruct ds as [|d ds]; [discriminate|]. destruct (_ && _); [discriminate|]. destruct (_ <=? limit) eqn:L; [|discriminate]. intros [= <- _].
  split; [|lia]. apply span_digits_split in S as (p & _ & R). unfold digits_value.
  assert (forall ds p acc, reads radix p ds -> 0 <= acc -> 0 <= fold_left (fun acc d => acc * radix + d) ds acc) as Pos.
  { clear. induction ds as [|d ds IH]; intros p acc R Ha; [exact Ha|]. inversion R as [|b ? p' ? E R']; subst. cbn [fold_left].
    apply to_digit_range in E. apply (IH p'); [exact R' | nia]. }
  apply (Pos _ _ _ R). lia.
Qed.

Lemma read_ipv4_range s n r : read_ipv4_addr s = Some (n, r) -> 0 <= n < 2 ^ 32.
Proof.
  unfold read_ipv4_addr, read_separator. destruct (read_octet s) as [[a sa]|] eqn:Ea; [|discriminate].
  destruct (read_given dot sa) as [sb|]; [|discriminate]. destruct (read_octet sb) as [[b sc]|] eqn:Eb; [|discriminate].
  destruct (read_given dot sc) as [sd|]; [|discriminate]. destruct (read_octet sd) as [[c se]|] eqn:Ec; [|discriminate].
  destruct (read_given dot se) as [sf|]; [|discriminate]. destruct (read_octet sf) as [[d sg]|] eqn:Ed; [|discriminate].
  intros [= <- _]. apply read_number_range in Ea, Eb, Ec, Ed. lia.
Qed.
Lemma read_groups_wf left first s gs v4 r :
  read_groups left first s = (gs, v4, r) -> (length gs <= left)%nat /\ Forall (fun g => 0 <= g < 2 ^ 16) gs.
Proof.
  revert first s gs v4 r. induction left as [|left IH]; intros first s gs v4 r; [intros [= <- _ _]; split; [cbn; lia | constructor]|].
  rewrite read_groups_eq. destruct (if (1 <? S left)%nat then _ else None) as [[n r1]|] eqn:E4.
  - destruct (1 <? S left)%nat eqn:L; [|discriminate]. apply Nat.ltb_lt in L. intros [= <- _ _]. split; [cbn; lia|].
    assert (0 <= n < 2 ^ 32) as Hn.
    { unfold read_separator in E4. destruct first; [|destruct (read_given colon s); [|discriminate]]; eapply read_ipv4_range, E4. }
    pose proof (Z.mod_pos_bound n 65536 ltac:(lia)). constructor; [|constructor; [lia | constructor]].
    split; [apply Z.div_pos; lia | apply Z.div_lt_upper_bound; lia].
  - destruct (read_separator colon first read_group s) as [[g r1]|] eqn:E6; [|intros [= <- _ _]; split; [cbn; lia | constructor]].
    destruct (read_groups left false r1) as [[gs' v4'] r2] eqn:R. intros [= <- _ _]. apply IH in R as [Hl F]. split; [cbn; lia|].
    constructor; [|exact F]. unfold read_separator in E6.
    assert (0 <= g <= 65535) by (destruct first; [|destruct (read_given colon s); [|discriminate]]; eapply read_number_range, E6). lia.
Qed.
Lemma read_ipv6_wf s gs r : read_ipv6_addr s = Some (gs, r) -> ip_wf (V6 gs).
Proof.
  unfold read_ipv6_addr. destruct (read_groups 8 true s) as [[head v4] r1] eqn:R1. apply read_groups_wf in R1 as [L1 F1].
  destruct (length head =? 8)%nat eqn:E; [apply Nat.eqb_eq in E; intros [= <- _]; split; assumption | apply Nat.eqb_neq in E].
  destruct v4; [discriminate|]. destruct (read_given colon r1) as [r2|]; [|discriminate]. destruct (read_given colon r2) as [r3|]; [|discriminate].
  destruct (read_groups _ true r3) as [[tail v4'] r4] eqn:R2. apply read_groups_wf in R2 as [L2 F2]. intros [= <- _].
  split; [rewrite !length_app, length_replicate; lia|]. apply Forall_app. split; [exact F1|]. apply Forall_app. split; [|exact F2].
  apply Forall_replicate. lia.
Qed.
Lemma parse_ip_wf s ip : parse_ip s = Some ip -> ip_wf ip.
Proof.
  unfold parse_ip, read_ip_addr. destruct (read_ipv4_addr s) as [[n r]|] eqn:E4.
  - destruct r; [|discriminate]. intros [= <-]. eapply read_ipv4_range, E4.
  - destruct (read_ipv6_addr s) as [[gs r]|] eqn:E6; [|discriminate]. destruct r; [|discriminate]. intros [= <-]. eapply read_ipv6_wf, E6.
Qed.
Lemma read_port_range s p r : read_port s = Some (p, r) -> 0 <= p <= 65535.
Proof. unfold read_port. destruct (read_given colon s); [apply read_number_range | discriminate]. Qed.
Lemma read_scope_range s x r : read_scope_id s = Some (x, r) -> 0 <= x <= 4294967295.
Proof. unfold read_scope_id. destruct (read_given (zb 37) s); [apply read_number_range | discriminate]. Qed.
Lemma read_socket_v4_wf s a r : read_socket_addr_v4 s = Some (a, r) -> socket_wf a.
Proof.
  unfold read_socket_addr_v4. destruct (read_ipv4_addr s) as [[n r1]|] eqn:E; [|discriminate]. destruct (read_port r1) as [[p r2]|] eqn:P; [|discriminate].
  intros [= <- _]. split; [eapply read_ipv4_range, E | split; [eapply read_port_range, P | reflexivity]].
Qed.
Lemma read_socket_v6_wf s a r : read_socket_addr_v6 s = Some (a, r) -> socket_wf a.
Proof.
  unfold read_socket_addr_v6. destruct (read_given (zb 91) s) as [s1|]; [|discriminate]. destruct (read_ipv6_addr s1) as [[gs s2]|] eqn:E; [|discriminate].
  destruct (match read_scope_id s2 with Some x => x | None => (0, s2) end) as [scope s3] eqn:Sc.
  assert (0 <= scope <= 4294967295) as Hs.
  { destruct (read_scope_id s2) as [[x r']|] eqn:R; injection Sc as <- _; [eapply read_scope_range, R | lia]. }
  destruct (read_given (zb 93) s3) as [s4|]; [|discriminate]. destruct (read_port s4) as [[p r2]|] eqn:P; [|discriminate].
  intros [= <- _]. split; [eapply read_ipv6_wf, E | split; [eapply read_port_range, P | exact Hs]].
Qed.
Lemma parse_socket_addr_wf s a : parse_socket_addr s = Some a -> socket_wf a.
Proof.
  unfold parse_socket_addr. destruct (read_socket_addr_v4 s) as [[a' r]|] eqn:E4; [|destruct (read_socket_addr_v6 s) as [[a' r]|] eqn:E6; [|discriminate]];
    (destruct r; [|discriminate]; intros [= <-]); [eapply read_socket_v4_wf, E4 | eapply read_socket_v6_wf, E6].
Qed.
Lemma parse_socket_wf s ip port : parse_socket s = Some (ip, port) -> ip_wf ip.
Proof. unfold parse_socket. destruct (parse_socket_addr s) as [a|] eqn:E; [|discriminate]. intros [= <- _]. apply (parse_socket_addr_wf _ _ E). Qed.
Lemma v6_bits_range gs : ip_wf (V6 gs) -> 0 <= v6_bits gs < 2 ^ 128.
Proof.
  intros [L F]. unfold v6_bits.
  assert (forall l k acc, Forall (fun g => 0 <= g < 2 ^ 16) l -> 0 <= acc < 2 ^ (16 * Z.of_nat k) ->
            0 <= fold_left (fun acc g => acc * 65536 + g) l acc < 2 ^ (16 * Z.of_nat (k + length l))) as Gen.
  { clear. induction l as [|g l IH]; intros k acc F Ha; cbn [fold_left length]; [rewrite Nat.add_0_r; exact Ha|].
    apply List.Forall_cons_iff in F as [Hg F]. rewrite Nat.add_succ_r, <- Nat.add_succ_l. apply IH; [exact F|].
    replace (16 * Z.of_nat (S k)) with (16 * Z.of_nat k + 16) by lia. rewrite Z.pow_add_r by lia. change (2 ^ 16) with 65536 in *. nia. }
  pose proof (Gen gs 0%nat 0 F ltac:(cbn; lia)) as G. rewrite L in G. exact G.
Qed.
