(* ===== verification/Identity.v ===== *)
(** * Identity: who a request is accounted to

    Model of the identity policy of [crates/oxo-pingora-edge/src/lib.rs]
    ([PublicIdentityPolicy], [TrustedProxyPolicy], [IpCidr]) and of its two callers in
    [platform/proxy.rs].  In trusted-proxy mode the client is the rightmost address of the
    one [X-Forwarded-For] chain that is not itself a trusted proxy; in direct mode it is the
    socket's peer. *)

From S2P Require Import Prelude Text HeaderPolicy EdgeHeaders IpText.

(** ** CIDR blocks *)

Record IpCidr : Type := { network : IpAddr; prefix : Z }.

(** [u32::MAX << (32 - prefix)] keeps the low 32 bits of the shift. *)
Definition prefix_match (width : Z) (network ip prefix : Z) : bool :=
  if prefix =? 0 then true
  else let mask := Z.shiftl (2 ^ width - 1) (width - prefix) mod 2 ^ width in
       Z.land network mask =? Z.land ip mask.
Definition prefix_match_u32 : Z -> Z -> Z -> bool := prefix_match 32.
Definition prefix_match_u128 : Z -> Z -> Z -> bool := prefix_match 128.

Inductive cidr_error : Type := NoPrefix | InvalidAddress | InvalidPrefix | PrefixTooLong (max : Z).
Definition max_prefix (ip : IpAddr) : Z := match ip with V4 _ => 32 | V6 _ => 128 end.
Definition cidr_parse (raw : bytes) : result cidr_error IpCidr :=
  let? (network, prefix) := ok_or (split_once (zb 47) raw) NoPrefix in
  let? network := ok_or (parse_ip network) InvalidAddress in
  let? prefix := ok_or (parse_uint 255 prefix) InvalidPrefix in
  if prefix >? max_prefix network then Err (PrefixTooLong (max_prefix network))
  else Ok {| network := network; prefix := prefix |}.

Definition cidr_contains (c : IpCidr) (ip : IpAddr) : bool :=
  match network c, ip with
  | V4 n, V4 i => prefix_match_u32 n i (prefix c)
  | V6 n, V6 i => prefix_match_u128 (v6_bits n) (v6_bits i) (prefix c)
  | _, _ => false
  end.

(** ** The trusted-proxy policy *)

Abbreviation TrustedProxyPolicy := (list IpCidr).
Fixpoint parse_cidrs (raws : list bytes) : result cidr_error (list IpCidr) :=
  match raws with
  | [] => Ok []
  | raw :: raws' => let? c := cidr_parse raw in let? cs := parse_cidrs raws' in Ok (c :: cs)
  end.
(** [parse_all]; [None] is the error for an empty list. *)
Definition parse_all (raws : list bytes) : result (option cidr_error) TrustedProxyPolicy :=
  match raws with [] => Err None | _ => map_err Some (parse_cidrs raws) end.
Definition trusts (p : TrustedProxyPolicy) (ip : IpAddr) : bool := existsb (fun c => cidr_contains c ip) p.

Inductive IdentityRejection : Type :=
| MalformedImmediatePeer
| UntrustedImmediatePeer
| MissingForwardedFor
| DuplicateForwardedFor
| AmbiguousForwardingHeader
| MalformedForwardedFor
| NoUntrustedClientIp.
Definition rejection_status (r : IdentityRejection) : Z := match r with UntrustedImmediatePeer => 403 | _ => 400 end.

(** The header loop: [seen] is [x_forwarded_for]. *)
Fixpoint find_chain (hs : list (bytes * bytes)) (seen : option bytes) : result IdentityRejection (option bytes) :=
  match hs with
  | [] => Ok seen
  | (lower, value) :: hs' =>
      if eq_bytes lower (bs "x-forwarded-for") then
        match seen with Some _ => Err DuplicateForwardedFor | None => find_chain hs' (Some value) end
      else if is_client_forwarding_header lower then Err AmbiguousForwardingHeader
      else find_chain hs' seen
  end.
Fixpoint parse_chain (tokens : list bytes) : result IdentityRejection (list IpAddr) :=
  match tokens with
  | [] => Ok []
  | t :: tokens' =>
      let token := trim t in
      if (length token =? 0)%nat then Err MalformedForwardedFor
      else let? ip := ok_or (parse_ip token) MalformedForwardedFor in
           let? ips := parse_chain tokens' in Ok (ip :: ips)
  end.
Fixpoint first_untrusted (p : TrustedProxyPolicy) (ips : list IpAddr) : option IpAddr :=
  match ips with
  | [] => None
  | ip :: ips' => if trusts p ip then first_untrusted p ips' else Some ip
  end.

Definition resolve_remote_addr_core (p : TrustedProxyPolicy) (peer_ip : IpAddr) (lowered : list (bytes * bytes))
    : result IdentityRejection bytes :=
  if negb (trusts p peer_ip) then Err UntrustedImmediatePeer
  else
    let? seen := find_chain lowered None in
    let? chain := ok_or seen MissingForwardedFor in
    let? parsed := parse_chain (split_byte comma chain) in
    match first_untrusted p (rev parsed) with
    | Some ip => Ok (show_ip ip)
    | None => Err NoUntrustedClientIp
    end.

Definition parse_peer_ip (peer_addr : bytes) : option IpAddr :=
  match parse_ip peer_addr with
  | Some ip => Some ip
  | None => match parse_socket peer_addr with Some (ip, _) => Some ip | None => None end
  end.
Definition normalize_peer_addr (peer_addr : bytes) : bytes :=
  match parse_peer_ip peer_addr with Some ip => show_ip ip | None => peer_addr end.

Definition trusted_resolve_remote_addr (p : TrustedProxyPolicy) (peer_addr : bytes) (hs : list (bytes * bytes))
    : result IdentityRejection bytes :=
  let? peer_ip := ok_or (parse_peer_ip peer_addr) MalformedImmediatePeer in
  resolve_remote_addr_core p peer_ip (map (fun h => (to_ascii_lowercase (fst h), snd h)) hs).
Definition resolve_remote_addr_lowered (p : TrustedProxyPolicy) (peer_ip : IpAddr) (hs : list LoweredHeader)
    : result IdentityRejection bytes :=
  resolve_remote_addr_core p peer_ip (map (fun h => (lower h, lh_value h)) hs).

Inductive PublicIdentityPolicy : Type := DirectPublic | TrustedProxy (p : TrustedProxyPolicy).
Definition resolve_remote_addr (policy : PublicIdentityPolicy) (peer_addr : bytes) (hs : list (bytes * bytes))
    : result IdentityRejection bytes :=
  match policy with
  | DirectPublic => Ok (normalize_peer_addr peer_addr)
  | TrustedProxy p => trusted_resolve_remote_addr p peer_addr hs
  end.

(** ** The proxy's two callers *)

(** The session's client address: none, an internet address, or another kind with its text. *)
Inductive client_addr : Type := NoAddr | Inet (ip : IpAddr) (port : Z) | OtherAddr (text : bytes).
Definition addr_text (a : client_addr) : bytes :=
  match a with NoAddr => bs "127.0.0.1" | Inet ip port => show_socket ip port | OtherAddr t => t end.

Definition direct_public_remote_addr (a : client_addr) : bytes :=
  match a with NoAddr => bs "127.0.0.1" | Inet ip _ => show_ip ip | OtherAddr t => t end.
(** The identity step of [admit]. *)
Definition admitted_identity (policy : PublicIdentityPolicy) (a : client_addr) (hs : list LoweredHeader) : result IdentityRejection bytes :=
  match policy with
  | DirectPublic => Ok (direct_public_remote_addr a)
  | TrustedProxy p =>
      let peer := match a with NoAddr => Some (V4 2130706433) | Inet ip _ => Some ip | OtherAddr _ => None end in
      let? ip := ok_or peer MalformedImmediatePeer in resolve_remote_addr_lowered p ip hs
  end.

(** [sticky_key_from_parts]; [hash] is the standard hasher over the peer and the time stamp. *)
Definition sticky_key_from_parts (hash : IpAddr * Z -> Z -> Z) (is_h2 : bool) (peer : option (IpAddr * Z)) (established_nanos : option Z) : option Z :=
  if is_h2 then None
  else match peer, established_nanos with
       | Some a, Some n => if n =? 0 then None else Some (hash a n)
       | _, _ => None
       end.

(** ** Prefix arithmetic *)

Lemma mask_land width k n :
  0 <= k -> 0 <= width - k -> 0 <= n < 2 ^ width ->
  Z.land n (Z.shiftl (2 ^ width - 1) k mod 2 ^ width) = Z.shiftl (Z.shiftr n k) k.
Proof.
  intros Hk Hw Hn. apply Z.bits_inj'. intros i Hi. rewrite Z.land_spec, Z.shiftl_spec by lia.
  assert (2 ^ width - 1 = Z.ones width) as -> by (rewrite Z.ones_equiv; lia).
  destruct (Z.lt_ge_cases i width) as [Iw|Iw].
  - rewrite Z.mod_pow2_bits_low, Z.shiftl_spec by lia. destruct (Z.lt_ge_cases i k) as [Ik|Ik].
    + rewrite !(fun a => Z.testbit_neg_r a (i - k)) by lia. apply andb_false_r.
    + rewrite Z.ones_spec_low, Z.shiftr_spec by lia. rewrite andb_true_r. f_equal. lia.
  - rewrite Z.mod_pow2_bits_high, andb_false_r by lia. destruct (Z.lt_ge_cases i k); [rewrite Z.testbit_neg_r by lia; reflexivity|].
    rewrite Z.shiftr_spec by lia. replace (i - k + k) with i by lia. symmetry.
    rewrite <- (Z.mod_small n (2 ^ width)) by lia. apply Z.mod_pow2_bits_high. lia.
Qed.
Lemma prefix_match_exact width n i p :
  0 <= p <= width -> 0 <= n < 2 ^ width -> 0 <= i < 2 ^ width ->
  (prefix_match width n i p = true <-> n / 2 ^ (width - p) = i / 2 ^ (width - p)).
Proof.
  intros Hp Hn Hi. unfold prefix_match. destruct (p =? 0) eqn:P0.
  - apply Z.eqb_eq in P0 as ->. rewrite Z.sub_0_r, !Z.div_small by lia. tauto.
  - rewrite !mask_land by lia. rewrite Z.eqb_eq, <- !Z.shiftr_div_pow2 by lia. split; [|congruence].
    intros E. apply (f_equal (fun x => Z.shiftr x (width - p))) in E. rewrite !Z.shiftr_shiftl_l in E by lia.
    rewrite Z.sub_diag, !Z.shiftl_0_r in E. exact E.
Qed.

Definition ip_bits (ip : IpAddr) : Z := match ip with V4 n => n | V6 gs => v6_bits gs end.
Definition same_family (a b : IpAddr) : Prop := match a, b with V4 _, V4 _ | V6 _, V6 _ => True | _, _ => False end.
Definition cidr_wf (c : IpCidr) : Prop := ip_wf (network c) /\ 0 <= prefix c <= max_prefix (network c).
Lemma cidr_contains_leading c ip :
  cidr_wf c -> ip_wf ip ->
  (cidr_contains c ip = true <->
   same_family (network c) ip /\
   ip_bits (network c) / 2 ^ (max_prefix ip - prefix c) = ip_bits ip / 2 ^ (max_prefix ip - prefix c)).
Proof.
  destruct c as [[n|n] p], ip as [i|i]; unfold cidr_wf, cidr_contains, prefix_match_u32, prefix_match_u128; cbn [network prefix same_family ip_bits max_prefix]; intros [W Hp] Wi.
  - rewrite prefix_match_exact by (exact Hp || exact W || exact Wi). tauto.
  - split; [discriminate | tauto].
  - split; [discriminate | tauto].
  - rewrite prefix_match_exact by (exact Hp || apply v6_bits_range, W || apply v6_bits_range, Wi). tauto.
Qed.
Lemma cidr_parse_wf raw c : cidr_parse raw = Ok c -> cidr_wf c.
Proof.
  unfold cidr_parse. destruct (split_once (zb 47) raw) as [[n p]|]; [|discriminate]. cbn [ok_or rbind].
  destruct (parse_ip n) as [ip|] eqn:En; [|discriminate]. cbn [ok_or rbind]. destruct (parse_uint 255 p) as [k|] eqn:Ek; [|discriminate]. cbn [ok_or rbind].
  destruct (k >? max_prefix ip) eqn:L; [discriminate|]. intros [= <-]. apply parse_uint_range in Ek; [|lia].
  split; [eapply parse_ip_wf, En | cbn [prefix network]; lia].
Qed.

(** C26. A configured CIDR block means its leading bits: every accepted text denotes a valid
    address of 32 or 128 bits and a prefix no longer than that, and the block contains an
    address exactly if it is of the same family and agrees with the network on the first
    [prefix] bits - also for the prefixes 0 and 32 or 128, where the mask of the code would
    shift out of the word. *)
Theorem cidr_blocks_match_leading_bits raw c ip :
  cidr_parse raw = Ok c -> ip_wf ip ->
  cidr_wf c /\
  (cidr_contains c ip = true <->
   same_family (network c) ip /\
   ip_bits (network c) / 2 ^ (max_prefix ip - prefix c) = ip_bits ip / 2 ^ (max_prefix ip - prefix c)).
Proof. intros P W. apply cidr_parse_wf in P. split; [exact P | apply cidr_contains_leading; assumption]. Qed.
Lemma cidr_blocks_match_leading_bits_witness :
  cidr_contains {| network := V4 167772160; prefix := 8 |} (V4 167837955) = true.
Proof.
  apply (proj2 (proj2 (cidr_blocks_match_leading_bits (bs "10.0.0.0/8") {| network := V4 167772160; prefix := 8 |} (V4 167837955)
                         ltac:(vm_compute; reflexivity) ltac:(cbn; lia)))).
  split; [exact I | vm_compute; reflexivity].
Defined.

(** ** The chain *)

Definition forwarding_headers (hs : list (bytes * bytes)) : list (bytes * bytes) :=
  List.filter (fun h => is_client_forwarding_header (fst h)) hs.
Definition xff : bytes := bs "x-forwarded-for".
Lemma xff_forwards : is_client_forwarding_header xff = true.
Proof. reflexivity. Qed.

Lemma find_chain_exact hs seen r :
  find_chain hs seen = Ok r <->
  match seen with
  | Some v => forwarding_headers hs = [] /\ r = Some v
  | None => (forwarding_headers hs = [] /\ r = None) \/ exists v, forwarding_headers hs = [(xff, v)] /\ r = Some v
  end.
Proof.
  revert seen r. induction hs as [|[lower value] hs IH]; intros seen r.
  - cbn. destruct seen; split; [intros [= <-]; auto | intros [_ ->]; reflexivity | intros [= <-]; auto | intros [[_ ->]|(v & E & _)]; [reflexivity | discriminate]].
  - cbn [find_chain]. unfold forwarding_headers. cbn [List.filter fst]. fold (forwarding_headers hs).
    destruct (eq_bytes lower (bs "x-forwarded-for")) eqn:E.
    + apply eq_bytes_true in E as ->. fold xff. rewrite xff_forwards. destruct seen as [v|].
      * split; [discriminate | intros [E _]; discriminate].
      * rewrite IH. split; [intros [-> ->]; right; eauto|]. intros [[E _]|(v & [= -> E] & ->)]; [discriminate | auto].
    + destruct (is_client_forwarding_header lower) eqn:F; [|apply IH].
      assert (lower <> xff) as Ne by (intros ->; vm_compute in E; discriminate).
      destruct seen as [v|]; (split; [discriminate|]); [intros [G _]; discriminate|]. intros [[G _]|(v & G & _)]; [discriminate|]. injection G as ? _. contradiction.
Qed.
Lemma parse_chain_exact tokens ips :
  parse_chain tokens = Ok ips <-> map (fun t => parse_ip (trim t)) tokens = map Some ips.
Proof.
  revert ips. induction tokens as [|t tokens IH]; intros ips; cbn [parse_chain map].
  - destruct ips; split; intros E; try discriminate; reflexivity.
  - destruct (length (trim t) =? 0)%nat eqn:L.
    + apply Nat.eqb_eq, length_zero_iff_nil in L. rewrite L. change (parse_ip []) with (@None IpAddr). destruct ips; split; discriminate.
    + destruct (parse_ip (trim t)) as [ip|]; cbn [ok_or rbind]; [|destruct ips; split; discriminate].
      destruct (parse_chain tokens) as [rest|e]; cbn [rbind]; destruct ips as [|i ips]; split; intros E; try discriminate.
      * injection E as -> ->. cbn [map]. f_equal. apply IH. reflexivity.
      * cbn [map] in E. injection E as -> E. apply IH in E. injection E as ->. reflexivity.
      * cbn [map] in E. injection E as _ E. apply IH in E. discriminate.
Qed.
Lemma first_untrusted_exact p ips ip :
  first_untrusted p ips = Some ip <->
  exists pre post, ips = pre ++ ip :: post /\ Forall (fun a => trusts p a = true) pre /\ trusts p ip = false.
Proof.
  induction ips as [|a ips IH]; cbn [first_untrusted].
  - split; [discriminate|]. intros ([|] & post & E & _); discriminate.
  - destruct (trusts p a) eqn:T.
    + rewrite IH. split.
      * intros (pre & post & -> & F & U). exists (a :: pre), post. auto.
      * intros ([|b pre] & post & E & F & U); [injection E as -> _; congruence|]. injection E as -> ->.
        apply List.Forall_cons_iff in F as [_ F]. eauto.
    + split.
      * intros [= ->]. exists [], ips. auto.
      * intros ([|b pre] & post & E & F & U); [injection E as -> _; reflexivity|]. injection E as -> _. apply List.Forall_cons_iff in F as [F _]. congruence.
Qed.

Lemma resolve_core_exact p peer hs s :
  resolve_remote_addr_core p peer hs = Ok s <->
  trusts p peer = true /\
  exists value before ip after,
    forwarding_headers hs = [(xff, value)] /\
    map (fun t => parse_ip (trim t)) (split_byte comma value) = map Some (before ++ ip :: after) /\
    trusts p ip = false /\ Forall (fun a => trusts p a = true) after /\ s = show_ip ip.
Proof.
  unfold resolve_remote_addr_core. destruct (trusts p peer); cbn [negb]; [|split; [discriminate | intros [E _]; discriminate]]. split.
  - intros E. split; [reflexivity|]. destruct (find_chain hs None) as [seen|e] eqn:FC; [|discriminate]. cbn [rbind] in E.
    apply find_chain_exact in FC as [[_ ->]|(v & Ff & ->)]; [discriminate|]. cbn [ok_or rbind] in E.
    destruct (parse_chain _) as [ips|e] eqn:PC; [|discriminate]. cbn [rbind] in E. apply parse_chain_exact in PC.
    destruct (first_untrusted p (rev ips)) as [ip|] eqn:FU; [|discriminate]. injection E as <-.
    apply first_untrusted_exact in FU as (pre & post & Er & F & U). exists v, (rev post), ip, (rev pre).
    split; [exact Ff|]. split; [rewrite PC; f_equal; rewrite <- (rev_involutive ips), Er, rev_app_distr; cbn; rewrite <- app_assoc; reflexivity|].
    split; [exact U|]. split; [apply Forall_rev, F | reflexivity].
  - intros (_ & v & before & ip & after & Ff & PC & U & F & ->).
    rewrite (proj2 (find_chain_exact hs None (Some v))) by (right; eauto). cbn [rbind ok_or].
    rewrite (proj2 (parse_chain_exact _ _) PC). cbn [rbind].
    rewrite (proj2 (first_untrusted_exact p (rev (before ++ ip :: after)) ip)); [reflexivity|].
    exists (rev after), (rev before). split; [rewrite rev_app_distr; cbn; rewrite <- app_assoc; reflexivity|]. split; [apply Forall_rev, F | exact U].
Qed.

(** C6. The identity in trusted-proxy mode, exactly: the edge accepts a request if and only
    if the immediate peer is a trusted proxy, [x-forwarded-for] is the only header of the
    forwarding family and appears once, and every element of its list is an IP address; the
    identity is then the canonical text of the rightmost address that is not a trusted
    proxy, all addresses to its right being trusted. *)
Theorem trusted_identity_is_the_rightmost_untrusted p peer_addr hs s :
  trusted_resolve_remote_addr p peer_addr hs = Ok s <->
  exists peer value before ip after,
    parse_peer_ip peer_addr = Some peer /\ trusts p peer = true /\
    forwarding_headers (map (fun h => (to_ascii_lowercase (fst h), snd h)) hs) = [(xff, value)] /\
    map (fun t => parse_ip (trim t)) (split_byte comma value) = map Some (before ++ ip :: after) /\
    trusts p ip = false /\ Forall (fun a => trusts p a = true) after /\ s = show_ip ip.
Proof.
  unfold trusted_resolve_remote_addr. destruct (parse_peer_ip peer_addr) as [peer|]; cbn [ok_or rbind].
  - rewrite resolve_core_exact. split.
    + intros (T & v & b & ip & a & R). exists peer, v, b, ip, a. tauto.
    + intros (peer' & v & b & ip & a & [= <-] & T & R). split; [exact T | exists v, b, ip, a; exact R].
  - split; [discriminate|]. intros (peer & ? & ? & ? & ? & E & _). discriminate.
Qed.

Lemma split_byte_app c a b : split_byte c (a ++ [c] ++ b) = split_byte c a ++ split_byte c b.
Proof.
  induction a as [|x a IH]; cbn [app split_byte]; [rewrite decide_True by reflexivity; reflexivity|].
  destruct (decide (x = c)); [cbn [app] in IH; rewrite IH; reflexivity|]. cbn [app] in IH. rewrite IH.
  assert (split_byte c a <> []) as Ne by (destruct a as [|y a']; cbn; [discriminate|]; destruct (decide _); [discriminate|]; destruct (split_byte c a'); discriminate).
  destruct (split_byte c a); [contradiction | reflexivity].
Qed.
Lemma forwarding_headers_app a b : forwarding_headers (a ++ b) = forwarding_headers a ++ forwarding_headers b.
Proof. apply List.filter_app. Qed.

(** What a client sends cannot choose its identity: if the chain that the trusted proxies
    wrote resolves to some address, then with anything the client put in front of it - the
    proxies append to the right - the edge resolves to the same address or rejects the
    request as malformed. *)
Theorem client_prefix_cannot_spoof p peer before after chain evil s :
  resolve_remote_addr_core p peer (before ++ (xff, chain) :: after) = Ok s ->
  resolve_remote_addr_core p peer (before ++ (xff, evil ++ [comma] ++ chain) :: after) = Ok s \/
  resolve_remote_addr_core p peer (before ++ (xff, evil ++ [comma] ++ chain) :: after) = Err MalformedForwardedFor.
Proof.
  intros R. apply resolve_core_exact in R as (T & v & b & ip & a & Ff & PC & U & F & ->).
  rewrite forwarding_headers_app in Ff. unfold forwarding_headers at 2 in Ff. cbn [List.filter fst] in Ff. rewrite xff_forwards in Ff.
  fold (forwarding_headers after) in Ff.
  assert (forwarding_headers before = [] /\ forwarding_headers after = [] /\ v = chain) as (Fb & Fa & ->).
  { destruct (forwarding_headers before) as [|x [|y l]]; cbn in Ff; [injection Ff as -> ->; auto | discriminate | discriminate]. }
  assert (forwarding_headers (before ++ (xff, evil ++ [comma] ++ chain) :: after) = [(xff, evil ++ [comma] ++ chain)]) as Ff'.
  { rewrite forwarding_headers_app, Fb. unfold forwarding_headers at 1. cbn [List.filter fst]. rewrite xff_forwards. fold (forwarding_headers after). rewrite Fa. reflexivity. }
  destruct (parse_chain (split_byte comma evil)) as [ips|e] eqn:PE.
  - left. apply resolve_core_exact. split; [exact T|]. exists (evil ++ [comma] ++ chain), (ips ++ b), ip, a. split; [exact Ff'|].
    split; [|auto]. apply parse_chain_exact in PE. rewrite split_byte_app, map_app, PE, PC, <- map_app, app_assoc. reflexivity.
  - right. unfold resolve_remote_addr_core. rewrite T. cbn [negb].
    rewrite (proj2 (find_chain_exact _ None (Some (evil ++ [comma] ++ chain)))) by (right; eauto). cbn [rbind ok_or].
    rewrite split_byte_app.
    assert (forall l l' x, parse_chain l = Err x -> parse_chain (l ++ l') = Err MalformedForwardedFor) as Bad.
    { clear. induction l as [|t l IH]; intros l' x; cbn [parse_chain app]; [discriminate|]. destruct (length (trim t) =? 0)%nat; [reflexivity|].
      destruct (parse_ip (trim t)); cbn [ok_or rbind]; [|reflexivity]. destruct (parse_chain l) eqn:P; [discriminate|]. intros _. rewrite (IH l' _ eq_refl). reflexivity. }
    rewrite (Bad _ _ _ PE). reflexivity.
Qed.
Lemma client_prefix_cannot_spoof_witness :
  let p := [{| network := V4 167772160; prefix := 8 |}] in
  resolve_remote_addr_core p (V4 167837955) [(xff, bs "127.0.0.1" ++ [comma] ++ bs "198.51.100.42, 10.1.2.3")] = Ok (bs "198.51.100.42").
Proof.
  intros p. destruct (client_prefix_cannot_spoof p (V4 167837955) [] [] (bs "198.51.100.42, 10.1.2.3") (bs "127.0.0.1") (bs "198.51.100.42")) as [E|E].
  - vm_compute. reflexivity.
  - exact E.
  - vm_compute in E. discriminate.
Defined.

(** The two ways the edge derives an identity agree: for every client address and policy,
    resolving from the typed socket address and the once-lowered headers (the proxy's
    path) gives what resolving from the address's text and the raw headers gives; so the
    canonical address text of the direct path is also what parsing and printing yields. *)
Theorem typed_and_textual_identity_agree policy a raw :
  match a with Inet ip port => ip_wf ip /\ 0 <= port <= 65535 | OtherAddr t => parse_peer_ip t = None | NoAddr => True end ->
  admitted_identity policy a (map (fun h => lh_new (fst h) (snd h)) raw) = resolve_remote_addr policy (addr_text a) raw.
Proof.
  intros W.
  assert (parse_peer_ip (addr_text a) = match a with NoAddr => Some (V4 2130706433) | Inet ip _ => Some ip | OtherAddr _ => None end) as PP.
  { destruct a as [|ip port|t]; cbn [addr_text]; [vm_compute; reflexivity | | exact W]. destruct W as [Wi Wp].
    unfold parse_peer_ip. destruct (parse_show_socket ip port Wi Wp) as [-> ->]. reflexivity. }
  unfold admitted_identity, resolve_remote_addr. destruct policy as [|p].
  - unfold normalize_peer_addr. rewrite PP. destruct a; reflexivity.
  - unfold trusted_resolve_remote_addr. rewrite PP. destruct a; cbn [ok_or rbind]; try reflexivity;
      unfold resolve_remote_addr_lowered; f_equal; rewrite map_map; apply map_ext; intros [n v]; cbn [fst snd];
      rewrite lower_wf by reflexivity; reflexivity.
Qed.
Lemma typed_and_textual_identity_agree_witness :
  admitted_identity DirectPublic (Inet (V6 [8193; 3512; 0; 0; 0; 0; 0; 7]) 443) [] = Ok (bs "2001:db8::7") /\
  normalize_peer_addr (bs "[2001:db8::7]:443") = bs "2001:db8::7".
Proof.
  split; [|vm_compute; reflexivity].
  etransitivity; [apply (typed_and_textual_identity_agree DirectPublic (Inet (V6 [8193; 3512; 0; 0; 0; 0; 0; 7]) 443) [])|].
  - split; [split; [reflexivity | repeat constructor; lia] | lia].
  - vm_compute. reflexivity.
Defined.
