(* ===== verification/AcmeState.v ===== *)
(** * AcmeState: the certificate state directory

    Model of [crates/oxo-pingora-edge/src/acme/state.rs] and of the renewal decision of
    [acme/issue.rs].  The directory is a finite map of files; every file-system call is one
    operation on it that succeeds, fails with an I/O error, or is the point at which the
    process dies ([verdict]).  A failed or interrupted write leaves any bytes in its
    temporary file.  JSON documents are values; how they are written to bytes and read back,
    and what is in a certificate, are the work of libraries and stay parameters. *)

From S2P Require Import Prelude Text.

(** ** Files *)

Inductive name : Type :=
| AccountJson | CertPem | KeyPem | LastIssueJson | LastFailureJson | ReloadRequiredJson | ReloadFailureJson
| RetainedCert (epoch : Z) | RetainedKey (epoch : Z) | RetainedIssue (epoch : Z).
#[global] Instance name_eq_dec : EqDecision name.
Proof. solve_decision. Defined.
Definition name_code (n : name) : nat * Z :=
  match n with
  | AccountJson => (0%nat, 0) | CertPem => (1%nat, 0) | KeyPem => (2%nat, 0) | LastIssueJson => (3%nat, 0) | LastFailureJson => (4%nat, 0)
  | ReloadRequiredJson => (5%nat, 0) | ReloadFailureJson => (6%nat, 0)
  | RetainedCert e => (7%nat, e) | RetainedKey e => (8%nat, e) | RetainedIssue e => (9%nat, e)
  end.
Definition name_of_code (c : nat * Z) : name :=
  match c with
  | (0%nat, _) => AccountJson | (1%nat, _) => CertPem | (2%nat, _) => KeyPem | (3%nat, _) => LastIssueJson | (4%nat, _) => LastFailureJson
  | (5%nat, _) => ReloadRequiredJson | (6%nat, _) => ReloadFailureJson
  | (7%nat, e) => RetainedCert e | (8%nat, e) => RetainedKey e | (_, e) => RetainedIssue e
  end.
#[global] Instance name_countable : Countable name.
Proof. apply (inj_countable' name_code name_of_code). intros []; reflexivity. Defined.

(** A file, or the temporary sibling [<stem>.tmp.<pid>] it is staged in. *)
Abbreviation path := (name * bool)%type.
Definition Final (n : name) : path := (n, false).
Definition Tmp (n : name) : path := (n, true).
Record file : Type := { content : bytes; mode : Z }.
Abbreviation disk := (gmap path file).

(** ** Failures *)

Inductive AcmeError : Type :=
| InvalidConfig (message : bytes)
| InvalidChallenge (message : bytes)
| InvalidIssuance (message : bytes)
| PoisonedChallengeStore
| BindChallenge (detail : bytes)
| Io (action detail : bytes)
| Json (action detail : bytes)
| InstantAcme (detail : bytes).
(** [to_string()]; the address in the text of [BindChallenge] is part of its detail. *)
Definition display (e : AcmeError) : bytes :=
  match e with
  | InvalidConfig m => bs "invalid ACME configuration: " ++ m
  | InvalidChallenge m => bs "invalid ACME challenge: " ++ m
  | InvalidIssuance m => bs "invalid ACME issuance: " ++ m
  | PoisonedChallengeStore => bs "ACME challenge store lock was poisoned"
  | BindChallenge d => bs "failed to bind ACME challenge listener " ++ d
  | Io a d => bs "ACME IO while trying to " ++ a ++ bs ": " ++ d
  | Json a d => bs "ACME JSON while trying to " ++ a ++ bs ": " ++ d
  | InstantAcme d => bs "instant-acme: " ++ d
  end.
Inductive stop : Type := Failed (e : AcmeError) | Died.

(** What happens to a file-system call; [torn] is what a write leaves behind. *)
Inductive verdict : Type :=
| Fine
| IoFails (detail torn : bytes)
| Dies (torn : bytes).

Record host : Type := {
  files : disk;
  plan : list verdict;              (** the verdicts of the next calls, then [Fine] *)
  locked : bool;                    (** some open handle holds the issuance lock *)
  contacts : nat;                   (** how often the certificate authority was contacted *)
}.
Definition with_files (h : host) (d : disk) (p : list verdict) : host :=
  {| files := d; plan := p; locked := locked h; contacts := contacts h |}.
Definition with_lock (h : host) (b : bool) : host :=
  {| files := files h; plan := plan h; locked := b; contacts := contacts h |}.

Definition io (A : Type) : Type := host -> result stop A * host.
Definition ret {A} (a : A) : io A := fun h => (Ok a, h).
Definition fail {A} (e : AcmeError) : io A := fun h => (Err (Failed e), h).
Definition bind {A B} (c : io A) (k : A -> io B) : io B :=
  fun h => match c h with (Ok a, h') => k a h' | (Err e, h') => (Err e, h') end.
Notation "'let!' x ':=' c 'in' k" := (bind c (fun x => k))
  (at level 10, x pattern, c at level 200, k at level 200) : oxo_scope.
Definition of_result {A} (r : result AcmeError A) : io A := match r with Ok a => ret a | Err e => fail e end.

(** A call that changes the disk by [f] when it succeeds and by [g torn] when it does not. *)
Definition call (action : bytes) (f : disk -> disk) (g : bytes -> disk -> disk) : io unit :=
  fun h => match plan h with
           | [] => (Ok tt, with_files h (f (files h)) [])
           | Fine :: p => (Ok tt, with_files h (f (files h)) p)
           | IoFails d torn :: p => (Err (Failed (Io action d)), with_files h (g torn (files h)) p)
           | Dies torn :: p => (Err Died, with_files h (g torn (files h)) (Dies torn :: p))
           end.
Definition untouched (torn : bytes) (d : disk) : disk := d.
Definition get_files : io disk := fun h => (Ok (files h), h).

(** [fs::read]: [None] when the file is not there. *)
Definition fs_read (action : bytes) (p : path) : io (option bytes) :=
  let! _ := call action (fun d => d) untouched in let! d := get_files in ret (content <$> d !! p).
(** [fs::remove_file], where a missing file is no error. *)
Definition fs_remove (action : bytes) (n : name) : io unit := call action (delete (Final n)) untouched.
Definition exists_file (n : name) : io bool := let! d := get_files in ret (bool_decide (is_Some (d !! Final n))).

(** ** Writing *)

(** The mode of a newly created file before [set_path_mode]. *)
Definition default_mode : Z := 420.
Definition open_tmp (n : name) (d : disk) : disk :=
  <[Tmp n := {| content := []; mode := match d !! Tmp n with Some f => mode f | None => default_mode end |}]> d.
Definition write_tmp (n : name) (data : bytes) (d : disk) : disk :=
  match d !! Tmp n with Some f => <[Tmp n := {| content := data; mode := mode f |}]> d | None => d end.
Definition chmod_tmp (n : name) (m : Z) (d : disk) : disk :=
  match d !! Tmp n with Some f => <[Tmp n := {| content := content f; mode := m |}]> d | None => d end.
Definition rename_tmp (n : name) (d : disk) : disk :=
  match d !! Tmp n with Some f => <[Final n := f]> (delete (Tmp n) d) | None => d end.

Definition stage_private (n : name) (data : bytes) (m : Z) : io unit :=
  let! _ := call (bs "open ACME state temp file") (open_tmp n) untouched in
  let! _ := call (bs "write ACME state temp file") (write_tmp n data) (fun torn => write_tmp n torn) in
  let! _ := call (bs "sync ACME state temp file") (fun d => d) untouched in
  call (bs "set ACME state permissions") (chmod_tmp n m) untouched.
Definition write_file_private (n : name) (data : bytes) (m : Z) : io unit :=
  let! _ := stage_private n data m in
  call (bs "rename ACME state temp file") (rename_tmp n) untouched.
Definition write_cert_key_pair (cert_bytes key_bytes : bytes) : io unit :=
  let! _ := stage_private CertPem cert_bytes 420 in
  let! _ := stage_private KeyPem key_bytes 384 in
  let! _ := call (bs "rename ACME certificate temp file") (rename_tmp CertPem) untouched in
  call (bs "rename ACME private key temp file") (rename_tmp KeyPem) untouched.
Definition copy_file_private (source target : name) (m : Z) : io unit :=
  let! data := fs_read (bs "read ACME retained source file") (Final source) in
  match data with
  | Some b => write_file_private target b m
  | None => fail (Io (bs "read ACME retained source file") (bs "not found"))
  end.

(** ** Documents *)

#[warnings="-register-all"]
Inductive json : Type :=
| JNull
| JBool (b : bool)
| JNum (n : Z)
| JStr (s : bytes)
| JObj (fields : list (bytes * json)).
Definition json_get (key : bytes) (v : json) : option json :=
  match v with
  | JObj fs => match List.find (fun f => eq_bytes (fst f) key) fs with Some f => Some (snd f) | None => None end
  | _ => None
  end.
Definition json_u64 (v : json) (key : bytes) : option Z :=
  match json_get key v with Some (JNum n) => if (0 <=? n) && (n <=? u64_max) then Some n else None | _ => None end.
Definition json_string (v : json) (key : bytes) : option bytes :=
  match json_get key v with Some (JStr s) => Some s | _ => None end.
Definition json_bool (v : json) (key : bytes) : option bool :=
  match json_get key v with Some (JBool b) => Some b | _ => None end.
Definition opt_num (o : option Z) : json := match o with Some n => JNum n | None => JNull end.

Record AcmeRenewalPolicy : Type := {
  renew_before_seconds : Z; retry_base_seconds : Z; retry_max_seconds : Z; retry_jitter_seconds : Z; rate_limit_floor_seconds : Z }.
Definition default_policy : AcmeRenewalPolicy :=
  {| renew_before_seconds := 2592000; retry_base_seconds := 60; retry_max_seconds := 21600; retry_jitter_seconds := 300;
     rate_limit_floor_seconds := 3600 |}.
Record IssuedCertificate : Type := {
  issued_fqdn : bytes; certificate_pem : bytes; private_key_pem : bytes; issued_not_after : option Z }.

Definition reload_json (now : Z) : json :=
  JObj [(bs "reload_required", JBool true); (bs "strategy", JStr (bs "bounded-restart")); (bs "plaintext_fallback", JBool false);
        (bs "updated_at_epoch_seconds", JNum now); (bs "reason", JStr (bs "certificate material changed"))].
Definition issue_json (issued : IssuedCertificate) (policy : AcmeRenewalPolicy) (not_after : option Z) (now : Z) : json :=
  JObj [(bs "fqdn", JStr (issued_fqdn issued)); (bs "certificate", JStr (bs "cert.pem")); (bs "private_key", JStr (bs "key.pem"));
        (bs "not_after_epoch_seconds", opt_num not_after); (bs "renew_before_seconds", JNum (renew_before_seconds policy));
        (bs "next_renewal_epoch_seconds", opt_num ((fun n => saturating_sub n (renew_before_seconds policy)) <$> not_after));
        (bs "issued_at_epoch_seconds", JNum now);
        (bs "claim", JStr (bs "managed certificate lifecycle; no production mode or zero-drop reload claim"))].
Definition failure_json (kind message : bytes) (count now next : Z) : json :=
  JObj [(bs "kind", JStr kind); (bs "message", JStr message); (bs "failure_count", JNum count); (bs "failed_at_epoch_seconds", JNum now);
        (bs "next_attempt_epoch_seconds", JNum next); (bs "plaintext_fallback", JBool false)].
Definition reload_failure_json (now : Z) (reason : bytes) : json :=
  JObj [(bs "failed_at_epoch_seconds", JNum now); (bs "reason", JStr reason); (bs "rolled_back", JBool true)].

(** ** The retry schedule *)

Definition deterministic_jitter (now failure_count jitter_seconds : Z) : Z :=
  if jitter_seconds =? 0 then 0
  else let mixed := (now * 6364136223846793005 mod 2 ^ 64 + failure_count * 1442695040888963407 mod 2 ^ 64) mod 2 ^ 64 in
       mixed mod (jitter_seconds + 1).
Definition next_attempt_after_failure (now failure_count : Z) (policy : AcmeRenewalPolicy) (kind : bytes) (retry_after : option Z) : Z :=
  let exponent := Z.min (saturating_sub failure_count 1) 20 in
  let base := Z.min (saturating_mul (retry_base_seconds policy) (Z.shiftl 1 exponent)) (retry_max_seconds policy) in
  let jitter := deterministic_jitter now failure_count (retry_jitter_seconds policy) in
  let next := saturating_add (saturating_add now base) jitter in
  let next := if eq_bytes kind (bs "rate_limited") || eq_bytes kind (bs "invalid-certificate")
              then Z.max next (saturating_add now (rate_limit_floor_seconds policy)) else next in
  match retry_after with Some r => Z.max next r | None => next end.
Definition classify_acme_failure (message : bytes) : bytes :=
  let lower := to_ascii_lowercase message in
  if contains_sub (bs "invalid issued certificate") lower then bs "invalid-certificate"
  else if contains_sub (bs "rate") lower || contains_sub (bs "429") lower then bs "rate_limited"
  else bs "transient".

(** ** The state directory's operations *)

Inductive dir_state : Type := DirMissing | DirSymlink | NotADir | DirMode (m : Z).

Section State.
(** The JSON library: writing a document, and reading one ([Err]: the parser's message). *)
Variable to_json : json -> bytes.
Variable from_json : bytes -> result bytes json.
(** The X.509 library: a certificate's expiry, and the check of a pair against a name. *)
Variable certificate_not_after : bytes -> result AcmeError (option Z).
Variable validate_issued_pair : bytes -> bytes -> bytes -> result AcmeError unit.

(** Where the state directory is: whether its path is absolute, and what is found there. *)
Variables (absolute : bool) (dir : dir_state).
Definition prepare : io unit :=
  if negb absolute then fail (InvalidConfig (bs "ACME state path must be absolute"))
  else
    let! _ := call (bs "inspect ACME state directory") (fun d => d) untouched in
    match dir with
    | DirSymlink => fail (InvalidConfig (bs "ACME state directory must not be a symlink"))
    | NotADir => fail (InvalidConfig (bs "ACME state path must be a directory"))
    | DirMode m => if m =? 448 then ret tt else fail (InvalidConfig (bs "ACME state directory must be 0700"))
    | DirMissing =>
        let! _ := call (bs "create ACME state directory") (fun d => d) untouched in
        call (bs "set ACME state permissions") (fun d => d) untouched
    end.

Definition read_json_if_present (n : name) : io (option json) :=
  let! data := fs_read (bs "read ACME state metadata") (Final n) in
  match data with
  | None => ret None
  | Some b => match from_json b with Ok v => ret (Some v) | Err d => fail (Json (bs "decode ACME state metadata") d) end
  end.

Definition retain_existing (now : Z) : io unit :=
  let! cert := exists_file CertPem in
  let! key := exists_file KeyPem in
  if negb (cert || key) then ret tt
  else
    let! _ := call (bs "create ACME retained certificate directory") (fun d => d) untouched in
    let! _ := call (bs "set ACME state permissions") (fun d => d) untouched in
    let! cert := exists_file CertPem in
    let! _ := if cert then copy_file_private CertPem (RetainedCert now) 420 else ret tt in
    let! key := exists_file KeyPem in
    let! _ := if key then copy_file_private KeyPem (RetainedKey now) 384 else ret tt in
    let! meta := exists_file LastIssueJson in
    if meta then copy_file_private LastIssueJson (RetainedIssue now) 420 else ret tt.

Definition persist (issued : IssuedCertificate) (policy : AcmeRenewalPolicy) (now : Z) : io unit :=
  let! not_after := match issued_not_after issued with
                    | Some v => ret (Some v)
                    | None => of_result (certificate_not_after (certificate_pem issued))
                    end in
  let! _ := write_file_private ReloadRequiredJson (to_json (reload_json now)) 420 in
  let! _ := retain_existing now in
  let! _ := write_cert_key_pair (certificate_pem issued) (private_key_pem issued) in
  write_file_private LastIssueJson (to_json (issue_json issued policy not_after now)) 420.

Record CertificateLifecycleStatus : Type := {
  cert_present : bool;
  not_after_epoch_seconds : option Z;
  seconds_until_expiry : option Z;
  renewal_due : bool;
  next_renewal_epoch_seconds : option Z;
  reload_required : bool;
  reload_strategy : option bytes;
  plaintext_fallback : bool;
  failure_count : Z;
  last_error_kind : option bytes;
  last_error_message : option bytes;
  backoff_until_epoch_seconds : option Z;
}.
Definition opt_get {A B} (f : A -> option B) (o : option A) : option B := match o with Some a => f a | None => None end.
Definition or_else {A} (o : option A) (p : option A) : option A := match o with Some a => Some a | None => p end.

Definition status (now : Z) (policy : AcmeRenewalPolicy) : io CertificateLifecycleStatus :=
  let! issue := read_json_if_present LastIssueJson in
  let! failure := read_json_if_present LastFailureJson in
  let! reload := read_json_if_present ReloadRequiredJson in
  let! cert := exists_file CertPem in
  let! key := exists_file KeyPem in
  let! d := get_files in
  let present := cert && key in
  let not_after := or_else (opt_get (fun v => json_u64 v (bs "not_after_epoch_seconds")) issue)
    (if present then opt_get (fun f => match certificate_not_after (content f) with Ok o => o | Err _ => None end) (d !! Final CertPem) else None) in
  let next := or_else (opt_get (fun v => json_u64 v (bs "next_renewal_epoch_seconds")) issue)
    ((fun n => saturating_sub n (renew_before_seconds policy)) <$> not_after) in
  ret {| cert_present := present;
         not_after_epoch_seconds := not_after;
         seconds_until_expiry := (fun n => saturating_sub n now) <$> not_after;
         renewal_due := negb present || match next with Some n => now >=? n | None => true end;
         next_renewal_epoch_seconds := next;
         reload_required := unwrap_or false (opt_get (fun v => json_bool v (bs "reload_required")) reload);
         reload_strategy := opt_get (fun v => json_string v (bs "strategy")) reload;
         plaintext_fallback := unwrap_or false (opt_get (fun v => json_bool v (bs "plaintext_fallback")) reload);
         failure_count := unwrap_or 0 (opt_get (fun v => json_u64 v (bs "failure_count")) failure);
         last_error_kind := opt_get (fun v => json_string v (bs "kind")) failure;
         last_error_message := opt_get (fun v => json_string v (bs "message")) failure;
         backoff_until_epoch_seconds := opt_get (fun v => json_u64 v (bs "next_attempt_epoch_seconds")) failure |}.

Definition record_failure (now : Z) (policy : AcmeRenewalPolicy) (kind message : bytes) (retry_after : option Z) : io unit :=
  let! previous := read_json_if_present LastFailureJson in
  let count := saturating_add (unwrap_or 0 (opt_get (fun v => json_u64 v (bs "failure_count")) previous)) 1 in
  let next := next_attempt_after_failure now count policy kind retry_after in
  write_file_private LastFailureJson (to_json (failure_json kind message count now next)) 420.
Definition clear_failure : io unit := fs_remove (bs "clear ACME failure metadata") LastFailureJson.

(** ** The supervisor's side *)

Definition reload_marker_updated_at : io (option Z) :=
  let! _ := prepare in
  let! v := read_json_if_present ReloadRequiredJson in
  ret ((fun j => unwrap_or 0 (json_u64 j (bs "updated_at_epoch_seconds"))) <$> v).
Definition consume_reload_marker : io unit :=
  let! _ := prepare in fs_remove (bs "remove ACME reload marker") ReloadRequiredJson.

(** The directory listing: the epochs with a retained certificate. *)
Definition retained_epochs (d : disk) : list Z :=
  omap (fun e => match fst e with (RetainedCert n, false) => Some n | _ => None end) (map_to_list d).
Definition newest_of (d : disk) : option Z :=
  fold_left (fun newest e =>
      if bool_decide (is_Some (d !! Final (RetainedKey e))) && match newest with Some c => e >? c | None => true end then Some e else newest)
    (retained_epochs d) None.
Definition newest_retained_epoch : io (option Z) :=
  let! _ := call (bs "list ACME retained directory") (fun d => d) untouched in let! d := get_files in ret (newest_of d).

Definition require (action : bytes) (o : option bytes) : io bytes :=
  match o with Some b => ret b | None => fail (Io action (bs "not found")) end.
(** A call whose I/O error is ignored. *)
Definition ignoring (c : io unit) : io unit :=
  fun h => match c h with (Err (Failed _), h') => (Ok tt, h') | r => r end.

Definition rollback_to_retained_pair (now : Z) (reason : bytes) : io unit :=
  let! _ := prepare in
  let! newest := newest_retained_epoch in
  let! epoch := match newest with
                | Some e => ret e
                | None => fail (InvalidConfig (bs "no retained certificate pair is available to roll back to"))
                end in
  let! cert := fs_read (bs "read retained certificate for rollback") (Final (RetainedCert epoch)) in
  let! cert := require (bs "read retained certificate for rollback") cert in
  let! key := fs_read (bs "read retained private key for rollback") (Final (RetainedKey epoch)) in
  let! key := require (bs "read retained private key for rollback") key in
  let! issue := read_json_if_present LastIssueJson in
  let fqdn := unwrap_or [] (opt_get (fun v => json_string v (bs "fqdn")) issue) in
  let! _ := of_result (validate_issued_pair cert key fqdn) in
  let! _ := write_cert_key_pair cert key in
  let! meta := fs_read (bs "read retained issue metadata for rollback") (Final (RetainedIssue epoch)) in
  let! _ := match meta with
            | Some b => write_file_private LastIssueJson b 420
            | None => ignoring (fs_remove (bs "remove") LastIssueJson)
            end in
  let! _ := write_file_private ReloadFailureJson (to_json (reload_failure_json now reason)) 420 in
  record_failure now default_policy (bs "reload-rolled-back") reason None.

(** ** Issuance *)

(** [File::try_lock] on a newly opened handle: refused while any handle holds the lock. *)
Definition try_issuance_lock : io bool :=
  let! _ := call (bs "open ACME issuance lock") (fun d => d) untouched in
  fun h => if locked h then (Ok false, h) else (Ok true, with_lock h true).
(** The lock is released when its handle is dropped, however the body ends. *)
Definition holding {A} (body : io A) : io A := fun h => let '(r, h') := body h in (r, with_lock h' false).

Definition busy_error : AcmeError := InvalidIssuance (bs "another ACME issuance is in progress for this state directory").
Definition contact_ca : io unit :=
  fun h => (Ok tt, {| files := files h; plan := plan h; locked := locked h; contacts := S (contacts h) |}).

(** [issue_once_with_state_and_issuer]; [issuer] is the injected issuer's result, [bound]
    whether the challenge listener could be bound. *)
Definition issue_once_with_state_and_issuer (fqdn : bytes) (policy : AcmeRenewalPolicy) (now : Z)
    (bound : result AcmeError unit) (issuer : result AcmeError IssuedCertificate) : io IssuedCertificate :=
  let! _ := of_result bound in
  let! _ := contact_ca in
  let! issued := of_result issuer in
  if negb (eq_bytes (issued_fqdn issued) fqdn) then fail (InvalidIssuance (bs "issuer returned certificate for another name"))
  else
    let! _ := persist issued policy now in
    let! _ := clear_failure in
    ret issued.
Definition issue_once_with_issuer (fqdn : bytes) (now : Z) (bound : result AcmeError unit) (issuer : result AcmeError IssuedCertificate)
    : io IssuedCertificate :=
  let! _ := prepare in
  let! held := try_issuance_lock in
  if negb held then fail busy_error
  else holding (issue_once_with_state_and_issuer fqdn default_policy now bound issuer).

Inductive AcmeRenewalOutcome : Type :=
| Renewed (issued : IssuedCertificate) (s : CertificateLifecycleStatus)
| NotDue (s : CertificateLifecycleStatus)
| Deferred (s : CertificateLifecycleStatus).
Definition invalid_certificate_latched (s : CertificateLifecycleStatus) : bool :=
  match last_error_kind s with Some k => eq_bytes k (bs "invalid-certificate") | None => false end && (failure_count s >=? 3).
Definition backed_off (s : CertificateLifecycleStatus) (now : Z) : bool :=
  match backoff_until_epoch_seconds s with Some b => b >? now | None => false end.

(** The part [renew_once_with_issuer] and [renew_once_with_instant_acme] share: [issue] runs
    under the lock, a failure is recorded. *)
Definition renew_once (now later : Z) (policy : AcmeRenewalPolicy) (issue : io IssuedCertificate) : io AcmeRenewalOutcome :=
  let! _ := prepare in
  let! s := status now policy in
  if backed_off s now then ret (Deferred s)
  else if invalid_certificate_latched s then ret (Deferred s)
  else if negb (renewal_due s) then ret (NotDue s)
  else
    let! held := try_issuance_lock in
    if negb held then ret (Deferred s)
    else holding (fun h =>
      match issue h with
      | (Ok issued, h') => (let! s := status later policy in ret (Renewed issued s)) h'
      | (Err (Failed e), h') =>
          (let! _ := record_failure now policy (classify_acme_failure (display e)) (display e) None in fail e) h'
      | (Err Died, h') => (Err Died, h')
      end).
Definition renew_once_with_issuer (fqdn : bytes) (policy : AcmeRenewalPolicy) (now : Z)
    (bound : result AcmeError unit) (issuer : result AcmeError IssuedCertificate) : io AcmeRenewalOutcome :=
  renew_once now now policy (issue_once_with_state_and_issuer fqdn policy now bound issuer).

(** [ensure_account_directory_matches]. *)
Definition trim_slashes (s : bytes) : bytes := trim_end_by (fun b => bz b =? 47) s.
Definition ensure_account_directory_matches (configured : bytes) : io unit :=
  let! v := read_json_if_present AccountJson in
  match v with
  | None => ret tt
  | Some v =>
      match json_string v (bs "directory") with
      | Some stored => if eq_bytes (trim_slashes stored) (trim_slashes configured) then ret tt
                       else fail (InvalidConfig (bs "account.json was created against another ACME directory"))
      | None => fail (InvalidConfig (bs "account.json does not record its ACME directory"))
      end
  end.

(** What the ACME library answers: the account (its credentials when it is a new one), and
    the certificate and key of a completed order. *)
Record authority : Type := {
  restores_account : bytes -> result AcmeError unit;
  new_account : result AcmeError bytes;
  completes_order : result AcmeError (bytes * bytes);
}.
Definition issue_once_with_instant_acme (fqdn directory_url : bytes) (now : Z) (bound : result AcmeError unit) (ca : authority)
    : io IssuedCertificate :=
  let! _ := prepare in
  let! held := try_issuance_lock in
  if negb held then fail busy_error
  else holding (
    let! _ := ensure_account_directory_matches directory_url in
    let! _ := of_result bound in
    let! known := exists_file AccountJson in
    let! _ := if known then
                let! b := fs_read (bs "read ACME account credentials") (Final AccountJson) in
                let! b := require (bs "read ACME account credentials") b in
                let! _ := contact_ca in of_result (restores_account ca b)
              else
                let! _ := contact_ca in
                let! credentials := of_result (new_account ca) in
                write_file_private AccountJson credentials 384 in
    let! _ := contact_ca in
    let! (cert, key) := of_result (completes_order ca) in
    let! _ := of_result (validate_issued_pair cert key fqdn) in
    let! not_after := of_result (certificate_not_after cert) in
    let issued := {| issued_fqdn := fqdn; certificate_pem := cert; private_key_pem := key; issued_not_after := not_after |} in
    let! _ := persist issued default_policy now in
    let! _ := clear_failure in
    ret issued).
Definition renew_once_with_instant_acme (fqdn directory_url : bytes) (now later : Z) (bound : result AcmeError unit) (ca : authority)
    : io AcmeRenewalOutcome :=
  renew_once now later default_policy (issue_once_with_instant_acme fqdn directory_url later bound ca).
End State.

(** ** Specifications of programs on the disk

    [spec P c Q X]: from a disk in [P], under any verdicts, [c] ends in [Q] if it returns and
    in [X] if it fails or dies. *)

Definition spec {A : Type} (P : disk -> Prop) (c : io A) (Q : A -> disk -> Prop) (X : disk -> Prop) : Prop :=
  forall h, P (files h) -> match c h with (Ok a, h') => Q a (files h') | (Err _, h') => X (files h') end.

Lemma spec_ret {A : Type} (P : disk -> Prop) (a : A) (Q : A -> disk -> Prop) (X : disk -> Prop) : (forall d, P d -> Q a d) -> spec P (ret a) Q X.
Proof. intros PQ h Ph. exact (PQ _ Ph). Qed.
Lemma spec_fail {A : Type} (P : disk -> Prop) (e : AcmeError) (Q : A -> disk -> Prop) (X : disk -> Prop) : (forall d, P d -> X d) -> spec P (fail e) Q X.
Proof. intros PX h Ph. exact (PX _ Ph). Qed.
Lemma spec_bind {A B : Type} (P : disk -> Prop) (c : io A) (k : A -> io B) (R : A -> disk -> Prop) (Q : B -> disk -> Prop) (X : disk -> Prop) : spec P c R X -> (forall a, spec (R a) (k a) Q X) -> spec P (bind c k) Q X.
Proof. intros C K h Ph. unfold bind. specialize (C h Ph). destruct (c h) as [[a|e] h']; [exact (K a h' C) | exact C]. Qed.
Lemma spec_call (P : disk -> Prop) (action : bytes) (f : disk -> disk) (g : bytes -> disk -> disk) (Q : unit -> disk -> Prop) (X : disk -> Prop) :
  (forall d, P d -> Q tt (f d)) -> (forall d torn, P d -> X (g torn d)) -> spec P (call action f g) Q X.
Proof. intros PQ PX h Ph. unfold call. destruct (plan h) as [|[|? ?|?] p]; cbn; auto. Qed.
Lemma spec_conseq {A : Type} (P P' : disk -> Prop) (c : io A) (Q Q' : A -> disk -> Prop) (X X' : disk -> Prop) :
  spec P' c Q' X' -> (forall d, P d -> P' d) -> (forall a d, Q' a d -> Q a d) -> (forall d, X' d -> X d) -> spec P c Q X.
Proof. intros S HP HQ HX h Ph. specialize (S h (HP _ Ph)). destruct (c h) as [[a|e] h']; auto. Qed.
Lemma spec_get (P : disk -> Prop) (Q : disk -> disk -> Prop) (X : disk -> Prop) : (forall d, P d -> Q d d) -> spec P get_files Q X.
Proof. intros PQ h Ph. exact (PQ _ Ph). Qed.
Lemma spec_of_result {A : Type} (P : disk -> Prop) (r : result AcmeError A) (Q : A -> disk -> Prop) (X : disk -> Prop) :
  (forall a d, r = Ok a -> P d -> Q a d) -> (forall e d, r = Err e -> P d -> X d) -> spec P (of_result r) Q X.
Proof. intros HQ HX. destruct r as [a|e]; intros h Ph; cbn; eauto. Qed.
Lemma spec_read (P : disk -> Prop) (action : bytes) (p : path) (Q : option bytes -> disk -> Prop) (X : disk -> Prop) :
  (forall d, P d -> Q (content <$> d !! p) d) -> (forall d, P d -> X d) -> spec P (fs_read action p) Q X.
Proof.
  intros HQ HX. unfold fs_read. eapply spec_bind; [apply (spec_call P _ _ _ (fun _ => P) X); auto|]. intros [].
  eapply spec_bind; [apply (spec_get P (fun d' d => P d /\ d' = d)); auto|]. intros d'. apply spec_ret. intros d [Pd ->]. auto.
Qed.
Lemma spec_exists (P : disk -> Prop) (n : name) (Q : bool -> disk -> Prop) (X : disk -> Prop) : (forall d, P d -> Q (bool_decide (is_Some (d !! Final n))) d) -> spec P (exists_file n) Q X.
Proof.
  intros HQ. unfold exists_file. eapply spec_bind; [apply (spec_get P (fun d' d => P d /\ d' = d)); auto|]. intros d'. apply spec_ret. intros d [Pd ->]. auto.
Qed.

(** ** What is visible: everything but the temporary files *)

Abbreviation view := (name -> option file).
Definition shows (v : view) (d : disk) : Prop := forall n, d !! Final n = v n.
Definition upd (v : view) (n : name) (f : file) : view := fun m => if decide (m = n) then Some f else v m.
Definition tmp_blind (n : name) (P : disk -> Prop) : Prop := forall d f, P d -> P (<[Tmp n := f]> d).
Lemma shows_blind (v : view) (n : name) : tmp_blind n (shows v).
Proof. intros d f S m. rewrite lookup_insert_ne by discriminate. apply S. Qed.
Lemma shows_self (d : disk) : shows (fun n => d !! Final n) d.
Proof. intros n. reflexivity. Qed.
Lemma shows_ext (v w : view) (d : disk) : (forall n, v n = w n) -> shows v d -> shows w d.
Proof. intros E S n. rewrite S. apply E. Qed.
Lemma upd_same (v : view) (n : name) (f : file) : upd v n f n = Some f.
Proof. unfold upd. rewrite decide_True by reflexivity. reflexivity. Qed.
Lemma upd_other (v : view) (n : name) (f : file) (m : name) : m <> n -> upd v n f m = v m.
Proof. intros Ne. unfold upd. rewrite decide_False by exact Ne. reflexivity. Qed.

Lemma stage_spec (P : disk -> Prop) (n : name) (data : bytes) (m : Z) :
  tmp_blind n P -> spec P (stage_private n data m) (fun _ d => P d /\ d !! Tmp n = Some {| content := data; mode := m |}) P.
Proof.
  intros B. unfold stage_private.
  assert (forall b d, P d -> P (write_tmp n b d)) as Wr by (intros b d Pd; unfold write_tmp; destruct (d !! Tmp n); auto).
  eapply spec_bind; [apply (spec_call P _ _ _ (fun _ d => P d /\ exists f, d !! Tmp n = Some f) P)|].
  - intros d Pd. split; [apply B, Pd|]. unfold open_tmp. rewrite lookup_insert_eq. eauto.
  - auto.
  - intros []. eapply spec_bind; [apply (spec_call _ _ _ _ (fun _ d => P d /\ exists f, d !! Tmp n = Some f /\ content f = data) P)|].
    + intros d [Pd (f & E)]. split; [auto|]. unfold write_tmp. rewrite E, lookup_insert_eq. eauto.
    + intros d torn [Pd _]. auto.
    + intros []. eapply spec_bind; [apply (spec_call _ _ _ _ (fun _ d => P d /\ exists f, d !! Tmp n = Some f /\ content f = data) P)|].
      * auto.
      * intros d torn [Pd _]. exact Pd.
      * intros []. apply spec_call.
        -- intros d [Pd (f & E & <-)]. unfold chmod_tmp. rewrite E. split; [apply B, Pd|]. rewrite lookup_insert_eq. reflexivity.
        -- intros d torn [Pd _]. exact Pd.
Qed.
Lemma rename_shows (v : view) (n : name) (f : file) (d : disk) : shows v d -> d !! Tmp n = Some f -> shows (upd v n f) (rename_tmp n d).
Proof.
  intros S E m. unfold rename_tmp. rewrite E. unfold upd. destruct (decide (m = n)) as [->|Ne]; [apply lookup_insert_eq|].
  rewrite lookup_insert_ne, lookup_delete_ne by (unfold Final, Tmp; congruence). apply S.
Qed.
Lemma rename_tmp_other (n m : name) (d : disk) : n <> m -> rename_tmp n d !! Tmp m = d !! Tmp m.
Proof.
  intros Ne. unfold rename_tmp. destruct (d !! Tmp n); [|reflexivity]. rewrite lookup_insert_ne by discriminate. apply lookup_delete_ne. unfold Tmp. congruence.
Qed.
Lemma write_file_spec (v : view) (n : name) (data : bytes) (m : Z) :
  spec (shows v) (write_file_private n data m) (fun _ => shows (upd v n {| content := data; mode := m |})) (shows v).
Proof.
  unfold write_file_private. eapply spec_bind; [apply stage_spec, shows_blind|]. intros []. apply spec_call.
  - intros d [S E]. apply rename_shows; assumption.
  - intros d torn [S _]. exact S.
Qed.
Lemma write_pair_spec (v : view) (c k : bytes) :
  spec (shows v) (write_cert_key_pair c k)
    (fun _ => shows (upd (upd v CertPem {| content := c; mode := 420 |}) KeyPem {| content := k; mode := 384 |}))
    (fun d => shows v d \/ shows (upd v CertPem {| content := c; mode := 420 |}) d).
Proof.
  unfold write_cert_key_pair. set (fc := {| content := c; mode := 420 |}). set (fk := {| content := k; mode := 384 |}).
  eapply spec_bind; [eapply spec_conseq; [apply (stage_spec (shows v)), shows_blind | auto | intros a d H; exact H | auto]|]. intros [].
  eapply spec_bind.
  { eapply spec_conseq; [apply (stage_spec (fun d => shows v d /\ d !! Tmp CertPem = Some fc) KeyPem k 384) | auto | intros a d H; exact H | intros d [S _]; left; exact S].
    intros d f [S E]. split; [apply shows_blind, S|]. rewrite lookup_insert_ne by discriminate. exact E. }
  intros []. eapply spec_bind; [apply (spec_call _ _ _ _ (fun _ d => shows (upd v CertPem fc) d /\ d !! Tmp KeyPem = Some fk))|].
  - intros d [[S E] Ek]. split; [apply rename_shows; assumption|]. rewrite rename_tmp_other by discriminate. exact Ek.
  - intros d torn [[S _] _]. left. exact S.
  - intros []. apply spec_call.
    + intros d [S E]. apply rename_shows; assumption.
    + intros d torn [S _]. right. exact S.
Qed.
