(* ===== verification/AcmeCrash.v ===== *)
(** * AcmeCrash: certificate rotation under failures and crashes

    Theorems on the operations of [AcmeState]: what a renewal that fails or dies at any file
    operation leaves on disk, what the supervisor's rollback makes of it, when the
    certificate authority is contacted, and how long a failed renewal waits. *)

From S2P Require Import Prelude Text AcmeState.

Lemma spec_pure {A : Type} (phi : Prop) (P : disk -> Prop) (c : io A) (Q : A -> disk -> Prop) (X : disk -> Prop) :
  (phi -> spec P c Q X) -> spec (fun d => P d /\ phi) c Q X.
Proof. intros S h [Ph F]. exact (S F h Ph). Qed.

(** Reading an updated view. *)
Ltac view_simpl := repeat first [rewrite upd_same | rewrite upd_other by discriminate].

(** ** Keeping the old pair *)

Definition copy_view (v : view) (source target : name) (m : Z) : view :=
  match v source with Some f => upd v target {| content := content f; mode := m |} | None => v end.
Lemma copy_view_other (v : view) (s t : name) (m : Z) (n : name) : n <> t -> copy_view v s t m n = v n.
Proof. intros Ne. unfold copy_view. destruct (v s); [apply upd_other, Ne | reflexivity]. Qed.
Lemma copy_view_target (v : view) (s t : name) (m : Z) (f : file) : v s = Some f -> copy_view v s t m t = Some {| content := content f; mode := m |}.
Proof. intros E. unfold copy_view. rewrite E. apply upd_same. Qed.

Lemma copy_spec (v : view) (s t : name) (m : Z) :
  spec (fun d => shows v d /\ is_Some (v s)) (copy_file_private s t m) (fun _ => shows (copy_view v s t m)) (shows v).
Proof.
  apply spec_pure. intros [f E]. unfold copy_file_private, copy_view. rewrite E.
  eapply spec_bind; [apply (spec_read (shows v) _ _ (fun o d => shows v d /\ o = Some (content f)))|].
  - intros d S. split; [exact S|]. rewrite S, E. reflexivity.
  - auto.
  - intros o. apply spec_pure. intros ->. apply write_file_spec.
Qed.
(** [if source.exists() { copy_file_private(..)?; }] *)
Lemma copy_if_spec {B : Type} (v : view) (s t : name) (m : Z) (k : unit -> io B) (Q : B -> disk -> Prop) (X : disk -> Prop) :
  (forall d, shows v d -> X d) -> spec (shows (copy_view v s t m)) (k tt) Q X ->
  spec (shows v) (let! e := exists_file s in let! u := (if e then copy_file_private s t m else ret tt) in k u) Q X.
Proof.
  intros HX K. eapply spec_bind; [apply (spec_exists (shows v) s (fun b d => shows v d /\ b = bool_decide (is_Some (v s))) X)|].
  - intros d S. split; [exact S|]. rewrite S. reflexivity.
  - intros b. apply spec_pure. intros ->. apply (spec_bind _ _ _ (fun _ => shows (copy_view v s t m))); [|intros []; exact K]. destruct (bool_decide (is_Some (v s))) eqn:B0.
    + apply bool_decide_eq_true in B0. eapply spec_conseq; [apply (copy_spec v s t m) | intros d S; split; assumption | intros a d S; exact S | exact HX].
    + apply bool_decide_eq_false in B0. apply spec_ret. intros d S. eapply shows_ext; [|exact S]. intros n. unfold copy_view.
      destruct (v s); [exfalso; apply B0; eauto | reflexivity].
Qed.

Definition retained_view (v : view) (now : Z) : view :=
  if bool_decide (is_Some (v CertPem)) || bool_decide (is_Some (v KeyPem)) then
    copy_view (copy_view (copy_view v CertPem (RetainedCert now) 420) KeyPem (RetainedKey now) 384) LastIssueJson (RetainedIssue now) 420
  else v.
(** Two views that differ at most in what is retained under [now]. *)
Definition same_but_retained (now : Z) (v w : view) : Prop :=
  forall n, n <> RetainedCert now -> n <> RetainedKey now -> n <> RetainedIssue now -> w n = v n.
Lemma retained_view_same (v : view) (now : Z) : same_but_retained now v (retained_view v now).
Proof. intros n N1 N2 N3. unfold retained_view. destruct (_ || _); [|reflexivity]. rewrite !copy_view_other by assumption. reflexivity. Qed.

Lemma retain_spec (v : view) (now : Z) :
  spec (shows v) (retain_existing now) (fun _ => shows (retained_view v now)) (fun d => exists w, shows w d /\ same_but_retained now v w).
Proof.
  assert (forall w d, same_but_retained now v w -> shows w d -> exists w, shows w d /\ same_but_retained now v w) as In by eauto.
  assert (same_but_retained now v v) as S0 by (intros n _ _ _; reflexivity).
  unfold retain_existing.
  eapply spec_bind; [apply (spec_exists (shows v) CertPem (fun b d => shows v d /\ b = bool_decide (is_Some (v CertPem))))|].
  { intros d S. split; [exact S|]. rewrite S. reflexivity. }
  intros b. apply spec_pure. intros ->.
  eapply spec_bind; [apply (spec_exists (shows v) KeyPem (fun b d => shows v d /\ b = bool_decide (is_Some (v KeyPem))))|].
  { intros d S. split; [exact S|]. rewrite S. reflexivity. }
  intros b. apply spec_pure. intros ->. unfold retained_view. destruct (bool_decide _ || bool_decide _); cbn [negb]; [|apply spec_ret; auto].
  eapply spec_bind; [apply (spec_call (shows v) _ _ _ (fun _ => shows v)); [auto | intros d torn S; apply (In v); assumption]|]. intros [].
  eapply spec_bind; [apply (spec_call (shows v) _ _ _ (fun _ => shows v)); [auto | intros d torn S; apply (In v); assumption]|]. intros [].
  apply copy_if_spec; [intros d; apply In, S0|]. set (v1 := copy_view v CertPem (RetainedCert now) 420).
  assert (same_but_retained now v v1) as S1 by (intros n N1 N2 N3; apply copy_view_other, N1).
  apply copy_if_spec; [intros d; apply In, S1|]. set (v2 := copy_view v1 KeyPem (RetainedKey now) 384).
  assert (same_but_retained now v v2) as S2 by (intros n N1 N2 N3; unfold v2; rewrite copy_view_other by exact N2; apply S1; assumption).
  eapply spec_bind; [apply (spec_exists (shows v2) LastIssueJson (fun b d => shows v2 d /\ b = bool_decide (is_Some (v2 LastIssueJson))))|].
  { intros d S. split; [exact S|]. rewrite S. reflexivity. }
  intros b. apply spec_pure. intros ->. destruct (bool_decide (is_Some (v2 LastIssueJson))) eqn:B0.
  - apply bool_decide_eq_true in B0. eapply spec_conseq; [apply (copy_spec v2) | intros d S; split; assumption | intros a d S; exact S | intros d; apply In, S2].
  - apply bool_decide_eq_false in B0. apply spec_ret. intros d S. eapply shows_ext; [|exact S]. intros n. unfold copy_view.
    destruct (v2 LastIssueJson); [exfalso; apply B0; eauto | reflexivity].
Qed.

(** A directory with an old pair, and a new pair to put there. *)
Definition old_files : disk :=
  <[Final CertPem := {| content := bs "old cert"; mode := 420 |}]> (<[Final KeyPem := {| content := bs "old key"; mode := 384 |}]> ∅).
Definition new_pair : IssuedCertificate :=
  {| issued_fqdn := bs "a.example"; certificate_pem := bs "new cert"; private_key_pem := bs "new key"; issued_not_after := Some 1000 |}.
Definition host_of (d : disk) (p : list verdict) : host := {| files := d; plan := p; locked := false; contacts := 0 |}.

(** ** Persisting a new pair *)

Section Crash.
Variable to_json : json -> bytes.
Variable from_json : bytes -> result bytes json.
Variable certificate_not_after : bytes -> result AcmeError (option Z).
Variable validate_issued_pair : bytes -> bytes -> bytes -> result AcmeError unit.
Local Abbreviation persist := (persist to_json certificate_not_after).

Definition marker_file (now : Z) : file := {| content := to_json (reload_json now); mode := 420 |}.
Definition cert_file (i : IssuedCertificate) : file := {| content := certificate_pem i; mode := 420 |}.
Definition key_file (i : IssuedCertificate) : file := {| content := private_key_pem i; mode := 384 |}.
Definition meta_file (i : IssuedCertificate) (policy : AcmeRenewalPolicy) (na : option Z) (now : Z) : file :=
  {| content := to_json (issue_json i policy na now); mode := 420 |}.
Definition expiry (i : IssuedCertificate) : result AcmeError (option Z) :=
  match issued_not_after i with Some x => Ok (Some x) | None => certificate_not_after (certificate_pem i) end.

(** The view after the marker and the copies, and the three states that follow. *)
Definition prepared (v : view) (now : Z) : view := retained_view (upd v ReloadRequiredJson (marker_file now)) now.
Definition half_swapped (v : view) (i : IssuedCertificate) (now : Z) : view := upd (prepared v now) CertPem (cert_file i).
Definition swapped (v : view) (i : IssuedCertificate) (now : Z) : view := upd (half_swapped v i now) KeyPem (key_file i).

Lemma persist_spec (v : view) (i : IssuedCertificate) (policy : AcmeRenewalPolicy) (now : Z) :
  spec (shows v) (persist i policy now)
    (fun _ d => exists na, expiry i = Ok na /\ shows (upd (swapped v i now) LastIssueJson (meta_file i policy na now)) d)
    (fun d => shows v d \/ (exists w, shows w d /\ same_but_retained now (upd v ReloadRequiredJson (marker_file now)) w) \/
              shows (half_swapped v i now) d \/ shows (swapped v i now) d).
Proof.
  unfold AcmeState.persist. set (v1 := upd v ReloadRequiredJson (marker_file now)).
  apply (spec_bind _ _ _ (fun na d => shows v d /\ expiry i = Ok na)).
  { unfold expiry. destruct (issued_not_after i); [apply spec_ret; auto|]. apply spec_of_result; auto. }
  intros na. apply spec_pure. intros En.
  apply (spec_bind _ _ _ (fun _ => shows v1)); [eapply spec_conseq; [apply (write_file_spec v) | auto | intros [] d S; exact S | auto]|]. intros [].
  apply (spec_bind _ _ _ (fun _ => shows (retained_view v1 now))); [eapply spec_conseq; [apply (retain_spec v1) | auto | intros [] d S; exact S | auto]|]. intros [].
  apply (spec_bind _ _ _ (fun _ => shows (swapped v i now))); [eapply spec_conseq; [apply (write_pair_spec (retained_view v1 now)) | auto | intros [] d S; exact S |]|].
  - intros d [S|S]; [right; left; exists (retained_view v1 now); split; [exact S | apply retained_view_same] | right; right; left; exact S].
  - intros []. eapply spec_conseq; [apply (write_file_spec (swapped v i now)) | auto | intros [] d S; exists na; split; [exact En | exact S] | auto].
Qed.

Lemma prepared_other (v : view) (now : Z) (n : name) :
  n <> ReloadRequiredJson -> n <> RetainedCert now -> n <> RetainedKey now -> n <> RetainedIssue now -> prepared v now n = v n.
Proof. intros N0 N1 N2 N3. unfold prepared. rewrite (retained_view_same _ now) by assumption. apply upd_other, N0. Qed.
Lemma prepared_marker (v : view) (now : Z) : prepared v now ReloadRequiredJson = Some (marker_file now).
Proof. unfold prepared. rewrite (retained_view_same _ now) by discriminate. apply upd_same. Qed.
(** Both halves of the old pair are kept before either is replaced. *)
Lemma prepared_keeps (v : view) (now : Z) (c k : file) :
  v CertPem = Some c -> v KeyPem = Some k ->
  prepared v now (RetainedCert now) = Some {| content := content c; mode := 420 |} /\
  prepared v now (RetainedKey now) = Some {| content := content k; mode := 384 |} /\
  prepared v now (RetainedIssue now) =
    match v LastIssueJson with Some f => Some {| content := content f; mode := 420 |} | None => v (RetainedIssue now) end.
Proof.
  intros Ec Ek. unfold prepared, retained_view. set (v1 := upd v ReloadRequiredJson (marker_file now)).
  assert (v1 CertPem = Some c /\ v1 KeyPem = Some k /\ v1 LastIssueJson = v LastIssueJson) as (E1 & E2 & E3)
    by (unfold v1; rewrite !upd_other by discriminate; auto).
  rewrite E1. cbn [orb]. rewrite bool_decide_true by eauto. cbn [orb].
  set (w1 := copy_view v1 CertPem (RetainedCert now) 420).
  assert (w1 KeyPem = Some k) as W1 by (unfold w1; rewrite copy_view_other by discriminate; exact E2).
  set (w2 := copy_view w1 KeyPem (RetainedKey now) 384).
  assert (w2 LastIssueJson = v LastIssueJson) as W2 by (unfold w2, w1; rewrite !copy_view_other by discriminate; exact E3).
  split; [|split].
  - unfold w2. rewrite !copy_view_other by discriminate. apply copy_view_target, E1.
  - rewrite copy_view_other by discriminate. apply copy_view_target, W1.
  - unfold copy_view at 1. rewrite W2. destruct (v LastIssueJson); [apply upd_same|]. unfold w2, w1, v1. rewrite !copy_view_other, upd_other by discriminate. reflexivity.
Qed.

(** C4. A rotation that fails or dies anywhere loses nothing: whatever the verdict of each
    file operation, [persist] either completes with the new pair, its metadata and the
    reload marker in place; or leaves certificate, key and metadata as they were; or - only
    once the reload marker and copies of both old files are on disk - leaves the new
    certificate with the old or the new key and the old metadata.  The old certificate is
    never found with the new key, and a replaced key is always private.  The mixed pair does
    occur: a process can die between the two renames. *)
Theorem interrupted_rotation_loses_nothing :
  (forall (i : IssuedCertificate) (policy : AcmeRenewalPolicy) (now : Z) (h : host),
  let '(r, h') := persist i policy now h in
  let before n := files h !! Final n in
  let after n := files h' !! Final n in
  match r with
  | Ok _ =>
      after CertPem = Some (cert_file i) /\ after KeyPem = Some (key_file i) /\ after ReloadRequiredJson = Some (marker_file now) /\
      exists na, expiry i = Ok na /\ after LastIssueJson = Some (meta_file i policy na now)
  | Err _ =>
      (after CertPem = before CertPem /\ after KeyPem = before KeyPem /\ after LastIssueJson = before LastIssueJson) \/
      (after CertPem = Some (cert_file i) /\ (after KeyPem = before KeyPem \/ after KeyPem = Some (key_file i)) /\
       after LastIssueJson = before LastIssueJson /\ after ReloadRequiredJson = Some (marker_file now) /\
       forall c k, before CertPem = Some c -> before KeyPem = Some k ->
         after (RetainedCert now) = Some {| content := content c; mode := 420 |} /\
         after (RetainedKey now) = Some {| content := content k; mode := 384 |})
  end) /\
  (exists p, let '(r, h') := persist new_pair default_policy 100 (host_of old_files p) in
    r = Err Died /\ content <$> files h' !! Final CertPem = Some (bs "new cert") /\
    content <$> files h' !! Final KeyPem = Some (bs "old key")).
Proof.
  split; [|exists (replicate 28 Fine ++ [Dies []]); vm_compute; repeat split]. intros i policy now h.
  pose proof (persist_spec (fun n => files h !! Final n) i policy now h (shows_self _)) as S.
  destruct (persist i policy now h) as [[u|e] h']; cbv zeta.
  - destruct S as (na & En & S). rewrite !S. unfold swapped, half_swapped. view_simpl.
    rewrite prepared_marker. eauto 10.
  - destruct S as [S|[(w & S & W)|[S|S]]].
    + left. rewrite !S. auto.
    + left. rewrite !S, !W by discriminate. rewrite !upd_other by discriminate. auto.
    + right. rewrite !S. unfold half_swapped. view_simpl. rewrite prepared_marker, !prepared_other by discriminate.
      split; [reflexivity|]. split; [left; reflexivity|]. split; [reflexivity|]. split; [reflexivity|]. intros c k Ec Ek.
      destruct (prepared_keeps (fun n => files h !! Final n) now c k Ec Ek) as (A & B & _). auto.
    + right. rewrite !S. unfold swapped, half_swapped. view_simpl. rewrite prepared_marker, !prepared_other by discriminate.
      split; [reflexivity|]. split; [right; reflexivity|]. split; [reflexivity|]. split; [reflexivity|]. intros c k Ec Ek.
      destruct (prepared_keeps (fun n => files h !! Final n) now c k Ec Ek) as (A & B & _). auto.
Qed.
End Crash.

(** ** Programs on a healthy disk *)

Definition ok_spec {A : Type} (P : disk -> Prop) (c : io A) (Q : A -> disk -> Prop) : Prop :=
  forall h, plan h = [] -> P (files h) -> exists a h', c h = (Ok a, h') /\ plan h' = [] /\ Q a (files h').
Lemma ok_ret {A : Type} (P : disk -> Prop) (a : A) (Q : A -> disk -> Prop) : (forall d, P d -> Q a d) -> ok_spec P (ret a) Q.
Proof. intros PQ h Pl Ph. exists a, h. auto. Qed.
Lemma ok_bind {A B : Type} (P : disk -> Prop) (c : io A) (k : A -> io B) (R : A -> disk -> Prop) (Q : B -> disk -> Prop) :
  ok_spec P c R -> (forall a, ok_spec (R a) (k a) Q) -> ok_spec P (bind c k) Q.
Proof.
  intros C K h Pl Ph. destruct (C h Pl Ph) as (a & h1 & E1 & Pl1 & R1). destruct (K a h1 Pl1 R1) as (b & h2 & E2 & Pl2 & Q2).
  exists b, h2. unfold bind. rewrite E1. auto.
Qed.
Lemma ok_call (P : disk -> Prop) (action : bytes) (f : disk -> disk) (g : bytes -> disk -> disk) (Q : unit -> disk -> Prop) :
  (forall d, P d -> Q tt (f d)) -> ok_spec P (call action f g) Q.
Proof. intros PQ h Pl Ph. unfold call. rewrite Pl. eexists _, _. split; [reflexivity|]. cbn. auto. Qed.
Lemma ok_pure {A : Type} (phi : Prop) (P : disk -> Prop) (c : io A) (Q : A -> disk -> Prop) : (phi -> ok_spec P c Q) -> ok_spec (fun d => P d /\ phi) c Q.
Proof. intros S h Pl [Ph F]. exact (S F h Pl Ph). Qed.
Lemma ok_get (P : disk -> Prop) : ok_spec P get_files (fun d' d => P d /\ d' = d).
Proof. intros h Pl Ph. exists (files h), h. auto. Qed.
Lemma ok_conseq {A : Type} (P P' : disk -> Prop) (c : io A) (Q Q' : A -> disk -> Prop) :
  ok_spec P' c Q' -> (forall d, P d -> P' d) -> (forall a d, Q' a d -> Q a d) -> ok_spec P c Q.
Proof. intros S HP HQ h Pl Ph. destruct (S h Pl (HP _ Ph)) as (a & h' & E & Pl' & Qa). exists a, h'. auto. Qed.

(** On a healthy disk a program with a specification ends in its normal postcondition, if it
    does not fail of itself: the file operations do not. *)
Lemma ok_read (v : view) (action : bytes) (n : name) : ok_spec (shows v) (fs_read action (Final n)) (fun o d => shows v d /\ o = content <$> v n).
Proof.
  unfold fs_read. eapply ok_bind; [apply (ok_call (shows v) _ _ _ (fun _ => shows v)); auto|]. intros [].
  eapply ok_bind; [apply ok_get|]. intros d'. apply ok_ret. intros d [S ->]. split; [exact S|]. rewrite S. reflexivity.
Qed.
Lemma ok_stage (P : disk -> Prop) (n : name) (data : bytes) (m : Z) :
  tmp_blind n P -> ok_spec P (stage_private n data m) (fun _ d => P d /\ d !! Tmp n = Some {| content := data; mode := m |}).
Proof.
  intros B h Pl Ph. pose proof (stage_spec P n data m B h Ph) as S. revert S. unfold stage_private, bind, call. rewrite Pl. cbn.
  intros S. eexists _, _. split; [reflexivity|]. split; [reflexivity | exact S].
Qed.
Lemma ok_write_file (v : view) (n : name) (data : bytes) (m : Z) :
  ok_spec (shows v) (write_file_private n data m) (fun _ => shows (upd v n {| content := data; mode := m |})).
Proof.
  unfold write_file_private. eapply ok_bind; [apply ok_stage, shows_blind|]. intros []. apply ok_call. intros d [S E]. apply rename_shows; assumption.
Qed.
Lemma ok_write_pair (v : view) (c k : bytes) :
  ok_spec (shows v) (write_cert_key_pair c k)
    (fun _ => shows (upd (upd v CertPem {| content := c; mode := 420 |}) KeyPem {| content := k; mode := 384 |})).
Proof.
  intros h Pl Ph. pose proof (write_pair_spec v c k h Ph) as S. revert S. unfold write_cert_key_pair, stage_private, bind, call. rewrite Pl. cbn.
  intros S. eexists _, _. split; [reflexivity|]. split; [reflexivity | exact S].
Qed.
Lemma ok_read_json (from_json : bytes -> result bytes json) (v : view) (n : name) :
  (forall f, v n = Some f -> exists j, from_json (content f) = Ok j) ->
  ok_spec (shows v) (read_json_if_present from_json n)
    (fun o d => shows v d /\ o = match v n with Some f => match from_json (content f) with Ok j => Some j | Err _ => None end | None => None end).
Proof.
  intros J. unfold read_json_if_present. eapply ok_bind; [apply ok_read|]. intros o. apply ok_pure. intros ->.
  destruct (v n) as [f|]; cbn; [|apply ok_ret; auto]. destruct (J f eq_refl) as (j & E). rewrite E. apply ok_ret. auto.
Qed.

(** ** Rolling back *)

Definition complete (v : view) (e : Z) : Prop := is_Some (v (RetainedCert e)) /\ is_Some (v (RetainedKey e)).
Lemma retained_epochs_spec (v : view) (d : disk) (e : Z) : shows v d -> In e (retained_epochs d) <-> is_Some (v (RetainedCert e)).
Proof.
  intros S. unfold retained_epochs. rewrite <- list_elem_of_In, list_elem_of_omap. split.
  - intros ([[n b] f] & I & E). cbn in E. destruct n; try discriminate. destruct b; [discriminate|]. injection E as ->.
    apply elem_of_map_to_list in I. rewrite <- (S (RetainedCert e)). exists f. exact I.
  - intros [f E]. exists (Final (RetainedCert e), f). split; [apply elem_of_map_to_list; rewrite S; exact E | reflexivity].
Qed.
Lemma newest_of_spec (v : view) (d : disk) (now : Z) :
  shows v d -> complete v now -> (forall e, complete v e -> e <= now) -> newest_of d = Some now.
Proof.
  intros S [Cc Ck] Max. apply (retained_epochs_spec v d now S) in Cc.
  assert (forall e, In e (retained_epochs d) -> is_Some (v (RetainedKey e)) -> e <= now) as Max'.
  { intros e I K. apply Max. split; [apply (retained_epochs_spec v d e S), I | exact K]. }
  unfold newest_of. revert Cc Max'. generalize (retained_epochs d) as l. intros l Cc Max'.
  assert (forall acc, (acc = Some now \/ In now l) -> match acc with Some c => c <= now | None => True end ->
            fold_left (fun newest e => if bool_decide (is_Some (d !! Final (RetainedKey e))) && match newest with Some c => e >? c | None => true end
                                       then Some e else newest) l acc = Some now) as G; [|apply G; auto].
  clear Cc. induction l as [|e l IH]; intros acc Hin Hle; cbn [fold_left].
  - destruct Hin as [->|[]]. reflexivity.
  - apply IH; [intros x I; apply Max'; right; exact I | |].
    + destruct (bool_decide _ && _) eqn:B.
      * apply andb_true_iff in B as [B1 B2]. apply bool_decide_eq_true in B1. rewrite S in B1. pose proof (Max' e (or_introl eq_refl) B1).
        destruct Hin as [->|[->|I]]; [exfalso; lia | left; reflexivity | right; exact I].
      * destruct Hin as [->|[->|I]]; [left; reflexivity | | right; exact I].
        rewrite bool_decide_true in B by (rewrite S; exact Ck). cbn in B. destruct acc as [c|]; [|discriminate].
        left. f_equal. lia.
    + destruct (bool_decide _ && _) eqn:B; [|exact Hle]. apply andb_true_iff in B as [B1 _]. apply bool_decide_eq_true in B1. rewrite S in B1.
      apply (Max' e (or_introl eq_refl) B1).
Qed.

(** The epoch the listing settles on is a complete pair, and no complete pair is later. *)
Lemma newest_of_sound (v : view) (d : disk) (now : Z) : shows v d -> newest_of d = Some now -> complete v now /\ forall e, complete v e -> e <= now.
Proof.
  intros S. unfold newest_of.
  assert (forall l acc r, fold_left (fun newest e => if bool_decide (is_Some (d !! Final (RetainedKey e))) && match newest with Some c => e >? c | None => true end
                                                     then Some e else newest) l acc = Some r ->
    (acc = Some r \/ In r l /\ is_Some (v (RetainedKey r))) /\ (forall c, acc = Some c -> c <= r) /\ forall e, In e l -> is_Some (v (RetainedKey e)) -> e <= r) as G.
  { induction l as [|x l IH]; intros acc r; cbn [fold_left]; [intros ->; split; [auto|]; split; [intros c [= ->]; lia | intros e []]|].
    intros E. destruct (bool_decide _ && _) eqn:B; apply IH in E as (A1 & A2 & A3).
    - apply andb_true_iff in B as [B1 B2]. apply bool_decide_eq_true in B1. rewrite S in B1. specialize (A2 x eq_refl).
      split; [destruct A1 as [[= ->]|[I K]]; [right; split; [left; reflexivity | exact B1] | right; split; [right; exact I | exact K]]|].
      split; [intros c ->; lia|]. intros e [<-|I] K; [exact A2 | apply A3; assumption].
    - split; [destruct A1 as [->|[I K]]; [auto | right; split; [right; exact I | exact K]]|]. split; [exact A2|]. intros e [<-|I] K; [|apply A3; assumption].
      rewrite bool_decide_true in B by (rewrite S; exact K). cbn in B. destruct acc as [c|]; [|discriminate]. specialize (A2 c eq_refl). lia. }
  intros E. apply G in E as ([E|[I K]] & _ & M); [discriminate|]. split; [split; [apply (retained_epochs_spec v d now S), I | exact K]|].
  intros e [Ce Ke]. apply M; [apply (retained_epochs_spec v d e S), Ce | exact Ke].
Qed.

Definition usable (absolute : bool) (dir : dir_state) : bool :=
  absolute && match dir with DirMissing => true | DirMode m => m =? 448 | _ => false end.
Lemma ok_prepare (absolute : bool) (dir : dir_state) (P : disk -> Prop) : usable absolute dir = true -> ok_spec P (prepare absolute dir) (fun _ => P).
Proof.
  intros U. apply andb_true_iff in U as [-> U]. unfold prepare. cbn [negb]. eapply ok_bind; [apply (ok_call P _ _ _ (fun _ => P)); auto|]. intros [].
  destruct dir as [| | |m]; try discriminate.
  - eapply ok_bind; [apply (ok_call P _ _ _ (fun _ => P)); auto|]. intros []. apply ok_call. auto.
  - rewrite U. apply ok_ret. auto.
Qed.

Section Rollback.
Variables (absolute : bool) (dir : dir_state).
Hypothesis dir_usable : usable absolute dir = true.
Variable to_json : json -> bytes.
Variable from_json : bytes -> result bytes json.
Variable certificate_not_after : bytes -> result AcmeError (option Z).
Variable validate_issued_pair : bytes -> bytes -> bytes -> result AcmeError unit.
Local Abbreviation rollback := (rollback_to_retained_pair to_json from_json validate_issued_pair absolute dir).

(** What the two readable documents contain, and the name the rollback checks against. *)
Definition readable (v : view) (n : name) : Prop := forall f, v n = Some f -> exists j, from_json (content f) = Ok j.
Definition fqdn_on_disk (v : view) : bytes :=
  unwrap_or [] (opt_get (fun j => json_string j (bs "fqdn"))
    (match v LastIssueJson with Some f => match from_json (content f) with Ok j => Some j | Err _ => None end | None => None end)).

Lemma rollback_restores (v : view) (e now : Z) (reason : bytes) (c k : file) :
  v (RetainedCert e) = Some c -> v (RetainedKey e) = Some k -> (forall x, complete v x -> x <= e) ->
  readable v LastIssueJson -> readable v LastFailureJson ->
  validate_issued_pair (content c) (content k) (fqdn_on_disk v) = Ok tt ->
  ok_spec (shows v) (rollback now reason)
    (fun _ d => content <$> d !! Final CertPem = Some (content c) /\ content <$> d !! Final KeyPem = Some (content k) /\
                content <$> d !! Final LastIssueJson = content <$> v (RetainedIssue e) /\ is_Some (d !! Final LastFailureJson) /\
                d !! Final ReloadRequiredJson = v ReloadRequiredJson).
Proof.
  intros Ec Ek Max Ri Rf Val. unfold rollback_to_retained_pair, newest_retained_epoch.
  eapply ok_bind; [apply (ok_prepare absolute dir (shows v) dir_usable)|]. intros [].
  eapply (ok_bind _ _ _ (fun o d => shows v d /\ o = Some e)).
  { eapply ok_bind; [apply (ok_call (shows v) _ _ _ (fun _ => shows v)); auto|]. intros []. eapply ok_bind; [apply ok_get|]. intros d'. apply ok_ret.
    intros d [S ->]. split; [exact S|]. apply (newest_of_spec v d e S); [split; eauto | exact Max]. }
  intros o. apply ok_pure. intros ->. eapply (ok_bind _ _ _ (fun x d => shows v d /\ x = e)); [apply ok_ret; auto|]. intros x. apply ok_pure. intros ->.
  eapply ok_bind; [apply ok_read|]. intros o. apply ok_pure. intros ->. rewrite Ec. cbn [fmap option_fmap option_map require].
  eapply (ok_bind _ _ _ (fun x d => shows v d /\ x = content c)); [apply ok_ret; auto|]. intros x. apply ok_pure. intros ->.
  eapply ok_bind; [apply ok_read|]. intros o. apply ok_pure. intros ->. rewrite Ek. cbn [fmap option_fmap option_map require].
  eapply (ok_bind _ _ _ (fun x d => shows v d /\ x = content k)); [apply ok_ret; auto|]. intros x. apply ok_pure. intros ->.
  eapply ok_bind; [apply (ok_read_json from_json v LastIssueJson Ri)|]. intros o. apply ok_pure. intros ->.
  fold (fqdn_on_disk v). rewrite Val. eapply (ok_bind _ _ _ (fun _ => shows v)); [apply ok_ret; auto|]. intros [].
  apply (ok_bind _ _ _ _ _ (ok_write_pair v (content c) (content k))). intros [].
  set (w := upd (upd v CertPem {| content := content c; mode := 420 |}) KeyPem {| content := content k; mode := 384 |}).
  apply (ok_bind _ _ _ _ _ (ok_read w _ (RetainedIssue e))). intros o. apply ok_pure. intros ->.
  assert (w (RetainedIssue e) = v (RetainedIssue e)) as -> by (unfold w; view_simpl; reflexivity).
  set (w' := fun n => if decide (n = LastIssueJson) then (fun f => {| content := content f; mode := 420 |}) <$> v (RetainedIssue e) else w n).
  apply (ok_bind _ _ _ (fun _ => shows w')).
  { destruct (v (RetainedIssue e)) as [f|] eqn:Er; cbn [fmap option_fmap option_map].
    - eapply ok_conseq; [apply (ok_write_file w LastIssueJson) | auto|]. intros [] d S. eapply shows_ext; [|exact S]. intros n. unfold upd, w'. destruct (decide _); reflexivity.
    - intros h Pl Ph. unfold ignoring, fs_remove, call. rewrite Pl. eexists _, _. split; [reflexivity|]. split; [reflexivity|]. cbn. intros n. unfold w'.
      destruct (decide (n = LastIssueJson)) as [->|Ne]; [apply lookup_delete_eq|]. rewrite lookup_delete_ne by (unfold Final; congruence). apply Ph. }
  intros []. apply (ok_bind _ _ _ _ _ (ok_write_file w' ReloadFailureJson _ _)). intros []. unfold record_failure.
  eapply ok_bind; [apply ok_read_json; intros f; view_simpl; unfold w', w; cbn [decide]; rewrite decide_False by discriminate; view_simpl; apply Rf|].
  intros o. apply ok_pure. intros _.
  eapply ok_conseq; [apply (ok_write_file (upd w' ReloadFailureJson {| content := to_json (reload_failure_json now reason); mode := 420 |})) | auto|].
  intros [] d S. rewrite !S. view_simpl. unfold w'.
  rewrite !decide_False by discriminate. rewrite decide_True by reflexivity. unfold w. view_simpl. cbn.
  split; [reflexivity|]. split; [reflexivity|]. split; [|split; [eauto | reflexivity]]. destruct (v (RetainedIssue e)); reflexivity.
Qed.

(** A rollback that succeeds has put the newest complete retained pair in place, after checking
    it against the recorded name. *)
Definition restored (v : view) (d : disk) : Prop :=
  exists e c k, v (RetainedCert e) = Some c /\ v (RetainedKey e) = Some k /\ (forall x, complete v x -> x <= e) /\
    validate_issued_pair (content c) (content k) (fqdn_on_disk v) = Ok tt /\
    content <$> d !! Final CertPem = Some (content c) /\ content <$> d !! Final KeyPem = Some (content k).
Lemma spec_prepare (P : disk -> Prop) : spec P (prepare absolute dir) (fun _ => P) (fun _ => True).
Proof.
  clear dir_usable. unfold prepare. destruct absolute; cbn [negb]; [|apply spec_fail; auto]. eapply spec_bind; [apply (spec_call P _ _ _ (fun _ => P)); auto|]. intros [].
  destruct dir as [| | |m]; try (apply spec_fail; auto).
  - eapply spec_bind; [apply (spec_call P _ _ _ (fun _ => P)); auto|]. intros []. apply spec_call; auto.
  - destruct (m =? 448); [apply spec_ret; auto | apply spec_fail; auto].
Qed.
Lemma spec_read_at (v : view) (action : bytes) (n : name) : spec (shows v) (fs_read action (Final n)) (fun o d => shows v d /\ o = content <$> v n) (fun _ => True).
Proof. apply spec_read; [intros d S; rewrite S; auto | auto]. Qed.
Lemma spec_require (P : disk -> Prop) (action : bytes) (o : option bytes) : spec P (require action o) (fun b d => P d /\ o = Some b) (fun _ => True).
Proof. destruct o; [apply spec_ret; auto | apply spec_fail; auto]. Qed.
Lemma spec_json_at (v : view) (n : name) :
  spec (shows v) (read_json_if_present from_json n)
    (fun o d => shows v d /\ o = match v n with Some f => match from_json (content f) with Ok j => Some j | Err _ => None end | None => None end) (fun _ => True).
Proof.
  unfold read_json_if_present. eapply spec_bind; [apply spec_read_at|]. intros o. apply spec_pure. intros ->. destruct (v n) as [f|]; cbn; [|apply spec_ret; auto].
  destruct (from_json (content f)); [apply spec_ret; auto | apply spec_fail; auto].
Qed.
Definition pair_shown (c k : bytes) (d : disk) : Prop := content <$> d !! Final CertPem = Some c /\ content <$> d !! Final KeyPem = Some k.
Lemma spec_other_file (c k : bytes) (n : name) (data : bytes) (m : Z) :
  n <> CertPem -> n <> KeyPem -> spec (pair_shown c k) (write_file_private n data m) (fun _ => pair_shown c k) (fun _ => True).
Proof.
  intros N1 N2 h [C K]. pose proof (write_file_spec (fun x => files h !! Final x) n data m h (shows_self _)) as W.
  destruct (write_file_private n data m h) as [[u|e] h']; [|exact I]. split; rewrite W, upd_other by congruence; assumption.
Qed.
Lemma rollback_installs (v : view) (now : Z) (reason : bytes) : spec (shows v) (rollback now reason) (fun _ d => restored v d) (fun _ => True).
Proof.
  unfold rollback_to_retained_pair, newest_retained_epoch. eapply spec_bind; [apply spec_prepare|]. intros [].
  eapply (spec_bind _ _ _ (fun o d => shows v d /\ forall e, o = Some e -> complete v e /\ forall x, complete v x -> x <= e)).
  { eapply spec_bind; [apply (spec_call (shows v) _ _ _ (fun _ => shows v)); auto|]. intros []. eapply spec_bind; [apply (spec_get _ (fun d' d => shows v d /\ d' = d)); auto|].
    intros d'. apply spec_ret. intros d [S ->]. split; [exact S|]. intros e E. exact (newest_of_sound v d e S E). }
  intros [e|]; [|eapply (spec_bind _ _ _ (fun _ _ => False)); [apply spec_fail; auto | intros x h []]].
  apply spec_pure. intros N. destruct (N e eq_refl) as [_ Max]. clear N.
  eapply (spec_bind _ _ _ (fun x d => shows v d /\ x = e)); [apply spec_ret; auto|]. intros x. apply spec_pure. intros ->.
  eapply spec_bind; [apply spec_read_at|]. intros o. apply spec_pure. intros ->. eapply spec_bind; [apply spec_require|]. intros cb. apply spec_pure. intros Ec.
  eapply spec_bind; [apply spec_read_at|]. intros o. apply spec_pure. intros ->. eapply spec_bind; [apply spec_require|]. intros kb. apply spec_pure. intros Ek.
  apply fmap_Some in Ec as (c & Ec & ->). apply fmap_Some in Ek as (k & Ek & ->).
  eapply spec_bind; [apply spec_json_at|]. intros o. apply spec_pure. intros ->. fold (fqdn_on_disk v).
  eapply (spec_bind _ _ _ (fun _ d => shows v d /\ validate_issued_pair (content c) (content k) (fqdn_on_disk v) = Ok tt)); [apply spec_of_result; [intros [] d E S; auto | auto]|].
  intros []. apply spec_pure. intros Val.
  eapply (spec_bind _ _ _ (fun _ => pair_shown (content c) (content k))).
  { eapply spec_conseq; [apply (write_pair_spec v) | auto | | auto]. intros [] d S. split; rewrite S; view_simpl; reflexivity. }
  intros []. eapply (spec_bind _ _ _ (fun _ => pair_shown (content c) (content k))); [apply spec_read; auto|]. intros meta.
  eapply (spec_bind _ _ _ (fun _ => pair_shown (content c) (content k))).
  { destruct meta as [b|]; [apply spec_other_file; discriminate|]. intros h [C K]. unfold ignoring, fs_remove, call, untouched.
    destruct (plan h) as [|[|? ?|?] p]; cbn; try exact I; (split; [rewrite <- C | rewrite <- K]; try reflexivity; rewrite lookup_delete_ne by discriminate; reflexivity). }
  intros []. eapply spec_bind; [apply spec_other_file; discriminate|]. intros []. unfold record_failure.
  eapply (spec_bind _ _ _ (fun _ => pair_shown (content c) (content k))).
  { intros h P. pose proof (spec_json_at (fun x => files h !! Final x) LastFailureJson h (shows_self _)) as R.
    destruct (read_json_if_present _ _ h) as [[o|e'] h']; [|exact I]. destruct R as [S _]. destruct P as [C K]. split; rewrite S; assumption. }
  intros o. eapply spec_conseq; [apply spec_other_file; discriminate | intros d P; exact P | | auto]. intros [] d [C K]. exists e, c, k. auto 7.
Qed.

(** What a rotation leaves once it has touched the pair. *)
Definition rotated (v0 v1 : view) (now : Z) (c k : file) : Prop :=
  v1 (RetainedCert now) = Some {| content := content c; mode := 420 |} /\
  v1 (RetainedKey now) = Some {| content := content k; mode := 384 |} /\
  content <$> v1 (RetainedIssue now) = content <$> v0 LastIssueJson /\
  v1 LastFailureJson = v0 LastFailureJson /\ v1 ReloadRequiredJson = Some (marker_file to_json now) /\
  (forall e, e <> now -> v1 (RetainedCert e) = v0 (RetainedCert e) /\ v1 (RetainedKey e) = v0 (RetainedKey e)).
Lemma prepared_rotated (v0 : view) (now : Z) (c k : file) :
  v0 CertPem = Some c -> v0 KeyPem = Some k -> (v0 LastIssueJson = None -> v0 (RetainedIssue now) = None) -> rotated v0 (prepared to_json v0 now) now c k.
Proof.
  intros Ec Ek Ei. destruct (prepared_keeps to_json v0 now c k Ec Ek) as (A & B & D). split; [exact A|]. split; [exact B|].
  split; [rewrite D; destruct (v0 LastIssueJson); [reflexivity | rewrite Ei by reflexivity; reflexivity]|].
  split; [apply prepared_other; discriminate|]. split; [apply prepared_marker|].
  intros e Ne. rewrite !prepared_other by congruence. auto.
Qed.
Lemma rotated_upd (v0 v1 : view) (now : Z) (c k : file) (n : name) (f : file) :
  In n [CertPem; KeyPem; LastIssueJson] -> rotated v0 v1 now c k -> rotated v0 (upd v1 n f) now c k.
Proof.
  intros Hn (A & B & D & E & F & G). unfold rotated. destruct Hn as [<-|[<-|[<-|[]]]]; view_simpl; (repeat split; try assumption);
    intros; view_simpl; apply G; assumption.
Qed.
Lemma rotation_view (i : IssuedCertificate) (policy : AcmeRenewalPolicy) (now : Z) (h : host) (c k : file) :
  let v0 := fun n => files h !! Final n in
  let v1 := fun n => files (snd (persist to_json certificate_not_after i policy now h)) !! Final n in
  v0 CertPem = Some c -> v0 KeyPem = Some k -> (v0 LastIssueJson = None -> v0 (RetainedIssue now) = None) -> v1 CertPem <> v0 CertPem -> rotated v0 v1 now c k.
Proof.
  intros v0 v1 Ec Ek Ei T. pose proof (persist_spec to_json certificate_not_after v0 i policy now h (shows_self _)) as S.
  pose proof (prepared_rotated v0 now c k Ec Ek Ei) as P.
  assert (forall w d, shows w d -> rotated v0 w now c k -> rotated v0 (fun n => d !! Final n) now c k) as Ext.
  { intros w d Sh (A & B & D & E & F & G). unfold rotated. rewrite !Sh. repeat split; try assumption; rewrite ?Sh; apply G; assumption. }
  subst v1. destruct (persist _ _ i policy now h) as [[u|e] h']; cbn [snd] in *.
  - destruct S as (na & _ & S). eapply Ext; [exact S|]. repeat (apply rotated_upd; [cbn; tauto|]). exact P.
  - destruct S as [S|[(w & S & W)|[S|S]]].
    + exfalso. apply T. apply S.
    + exfalso. apply T. cbv beta. rewrite S, W by discriminate. apply upd_other. discriminate.
    + eapply Ext; [exact S|]. apply rotated_upd; [cbn; tauto | exact P].
    + eapply Ext; [exact S|]. repeat (apply rotated_upd; [cbn; tauto|]). exact P.
Qed.

(** C8. Rollback undoes any rotation: if a rotation got as far as touching the certificate -
    whether it completed, failed, or died between the two renames - then the supervisor's
    rollback restores the old certificate, the old key and the old metadata, keeps the reload
    marker and records a failure.  The provisos are: the state directory is usable and the
    disk works during the rollback; there was an old certificate and an old key; no complete
    retained pair on disk has a later second than the rotation (the clock was not set back
    since it was retained); where there was no old issue metadata, none is retained under the
    rotation's second; the issue and failure documents are readable; and the old pair is valid
    for the name recorded after the rotation. *)
Theorem rollback_undoes_any_rotation (i : IssuedCertificate) (policy : AcmeRenewalPolicy) (now later : Z) (reason : bytes) (h : host) (c k : file) :
  let v0 := fun n => files h !! Final n in
  let h1 := snd (persist to_json certificate_not_after i policy now h) in
  let v1 := fun n => files h1 !! Final n in
  v0 CertPem = Some c -> v0 KeyPem = Some k -> (forall e, complete v0 e -> e <= now) -> (v0 LastIssueJson = None -> v0 (RetainedIssue now) = None) ->
  readable v0 LastFailureJson -> v1 CertPem <> v0 CertPem ->
  readable v1 LastIssueJson -> validate_issued_pair (content c) (content k) (fqdn_on_disk v1) = Ok tt ->
  exists h2, rollback later reason (with_files h1 (files h1) []) = (Ok tt, h2) /\
    content <$> files h2 !! Final CertPem = Some (content c) /\ content <$> files h2 !! Final KeyPem = Some (content k) /\
    content <$> files h2 !! Final LastIssueJson = content <$> v0 LastIssueJson /\
    files h2 !! Final ReloadRequiredJson = Some (marker_file to_json now) /\ is_Some (files h2 !! Final LastFailureJson).
Proof.
  intros v0 h1 v1 Ec Ek Max Ei Rf T Ri Val. destruct (rotation_view i policy now h c k Ec Ek Ei T) as (A & B & D & E & F & G). fold h1 in A, B, D, E, F, G.
  destruct (rollback_restores v1 now later reason _ _ A B) with (h := with_files h1 (files h1) []) as ([] & h2 & R & _ & Q1 & Q2 & Q3 & Q4 & Q5).
  - intros e [Ce Ke]. destruct (decide (e = now)) as [->|Ne]; [lia|]. apply Max. destruct (G e Ne) as [G1 G2].
    destruct Ce as [f Ef], Ke as [g Eg].
    split; [exists f; etransitivity; [symmetry; exact G1 | exact Ef] | exists g; etransitivity; [symmetry; exact G2 | exact Eg]].
  - exact Ri.
  - intros f Ef. apply Rf. rewrite <- Ef. symmetry. exact E.
  - exact Val.
  - reflexivity.
  - apply shows_self.
  - exists h2. split; [exact R|]. split; [exact Q1|]. split; [exact Q2|]. split; [rewrite Q3; exact D|]. split; [rewrite Q5; exact F | exact Q4].
Qed.
End Rollback.

(** A process that died between the renames. *)
Lemma rollback_undoes_any_rotation_witness :
  exists h2, rollback_to_retained_pair (fun _ => bs "{}") (fun _ => Ok (JObj [])) (fun _ _ _ => Ok tt) true (DirMode 448) 200 (bs "boot failed")
      (with_files (snd (persist (fun _ => bs "{}") (fun _ => Ok None) new_pair default_policy 100 (host_of old_files (replicate 28 Fine ++ [Dies []]))))
         (files (snd (persist (fun _ => bs "{}") (fun _ => Ok None) new_pair default_policy 100 (host_of old_files (replicate 28 Fine ++ [Dies []]))))) []) = (Ok tt, h2) /\
    content <$> files h2 !! Final CertPem = Some (bs "old cert") /\ content <$> files h2 !! Final KeyPem = Some (bs "old key").
Proof.
  destruct (rollback_undoes_any_rotation true (DirMode 448) eq_refl (fun _ => bs "{}") (fun _ => Ok (JObj [])) (fun _ => Ok None) (fun _ _ _ => Ok tt) new_pair default_policy 100 200
    (bs "boot failed") (host_of old_files (replicate 28 Fine ++ [Dies []])) {| content := bs "old cert"; mode := 420 |} {| content := bs "old key"; mode := 384 |})
    as (h2 & R & C & K & _).
  - reflexivity.
  - reflexivity.
  - intros e [[f Ef] _]. cbn [host_of files] in Ef. unfold old_files in Ef. rewrite !lookup_insert_ne, lookup_empty in Ef by discriminate. discriminate.
  - reflexivity.
  - intros f Ef. eauto.
  - vm_compute. discriminate.
  - intros f Ef. eauto.
  - reflexivity.
  - exists h2. auto.
Defined.

(** The clock matters: with a pair retained at second 300 on disk, a rotation at second 100 is
    rolled back to that pair, not to the one it replaced. *)
Definition stepped_back : disk :=
  <[Final (RetainedCert 300) := {| content := bs "older cert"; mode := 420 |}]> (<[Final (RetainedKey 300) := {| content := bs "older key"; mode := 384 |}]> old_files).
Lemma rollback_after_clock_step_back :
  let h1 := snd (persist (fun _ => bs "{}") (fun _ => Ok None) new_pair default_policy 100 (host_of stepped_back [])) in
  let h2 := snd (rollback_to_retained_pair (fun _ => bs "{}") (fun _ => Ok (JObj [])) (fun _ _ _ => Ok tt) true (DirMode 448) 200 (bs "boot failed") h1) in
  content <$> files h1 !! Final (RetainedCert 100) = Some (bs "old cert") /\ content <$> files h2 !! Final CertPem = Some (bs "older cert").
Proof. vm_compute. split; reflexivity. Qed.

(** ** Who contacts the authority *)

(** Programs that neither contact the authority nor change the lock; and those that leave
    every file as it is, too. *)
Definition keeps {A : Type} (c : io A) : Prop := forall h, contacts (snd (c h)) = contacts h /\ locked (snd (c h)) = locked h.
Definition reads_only {A : Type} (c : io A) : Prop := keeps c /\ forall h, files (snd (c h)) = files h.

Lemma keeps_bind {A B : Type} (c : io A) (k : A -> io B) : keeps c -> (forall a, keeps (k a)) -> keeps (bind c k).
Proof.
  intros C K h. unfold bind. specialize (C h). destruct (c h) as [[a|e] h']; cbn [snd] in *; [|exact C].
  destruct (K a h') as [-> ->]. exact C.
Qed.
Lemma keeps_call (action : bytes) (f : disk -> disk) (g : bytes -> disk -> disk) : keeps (call action f g).
Proof. intros h. unfold call. destruct (plan h) as [|[|? ?|?] p]; split; reflexivity. Qed.
Lemma reads_bind {A B : Type} (c : io A) (k : A -> io B) : reads_only c -> (forall a, reads_only (k a)) -> reads_only (bind c k).
Proof.
  intros [C Cf] K. split; [apply keeps_bind; [exact C | intros a; apply K]|]. intros h. unfold bind. specialize (Cf h).
  destruct (c h) as [[a|e] h']; cbn [snd] in *; [|exact Cf]. rewrite (proj2 (K a) h'). exact Cf.
Qed.
Lemma reads_call (action : bytes) : reads_only (call action (fun d => d) untouched).
Proof. split; [apply keeps_call|]. intros h. unfold call. destruct (plan h) as [|[|? ?|?] p]; reflexivity. Qed.
Lemma reads_ret {A : Type} (a : A) : reads_only (ret a).
Proof. split; [split|]; reflexivity. Qed.
Lemma reads_fail {A : Type} (e : AcmeError) : reads_only (fail (A := A) e).
Proof. split; [split|]; reflexivity. Qed.
Lemma reads_get : reads_only get_files.
Proof. split; [split|]; reflexivity. Qed.
Lemma reads_exists (n : name) : reads_only (exists_file n).
Proof. apply reads_bind; [apply reads_get | intros d; apply reads_ret]. Qed.
Lemma reads_json (from_json : bytes -> result bytes json) (n : name) : reads_only (read_json_if_present from_json n).
Proof.
  apply reads_bind; [apply reads_bind; [apply reads_call | intros []; apply reads_bind; [apply reads_get | intros d; apply reads_ret]]|].
  intros [b|]; [destruct (from_json b); [apply reads_ret | apply reads_fail] | apply reads_ret].
Qed.
Lemma reads_status (from_json : bytes -> result bytes json) (na : bytes -> result AcmeError (option Z)) (now : Z) (policy : AcmeRenewalPolicy) :
  reads_only (status from_json na now policy).
Proof.
  unfold status. do 3 (apply reads_bind; [apply reads_json|]; intros ?). do 2 (apply reads_bind; [apply reads_exists|]; intros ?).
  apply reads_bind; [apply reads_get|]. intros d. apply reads_ret.
Qed.
Lemma keeps_write (n : name) (data : bytes) (m : Z) : keeps (write_file_private n data m).
Proof. unfold write_file_private, stage_private. repeat (apply keeps_bind; [|intros []]); apply keeps_call. Qed.

Lemma reads_prepare (absolute : bool) (dir : dir_state) : reads_only (prepare absolute dir).
Proof.
  unfold prepare. destruct absolute; cbn [negb]; [|apply reads_fail]. apply reads_bind; [apply reads_call|]. intros [].
  destruct dir as [| | |m]; [apply reads_bind; [|intros []]; apply reads_call | apply reads_fail | apply reads_fail |].
  destruct (m =? 448); [apply reads_ret | apply reads_fail].
Qed.

Section Renewal.
Variables (absolute : bool) (dir : dir_state).
Variable to_json : json -> bytes.
Variable from_json : bytes -> result bytes json.
Variable certificate_not_after : bytes -> result AcmeError (option Z).
Variable validate_issued_pair : bytes -> bytes -> bytes -> result AcmeError unit.

(** Nothing happened but that a failure may have been recorded. *)
Definition no_issuance (h h' : host) : Prop :=
  contacts h' = contacts h /\ forall n, n <> LastFailureJson -> files h' !! Final n = files h !! Final n.
Lemma record_failure_no_issuance (now : Z) (policy : AcmeRenewalPolicy) (kind message : bytes) (retry : option Z) (h : host) :
  no_issuance h (snd (record_failure to_json from_json now policy kind message retry h)).
Proof.
  unfold record_failure, bind. destruct (reads_json from_json LastFailureJson) as [K F]. specialize (K h). specialize (F h).
  destruct (read_json_if_present from_json LastFailureJson h) as [[o|e] h1]; cbn [snd] in *; [|split; [apply K | intros n _; rewrite F; reflexivity]].
  match goal with |- no_issuance h (snd (write_file_private ?p ?data ?m h1)) =>
    pose proof (keeps_write p data m h1) as [W _]; pose proof (write_file_spec (fun x => files h1 !! Final x) p data m h1 (shows_self _)) as S;
    destruct (write_file_private p data m h1) as [[u|e] h2] end; cbn [snd] in *.
  - split; [rewrite W; apply K|]. intros n Ne. rewrite S, upd_other, F by exact Ne. reflexivity.
  - split; [rewrite W; apply K|]. intros n Ne. rewrite S, F. reflexivity.
Qed.
Lemma try_lock_reads (h : host) :
  let '(r, h') := try_issuance_lock h in files h' = files h /\ contacts h' = contacts h /\
    match r with Ok b => b = negb (locked h) /\ locked h' = true | Err _ => True end.
Proof. unfold try_issuance_lock, bind, call. destruct (plan h) as [|[|? ?|?] p]; cbn; destruct (locked h) eqn:L; cbn; rewrite ?L; auto. Qed.

Lemma issue_while_locked (fqdn url : bytes) (now : Z) (bound : result AcmeError unit) (ca : authority) (h : host) :
  locked h = true ->
  let '(r, h') := issue_once_with_instant_acme to_json from_json certificate_not_after validate_issued_pair absolute dir fqdn url now bound ca h in
  (forall i, r <> Ok i) /\ files h' = files h /\ contacts h' = contacts h.
Proof.
  intros L0. unfold issue_once_with_instant_acme, bind at 1. destruct (reads_prepare absolute dir) as [K0 F0]. specialize (K0 h). specialize (F0 h).
  destruct (prepare absolute dir h) as [[[]|e0] h0]; cbn [snd] in *; [|split; [discriminate | split; [exact F0 | apply K0]]].
  destruct K0 as [K0 K1]. rewrite <- F0, <- K0. assert (locked h0 = true) as L by congruence. clear L0 F0 K0 K1 h.
  unfold bind at 1. pose proof (try_lock_reads h0) as T. destruct (try_issuance_lock h0) as [[b|e] h1]; destruct T as (F & C & T); [|split; [discriminate | auto]].
  destruct T as [-> _]. rewrite L. cbn [negb]. cbn. split; [discriminate | auto].
Qed.

(** C25. The renewal command never renews: [renew_once_with_instant_acme] takes the issuance
    lock and then calls [issue_once_with_instant_acme], which takes it again on a new handle
    and is refused.  For every state of the disk, every verdict and whatever the authority
    would answer, the authority is not contacted, no file but the failure record changes, and
    the outcome is never a renewal. *)
Theorem renewal_command_never_renews (fqdn directory_url : bytes) (now later : Z) (bound : result AcmeError unit) (ca : authority) (h : host) :
  match renew_once_with_instant_acme to_json from_json certificate_not_after validate_issued_pair absolute dir fqdn directory_url now later bound ca h with (r, h') =>
  contacts h' = contacts h /\
  (forall n, n <> LastFailureJson -> files h' !! Final n = files h !! Final n) /\
  (forall issued s, r <> Ok (Renewed issued s))
  end.
Proof.
  cut (let '(r, h') := renew_once_with_instant_acme to_json from_json certificate_not_after validate_issued_pair absolute dir fqdn directory_url now later bound ca h in
       no_issuance h h' /\ forall issued s, r <> Ok (Renewed issued s)).
  { destruct (renew_once_with_instant_acme _ _ _ _ _ _ _ _ _ _ _ _ h) as [r h']. intros [[A B] C]. auto. }
  unfold renew_once_with_instant_acme, renew_once, bind at 1.
  destruct (reads_prepare absolute dir) as [K0 F0]. specialize (K0 h). specialize (F0 h).
  destruct (prepare absolute dir h) as [[[]|e0] h0]; cbn [snd] in *; [|split; [split; [apply K0 | intros n _; rewrite F0; reflexivity] | discriminate]].
  unfold bind at 1. destruct (reads_status from_json certificate_not_after now default_policy) as [K F]. specialize (K h0). specialize (F h0).
  destruct (status from_json certificate_not_after now default_policy h0) as [[s|e] h1]; cbn [snd] in *.
  2: { split; [split; [rewrite (proj1 K); apply K0 | intros n _; rewrite F, F0; reflexivity] | discriminate]. }
  assert (no_issuance h h1) as N1 by (split; [rewrite (proj1 K); apply K0 | intros n _; rewrite F, F0; reflexivity]).
  destruct (backed_off s now); [split; [exact N1 | discriminate]|]. destruct (invalid_certificate_latched s); [split; [exact N1 | discriminate]|].
  destruct (negb (renewal_due s)); [split; [exact N1 | discriminate]|]. unfold bind at 1. pose proof (try_lock_reads h1) as T.
  destruct (try_issuance_lock h1) as [[b|e] h2]; destruct T as (F2 & C2 & T).
  2: { split; [split; [rewrite C2; apply N1 | intros n Ne; rewrite F2; apply N1, Ne] | discriminate]. }
  assert (no_issuance h h2) as N2 by (split; [rewrite C2; apply N1 | intros n Ne; rewrite F2; apply N1, Ne]).
  destruct T as [_ L]. destruct (negb b); [split; [exact N2 | discriminate]|]. unfold holding.
  pose proof (issue_while_locked fqdn directory_url later bound ca h2 L) as I.
  destruct (issue_once_with_instant_acme _ _ _ _ _ _ _ _ _ _ _ h2) as [[i|[e|]] h3]; destruct I as (I & F3 & C3); [destruct (I i eq_refl)| |].
  - unfold bind at 1. pose proof (record_failure_no_issuance now default_policy (classify_acme_failure (display e)) (display e) None h3) as R.
    destruct (record_failure _ _ _ _ _ _ _ h3) as [[[]|e'] h4]; destruct R as [R1 R2]; cbn [snd fst with_lock contacts files] in *; (split; [|discriminate]); split;
      try (cbn; rewrite R1, C3; apply N2); intros n Ne; cbn; rewrite R2, F3 by exact Ne; apply N2, Ne.
  - cbn. split; [|discriminate]. split; [cbn; rewrite C3; apply N2 | intros n Ne; cbn; rewrite F3; apply N2, Ne].
Qed.
End Renewal.

(** ** The retry schedule and the reload marker *)

Lemma deterministic_jitter_range (now n j : Z) : 0 <= j -> 0 <= deterministic_jitter now n j <= j.
Proof.
  intros Hj. unfold deterministic_jitter. destruct (j =? 0) eqn:E; [lia|]. cbv zeta.
  match goal with |- context [?m mod (j + 1)] => pose proof (Z.mod_pos_bound m (j + 1) ltac:(lia)) end. lia.
Qed.

(** The wait after a failed renewal: it is at least the doubled base delay capped at the
    maximum, at least the rate-limit floor for the rate-limited and invalid-certificate
    classes, at most the larger of floor and maximum plus jitter, and never overflows; with
    the default policy the [n]-th failure waits between [min (60 * 2^(n-1)) 21600] seconds
    and six hours and five minutes. *)
Theorem retry_wait_is_bounded (now n : Z) (policy : AcmeRenewalPolicy) (kind : bytes) :
  0 <= now -> 1 <= n -> 0 <= retry_base_seconds policy -> 0 <= retry_max_seconds policy -> 0 <= retry_jitter_seconds policy ->
  0 <= rate_limit_floor_seconds policy ->
  now + retry_max_seconds policy + retry_jitter_seconds policy <= u64_max -> now + rate_limit_floor_seconds policy <= u64_max ->
  let next := next_attempt_after_failure now n policy kind None in
  now + Z.min (retry_base_seconds policy * 2 ^ Z.min (n - 1) 20) (retry_max_seconds policy) <= next /\
  next <= Z.max (now + retry_max_seconds policy + retry_jitter_seconds policy) (now + rate_limit_floor_seconds policy) /\
  (kind = bs "rate_limited" \/ kind = bs "invalid-certificate" -> now + rate_limit_floor_seconds policy <= next).
Proof.
  intros H1 H2 H3 H4 H5 H6 H7 H8. cbv zeta. unfold next_attempt_after_failure.
  pose proof (deterministic_jitter_range now n (retry_jitter_seconds policy) H5) as J. set (jit := deterministic_jitter _ _ _) in *.
  replace (saturating_sub n 1) with (n - 1) by int_lia. rewrite Z.shiftl_1_l. set (x := retry_base_seconds policy * 2 ^ Z.min (n - 1) 20).
  assert (0 <= x) as Hx by (unfold x; apply Z.mul_nonneg_nonneg; [exact H3 | apply Z.pow_nonneg; lia]).
  assert (Z.min (saturating_mul (retry_base_seconds policy) (2 ^ Z.min (n - 1) 20)) (retry_max_seconds policy) = Z.min x (retry_max_seconds policy)) as ->.
  { unfold saturating_mul. fold x. rewrite <- Z.min_assoc. f_equal. apply Z.min_r. lia. }
  set (base := Z.min x (retry_max_seconds policy)). assert (0 <= base <= retry_max_seconds policy) as Hb by (unfold base; lia).
  replace (saturating_add (saturating_add now base) jit) with (now + base + jit) by int_lia.
  replace (saturating_add now (rate_limit_floor_seconds policy)) with (now + rate_limit_floor_seconds policy) by int_lia.
  destruct (eq_bytes kind (bs "rate_limited") || eq_bytes kind (bs "invalid-certificate")) eqn:E.
  - split; [lia|]. split; [lia|]. intros _. lia.
  - split; [lia|]. split; [lia|]. apply orb_false_iff in E as [E1 E2]. intros [-> | ->]; [vm_compute in E1 | vm_compute in E2]; discriminate.
Qed.
Lemma retry_wait_is_bounded_witness :
  let next := next_attempt_after_failure 1000000 3 default_policy (bs "transient") None in 1000240 <= next <= 1021900.
Proof.
  pose proof (retry_wait_is_bounded 1000000 3 default_policy (bs "transient") ltac:(vm_compute; discriminate) ltac:(vm_compute; discriminate) ltac:(vm_compute; discriminate) ltac:(vm_compute; discriminate)
    ltac:(vm_compute; discriminate) ltac:(vm_compute; discriminate) ltac:(vm_compute; discriminate) ltac:(vm_compute; discriminate)) as (A & B & _).
  cbv zeta. split; [etransitivity; [|exact A] | etransitivity; [exact B|]]; vm_compute; discriminate.
Defined.

(** The marker is owed exactly when it is there and readable; a marker that is there but not
    a JSON document is an error, not an owed restart. *)
Lemma reload_marker_cases (from_json : bytes -> result bytes json) (h : host) :
  plan h = [] ->
  fst (reload_marker_updated_at from_json true (DirMode 448) h) =
    match files h !! Final ReloadRequiredJson with
    | None => Ok None
    | Some f => match from_json (content f) with
                | Ok j => Ok (Some (unwrap_or 0 (json_u64 j (bs "updated_at_epoch_seconds"))))
                | Err d => Err (Failed (Json (bs "decode ACME state metadata") d))
                end
    end.
Proof.
  intros Pl. unfold reload_marker_updated_at, prepare, read_json_if_present, fs_read, bind, call, get_files. cbn. rewrite Pl. cbn.
  destruct (files h !! Final ReloadRequiredJson) as [f|]; cbn; [|reflexivity]. destruct (from_json (content f)); reflexivity.
Qed.
