(* ===== verification/Service.v ===== *)
(** * Service: the environment of the children

    Model of the environment policy of [crates/oxo-pingora-edge/src/service.rs]: which of the
    supervisor's variables a worker, the cable and the gRPC sidecar receive, which are kept
    from them, and how values are redacted in the log. *)

From S2P Require Import Prelude Text AcmeState.

Create HintDb service.

(** ** The children's environment *)

Abbreviation env_list := (list (bytes * bytes)).

Definition is_sensitive_env_name (name : bytes) : bool :=
  let name := map (fun b => if is_ascii_lower b then zb (bz b - 32) else b) name in
  contains_sub (bs "SECRET") name || contains_sub (bs "PASSWORD") name || contains_sub (bs "TOKEN") name ||
  contains_sub (bs "CREDENTIAL") name || one_of name ["DATABASE_URL"; "REDIS_URL"; "RAILS_MASTER_KEY"] || ends_with (bs "_KEY") name.
Definition redacted_env_value (name value : bytes) : bytes :=
  if (length value =? 0)%nat then bs "<empty>"
  else if is_sensitive_env_name name then bs "<redacted>"
  else bs "<set>".
Fixpoint join_comma (l : list bytes) : bytes :=
  match l with
  | [] => []
  | [s] => s
  | s :: l' => s ++ [zb 44] ++ join_comma l'
  end.
Definition redacted_env_summary (envs : env_list) : bytes :=
  join_comma (map (fun e => fst e ++ bs "=" ++ redacted_env_value (fst e) (snd e)) envs).

Definition is_env_name_safe (name : bytes) : bool :=
  negb (length name =? 0)%nat && forallb (fun b => is_ascii_upper b || is_ascii_digit b || (bz b =? 95)) name.
Definition edge_only_names : list string :=
  ["OXO_EDGE_BIND"; "OXO_EDGE_WORKER_SOCKET"; "OXO_EDGE_WORKER_SOCKETS"; "OXO_EDGE_MAX_BODY"; "OXO_EDGE_SERVER_NAME";
   "OXO_EDGE_PUBLIC_ORIGIN_PORT"; "OXO_EDGE_TLS"; "OXO_EDGE_TLS_CERT"; "OXO_EDGE_TLS_KEY"; "OXO_EDGE_TLS_H2";
   "OXO_EDGE_ACME_STATE_PATH"; "OXO_EDGE_ACME_ISSUE_ONCE"; "OXO_EDGE_ACME_RENEW_ONCE"; "OXO_EDGE_ACME_DIRECTORY_URL";
   "OXO_EDGE_ACME_CONTACTS"; "OXO_EDGE_ACME_ACCEPT_TERMS"; "OXO_EDGE_ACME_ALLOW_PRODUCTION_DIRECTORY"; "OXO_EDGE_PUBLIC_MODE";
   "OXO_EDGE_PUBLIC_IDENTITY"; "OXO_EDGE_ADMIN_BIND"; "OXO_EDGE_ACTION_CABLE_BIND"; "OXO_EDGE_GRPC_BIND"; "OXO_EDGE_DRAIN_GRACE_MS";
   "OXO_EDGE_MAX_IN_FLIGHT_REQUESTS"; "OXO_EDGE_HEADER_READ_TIMEOUT_MS"; "OXO_EDGE_KEEPALIVE_IDLE_TIMEOUT_MS";
   "OXO_EDGE_MAX_CONNECTION_SECS"; "OXO_EDGE_SSE"; "OXO_EDGE_KEEPALIVE"; "OXO_EDGE_MAX_REQUESTS_PER_CONNECTION";
   "OXO_EDGE_H2_MAX_CONCURRENT_STREAMS"; "OXO_EDGE_H2_MAX_RESET_STREAMS"; "OXO_EDGE_THREADS"; "OXO_EDGE_LISTENER_TASKS";
   "OXO_EDGE_REQUEST_LOG"; "OXO_EDGE_STATIC_MOUNTS"; "OXO_EDGE_STATIC_RAILS_PRESET"; "OXO_EDGE_SERVE_RAILS"; "OXO_EDGE_PROD";
   "LISTEN_FDS"; "LISTEN_PID"; "LISTEN_FDNAMES"]%string.
Definition is_edge_only_env_name (name : bytes) : bool := one_of name edge_only_names.

Inductive env_error : Type :=
| MissingEnv (name : bytes)
| InvalidEnvName (var name : bytes)
| EdgeOnlyEnvName (var name : bytes)
| NotUnicode (name : bytes)
| GemfileNotFound.

Section Env.
(** [env::var_os] of the supervisor, and whether a path is a regular file. *)
Variable getenv : bytes -> option bytes.
Variable is_file : bytes -> bool.

Definition nonempty_env (name : bytes) : option bytes :=
  match getenv name with Some v => if (length v =? 0)%nat then None else Some v | None => None end.
Definition push_optional_env (envs : env_list) (name : bytes) : env_list :=
  match nonempty_env name with Some v => envs ++ [(name, v)] | None => envs end.
Definition push_required_env (envs : env_list) (name : bytes) : result env_error env_list :=
  match nonempty_env name with Some v => Ok (envs ++ [(name, v)]) | None => Err (MissingEnv name) end.
Definition push_env_value (envs : env_list) (name value : bytes) : env_list := envs ++ [(name, value)].
Definition push_all (envs : env_list) (names : list string) : env_list :=
  fold_left (fun e n => push_optional_env e (bs n)) names envs.

Fixpoint allow_names (var : bytes) (names : list bytes) (envs : env_list) : result env_error env_list :=
  match names with
  | [] => Ok envs
  | name :: names' =>
      if negb (is_env_name_safe name) then Err (InvalidEnvName var name)
      else if is_edge_only_env_name name then Err (EdgeOnlyEnvName var name)
      else allow_names var names' (push_optional_env envs name)
  end.
Definition apply_env_allowlist (envs : env_list) (var : bytes) : result env_error env_list :=
  match getenv var with
  | Some extra =>
      if utf8 extra then allow_names var (List.filter (fun n => negb (length n =? 0)%nat) (map trim (split_byte (zb 44) extra))) envs
      else Ok envs
  | None => Ok envs
  end.

Definition default_cable_passthrough_env : list string :=
  ["PATH"; "LD_LIBRARY_PATH"; "DYLD_LIBRARY_PATH"; "BUNDLE_GEMFILE"; "RAILS_ENV"; "RACK_ENV"; "SECRET_KEY_BASE"; "RAILS_MASTER_KEY"; "REDIS_URL"]%string.
Definition default_grpc_passthrough_env : list string :=
  ["PATH"; "LD_LIBRARY_PATH"; "DYLD_LIBRARY_PATH"; "BUNDLE_GEMFILE"; "RAILS_ENV"; "RACK_ENV"; "SECRET_KEY_BASE"; "RAILS_MASTER_KEY";
   "DATABASE_URL"; "REDIS_URL"; "GRPC_DEFAULT_SSL_ROOTS_FILE_PATH"]%string.
Definition default_worker_passthrough_env : list string :=
  ["PATH"; "LD_LIBRARY_PATH"; "DYLD_LIBRARY_PATH"; "BUNDLE_GEMFILE"; "RAILS_ENV"; "RACK_ENV"; "SECRET_KEY_BASE"; "RAILS_MASTER_KEY";
   "DATABASE_URL"; "REDIS_URL"; "MEMCACHE_SERVERS"]%string.

Definition collect_worker_env (worker_socket : bytes) : result env_error env_list :=
  let? envs := push_required_env [] (bs "OXO_WORKER_APP") in
  let envs := push_env_value envs (bs "OXO_WORKER_SOCKET") worker_socket in
  let envs := push_all envs ["OXO_WORKER_THREADS"; "OXO_WORKER_MAX_BODY"; "OXO_WORKER_RACK_LINT"; "OXO_WORKER_STREAMING"]%string in
  let envs := push_all envs default_worker_passthrough_env in
  apply_env_allowlist envs (bs "OXO_APP_ENV_ALLOW").

(** [optional_string_env]: a variable of white space only counts as unset. *)
Definition optional_string_env (name : bytes) : result env_error (option bytes) :=
  match getenv name with
  | Some v => if negb (utf8 v) then Err (NotUnicode name) else if (length (trim v) =? 0)%nat then Ok None else Ok (Some v)
  | None => Ok None
  end.
Definition push_string_env (envs : env_list) (name : bytes) : result env_error env_list :=
  let? o := optional_string_env name in
  Ok (match o with Some v => push_env_value envs name v | None => envs end).
Definition collect_async_worker_env (worker_socket default_gemfile : bytes) : result env_error env_list :=
  let? envs := push_required_env [] (bs "OXO_WORKER_APP") in
  let envs := push_env_value envs (bs "OXO_WORKER_SOCKET") worker_socket in
  let envs := push_env_value envs (bs "OXO_ASYNC") (bs "1") in
  let? envs := push_string_env envs (bs "OXO_WORKER_TIMING_DIR") in
  let envs := push_all envs ["OXO_WORKER_TAIL_NS"; "OXO_WORKER_SCHED_SAMPLE_N"]%string in
  let? envs := push_string_env envs (bs "OXO_WORKER_ORDER_DIR") in
  let envs := push_all envs ["OXO_WORKER_FAIR_READ"; "OXO_WORKER_SCHED"]%string in
  let? gemfile := optional_string_env (bs "BUNDLE_GEMFILE") in
  let gemfile := unwrap_or default_gemfile gemfile in
  if negb (is_file gemfile) then Err GemfileNotFound
  else
    let envs := push_env_value envs (bs "BUNDLE_GEMFILE") gemfile in
    let envs := push_all envs ["OXO_WORKER_MAX_BODY"; "OXO_WORKER_RACK_LINT"; "OXO_WORKER_DRAIN_DEADLINE_MS"]%string in
    let envs := push_all envs ["OXO_DB"; "OXO_DB_POOL_SIZE"; "OXO_DB_HOST"; "OXO_DB_PORT"; "OXO_DB_NAME"; "OXO_DB_USER"; "OXO_DB_PASSWORD"; "OXO_DB_SSLMODE"]%string in
    let envs := push_all envs default_worker_passthrough_env in
    apply_env_allowlist envs (bs "OXO_APP_ENV_ALLOW").
Definition collect_cable_env (bind : bytes) : result env_error env_list :=
  let envs := push_env_value [] (bs "OXO_CABLE_BIND") bind in
  let envs := push_all envs ["OXO_CABLE_APP"; "OXO_CABLE_RACKUP"; "OXO_CABLE_ALLOWED_ORIGINS"; "OXO_CABLE_MAX_CONNECTIONS"; "OXO_CABLE_IDLE_TIMEOUT_MS"]%string in
  let envs := push_all envs default_cable_passthrough_env in
  apply_env_allowlist envs (bs "OXO_CABLE_ENV_ALLOW").
Definition collect_grpc_env (bind : bytes) : result env_error env_list :=
  let envs := push_env_value [] (bs "OXO_GRPC_BIND") bind in
  let envs := push_all envs ["OXO_GRPC_APP"; "OXO_GRPC_CONFIG"; "OXO_GRPC_MAX_MESSAGE_BYTES"; "OXO_GRPC_DEADLINE_MS"]%string in
  let envs := push_all envs default_grpc_passthrough_env in
  apply_env_allowlist envs (bs "OXO_GRPC_ENV_ALLOW").
End Env.

(** ** What children may see *)

Definition not_edge_only (e : bytes * bytes) : Prop := is_edge_only_env_name (fst e) = false.
Lemma push_optional_ok getenv envs n :
  Forall not_edge_only envs -> is_edge_only_env_name n = false -> Forall not_edge_only (push_optional_env getenv envs n).
Proof. intros F N. unfold push_optional_env. destruct (nonempty_env getenv n); [|exact F]. apply Forall_app. split; [exact F | repeat constructor; exact N]. Qed.
Lemma push_all_ok getenv names envs :
  Forall not_edge_only envs -> forallb (fun n => negb (is_edge_only_env_name (bs n))) names = true -> Forall not_edge_only (push_all getenv envs names).
Proof.
  unfold push_all. revert envs. induction names as [|n names IH]; intros envs F N; [exact F|]. cbn [forallb] in N. apply andb_true_iff in N as [N1 N2].
  cbn [fold_left]. apply IH; [|exact N2]. apply push_optional_ok; [exact F | apply negb_true_iff, N1].
Qed.
Lemma push_value_ok envs n v : Forall not_edge_only envs -> is_edge_only_env_name n = false -> Forall not_edge_only (push_env_value envs n v).
Proof. intros F N. apply Forall_app. split; [exact F | repeat constructor; exact N]. Qed.
Lemma allow_names_ok getenv var names envs out :
  Forall not_edge_only envs -> allow_names getenv var names envs = Ok out -> Forall not_edge_only out.
Proof.
  revert envs. induction names as [|n names IH]; intros envs F; cbn [allow_names]; [intros [= <-]; exact F|].
  destruct (negb (is_env_name_safe n)); [discriminate|]. destruct (is_edge_only_env_name n) eqn:N; [discriminate|]. apply IH, push_optional_ok; assumption.
Qed.
Lemma allowlist_ok getenv envs var out : Forall not_edge_only envs -> apply_env_allowlist getenv envs var = Ok out -> Forall not_edge_only out.
Proof.
  intros F. unfold apply_env_allowlist. destruct (getenv var) as [x|]; [destruct (utf8 x)|]; try (intros [= <-]; exact F). apply allow_names_ok, F.
Qed.
Lemma push_required_ok getenv n out : is_edge_only_env_name n = false -> push_required_env getenv [] n = Ok out -> Forall not_edge_only out.
Proof. intros N. unfold push_required_env. destruct (nonempty_env getenv n); [|discriminate]. intros [= <-]. repeat constructor. exact N. Qed.
Lemma push_string_ok getenv envs n out :
  Forall not_edge_only envs -> is_edge_only_env_name n = false -> push_string_env getenv envs n = Ok out -> Forall not_edge_only out.
Proof.
  intros F N. unfold push_string_env. destruct (optional_string_env getenv n) as [[v|]|]; cbn [rbind]; try discriminate; intros [= <-]; [apply push_value_ok|]; assumption.
Qed.
#[local] Hint Resolve push_all_ok push_value_ok push_optional_ok : service.

(** Child environments: whatever is in the supervisor's environment and in the operator's
    allow lists, the environment assembled for a classic worker, an async worker, the cable
    or the gRPC child holds no edge-only name (listener, TLS key, ACME and socket-activation
    settings), and the log line about it depends on no value beyond its being empty. *)
Theorem children_see_no_edge_settings getenv is_file socket gemfile bind out :
  (collect_worker_env getenv socket = Ok out \/ collect_async_worker_env getenv is_file socket gemfile = Ok out \/
   collect_cable_env getenv bind = Ok out \/ collect_grpc_env getenv bind = Ok out) ->
  Forall not_edge_only out /\
  (forall out', map fst out' = map fst out -> map (fun e => (length (snd e) =? 0)%nat) out' = map (fun e => (length (snd e) =? 0)%nat) out ->
     redacted_env_summary out' = redacted_env_summary out).
Proof.
  intros C. split.
  - destruct C as [C|[C|[C|C]]].
    + apply rbind_ok in C as (e & R & C). apply push_required_ok in R; [|reflexivity].
      eapply allowlist_ok; [|exact C]. auto with service.
    + apply rbind_ok in C as (e & R & C). apply push_required_ok in R; [|reflexivity].
      apply rbind_ok in C as (e1 & R1 & C). apply push_string_ok in R1; [|auto with service|reflexivity].
      apply rbind_ok in C as (e2 & R2 & C). apply push_string_ok in R2; [|auto with service|reflexivity].
      apply rbind_ok in C as (g & _ & C). cbv zeta in C. destruct (negb (is_file _)); [discriminate|].
      eapply allowlist_ok; [|exact C]. auto 10 with service.
    + eapply allowlist_ok; [|exact C]. auto with service.
    + eapply allowlist_ok; [|exact C]. auto with service.
  - intros out' E1 E2. unfold redacted_env_summary. f_equal. revert out' E1 E2. clear C.
    induction out as [|[n v] out IH]; intros [|[n' v'] out'] E1 E2; try discriminate; [reflexivity|]. cbn [map fst snd] in *.
    injection E1 as -> E1. injection E2 as Ev E2. rewrite (IH out' E1 E2). unfold redacted_env_value. rewrite Ev. reflexivity.
Qed.
Lemma children_see_no_edge_settings_witness :
  let getenv := fun n => if eq_bytes n (bs "OXO_WORKER_APP") then Some (bs "app.ru") else if eq_bytes n (bs "SECRET_KEY_BASE") then Some (bs "s3cr3t") else None in
  redacted_env_summary [(bs "OXO_WORKER_APP", bs "app.ru"); (bs "OXO_WORKER_SOCKET", bs "/run/w.sock"); (bs "SECRET_KEY_BASE", bs "other")] =
  redacted_env_summary [(bs "OXO_WORKER_APP", bs "app.ru"); (bs "OXO_WORKER_SOCKET", bs "/run/w.sock"); (bs "SECRET_KEY_BASE", bs "s3cr3t")].
Proof.
  intros getenv. apply (children_see_no_edge_settings getenv (fun _ => true) (bs "/run/w.sock") [] []
    [(bs "OXO_WORKER_APP", bs "app.ru"); (bs "OXO_WORKER_SOCKET", bs "/run/w.sock"); (bs "SECRET_KEY_BASE", bs "s3cr3t")]);
    [left; vm_compute; reflexivity | reflexivity | reflexivity].
Defined.
