(* ===== verification/Supervisor.v ===== *)
(** * Supervisor: restarting, reloading and draining the children

    Model of [monitor_children], [restart_worker], [restart_edge], [drain_service] and the
    boot sequence [ServiceRunner::run] of [crates/oxo-pingora-edge/src/service.rs].  A child
    is known by whether its process runs, the edge also by the certificate pair it loaded;
    a child ends only when it exits by itself, as a poll then reports, or when it is killed
    and waited for, and a running child whose last holder is overwritten or dropped is
    counted as a stray.  Signals of the drain are kept as a trace.  A [tick] says what one
    turn of the monitor loop observes, a [reload_env] what one certificate reload observes. *)

From S2P Require Import Prelude Text AcmeState AcmeCrash.

Inductive role : Type := REdge | RCable | RGrpc | RWorker (id : nat) | RRenew.
#[global] Instance role_eq_dec : EqDecision role.
Proof. solve_decision. Defined.
Inductive action : Type :=
| Term (r : role)                   (** SIGTERM to the process group *)
| Waited (r : role)                 (** the bounded wait for the child is over *)
| Killed (r : role).                (** SIGKILL, and waited for *)

(** [Child::try_wait]. *)
Inductive poll : Type := Running | Exited | WaitFails.

Inductive ServiceError : Type :=
| ChildExited (r : role)
| Spawn (r : role)
| Wait
| NotReady (r : role)
| AcmeReload (s : stop).

(** ** One child *)

(** [try_wait] where the code only asks whether the child is gone ([matches!(_, Ok(Some(_)))]):
    [gone] says that the poll found a running child gone; a failed poll finds nothing. *)
Definition try_wait (gone child : bool) : bool := child && negb gone.
(** SIGKILL, then [wait]. *)
Definition kill_and_wait (child : bool) : bool := false.
(** [p]: what the first poll and the bounded wait find. *)
Definition terminate_child (p : bool * bool) (child : bool) : bool :=
  let child := try_wait (fst p) child in
  if child then
    let child := try_wait (snd p) child in
    if child then kill_and_wait child else child
  else child.
(** A [Child] that is dropped keeps running. *)
Definition dropped (child : bool) : nat := if child then 1%nat else 0%nat.

Definition request_child_term (r : role) (gone child : bool) : list action * bool :=
  let child := try_wait gone child in (if child then [Term r] else [], child).
(** Whether the child is gone, and the child. *)
Definition wait_child_until_deadline (r : role) (gone child : bool) : bool * list action * bool :=
  let child := try_wait gone child in (negb child, [Waited r], child).
Definition force_child_shutdown (r : role) (gone child : bool) : list action * bool :=
  let child := try_wait gone child in if child then ([Killed r], kill_and_wait child) else ([], child).

Lemma terminate_child_gone p c : terminate_child p c = false.
Proof. destruct p as [[] []], c; reflexivity. Qed.

Inductive WorkerSlotState : Type := Booting | Ready | Draining | Stopped | SlotFailed.
Record ManagedWorker : Type := {
  slot_state : WorkerSlotState; generation : Z; draining : bool; crash_count : Z; worker_alive : bool }.
Definition set_slot (w : ManagedWorker) (st : WorkerSlotState) (drains alive : bool) : ManagedWorker :=
  {| slot_state := st; generation := generation w; draining := drains; crash_count := crash_count w; worker_alive := alive |}.

(** ** Worker restarts *)

(** In milliseconds. *)
Definition restart_backoff (crash_count : Z) : Z := 100 * Z.shiftl 1 (Z.min (saturating_sub crash_count 1) 5).

Record restart_env : Type := {
  ra_shutdown : bool;               (** on entry *)
  ra_young : bool;                  (** it ran for less than five seconds *)
  ra_slept : bool;                  (** the back-off was not cut short *)
  ra_spawns : bool;
  ra_attaches : bool;
  ra_ready : option bool;           (** [Some b]: became ready or failed; [None]: a drain began meanwhile *)
  ra_gone : bool * bool;            (** what terminating the new child finds *)
}.
(** The result, the worker, and how many running children were dropped. *)
Definition restart_worker (w : ManagedWorker) (e : restart_env) (id : nat) : result ServiceError unit * ManagedWorker * nat :=
  let w := set_slot w SlotFailed (draining w) (worker_alive w) in
  if ra_shutdown e then (Ok tt, w, 0%nat)
  else
    let w := {| slot_state := slot_state w; generation := generation w; draining := draining w;
                crash_count := if ra_young e then Z.min (crash_count w + 1) u32_max else 1; worker_alive := worker_alive w |} in
    if negb (ra_slept e) then (Ok tt, w, 0%nat)
    else if negb (ra_spawns e) then (Err (Spawn (RWorker id)), w, 0%nat)
    else
      let child := true in
      if negb (ra_attaches e) then (Err (NotReady (RWorker id)), w, dropped (terminate_child (ra_gone e) child))
      else match ra_ready e with
           | None => (Ok tt, w, dropped (terminate_child (ra_gone e) child))       (** in [wait_for_worker_ready] *)
           | Some false => (Err (NotReady (RWorker id)), w, dropped (terminate_child (ra_gone e) child))
           | Some true =>
               (Ok tt, {| slot_state := Ready; generation := saturating_add (generation w) 1; draining := false;
                          crash_count := crash_count w; worker_alive := child |}, dropped (worker_alive w))
           end.

(** ** The edge and the certificate reload *)

(** The pair in the state directory, and an edge with the pair it loaded when it started. *)
Abbreviation pair := (option bytes * option bytes)%type.
Definition pair_of (h : host) : pair := (content <$> files h !! Final CertPem, content <$> files h !! Final KeyPem).
Record EdgeChild : Type := { e_alive : bool; e_pair : pair }.
Definition set_alive (edge : EdgeChild) (alive : bool) : EdgeChild := {| e_alive := alive; e_pair := e_pair edge |}.
Definition terminate_edge (p : bool * bool) (edge : EdgeChild) : EdgeChild := set_alive edge (terminate_child p (e_alive edge)).

(** [spawn_edge] and [wait_for_edge_ready]: the edge exits, does not listen in time, or the
    poll itself fails. *)
Inductive boot : Type := SpawnFails | Boots | BootExits | BootTimesOut | BootUnknown.
Definition wait_for_edge_ready (b : boot) (p : bool * bool) (edge : EdgeChild) : result ServiceError unit * EdgeChild :=
  match b with
  | BootExits => (Err (ChildExited REdge), set_alive edge false)
  | BootTimesOut => (Err (NotReady REdge), terminate_edge p edge)
  | BootUnknown => (Err Wait, edge)
  | Boots | SpawnFails => (Ok tt, edge)
  end.

Record reload_env : Type := {
  re_shutdown : nat -> bool;        (** before attempt 0 and 1, and after the rollback (2) *)
  re_boot : nat -> boot;            (** attempts 0 and 1 with the new pair, 2 with the old one *)
  re_now : Z;
  re_term : bool;                   (** what the polls of the drain of the old edge find *)
  re_wait : bool;
  re_force : bool;
  re_gone : nat -> bool * bool;     (** what terminating an edge of an attempt finds *)
}.
(** [drain_edge_for_reload]. *)
Definition drain_edge_for_reload (e : reload_env) (edge : EdgeChild) : EdgeChild :=
  let '(_, child) := request_child_term REdge (re_term e) (e_alive edge) in
  let '(done, _, child) := wait_child_until_deadline REdge (re_wait e) child in
  set_alive edge (if negb done then snd (force_child_shutdown REdge (re_force e) child) else child).

(** What a reload returns: the result, the edge in its variable, the strays and the disk. *)
Record reloaded : Type := { rl_result : result ServiceError unit; rl_edge : EdgeChild; rl_strays : nat; rl_disk : host }.
(** [*edge = spawn_edge(config)?]: the new edge loads the pair on disk; the old value is dropped. *)
Definition spawn_edge_over (b : boot) (edge : EdgeChild) (strays : nat) (h : host) : option (EdgeChild * nat) :=
  match b with
  | SpawnFails => None
  | _ => Some ({| e_alive := true; e_pair := pair_of h |}, (strays + dropped (e_alive edge))%nat)
  end.

(** ** The children together *)

Record sup : Type := {
  s_edge : EdgeChild;
  s_cable : option bool;
  s_grpc : option bool;
  s_workers : list ManagedWorker;
  s_renew : option bool;
  s_strays : nat;
  s_disk : host;
}.
Definition with_edge (s : sup) (x : EdgeChild) : sup :=
  {| s_edge := x; s_cable := s_cable s; s_grpc := s_grpc s; s_workers := s_workers s; s_renew := s_renew s; s_strays := s_strays s; s_disk := s_disk s |}.
Definition with_cable (s : sup) (x : option bool) : sup :=
  {| s_edge := s_edge s; s_cable := x; s_grpc := s_grpc s; s_workers := s_workers s; s_renew := s_renew s; s_strays := s_strays s; s_disk := s_disk s |}.
Definition with_grpc (s : sup) (x : option bool) : sup :=
  {| s_edge := s_edge s; s_cable := s_cable s; s_grpc := x; s_workers := s_workers s; s_renew := s_renew s; s_strays := s_strays s; s_disk := s_disk s |}.
Definition with_workers (s : sup) (x : list ManagedWorker) (dropped : nat) : sup :=
  {| s_edge := s_edge s; s_cable := s_cable s; s_grpc := s_grpc s; s_workers := x; s_renew := s_renew s; s_strays := (s_strays s + dropped)%nat; s_disk := s_disk s |}.
Definition with_renew (s : sup) (x : option bool) (dropped : nat) : sup :=
  {| s_edge := s_edge s; s_cable := s_cable s; s_grpc := s_grpc s; s_workers := s_workers s; s_renew := x; s_strays := (s_strays s + dropped)%nat; s_disk := s_disk s |}.
Definition with_reload (s : sup) (x : reloaded) : sup :=
  {| s_edge := rl_edge x; s_cable := s_cable s; s_grpc := s_grpc s; s_workers := s_workers s; s_renew := s_renew s; s_strays := rl_strays x; s_disk := rl_disk x |}.
Definition opt_alive (o : option bool) : bool := match o with Some b => b | None => false end.
Definition is_alive (s : sup) (r : role) : bool :=
  match r with
  | REdge => e_alive (s_edge s)
  | RCable => opt_alive (s_cable s)
  | RGrpc => opt_alive (s_grpc s)
  | RWorker i => match s_workers s !! i with Some w => worker_alive w | None => false end
  | RRenew => opt_alive (s_renew s)
  end.

(** The [terminate_*] functions; [p] says what each termination finds. *)
Abbreviation finds := (role -> bool * bool).
Definition term_edge (p : finds) (s : sup) : sup := with_edge s (terminate_edge (p REdge) (s_edge s)).
Definition terminate_cable (p : finds) (s : sup) : sup := with_cable s (terminate_child (p RCable) <$> s_cable s).
Definition terminate_grpc (p : finds) (s : sup) : sup := with_grpc s (terminate_child (p RGrpc) <$> s_grpc s).
Definition terminate_renew (p : finds) (s : sup) : sup := with_renew s (terminate_child (p RRenew) <$> s_renew s) 0.
Definition terminate_workers (p : finds) (s : sup) : sup :=
  with_workers s (imap (fun i w => set_slot w Stopped (draining w) (terminate_child (p (RWorker i)) (worker_alive w))) (s_workers s)) 0.

(** ** The drain *)

(** The polls of the drain, in order, and what each finds. *)
Inductive stage : Type := AtTerm | AtWait | AtCheck | AtForce.
Abbreviation drain_env := (stage -> role -> bool).

(** [for worker in workers.iter_mut()]. *)
Fixpoint each_worker (f : nat -> ManagedWorker -> list action * ManagedWorker) (i : nat) (ws : list ManagedWorker) : list action * list ManagedWorker :=
  match ws with
  | [] => ([], [])
  | w :: ws' => let '(t, w) := f i w in let '(ts, ws') := each_worker f (S i) ws' in (t ++ ts, w :: ws')
  end.
Definition term_opt (r : role) (gone : bool) (o : option bool) : list action * option bool :=
  match o with None => ([], None) | Some c => let '(t, c) := request_child_term r gone c in (t, Some c) end.
Definition wait_opt (r : role) (gone : bool) (o : option bool) : bool * list action * option bool :=
  match o with None => (true, [], None) | Some c => let '(done, t, c) := wait_child_until_deadline r gone c in (done, t, Some c) end.
Definition force_opt (done : bool) (r : role) (gone : bool) (o : option bool) : list action * option bool :=
  if done then ([], o) else match o with None => ([], None) | Some c => let '(t, c) := force_child_shutdown r gone c in (t, Some c) end.

(** Edge and sidecars are asked to stop and waited for; then the workers; then what is left
    is killed. *)
Definition drain_public (e : drain_env) (s : sup) : list action * (bool * bool * bool) * sup :=
  let ws := map (fun w => set_slot w Draining true (worker_alive w)) (s_workers s) in
  let '(t1, edge) := request_child_term REdge (e AtTerm REdge) (e_alive (s_edge s)) in
  let '(edge_done, t2, edge) := wait_child_until_deadline REdge (e AtWait REdge) edge in
  let '(t3, cable) := term_opt RCable (e AtTerm RCable) (s_cable s) in
  let '(t4, grpc) := term_opt RGrpc (e AtTerm RGrpc) (s_grpc s) in
  let '(cable_done, t5, cable) := wait_opt RCable (e AtWait RCable) cable in
  let '(grpc_done, t6, grpc) := wait_opt RGrpc (e AtWait RGrpc) grpc in
  (t1 ++ t2 ++ t3 ++ t4 ++ t5 ++ t6, (edge_done, cable_done, grpc_done),
   with_workers (with_grpc (with_cable (with_edge s (set_alive (s_edge s) edge)) cable) grpc) ws 0).
Definition drain_workers (e : drain_env) (s : sup) : list action * sup :=
  let '(t1, ws) := each_worker (fun i w =>
      let '(t, c) := request_child_term (RWorker i) (e AtTerm (RWorker i)) (worker_alive w) in (t, set_slot w (slot_state w) (draining w) c)) 0 (s_workers s) in
  let '(t2, ws) := each_worker (fun i w =>
      let '(done, t, c) := wait_child_until_deadline (RWorker i) (e AtWait (RWorker i)) (worker_alive w) in
      (t, set_slot w (if done then Stopped else slot_state w) (draining w) c)) 0 ws in
  (t1 ++ t2, with_workers s ws 0).
Definition drain_force (e : drain_env) (done : bool * bool * bool) (s : sup) : list action * sup :=
  let '(edge_done, cable_done, grpc_done) := done in
  let '(t1, edge) := if negb edge_done then force_child_shutdown REdge (e AtForce REdge) (e_alive (s_edge s)) else ([], e_alive (s_edge s)) in
  let '(t2, cable) := force_opt cable_done RCable (e AtForce RCable) (s_cable s) in
  let '(t3, grpc) := force_opt grpc_done RGrpc (e AtForce RGrpc) (s_grpc s) in
  let '(t4, ws) := each_worker (fun i w =>
      let c := try_wait (e AtCheck (RWorker i)) (worker_alive w) in
      let '(t, c) := if c then force_child_shutdown (RWorker i) (e AtForce (RWorker i)) c else ([], c) in
      (t, set_slot w Stopped (draining w) c)) 0 (s_workers s) in
  (t1 ++ t2 ++ t3 ++ t4, with_workers (with_grpc (with_cable (with_edge s (set_alive (s_edge s) edge)) cable) grpc) ws 0).
Definition drain_service (e : drain_env) (s : sup) : list action * sup :=
  let '(t1, done, s) := drain_public e s in
  let '(t2, s) := drain_workers e s in
  let '(t3, s) := drain_force e done s in
  (t1 ++ t2 ++ t3, s).

(** ** The reload *)

Section Reload.
Variable to_json : json -> bytes.
Variable from_json : bytes -> result bytes json.
Variable validate_issued_pair : bytes -> bytes -> bytes -> result AcmeError unit.
Variables (absolute : bool) (dir : dir_state).
Local Abbreviation rollback := (rollback_to_retained_pair to_json from_json validate_issued_pair absolute dir).
Local Abbreviation consume := (consume_reload_marker absolute dir).
Local Abbreviation marker := (reload_marker_updated_at from_json absolute dir).

Definition lift {A} (r : result stop A) : result ServiceError A := map_err AcmeReload r.

Definition rolled_back (e : reload_env) (edge : EdgeChild) (strays : nat) (h : host) : reloaded :=
  let '(r, h) := rollback (re_now e) (bs "edge failed to boot with the renewed certificate") h in
  match r with
  | Err s => {| rl_result := Err (AcmeReload s); rl_edge := edge; rl_strays := strays; rl_disk := h |}
  | Ok _ =>
      if re_shutdown e 2%nat then {| rl_result := Ok tt; rl_edge := edge; rl_strays := strays; rl_disk := h |}
      else match spawn_edge_over (re_boot e 2%nat) edge strays h with
           | None => {| rl_result := Err (Spawn REdge); rl_edge := edge; rl_strays := strays; rl_disk := h |}
           | Some (edge, strays) =>
               let '(r, edge) := wait_for_edge_ready (re_boot e 2%nat) (re_gone e 2%nat) edge in
               {| rl_result := r; rl_edge := edge; rl_strays := strays; rl_disk := h |}
           end
  end.
Definition booted (edge : EdgeChild) (strays : nat) (h : host) : reloaded :=
  let '(r, h) := consume h in {| rl_result := lift r; rl_edge := edge; rl_strays := strays; rl_disk := h |}.
Fixpoint boot_attempts (left k : nat) (e : reload_env) (edge : EdgeChild) (strays : nat) (h : host) : reloaded :=
  match left with
  | O => rolled_back e edge strays h
  | S left' =>
      if re_shutdown e k then {| rl_result := Ok tt; rl_edge := edge; rl_strays := strays; rl_disk := h |}
      else match spawn_edge_over (re_boot e k) edge strays h with
           | None => {| rl_result := Err (Spawn REdge); rl_edge := edge; rl_strays := strays; rl_disk := h |}
           | Some (edge, strays) =>
               let '(r, edge) := wait_for_edge_ready (re_boot e k) (re_gone e k) edge in
               match r with
               | Ok _ => booted edge strays h
               | Err _ => boot_attempts left' (S k) e (terminate_edge (re_gone e k) edge) strays h
               end
           end
  end.
Definition restart_edge (e : reload_env) (edge : EdgeChild) (strays : nat) (h : host) : reloaded :=
  boot_attempts 2 0 e (drain_edge_for_reload e edge) strays h.

Definition maybe_reload_edge (e : reload_env) (edge : EdgeChild) (strays : nat) (h : host) : reloaded :=
  let '(r, h) := marker h in
  match r with
  | Err s => {| rl_result := Err (AcmeReload s); rl_edge := edge; rl_strays := strays; rl_disk := h |}
  | Ok None => {| rl_result := Ok tt; rl_edge := edge; rl_strays := strays; rl_disk := h |}
  | Ok (Some _) => restart_edge e edge strays h
  end.
Definition reconcile_boot_marker (e : reload_env) (boot_epoch : Z) (edge : EdgeChild) (strays : nat) (h : host) : reloaded :=
  let '(r, h) := marker h in
  match r with
  | Err s => {| rl_result := Err (AcmeReload s); rl_edge := edge; rl_strays := strays; rl_disk := h |}
  | Ok None => {| rl_result := Ok tt; rl_edge := edge; rl_strays := strays; rl_disk := h |}
  | Ok (Some updated_at) =>
      if updated_at <=? boot_epoch
      then let '(r, h) := consume h in {| rl_result := lift r; rl_edge := edge; rl_strays := strays; rl_disk := h |}
      else restart_edge e edge strays h
  end.

(** ** The monitor loop *)

(** What a poll of the renewal child finds. *)
Inductive renew_poll : Type := RenewRuns | RenewExits | RenewTimesOut | RenewPollFails.
Record tick : Type := {
  k_shutdown : bool;
  k_drain : drain_env;
  k_edge : poll;
  k_cable : poll;
  k_grpc : poll;
  k_worker : nat -> poll;
  k_restart : restart_env;
  k_renew : renew_poll;
  k_reload : reload_env;
  k_renew_due : bool;               (** the interval is over and no shutdown is requested *)
  k_renew_spawns : bool;
  k_gone : finds;                   (** what terminating a child finds *)
}.

Inductive turn : Type :=
| Goes (s : sup)
| Ends (r : result ServiceError unit) (s : sup).

Definition poll_opt (o : option bool) (p : poll) : poll := match o with None => Running | Some true => p | Some false => Exited end.
Definition poll_one (alive : bool) (p : poll) : poll := if alive then p else Exited.

(** The first worker that is not running, in order. *)
Fixpoint find_exited (i : nat) (ws : list ManagedWorker) (p : nat -> poll) : option (nat * poll) :=
  match ws with
  | [] => None
  | w :: ws' => match poll_one (worker_alive w) (p i) with Running => find_exited (S i) ws' p | q => Some (i, q) end
  end.

(** The worker part of a turn: at most one worker, the first that exited, is restarted. *)
Definition restart_exited (t : tick) (ws : list ManagedWorker) : result ServiceError unit * list ManagedWorker * nat :=
  match find_exited 0 ws (k_worker t) with
  | None => (Ok tt, ws, 0%nat)
  | Some (_, WaitFails) => (Err Wait, ws, 0%nat)
  | Some (i, _) =>
      match ws !! i with
      | Some w => let '(r, w', n) := restart_worker (set_slot w (slot_state w) (draining w) false) (k_restart t) i in (r, <[i := w']> ws, n)
      | None => (Ok tt, ws, 0%nat)
      end
  end.

(** [if reaped]: the variable of the renewal child is cleared, then the marker is looked at. *)
Definition reaped (t : tick) (s : sup) (child : bool) : turn :=
  let p := k_gone t in
  let s := with_renew s None (dropped child) in
  let o := maybe_reload_edge (k_reload t) (s_edge s) (s_strays s) (s_disk s) in
  match rl_result o with
  | Err e => Ends (Err e) (terminate_workers p (terminate_cable p (terminate_grpc p (with_reload s o))))
  | Ok _ => Goes (with_reload s o)
  end.
Definition monitor_turn (acme : bool) (t : tick) (s : sup) : turn :=
  let p := k_gone t in
  if k_shutdown t then Ends (Ok tt) (snd (drain_service (k_drain t) (terminate_renew p s)))
  else match poll_one (e_alive (s_edge s)) (k_edge t) with
  | WaitFails => Ends (Err Wait) s
  | Exited =>
      let s := with_edge s (set_alive (s_edge s) false) in
      Ends (Err (ChildExited REdge)) (terminate_workers p (terminate_cable p (terminate_grpc p (terminate_renew p s))))
  | Running =>
  match poll_opt (s_cable s) (k_cable t) with
  | WaitFails => Ends (Err Wait) s
  | Exited =>
      let s := with_cable s (Some false) in
      Ends (Err (ChildExited RCable)) (terminate_workers p (terminate_grpc p (term_edge p (terminate_renew p s))))
  | Running =>
  match poll_opt (s_grpc s) (k_grpc t) with
  | WaitFails => Ends (Err Wait) s
  | Exited =>
      let s := with_grpc s (Some false) in
      Ends (Err (ChildExited RGrpc)) (terminate_workers p (terminate_cable p (term_edge p (terminate_renew p s))))
  | Running =>
  let '(r, ws, n) := restart_exited t (s_workers s) in
  let s := with_workers s ws n in
  match r with
  | Err Wait => Ends (Err Wait) s
  | Err e => Ends (Err e) (terminate_workers p (terminate_cable p (terminate_grpc p (term_edge p (terminate_renew p s)))))
  | Ok _ =>
      if negb acme then Goes s
      else match s_renew s with
           | Some child =>
               match k_renew t with
               | RenewPollFails => Ends (Err Wait) s
               | RenewRuns => Goes s
               | RenewExits => reaped t s false
               | RenewTimesOut => reaped t s (terminate_child (p RRenew) child)
               end
           | None => Goes (with_renew s (if k_renew_due t && k_renew_spawns t then Some true else None) 0)
           end
  end end end end.

(** The [loop]; [None] when the given turns did not end it. *)
Fixpoint monitor_children (acme : bool) (ts : list tick) (s : sup) : option (result ServiceError unit) * sup :=
  match ts with
  | [] => (None, s)
  | t :: ts' => match monitor_turn acme t s with Goes s' => monitor_children acme ts' s' | Ends r s' => (Some r, s') end
  end.

(** ** Boot *)

(** How starting a sidecar ends: not configured, running, or failed; a failed one is gone
    unless polling it failed ([WorkerBoot]). *)
Inductive start : Type := Off | Up | StartFails (e : ServiceError).
Record boot_env : Type := {
  b_workers : result ServiceError (option (list ManagedWorker));  (** [spawn_worker_pool] ([WorkerBoot]) *)
  b_cable : start;
  b_grpc : start;
  b_edge : boot;
  b_epoch : Z;
  b_reload : reload_env;
  b_gone : finds;
}.
Definition started (x : start) : option bool := match x with Up => Some true | _ => None end.
Definition no_edge : EdgeChild := {| e_alive := false; e_pair := (None, None) |}.
Definition children (ws : list ManagedWorker) (cable grpc : option bool) (edge : EdgeChild) (h : host) : sup :=
  {| s_edge := edge; s_cable := cable; s_grpc := grpc; s_workers := ws; s_renew := None; s_strays := 0; s_disk := h |}.

Definition run (acme : bool) (b : boot_env) (ts : list tick) (h : host) : option (result ServiceError unit) * sup :=
  let p := b_gone b in
  match b_workers b with
  | Err e => (Some (Err e), children [] None None no_edge h)
  | Ok None => (Some (Ok tt), children [] None None no_edge h)
  | Ok (Some ws) =>
  match b_cable b with
  | StartFails e => (Some (Err e), terminate_workers p (children ws None None no_edge h))
  | c =>
  match b_grpc b with
  | StartFails e => (Some (Err e), terminate_workers p (terminate_cable p (children ws (started c) None no_edge h)))
  | g =>
  match spawn_edge_over (b_edge b) no_edge 0 h with
  | None => (Some (Err (Spawn REdge)), terminate_workers p (terminate_cable p (terminate_grpc p (children ws (started c) (started g) no_edge h))))
  | Some (edge, _) =>
      let '(r, edge) := wait_for_edge_ready (b_edge b) (p REdge) edge in
      let s := children ws (started c) (started g) edge h in
      let tear s := terminate_workers p (terminate_cable p (terminate_grpc p (term_edge p s))) in
      match r with
      | Err e => (Some (Err e), tear s)
      | Ok _ =>
          let o := if acme then reconcile_boot_marker (b_reload b) (b_epoch b) (s_edge s) (s_strays s) h
                   else {| rl_result := Ok tt; rl_edge := s_edge s; rl_strays := s_strays s; rl_disk := h |} in
          match rl_result o with
          | Err e => (Some (Err e), tear (with_reload s o))
          | Ok _ => monitor_children acme ts (with_reload s o)
          end
      end
  end end end end.
End Reload.

(** ** No child is left behind *)

Definition others_gone (s : sup) : Prop :=
  opt_alive (s_cable s) = false /\ opt_alive (s_grpc s) = false /\ Forall (fun w => worker_alive w = false) (s_workers s) /\ opt_alive (s_renew s) = false /\
  s_strays s = 0%nat.
Lemma terminated_opt p o : opt_alive (terminate_child p <$> o) = false.
Proof. destruct o as [c|]; [apply terminate_child_gone | reflexivity]. Qed.
Lemma terminated_workers p s : Forall (fun w => worker_alive w = false) (s_workers (terminate_workers p s)).
Proof.
  apply Forall_lookup. intros i w. cbn. rewrite list_lookup_imap. destruct (s_workers s !! i) as [x|]; [|discriminate].
  intros [= <-]. apply terminate_child_gone.
Qed.
Lemma terminated_edge p edge : e_alive (terminate_edge p edge) = false.
Proof. apply terminate_child_gone. Qed.
Create HintDb teardown.
#[export] Hint Resolve terminated_opt terminated_workers terminated_edge terminate_child_gone : teardown.
Ltac torn := repeat split; cbn [s_edge s_cable s_grpc s_renew s_strays with_edge with_cable with_grpc with_renew with_workers with_reload terminate_workers terminate_cable
  terminate_grpc terminate_renew term_edge opt_alive]; rewrite ?Nat.add_0_r; auto with teardown.

(** *** What the drain does to one child *)

Lemma each_in f ws i x : In x (fst (each_worker f i ws)) <-> exists j w, ws !! j = Some w /\ In x (fst (f (i + j)%nat w)).
Proof.
  revert i. induction ws as [|w ws IH]; intros i; cbn [each_worker].
  - split; [intros [] | intros (j & w & E & _); discriminate].
  - specialize (IH (S i)). destruct (f i w) as [t w'] eqn:F, (each_worker f (S i) ws) as [ts ws']. cbn [fst] in *. rewrite in_app_iff, IH. split.
    + intros [I|(j & x' & E & I)]; [exists 0%nat, w; rewrite Nat.add_0_r, F; auto | exists (S j), x'; rewrite Nat.add_succ_r; auto].
    + intros ([|j] & x' & E & I); [injection E as <-; rewrite Nat.add_0_r, F in I; auto | right; exists j, x'; rewrite Nat.add_succ_r in I; auto].
Qed.
Lemma each_lookup f ws i j : snd (each_worker f i ws) !! j = (fun w => snd (f (i + j)%nat w)) <$> ws !! j.
Proof.
  revert i j. induction ws as [|w ws IH]; intros i j; cbn [each_worker]; [reflexivity|].
  specialize (IH (S i)). destruct (f i w) as [t w'] eqn:F, (each_worker f (S i) ws) as [ts ws']. destruct j as [|j]; cbn.
  - rewrite Nat.add_0_r, F. reflexivity.
  - rewrite Nat.add_succ_r. exact (IH j).
Qed.

(** Who still runs after the three parts of the drain. *)
Definition asked (e : drain_env) (s : sup) (r : role) : bool := is_alive s r && negb (e AtTerm r).
Definition outwaits (e : drain_env) (s : sup) (r : role) : bool := asked e s r && negb (e AtWait r).
Definition outlasts (e : drain_env) (s : sup) (r : role) : bool :=
  outwaits e s r && match r with RWorker _ => negb (e AtCheck r) | _ => true end && negb (e AtForce r).
Definition public (r : role) : bool := match r with REdge | RCable | RGrpc => true | _ => false end.

Ltac by_polls e := repeat match goal with |- context [e ?st ?r] => destruct (e st r) eqn:? end.

Lemma drain_public_alive e s r : is_alive (snd (drain_public e s)) r = if public r then outwaits e s r else is_alive s r.
Proof.
  unfold drain_public, outwaits, asked, term_opt, wait_opt, request_child_term, wait_child_until_deadline, try_wait.
  destruct r as [| | |i|]; cbn; try (destruct (s_cable s) as [c|]); try (destruct (s_grpc s) as [g|]); cbn; try reflexivity;
    try (destruct (s_workers s !! i) eqn:E; rewrite list_lookup_fmap, E; reflexivity).
Qed.
Lemma drain_public_done e s :
  snd (fst (drain_public e s)) = (negb (outwaits e s REdge), negb (outwaits e s RCable), negb (outwaits e s RGrpc)).
Proof.
  unfold drain_public, outwaits, asked, term_opt, wait_opt, request_child_term, wait_child_until_deadline, try_wait.
  destruct (s_cable s) as [c|] eqn:C, (s_grpc s) as [g|] eqn:G; cbn; rewrite ?C, ?G; reflexivity.
Qed.
Lemma in_public e s x :
  In x (fst (fst (drain_public e s))) <->
  match x with
  | Term r => public r = true /\ asked e s r = true
  | Waited r => r = REdge \/ r = RCable /\ s_cable s <> None \/ r = RGrpc /\ s_grpc s <> None
  | Killed _ => False
  end.
Proof.
  unfold drain_public, asked, term_opt, wait_opt, request_child_term, wait_child_until_deadline, try_wait.
  destruct (e_alive (s_edge s)) eqn:E, (s_cable s) as [[]|] eqn:C, (s_grpc s) as [[]|] eqn:G; destruct x as [[]|[]|[]]; cbn; rewrite ?E, ?C, ?G; cbn; by_polls e;
    cbn; intuition (try discriminate; eauto).
Qed.

Lemma drain_workers_alive e s r : is_alive (snd (drain_workers e s)) r = match r with RWorker _ => outwaits e s r | _ => is_alive s r end.
Proof.
  unfold drain_workers, outwaits, asked, request_child_term, wait_child_until_deadline, try_wait.
  destruct (each_worker _ 0 (s_workers s)) as [t1 ws1] eqn:E1, (each_worker _ 0 ws1) as [t2 ws2] eqn:E2. destruct r as [| | |i|]; try reflexivity. cbn.
  replace ws2 with (snd (t2, ws2)) by reflexivity. rewrite <- E2, each_lookup. replace ws1 with (snd (t1, ws1)) by reflexivity. rewrite <- E1, each_lookup.
  destruct (s_workers s !! i) as [w|]; reflexivity.
Qed.
Lemma in_drain_workers e s x :
  In x (fst (drain_workers e s)) <->
  match x with
  | Term r => public r = false /\ r <> RRenew /\ asked e s r = true
  | Waited r => exists i, r = RWorker i /\ (i < length (s_workers s))%nat
  | Killed _ => False
  end.
Proof.
  unfold drain_workers, asked, request_child_term, wait_child_until_deadline, try_wait.
  destruct (each_worker _ 0 (s_workers s)) as [t1 ws1] eqn:E1, (each_worker _ 0 ws1) as [t2 ws2] eqn:E2. cbn [fst]. rewrite in_app_iff.
  replace t1 with (fst (t1, ws1)) by reflexivity. replace t2 with (fst (t2, ws2)) by reflexivity. rewrite <- E1, <- E2, !each_in. cbn.
  assert (forall j w', ws1 !! j = Some w' -> is_Some (s_workers s !! j)) as L.
  { intros j w' E. replace ws1 with (snd (t1, ws1)) in E by reflexivity. rewrite <- E1, each_lookup in E. destruct (s_workers s !! j); [eauto | discriminate]. }
  assert (forall j, is_Some (s_workers s !! j) -> is_Some (ws1 !! j)) as L'.
  { intros j [w E]. replace ws1 with (snd (t1, ws1)) by reflexivity. rewrite <- E1, each_lookup, E. cbn. eauto. }
  split.
  - intros [(j & w & E & I)|(j & w & E & [<-|[]])].
    + destruct (worker_alive w) eqn:A, (e AtTerm (RWorker j)) eqn:P; cbn in I; try destruct I as [<-|[]]; try destruct I.
      cbn. rewrite E, A, P. split; [reflexivity|]. split; [discriminate | reflexivity].
    + exists j. split; [reflexivity|]. apply lookup_lt_is_Some, (L _ _ E).
  - destruct x as [r|r|r]; [| |intros []].
    + intros (Np & Nr & A). destruct r as [| | |i|]; try discriminate; [|contradiction]. cbn in A. left. destruct (s_workers s !! i) as [w|] eqn:E; [|discriminate].
      exists i, w. rewrite A. split; [exact E | left; reflexivity].
    + intros (i & -> & Lt). right. destruct (L' i) as [w E]; [apply lookup_lt_is_Some, Lt|]. exists i, w. auto.
Qed.

Lemma force_result r gone c : snd (force_child_shutdown r gone c) = false.
Proof. destruct gone, c; reflexivity. Qed.
Lemma force_in r gone c x : In x (fst (force_child_shutdown r gone c)) <-> x = Killed r /\ c = true /\ gone = false.
Proof. destruct gone, c; cbn; intuition (try discriminate; congruence). Qed.
Lemma force_opt_result done r gone o : opt_alive (snd (force_opt done r gone o)) = if done then opt_alive o else false.
Proof. destruct done, o as [[]|], gone; reflexivity. Qed.
Lemma force_opt_in done r gone o x : In x (fst (force_opt done r gone o)) <-> x = Killed r /\ done = false /\ opt_alive o = true /\ gone = false.
Proof. destruct done, o as [[]|], gone; cbn; intuition (try discriminate; congruence). Qed.

(** The last part as its four calls. *)
Definition edge_kill (e : drain_env) (edge_done : bool) (s : sup) : list action * bool :=
  if negb edge_done then force_child_shutdown REdge (e AtForce REdge) (e_alive (s_edge s)) else ([], e_alive (s_edge s)).
Definition worker_kill (e : drain_env) (i : nat) (w : ManagedWorker) : list action * ManagedWorker :=
  let c := try_wait (e AtCheck (RWorker i)) (worker_alive w) in
  let '(t, c) := if c then force_child_shutdown (RWorker i) (e AtForce (RWorker i)) c else ([], c) in
  (t, set_slot w Stopped (draining w) c).
Lemma drain_force_parts e edge_done cable_done grpc_done s :
  drain_force e (edge_done, cable_done, grpc_done) s =
  (fst (edge_kill e edge_done s) ++ fst (force_opt cable_done RCable (e AtForce RCable) (s_cable s)) ++
     fst (force_opt grpc_done RGrpc (e AtForce RGrpc) (s_grpc s)) ++ fst (each_worker (worker_kill e) 0 (s_workers s)),
   with_workers (with_grpc (with_cable (with_edge s (set_alive (s_edge s) (snd (edge_kill e edge_done s))))
     (snd (force_opt cable_done RCable (e AtForce RCable) (s_cable s)))) (snd (force_opt grpc_done RGrpc (e AtForce RGrpc) (s_grpc s))))
     (snd (each_worker (worker_kill e) 0 (s_workers s))) 0).
Proof.
  unfold drain_force. fold (edge_kill e edge_done s). destruct (edge_kill e edge_done s), (force_opt cable_done _ _ _), (force_opt grpc_done _ _ _).
  fold (worker_kill e). destruct (each_worker (worker_kill e) 0 (s_workers s)). reflexivity.
Qed.
Lemma drain_force_alive e d s r :
  is_alive (snd (drain_force e d s)) r =
  match r with
  | REdge => if fst (fst d) then is_alive s r else false
  | RCable => if snd (fst d) then is_alive s r else false
  | RGrpc => if snd d then is_alive s r else false
  | RWorker _ => false
  | RRenew => is_alive s r
  end.
Proof.
  destruct d as [[de dc] dg]. rewrite drain_force_parts. destruct r as [| | |i|]; cbn -[force_opt].
  - unfold edge_kill. destruct de; [reflexivity | apply force_result].
  - apply force_opt_result.
  - apply force_opt_result.
  - rewrite each_lookup. destruct (s_workers s !! i) as [w|]; [|reflexivity]. unfold worker_kill, try_wait. cbn.
    destruct (worker_alive w), (e AtCheck (RWorker i)), (e AtForce (RWorker i)); reflexivity.
  - reflexivity.
Qed.
Lemma in_drain_force e d s x :
  In x (fst (drain_force e d s)) <->
  exists r, x = Killed r /\ is_alive s r = true /\ e AtForce r = false /\
    match r with REdge => fst (fst d) = false | RCable => snd (fst d) = false | RGrpc => snd d = false | RWorker _ => e AtCheck r = false | RRenew => False end.
Proof.
  destruct d as [[de dc] dg]. rewrite drain_force_parts. cbn [fst snd]. rewrite !in_app_iff, !force_opt_in, each_in.
  assert (In x (fst (edge_kill e de s)) <-> x = Killed REdge /\ de = false /\ e_alive (s_edge s) = true /\ e AtForce REdge = false) as ->.
  { unfold edge_kill. destruct de; cbn [negb]; [cbn; intuition discriminate | rewrite force_in; tauto]. }
  split.
  - intros [(-> & ? & ? & ?)|[(-> & ? & ? & ?)|[(-> & ? & ? & ?)|(j & w & L & I)]]]; [exists REdge; auto | exists RCable; auto | exists RGrpc; auto|].
    exists (RWorker j). unfold worker_kill, force_child_shutdown, try_wait in I. cbn in *. rewrite L.
    destruct (worker_alive w), (e AtCheck (RWorker j)), (e AtForce (RWorker j)); cbn in I; try destruct I as [<-|[]]; try destruct I. auto.
  - intros ([| | |i|] & -> & A & F & D); [auto 6 | auto 7 | auto 8 | | destruct D]. do 3 right. cbn in A. destruct (s_workers s !! i) as [w|] eqn:L; [|discriminate].
    exists i, w. split; [exact L|]. unfold worker_kill, force_child_shutdown, try_wait. cbn. rewrite A, D, F. left. reflexivity.
Qed.

(** The whole drain. *)
Lemma drain_alive_in_force e s r :
  is_alive (snd (drain_workers e (snd (drain_public e s)))) r = match r with RRenew => is_alive s r | _ => outwaits e s r end.
Proof.
  rewrite drain_workers_alive. unfold outwaits, asked. rewrite !drain_public_alive. destruct r; reflexivity.
Qed.
Lemma drain_stages e s :
  drain_service e s =
  let s1 := snd (drain_public e s) in let s2 := snd (drain_workers e s1) in let d := snd (fst (drain_public e s)) in
  (fst (fst (drain_public e s)) ++ fst (drain_workers e s1) ++ fst (drain_force e d s2), snd (drain_force e d s2)).
Proof.
  unfold drain_service. destruct (drain_public e s) as [[t1 d] s1]. cbn [fst snd]. destruct (drain_workers e s1) as [t2 s2]. cbn [fst snd].
  destruct (drain_force e d s2). reflexivity.
Qed.
Lemma drain_alive e s r : is_alive (snd (drain_service e s)) r = match r with RRenew => is_alive s r | _ => false end.
Proof.
  rewrite drain_stages. cbn [snd]. rewrite drain_force_alive, drain_public_done. cbn [fst snd]. rewrite !drain_alive_in_force.
  destruct r; try reflexivity; destruct (outwaits e s _); reflexivity.
Qed.
Lemma drain_strays e s : s_strays (snd (drain_service e s)) = s_strays s.
Proof.
  rewrite drain_stages. cbn [snd]. destruct (snd (fst (drain_public e s))) as [[a b] c]. rewrite drain_force_parts. cbn [snd s_strays with_workers with_grpc with_cable with_edge].
  unfold drain_workers. destruct (each_worker _ 0 _) as [t1 ws1], (each_worker _ 0 ws1) as [t2 ws2]. cbn. unfold drain_public.
  destruct (term_opt RCable _ _), (term_opt RGrpc _ _), (wait_opt RCable _ _) as [[] ?], (wait_opt RGrpc _ _) as [[] ?]. cbn. lia.
Qed.
Lemma drain_gone e s : opt_alive (s_renew s) = false -> s_strays s = 0%nat -> others_gone (snd (drain_service e s)) /\ e_alive (s_edge (snd (drain_service e s))) = false.
Proof.
  intros R S. pose proof (drain_alive e s) as A. split; [|exact (A REdge)]. split; [exact (A RCable)|]. split; [exact (A RGrpc)|].
  split; [|split; [etransitivity; [exact (A RRenew) | exact R] | rewrite drain_strays; exact S]].
  apply Forall_lookup. intros i w L. specialize (A (RWorker i)). cbn in A. rewrite L in A. exact A.
Qed.

Lemma drained_edge e edge : e_alive (drain_edge_for_reload e edge) = false.
Proof.
  unfold drain_edge_for_reload, request_child_term, wait_child_until_deadline, force_child_shutdown, try_wait, kill_and_wait. cbn.
  destruct (e_alive edge), (re_term e), (re_wait e), (re_force e); reflexivity.
Qed.

Section Teardown.
Variable to_json : json -> bytes.
Variable from_json : bytes -> result bytes json.
Variable validate_issued_pair : bytes -> bytes -> bytes -> result AcmeError unit.
Variables (absolute : bool) (dir : dir_state).
Local Abbreviation monitor_turn := (monitor_turn to_json from_json validate_issued_pair absolute dir).
Local Abbreviation monitor_children := (monitor_children to_json from_json validate_issued_pair absolute dir).
Local Abbreviation run := (run to_json from_json validate_issued_pair absolute dir).
Local Abbreviation boot_attempts := (boot_attempts to_json from_json validate_issued_pair absolute dir).

(** A reload leaves an edge running after an error only when it is one of the state
    directory or of a poll, and drops no running edge. *)
Definition reload_ok (e : reload_env) (n : nat) (o : reloaded) : Prop :=
  match rl_result o with
  | Err Wait => True
  | Err (AcmeReload _) => True
  | Err _ => e_alive (rl_edge o) = false
  | Ok _ => e_alive (rl_edge o) = true \/ exists j, re_shutdown e j = true
  end /\ rl_strays o = n.
Lemma boot_attempts_alive left k e edge n h : e_alive edge = false -> reload_ok e n (boot_attempts left k e edge n h).
Proof.
  unfold reload_ok. revert k edge. induction left as [|left IH]; intros k edge De; cbn [Supervisor.boot_attempts].
  - unfold rolled_back. destruct (rollback_to_retained_pair _ _ _ _ _ _ _ _) as [[u|s] h1]; [|split; [exact I | reflexivity]].
    destruct (re_shutdown e 2%nat) eqn:Sh; [split; [right; eauto | reflexivity]|].
    unfold spawn_edge_over. rewrite De. destruct (re_boot e 2%nat) eqn:B; cbn [wait_for_edge_ready rl_result rl_edge rl_strays];
      (split; [cbn; auto using terminate_child_gone | cbn; lia]).
  - destruct (re_shutdown e k) eqn:Sh; [split; [right; eauto | reflexivity]|]. unfold spawn_edge_over. rewrite De. cbn [dropped]. rewrite Nat.add_0_r.
    destruct (re_boot e k) eqn:B; cbn [wait_for_edge_ready]; [split; [exact De | reflexivity] | | apply IH, terminated_edge | apply IH, terminated_edge | apply IH, terminated_edge].
    unfold booted. destruct (consume_reload_marker absolute dir h) as [[u|s] h1]; split; cbn; auto.
Qed.
Lemma maybe_reload_alive e edge n h : rl_result (maybe_reload_edge to_json from_json validate_issued_pair absolute dir e edge n h) = Ok tt \/
  reload_ok e n (maybe_reload_edge to_json from_json validate_issued_pair absolute dir e edge n h).
Proof.
  unfold maybe_reload_edge. destruct (reload_marker_updated_at _ _ _ _) as [[[x|]|st] h1]; [right; apply boot_attempts_alive, drained_edge | left; reflexivity | right; split; [exact I | reflexivity]].
Qed.
Lemma maybe_reload_strays e edge n h : rl_strays (maybe_reload_edge to_json from_json validate_issued_pair absolute dir e edge n h) = n.
Proof.
  unfold maybe_reload_edge. destruct (reload_marker_updated_at _ _ _ _) as [[[x|]|st] h1]; [apply boot_attempts_alive, drained_edge | reflexivity | reflexivity].
Qed.
Lemma reconcile_strays e b edge n h : rl_strays (reconcile_boot_marker to_json from_json validate_issued_pair absolute dir e b edge n h) = n.
Proof.
  unfold reconcile_boot_marker. destruct (reload_marker_updated_at _ _ _ _) as [[[x|]|st] h1]; [| reflexivity | reflexivity].
  destruct (x <=? b); [destruct (consume_reload_marker _ _ _); reflexivity | apply boot_attempts_alive, drained_edge].
Qed.
Lemma restart_drops_nobody w e id : worker_alive w = false -> snd (restart_worker w e id) = 0%nat.
Proof.
  intros A. unfold restart_worker. destruct (ra_shutdown e), (ra_slept e), (ra_spawns e), (ra_attaches e), (ra_ready e) as [[]|]; cbn [negb snd];
    rewrite ?terminate_child_gone; try reflexivity. cbn. rewrite A. reflexivity.
Qed.
Lemma restart_exited_drops t ws : snd (restart_exited t ws) = 0%nat.
Proof.
  unfold restart_exited. destruct (find_exited 0 ws (k_worker t)) as [[i q]|]; [|reflexivity].
  assert (snd (match ws !! i with Some w => let '(r, w', n) := restart_worker (set_slot w (slot_state w) (draining w) false) (k_restart t) i in (r, <[i:=w']> ws, n)
                                | None => (Ok tt, ws, 0%nat) end) = 0%nat) as H.
  { destruct (ws !! i) as [w|]; [|reflexivity]. pose proof (restart_drops_nobody (set_slot w (slot_state w) (draining w) false) (k_restart t) i eq_refl) as D.
    destruct (restart_worker _ _ _) as [[r w'] n]. exact D. }
  destruct q; [exact H | exact H | reflexivity].
Qed.

Definition left_behind (r : result ServiceError unit) (s : sup) : Prop :=
  match r with
  | Err Wait => True
  | Err (AcmeReload _) => others_gone s
  | _ => others_gone s /\ e_alive (s_edge s) = false
  end.
Lemma left_behind_gone r s : others_gone s -> e_alive (s_edge s) = false -> left_behind r s.
Proof. intros G E. destruct r as [u|[]]; cbn; auto. Qed.

Lemma reaped_ends t s child :
  s_strays s = 0%nat -> child = false ->
  match reaped to_json from_json validate_issued_pair absolute dir t s child with Goes s' => s_strays s' = 0%nat | Ends r s' => left_behind r s' end.
Proof.
  intros S0 ->. unfold reaped. set (s1 := with_renew _ None _). assert (s_strays s1 = 0%nat) as S1 by (cbn; lia).
  pose proof (maybe_reload_alive (k_reload t) (s_edge s1) (s_strays s1) (s_disk s1)) as A. pose proof (maybe_reload_strays (k_reload t) (s_edge s1) (s_strays s1) (s_disk s1)) as N.
  destruct (maybe_reload_edge _ _ _ _ _ _ _ _ _) as [rr edge n h]. cbn [rl_result rl_strays] in *. destruct rr as [u'|e']; [cbn; lia|].
  destruct A as [A|[A _]]; [discriminate|]. cbn [rl_result rl_edge] in A.
  assert (others_gone (terminate_workers (k_gone t) (terminate_cable (k_gone t) (terminate_grpc (k_gone t)
    (with_reload s1 {| rl_result := Err e'; rl_edge := edge; rl_strays := n; rl_disk := h |}))))) as G by (torn; cbn in N |- *; lia).
  destruct e'; cbn [left_behind]; auto.
Qed.
(** A turn of the monitor that goes on has dropped nobody; one that ends leaves nobody. *)
Lemma monitor_turn_ends acme t s :
  s_strays s = 0%nat -> match monitor_turn acme t s with Goes s' => s_strays s' = 0%nat | Ends r s' => left_behind r s' end.
Proof.
  intros S0. unfold Supervisor.monitor_turn. destruct (k_shutdown t); [apply (drain_gone (k_drain t)); torn; rewrite S0; reflexivity|].
  destruct (poll_one _ (k_edge t)); [|apply left_behind_gone; torn | exact I].
  destruct (poll_opt _ (k_cable t)); [|apply left_behind_gone; torn | exact I].
  destruct (poll_opt _ (k_grpc t)); [|apply left_behind_gone; torn | exact I].
  pose proof (restart_exited_drops t (s_workers s)) as D. destruct (restart_exited t (s_workers s)) as [[r ws] n]. cbn in D. subst n.
  destruct r as [u|e]; [|destruct e; try exact I; apply left_behind_gone; torn].
  destruct acme; cbn [negb]; [|cbn; lia]. cbn [s_renew with_workers]. destruct (s_renew s) as [c|]; [|cbn; lia].
  destruct (k_renew t); [cbn; lia | apply reaped_ends; [cbn; lia | reflexivity] | apply reaped_ends; [cbn; lia | apply terminate_child_gone] | exact I].
Qed.
Lemma monitor_children_ends acme ts s r s' : s_strays s = 0%nat -> monitor_children acme ts s = (Some r, s') -> left_behind r s'.
Proof.
  revert s. induction ts as [|t ts IH]; intros s S0; cbn [Supervisor.monitor_children]; [discriminate|].
  pose proof (monitor_turn_ends acme t s S0) as T. destruct (Supervisor.monitor_turn _ _ _ _ _ _ _ _) as [s1|r1 s1]; [apply IH, T|].
  intros E. injection E as <- <-. exact T.
Qed.
Lemma run_ends acme b ts h r s' : run acme b ts h = (Some r, s') -> left_behind r s'.
Proof.
  unfold Supervisor.run.
  assert (forall r0 s0 r s', others_gone s0 -> e_alive (s_edge s0) = false -> (Some r0, s0) = (Some r, s') -> left_behind r s') as No.
  { intros r0 s0 r1 s1 G A E. injection E as <- <-. apply left_behind_gone; assumption. }
  destruct (b_workers b) as [[ws|]|]; try (apply No; torn; constructor).
  assert (forall c g,
    match spawn_edge_over (b_edge b) no_edge 0 h with
    | None => (Some (Err (Spawn REdge)), terminate_workers (b_gone b) (terminate_cable (b_gone b) (terminate_grpc (b_gone b) (children ws c g no_edge h))))
    | Some (edge, _) =>
        let '(r, edge) := wait_for_edge_ready (b_edge b) (b_gone b REdge) edge in
        let s := children ws c g edge h in
        let tear s := terminate_workers (b_gone b) (terminate_cable (b_gone b) (terminate_grpc (b_gone b) (term_edge (b_gone b) s))) in
        match r with
        | Err e => (Some (Err e), tear s)
        | Ok _ =>
            let o := if acme then reconcile_boot_marker to_json from_json validate_issued_pair absolute dir (b_reload b) (b_epoch b) (s_edge s) (s_strays s) h
                     else {| rl_result := Ok tt; rl_edge := s_edge s; rl_strays := s_strays s; rl_disk := h |} in
            match rl_result o with
            | Err e => (Some (Err e), tear (with_reload s o))
            | Ok _ => monitor_children acme ts (with_reload s o)
            end
        end
    end = (Some r, s') -> left_behind r s') as Edge.
  { intros c g. destruct (spawn_edge_over _ _ _ _) as [[edge k]|]; [|apply No; torn].
    destruct (wait_for_edge_ready _ _ edge) as [[u|e] edge']; [|apply No; torn]. cbv zeta.
    set (o := if acme then _ else _). assert (rl_strays o = 0%nat) as So by (unfold o; destruct acme; [apply reconcile_strays | reflexivity]).
    destruct (rl_result o); [apply monitor_children_ends, So | apply No; torn]. }
  destruct (b_cable b) as [| |ec]; [| |apply No; torn]; (destruct (b_grpc b) as [| |eg]; [| |apply No; torn]); apply Edge.
Qed.

(** C5. Whatever the turns bring and whatever happens to the state directory, when the runner
    returns, the cable, gRPC, worker and renewal children are gone, no child that was started
    on the way was dropped while it ran, and the edge is gone too unless the error is one of
    the certificate state: only an error of polling a child itself is excepted. *)
Theorem no_child_is_left_behind acme b ts h r s' :
  run acme b ts h = (Some r, s') -> r <> Err Wait ->
  others_gone s' /\ (e_alive (s_edge s') = false \/ exists st, r = Err (AcmeReload st)).
Proof.
  intros R Nw. apply run_ends in R. destruct r as [u|[]]; cbn in R; try (destruct R; auto; fail); [contradiction | eauto].
Qed.
End Teardown.

(** A healthy boot for the witnesses: one worker and a cable child. *)
Definition fresh_worker : ManagedWorker := {| slot_state := Ready; generation := 0; draining := false; crash_count := 0; worker_alive := true |}.
Definition calm_reload : reload_env :=
  {| re_shutdown := fun _ => false; re_boot := fun _ => Boots; re_now := 1000; re_term := false; re_wait := true; re_force := false; re_gone := fun _ => (false, true) |}.
Definition calm_restart : restart_env :=
  {| ra_shutdown := false; ra_young := true; ra_slept := true; ra_spawns := true; ra_attaches := true; ra_ready := Some true; ra_gone := (false, true) |}.
Definition calm_tick : tick :=
  {| k_shutdown := false; k_drain := fun st _ => match st with AtWait => true | _ => false end; k_edge := Running; k_cable := Running;
     k_grpc := Running; k_worker := fun _ => Running; k_restart := calm_restart; k_renew := RenewExits; k_reload := calm_reload; k_renew_due := true; k_renew_spawns := true;
     k_gone := fun _ => (false, false) |}.
Definition cable_exits : tick :=
  {| k_shutdown := false; k_drain := k_drain calm_tick; k_edge := Running; k_cable := Exited; k_grpc := Running; k_worker := fun _ => Running;
     k_restart := calm_restart; k_renew := RenewRuns; k_reload := calm_reload; k_renew_due := true; k_renew_spawns := true; k_gone := fun _ => (false, false) |}.
Definition calm_boot : boot_env :=
  {| b_workers := Ok (Some [fresh_worker]); b_cable := Up; b_grpc := Off; b_edge := Boots; b_epoch := 0; b_reload := calm_reload; b_gone := fun _ => (false, false) |}.
Definition disk_with (d : disk) : host := {| files := d; plan := []; locked := false; contacts := 0 |}.

Lemma no_child_is_left_behind_witness :
  exists s', run (fun _ => []) (fun _ => Err []) (fun _ _ _ => Ok tt) true (DirMode 448) true calm_boot [calm_tick; cable_exits] (disk_with ∅)
    = (Some (Err (ChildExited RCable)), s') /\ others_gone s'.
Proof.
  eexists. split; [reflexivity|].
  refine (proj1 (no_child_is_left_behind (fun _ => []) (fun _ => Err []) (fun _ _ _ => Ok tt) true (DirMode 448) true calm_boot [calm_tick; cable_exits] (disk_with ∅)
    (Err (ChildExited RCable)) _ _ _)); [reflexivity | discriminate].
Defined.

(** The exception is real: when the renewal child was reaped and the reload marker is not
    a readable document, the monitor ends with the decoding error, every other child torn
    down and the edge, which was running, still running. *)
Theorem unreadable_marker_leaves_the_edge_running to_json from_json validate t s f d :
  k_shutdown t = false -> k_edge t = Running -> e_alive (s_edge s) = true -> s_cable s = None -> s_grpc s = None -> s_workers s = [] ->
  s_renew s <> None -> k_renew t = RenewExits -> s_strays s = 0%nat ->
  plan (s_disk s) = [] -> files (s_disk s) !! Final ReloadRequiredJson = Some f -> from_json (content f) = Err d ->
  exists s', monitor_turn to_json from_json validate true (DirMode 448) true t s
               = Ends (Err (AcmeReload (Failed (Json (bs "decode ACME state metadata") d)))) s' /\ e_alive (s_edge s') = true /\ others_gone s'.
Proof.
  intros K Ke Ed Ca Gr Ws Rn Kr S0 Pl F J. unfold monitor_turn. rewrite K, Ed, Ke, Ca, Gr, Ws. cbn -[maybe_reload_edge]. rewrite Kr.
  destruct (s_renew s) as [al|]; [|contradiction].
  assert (forall n, exists h', maybe_reload_edge to_json from_json validate true (DirMode 448) (k_reload t) (s_edge s) n (s_disk s)
    = {| rl_result := Err (AcmeReload (Failed (Json (bs "decode ACME state metadata") d))); rl_edge := s_edge s; rl_strays := n; rl_disk := h' |}) as M.
  { intros n. unfold maybe_reload_edge, reload_marker_updated_at, prepare, read_json_if_present, fs_read, bind, call, get_files. cbn. rewrite Pl. cbn. rewrite F. cbn.
    rewrite J. cbn. eauto. }
  unfold reaped. cbn -[maybe_reload_edge Nat.add]. match goal with |- context [maybe_reload_edge _ _ _ _ _ _ _ ?n _] => destruct (M n) as (h' & ->) end. cbn. eexists. split; [reflexivity|]. split; [exact Ed|].
  repeat split; cbn; rewrite ?Ca, ?Gr; try constructor. rewrite S0. reflexivity.
Qed.
Definition garbled_marker : host := disk_with {[ Final ReloadRequiredJson := {| content := bs "{"; mode := 420 |} ]}.
Lemma unreadable_marker_leaves_the_edge_running_witness :
  exists s', monitor_turn (fun _ => []) (fun _ => Err (bs "EOF")) (fun _ _ _ => Ok tt) true (DirMode 448) true calm_tick
      {| s_edge := {| e_alive := true; e_pair := (None, None) |}; s_cable := None; s_grpc := None; s_workers := []; s_renew := Some true; s_strays := 0; s_disk := garbled_marker |}
    = Ends (Err (AcmeReload (Failed (Json (bs "decode ACME state metadata") (bs "EOF"))))) s' /\ e_alive (s_edge s') = true /\ others_gone s'.
Proof.
  apply (unreadable_marker_leaves_the_edge_running (fun _ => []) (fun _ => Err (bs "EOF")) (fun _ _ _ => Ok tt) calm_tick _ {| content := bs "{"; mode := 420 |} (bs "EOF"));
    try reflexivity. discriminate.
Defined.

(** ** The reload contract *)

Definition marker_of (h : host) : option file := files h !! Final ReloadRequiredJson.
Definition marker_kept {A : Type} (c : io A) : Prop := forall h, marker_of (snd (c h)) = marker_of h.
Lemma marker_kept_bind {A B : Type} (c : io A) (k : A -> io B) : marker_kept c -> (forall a, marker_kept (k a)) -> marker_kept (bind c k).
Proof. intros C K h. unfold bind. specialize (C h). destruct (c h) as [[a|e] h']; cbn [snd] in *; [rewrite K|]; exact C. Qed.
Lemma marker_kept_reads {A : Type} (c : io A) : reads_only c -> marker_kept c.
Proof. intros [_ R] h. unfold marker_of. rewrite R. reflexivity. Qed.
Lemma marker_kept_call (action : bytes) (f : disk -> disk) (g : bytes -> disk -> disk) :
  (forall d, f d !! Final ReloadRequiredJson = d !! Final ReloadRequiredJson) ->
  (forall torn d, g torn d !! Final ReloadRequiredJson = d !! Final ReloadRequiredJson) -> marker_kept (call action f g).
Proof. intros F G h. unfold call, marker_of. destruct (plan h) as [|[|? ?|?] p]; cbn; auto. Qed.
Lemma marker_kept_stage (n : name) (data : bytes) (m : Z) : marker_kept (stage_private n data m).
Proof.
  unfold stage_private. repeat (apply marker_kept_bind; [|intros []]); apply marker_kept_call; intros; unfold open_tmp, write_tmp, chmod_tmp, untouched;
    repeat match goal with |- context [match ?x with Some _ => _ | None => _ end] => destruct x end; try reflexivity; apply lookup_insert_ne; discriminate.
Qed.
Lemma rename_other (n m : name) (d : disk) : n <> m -> rename_tmp n d !! Final m = d !! Final m.
Proof.
  intros Ne. unfold rename_tmp. destruct (d !! Tmp n); [|reflexivity]. rewrite lookup_insert_ne, lookup_delete_ne by (unfold Final, Tmp; congruence). reflexivity.
Qed.
Lemma marker_kept_rename (action : bytes) (n : name) : n <> ReloadRequiredJson -> marker_kept (call action (rename_tmp n) untouched).
Proof. intros Ne. apply marker_kept_call; [intros d; apply rename_other, Ne | reflexivity]. Qed.
Lemma marker_kept_write (n : name) (data : bytes) (m : Z) : n <> ReloadRequiredJson -> marker_kept (write_file_private n data m).
Proof. intros Ne. apply marker_kept_bind; [apply marker_kept_stage | intros []; apply marker_kept_rename, Ne]. Qed.
Lemma marker_kept_pair (c k : bytes) : marker_kept (write_cert_key_pair c k).
Proof. unfold write_cert_key_pair. do 2 (apply marker_kept_bind; [apply marker_kept_stage|]; intros []). apply marker_kept_bind; [|intros []]; apply marker_kept_rename; discriminate. Qed.
Lemma marker_kept_ignoring (c : io unit) : marker_kept c -> marker_kept (ignoring c).
Proof. intros C h. specialize (C h). unfold ignoring. destruct (c h) as [[?|[]] h']; exact C. Qed.
Lemma reads_fs_read (action : bytes) (p : path) : reads_only (fs_read action p).
Proof. apply reads_bind; [apply reads_call | intros []; apply reads_bind; [apply reads_get | intros d; apply reads_ret]]. Qed.
Lemma reads_require (action : bytes) (o : option bytes) : reads_only (require action o).
Proof. destruct o; [apply reads_ret | apply reads_fail]. Qed.
Lemma reads_of_result {A : Type} (r : result AcmeError A) : reads_only (of_result r).
Proof. destruct r; [apply reads_ret | apply reads_fail]. Qed.
Lemma reads_newest : reads_only newest_retained_epoch.
Proof. apply reads_bind; [apply reads_call | intros []; apply reads_bind; [apply reads_get | intros d; apply reads_ret]]. Qed.
Create HintDb acme_reads.
#[local] Hint Resolve reads_fs_read reads_require reads_of_result reads_newest reads_prepare reads_json reads_ret reads_fail : acme_reads.

Lemma marker_kept_rollback to_json from_json validate absolute dir (now : Z) (reason : bytes) :
  marker_kept (rollback_to_retained_pair to_json from_json validate absolute dir now reason).
Proof.
  unfold rollback_to_retained_pair, record_failure.
  repeat (apply marker_kept_bind; [solve [apply marker_kept_reads; auto with acme_reads | apply marker_kept_reads; case_match; auto with acme_reads
    | apply marker_kept_pair | apply marker_kept_write; discriminate
    | case_match; [apply marker_kept_write; discriminate | apply marker_kept_ignoring, marker_kept_call; [intros d; apply lookup_delete_ne; discriminate | reflexivity]]] | intros ?]).
  apply marker_kept_write. discriminate.
Qed.

Lemma consume_marker absolute dir (h : host) :
  match consume_reload_marker absolute dir h with (Ok _, h') => marker_of h' = None | (Err _, h') => marker_of h' = marker_of h end.
Proof.
  unfold consume_reload_marker, bind. pose proof (marker_kept_reads _ (reads_prepare absolute dir) h) as P. destruct (prepare absolute dir h) as [[u|e] h1]; cbn in P; [|exact P].
  unfold fs_remove, call, marker_of in *. destruct (plan h1) as [|[|? ?|?] p]; cbn; try exact P; apply lookup_delete_eq.
Qed.

Lemma consume_keeps_pair absolute dir (h : host) : pair_of (snd (consume_reload_marker absolute dir h)) = pair_of h.
Proof.
  unfold consume_reload_marker, bind, pair_of. pose proof (reads_prepare absolute dir) as [_ P]. specialize (P h). destruct (prepare absolute dir h) as [[u|e] h1]; cbn in P; cbn [snd]; [|rewrite P; reflexivity].
  unfold fs_remove, call, untouched. destruct (plan h1) as [|[|? ?|?] p]; cbn; rewrite ?lookup_delete_ne, P by discriminate; reflexivity.
Qed.

(** The pair the rollback of [h] goes back to: the newest complete retained one, which was
    checked against the recorded name. *)
Definition retained_pair (from_json : bytes -> result bytes json) (validate : bytes -> bytes -> bytes -> result AcmeError unit) (h : host) (p : pair) : Prop :=
  exists e c k, files h !! Final (RetainedCert e) = Some c /\ files h !! Final (RetainedKey e) = Some k /\
    (forall x, complete (fun n => files h !! Final n) x -> x <= e) /\
    validate (content c) (content k) (fqdn_on_disk from_json (fun n => files h !! Final n)) = Ok tt /\ p = (Some (content c), Some (content k)).
Lemma rolled_back_to_retained to_json from_json validate absolute dir now reason h h' :
  rollback_to_retained_pair to_json from_json validate absolute dir now reason h = (Ok tt, h') -> retained_pair from_json validate h (pair_of h').
Proof.
  intros R. pose proof (rollback_installs absolute dir to_json from_json validate (fun n => files h !! Final n) now reason h (shows_self _)) as S. rewrite R in S.
  destruct S as (e & c & k & Ec & Ek & Max & Val & Hc & Hk). exists e, c, k. unfold pair_of. rewrite Hc, Hk. auto.
Qed.
(** An attempt with the pair on disk; [Boots] is the only way it comes up. *)
Definition comes_up (b : boot) : bool := match b with Boots => true | _ => false end.

Section Contract.
Variable to_json : json -> bytes.
Variable from_json : bytes -> result bytes json.
Variable validate : bytes -> bytes -> bytes -> result AcmeError unit.
Variables (absolute : bool) (dir : dir_state).

Lemma rolled_back_contract e edge n h :
  e_alive edge = false ->
  let o := rolled_back to_json from_json validate absolute dir e edge n h in
  marker_of (rl_disk o) = marker_of h /\
  (rl_result o = Ok tt -> e_alive (rl_edge o) = true ->
     e_pair (rl_edge o) = pair_of (rl_disk o) /\ comes_up (re_boot e 2) = true /\ retained_pair from_json validate h (pair_of (rl_disk o))).
Proof.
  intros D o. subst o. unfold rolled_back.
  pose proof (marker_kept_rollback to_json from_json validate absolute dir (re_now e) (bs "edge failed to boot with the renewed certificate") h) as K.
  pose proof (rolled_back_to_retained to_json from_json validate absolute dir (re_now e) (bs "edge failed to boot with the renewed certificate") h) as RB.
  destruct (rollback_to_retained_pair _ _ _ _ _ _ _ _) as [[[]|st] h1]; cbn in K; [|split; [exact K | discriminate]].
  specialize (RB h1 eq_refl). destruct (re_shutdown e 2); [split; [exact K | cbn; congruence]|]. unfold spawn_edge_over.
  destruct (re_boot e 2) eqn:B; cbn; rewrite ?terminate_child_gone; (split; [exact K | intros Ok1 Al; try discriminate; auto]).
Qed.
Lemma booted_contract edge n h :
  let o := booted absolute dir edge n h in
  rl_edge o = edge /\ pair_of (rl_disk o) = pair_of h /\ (marker_of (rl_disk o) = marker_of h \/ marker_of (rl_disk o) = None) /\
  (rl_result o = Ok tt -> marker_of (rl_disk o) = None).
Proof.
  intros o. subst o. unfold booted. pose proof (consume_marker absolute dir h) as C. pose proof (consume_keeps_pair absolute dir h) as CP.
  destruct (consume_reload_marker absolute dir h) as [[[]|st] h1]; cbn in *; auto. split; [reflexivity|]. split; [exact CP|]. split; [auto | discriminate].
Qed.
(** The outcome of a reload on [h] whose attempts from [k] on are still to come. *)
Definition contract (e : reload_env) (served : bool) (h : host) (o : reloaded) : Prop :=
  (marker_of (rl_disk o) = marker_of h \/ marker_of (rl_disk o) = None /\ e_alive (rl_edge o) = true /\ e_pair (rl_edge o) = pair_of h /\ served = true) /\
  (rl_result o = Ok tt -> e_alive (rl_edge o) = true ->
     e_pair (rl_edge o) = pair_of (rl_disk o) /\
     (served = true /\ e_pair (rl_edge o) = pair_of h /\ marker_of (rl_disk o) = None \/
      served = false /\ comes_up (re_boot e 2) = true /\ retained_pair from_json validate h (pair_of (rl_disk o)) /\ marker_of (rl_disk o) = marker_of h)).
Lemma attempts_contract left k e edge n h :
  e_alive edge = false ->
  contract e (existsb (fun j => comes_up (re_boot e j)) (seq k left)) h (boot_attempts to_json from_json validate absolute dir left k e edge n h).
Proof.
  revert k edge n. induction left as [|left IH]; intros k edge n D; cbn [boot_attempts seq existsb].
  - destruct (rolled_back_contract e edge n h D) as [M R]. split; [auto|]. intros Ok1 Al. destruct (R Ok1 Al) as (A & B & C). auto 8.
  - destruct (re_shutdown e k); [split; [auto | cbn; congruence]|]. unfold spawn_edge_over.
    destruct (re_boot e k) eqn:B; cbn [wait_for_edge_ready comes_up orb]; [split; [left; reflexivity | discriminate] | | apply IH, terminated_edge..].
    set (ed := {| e_alive := true; e_pair := pair_of h |}). destruct (booted_contract ed (n + dropped (e_alive edge))%nat h) as (Ed & P & M & R).
    unfold contract. rewrite Ed, P. split; [destruct M; auto 6|]. intros Ok1 _. split; [reflexivity|]. left. auto.
Qed.
End Contract.

(** C7. The certificate reload keeps its contract on every course of events.  The marker is
    removed only when an edge came up that loaded the renewed pair, the one on disk when the
    reload began, and that edge keeps running.  A reload that succeeds leaves an edge running
    unless a shutdown was requested.  When it succeeds and an edge runs, that edge has loaded
    the pair that is on disk, and either this is the renewed pair, it came up within two
    attempts and the marker is gone; or both attempts with the renewed pair failed, the pair
    on disk is the newest complete retained one of the state directory, checked against the
    recorded name, and the marker is as it was, so the restart is still owed.  No edge is
    dropped while it runs. *)
Theorem reload_consumes_the_marker_only_when_served to_json from_json validate absolute dir e edge n h :
  let o := restart_edge to_json from_json validate absolute dir e edge n h in
  let h' := rl_disk o in
  let served := comes_up (re_boot e 0) || comes_up (re_boot e 1) in
  let renewed := e_pair (rl_edge o) = pair_of h in
  (marker_of h' = marker_of h \/ marker_of h' = None /\ e_alive (rl_edge o) = true /\ renewed /\ served = true) /\
  (rl_result o = Ok tt -> e_alive (rl_edge o) = true \/ exists j, re_shutdown e j = true) /\
  (rl_result o = Ok tt -> e_alive (rl_edge o) = true ->
     e_pair (rl_edge o) = pair_of h' /\
     (served = true /\ renewed /\ marker_of h' = None \/
      served = false /\ comes_up (re_boot e 2) = true /\ retained_pair from_json validate h (pair_of h') /\ marker_of h' = marker_of h)) /\
  rl_strays o = n.
Proof.
  intros o h' served renewed. destruct (boot_attempts_alive to_json from_json validate absolute dir 2 0 e (drain_edge_for_reload e edge) n h (drained_edge e edge)) as [A N].
  destruct (attempts_contract to_json from_json validate absolute dir 2 0 e (drain_edge_for_reload e edge) n h (drained_edge e edge)) as [M R].
  cbn [seq existsb] in M, R. rewrite orb_false_r in M, R. split; [exact M|]. split; [|split; [exact R | exact N]].
  intros Ok1. fold (restart_edge to_json from_json validate absolute dir e edge n h) in A. fold o in A. rewrite Ok1 in A. exact A.
Qed.

(** ** The order of the drain *)

Lemma split_after {A : Type} (l1 l2 pre post : list A) (x : A) :
  l1 ++ l2 = pre ++ x :: post -> ~ In x l1 -> exists m, pre = l1 ++ m /\ l2 = m ++ x :: post.
Proof.
  revert pre. induction l1 as [|y l1 IH]; intros pre E N; [exists pre; auto|].
  destruct pre as [|z pre]; cbn in E; injection E as -> E; [destruct N; left; reflexivity|].
  destruct (IH pre E) as (m & -> & ->); [intros I; apply N; right; exact I | exists m; auto].
Qed.
Lemma alive_is_listed (s : sup) i : is_alive s (RWorker i) = true -> (i < length (s_workers s))%nat.
Proof. cbn. destruct (s_workers s !! i) eqn:E; [intros _; apply lookup_lt_is_Some; eauto | discriminate]. Qed.

Section Order.
Variables (e : drain_env) (s : sup).

Lemma in_drain x :
  In x (fst (drain_service e s)) <->
  In x (fst (fst (drain_public e s))) \/ In x (fst (drain_workers e (snd (drain_public e s)))) \/
  In x (fst (drain_force e (snd (fst (drain_public e s))) (snd (drain_workers e (snd (drain_public e s)))))).
Proof. rewrite drain_stages. cbv zeta. cbn [fst]. rewrite !in_app_iff. reflexivity. Qed.
Lemma asked_after_public r : public r = false -> asked e (snd (drain_public e s)) r = asked e s r.
Proof. intros P. unfold asked. rewrite drain_public_alive, P. reflexivity. Qed.
(** Before the last part a child that still runs has been asked to stop and waited for. *)
Lemma asked_part r : r <> RRenew -> asked e s r = true -> In (Term r) (fst (fst (drain_public e s))) \/ In (Term r) (fst (drain_workers e (snd (drain_public e s)))).
Proof.
  intros Nr A. rewrite in_public, in_drain_workers. destruct (public r) eqn:P; [auto|]. right. rewrite asked_after_public by exact P. auto.
Qed.
Lemma waited_part r : r <> RRenew -> asked e s r = true -> In (Waited r) (fst (fst (drain_public e s))) \/ In (Waited r) (fst (drain_workers e (snd (drain_public e s)))).
Proof.
  intros Nr A. rewrite in_public, in_drain_workers. apply andb_true_iff in A as [A _]. destruct r as [| | |i|]; [auto | | | |contradiction]; cbn in A.
  - left. right. left. split; [reflexivity|]. intros E. rewrite E in A. discriminate.
  - left. right. right. split; [reflexivity|]. intros E. rewrite E in A. discriminate.
  - right. exists i. split; [reflexivity|]. apply alive_is_listed. rewrite drain_public_alive. exact A.
Qed.
Lemma drain_asks r : r <> RRenew -> In (Term r) (fst (drain_service e s)) <-> asked e s r = true.
Proof.
  intros Nr. rewrite in_drain. split; [|intros A; destruct (asked_part r Nr A); auto].
  rewrite in_public, in_drain_workers, in_drain_force. intros [[_ A]|[(P & _ & A)|(x & [=] & _)]]; [exact A | rewrite asked_after_public in A by exact P; exact A].
Qed.
Lemma drain_kills r : r <> RRenew -> In (Killed r) (fst (drain_service e s)) <-> outlasts e s r = true.
Proof.
  intros Nr. rewrite in_drain, in_public, in_drain_workers, in_drain_force, drain_public_done. cbn [fst snd]. unfold outlasts. rewrite !andb_true_iff, negb_true_iff. split.
  - intros [[]|[[]|(x & [= <-] & A & F & D)]]. rewrite drain_alive_in_force in A. destruct r; try contradiction; rewrite ?negb_true_iff; auto.
  - intros [[A C] F]. right. right. exists r. split; [reflexivity|]. rewrite drain_alive_in_force. split; [destruct r; auto; contradiction|]. split; [exact F|].
    destruct r; rewrite ?A; try reflexivity; [apply negb_true_iff, C | contradiction].
Qed.
Lemma drain_no_renew : ~ In (Killed RRenew) (fst (drain_service e s)).
Proof. rewrite in_drain, in_public, in_drain_workers, in_drain_force. intros [[]|[[]|(x & [= <-] & _ & _ & [])]]. Qed.
Lemma drain_stops_slots : Forall (fun w => slot_state w = Stopped) (s_workers (snd (drain_service e s))).
Proof.
  rewrite drain_stages. cbv zeta. cbn [snd]. destruct (snd (fst (drain_public e s))) as [[a b] c]. rewrite drain_force_parts. cbn [snd s_workers with_workers].
  apply Forall_lookup. intros i w. rewrite each_lookup. destruct (_ !! i) as [x|]; [|discriminate]. intros [= <-]. unfold worker_kill.
  destruct (try_wait _ _); [destruct (force_child_shutdown _ _ _)|]; reflexivity.
Qed.
End Order.

(** C9. The order the drain promises, for any set of children and whatever its polls find: a
    worker is asked to stop only after the edge's wait is over and every configured sidecar's
    too; a child is killed only after it was asked to stop and its wait is over; a child is
    asked exactly when it still ran at that point, and killed exactly when it outlasted every
    poll; and nobody of them runs afterwards, every worker slot being stopped. *)
Theorem drain_stops_the_public_side_first e s pre x post :
  fst (drain_service e s) = pre ++ x :: post ->
  match x with
  | Term (RWorker _) => In (Waited REdge) pre /\ (s_cable s <> None -> In (Waited RCable) pre) /\ (s_grpc s <> None -> In (Waited RGrpc) pre)
  | Killed r => In (Term r) pre /\ In (Waited r) pre
  | _ => True
  end /\
  (forall r, r <> RRenew ->
     (In (Term r) (fst (drain_service e s)) <-> asked e s r = true) /\
     (In (Killed r) (fst (drain_service e s)) <-> outlasts e s r = true) /\
     is_alive (snd (drain_service e s)) r = false) /\
  Forall (fun w => slot_state w = Stopped) (s_workers (snd (drain_service e s))).
Proof.
  intros E. split; [|split; [intros r Nr; split; [apply drain_asks, Nr | split; [apply drain_kills, Nr | rewrite drain_alive; destruct r; [reflexivity..|contradiction]]] | apply drain_stops_slots]].
  rewrite drain_stages in E. cbv zeta in E. cbn [fst] in E. destruct x as [[| | |i|]|r|r]; try exact I.
  - apply split_after in E as (m & -> & _); [|rewrite in_public; intros [[=] _]]. rewrite !in_app_iff, !in_public. auto 8.
  - rewrite app_assoc in E. apply split_after in E as (m & -> & F); [|rewrite in_app_iff, in_public, in_drain_workers; tauto].
    assert (In (Killed r) (fst (drain_service e s))) as K by (rewrite drain_stages; cbv zeta; cbn [fst]; rewrite app_assoc, F, !in_app_iff; right; right; left; reflexivity).
    assert (r <> RRenew) as Nr by (intros ->; apply drain_no_renew in K; exact K). apply (drain_kills e s r Nr) in K.
    split; rewrite !in_app_iff; left; [apply asked_part | apply waited_part]; try exact Nr; unfold outlasts, outwaits in K; destruct (asked e s r); [reflexivity | discriminate | reflexivity | discriminate].
Qed.
Lemma drain_stops_the_public_side_first_witness :
  let s := {| s_edge := {| e_alive := true; e_pair := (None, None) |}; s_cable := Some true; s_grpc := None; s_workers := [fresh_worker]; s_renew := None; s_strays := 0; s_disk := disk_with ∅ |} in
  In (Waited RCable) [Term REdge; Waited REdge; Term RCable; Waited RCable].
Proof.
  intros s.
  refine (proj1 (proj2 (proj1 (drain_stops_the_public_side_first (k_drain calm_tick) s _ (Term (RWorker 0)) [Waited (RWorker 0)] _))) _); [reflexivity | discriminate].
Defined.
