(* ===== verification/EdgeCli.v ===== *)
(** * EdgeCli: the edge's command line

    Model of [EdgeCliConfig] in [crates/oxo-pingora-edge/src/lib.rs]: the flags of the edge,
    [parse_flags], which reads them, and [to_edge_args], which the supervisor uses to hand a
    resolved configuration to the edge it spawns.  The optional fields of one type form a
    finite map from the field's name: [None] is an absent key. *)

From stdpp Require Import gmap finite.
From S2P Require Import Prelude Text IpText.

(** ** The fields *)

Inductive num_field : Type :=
| max_body_bytes | public_origin_port | max_in_flight_per_identity | max_in_flight_requests | header_read_timeout_ms
| keepalive_idle_timeout_ms | max_connection_secs | long_lived_max_connections | long_lived_max_buffered_bytes
| long_lived_downstream_write_timeout_ms | drain_grace_ms | max_requests_per_connection | h2_max_concurrent_streams
| h2_max_reset_streams | worker_cap | edge_threads | listener_tasks.
Inductive text_field : Type :=
| fqdn | acme_directory_url | public_mode | public_identity | request_log | worker_hop | worker_dispatch.
Inductive path_field : Type := tls_cert | tls_key | acme_state_path | static_rails_preset | serve_rails.
Inductive bind_field : Type := http_bind | https_bind | admin_bind | action_cable_bind | grpc_bind.
Inductive tri_field : Type := tls_h2 | sse_enabled | keepalive_enabled | prod_enabled.
Inductive switch_field : Type := check_config | acme_issue_once | acme_renew_once | acme_accept_terms | acme_allow_production_directory.
Inductive list_field : Type := worker_sockets | acme_contacts | trusted_proxy_cidrs | static_mounts.

#[global] Instance num_field_eq : EqDecision num_field. Proof. solve_decision. Defined.
#[global] Instance text_field_eq : EqDecision text_field. Proof. solve_decision. Defined.
#[global] Instance path_field_eq : EqDecision path_field. Proof. solve_decision. Defined.
#[global] Instance bind_field_eq : EqDecision bind_field. Proof. solve_decision. Defined.
#[global] Instance tri_field_eq : EqDecision tri_field. Proof. solve_decision. Defined.
#[global] Instance switch_field_eq : EqDecision switch_field. Proof. solve_decision. Defined.
#[global] Instance list_field_eq : EqDecision list_field. Proof. solve_decision. Defined.

(** The fields of one type, each once. *)
Ltac all_fields l :=
  refine {| enum := l |}; [apply (bool_decide_unpack _); vm_compute; exact I | intros []; apply list_elem_of_In; cbn; tauto].
#[global] Instance num_field_finite : Finite num_field.
Proof.
  all_fields [max_body_bytes; public_origin_port; max_in_flight_per_identity; max_in_flight_requests; header_read_timeout_ms;
    keepalive_idle_timeout_ms; max_connection_secs; long_lived_max_connections; long_lived_max_buffered_bytes;
    long_lived_downstream_write_timeout_ms; drain_grace_ms; max_requests_per_connection; h2_max_concurrent_streams;
    h2_max_reset_streams; worker_cap; edge_threads; listener_tasks].
Defined.
#[global] Instance text_field_finite : Finite text_field.
Proof. all_fields [fqdn; acme_directory_url; public_mode; public_identity; request_log; worker_hop; worker_dispatch]. Defined.
#[global] Instance path_field_finite : Finite path_field.
Proof. all_fields [tls_cert; tls_key; acme_state_path; static_rails_preset; serve_rails]. Defined.
#[global] Instance bind_field_finite : Finite bind_field.
Proof. all_fields [http_bind; https_bind; admin_bind; action_cable_bind; grpc_bind]. Defined.
#[global] Instance tri_field_finite : Finite tri_field.
Proof. all_fields [tls_h2; sse_enabled; keepalive_enabled; prod_enabled]. Defined.
#[global] Instance switch_field_finite : Finite switch_field.
Proof. all_fields [check_config; acme_issue_once; acme_renew_once; acme_accept_terms; acme_allow_production_directory]. Defined.

(** The repeatable fields. *)
Record repeated : Type := { r_worker_sockets : list bytes; r_acme_contacts : list bytes; r_trusted_proxy_cidrs : list bytes; r_static_mounts : list bytes }.
Record EdgeCliConfig : Type := {
  nums : gmap num_field Z;
  texts : gmap text_field bytes;
  paths : gmap path_field bytes;
  binds : gmap bind_field SocketAddr;
  tris : gmap tri_field bool;
  switches : gset switch_field;
  lists : repeated;
}.
(** [Self::default()]. *)
Definition cli_default : EdgeCliConfig :=
  {| nums := ∅; texts := ∅; paths := ∅; binds := ∅; tris := ∅; switches := ∅;
     lists := {| r_worker_sockets := []; r_acme_contacts := []; r_trusted_proxy_cidrs := []; r_static_mounts := [] |} |}.

Definition upd_nums (g : gmap num_field Z -> gmap num_field Z) (c : EdgeCliConfig) : EdgeCliConfig :=
  {| nums := g (nums c); texts := texts c; paths := paths c; binds := binds c; tris := tris c; switches := switches c; lists := lists c |}.
Definition upd_texts (g : gmap text_field bytes -> gmap text_field bytes) (c : EdgeCliConfig) : EdgeCliConfig :=
  {| nums := nums c; texts := g (texts c); paths := paths c; binds := binds c; tris := tris c; switches := switches c; lists := lists c |}.
Definition upd_paths (g : gmap path_field bytes -> gmap path_field bytes) (c : EdgeCliConfig) : EdgeCliConfig :=
  {| nums := nums c; texts := texts c; paths := g (paths c); binds := binds c; tris := tris c; switches := switches c; lists := lists c |}.
Definition upd_binds (g : gmap bind_field SocketAddr -> gmap bind_field SocketAddr) (c : EdgeCliConfig) : EdgeCliConfig :=
  {| nums := nums c; texts := texts c; paths := paths c; binds := g (binds c); tris := tris c; switches := switches c; lists := lists c |}.
Definition upd_tris (g : gmap tri_field bool -> gmap tri_field bool) (c : EdgeCliConfig) : EdgeCliConfig :=
  {| nums := nums c; texts := texts c; paths := paths c; binds := binds c; tris := g (tris c); switches := switches c; lists := lists c |}.
Definition upd_switches (g : gset switch_field -> gset switch_field) (c : EdgeCliConfig) : EdgeCliConfig :=
  {| nums := nums c; texts := texts c; paths := paths c; binds := binds c; tris := tris c; switches := g (switches c); lists := lists c |}.
Definition upd_lists (g : repeated -> repeated) (c : EdgeCliConfig) : EdgeCliConfig :=
  {| nums := nums c; texts := texts c; paths := paths c; binds := binds c; tris := tris c; switches := switches c; lists := g (lists c) |}.
Definition repeated_of (m : repeated) (f : list_field) : list bytes :=
  match f with
  | worker_sockets => r_worker_sockets m
  | acme_contacts => r_acme_contacts m
  | trusted_proxy_cidrs => r_trusted_proxy_cidrs m
  | static_mounts => r_static_mounts m
  end.
Definition push_to (f : list_field) (vs : list bytes) (m : repeated) : repeated :=
  let at_ g := repeated_of m g ++ if decide (g = f) then vs else [] in
  {| r_worker_sockets := at_ worker_sockets; r_acme_contacts := at_ acme_contacts;
     r_trusted_proxy_cidrs := at_ trusted_proxy_cidrs; r_static_mounts := at_ static_mounts |}.

(** ** Reading the flags *)

Inductive cli_error : Type :=
| TakesNoValue (flag : bytes)
| RequiresValue (flag : bytes)
| MustNotBeEmpty (flag : bytes)
| ExpectedSocket (flag : bytes)
| ExpectedPort (flag : bytes)
| ExpectedInteger (flag : bytes)
| NotUtf8 (role : bytes)
| UnknownArgument (flag : bytes).

Definition cli_utf8 (role value : bytes) : result cli_error bytes := if utf8 value then Ok value else Err (NotUtf8 role).
Definition cli_string_value (flag value : bytes) : result cli_error bytes :=
  let? value := cli_utf8 flag value in
  if (length (trim value) =? 0)%nat then Err (MustNotBeEmpty flag) else Ok value.
Definition parse_socket_arg (flag value : bytes) : result cli_error SocketAddr :=
  let? raw := cli_string_value flag value in ok_or (parse_socket_addr raw) (ExpectedSocket flag).
Definition parse_u16_arg (flag value : bytes) : result cli_error Z :=
  let? raw := cli_string_value flag value in ok_or (parse_uint u16_max raw) (ExpectedPort flag).
Definition parse_u64_arg (flag value : bytes) : result cli_error Z :=
  let? raw := cli_string_value flag value in ok_or (parse_uint u64_max raw) (ExpectedInteger flag).

(** What an arm of the [match] on the flag does: the arms that take no value, and those that
    take one and store it. *)
Inductive arm : Type :=
| Switch (f : switch_field)
| Tri (f : tri_field) (b : bool)
| U64 (f : num_field)
| U16 (f : num_field)
| Text (f : text_field)
| PathArg (f : path_field)
| Bind (f : bind_field)
| PushText (f : list_field)
| PushPath (f : list_field).

Definition arms_serving : list (string * arm) :=
  [("--check-config", Switch check_config); ("--sse", Tri sse_enabled true); ("--no-sse", Tri sse_enabled false);
   ("--serve-rails", PathArg serve_rails); ("--keepalive", Tri keepalive_enabled true); ("--no-keepalive", Tri keepalive_enabled false);
   ("--prod", Tri prod_enabled true); ("--no-prod", Tri prod_enabled false);
   ("--max-requests-per-connection", U64 max_requests_per_connection); ("--h2-max-concurrent-streams", U64 h2_max_concurrent_streams);
   ("--h2-max-reset-streams", U64 h2_max_reset_streams); ("--edge-threads", U64 edge_threads); ("--listener-tasks", U64 listener_tasks);
   ("--request-log", Text request_log); ("--worker-hop", Text worker_hop); ("--worker-dispatch", Text worker_dispatch);
   ("--worker-cap", U64 worker_cap)]%string.
Definition arms_listener : list (string * arm) :=
  [("--tls-h2", Tri tls_h2 true); ("--no-tls-h2", Tri tls_h2 false); ("--worker-socket", PushPath worker_sockets);
   ("--static-mount", PushText static_mounts); ("--static-rails-preset", PathArg static_rails_preset); ("--max-body", U64 max_body_bytes);
   ("--http-bind", Bind http_bind); ("--https-bind", Bind https_bind); ("--fqdn", Text fqdn); ("--public-origin-port", U16 public_origin_port);
   ("--tls-cert", PathArg tls_cert); ("--tls-key", PathArg tls_key); ("--acme-state-path", PathArg acme_state_path);
   ("--acme-issue-once", Switch acme_issue_once); ("--acme-renew-once", Switch acme_renew_once);
   ("--acme-directory-url", Text acme_directory_url); ("--acme-contact", PushText acme_contacts);
   ("--acme-accept-terms", Switch acme_accept_terms); ("--acme-allow-production-directory", Switch acme_allow_production_directory)]%string.
Definition arms_public : list (string * arm) :=
  [("--public-mode", Text public_mode); ("--public-identity", Text public_identity); ("--trusted-proxy-cidr", PushText trusted_proxy_cidrs);
   ("--max-in-flight-per-identity", U64 max_in_flight_per_identity); ("--max-in-flight-requests", U64 max_in_flight_requests);
   ("--header-read-timeout-ms", U64 header_read_timeout_ms); ("--keepalive-idle-timeout-ms", U64 keepalive_idle_timeout_ms);
   ("--max-connection-secs", U64 max_connection_secs); ("--long-lived-max-connections", U64 long_lived_max_connections);
   ("--long-lived-max-buffered-bytes", U64 long_lived_max_buffered_bytes);
   ("--long-lived-downstream-write-timeout-ms", U64 long_lived_downstream_write_timeout_ms); ("--drain-grace-ms", U64 drain_grace_ms);
   ("--admin-bind", Bind admin_bind); ("--action-cable-bind", Bind action_cable_bind); ("--grpc-bind", Bind grpc_bind)]%string.
Definition find_arm (flag : bytes) : option arm :=
  snd <$> List.find (fun a => eq_bytes (bs (fst a)) flag) (arms_serving ++ arms_listener ++ arms_public).

(** The arms without a value; [None] for the others. *)
Definition turn_on (a : arm) (c : EdgeCliConfig) : option EdgeCliConfig :=
  match a with
  | Switch f => Some (upd_switches (fun m => {[f]} ∪ m) c)
  | Tri f b => Some (upd_tris <[f := b]> c)
  | _ => None
  end.
Definition store (a : arm) (flag value : bytes) (c : EdgeCliConfig) : result cli_error EdgeCliConfig :=
  match a with
  | U64 f => let? n := parse_u64_arg flag value in Ok (upd_nums <[f := n]> c)
  | U16 f => let? n := parse_u16_arg flag value in Ok (upd_nums <[f := n]> c)
  | Text f => let? s := cli_string_value flag value in Ok (upd_texts <[f := s]> c)
  | PathArg f => Ok (upd_paths <[f := value]> c)
  | Bind f => let? b := parse_socket_arg flag value in Ok (upd_binds <[f := b]> c)
  | PushText f => let? s := cli_string_value flag value in Ok (upd_lists (push_to f [s]) c)
  | PushPath f => Ok (upd_lists (push_to f [value]) c)
  | Switch _ | Tri _ _ => Ok c
  end.

Fixpoint parse_flags_from (args : list bytes) (c : EdgeCliConfig) : result cli_error EdgeCliConfig :=
  match args with
  | [] => Ok c
  | arg :: rest =>
      let? raw := cli_utf8 (bs "flag") arg in
      let '(flag, inline) := match split_once (zb 61) raw with Some (f, v) => (f, Some v) | None => (raw, None) end in
      match find_arm flag with
      | None => Err (UnknownArgument flag)
      | Some a =>
          match turn_on a c with
          | Some c' => match inline with Some _ => Err (TakesNoValue flag) | None => parse_flags_from rest c' end
          | None =>
              match inline, rest with
              | Some v, _ => let? c' := store a flag v c in parse_flags_from rest c'
              | None, v :: rest' => let? c' := store a flag v c in parse_flags_from rest' c'
              | None, [] => Err (RequiresValue flag)
              end
          end
      end
  end.
Definition parse_flags (flags : list bytes) : result cli_error EdgeCliConfig := parse_flags_from flags cli_default.
Definition parse_from_args (args : list bytes) : result cli_error EdgeCliConfig := parse_flags (List.tl args).

(** ** Writing the flags *)

Definition push_arg (flag : string) (value : bytes) : list bytes := [bs flag; value].
Definition arg_opt {A} (flag : string) (show : A -> bytes) (o : option A) : list bytes :=
  match o with Some v => push_arg flag (show v) | None => [] end.
Definition arg_each (flag : string) (vs : list bytes) : list bytes := flat_map (push_arg flag) vs.
Definition arg_tri (yes no : string) (o : option bool) : list bytes :=
  match o with Some true => [bs yes] | Some false => [bs no] | None => [] end.
Definition arg_switch (flag : string) (f : switch_field) (c : EdgeCliConfig) : list bytes :=
  if decide (f ∈ switches c) then [bs flag] else [].
Definition as_is (s : bytes) : bytes := s.

Definition args_listener (c : EdgeCliConfig) : list bytes :=
  arg_each "--worker-socket" (repeated_of (lists c) worker_sockets) ++
  arg_opt "--max-body" show_uint (nums c !! max_body_bytes) ++
  arg_opt "--http-bind" show_socket_addr (binds c !! http_bind) ++
  arg_opt "--https-bind" show_socket_addr (binds c !! https_bind) ++
  arg_opt "--fqdn" as_is (texts c !! fqdn) ++
  arg_opt "--public-origin-port" show_uint (nums c !! public_origin_port) ++
  arg_opt "--tls-cert" as_is (paths c !! tls_cert) ++
  arg_opt "--tls-key" as_is (paths c !! tls_key) ++
  arg_tri "--tls-h2" "--no-tls-h2" (tris c !! tls_h2) ++
  arg_opt "--acme-state-path" as_is (paths c !! acme_state_path) ++
  arg_switch "--acme-issue-once" acme_issue_once c ++
  arg_switch "--acme-renew-once" acme_renew_once c ++
  arg_opt "--acme-directory-url" as_is (texts c !! acme_directory_url) ++
  arg_each "--acme-contact" (repeated_of (lists c) acme_contacts) ++
  arg_switch "--acme-accept-terms" acme_accept_terms c ++
  arg_switch "--acme-allow-production-directory" acme_allow_production_directory c.
Definition args_public (c : EdgeCliConfig) : list bytes :=
  arg_opt "--public-mode" as_is (texts c !! public_mode) ++
  arg_opt "--public-identity" as_is (texts c !! public_identity) ++
  arg_each "--trusted-proxy-cidr" (repeated_of (lists c) trusted_proxy_cidrs) ++
  arg_opt "--max-in-flight-per-identity" show_uint (nums c !! max_in_flight_per_identity) ++
  arg_opt "--max-in-flight-requests" show_uint (nums c !! max_in_flight_requests) ++
  arg_opt "--header-read-timeout-ms" show_uint (nums c !! header_read_timeout_ms) ++
  arg_opt "--keepalive-idle-timeout-ms" show_uint (nums c !! keepalive_idle_timeout_ms) ++
  arg_opt "--max-connection-secs" show_uint (nums c !! max_connection_secs) ++
  arg_opt "--long-lived-max-connections" show_uint (nums c !! long_lived_max_connections) ++
  arg_opt "--long-lived-max-buffered-bytes" show_uint (nums c !! long_lived_max_buffered_bytes) ++
  arg_opt "--long-lived-downstream-write-timeout-ms" show_uint (nums c !! long_lived_downstream_write_timeout_ms) ++
  arg_opt "--drain-grace-ms" show_uint (nums c !! drain_grace_ms) ++
  arg_opt "--admin-bind" show_socket_addr (binds c !! admin_bind) ++
  arg_opt "--action-cable-bind" show_socket_addr (binds c !! action_cable_bind) ++
  arg_opt "--grpc-bind" show_socket_addr (binds c !! grpc_bind).
Definition args_serving (c : EdgeCliConfig) : list bytes :=
  arg_tri "--sse" "--no-sse" (tris c !! sse_enabled) ++
  arg_tri "--keepalive" "--no-keepalive" (tris c !! keepalive_enabled) ++
  arg_tri "--prod" "--no-prod" (tris c !! prod_enabled) ++
  arg_opt "--max-requests-per-connection" show_uint (nums c !! max_requests_per_connection) ++
  arg_opt "--h2-max-concurrent-streams" show_uint (nums c !! h2_max_concurrent_streams) ++
  arg_opt "--h2-max-reset-streams" show_uint (nums c !! h2_max_reset_streams) ++
  arg_opt "--edge-threads" show_uint (nums c !! edge_threads) ++
  arg_opt "--listener-tasks" show_uint (nums c !! listener_tasks) ++
  arg_opt "--request-log" as_is (texts c !! request_log) ++
  arg_opt "--worker-hop" as_is (texts c !! worker_hop) ++
  arg_opt "--worker-dispatch" as_is (texts c !! worker_dispatch) ++
  arg_opt "--worker-cap" show_uint (nums c !! worker_cap) ++
  arg_each "--static-mount" (repeated_of (lists c) static_mounts) ++
  arg_opt "--static-rails-preset" as_is (paths c !! static_rails_preset) ++
  arg_opt "--serve-rails" as_is (paths c !! serve_rails) ++
  arg_switch "--check-config" check_config c.
Definition to_edge_args (c : EdgeCliConfig) : list bytes := args_listener c ++ args_public c ++ args_serving c.

(** ** What is written is read back *)

Definition text_ok (s : bytes) : Prop := utf8 s = true /\ trim s <> [].
Definition num_max (f : num_field) : Z := match f with public_origin_port => u16_max | _ => u64_max end.
(** What the types of the fields and [parse_flags] guarantee. *)
Record cli_wf (c : EdgeCliConfig) : Prop := {
  wf_nums : map_Forall (fun f (n : Z) => 0 <= n <= num_max f) (nums c);
  wf_texts : map_Forall (fun _ => text_ok) (texts c);
  wf_binds : map_Forall (fun _ => socket_wf) (binds c);
  wf_lists : forall f, f <> worker_sockets -> Forall text_ok (repeated_of (lists c) f);
}.

Definition plain_flag (flag : string) : bool := utf8 (bs flag) && negb (contains_byte (zb 61) (bs flag)).
Lemma take_flag flag a rest c :
  plain_flag flag = true -> find_arm (bs flag) = Some a ->
  parse_flags_from (bs flag :: rest) c =
    match turn_on a c with
    | Some c' => parse_flags_from rest c'
    | None => match rest with v :: rest' => let? c' := store a (bs flag) v c in parse_flags_from rest' c' | [] => Err (RequiresValue (bs flag)) end
    end.
Proof.
  unfold plain_flag. rewrite andb_true_iff, negb_true_iff. intros [U N] A. cbn [parse_flags_from]. unfold cli_utf8. rewrite U. cbn [rbind].
  rewrite split_once_none by exact N. rewrite A. destruct (turn_on a c); [reflexivity|]. destruct rest; reflexivity.
Qed.
Definition restore {K V} `{Countable K} (k : K) (o : option V) (m : gmap K V) : gmap K V := match o with Some v => <[k := v]> m | None => m end.
Lemma text_value flag s : text_ok s -> cli_string_value flag s = Ok s.
Proof. intros [U T]. unfold cli_string_value, cli_utf8. rewrite U. cbn [rbind]. destruct (trim s); [contradiction | reflexivity]. Qed.
Lemma graphic_text s : s <> [] -> forallb graphic s = true -> text_ok s.
Proof.
  intros Ne G. rewrite forallb_forall in G. split.
  - apply utf8_ascii, forallb_forall. intros b I. specialize (G b I). unfold graphic, in_range in G. lia.
  - rewrite trim_graphic; [exact Ne | |].
    + destruct s as [|b s]; [exact I | apply G; left; reflexivity].
    + destruct (rev s) as [|b r] eqn:E; [exact I|]. apply G, in_rev. rewrite E. left. reflexivity.
Qed.
Lemma show_uint_graphic n : 0 <= n -> forallb graphic (show_uint n) = true.
Proof.
  intros H. apply forallb_forall. intros b I. apply digit_graphic. revert b I. apply forallb_forall, show_uint_digits, H.
Qed.
Lemma show_hex_graphic k n : 0 <= n -> forallb graphic (show_hex_fuel k n) = true.
Proof.
  revert n. induction k as [|k IH]; intros n H; [reflexivity|]. cbn [show_hex_fuel].
  assert (forall d, 0 <= d < 16 -> graphic (hex_digit d) = true) as D.
  { intros d Hd. unfold hex_digit, graphic, in_range. destruct (d <? 10) eqn:L; rewrite bz_zb by lia; lia. }
  destruct (n <? 16) eqn:L; [cbn [forallb]; rewrite D by lia; reflexivity|].
  rewrite forallb_app, IH by (apply Z.div_pos; lia). cbn [forallb]. rewrite D by (apply Z.mod_pos_bound; lia). reflexivity.
Qed.
Lemma show_v4_graphic n : 0 <= n < 2 ^ 32 -> forallb graphic (show_v4 n) = true.
Proof.
  intros H. unfold show_v4. rewrite !forallb_app, !show_uint_graphic; try reflexivity; repeat first [apply Z.mod_pos_bound | apply Z.div_pos]; lia.
Qed.
Lemma show_groups_graphic gs : Forall (fun g => 0 <= g < 2 ^ 16) gs -> forallb graphic (show_groups gs) = true.
Proof.
  induction gs as [|g gs IH]; intros F; [reflexivity|]. inversion_clear F as [|? ? Hg F0]. cbn [show_groups]. specialize (IH F0).
  destruct gs; [apply show_hex_graphic; lia|]. rewrite !forallb_app. unfold show_group. rewrite show_hex_graphic by lia. rewrite IH. reflexivity.
Qed.
Lemma show_v6_graphic gs : ip_wf (V6 gs) -> forallb graphic (show_v6 gs) = true.
Proof.
  intros [L F]. unfold show_v6. assert (forall k, 0 <= nth k gs 0 < 2 ^ 16) as B.
  { intros k. destruct (nth_in_or_default k gs 0) as [In0|E]; [exact (proj1 (List.Forall_forall _ _) F _ In0) | rewrite E; lia]. }
  destruct (is_mapped gs).
  - rewrite forallb_app, show_v4_graphic; [reflexivity|]. pose proof (B 6%nat). pose proof (B 7%nat). lia.
  - destruct (zero_span 0 gs (0%nat, 0%nat) (0%nat, 0%nat)) as [start len]. destruct (1 <? len)%nat; [|apply show_groups_graphic, F].
    rewrite !forallb_app, !show_groups_graphic; [reflexivity | apply Forall_drop, F | apply Forall_take, F].
Qed.
Lemma show_socket_text a : socket_wf a -> text_ok (show_socket_addr a).
Proof.
  intros (W & Hp & Hs). apply graphic_text.
  - unfold show_socket_addr. destruct (sa_ip a); [|discriminate]. intros E. apply app_eq_nil in E as [_ E]. discriminate.
  - unfold show_socket_addr. destruct (sa_ip a) as [n|gs].
    + rewrite !forallb_app, show_v4_graphic by exact W. rewrite show_uint_graphic by lia. reflexivity.
    + rewrite !forallb_app, show_v6_graphic by exact W. rewrite show_uint_graphic by lia. destruct (sa_scope a =? 0); [reflexivity|].
      rewrite forallb_app, show_uint_graphic by lia. reflexivity.
Qed.
Lemma show_uint_text n : 0 <= n -> text_ok (show_uint n).
Proof. intros H. apply graphic_text; [apply show_uint_nonempty | apply show_uint_graphic, H]. Qed.

(** *** One field at a time *)

Lemma read_u64 flag f o rest c :
  plain_flag flag = true -> find_arm (bs flag) = Some (U64 f) -> (forall n, o = Some n -> is_u64 n) ->
  parse_flags_from (arg_opt flag show_uint o ++ rest) c = parse_flags_from rest (upd_nums (restore f o) c).
Proof.
  intros P A R. destruct o as [n|]; [|destruct c; reflexivity]. specialize (R n eq_refl). unfold is_u64 in R. cbn [arg_opt push_arg app].
  rewrite (take_flag _ _ _ _ P A). cbn [turn_on store]. unfold parse_u64_arg. rewrite text_value by (apply show_uint_text; lia). cbn [rbind].
  rewrite parse_show_uint by lia. reflexivity.
Qed.
Lemma read_u16 flag f o rest c :
  plain_flag flag = true -> find_arm (bs flag) = Some (U16 f) -> (forall n, o = Some n -> 0 <= n <= u16_max) ->
  parse_flags_from (arg_opt flag show_uint o ++ rest) c = parse_flags_from rest (upd_nums (restore f o) c).
Proof.
  intros P A R. destruct o as [n|]; [|destruct c; reflexivity]. specialize (R n eq_refl). cbn [arg_opt push_arg app].
  rewrite (take_flag _ _ _ _ P A). cbn [turn_on store]. unfold parse_u16_arg. rewrite text_value by (apply show_uint_text; lia). cbn [rbind].
  rewrite parse_show_uint by (unfold u16_max, u64_max in *; lia). reflexivity.
Qed.
Lemma read_text flag f o rest c :
  plain_flag flag = true -> find_arm (bs flag) = Some (Text f) -> (forall s, o = Some s -> text_ok s) ->
  parse_flags_from (arg_opt flag as_is o ++ rest) c = parse_flags_from rest (upd_texts (restore f o) c).
Proof.
  intros P A R. destruct o as [s|]; [|destruct c; reflexivity]. cbn [arg_opt push_arg app]. rewrite (take_flag _ _ _ _ P A). cbn [turn_on store].
  unfold as_is. rewrite text_value by (apply R; reflexivity). reflexivity.
Qed.
Lemma read_path flag f o rest c :
  plain_flag flag = true -> find_arm (bs flag) = Some (PathArg f) ->
  parse_flags_from (arg_opt flag as_is o ++ rest) c = parse_flags_from rest (upd_paths (restore f o) c).
Proof. intros P A. destruct o as [s|]; [|destruct c; reflexivity]. cbn [arg_opt push_arg app]. rewrite (take_flag _ _ _ _ P A). reflexivity. Qed.
Lemma read_bind flag f o rest c :
  plain_flag flag = true -> find_arm (bs flag) = Some (Bind f) -> (forall a, o = Some a -> socket_wf a) ->
  parse_flags_from (arg_opt flag show_socket_addr o ++ rest) c = parse_flags_from rest (upd_binds (restore f o) c).
Proof.
  intros P A R. destruct o as [a|]; [|destruct c; reflexivity]. specialize (R a eq_refl). cbn [arg_opt push_arg app].
  rewrite (take_flag _ _ _ _ P A). cbn [turn_on store]. unfold parse_socket_arg. rewrite text_value by (apply show_socket_text, R). cbn [rbind].
  rewrite (proj1 (parse_show_socket_addr a R)). reflexivity.
Qed.
Lemma read_tri yes no f o rest c :
  plain_flag yes = true -> plain_flag no = true -> find_arm (bs yes) = Some (Tri f true) -> find_arm (bs no) = Some (Tri f false) ->
  parse_flags_from (arg_tri yes no o ++ rest) c = parse_flags_from rest (upd_tris (restore f o) c).
Proof.
  intros Py Pn Ay An. destruct o as [[]|]; [| |destruct c; reflexivity]; cbn [arg_tri app];
    [rewrite (take_flag _ _ _ _ Py Ay) | rewrite (take_flag _ _ _ _ Pn An)]; reflexivity.
Qed.
Definition restore_switch (f : switch_field) (m0 m : gset switch_field) : gset switch_field := if decide (f ∈ m0) then {[f]} ∪ m else m.
Lemma read_switch flag f c0 rest c :
  plain_flag flag = true -> find_arm (bs flag) = Some (Switch f) ->
  parse_flags_from (arg_switch flag f c0 ++ rest) c = parse_flags_from rest (upd_switches (restore_switch f (switches c0)) c).
Proof.
  intros P A. unfold arg_switch, restore_switch. destruct (decide (f ∈ switches c0)); [|destruct c; reflexivity]. cbn [app].
  rewrite (take_flag _ _ _ _ P A). reflexivity.
Qed.
Lemma push_push f x vs m : push_to f vs (push_to f [x] m) = push_to f (x :: vs) m.
Proof.
  unfold push_to. cbn [repeated_of r_worker_sockets r_acme_contacts r_trusted_proxy_cidrs r_static_mounts].
  f_equal; case_decide; rewrite ?app_nil_r, <- ?app_assoc; reflexivity.
Qed.
Lemma push_none f m : push_to f [] m = m.
Proof.
  destruct m. unfold push_to. cbn [repeated_of r_worker_sockets r_acme_contacts r_trusted_proxy_cidrs r_static_mounts].
  f_equal; case_decide; apply app_nil_r.
Qed.
Lemma read_each flag f vs rest c :
  plain_flag flag = true ->
  find_arm (bs flag) = Some (PushPath f) \/ find_arm (bs flag) = Some (PushText f) /\ Forall text_ok vs ->
  parse_flags_from (arg_each flag vs ++ rest) c = parse_flags_from rest (upd_lists (push_to f vs) c).
Proof.
  intros P A. revert c. induction vs as [|v vs IH]; intros c.
  - unfold upd_lists. rewrite push_none. destruct c; reflexivity.
  - cbn [arg_each flat_map push_arg app]. transitivity (parse_flags_from (arg_each flag vs ++ rest) (upd_lists (push_to f [v]) c)).
    + destruct A as [A|[A F]]; rewrite (take_flag _ _ _ _ P A); cbn [turn_on store]; [reflexivity|].
      rewrite text_value by (inversion F; assumption). reflexivity.
    + rewrite IH by (destruct A as [A|[A F]]; [left; exact A | right; split; [exact A | inversion F; assumption]]).
      unfold upd_lists. cbn [nums texts paths binds tris switches lists]. rewrite push_push. reflexivity.
Qed.

(** *** The whole configuration *)

Lemma restore_here {K V} `{Countable K} (k : K) (o : option V) (m : gmap K V) : m !! k = None -> restore k o m !! k = o.
Proof. intros N. unfold restore. destruct o; [apply lookup_insert_eq | exact N]. Qed.
Lemma restore_elsewhere {K V} `{Countable K} (k j : K) (o : option V) (m : gmap K V) : k <> j -> restore k o m !! j = m !! j.
Proof. intros Ne. unfold restore. destruct o; [apply lookup_insert_ne, Ne | reflexivity]. Qed.
Lemma in_restore f j m0 m : j ∈ restore_switch f m0 m <-> j ∈ m \/ j = f /\ f ∈ m0.
Proof. unfold restore_switch. case_decide; set_solver. Qed.

Section RoundTrip.
Variable c : EdgeCliConfig.
Hypothesis W : cli_wf c.
Lemma wf_u64 f n : num_max f = u64_max -> nums c !! f = Some n -> is_u64 n.
Proof. intros M E. unfold is_u64. rewrite <- M. apply (wf_nums _ W _ _ E). Qed.
Lemma wf_u16 n : nums c !! public_origin_port = Some n -> 0 <= n <= u16_max.
Proof. intros E. apply (wf_nums _ W _ _ E). Qed.
Lemma wf_text f s : texts c !! f = Some s -> text_ok s.
Proof. intros E. apply (wf_texts _ W _ _ E). Qed.
Lemma wf_bind f a : binds c !! f = Some a -> socket_wf a.
Proof. intros E. apply (wf_binds _ W _ _ E). Qed.

Ltac read_one :=
  first
    [ erewrite read_u64 by first [reflexivity | intros ? ?; eapply wf_u64; [|eassumption]; reflexivity]
    | erewrite read_u16 by first [reflexivity | exact wf_u16]
    | erewrite read_text by first [reflexivity | apply wf_text]
    | erewrite read_path by reflexivity
    | erewrite read_bind by first [reflexivity | apply wf_bind]
    | erewrite read_tri by reflexivity
    | erewrite read_switch by reflexivity
    | erewrite read_each by first [reflexivity | left; reflexivity | right; split; [reflexivity | apply (wf_lists _ W); discriminate]] ].
Ltac read_all :=
  unfold parse_flags, to_edge_args, args_listener, args_public, args_serving; rewrite <- !app_assoc, <- (app_nil_r (arg_switch "--check-config" _ _));
  repeat read_one; cbn [parse_flags_from].
Ltac field_of_chain :=
  cbn [nums texts paths binds tris switches lists upd_nums upd_texts upd_paths upd_binds upd_tris upd_switches upd_lists cli_default].
Ltac skip_restored := repeat (rewrite restore_elsewhere by discriminate).
Ltac map_restored := apply map_eq; intros []; skip_restored; apply restore_here; skip_restored; apply lookup_empty.
Lemma args_read : parse_flags (to_edge_args c) = Ok c.
Proof.
  read_all. f_equal. destruct c as [n t p b tr sw [l1 l2 l3 l4]] eqn:Ec. cbn [nums texts paths binds tris switches lists] in *.
  match goal with |- ?x = _ => set (y := x) end.
  assert (nums y = n) by (subst y; field_of_chain; map_restored).
  assert (texts y = t) by (subst y; field_of_chain; map_restored).
  assert (paths y = p) by (subst y; field_of_chain; map_restored).
  assert (binds y = b) by (subst y; field_of_chain; map_restored).
  assert (tris y = tr) by (subst y; field_of_chain; map_restored).
  assert (switches y = sw) by (subst y; field_of_chain; apply set_eq; intros []; rewrite !in_restore; set_solver).
  assert (lists y = {| r_worker_sockets := l1; r_acme_contacts := l2; r_trusted_proxy_cidrs := l3; r_static_mounts := l4 |}) 
    by (subst y; field_of_chain; unfold push_to; cbn [repeated_of r_worker_sockets r_acme_contacts r_trusted_proxy_cidrs r_static_mounts];
        repeat first [rewrite decide_True by reflexivity | rewrite decide_False by discriminate]; rewrite ?app_nil_r; reflexivity).
  clearbody y. destruct y. cbn in *. congruence.
Qed.
End RoundTrip.

(** *** What is read is well formed *)

Lemma string_value_ok flag v s : cli_string_value flag v = Ok s -> text_ok s.
Proof.
  unfold cli_string_value, cli_utf8. destruct (utf8 v) eqn:U; [|discriminate]. cbn [rbind]. destruct (trim v) eqn:T; [discriminate|].
  intros [= <-]. split; [exact U | rewrite T; discriminate].
Qed.
Lemma u64_arg_ok flag v n : parse_u64_arg flag v = Ok n -> 0 <= n <= u64_max.
Proof.
  unfold parse_u64_arg. destruct (cli_string_value flag v) as [s|]; [|discriminate]. cbn [rbind]. destruct (parse_uint u64_max s) as [m|] eqn:P; [|discriminate].
  intros [= <-]. eapply parse_uint_range; [|exact P]; discriminate.
Qed.
Lemma u16_arg_ok flag v n : parse_u16_arg flag v = Ok n -> 0 <= n <= u16_max.
Proof.
  unfold parse_u16_arg. destruct (cli_string_value flag v) as [s|]; [|discriminate]. cbn [rbind]. destruct (parse_uint u16_max s) as [m|] eqn:P; [|discriminate].
  intros [= <-]. eapply parse_uint_range; [|exact P]; discriminate.
Qed.
Lemma socket_arg_ok flag v a : parse_socket_arg flag v = Ok a -> socket_wf a.
Proof.
  unfold parse_socket_arg. destruct (cli_string_value flag v) as [s|]; [|discriminate]. cbn [rbind]. destruct (parse_socket_addr s) as [m|] eqn:P; [|discriminate].
  intros [= <-]. apply (parse_socket_addr_wf _ _ P).
Qed.
(** The one field with a 16-bit value is read by the arm for it, and no other. *)
Lemma arm_width flag a : find_arm flag = Some a -> match a with U64 f => num_max f = u64_max | U16 f => num_max f = u16_max | PushPath f => f = worker_sockets | _ => True end.
Proof.
  unfold find_arm. destruct (List.find _ _) as [[s x]|] eqn:F; [|discriminate]. intros [= <-]. apply List.find_some in F as [I _]. cbn.
  assert (Forall (fun y : string * arm => match snd y with U64 f => num_max f = u64_max | U16 f => num_max f = u16_max | PushPath f => f = worker_sockets | _ => True end)
            (arms_serving ++ arms_listener ++ arms_public)) as All by (cbn [app arms_serving arms_listener arms_public]; repeat constructor).
  exact (proj1 (List.Forall_forall _ _) All _ I).
Qed.
Lemma push_ok f s m g : g <> worker_sockets -> f = worker_sockets \/ text_ok s -> Forall text_ok (repeated_of m g) -> Forall text_ok (repeated_of (push_to f [s] m) g).
Proof.
  intros Ng Ok F. assert (repeated_of (push_to f [s] m) g = repeated_of m g ++ if decide (g = f) then [s] else []) as -> by (destruct g; reflexivity).
  apply Forall_app. split; [exact F|]. case_decide as E; [|constructor]. constructor; [|constructor]. destruct Ok as [->|]; [contradiction | assumption].
Qed.
Lemma store_wf flag a v c c' : cli_wf c -> find_arm flag = Some a -> store a flag v c = Ok c' -> cli_wf c'.
Proof.
  intros [Wn Wt Wb Wl] A. pose proof (arm_width _ _ A) as Wd. destruct a; cbn [store]; intros E; try (injection E as <-; split; assumption).
  - destruct (parse_u64_arg flag v) as [n|] eqn:P; [|discriminate]. injection E as <-. apply u64_arg_ok in P. split; cbn; try assumption. apply map_Forall_insert_2; [rewrite Wd; exact P | exact Wn].
  - destruct (parse_u16_arg flag v) as [n|] eqn:P; [|discriminate]. injection E as <-. apply u16_arg_ok in P. split; cbn; try assumption. apply map_Forall_insert_2; [rewrite Wd; exact P | exact Wn].
  - destruct (cli_string_value flag v) as [s|] eqn:P; [|discriminate]. injection E as <-. apply string_value_ok in P. split; cbn; try assumption. apply map_Forall_insert_2; assumption.
  - destruct (parse_socket_arg flag v) as [s|] eqn:P; [|discriminate]. injection E as <-. apply socket_arg_ok in P. split; cbn; try assumption. apply map_Forall_insert_2; assumption.
  - destruct (cli_string_value flag v) as [s|] eqn:P; [|discriminate]. injection E as <-. apply string_value_ok in P. split; cbn; try assumption. intros g Ng. apply push_ok; auto.
  - injection E as <-. split; cbn; try assumption. intros g Ng. apply push_ok; auto.
Qed.
Lemma turn_on_wf a c c' : cli_wf c -> turn_on a c = Some c' -> cli_wf c'.
Proof. intros [Wn Wt Wb Wl]. destruct a; cbn [turn_on]; intros E; try discriminate; injection E as <-; split; assumption. Qed.
Lemma parse_from_wf n args c c' : (length args <= n)%nat -> cli_wf c -> parse_flags_from args c = Ok c' -> cli_wf c'.
Proof.
  revert args c. induction n as [|n IH]; intros [|arg rest] c L W; cbn [length] in L; try lia; try (intros [= <-]; exact W).
  cbn [parse_flags_from]. destruct (cli_utf8 (bs "flag") arg) as [raw|]; [|discriminate]. cbn [rbind].
  destruct (match split_once (zb 61) raw with Some (f, v) => (f, Some v) | None => (raw, None) end) as [flag inline].
  destruct (find_arm flag) as [a|] eqn:A; [|discriminate]. destruct (turn_on a c) as [c1|] eqn:T.
  - destruct inline; [discriminate|]. apply IH; [lia | eapply turn_on_wf; eassumption].
  - destruct inline as [v|]; [|destruct rest as [|v rest']; [discriminate|]]; cbn [length] in L;
      (destruct (store a flag v c) as [c1|] eqn:St; [|discriminate]; cbn [rbind]; apply IH; [lia | eapply store_wf; eassumption]).
Qed.
Lemma parse_flags_wf args c : parse_flags args = Ok c -> cli_wf c.
Proof.
  apply (parse_from_wf (length args)); [lia|]. split; [apply map_Forall_empty | apply map_Forall_empty | apply map_Forall_empty | intros []; constructor].
Qed.

(** C19. The command line is read back exactly: whatever flags the edge accepts, in whatever
    order and spelling, [to_edge_args] of the configuration read from them is accepted and
    gives the same configuration, all 47 fields of it; and every value read is in its field's
    range. *)
Theorem command_line_round_trip args c :
  parse_flags args = Ok c -> cli_wf c /\ parse_flags (to_edge_args c) = Ok c.
Proof. intros P. pose proof (parse_flags_wf _ _ P) as W. split; [exact W | apply args_read, W]. Qed.
Lemma command_line_round_trip_witness :
  exists c, parse_flags [bs "--fqdn=example.org"; bs "--http-bind"; bs "[fe80::1%2]:8080"; bs "--max-body"; bs "+0042"; bs "--no-sse"; bs "--worker-socket=/run/a=b"] = Ok c /\
            parse_flags (to_edge_args c) = Ok c.
Proof.
  destruct (parse_flags [bs "--fqdn=example.org"; bs "--http-bind"; bs "[fe80::1%2]:8080"; bs "--max-body"; bs "+0042"; bs "--no-sse"; bs "--worker-socket=/run/a=b"]) as [c|e] eqn:E;
    [exists c; split; [reflexivity | exact (proj2 (command_line_round_trip _ c E))] | vm_compute in E; discriminate].
Defined.
