(* ===== verification/ServiceConf.v ===== *)
(** * ServiceConf: what the supervisor tells the edge it spawns

    Model of the configuration part of [crates/oxo-pingora-edge/src/service.rs]: the readers
    of environment variables, the drain windows, the readiness budgets, [collect_edge_args],
    which resolves each setting of the edge from the command line and the environment and
    writes it as flags, and [collect_edge_env].  Error messages are
    reduced to the variable they name. *)

From stdpp Require Import gmap.
From S2P Require Import Prelude Text IpText EdgeCli.

Inductive conf_error : Type := ConfMissing (name : string) | ConfInvalid (name : string).

(** A field assigned an [Option]. *)
Definition assign {K V} `{Countable K} (k : K) (o : option V) (m : gmap K V) : gmap K V := partial_alter (fun _ => o) k m.
Definition or_else {A} (o p : option A) : option A := match o with Some a => Some a | None => p end.
Definition is_empty (s : bytes) : bool := (length s =? 0)%nat.

Section Conf.
(** [env::var_os]. *)
Variable getenv : string -> option bytes.

(** ** Reading variables *)

(** The common shape of the optional readers: unset and blank variables are [None], a
    variable that is not UTF-8 is an error, any other one is given to [parse]. *)
Definition env_with {A} (name : string) (parse : bytes -> option A) : result conf_error (option A) :=
  match getenv name with
  | None => Ok None
  | Some v =>
      if negb (utf8 v) then Err (ConfInvalid name)
      else if is_empty (trim v) then Ok None
      else match parse v with Some a => Ok (Some a) | None => Err (ConfInvalid name) end
  end.
Definition parse_bool (s : bytes) : option bool :=
  if one_of s ["1"; "true"; "TRUE"; "yes"; "YES"]%string then Some true
  else if one_of s ["0"; "false"; "FALSE"; "no"; "NO"]%string then Some false
  else None.
Definition optional_string_env (name : string) : result conf_error (option bytes) := env_with name Some.
Definition optional_bool_env (name : string) : result conf_error (option bool) := env_with name (fun v => parse_bool (trim v)).
Definition optional_u16_env (name : string) : result conf_error (option Z) := env_with name (fun v => parse_uint u16_max (trim v)).
Definition optional_u64_env (name : string) : result conf_error (option Z) := env_with name (fun v => parse_uint u64_max (trim v)).
Definition optional_socket_addr_env (name : string) : result conf_error (option SocketAddr) := env_with name (fun v => parse_socket_addr (trim v)).
Definition env_usize (name : string) (default : Z) : result conf_error Z :=
  let? o := env_with name (fun v => parse_uint u64_max (trim v)) in Ok (unwrap_or default o).
Definition env_duration_ms (name : string) (default : Z) : result conf_error Z := env_usize name default.
Definition env_bool (name : string) (default : bool) : result conf_error bool :=
  let? o := optional_bool_env name in Ok (unwrap_or default o).
Definition required_string (name : string) : result conf_error bytes :=
  match getenv name with
  | Some v => if utf8 v && negb (is_empty (trim v)) then Ok v else Err (ConfMissing name)
  | None => Err (ConfMissing name)
  end.
Definition optional_path (name : string) : option bytes :=
  match getenv name with Some v => if is_empty v then None else Some v | None => None end.

(** ** Budgets and windows, in milliseconds *)

Definition WORKER_READY_TIMEOUT : Z := 15000.
Definition DEFAULT_DRAIN_GRACE : Z := 5000.
Definition DEFAULT_EDGE_DRAIN_GRACE : Z := 2000.
Definition SIDECAR_DRAIN_WAIT : Z := 1000.
Definition WORKER_DRAIN_WAIT : Z := 1000.

Definition read_nonzero_duration_ms (name : string) (default : Z) : result conf_error Z :=
  let? o := optional_string_env name in
  match o with
  | None => Ok default
  | Some raw =>
      match parse_uint u64_max raw with
      | Some millis => if millis =? 0 then Err (ConfInvalid name) else Ok millis
      | None => Err (ConfInvalid name)
      end
  end.
Definition read_worker_ready_timeout (is_async : bool) : result conf_error Z :=
  read_nonzero_duration_ms "OXO_WORKER_READY_TIMEOUT_MS" (if is_async then 120000 else WORKER_READY_TIMEOUT).
Definition read_worker_respawn_ready_timeout (is_async : bool) : result conf_error Z :=
  read_nonzero_duration_ms "OXO_WORKER_RESPAWN_READY_TIMEOUT_MS" (if is_async then 30000 else WORKER_READY_TIMEOUT).
Definition read_worker_drain_wait (is_async : bool) : result conf_error Z :=
  if negb is_async then Ok WORKER_DRAIN_WAIT
  else let? deadline := read_nonzero_duration_ms "OXO_WORKER_DRAIN_DEADLINE_MS" 900 in Ok (deadline + 150).

(** The milliseconds and the whole seconds they are rounded up to. *)
Definition resolve_edge_drain_grace (cli : EdgeCliConfig) : result conf_error (Z * Z) :=
  let? (name, millis) := match nums cli !! drain_grace_ms with
                         | Some v => Ok ("--drain-grace-ms"%string, v)
                         | None => let? v := env_usize "OXO_EDGE_DRAIN_GRACE_MS" DEFAULT_EDGE_DRAIN_GRACE in Ok ("OXO_EDGE_DRAIN_GRACE_MS"%string, v)
                         end in
  if millis =? 0 then Err (ConfInvalid name)
  else Ok (millis, saturating_add millis 999 / 1000 * 1000).
Definition validate_drain_grace_hierarchy (service_grace edge_grace worker_drain_wait : Z) : result conf_error unit :=
  let required := edge_grace + SIDECAR_DRAIN_WAIT + worker_drain_wait in
  if required >=? service_grace then Err (ConfInvalid "OXO_SERVICE_DRAIN_GRACE_MS") else Ok tt.

(** The deadline of a stage of the drain that starts at [now]. *)
Definition bounded_stage_deadline (service_deadline now stage : Z) : Z :=
  if now + stage <? service_deadline then now + stage else service_deadline.

Definition validate_frame_pool_idle_env : result conf_error unit :=
  let? o := optional_string_env "OXO_EDGE_FRAME_POOL_IDLE" in
  match o with
  | None => Ok tt
  | Some raw => match parse_uint u64_max raw with
                | Some v => if v =? 0 then Err (ConfInvalid "OXO_EDGE_FRAME_POOL_IDLE") else Ok tt
                | None => Err (ConfInvalid "OXO_EDGE_FRAME_POOL_IDLE")
                end
  end.
Definition validate_edge_pool_env : result conf_error unit :=
  let? o := optional_string_env "OXO_EDGE_POOL" in
  match o with
  | None => Ok tt
  | Some raw => if one_of (trim raw) [""; "owned"]%string then Ok tt else Err (ConfInvalid "OXO_EDGE_POOL")
  end.

(** ** The edge's arguments *)

Definition resolve_edge_bind (cli : EdgeCliConfig) : result conf_error SocketAddr :=
  match binds cli !! http_bind, binds cli !! https_bind with
  | Some _, Some _ => Err (ConfInvalid "argv")
  | Some b, None | None, Some b => Ok b
  | None, None => let? raw := required_string "OXO_EDGE_BIND" in ok_or (parse_socket_addr raw) (ConfInvalid "OXO_EDGE_BIND")
  end.
Definition edge_uses_tls (cli : EdgeCliConfig) : result conf_error bool :=
  if bool_decide (is_Some (binds cli !! https_bind)) || bool_decide (is_Some (paths cli !! tls_cert)) || bool_decide (is_Some (paths cli !! tls_key)) then Ok true
  else if bool_decide (is_Some (binds cli !! http_bind)) then Ok false
  else env_bool "OXO_EDGE_TLS" false.
(** [value.split(sep).map(str::trim).filter(non-empty)]. *)
Definition list_items (sep : byte) (value : bytes) : list bytes :=
  List.filter (fun p => negb (is_empty p)) (map trim (split_byte sep value)).

(** One statement of [collect_edge_args]: a field from the command line, else from the
    variable.  The variable is read, and can fail, in either case. *)
Definition from_u64 (cli : EdgeCliConfig) (f : num_field) (name : string) (c : EdgeCliConfig) : result conf_error EdgeCliConfig :=
  let? e := optional_u64_env name in Ok (upd_nums (assign f (or_else (nums cli !! f) e)) c).
Definition from_u16 (cli : EdgeCliConfig) (f : num_field) (name : string) (c : EdgeCliConfig) : result conf_error EdgeCliConfig :=
  let? e := optional_u16_env name in Ok (upd_nums (assign f (or_else (nums cli !! f) e)) c).
Definition from_text (cli : EdgeCliConfig) (f : text_field) (name : string) (c : EdgeCliConfig) : result conf_error EdgeCliConfig :=
  let? e := optional_string_env name in Ok (upd_texts (assign f (or_else (texts cli !! f) e)) c).
Definition from_bool (cli : EdgeCliConfig) (f : tri_field) (name : string) (c : EdgeCliConfig) : result conf_error EdgeCliConfig :=
  let? e := optional_bool_env name in Ok (upd_tris (assign f (or_else (tris cli !! f) e)) c).
Definition from_addr (cli : EdgeCliConfig) (f : bind_field) (name : string) (c : EdgeCliConfig) : result conf_error EdgeCliConfig :=
  let? e := optional_socket_addr_env name in Ok (upd_binds (assign f (or_else (binds cli !! f) e)) c).
Definition from_addr2 (cli : EdgeCliConfig) (f : bind_field) (name name2 : string) (c : EdgeCliConfig) : result conf_error EdgeCliConfig :=
  let? e := optional_socket_addr_env name in
  let? e2 := optional_socket_addr_env name2 in
  Ok (upd_binds (assign f (or_else (or_else (binds cli !! f) e) e2)) c).
(** A path whose variable is not read as text, and one whose variable is. *)
Definition from_os_path (cli : EdgeCliConfig) (f : path_field) (name : string) (c : EdgeCliConfig) : result conf_error EdgeCliConfig :=
  Ok (upd_paths (assign f (or_else (paths cli !! f) (optional_path name))) c).
Definition from_text_path (cli : EdgeCliConfig) (f : path_field) (name : string) (c : EdgeCliConfig) : result conf_error EdgeCliConfig :=
  let? e := optional_string_env name in Ok (upd_paths (assign f (or_else (paths cli !! f) e)) c).
(** [cli.flag || optional_bool_env(name)?.unwrap_or(false)]: the variable is read only when the flag is absent. *)
Definition from_switch (cli : EdgeCliConfig) (f : switch_field) (name : string) (c : EdgeCliConfig) : result conf_error EdgeCliConfig :=
  if decide (f ∈ switches cli) then Ok (upd_switches (fun m => {[f]} ∪ m) c)
  else let? e := optional_bool_env name in
       Ok (if unwrap_or false e then upd_switches (fun m => {[f]} ∪ m) c else c).
(** The command line's list, else the variable's items. *)
Definition from_list (cli : EdgeCliConfig) (f : list_field) (sep : byte) (name : string) (c : EdgeCliConfig) : result conf_error EdgeCliConfig :=
  match repeated_of (lists cli) f with
  | [] => let? e := optional_string_env name in
          Ok (upd_lists (push_to f (match e with Some v => list_items sep v | None => [] end)) c)
  | vs => Ok (upd_lists (push_to f vs) c)
  end.

Definition resolve_listener (sockets : list bytes) (edge_bind : SocketAddr) (cli : EdgeCliConfig) (edge_drain_grace_ms : Z) : result conf_error EdgeCliConfig :=
  let c := upd_lists (push_to worker_sockets sockets) (upd_nums <[drain_grace_ms := edge_drain_grace_ms]> cli_default) in
  let? uses_tls := edge_uses_tls cli in
  let c := upd_binds <[(if uses_tls then https_bind else http_bind) := edge_bind]> c in
  let? c := from_u64 cli max_body_bytes "OXO_EDGE_MAX_BODY" c in
  let? c := from_text cli fqdn "OXO_EDGE_SERVER_NAME" c in
  let? c := from_u16 cli public_origin_port "OXO_EDGE_PUBLIC_ORIGIN_PORT" c in
  if uses_tls then
    let? c := from_os_path cli tls_cert "OXO_EDGE_TLS_CERT" c in
    let? c := from_os_path cli tls_key "OXO_EDGE_TLS_KEY" c in
    from_bool cli tls_h2 "OXO_EDGE_TLS_H2" c
  else Ok c.
Definition resolve_acme (cli c : EdgeCliConfig) : result conf_error EdgeCliConfig :=
  let? c := from_os_path cli acme_state_path "OXO_EDGE_ACME_STATE_PATH" c in
  let? c := from_switch cli acme_issue_once "OXO_EDGE_ACME_ISSUE_ONCE" c in
  let? c := from_switch cli acme_renew_once "OXO_EDGE_ACME_RENEW_ONCE" c in
  let? c := from_text cli acme_directory_url "OXO_EDGE_ACME_DIRECTORY_URL" c in
  let? c := from_list cli acme_contacts (zb 44) "OXO_EDGE_ACME_CONTACTS" c in
  from_switch cli acme_accept_terms "OXO_EDGE_ACME_ACCEPT_TERMS" c.
Definition resolve_serving (cli c : EdgeCliConfig) : result conf_error EdgeCliConfig :=
  let? c := from_text cli public_mode "OXO_EDGE_PUBLIC_MODE" c in
  let? c := from_text cli public_identity "OXO_EDGE_PUBLIC_IDENTITY" c in
  let? c := from_addr cli admin_bind "OXO_EDGE_ADMIN_BIND" c in
  let? c := from_addr2 cli action_cable_bind "OXO_EDGE_ACTION_CABLE_BIND" "OXO_CABLE_BIND" c in
  let? c := from_addr2 cli grpc_bind "OXO_EDGE_GRPC_BIND" "OXO_GRPC_BIND" c in
  let? c := from_bool cli sse_enabled "OXO_EDGE_SSE" c in
  let? c := from_bool cli keepalive_enabled "OXO_EDGE_KEEPALIVE" c in
  let? c := from_u64 cli max_requests_per_connection "OXO_EDGE_MAX_REQUESTS_PER_CONNECTION" c in
  let? c := from_u64 cli h2_max_concurrent_streams "OXO_EDGE_H2_MAX_CONCURRENT_STREAMS" c in
  let? c := from_u64 cli h2_max_reset_streams "OXO_EDGE_H2_MAX_RESET_STREAMS" c in
  let? c := from_u64 cli edge_threads "OXO_EDGE_THREADS" c in
  let? c := from_u64 cli listener_tasks "OXO_EDGE_LISTENER_TASKS" c in
  let? c := from_text cli request_log "OXO_EDGE_REQUEST_LOG" c in
  let? c := from_text cli worker_hop "OXO_EDGE_WORKER_HOP" c in
  let? c := from_list cli static_mounts (zb 59) "OXO_EDGE_STATIC_MOUNTS" c in
  let? c := from_text_path cli static_rails_preset "OXO_EDGE_STATIC_RAILS_PRESET" c in
  let? c := from_text_path cli serve_rails "OXO_EDGE_SERVE_RAILS" c in
  from_bool cli prod_enabled "OXO_EDGE_PROD" c.
Definition resolve_limits (cli c : EdgeCliConfig) : result conf_error EdgeCliConfig :=
  let? c := from_list cli trusted_proxy_cidrs (zb 44) "OXO_EDGE_TRUSTED_PROXY_CIDRS" c in
  let? c := from_u64 cli max_in_flight_per_identity "OXO_EDGE_MAX_IN_FLIGHT_PER_IDENTITY" c in
  let? c := from_u64 cli max_in_flight_requests "OXO_EDGE_MAX_IN_FLIGHT_REQUESTS" c in
  let? c := from_u64 cli header_read_timeout_ms "OXO_EDGE_HEADER_READ_TIMEOUT_MS" c in
  let? c := from_u64 cli keepalive_idle_timeout_ms "OXO_EDGE_KEEPALIVE_IDLE_TIMEOUT_MS" c in
  let? c := from_u64 cli max_connection_secs "OXO_EDGE_MAX_CONNECTION_SECS" c in
  let? c := from_u64 cli long_lived_max_connections "OXO_EDGE_LONG_LIVED_MAX_CONNECTIONS" c in
  let? c := from_u64 cli long_lived_max_buffered_bytes "OXO_EDGE_LONG_LIVED_MAX_BUFFERED_BYTES" c in
  from_u64 cli long_lived_downstream_write_timeout_ms "OXO_EDGE_LONG_LIVED_DOWNSTREAM_WRITE_TIMEOUT_MS" c.
Definition cidrs_ignored (c : EdgeCliConfig) : bool :=
  bool_decide (is_Some (texts c !! public_mode)) && negb (length (repeated_of (lists c) trusted_proxy_cidrs) =? 0)%nat &&
  negb (match texts c !! public_identity with Some i => eq_bytes i (bs "trusted-proxy") | None => false end).
Definition resolve_edge_cli (sockets : list bytes) (edge_bind : SocketAddr) (cli : EdgeCliConfig) (edge_drain_grace_ms : Z) : result conf_error EdgeCliConfig :=
  let? c := resolve_listener sockets edge_bind cli edge_drain_grace_ms in
  let? c := resolve_acme cli c in
  let? c := resolve_serving cli c in
  let? c := resolve_limits cli c in
  if cidrs_ignored c then Err (ConfInvalid "OXO_EDGE_TRUSTED_PROXY_CIDRS") else Ok c.
Definition collect_edge_args (sockets : list bytes) (edge_bind : SocketAddr) (cli : EdgeCliConfig) (edge_drain_grace_ms : Z) : result conf_error (list bytes) :=
  let? c := resolve_edge_cli sockets edge_bind cli edge_drain_grace_ms in Ok (to_edge_args c).

(** [collect_edge_env], without the variables of the timing and benchmark builds.
    [env::var]: a variable that is not UTF-8 is not forwarded. *)
Definition forwarded_var (name : string) : list (string * bytes) :=
  match getenv name with Some v => if utf8 v then [(name, v)] else [] | None => [] end.
Definition collect_edge_env (is_async : bool) : list (string * bytes) :=
  forwarded_var "OXO_WORKER_DISPATCH" ++ forwarded_var "OXO_EDGE_WORKER_CAP" ++ forwarded_var "OXO_HOP_REAPER" ++
  forwarded_var "OXO_EDGE_FRAME_POOL_IDLE" ++ (if is_async then [("OXO_WORKER_KIND"%string, bs "async")] else []).
End Conf.

(** ** What the resolved configuration holds *)

Lemma env_with_ok {A} getenv name (parse : bytes -> option A) o :
  env_with getenv name parse = Ok o -> forall a, o = Some a -> exists v, utf8 v = true /\ trim v <> [] /\ parse v = Some a.
Proof.
  unfold env_with. destruct (getenv name) as [v|]; [|intros [= <-]; discriminate]. destruct (utf8 v) eqn:U; [|discriminate]. cbn [negb].
  unfold is_empty. destruct (trim v) as [|x t] eqn:T; cbn [length Nat.eqb]; [intros [= <-]; discriminate|].
  destruct (parse v) as [a|] eqn:P; [|discriminate]. intros [= <-] a' [= <-]. exists v. split; [exact U|]. rewrite T. split; [discriminate | exact P].
Qed.
Lemma env_u64_ok getenv name o : optional_u64_env getenv name = Ok o -> forall n, o = Some n -> 0 <= n <= u64_max.
Proof. intros E n En. destruct (env_with_ok _ _ _ _ E n En) as (v & _ & _ & P). eapply parse_uint_range; [|exact P]. discriminate. Qed.
Lemma env_u16_ok getenv name o : optional_u16_env getenv name = Ok o -> forall n, o = Some n -> 0 <= n <= u16_max.
Proof. intros E n En. destruct (env_with_ok _ _ _ _ E n En) as (v & _ & _ & P). eapply parse_uint_range; [|exact P]. discriminate. Qed.
Lemma env_text_ok getenv name o : optional_string_env getenv name = Ok o -> forall s, o = Some s -> text_ok s.
Proof. intros E s Es. destruct (env_with_ok _ _ _ _ E s Es) as (v & U & T & [= <-]). split; assumption. Qed.
Lemma env_addr_ok getenv name o : optional_socket_addr_env getenv name = Ok o -> forall a, o = Some a -> socket_wf a.
Proof. intros E a Ea. destruct (env_with_ok _ _ _ _ E a Ea) as (v & _ & _ & P). eapply parse_socket_addr_wf, P. Qed.
Lemma items_ok sep v : is_cont sep = false -> bz sep < 128 -> utf8 v = true -> Forall text_ok (list_items sep v).
Proof.
  intros Nc As U. apply List.Forall_forall. intros p I. apply filter_In in I as [I Ne]. apply in_map_iff in I as (q & <- & I).
  pose proof (proj1 (List.Forall_forall _ _) (split_byte_utf8 sep v Nc As U) _ I) as Uq. split; [apply trim_utf8, Uq|].
  rewrite trim_trim. intros E. rewrite E in Ne. discriminate.
Qed.

Lemma assign_wf {K V} `{Countable K} (P : K -> V -> Prop) (k : K) (o : option V) (m : gmap K V) :
  (forall v, o = Some v -> P k v) -> map_Forall P m -> map_Forall P (assign k o m).
Proof.
  intros Hk Hm j v E. unfold assign in E. destruct (decide (k = j)) as [->|Ne]; [rewrite lookup_partial_alter_eq in E; auto | rewrite lookup_partial_alter_ne in E by exact Ne; apply Hm, E].
Qed.
Lemma or_else_some {A} (P : A -> Prop) (o p : option A) : (forall a, o = Some a -> P a) -> (forall a, p = Some a -> P a) -> forall a, or_else o p = Some a -> P a.
Proof. intros Ho Hp a. destruct o; cbn; auto. Qed.

Section Steps.
Variable getenv : string -> option bytes.
Variable cli : EdgeCliConfig.
Hypothesis Wcli : cli_wf cli.

(** Each statement of the resolution keeps the configuration well formed. *)
Definition keeps_wf (step : EdgeCliConfig -> result conf_error EdgeCliConfig) : Prop := forall c c', step c = Ok c' -> cli_wf c -> cli_wf c'.
Lemma keeps_u64 f name : num_max f = u64_max -> keeps_wf (from_u64 getenv cli f name).
Proof.
  intros M c c' E [Wn Wt Wb Wl]. unfold from_u64 in E. destruct (optional_u64_env getenv name) as [o|] eqn:O; [|discriminate]. injection E as <-.
  split; cbn; try assumption. apply assign_wf; [|exact Wn]. rewrite M. apply or_else_some; [|apply (env_u64_ok _ _ _ O)].
  intros n En. rewrite <- M. apply (wf_nums _ Wcli _ _ En).
Qed.
Lemma keeps_u16 name : keeps_wf (from_u16 getenv cli public_origin_port name).
Proof.
  intros c c' E [Wn Wt Wb Wl]. unfold from_u16 in E. destruct (optional_u16_env getenv name) as [o|] eqn:O; [|discriminate]. injection E as <-.
  split; cbn; try assumption. apply assign_wf; [|exact Wn]. apply or_else_some; [|apply (env_u16_ok _ _ _ O)]. intros n En. apply (wf_nums _ Wcli _ _ En).
Qed.
Lemma keeps_text f name : keeps_wf (from_text getenv cli f name).
Proof.
  intros c c' E [Wn Wt Wb Wl]. unfold from_text in E. destruct (optional_string_env getenv name) as [o|] eqn:O; [|discriminate]. injection E as <-.
  split; cbn; try assumption. apply assign_wf; [|exact Wt]. apply or_else_some; [|apply (env_text_ok _ _ _ O)]. intros n En. apply (wf_texts _ Wcli _ _ En).
Qed.
Lemma keeps_addr f name : keeps_wf (from_addr getenv cli f name).
Proof.
  intros c c' E [Wn Wt Wb Wl]. unfold from_addr in E. destruct (optional_socket_addr_env getenv name) as [o|] eqn:O; [|discriminate]. injection E as <-.
  split; cbn; try assumption. apply assign_wf; [|exact Wb]. apply or_else_some; [|apply (env_addr_ok _ _ _ O)]. intros n En. apply (wf_binds _ Wcli _ _ En).
Qed.
Lemma keeps_addr2 f name name2 : keeps_wf (from_addr2 getenv cli f name name2).
Proof.
  intros c c' E [Wn Wt Wb Wl]. unfold from_addr2 in E. destruct (optional_socket_addr_env getenv name) as [o|] eqn:O; [|discriminate]. cbn [rbind] in E.
  destruct (optional_socket_addr_env getenv name2) as [o2|] eqn:O2; [|discriminate]. injection E as <-.
  split; cbn; try assumption. apply assign_wf; [|exact Wb]. apply or_else_some; [apply or_else_some; [|apply (env_addr_ok _ _ _ O)] | apply (env_addr_ok _ _ _ O2)].
  intros n En. apply (wf_binds _ Wcli _ _ En).
Qed.
Lemma keeps_bool f name : keeps_wf (from_bool getenv cli f name).
Proof. intros c c' E [Wn Wt Wb Wl]. unfold from_bool in E. destruct (optional_bool_env getenv name) as [o|]; [|discriminate]. injection E as <-. split; assumption. Qed.
Lemma keeps_os_path f name : keeps_wf (from_os_path getenv cli f name).
Proof. intros c c' E [Wn Wt Wb Wl]. injection E as <-. split; assumption. Qed.
Lemma keeps_text_path f name : keeps_wf (from_text_path getenv cli f name).
Proof. intros c c' E [Wn Wt Wb Wl]. unfold from_text_path in E. destruct (optional_string_env getenv name) as [o|]; [|discriminate]. injection E as <-. split; assumption. Qed.
Lemma keeps_switch f name : keeps_wf (from_switch getenv cli f name).
Proof.
  intros c c' E [Wn Wt Wb Wl]. unfold from_switch in E. destruct (decide (f ∈ switches cli)); [injection E as <-; split; assumption|].
  destruct (optional_bool_env getenv name) as [[[]|]|]; [| | |discriminate]; injection E as <-; split; assumption.
Qed.
Lemma repeated_push f vs m g : repeated_of (push_to f vs m) g = repeated_of m g ++ if decide (g = f) then vs else [].
Proof. destruct g; reflexivity. Qed.
Lemma keeps_list f sep name : f <> worker_sockets -> is_cont sep = false -> bz sep < 128 -> keeps_wf (from_list getenv cli f sep name).
Proof.
  intros Nf Nc As c c' E [Wn Wt Wb Wl]. unfold from_list in E.
  assert (exists vs, c' = upd_lists (push_to f vs) c /\ Forall text_ok vs) as (vs & -> & Vs).
  { pose proof (wf_lists _ Wcli f Nf) as F. destruct (repeated_of (lists cli) f) as [|v vs]; [|injection E as <-; exists (v :: vs); split; [reflexivity | exact F]].
    destruct (optional_string_env getenv name) as [o|] eqn:O; [|discriminate]. injection E as <-. eexists. split; [reflexivity|].
    destruct o as [v|]; [|constructor]. apply items_ok; [exact Nc | exact As|]. apply (env_text_ok _ _ _ O v eq_refl). }
  split; cbn; try assumption. intros g Ng. rewrite repeated_push. apply Forall_app. split; [apply Wl, Ng|]. case_decide; [exact Vs | constructor].
Qed.
Lemma keeps_then (s1 s2 : EdgeCliConfig -> result conf_error EdgeCliConfig) : keeps_wf s1 -> keeps_wf s2 -> keeps_wf (fun c => rbind (s1 c) s2).
Proof. intros K1 K2 c c' E W. apply rbind_ok in E as (c1 & E1 & E2). eapply K2; [exact E2|]. eapply K1; eassumption. Qed.
End Steps.
Create HintDb conf.
#[export] Hint Resolve keeps_u64 keeps_u16 keeps_text keeps_addr keeps_addr2 keeps_bool keeps_os_path keeps_text_path keeps_switch keeps_list : conf.

(** The variable each field can come from; [None]: no variable is consulted. *)
Definition num_var (f : num_field) : option string :=
  match f with
  | max_body_bytes => Some "OXO_EDGE_MAX_BODY" | public_origin_port => Some "OXO_EDGE_PUBLIC_ORIGIN_PORT"
  | max_in_flight_per_identity => Some "OXO_EDGE_MAX_IN_FLIGHT_PER_IDENTITY" | max_in_flight_requests => Some "OXO_EDGE_MAX_IN_FLIGHT_REQUESTS"
  | header_read_timeout_ms => Some "OXO_EDGE_HEADER_READ_TIMEOUT_MS" | keepalive_idle_timeout_ms => Some "OXO_EDGE_KEEPALIVE_IDLE_TIMEOUT_MS"
  | max_connection_secs => Some "OXO_EDGE_MAX_CONNECTION_SECS" | long_lived_max_connections => Some "OXO_EDGE_LONG_LIVED_MAX_CONNECTIONS"
  | long_lived_max_buffered_bytes => Some "OXO_EDGE_LONG_LIVED_MAX_BUFFERED_BYTES"
  | long_lived_downstream_write_timeout_ms => Some "OXO_EDGE_LONG_LIVED_DOWNSTREAM_WRITE_TIMEOUT_MS"
  | max_requests_per_connection => Some "OXO_EDGE_MAX_REQUESTS_PER_CONNECTION" | h2_max_concurrent_streams => Some "OXO_EDGE_H2_MAX_CONCURRENT_STREAMS"
  | h2_max_reset_streams => Some "OXO_EDGE_H2_MAX_RESET_STREAMS" | edge_threads => Some "OXO_EDGE_THREADS" | listener_tasks => Some "OXO_EDGE_LISTENER_TASKS"
  | drain_grace_ms | worker_cap => None
  end%string.
Definition text_var (f : text_field) : option string :=
  match f with
  | fqdn => Some "OXO_EDGE_SERVER_NAME" | acme_directory_url => Some "OXO_EDGE_ACME_DIRECTORY_URL" | public_mode => Some "OXO_EDGE_PUBLIC_MODE"
  | public_identity => Some "OXO_EDGE_PUBLIC_IDENTITY" | request_log => Some "OXO_EDGE_REQUEST_LOG" | worker_hop => Some "OXO_EDGE_WORKER_HOP"
  | worker_dispatch => None
  end%string.
Definition tri_var (f : tri_field) : string :=
  match f with tls_h2 => "OXO_EDGE_TLS_H2" | sse_enabled => "OXO_EDGE_SSE" | keepalive_enabled => "OXO_EDGE_KEEPALIVE" | prod_enabled => "OXO_EDGE_PROD" end.
Definition list_var (f : list_field) : option (byte * string) :=
  match f with
  | worker_sockets => None | acme_contacts => Some (zb 44, "OXO_EDGE_ACME_CONTACTS"%string)
  | trusted_proxy_cidrs => Some (zb 44, "OXO_EDGE_TRUSTED_PROXY_CIDRS"%string) | static_mounts => Some (zb 59, "OXO_EDGE_STATIC_MOUNTS"%string)
  end.
Definition text_path_var (f : path_field) : option string :=
  match f with static_rails_preset => Some "OXO_EDGE_STATIC_RAILS_PRESET" | serve_rails => Some "OXO_EDGE_SERVE_RAILS" | _ => None end%string.
(** The switches that have a variable; whether to check only, and the consent to the
    production directory, are not forwarded. *)
Definition switch_var (f : switch_field) : option string :=
  match f with
  | acme_issue_once => Some "OXO_EDGE_ACME_ISSUE_ONCE" | acme_renew_once => Some "OXO_EDGE_ACME_RENEW_ONCE" | acme_accept_terms => Some "OXO_EDGE_ACME_ACCEPT_TERMS"
  | check_config | acme_allow_production_directory => None
  end%string.
(** The sidecar addresses: a variable of the edge's own, else the sidecar's. *)
Definition sidecar_vars (f : bind_field) : option (string * string) :=
  match f with
  | action_cable_bind => Some ("OXO_EDGE_ACTION_CABLE_BIND", "OXO_CABLE_BIND") | grpc_bind => Some ("OXO_EDGE_GRPC_BIND", "OXO_GRPC_BIND") | _ => None
  end%string.
Definition read_num (getenv : string -> option bytes) (f : num_field) (name : string) : result conf_error (option Z) :=
  match f with public_origin_port => optional_u16_env getenv name | _ => optional_u64_env getenv name end.

(** The fields of a resolved configuration [c]. *)
Record forwarded (getenv : string -> option bytes) (sockets : list bytes) (bind : SocketAddr) (grace : Z) (cli c : EdgeCliConfig) (tls : bool) : Prop := {
  fw_num : forall f name, num_var f = Some name -> exists e, read_num getenv f name = Ok e /\ nums c !! f = or_else (nums cli !! f) e;
  fw_grace : nums c !! drain_grace_ms = Some grace;
  fw_text : forall f name, text_var f = Some name -> exists e, optional_string_env getenv name = Ok e /\ texts c !! f = or_else (texts cli !! f) e;
  fw_tri : forall f, f <> tls_h2 \/ tls = true -> exists e, optional_bool_env getenv (tri_var f) = Ok e /\ tris c !! f = or_else (tris cli !! f) e;
  fw_tls_paths : paths c !! tls_cert = (if tls then or_else (paths cli !! tls_cert) (optional_path getenv "OXO_EDGE_TLS_CERT") else None) /\
                 paths c !! tls_key = (if tls then or_else (paths cli !! tls_key) (optional_path getenv "OXO_EDGE_TLS_KEY") else None);
  fw_state_path : paths c !! acme_state_path = or_else (paths cli !! acme_state_path) (optional_path getenv "OXO_EDGE_ACME_STATE_PATH");
  fw_text_path : forall f name, text_path_var f = Some name -> exists e, optional_string_env getenv name = Ok e /\ paths c !! f = or_else (paths cli !! f) e;
  fw_admin : exists e, optional_socket_addr_env getenv "OXO_EDGE_ADMIN_BIND" = Ok e /\ binds c !! admin_bind = or_else (binds cli !! admin_bind) e;
  fw_sidecar : forall f name name2, sidecar_vars f = Some (name, name2) ->
    exists e e2, optional_socket_addr_env getenv name = Ok e /\ optional_socket_addr_env getenv name2 = Ok e2 /\ binds c !! f = or_else (or_else (binds cli !! f) e) e2;
  fw_switch : forall f name, switch_var f = Some name -> f ∈ switches c <-> f ∈ switches cli \/ optional_bool_env getenv name = Ok (Some true);
  fw_plain : tls = false -> tris c !! tls_h2 = None;
  fw_bind : binds c !! https_bind = (if tls then Some bind else None) /\ binds c !! http_bind = (if tls then None else Some bind);
  fw_sockets : repeated_of (lists c) worker_sockets = sockets;
  fw_list : forall f sep name, list_var f = Some (sep, name) -> repeated_of (lists cli) f <> [] -> repeated_of (lists c) f = repeated_of (lists cli) f;
  fw_items : forall f sep name, list_var f = Some (sep, name) -> repeated_of (lists cli) f = [] ->
    exists e, optional_string_env getenv name = Ok e /\ repeated_of (lists c) f = match e with Some v => list_items sep v | None => [] end;
}.
Lemma u64_step getenv cli f name c c' : from_u64 getenv cli f name c = Ok c' -> exists e, optional_u64_env getenv name = Ok e /\ c' = upd_nums (assign f (or_else (nums cli !! f) e)) c.
Proof. unfold from_u64. destruct (optional_u64_env getenv name); [|discriminate]. intros [= <-]. eauto. Qed.
Lemma u16_step getenv cli f name c c' : from_u16 getenv cli f name c = Ok c' -> exists e, optional_u16_env getenv name = Ok e /\ c' = upd_nums (assign f (or_else (nums cli !! f) e)) c.
Proof. unfold from_u16. destruct (optional_u16_env getenv name); [|discriminate]. intros [= <-]. eauto. Qed.
Lemma text_step getenv cli f name c c' : from_text getenv cli f name c = Ok c' -> exists e, optional_string_env getenv name = Ok e /\ c' = upd_texts (assign f (or_else (texts cli !! f) e)) c.
Proof. unfold from_text. destruct (optional_string_env getenv name); [|discriminate]. intros [= <-]. eauto. Qed.
Lemma bool_step getenv cli f name c c' : from_bool getenv cli f name c = Ok c' -> exists e, optional_bool_env getenv name = Ok e /\ c' = upd_tris (assign f (or_else (tris cli !! f) e)) c.
Proof. unfold from_bool. destruct (optional_bool_env getenv name); [|discriminate]. intros [= <-]. eauto. Qed.
Lemma os_path_step getenv cli f name c c' : from_os_path getenv cli f name c = Ok c' -> c' = upd_paths (assign f (or_else (paths cli !! f) (optional_path getenv name))) c.
Proof. intros [= <-]. reflexivity. Qed.
Lemma text_path_step getenv cli f name c c' : from_text_path getenv cli f name c = Ok c' -> exists e, optional_string_env getenv name = Ok e /\ c' = upd_paths (assign f (or_else (paths cli !! f) e)) c.
Proof. unfold from_text_path. destruct (optional_string_env getenv name); [|discriminate]. intros [= <-]. eauto. Qed.
Lemma addr_step getenv cli f name c c' : from_addr getenv cli f name c = Ok c' -> exists e, optional_socket_addr_env getenv name = Ok e /\ c' = upd_binds (assign f (or_else (binds cli !! f) e)) c.
Proof. unfold from_addr. destruct (optional_socket_addr_env getenv name); [|discriminate]. intros [= <-]. eauto. Qed.
Lemma addr2_step getenv cli f name name2 c c' : from_addr2 getenv cli f name name2 c = Ok c' ->
  exists e e2, optional_socket_addr_env getenv name = Ok e /\ optional_socket_addr_env getenv name2 = Ok e2 /\ c' = upd_binds (assign f (or_else (or_else (binds cli !! f) e) e2)) c.
Proof.
  unfold from_addr2. destruct (optional_socket_addr_env getenv name); [|discriminate]. cbn [rbind].
  destruct (optional_socket_addr_env getenv name2); [|discriminate]. intros [= <-]. eauto 6.
Qed.
Lemma switch_step getenv cli f name c c' : from_switch getenv cli f name c = Ok c' ->
  exists b : bool, (b = true <-> f ∈ switches cli \/ optional_bool_env getenv name = Ok (Some true)) /\ c' = upd_switches (fun m => if b then {[f]} ∪ m else m) c.
Proof.
  unfold from_switch. destruct (decide (f ∈ switches cli)); [intros [= <-]; exists true; split; [tauto | reflexivity]|].
  destruct (optional_bool_env getenv name) as [[[]|]|]; [| | |discriminate]; cbn; intros [= <-]; [exists true; split; [tauto | reflexivity] | |];
    (exists false; split; [split; [discriminate | intros [H|H]; [contradiction | discriminate]] | destruct c; reflexivity]).
Qed.
Lemma list_step getenv cli f sep name c c' : from_list getenv cli f sep name c = Ok c' -> exists vs, c' = upd_lists (push_to f vs) c /\
  (repeated_of (lists cli) f <> [] -> vs = repeated_of (lists cli) f) /\
  (repeated_of (lists cli) f = [] -> exists e, optional_string_env getenv name = Ok e /\ vs = match e with Some v => list_items sep v | None => [] end).
Proof.
  unfold from_list. destruct (repeated_of (lists cli) f) as [|v vs].
  - destruct (optional_string_env getenv name) as [e|]; [|discriminate]. intros [= <-]. eexists. split; [reflexivity|]. split; [contradiction | eauto].
  - intros [= <-]. eexists. split; [reflexivity|]. split; [reflexivity | discriminate].
Qed.

Ltac split_steps E := repeat match type of E with rbind _ _ = Ok _ => apply rbind_ok in E as (? & ? & E) end.
Ltac run_step :=
  match goal with
  | S : from_u64 _ _ _ _ _ = Ok _ |- _ => apply u64_step in S as (? & ? & ->)
  | S : from_u16 _ _ _ _ _ = Ok _ |- _ => apply u16_step in S as (? & ? & ->)
  | S : from_text _ _ _ _ _ = Ok _ |- _ => apply text_step in S as (? & ? & ->)
  | S : from_bool _ _ _ _ _ = Ok _ |- _ => apply bool_step in S as (? & ? & ->)
  | S : from_os_path _ _ _ _ _ = Ok _ |- _ => apply os_path_step in S as ->
  | S : from_text_path _ _ _ _ _ = Ok _ |- _ => apply text_path_step in S as (? & ? & ->)
  | S : from_addr _ _ _ _ _ = Ok _ |- _ => apply addr_step in S as (? & ? & ->)
  | S : from_addr2 _ _ _ _ _ _ = Ok _ |- _ => apply addr2_step in S as (? & ? & ? & ? & ->)
  | S : from_switch _ _ _ _ _ = Ok _ |- _ => apply switch_step in S as (? & ? & ->)
  | S : from_list _ _ _ _ _ _ = Ok _ |- _ => apply list_step in S as (? & -> & ? & ?)
  end.
Ltac field_at :=
  cbn [nums texts paths binds tris switches lists upd_nums upd_texts upd_paths upd_binds upd_tris upd_switches upd_lists cli_default];
  unfold assign;
  repeat first [rewrite lookup_partial_alter_ne by discriminate | rewrite lookup_partial_alter_eq | rewrite lookup_insert_ne by discriminate | rewrite lookup_insert_eq | rewrite lookup_empty].
Ltac list_at :=
  cbn [nums texts paths binds tris switches lists upd_nums upd_texts upd_paths upd_binds upd_tris upd_switches upd_lists cli_default];
  rewrite !repeated_push; repeat first [rewrite decide_True by reflexivity | rewrite decide_False by discriminate]; cbn [repeated_of app
    r_worker_sockets r_acme_contacts r_trusted_proxy_cidrs r_static_mounts]; rewrite ?app_nil_r; cbn [app].
Ltac switches_at := cbn [switches upd_nums upd_texts upd_paths upd_binds upd_tris upd_switches upd_lists cli_default].
Lemma switch_here (b : bool) (f : switch_field) (m : gset switch_field) (P : Prop) : (b = true <-> P) -> f ∉ m -> f ∈ (if b then {[f]} ∪ m else m) <-> P.
Proof. intros B N. destruct b; [rewrite elem_of_union, elem_of_singleton; tauto|]. split; [contradiction | intros H; apply B in H; discriminate]. Qed.
Lemma switch_elsewhere (b : bool) (f g : switch_field) (m : gset switch_field) : f <> g -> f ∈ (if b then {[g]} ∪ m else m) <-> f ∈ m.
Proof. intros N. destruct b; [rewrite elem_of_union, elem_of_singleton; tauto | tauto]. Qed.
Ltac switch_absent := switches_at; rewrite ?switch_elsewhere by discriminate; apply not_elem_of_empty.
Ltac switch_at := switches_at; rewrite ?switch_elsewhere by discriminate; apply switch_here; [assumption | switch_absent].
Section Resolved.
Variable getenv : string -> option bytes.
Variables (sockets : list bytes) (bind : SocketAddr) (cli : EdgeCliConfig) (grace : Z).

Lemma resolved_fields c : resolve_edge_cli getenv sockets bind cli grace = Ok c ->
  exists tls, edge_uses_tls getenv cli = Ok tls /\ forwarded getenv sockets bind grace cli c tls /\
    nums c !! worker_cap = None /\ texts c !! worker_dispatch = None /\ (acme_allow_production_directory ∉ switches c) /\ (check_config ∉ switches c).
Proof.
  intros E. unfold resolve_edge_cli in E. apply rbind_ok in E as (c1 & E1 & E). apply rbind_ok in E as (c2 & E2 & E).
  apply rbind_ok in E as (c3 & E3 & E). apply rbind_ok in E as (c4 & E4 & E). destruct (cidrs_ignored c4); [discriminate|]. injection E as <-.
  unfold resolve_listener in E1. apply rbind_ok in E1 as (tls & T & E1). cbv zeta in E1. split_steps E1.
  unfold resolve_acme in E2. split_steps E2. unfold resolve_serving in E3. split_steps E3. unfold resolve_limits in E4. split_steps E4.
  exists tls. split; [exact T|]. clear T.
  assert (forwarded getenv sockets bind grace cli c4 tls /\ nums c4 !! worker_cap = None /\ texts c4 !! worker_dispatch = None /\
          (acme_allow_production_directory ∉ switches c4) /\ (check_config ∉ switches c4)) as R; [|exact R].
  destruct tls; [split_steps E1 | injection E1 as <-]; repeat run_step;
    (split; [split|]; [
      intros [] name [= <-]; eexists; (split; [eassumption|]); field_at; reflexivity
    | field_at; reflexivity
    | intros [] name [= <-]; eexists; (split; [eassumption|]); field_at; reflexivity
    | intros [] [N|N]; try contradiction; try discriminate; eexists; (split; [eassumption|]); field_at; reflexivity
    | split; field_at; reflexivity
    | field_at; reflexivity
    | intros [] name [= <-]; eexists; (split; [eassumption|]); field_at; reflexivity
    | eexists; (split; [eassumption|]); field_at; reflexivity
    | intros [] name name2 [= <- <-]; eexists _, _; (split; [eassumption|]); (split; [eassumption|]); field_at; reflexivity
    | intros [] name [= <-]; switch_at
    | intros Pl; try discriminate; field_at; reflexivity
    | split; field_at; reflexivity
    | list_at; reflexivity
    | intros [] sep name [= <- <-] Ne; list_at; auto
    | intros [] sep name [= <- <-] Ne; list_at; auto
    | split; [field_at; reflexivity | split; [field_at; reflexivity | split; switch_absent]]]).
Qed.
End Resolved.

Ltac wf_step :=
  match goal with
  | S : ?step ?c = Ok ?c', W : cli_wf ?c |- _ =>
      assert (cli_wf c') by (refine ((_ : keeps_wf step) c c' S W); first [apply keeps_list; [assumption | discriminate | reflexivity | reflexivity] | apply keeps_u64; [assumption | reflexivity] | auto with conf]); clear S W
  end.
Lemma resolved_wf getenv sockets bind cli grace c :
  cli_wf cli -> socket_wf bind -> is_u64 grace -> resolve_edge_cli getenv sockets bind cli grace = Ok c -> cli_wf c.
Proof.
  intros Wc Wb Wg E. unfold resolve_edge_cli in E. apply rbind_ok in E as (c1 & E1 & E). apply rbind_ok in E as (c2 & E2 & E).
  apply rbind_ok in E as (c3 & E3 & E). apply rbind_ok in E as (c4 & E4 & E). destruct (cidrs_ignored c4); [discriminate|]. injection E as <-.
  unfold resolve_listener in E1. apply rbind_ok in E1 as (tls & _ & E1). cbv zeta in E1.
  match type of E1 with rbind (from_u64 _ _ _ _ ?c0) _ = _ => assert (cli_wf c0) as W0 end.
  { split; cbn.
    - apply map_Forall_insert_2; [exact Wg | apply map_Forall_empty].
    - apply map_Forall_empty.
    - apply map_Forall_insert_2; [exact Wb | apply map_Forall_empty].
    - intros [] Ng; [contradiction| | |]; constructor. }
  split_steps E1. unfold resolve_acme in E2. split_steps E2. unfold resolve_serving in E3. split_steps E3. unfold resolve_limits in E4. split_steps E4.
  destruct tls; [split_steps E1 | injection E1 as <-]; repeat wf_step; assumption.
Qed.

(** C23. The edge is told exactly what the supervisor resolved.  For every well-formed command
    line, address and drain window and every environment, when [collect_edge_args] succeeds the
    edge it starts reads its arguments without error.  Each of the 47 settings it then has is
    determined: the numbers, texts, on/off settings, paths, the admin address and the lists are
    those of the command line or else of their variable; the Action Cable and gRPC addresses
    those of the command line, else of the edge's variable, else of the sidecar's; the switches
    for issuing, renewing and accepting the terms are on exactly when the command line or the
    variable says so; the certificate, the key and HTTP/2 are forwarded only with TLS; the
    drain window and the sockets are the given ones and the bind is under the flag for its
    scheme.  The dispatch policy, the per-worker cap, the consent to the production directory
    and the check-only switch of the command line are dropped, whatever their values. *)
Theorem edge_is_told_the_resolved_settings getenv sockets bind cli grace args :
  cli_wf cli -> socket_wf bind -> is_u64 grace ->
  collect_edge_args getenv sockets bind cli grace = Ok args ->
  exists c tls, parse_flags args = Ok c /\ edge_uses_tls getenv cli = Ok tls /\ forwarded getenv sockets bind grace cli c tls /\
    nums c !! worker_cap = None /\ texts c !! worker_dispatch = None /\ (acme_allow_production_directory ∉ switches c) /\ (check_config ∉ switches c).
Proof.
  intros Wc Wb Wg E. apply rbind_ok in E as (c & R & [= <-]). destruct (resolved_fields _ _ _ _ _ _ R) as (tls & T & F & N).
  exists c, tls. split; [apply args_read; eapply resolved_wf; eassumption | auto].
Qed.
Definition demo_cli : EdgeCliConfig := upd_nums <[worker_cap := 2]> cli_default.
Definition demo_env (name : string) : option bytes := if String.eqb name "OXO_EDGE_MAX_BODY" then Some (bs "1024") else None.
Definition demo_bind : SocketAddr := {| sa_ip := V4 2130706433; sa_port := 8080; sa_scope := 0 |}.
Lemma demo_cli_wf : cli_wf demo_cli.
Proof. split; [apply map_Forall_insert_2; [split; vm_compute; discriminate | apply map_Forall_empty] | apply map_Forall_empty | apply map_Forall_empty | intros [] Ng; [contradiction| | |]; constructor]. Qed.
Lemma edge_is_told_the_resolved_settings_witness :
  exists args c, collect_edge_args demo_env [bs "/run/w.sock"] demo_bind demo_cli 2000 = Ok args /\ parse_flags args = Ok c /\
    nums c !! max_body_bytes = Some 1024 /\ nums c !! worker_cap = None.
Proof.
  destruct (collect_edge_args demo_env [bs "/run/w.sock"] demo_bind demo_cli 2000) as [args|] eqn:E; [|vm_compute in E; discriminate].
  destruct (edge_is_told_the_resolved_settings demo_env [bs "/run/w.sock"] demo_bind demo_cli 2000 args demo_cli_wf) as (c & tls & P & _ & F & N & _).
  - split; [split; vm_compute; [discriminate | reflexivity] | split; [split; vm_compute; discriminate | reflexivity]].
  - split; vm_compute; discriminate.
  - exact E.
  - exists args, c. split; [reflexivity|]. split; [exact P|]. split; [|exact N].
    destruct (fw_num _ _ _ _ _ _ _ F max_body_bytes "OXO_EDGE_MAX_BODY" eq_refl) as (e & Re & ->). vm_compute in Re. injection Re as <-. reflexivity.
Defined.

(** ** The drain windows *)

(** A validated configuration never shortens a stage of the drain: when the supervisor
    starts the drain at [t0], the edge's wait is over at [t1] and the sidecars' at [t2], each
    no later than its deadline plus what polling overshoots, and the overshoots together stay
    within the margin the validation leaves, then edge, sidecars and workers each get their
    whole window; and the edge's window is the configured milliseconds rounded up to seconds. *)
Theorem validated_drain_windows_are_whole getenv cli service_grace millis edge_grace worker_wait t0 t1 t2 d1 d2 :
  resolve_edge_drain_grace getenv cli = Ok (millis, edge_grace) -> 0 <= millis <= u64_max - 999 ->
  validate_drain_grace_hierarchy service_grace edge_grace worker_wait = Ok tt -> 0 <= worker_wait ->
  let deadline := t0 + service_grace in
  let edge_deadline := bounded_stage_deadline deadline t0 edge_grace in
  let sidecar_deadline := bounded_stage_deadline deadline t1 SIDECAR_DRAIN_WAIT in
  t1 <= edge_deadline + d1 -> t2 <= sidecar_deadline + d2 -> 0 <= d1 -> 0 <= d2 ->
  d1 + d2 < service_grace - (edge_grace + SIDECAR_DRAIN_WAIT + worker_wait) ->
  edge_deadline = t0 + edge_grace /\ sidecar_deadline = t1 + SIDECAR_DRAIN_WAIT /\
  bounded_stage_deadline deadline t2 worker_wait = t2 + worker_wait /\ millis <= edge_grace < millis + 1000.
Proof.
  intros R Hm V Hw deadline edge_deadline sidecar_deadline T1 T2 D1 D2 Dm.
  assert (millis <= edge_grace < millis + 1000) as Ceil.
  { unfold resolve_edge_drain_grace in R. apply rbind_ok in R as ([nm m] & _ & R). destruct (m =? 0); [discriminate|]. injection R as <- <-.
    replace (saturating_add m 999) with (m + 999) by (unfold saturating_add; lia). pose proof (Z.div_mod (m + 999) 1000 ltac:(lia)).
    pose proof (Z.mod_pos_bound (m + 999) 1000 ltac:(lia)). lia. }
  unfold validate_drain_grace_hierarchy in V. cbv zeta in V. destruct (_ >=? service_grace) eqn:L in V; [discriminate|]. clear V R.
  unfold SIDECAR_DRAIN_WAIT in *. assert (forall now stage, now + stage < deadline -> bounded_stage_deadline deadline now stage = now + stage) as Whole.
  { intros now stage H. unfold bounded_stage_deadline. rewrite (proj2 (Z.ltb_lt _ _) H). reflexivity. }
  assert (edge_deadline = t0 + edge_grace) as E1 by (apply Whole; unfold deadline; lia). rewrite E1 in T1.
  assert (sidecar_deadline = t1 + 1000) as E2 by (apply Whole; unfold deadline; lia). rewrite E2 in T2.
  split; [exact E1|]. split; [exact E2|]. split; [apply Whole; unfold deadline; lia | exact Ceil].
Qed.
Lemma validated_drain_windows_are_whole_witness :
  bounded_stage_deadline (0 + 5000) 3040 1000 = 3040 + 1000.
Proof.
  refine (proj1 (proj2 (proj2 (validated_drain_windows_are_whole (fun _ => None) cli_default 5000 2000 2000 1000 0 2020 3040 20 20 _ _ _ _ _ _ _ _ _))));
    try (vm_compute; reflexivity); vm_compute; intuition discriminate.
Defined.
