(* ===== verification/FsChecks.v ===== *)
(** * FsChecks: paths and the permission checks on them

    Model of [platform/fs_validate.rs] (the worker sockets, their runtime directory and the
    TLS files), of [is_single_ascii_fqdn] of [platform/config.rs], and of [ensure_runtime_dir]
    and [validate_executable] of [service.rs], with what they use of [std::path].  The file
    system is a function from paths to what [fs::symlink_metadata] reports. *)

From S2P Require Import Prelude Text.

(** ** Paths *)

Definition slash : byte := zb 47.
Definition is_absolute (p : bytes) : bool := match p with b :: _ => bool_decide (b = slash) | [] => false end.
Definition full_stop : byte := zb 46.
(** On a reversed path: trailing separators and [.] components are not components. *)
Fixpoint strip_seps (r : bytes) : bytes :=
  match r with
  | [] => []
  | b :: r' =>
      if decide (b = slash) then strip_seps r'
      else match r' with
           | s :: r'' => if decide (b = full_stop /\ s = slash) then strip_seps r'' else r
           | [] => r
           end
  end.
Fixpoint drop_name (r : bytes) : bytes :=
  match r with [] => [] | b :: r' => if decide (b = slash) then r else drop_name r' end.
(** [Path::parent]: [None] for a root and for the empty path. *)
Definition parent (p : bytes) : option bytes :=
  match strip_seps (rev p) with
  | [] => None
  | r => match drop_name r with
         | [] => Some []
         | q => match strip_seps q with [] => Some [slash] | q' => Some (rev q') end
         end
  end.
(** [Path::join] with a relative name. *)
Definition join (p name : bytes) : bytes :=
  match p with [] => name | _ => if ends_with [slash] p then p ++ name else p ++ [slash] ++ name end.
Example parents :
  parent (bs "/run/oxo/w.sock") = Some (bs "/run/oxo") /\ parent (bs "/run//oxo/./w.sock/") = Some (bs "/run//oxo") /\
  parent (bs "/w.sock") = Some (bs "/") /\ parent (bs "/") = None /\ parent (bs "w.sock") = Some [] /\ parent [] = None.
Proof. vm_compute. repeat split. Qed.

Lemma join_inj d x y : join d x = join d y -> x = y.
Proof. unfold join. destruct d as [|b d]; [auto|]. destruct (ends_with _ _); intros E; repeat (apply app_inv_head in E); exact E. Qed.

(** ** The checks of the edge *)

Inductive file_type : Type := Symlink | Dir | Regular | Socket | OtherFile.
(** [fs::symlink_metadata]: found, not there, or another error. *)
Inductive stat : Type := Found (t : file_type) (mode : Z) | NotFound | StatFails.
Definition perm (mode : Z) : Z := Z.land mode 511.

Inductive fs_error : Type :=
| WorkerSocketMustBeAbsolute | WorkerSocketMissingParent
| RuntimeDirUnavailable | RuntimeDirSymlink | RuntimeDirNotDirectory | RuntimeDirMode (mode : Z)
| WorkerSocketUnavailable | WorkerSocketSymlink | WorkerSocketNotSocket | WorkerSocketMode (mode : Z)
| TlsFileUnavailable | TlsFileSymlink | TlsFileNotFile | TlsPrivateKeyMode (mode : Z).

Section Fs.
Variable lstat : bytes -> stat.

Definition validate_runtime_dir (path : bytes) : result fs_error unit :=
  match lstat path with
  | NotFound | StatFails => Err RuntimeDirUnavailable
  | Found Symlink _ => Err RuntimeDirSymlink
  | Found Dir m => if perm m =? 448 then Ok tt else Err (RuntimeDirMode (perm m))
  | Found _ _ => Err RuntimeDirNotDirectory
  end.
Definition validate_socket_if_present (path : bytes) : result fs_error unit :=
  match lstat path with
  | NotFound => Ok tt
  | StatFails => Err WorkerSocketUnavailable
  | Found Symlink _ => Err WorkerSocketSymlink
  | Found Socket m => if perm m =? 384 then Ok tt else Err (WorkerSocketMode (perm m))
  | Found _ _ => Err WorkerSocketNotSocket
  end.
Definition validate_worker_socket_path (path : bytes) : result fs_error unit :=
  if negb (is_absolute path) then Err WorkerSocketMustBeAbsolute
  else match parent path with
       | None | Some [] => Err WorkerSocketMissingParent
       | Some dir => let? _ := validate_runtime_dir dir in validate_socket_if_present path
       end.
Definition validate_tls_file (path : bytes) (private_key : bool) : result fs_error unit :=
  match lstat path with
  | NotFound | StatFails => Err TlsFileUnavailable
  | Found Symlink _ => Err TlsFileSymlink
  | Found Regular m => if private_key && negb (Z.land (perm m) 63 =? 0) then Err (TlsPrivateKeyMode (perm m)) else Ok tt
  | Found _ _ => Err TlsFileNotFile
  end.

(** ** The checks of the supervisor *)

(** [fs::metadata] follows links, [Path::exists] is whether it succeeds.  A directory that
    has to be created is created with mode 0700, which [creates] lets succeed or not. *)
Variable fstat : bytes -> stat.
Variable creates : bytes -> bool.

Inductive runtime_dir : Type := WouldCreate | Created | Verified.
Definition ensure_runtime_dir (worker_socket : bytes) (check_config : bool) : option runtime_dir :=
  match parent worker_socket with
  | None | Some [] => None
  | Some dir =>
      match fstat dir with
      | NotFound | StatFails => if check_config then Some WouldCreate else if creates dir then Some Created else None
      | Found Dir m => if Z.land (perm m) 63 =? 0 then Some Verified else None
      | Found _ _ => None
      end
  end.

Inductive binary_error : Type := BinaryPathMustBeAbsolute | BinaryUnavailable | BinaryNotFile | BinaryWritableByGroupOrOther (mode : Z).
Definition validate_executable (path : bytes) : result binary_error unit :=
  if negb (is_absolute path) then Err BinaryPathMustBeAbsolute
  else match fstat path with
       | NotFound | StatFails => Err BinaryUnavailable
       | Found Regular m =>
           if starts_with (bs "/mnt/") path then Ok tt
           else if negb (Z.land (perm m) 18 =? 0) then Err (BinaryWritableByGroupOrOther (perm m)) else Ok tt
       | Found _ _ => Err BinaryNotFile
       end.
End Fs.

(** ** Server names *)

Definition label_ok (l : bytes) : bool :=
  negb (length l =? 0)%nat && (zlen l <=? 63) && negb (match l with b :: _ => bz b =? 45 | [] => false end) &&
  negb (match rev l with b :: _ => bz b =? 45 | [] => false end) && forallb (fun b => is_ascii_alphanumeric b || (bz b =? 45)) l.
Definition is_single_ascii_fqdn (value : bytes) : bool :=
  let name := trim_end_by (fun b => bz b =? 46) value in
  negb ((length name =? 0)%nat || (zlen name >? 253) || negb (forallb (fun b => bz b <? 128) name) || contains_byte (zb 58) name || contains_byte (zb 42) name) &&
  (forallb label_ok (split_byte (zb 46) name) && (2 <=? length (split_byte (zb 46) name))%nat).

(** What the check is about, said without it: labels of 1 to 63 letters, digits and hyphens that
    neither start nor end with a hyphen, at least two of them, joined by dots to at most 253
    bytes, with any number of dots after them.  Digits are allowed everywhere, so a dotted IPv4
    address has this shape too. *)
Definition dns_hyphen : byte := zb 45.
Definition dns_dot : byte := zb 46.
Definition dns_label (l : bytes) : Prop :=
  1 <= zlen l <= 63 /\ Forall (fun b => is_ascii_alphanumeric b = true \/ b = dns_hyphen) l /\ hd_error l <> Some dns_hyphen /\ hd_error (rev l) <> Some dns_hyphen.
Fixpoint dotted (labels : list bytes) : bytes :=
  match labels with [] => [] | [l] => l | l :: ls => l ++ dns_dot :: dotted ls end.
Definition dns_name (value : bytes) : Prop :=
  exists labels dots, value = dotted labels ++ dots /\ Forall (eq dns_dot) dots /\ (2 <= length labels)%nat /\ Forall dns_label labels /\ zlen (dotted labels) <= 253.
Lemma dotted_split s : dotted (split_byte dns_dot s) = s.
Proof.
  induction s as [|x s IH]; [reflexivity|]. cbn [split_byte]. destruct (decide (x = dns_dot)) as [->|Ne].
  - destruct (split_byte dns_dot s) as [|p ps] eqn:E; [destruct s as [|y s]; cbn in E; [discriminate | destruct (decide _); [discriminate | destruct (split_byte dns_dot s); discriminate]]|].
    cbn [dotted app]. f_equal. exact IH.
  - destruct (split_byte dns_dot s) as [|p ps]; [cbn in IH; subst s; reflexivity|]. destruct ps as [|q ps]; cbn in IH |- *; congruence.
Qed.
Lemma trim_end_rest f s : exists rest, s = trim_end_by f s ++ rest /\ Forall (fun b => f b = true) rest.
Proof.
  unfold trim_end_by. assert (forall r, exists t, r = t ++ trim_start_by f r /\ Forall (fun b => f b = true) t) as T.
  { induction r as [|b r (t & E & F)]; [exists []; auto|]. cbn [trim_start_by]. destruct (f b) eqn:Fb; [|exists []; auto]. exists (b :: t). cbn. split; [congruence | auto]. }
  destruct (T (rev s)) as (t & E & F). exists (rev t). split; [|apply Forall_rev, F]. rewrite <- rev_app_distr, <- E, rev_involutive. reflexivity.
Qed.
Lemma bz_is b n : 0 <= n < 256 -> (bz b =? n) = true -> b = zb n.
Proof. intros R E. apply Z.eqb_eq in E. rewrite <- E. symmetry. apply zb_bz. Qed.
Lemma label_ok_dns l : label_ok l = true -> dns_label l.
Proof.
  unfold label_ok. rewrite !andb_true_iff, !negb_true_iff. intros ((((N & L) & H) & T) & A). apply Nat.eqb_neq in N.
  split; [unfold zlen in *; lia|]. split.
  - apply List.Forall_forall. intros b I. rewrite forallb_forall in A. specialize (A b I). apply orb_true_iff in A as [A|A]; [auto|]. right. apply bz_is; [lia | exact A].
  - split; [destruct l as [|b l] | destruct (rev l) as [|b r]]; try discriminate; intros [= ->]; discriminate.
Qed.
Lemma fqdn_is_dns_name value : is_single_ascii_fqdn value = true -> dns_name value.
Proof.
  unfold is_single_ascii_fqdn. destruct (trim_end_rest (fun b => bz b =? 46) value) as (rest & E & F). set (name := trim_end_by _ value) in *. intros H.
  apply andb_true_iff in H as [Hn H]. apply andb_true_iff in H as [Hl Hc]. exists (split_byte dns_dot name), rest. rewrite dotted_split. split; [exact E|].
  split; [eapply List.Forall_impl; [|exact F]; intros b B; symmetry; apply bz_is; [lia | exact B]|]. split; [apply Nat.leb_le, Hc|].
  split; [apply List.Forall_forall; intros l I; rewrite forallb_forall in Hl; apply label_ok_dns, Hl, I|].
  apply negb_true_iff in Hn. rewrite !orb_false_iff in Hn. lia.
Qed.

(** ** The two runtime-directory checks *)

(** Where the edge's workers may live: [validate_worker_socket_path] accepts a path exactly
    when it is absolute, its directory is a real directory with mode 0700, and the path is
    free or a real socket with mode 0600.  The supervisor's own check is weaker: it accepts any
    directory closed to group and others, such as one with mode 0500, which the edge it then
    starts refuses. *)
Theorem worker_sockets_are_private (lstat : bytes -> stat) path :
  (validate_worker_socket_path lstat path = Ok tt <->
   is_absolute path = true /\ exists dir m, parent path = Some dir /\ dir <> [] /\ lstat dir = Found Dir m /\ perm m = 448 /\
     (lstat path = NotFound \/ exists k, lstat path = Found Socket k /\ perm k = 384)) /\
  (exists fs : bytes -> stat,
     ensure_runtime_dir fs (fun _ => true) (bs "/run/oxo/w.sock") false = Some Verified /\
     validate_worker_socket_path fs (bs "/run/oxo/w.sock") = Err (RuntimeDirMode 320)).
Proof.
  split.
  - unfold validate_worker_socket_path. destruct (is_absolute path); cbn [negb]; [|split; [discriminate | intros [[=] _]]].
    destruct (parent path) as [[|b dir]|]; [split; [discriminate | intros (_ & d & m & [= <-] & Ne & _); contradiction] | |
      split; [discriminate | intros (_ & d & m & [=] & _)]].
    unfold validate_runtime_dir, validate_socket_if_present. split.
    + destruct (lstat (b :: dir)) as [[] m| |] eqn:D; try discriminate. destruct (perm m =? 448) eqn:M; [|discriminate]. cbn [rbind].
      intros S. split; [reflexivity|]. exists (b :: dir), m. split; [reflexivity|]. split; [discriminate|]. split; [exact D|]. split; [lia|].
      destruct (lstat path) as [[] k| |]; try discriminate; [right|left; reflexivity]. exists k. split; [reflexivity|]. destruct (perm k =? 384) eqn:K; [lia | discriminate].
    + intros (_ & d & m & [= <-] & _ & -> & -> & S). cbn [rbind]. destruct S as [-> | (k & -> & ->)]; reflexivity.
  - exists (fun p => if eq_bytes p (bs "/run/oxo") then Found Dir 320 else NotFound). split; vm_compute; reflexivity.
Qed.
