(* ===== verification/CoreConf.v ===== *)
(** * CoreConf: the configuration of the Hyper edge

    Model of [Config] and [Config::from_env_pairs] of [crates/oxo-core/src/lib.rs]: the ladder
    of environment, JSON file and defaults, the checks that refuse an unsafe start, and the
    canned responses of [RackResponse], and the seam between the edge and a handler: the
    request, the errors and the trait [RackHandler].  Reading the file and decoding its JSON
    is the parameter [load]; of the texts an error carries, the ones other code makes (an
    address parser's, a JSON decoder's) are left out. *)

From S2P Require Import Prelude Text IpText.

Definition DEFAULT_PORT : Z := 9292.
Definition DEFAULT_MAX_BODY_BYTES : Z := 1024 * 1024.
Definition DEFAULT_MAX_CONNECTIONS : Z := 64.
Definition DEFAULT_HEADER_READ_TIMEOUT_SECS : Z := 15.
Definition DEFAULT_REQUEST_TIMEOUT_SECS : Z := 30.
Definition DEFAULT_MAX_CONNECTION_SECS : Z := 0.
Definition DEFAULT_MAX_HEADER_COUNT : Z := 100.
Definition DEFAULT_MAX_READ_BUF_BYTES : Z := 64 * 1024.
Definition MIN_READ_BUF_BYTES : Z := 8192.

Inductive HandlerKind : Type := Supervised | Embedded.
Inductive Env : Type := Development | Production.
Inductive WorkerKind : Type := Puma | Shim.

Record Config : Type := {
  c_env : Env; c_bind : SocketAddr; c_handler : HandlerKind; c_worker : WorkerKind; c_app : bytes; c_max_body_bytes : Z; c_max_connections : Z;
  c_header_read_timeout_secs : Z; c_request_timeout_secs : Z; c_max_connection_secs : Z; c_max_header_count : Z; c_max_read_buf_bytes : Z;
  c_allow_public_bind : bool }.
Definition is_public_bind (c : Config) : bool := negb (is_loopback (sa_ip (c_bind c))).
Definition default_bind : SocketAddr := {| sa_ip := V4 2130706433; sa_port := DEFAULT_PORT; sa_scope := 0 |}.
Definition default_app : bytes := bs "ruby/trivial_app.ru".
(** [Config::default] *)
Definition config_default : Config :=
  {| c_env := Development; c_bind := default_bind; c_handler := Supervised; c_worker := Puma; c_app := default_app;
     c_max_body_bytes := DEFAULT_MAX_BODY_BYTES; c_max_connections := DEFAULT_MAX_CONNECTIONS;
     c_header_read_timeout_secs := DEFAULT_HEADER_READ_TIMEOUT_SECS; c_request_timeout_secs := DEFAULT_REQUEST_TIMEOUT_SECS;
     c_max_connection_secs := DEFAULT_MAX_CONNECTION_SECS; c_max_header_count := DEFAULT_MAX_HEADER_COUNT;
     c_max_read_buf_bytes := DEFAULT_MAX_READ_BUF_BYTES; c_allow_public_bind := false |}.

Record FileConfig : Type := {
  f_env : option Env; f_bind : option bytes; f_handler : option HandlerKind; f_worker : option WorkerKind; f_app : option bytes;
  f_max_body_bytes : option Z; f_max_connections : option Z; f_header_read_timeout_secs : option Z; f_request_timeout_secs : option Z;
  f_max_connection_secs : option Z; f_max_header_count : option Z; f_max_read_buf_bytes : option Z }.
Definition file_default : FileConfig :=
  {| f_env := None; f_bind := None; f_handler := None; f_worker := None; f_app := None; f_max_body_bytes := None; f_max_connections := None;
     f_header_read_timeout_secs := None; f_request_timeout_secs := None; f_max_connection_secs := None; f_max_header_count := None;
     f_max_read_buf_bytes := None |}.

Inductive ConfigError : Type :=
| InvalidBind (text : bytes)
| ProductionMustSpecify (what set : string)
| PublicBindRequiresOptIn (bind : SocketAddr)
| InvalidConfigFile (path : bytes)
| InvalidValue (name : string) (value : bytes).

(** Pairs collected into a map: the last one with a key counts. *)
Fixpoint env_lookup (k : bytes) (pairs : list (bytes * bytes)) : option bytes :=
  match pairs with
  | [] => None
  | (n, v) :: rest => match env_lookup k rest with Some w => Some w | None => if eq_bytes n k then Some v else None end
  end.
(** The closure [get]: trimmed, and absent when nothing is left. *)
Definition get (pairs : list (bytes * bytes)) (k : string) : option bytes :=
  match env_lookup (bs k) pairs with
  | Some v => match trim v with [] => None | t => Some t end
  | None => None
  end.
Definition or_else {A} (a b : option A) : option A := match a with Some x => Some x | None => b end.

Section Resolve.
Variable load : bytes -> option FileConfig.
Variable pairs : list (bytes * bytes).

Definition read_file : result ConfigError FileConfig :=
  match get pairs "OXO_CONFIG" with
  | Some path => ok_or (load path) (InvalidConfigFile path)
  | None => Ok file_default
  end.
(** A word of a fixed vocabulary. *)
Fixpoint vocabulary {A} (words : list (string * A)) (v : bytes) : option A :=
  match words with [] => None | (w, a) :: ws => if eq_bytes v (bs w) then Some a else vocabulary ws v end.
Definition read_word {A} (name : string) (words : list (string * A)) : result ConfigError (option A) :=
  match get pairs name with
  | Some v => match vocabulary words v with Some a => Ok (Some a) | None => Err (InvalidValue name v) end
  | None => Ok None
  end.
(** [s.parse()] of a 64-bit number, the file's value, or the default. *)
Definition read_number (name : string) (file : option Z) (default : Z) : result ConfigError Z :=
  match get pairs name with
  | Some s => ok_or (parse_uint u64_max s) (InvalidValue name s)
  | None => Ok (unwrap_or default file)
  end.
Definition opted_in : bool :=
  match get pairs "OXO_INSECURE_PUBLIC_BIND" with Some v => eq_bytes v (bs "1") || eq_bytes v (bs "true") | None => false end.
Definition bind_text (file : FileConfig) : option bytes := or_else (get pairs "OXO_BIND") (f_bind file).
Definition env_words : list (string * Env) := [("production", Production); ("development", Development)]%string.
Definition handler_words : list (string * HandlerKind) := [("supervised", Supervised); ("embedded", Embedded)]%string.
Definition worker_words : list (string * WorkerKind) := [("puma", Puma); ("shim", Shim)]%string.
Definition is_none {A} (o : option A) : bool := match o with None => true | Some _ => false end.
Definition is_production (e : Env) : bool := match e with Production => true | Development => false end.

Definition from_env_pairs : result ConfigError Config :=
  let? file := read_file in
  let? env := read_word "OXO_ENV" env_words in
  let app_env := unwrap_or Development (or_else env (f_env file)) in
  let? handler := read_word "OXO_HANDLER" handler_words in
  let handler_kind := or_else handler (f_handler file) in
  let? worker := read_word "OXO_WORKER" worker_words in
  let worker := unwrap_or Puma (or_else worker (f_worker file)) in
  if is_production app_env && is_none (bind_text file) then Err (ProductionMustSpecify "bind address" "OXO_BIND or the config file 'bind'")
  else if is_production app_env && is_none handler_kind then Err (ProductionMustSpecify "handler" "OXO_HANDLER or the config file 'handler'")
  else
    let? bind := match bind_text file with Some s => ok_or (parse_socket_addr s) (InvalidBind s) | None => Ok default_bind end in
    if negb (is_loopback (sa_ip bind)) && negb opted_in then Err (PublicBindRequiresOptIn bind)
    else
      let app := unwrap_or default_app (or_else (get pairs "OXO_APP") (f_app file)) in
      let? max_body := read_number "OXO_MAX_BODY_BYTES" (f_max_body_bytes file) DEFAULT_MAX_BODY_BYTES in
      let? max_connections := read_number "OXO_MAX_CONNECTIONS" (f_max_connections file) DEFAULT_MAX_CONNECTIONS in
      let? header_read := read_number "OXO_HEADER_READ_TIMEOUT_SECS" (f_header_read_timeout_secs file) DEFAULT_HEADER_READ_TIMEOUT_SECS in
      let? request := read_number "OXO_REQUEST_TIMEOUT_SECS" (f_request_timeout_secs file) DEFAULT_REQUEST_TIMEOUT_SECS in
      let? connection := read_number "OXO_MAX_CONNECTION_SECS" (f_max_connection_secs file) DEFAULT_MAX_CONNECTION_SECS in
      let? header_count := read_number "OXO_MAX_HEADER_COUNT" (f_max_header_count file) DEFAULT_MAX_HEADER_COUNT in
      let? read_buf := read_number "OXO_MAX_READ_BUF_BYTES" (f_max_read_buf_bytes file) DEFAULT_MAX_READ_BUF_BYTES in
      if negb (read_buf =? 0) && (read_buf <? MIN_READ_BUF_BYTES)
      then Err (InvalidValue "OXO_MAX_READ_BUF_BYTES" (bs "must be 0 or >= 8192, got " ++ show_uint read_buf))
      else Ok {| c_env := app_env; c_bind := bind; c_handler := unwrap_or Supervised handler_kind; c_worker := worker; c_app := app;
                 c_max_body_bytes := max_body; c_max_connections := max_connections; c_header_read_timeout_secs := header_read;
                 c_request_timeout_secs := request; c_max_connection_secs := connection; c_max_header_count := header_count;
                 c_max_read_buf_bytes := read_buf; c_allow_public_bind := opted_in |}.
End Resolve.

(** ** Responses *)

Record RackResponse : Type := { rs_status : Z; rs_headers : list (bytes * bytes); rs_body : bytes }.
(** [RackResponse::text] *)
Definition text_response (status : Z) (body : bytes) : RackResponse :=
  {| rs_status := status; rs_headers := [(bs "content-type", bs "text/plain; charset=utf-8"); (bs "content-length", show_uint (zlen body))]; rs_body := body |}.
Definition internal_error : RackResponse := text_response 500 (bs "Internal Server Error").
Definition payload_too_large : RackResponse := text_response 413 (bs "Payload Too Large").
Definition bad_gateway : RackResponse := text_response 502 (bs "Bad Gateway (worker unreachable)").
Definition service_unavailable : RackResponse :=
  let r := text_response 503 (bs "Service Unavailable (worker restarting)") in
  {| rs_status := rs_status r; rs_headers := rs_headers r ++ [(bs "retry-after", bs "1")]; rs_body := rs_body r |}.
Definition gateway_timeout : RackResponse := text_response 504 (bs "Gateway Timeout (worker too slow)").

(** ** The seam between the edge and a handler *)

Record RackRequest : Type := {
  rq_method : bytes; rq_path : bytes; rq_query_string : bytes; rq_server_name : bytes; rq_server_port : Z; rq_url_scheme : bytes;
  rq_headers : list (bytes * bytes); rq_body : bytes }.
Inductive HandlerError : Type :=
| BodyTooLarge | RubyError (e : bytes) | Worker (e : bytes) | Io (e : bytes) | WorkerUnavailable | WorkerUnreachable (e : bytes).
(** [RackHandler]: one operation, in a world [W] it reads and changes. *)
Class RackHandler (W : Type) : Type := handle : RackRequest -> W -> result HandlerError RackResponse * W.

(** ** Properties *)

(** A setting that was read: the environment's text if it is set, otherwise the file's value,
    otherwise the default. *)
Definition settled_number (pairs : list (bytes * bytes)) (name : string) (file : option Z) (default v : Z) : Prop :=
  match get pairs name with Some s => parse_uint u64_max s = Some v | None => v = unwrap_or default file end.
Lemma read_number_ok pairs name file d v : read_number pairs name file d = Ok v <-> settled_number pairs name file d v.
Proof.
  unfold read_number, settled_number. destruct (get pairs name); [apply ok_or_ok|]. split; [intros [= <-]; reflexivity | intros ->; reflexivity].
Qed.

(** The read buffer of an accepted configuration is one the HTTP library takes. *)
Lemma accepted_read_buf load pairs c :
  from_env_pairs load pairs = Ok c -> c_max_read_buf_bytes c = 0 \/ MIN_READ_BUF_BYTES <= c_max_read_buf_bytes c.
Proof.
  unfold from_env_pairs. intros E. repeat match type of E with
    | rbind _ _ = Ok _ => apply rbind_ok in E as (? & _ & E)
    | (if ?b then _ else _) = Ok _ => try clear Rb; destruct b eqn:Rb; [discriminate|]
    end.
  injection E as <-. cbn. apply andb_false_iff in Rb as [Rb|Rb]; [left | right]; lia.
Qed.

(** An accepted configuration is safe and comes from where it should.  Whatever the environment
    and the file hold, if [from_env_pairs] accepts: a public address is bound only after the
    explicit opt-in; in production the address and the handler were given, not defaulted; the
    address is the text of the environment or the file, or the loopback default; every limit
    is the environment's, or the file's, or its default; and the read buffer is one the HTTP
    library takes.  With nothing set it is the built-in default configuration. *)
Theorem accepted_configuration_is_safe load pairs c :
  from_env_pairs load pairs = Ok c ->
  (is_public_bind c = true -> c_allow_public_bind c = true /\ opted_in pairs = true) /\
  (exists file, read_file load pairs = Ok file /\
     (c_env c = Production -> is_Some (bind_text pairs file) /\ (is_Some (get pairs "OXO_HANDLER") \/ f_handler file = Some (c_handler c))) /\
     match bind_text pairs file with Some s => parse_socket_addr s = Some (c_bind c) | None => c_bind c = default_bind end /\
     settled_number pairs "OXO_MAX_BODY_BYTES" (f_max_body_bytes file) DEFAULT_MAX_BODY_BYTES (c_max_body_bytes c) /\
     settled_number pairs "OXO_MAX_CONNECTIONS" (f_max_connections file) DEFAULT_MAX_CONNECTIONS (c_max_connections c) /\
     settled_number pairs "OXO_HEADER_READ_TIMEOUT_SECS" (f_header_read_timeout_secs file) DEFAULT_HEADER_READ_TIMEOUT_SECS (c_header_read_timeout_secs c) /\
     settled_number pairs "OXO_REQUEST_TIMEOUT_SECS" (f_request_timeout_secs file) DEFAULT_REQUEST_TIMEOUT_SECS (c_request_timeout_secs c) /\
     settled_number pairs "OXO_MAX_CONNECTION_SECS" (f_max_connection_secs file) DEFAULT_MAX_CONNECTION_SECS (c_max_connection_secs c) /\
     settled_number pairs "OXO_MAX_HEADER_COUNT" (f_max_header_count file) DEFAULT_MAX_HEADER_COUNT (c_max_header_count c) /\
     settled_number pairs "OXO_MAX_READ_BUF_BYTES" (f_max_read_buf_bytes file) DEFAULT_MAX_READ_BUF_BYTES (c_max_read_buf_bytes c)) /\
  (c_max_read_buf_bytes c = 0 \/ MIN_READ_BUF_BYTES <= c_max_read_buf_bytes c) /\
  (pairs = [] -> c = config_default).
Proof.
  intros E. pose proof (accepted_read_buf _ _ _ E) as Buf. revert E. unfold from_env_pairs. intros E. apply rbind_ok in E as (file & F & E). apply rbind_ok in E as (env & Ev & E). apply rbind_ok in E as (handler & Ha & E).
  apply rbind_ok in E as (worker & Wo & E).
  destruct (is_production (unwrap_or Development (or_else env (f_env file))) && is_none (bind_text pairs file)) eqn:P1; [discriminate|].
  destruct (is_production (unwrap_or Development (or_else env (f_env file))) && is_none (or_else handler (f_handler file))) eqn:P2; [discriminate|].
  apply rbind_ok in E as (bind & B & E). destruct (negb (is_loopback (sa_ip bind)) && negb (opted_in pairs)) eqn:Fence; [discriminate|].
  do 7 (apply rbind_ok in E as (? & ?%read_number_ok & E)). destruct (_ && _) in E; [discriminate|]. injection E as <-. unfold is_public_bind. cbn.
  split; [|split; [|split]].
  - intros L. rewrite L in Fence. cbn in Fence. apply negb_false_iff in Fence. auto.
  - exists file. split; [exact F|]. split; [|split; [|auto 10]].
    + intros Pr. rewrite Pr in P1, P2. cbn [is_production andb] in P1, P2. split; [destruct (bind_text pairs file); [eauto | discriminate]|].
      unfold read_word in Ha. destruct (get pairs "OXO_HANDLER"); [left; eauto|]. injection Ha as <-. right. cbn in *. destruct (f_handler file); [reflexivity | discriminate].
    + destruct (bind_text pairs file) as [s|]; [apply ok_or_ok in B; exact B | injection B as <-; reflexivity].
  - exact Buf.
  - intros ->. injection F as <-. injection Ev as <-. injection Ha as <-. injection Wo as <-. injection B as <-. unfold settled_number in *. cbn in *. subst. reflexivity.
Qed.
Definition production_env : list (bytes * bytes) :=
  [(bs "OXO_ENV", bs "production"); (bs "OXO_BIND", bs " 0.0.0.0:8080 "); (bs "OXO_HANDLER", bs "supervised"); (bs "OXO_INSECURE_PUBLIC_BIND", bs "1"); (bs "OXO_MAX_CONNECTIONS", bs "0")].
Lemma accepted_configuration_is_safe_witness :
  exists c, from_env_pairs (fun _ => None) production_env = Ok c /\ is_public_bind c = true /\ c_allow_public_bind c = true.
Proof.
  destruct (from_env_pairs (fun _ => None) production_env) as [c|] eqn:E; [|vm_compute in E; discriminate]. exists c. split; [reflexivity|].
  assert (is_public_bind c = true) as P by (vm_compute in E; injection E as <-; reflexivity). split; [exact P|].
  apply (accepted_configuration_is_safe _ _ _ E), P.
Defined.
