(* ===== verification/HyperEdge.v ===== *)
(** * HyperEdge: the Hyper HTTP/1.1 edge

    Model of [crates/oxo-edge/src/lib.rs]: a request becomes a [RackRequest], the handler
    answers it, and the answer becomes a response, under the body limit and the request
    timeout; the HTTP server's settings; and the accept loop with its connection permits.

    Hyper, [http] and [http-body-util] are the classes [HeaderRules] and [BodyLib], with what
    the edge relies on as their laws: which names and values a header map takes, and that a body read
    under a limit is within it. *)

From stdpp Require Import relations.
From S2P Require Import Prelude Text HeaderPolicy IpText CoreConf.

(** ** The HTTP library *)

Class HeaderRules : Type := {
  visible : bytes -> bool;        (** [HeaderValue::to_str] succeeds *)
  valid_name : bytes -> bool;
  valid_value : bytes -> bool;
  valid_method : bytes -> bool;
  valid_uri : bytes -> bool;
  map_takes : Z -> bool           (** a header map of this many entries *) }.
Class HeaderRulesLaws `{HeaderRules} : Type := {
  visible_valid v : visible v = true -> valid_value v = true;
  lower_valid n : valid_name n = true -> valid_name (to_ascii_lowercase n) = true;
  text_visible v : forallb (in_range 32 126) v = true -> visible v = true;
  word_valid n : n <> [] -> forallb (fun b => is_ascii_lower b || (bz b =? 45)) n = true -> valid_name n = true;
  small_map n : n <= 3 -> map_takes n = true }.
(** [Limited::collect] on a body *)
Class BodyLib (B : Type) : Type := collect_limited : B -> Z -> option bytes.
Class BodyLaws (B : Type) `{BodyLib B} : Type := collect_bounded b max d : collect_limited b max = Some d -> zlen d <= max.

(** [Request<Incoming>], taken apart. *)
Record HyperRequest (B : Type) : Type := { hr_method : bytes; hr_path : bytes; hr_query : option bytes; hr_headers : list (bytes * bytes); hr_body : B }.
Arguments hr_method {B}. Arguments hr_path {B}. Arguments hr_query {B}. Arguments hr_headers {B}. Arguments hr_body {B}.
Record HyperResponse : Type := { hy_status : Z; hy_headers : list (bytes * bytes); hy_body : bytes }.

Section Edge.
Context `{HeaderRules} {B : Type} `{BodyLib B}.

(** [Builder::header] for each pair, then [body]: the map keeps names in lower case. *)
Definition build_headers (hs : list (bytes * bytes)) : option (list (bytes * bytes)) :=
  if forallb (fun h => valid_name (fst h) && valid_value (snd h)) hs && map_takes (zlen hs)
  then Some (map (fun h => (to_ascii_lowercase (fst h), snd h)) hs) else None.
(** [StatusCode::from_u16] *)
Definition valid_status (s : Z) : bool := (100 <=? s) && (s <=? 999).

Definition is_framing (k : bytes) : bool :=
  eq_ignore_case k (bs "content-length") || eq_ignore_case k (bs "transfer-encoding") || eq_ignore_case k (bs "connection").
(** A response that cannot be built is replaced by [Response::new], whose status is 200. *)
Definition to_hyper (resp : RackResponse) : HyperResponse :=
  let kept := List.filter (fun h => negb (is_framing (fst h))) (rs_headers resp) in
  match (if valid_status (rs_status resp) then build_headers kept else None) with
  | Some hs => {| hy_status := rs_status resp; hy_headers := hs; hy_body := rs_body resp |}
  | None => {| hy_status := 200; hy_headers := []; hy_body := bs "Internal Server Error" |}
  end.

(** The headers the edge keeps: names without an underscore, in lower case, with a value that
    is text. *)
Fixpoint keep_headers (hs : list (bytes * bytes)) : list (bytes * bytes) :=
  match hs with
  | [] => []
  | (name, value) :: rest =>
      match normalize_header_name name with
      | Some norm => if visible value then (norm, value) :: keep_headers rest else keep_headers rest
      | None => keep_headers rest
      end
  end.
(** [host_header] after the loop: the last one kept. *)
Fixpoint host_header (kept : list (bytes * bytes)) : option bytes :=
  match kept with
  | [] => None
  | (k, v) :: rest => match host_header rest with Some h => Some h | None => if eq_bytes k (bs "host") then Some v else None end
  end.
Definition server_of (host : option bytes) (local : SocketAddr) : bytes * Z :=
  match host with
  | Some h =>
      match rsplit_once (zb 58) h with
      | Some (name, port) => (name, unwrap_or (sa_port local) (parse_uint u16_max port))
      | None => (h, sa_port local)
      end
  | None => (show_ip (sa_ip local), sa_port local)
  end.
Definition to_rack_request (req : HyperRequest B) (max_body : Z) (local : SocketAddr) : result RackResponse RackRequest :=
  let headers := keep_headers (hr_headers req) in
  let? collected := ok_or (collect_limited (hr_body req) max_body) payload_too_large in
  let server := server_of (host_header headers) local in
  Ok {| rq_method := hr_method req; rq_path := hr_path req; rq_query_string := unwrap_or [] (hr_query req);
        rq_server_name := fst server; rq_server_port := snd server; rq_url_scheme := bs "http"; rq_headers := headers; rq_body := collected |}.

(** What the edge answers for an error of the handler. *)
Definition error_response (e : HandlerError) : RackResponse :=
  match e with
  | BodyTooLarge => payload_too_large
  | WorkerUnavailable => service_unavailable
  | WorkerUnreachable _ => bad_gateway
  | _ => internal_error
  end.
Definition handle_one {W} `{RackHandler W} (req : HyperRequest B) (config : Config) (local : SocketAddr) (w : W) : HyperResponse * W :=
  match to_rack_request req (c_max_body_bytes config) local with
  | Err resp => (to_hyper resp, w)
  | Ok rack_req =>
      match handle rack_req w with
      | (Ok resp, w') => (to_hyper resp, w')
      | (Err e, w') => (to_hyper (error_response e), w')
      end
  end.
(** A future that finishes after some milliseconds, or never. *)
Definition handle_one_timed (finishes : option Z) (resp : HyperResponse) (config : Config) : option (Z * HyperResponse) :=
  let secs := c_request_timeout_secs config in
  if secs =? 0 then (fun t => (t, resp)) <$> finishes
  else match finishes with
       | Some t => if t <=? secs * 1000 then Some (t, resp) else Some (secs * 1000, to_hyper gateway_timeout)
       | None => Some (secs * 1000, to_hyper gateway_timeout)
       end.
End Edge.

(** ** The HTTP server's settings *)

Record Http1 : Type := {
  b_timer : bool; b_header_read_timeout : option Z; b_max_headers : option Z; b_max_buf_size : option Z; b_keep_alive : bool }.
Definition build_http1 (c : Config) : Http1 :=
  {| b_timer := true;
     b_header_read_timeout := if 0 <? c_header_read_timeout_secs c then Some (c_header_read_timeout_secs c) else None;
     b_max_headers := if 0 <? c_max_header_count c then Some (c_max_header_count c) else None;
     b_max_buf_size := if 0 <? c_max_read_buf_bytes c then Some (c_max_read_buf_bytes c) else None;
     b_keep_alive := true |}.
(** Hyper panics on a buffer below its minimum, and on a header timeout without a timer. *)
Definition hyper_panics (b : Http1) : bool :=
  match b_max_buf_size b with Some n => n <? MIN_READ_BUF_BYTES | None => false end ||
  match b_header_read_timeout b with Some _ => negb (b_timer b) | None => false end.

(** The knobs [log_hardening] reports as disabled. *)
Definition disabled_knobs (c : Config) : list string :=
  (if c_header_read_timeout_secs c =? 0 then ["header_read_timeout"%string] else []) ++
  (if c_request_timeout_secs c =? 0 then ["request_timeout"%string] else []) ++
  (if c_max_connection_secs c =? 0 then ["max_connection_secs (no response-write/connection-age bound)"%string] else []) ++
  (if c_max_connections c =? 0 then ["max_connections"%string] else []).

(** ** The accept loop *)

Inductive ErrorKind : Type := ConnectionAborted | ConnectionReset | Interrupted | WouldBlock | OtherKind.
Record io_error : Type := { kind : ErrorKind; raw_os_error : option Z }.
#[global] Instance ErrorKind_eq_dec : EqDecision ErrorKind.
Proof. solve_decision. Defined.
#[global] Instance io_error_eq_dec : EqDecision io_error.
Proof. solve_decision. Defined.
Definition is_transient_accept_error (e : io_error) : bool :=
  match kind e with OtherKind => false | _ => true end ||
  match raw_os_error e with Some n => (n =? 24) || (n =? 23) | None => false end.

(** Where [serve_listener] stands: about to take a permit, accepting with it, or returned. *)
Inductive phase : Type := Permit | Accepting | Stopped (e : io_error).
#[global] Instance phase_eq_dec : EqDecision phase.
Proof. solve_decision. Defined.
(** [permits] is [None] when connections are unlimited; [pending] connections were spawned and
    have not run yet, [serving] ones have; [inflight] is the gauge. *)
Record listener : Type := { at_ : phase; permits : option Z; pending : Z; serving : Z; inflight : Z; accept_errors : Z }.
Definition listening (c : Config) : listener :=
  {| at_ := Permit; permits := if 0 <? c_max_connections c then Some (c_max_connections c) else None;
     pending := 0; serving := 0; inflight := 0; accept_errors := 0 |}.

(** [InflightGuard::new] and its drop, on the gauge. *)
Definition guard_new (counter : Z) : Z := counter + 1.
Definition guard_drop (counter : Z) : Z := counter - 1.
Inductive event : Type :=
| Acquire | Accepted | AcceptError (e : io_error) | TaskStarts | TaskEnds.
Definition release (p : option Z) : option Z := Z.succ <$> p.
(** One event; [None] when it cannot happen here. *)
Definition accept_step (ev : event) (l : listener) : option listener :=
  match ev, at_ l with
  | Acquire, Permit =>
      match permits l with
      | Some n => if 0 <? n then Some {| at_ := Accepting; permits := Some (n - 1); pending := pending l; serving := serving l; inflight := inflight l; accept_errors := accept_errors l |} else None
      | None => Some {| at_ := Accepting; permits := None; pending := pending l; serving := serving l; inflight := inflight l; accept_errors := accept_errors l |}
      end
  | Accepted, Accepting => Some {| at_ := Permit; permits := permits l; pending := pending l + 1; serving := serving l; inflight := inflight l; accept_errors := 0 |}
  | AcceptError e, Accepting =>
      if is_transient_accept_error e
      then Some {| at_ := Permit; permits := release (permits l); pending := pending l; serving := serving l; inflight := inflight l; accept_errors := saturating_add (accept_errors l) 1 |}
      else Some {| at_ := Stopped e; permits := release (permits l); pending := pending l; serving := serving l; inflight := inflight l; accept_errors := accept_errors l |}
  | TaskStarts, a =>
      if 0 <? pending l then Some {| at_ := a; permits := permits l; pending := pending l - 1; serving := serving l + 1; inflight := guard_new (inflight l); accept_errors := accept_errors l |} else None
  | TaskEnds, a =>
      if 0 <? serving l then Some {| at_ := a; permits := release (permits l); pending := pending l; serving := serving l - 1; inflight := guard_drop (inflight l); accept_errors := accept_errors l |} else None
  | _, _ => None
  end.
Fixpoint serve_listener (evs : list event) (l : listener) : option listener :=
  match evs with [] => Some l | ev :: evs' => accept_step ev l ≫= serve_listener evs' end.

(** ** Requests and answers *)

Definition no_framing (hs : list (bytes * bytes)) : Prop := forall k v, In (k, v) hs -> is_framing k = false.

Section Answers.
Context `{HeaderRulesLaws} {B : Type} `{BodyLaws B}.

Lemma is_framing_lower k : is_framing (to_ascii_lowercase k) = is_framing k.
Proof. unfold is_framing, eq_ignore_case. rewrite to_ascii_lowercase_idem. reflexivity. Qed.
Lemma build_headers_some hs hs' : build_headers hs = Some hs' -> hs' = map (fun h => (to_ascii_lowercase (fst h), snd h)) hs.
Proof. unfold build_headers. cases_if; [intros [= <-]; reflexivity | discriminate]. Qed.

(** Hyper frames the body itself: no answer carries a framing header. *)
Lemma to_hyper_no_framing resp : no_framing (hy_headers (to_hyper resp)).
Proof.
  unfold to_hyper. destruct (if valid_status _ then _ else _) as [hs|] eqn:E; [|intros k v []]. cbn.
  destruct (valid_status _); [|discriminate]. apply build_headers_some in E as ->.
  intros k v ([k0 v0] & [= <- <-] & I)%in_map_iff. apply filter_In in I as [_ I]. cbn in I. cbn. rewrite is_framing_lower. apply negb_true_iff, I.
Qed.

(** Every canned response is sent as it is. *)
Lemma canned_name n : forallb (fun b => is_ascii_lower b || (bz b =? 45)) (bs n) = true -> bs n <> [] -> valid_name (bs n) = true.
Proof. intros A N. apply word_valid; assumption. Qed.
Lemma canned_value v : forallb (in_range 32 126) (bs v) = true -> valid_value (bs v) = true.
Proof. intros A. apply visible_valid, text_visible, A. Qed.

Definition is_canned (resp : RackResponse) : Prop :=
  valid_status (rs_status resp) = true /\
  (rs_headers resp = [(bs "content-type", bs "text/plain; charset=utf-8"); (bs "content-length", show_uint (zlen (rs_body resp)))] \/
   rs_headers resp = [(bs "content-type", bs "text/plain; charset=utf-8"); (bs "content-length", show_uint (zlen (rs_body resp))); (bs "retry-after", bs "1")]).
Lemma error_response_canned e : is_canned (error_response e).
Proof. destruct e; (split; [reflexivity|]); (left; reflexivity) || (right; reflexivity). Qed.
Lemma to_hyper_canned resp : is_canned resp -> hy_status (to_hyper resp) = rs_status resp /\ hy_body (to_hyper resp) = rs_body resp.
Proof.
  intros [V Hs]. unfold to_hyper. rewrite V.
  assert (exists hs, build_headers (List.filter (fun h => negb (is_framing (fst h))) (rs_headers resp)) = Some hs) as [hs ->]; [|auto].
  assert (valid_name (bs "content-type") = true) as N1 by (apply canned_name; [reflexivity | discriminate]).
  assert (valid_name (bs "retry-after") = true) as N2 by (apply canned_name; [reflexivity | discriminate]).
  assert (valid_value (bs "text/plain; charset=utf-8") = true) as V1 by (apply canned_value; reflexivity).
  assert (valid_value (bs "1") = true) as V2 by (apply canned_value; reflexivity).
  destruct Hs as [-> | ->]; cbn [List.filter fst];
    change (is_framing (bs "content-type")) with false; change (is_framing (bs "content-length")) with true;
    try change (is_framing (bs "retry-after")) with false; cbn [negb]; unfold build_headers; cbn [forallb fst snd];
    rewrite N1, V1, ?N2, ?V2, small_map by (unfold zlen; cbn; lia); eauto.
Qed.

(** A response the library takes goes out with its status, its body and its other headers. *)
Definition sendable (resp : RackResponse) : bool :=
  valid_status (rs_status resp) &&
  let kept := List.filter (fun h => negb (is_framing (fst h))) (rs_headers resp) in
  forallb (fun h => valid_name (fst h) && valid_value (snd h)) kept && map_takes (zlen kept).
Lemma to_hyper_sendable resp : sendable resp = true ->
  to_hyper resp = {| hy_status := rs_status resp;
                     hy_headers := map (fun h => (to_ascii_lowercase (fst h), snd h)) (List.filter (fun h => negb (is_framing (fst h))) (rs_headers resp));
                     hy_body := rs_body resp |}.
Proof. unfold sendable, to_hyper, build_headers. intros [-> ->]%andb_true_iff. reflexivity. Qed.
(** One it does not take goes out as a success. *)
Lemma to_hyper_unsendable resp : sendable resp = false ->
  to_hyper resp = {| hy_status := 200; hy_headers := []; hy_body := bs "Internal Server Error" |}.
Proof. unfold sendable, to_hyper, build_headers. destruct (valid_status _); [|reflexivity]. intros E. cbn [andb] in E. rewrite E. reflexivity. Qed.

Lemma keep_headers_in hs k v : In (k, v) (keep_headers hs) <-> exists name, In (name, v) hs /\ normalize_header_name name = Some k /\ visible v = true.
Proof.
  induction hs as [|[n w] hs IH]; cbn [keep_headers]; [split; [intros [] | intros (? & [] & _)]|].
  assert (In (k, v) (keep_headers hs) <-> exists name, In (name, v) hs /\ normalize_header_name name = Some k /\ visible v = true) as IH' by exact IH. clear IH.
  destruct (normalize_header_name n) as [norm|] eqn:N; [destruct (visible w) eqn:V|].
  - cbn [In]. rewrite IH'. split.
    + intros [[= <- <-] | (m & I & R)]; [exists n; auto | exists m; auto].
    + intros (m & [[= <- <-] | I] & E & V'); [left; congruence | right; eauto].
  - rewrite IH'. split; [intros (m & I & R); exists m; split; [right; exact I | exact R]|]. intros (m & [[= <- <-] | I] & E & V'); [congruence | eauto].
  - rewrite IH'. split; [intros (m & I & R); exists m; split; [right; exact I | exact R]|]. intros (m & [[= <- <-] | I] & E & V'); [congruence | eauto].
Qed.
Lemma normalized_lower n k : normalize_header_name n = Some k -> to_ascii_lowercase k = k /\ contains_byte underscore n = false.
Proof. unfold normalize_header_name. destruct (contains_byte _ _); [discriminate|]. intros [= <-]. split; [apply to_ascii_lowercase_idem | reflexivity]. Qed.

(** A request every handler is given: its body is within the limit, and every header comes
    from one of the client's, with its value, under its name in lower case. *)
Lemma to_rack_request_ok (req : HyperRequest B) max local r :
  to_rack_request req max local = Ok r ->
  zlen (rq_body r) <= max /\ rq_method r = hr_method req /\ rq_path r = hr_path req /\ rq_query_string r = unwrap_or [] (hr_query req) /\
  rq_headers r = keep_headers (hr_headers req).
Proof.
  unfold to_rack_request. intros (d & D & E)%rbind_ok. apply ok_or_ok in D. injection E as <-. cbn. repeat split. apply (collect_bounded _ _ _ D).
Qed.
End Answers.

(** What the edge answers, on every path.  For every handler, every request and every library
    that keeps its contract: a body over the limit (or one that cannot be read) is answered
    413 without calling the handler; otherwise the handler is called once, with a request whose
    body is within the limit, and its error is answered 413, 503, 502 or 500 by its kind, and
    its response, when it can be sent at all, with its own status and body.  No answer carries
    a framing header of the handler's. *)
Theorem edge_answers_by_outcome `{HeaderRulesLaws} {B W} `{BodyLaws B} `{RackHandler W} (req : HyperRequest B) config local (w : W) :
  no_framing (hy_headers (fst (handle_one req config local w))) /\
  match to_rack_request req (c_max_body_bytes config) local with
  | Err resp => collect_limited (hr_body req) (c_max_body_bytes config) = None /\ hy_status (fst (handle_one req config local w)) = 413 /\ snd (handle_one req config local w) = w
  | Ok r =>
      zlen (rq_body r) <= c_max_body_bytes config /\ snd (handle_one req config local w) = snd (handle r w) /\
      match fst (handle r w) with
      | Err e => hy_status (fst (handle_one req config local w)) =
                 match e with BodyTooLarge => 413 | WorkerUnavailable => 503 | WorkerUnreachable _ => 502 | RubyError _ | Worker _ | Io _ => 500 end
      | Ok resp => sendable resp = true -> hy_status (fst (handle_one req config local w)) = rs_status resp /\ hy_body (fst (handle_one req config local w)) = rs_body resp
      end
  end.
Proof.
  unfold handle_one. destruct (to_rack_request req (c_max_body_bytes config) local) as [r|resp] eqn:R.
  - pose proof (to_rack_request_ok _ _ _ _ R) as (L & _). destruct (handle r w) as [[resp|e] w'] eqn:Hd; cbn [fst snd].
    + split; [apply to_hyper_no_framing|]. repeat split; [exact L|..]; rewrite to_hyper_sendable by assumption; reflexivity.
    + split; [apply to_hyper_no_framing|]. repeat split; [exact L|]. rewrite (proj1 (to_hyper_canned _ (error_response_canned e))). destruct e; reflexivity.
  - cbn [fst snd]. split; [apply to_hyper_no_framing|]. unfold to_rack_request in R. destruct (collect_limited _ _); [discriminate|]. injection R as <-.
    repeat split. apply to_hyper_canned. split; [reflexivity | left; reflexivity].
Qed.

(** ** The request timeout *)

(** With the timeout on, every request is answered, no later than it. *)
Lemma timed_request_is_answered `{HeaderRulesLaws} finishes resp config :
  0 < c_request_timeout_secs config ->
  exists t answer, handle_one_timed finishes resp config = Some (t, answer) /\ t <= c_request_timeout_secs config * 1000 /\
    (answer = resp \/ hy_status answer = 504).
Proof.
  intros P. unfold handle_one_timed. destruct (c_request_timeout_secs config =? 0) eqn:Z0; [lia|].
  pose proof (proj1 (to_hyper_canned gateway_timeout (conj eq_refl (or_introl eq_refl)))) as G.
  destruct finishes as [t|]; [destruct (t <=? _) eqn:L|]; (do 2 eexists; split; [reflexivity|]); (split; [lia|]); auto.
Qed.

(** ** The server's settings *)

(** An accepted configuration never makes the HTTP server panic. *)
Lemma accepted_settings_are_safe load pairs c :
  from_env_pairs load pairs = Ok c -> hyper_panics (build_http1 c) = false.
Proof.
  intros E%accepted_read_buf. unfold hyper_panics, build_http1. cbn [b_max_buf_size b_header_read_timeout b_timer negb].
  destruct (0 <? c_max_read_buf_bytes c) eqn:Q, (0 <? c_header_read_timeout_secs c); cbn [orb]; try reflexivity; rewrite orb_false_r; unfold MIN_READ_BUF_BYTES in *; lia.
Qed.

(** ** The connection cap *)

(** What every reachable state of the accept loop keeps. *)
Definition cap_kept (c : Config) (l : listener) : Prop :=
  0 <= pending l /\ 0 <= serving l /\ inflight l = serving l /\
  match permits l with
  | Some n => 0 < c_max_connections c /\ 0 <= n /\ n + (match at_ l with Accepting => 1 | _ => 0 end) + pending l + serving l = c_max_connections c
  | None => c_max_connections c <= 0
  end.
Lemma cap_kept_step c ev l l' : cap_kept c l -> accept_step ev l = Some l' -> cap_kept c l'.
Proof.
  intros (P & S & I & M) E. unfold cap_kept. destruct ev, (at_ l) eqn:A; cbn [accept_step] in E; rewrite ?A in E; try discriminate;
    destruct (permits l) as [n|] eqn:Pm; repeat (cases_if; try discriminate); injection E as <-; cbn [at_ permits pending serving inflight release fmap option_fmap option_map]; unfold guard_new, guard_drop; rewrite ?A; repeat split; lia.
Qed.
Lemma cap_kept_run c evs l l' : cap_kept c l -> serve_listener evs l = Some l' -> cap_kept c l'.
Proof.
  revert l. induction evs as [|ev evs IH]; intros l K; cbn [serve_listener]; [intros [= <-]; exact K|].
  destruct (accept_step ev l) as [m|] eqn:E; [|discriminate]. apply IH, (cap_kept_step _ _ _ _ K E).
Qed.
Lemma listening_kept c : cap_kept c (listening c).
Proof. unfold cap_kept, listening. cbn. destruct (0 <? _) eqn:E; repeat split; lia. Qed.
(** What stopped the loop is in its history. *)
Lemma stopped_step ev l l' e : accept_step ev l = Some l' -> at_ l' = Stopped e -> at_ l = Stopped e \/ (ev = AcceptError e /\ is_transient_accept_error e = false).
Proof.
  intros E A. destruct ev, (at_ l) eqn:Q; cbn [accept_step] in E; rewrite ?Q in E; try discriminate; try (destruct (permits l); [cases_if|]; try discriminate; injection E as <-; discriminate);
    try (destruct (is_transient_accept_error _) eqn:T); repeat (cases_if; try discriminate); injection E as <-; cbn in A; try discriminate; try (left; exact A).
  injection A as <-. right. auto.
Qed.
Lemma stopped_by_event evs l l' e : at_ l <> Stopped e -> serve_listener evs l = Some l' -> at_ l' = Stopped e -> In (AcceptError e) evs /\ is_transient_accept_error e = false.
Proof.
  revert l. induction evs as [|ev evs IH]; intros l N; cbn [serve_listener]; [intros [= <-]; contradiction|].
  destruct (accept_step ev l) as [m|] eqn:E; [|discriminate]. intros R A. destruct (at_ m) as [| |e'] eqn:Q;
    try (destruct (IH m) as [I T]; [congruence | exact R | exact A | split; [right; exact I | exact T]]).
  destruct (decide (at_ m = Stopped e)) as [Y|Y].
  - destruct (stopped_step _ _ _ _ E Y) as [Z|[-> T]]; [contradiction | split; [left; reflexivity | exact T]].
  - destruct (IH m Y R A) as [I T]. split; [right; exact I | exact T].
Qed.

(** The connection cap holds at every moment.  Whatever the order in which connections arrive,
    fail to be accepted, start and end: with a cap set, the connections alive are never more
    than it, the gauge counts the ones that run, the loop can take a permit exactly when it
    is below the cap, and once they have all ended every permit is back; without one the loop
    never waits for a permit.  The loop stops only on an error that is not transient. *)
Theorem connection_cap_holds c evs l :
  serve_listener evs (listening c) = Some l ->
  inflight l = serving l /\ 0 <= inflight l /\
  (0 < c_max_connections c ->
     pending l + serving l <= c_max_connections c /\
  (at_ l = Permit -> (is_Some (accept_step Acquire l) <-> pending l + serving l < c_max_connections c) /\
  (pending l + serving l = 0 -> permits l = Some (c_max_connections c)))) /\
  (c_max_connections c = 0 -> at_ l = Permit -> is_Some (accept_step Acquire l)) /\
  (forall e, at_ l = Stopped e -> In (AcceptError e) evs /\ is_transient_accept_error e = false).
Proof.
  intros R. pose proof (cap_kept_run c _ _ _ (listening_kept c) R) as (P & S & I & M). split; [exact I|]. split; [lia|]. split; [|split].
  - intros C. destruct (permits l) as [n|] eqn:Pm; [|lia]. destruct M as (_ & N & T). split; [destruct (at_ l); lia|].
    intros A. rewrite A in T. cbn [accept_step]. rewrite A, Pm. split; [|intros; f_equal; lia]. destruct (0 <? n) eqn:Q; split; intros; try lia; eauto. destruct H; discriminate.
  - intros C A. destruct (permits l) as [n|] eqn:Pm; [lia|]. cbn [accept_step]. rewrite A, Pm. eauto.
  - intros e. apply (stopped_by_event evs (listening c)); [discriminate | exact R].
Qed.

(** ** A library that keeps the contract *)

Lemma forallb_mono {A} (f g : A -> bool) l : (forall a, f a = true -> g a = true) -> forallb f l = true -> forallb g l = true.
Proof. intros F. rewrite !forallb_forall. intros L a I. apply F, L, I. Qed.
Definition text_byte (b : byte) : bool := in_range 32 126 b || (bz b =? 9).
Definition demo_rules : HeaderRules :=
  {| visible := forallb text_byte; valid_name := fun n => negb (length n =? 0)%nat && forallb (in_range 33 126) n; valid_value := forallb text_byte;
     valid_method := fun m => negb (length m =? 0)%nat; valid_uri := starts_with [zb 47]; map_takes := fun n => n <=? 32768 |}.
Definition demo_laws : @HeaderRulesLaws demo_rules.
Proof.
  split; cbn [visible valid_name valid_value map_takes demo_rules].
  - auto.
  - intros n [N F]%andb_true_iff. unfold to_ascii_lowercase. rewrite length_map, N. cbn [andb]. apply forallb_forall. intros c (b & <- & I)%in_map_iff.
    rewrite forallb_forall in F. specialize (F b I). revert F. unfold lower_byte, is_ascii_upper, in_range. pose proof (bz_range b). intros R. cases_if; [rewrite bz_zb by lia|]; lia.
  - intros v. apply forallb_mono. intros b. unfold text_byte. intros ->. reflexivity.
  - intros n N F. destruct n; [congruence|]. cbn [length Nat.eqb negb andb]. revert F. apply forallb_mono. intros c. unfold is_ascii_lower, in_range. lia.
  - intros n L. lia.
Qed.
Definition demo_body : BodyLib bytes := fun b max => if zlen b <=? max then Some b else None.
Definition demo_body_laws : @BodyLaws bytes demo_body.
Proof. intros b max d. unfold collect_limited, demo_body. cases_if; [|discriminate]. intros [= <-]. lia. Qed.

(** ** Concrete requests *)

Definition demo_request : HyperRequest bytes :=
  {| hr_method := bs "POST"; hr_path := bs "/orders"; hr_query := Some (bs "a=1");
     hr_headers := [(bs "host", bs "shop.test:8080"); (bs "x-oxo-secret", bs "guess"); (bs "x_real_ip", bs "10.0.0.9"); (bs "content-length", bs "2"); (bs "accept", bs "text/html")];
     hr_body := bs "hi" |}.
(** A handler that answers what it is told to. *)
Definition scripted : RackHandler (result HandlerError RackResponse) := fun _ w => (w, w).

(** An answer the library cannot build, here a header value with a line break, is sent as a
    success: the replacement response has the default status 200. *)
Lemma unbuildable_answer_is_sent_as_200 :
  let resp := {| rs_status := 500; rs_headers := [(bs "x-trace", [zb 97; zb 10; zb 98])]; rs_body := bs "failed" |} in
  @sendable demo_rules resp = false /\ hy_status (@to_hyper demo_rules resp) = 200.
Proof. split; vm_compute; reflexivity. Qed.
(** The server name of a Host with a bracketed IPv6 address and no port is cut at its last
    colon. *)
Lemma bracketed_host_is_cut :
  server_of (Some (bs "[::1]")) default_bind = (bs "[:", 9292) /\ server_of (Some (bs "[::1]:8080")) default_bind = (bs "[::1]", 8080).
Proof. split; vm_compute; reflexivity. Qed.

Definition demo_cap : Config :=
  {| c_env := Development; c_bind := default_bind; c_handler := Supervised; c_worker := Puma; c_app := default_app; c_max_body_bytes := 16; c_max_connections := 2;
     c_header_read_timeout_secs := 15; c_request_timeout_secs := 30; c_max_connection_secs := 0; c_max_header_count := 100; c_max_read_buf_bytes := 65536; c_allow_public_bind := false |}.
Definition aborted : io_error := {| kind := ConnectionAborted; raw_os_error := None |}.
Definition full_house : list event := [Acquire; Accepted; Acquire; AcceptError aborted; Acquire; TaskStarts; Accepted].
Lemma connection_cap_holds_witness :
  exists l, serve_listener full_house (listening demo_cap) = Some l /\ pending l + serving l = 2 /\ accept_step Acquire l = None /\ inflight l = 1.
Proof.
  destruct (serve_listener full_house (listening demo_cap)) as [l|] eqn:E; [|vm_compute in E; discriminate]. exists l. split; [reflexivity|].
  pose proof (connection_cap_holds demo_cap full_house l E) as (I & _ & C & _).
  assert (at_ l = Permit /\ serving l = 1 /\ pending l = 1) as (A & S & P) by (vm_compute in E; injection E as <-; auto).
  destruct (C ltac:(cbn; lia)) as [_ C']. destruct (C' A) as [[C1 _] _]. split; [lia|]. split; [|lia].
  destruct (accept_step Acquire l) as [m|]; [|reflexivity]. specialize (C1 ltac:(eauto)). cbn in C1. lia.
Defined.
Lemma edge_answers_by_outcome_witness :
  let out := @handle_one demo_rules bytes demo_body _ scripted demo_request demo_cap default_bind (Err (WorkerUnreachable [])) in hy_status (fst out) = 502.
Proof.
  cbv zeta. pose proof (@edge_answers_by_outcome demo_rules demo_laws bytes _ demo_body demo_body_laws scripted demo_request demo_cap default_bind (Err (WorkerUnreachable []))) as [_ T].
  destruct (@to_rack_request demo_rules bytes demo_body demo_request (c_max_body_bytes demo_cap) default_bind) as [r|] eqn:E; [|vm_compute in E; discriminate].
  exact (proj2 (proj2 T)).
Defined.
