(* ===== verification/RubyHandler.v ===== *)
(** * RubyHandler: the supervised Ruby worker of the Hyper edge

    Model of [crates/oxo-edge/src/supervised.rs]: finding the launcher, starting one worker and
    reading the port it reports, the supervisor that restarts it with a sliding-window
    throttle, and the proxying of a request with its retries across a restart.

    The operating system is explicit.  A [host] holds the handler's temporary files, its
    worker processes and the commands it started; what a call into the system returns is
    an input ([spawn_env] for one start, [attempt] and [turn] for the supervisor, [hop] for
    one exchange with the worker).  Paths are those of Unix. *)

From stdpp Require Import sorting.
From S2P Require Import Prelude Text LineText HeaderPolicy IpText FsChecks CoreConf HyperEdge.

Definition SECRET_HEADER : bytes := bs "x-oxo-secret".
Definition HANDLE_ATTEMPTS : nat := 3.

Inductive WorkerState : Type :=
| Live (addr : SocketAddr) (secret : bytes) (generation : Z)
| Restarting (degraded : bool).
Inductive StablePaths : Type := ShimPaths (script : bytes) | PumaPaths (config rackup : bytes).
(** [StablePaths::files] *)
Definition stable_files (s : StablePaths) : list bytes :=
  match s with ShimPaths script => [script] | PumaPaths config rackup => [config; rackup] end.

Record Command : Type := { cmd_program : bytes; cmd_args : list bytes; cmd_dir : option bytes; cmd_env : list (bytes * bytes) }.
(** The temporary files on disk, the sequence number of [temp_path], the processes that are
    alive and the commands started, newest first. *)
Record host : Type := { h_files : list bytes; h_seq : Z; h_alive : list nat; h_started : list Command }.
Definition create_file (p : bytes) (h : host) : host := {| h_files := p :: h_files h; h_seq := h_seq h; h_alive := h_alive h; h_started := h_started h |}.
Definition remove_file (p : bytes) (h : host) : host :=
  {| h_files := List.filter (fun q => negb (eq_bytes q p)) (h_files h); h_seq := h_seq h; h_alive := h_alive h; h_started := h_started h |}.
(** A process is named by the number of commands started before it. *)
Definition start_process (c : Command) (h : host) : nat * host :=
  (length (h_started h), {| h_files := h_files h; h_seq := h_seq h; h_alive := length (h_started h) :: h_alive h; h_started := c :: h_started h |}).
(** It exits, or is killed and reaped. *)
Definition reap (c : nat) (h : host) : host :=
  {| h_files := h_files h; h_seq := h_seq h; h_alive := List.filter (fun d => negb (d =? c)%nat) (h_alive h); h_started := h_started h |}.

(** Computations that change the host and may fail. *)
Definition act (A : Type) : Type := host -> result HandlerError A * host.
Definition ret {A} (a : A) : act A := fun h => (Ok a, h).
Definition bail {A} (e : HandlerError) : act A := fun h => (Err e, h).
Definition lift {A} (r : result HandlerError A) : act A := fun h => (r, h).
Definition bind {A C} (c : act A) (k : A -> act C) : act C :=
  fun h => match c h with (Ok a, h') => k a h' | (Err e, h') => (Err e, h') end.
Notation "'let!' x ':=' c 'in' k" := (bind c (fun x => k)) (at level 10, x name, c at level 200, k at level 200).

(** ** Small parts *)

(** [format!("{b:02x}")] for each byte *)
Definition hex2 (b : byte) : bytes := [hex_digit (bz b / 16); hex_digit (bz b mod 16)].
Definition generate_secret (random : bytes) : bytes := flat_map hex2 random.

Section Process.
(** The process's environment, its temporary directory and its number. *)
Variable var : string -> option bytes.
Variable temp_dir : bytes.
Variable own_pid : Z.

Definition temp_name (prefix ext : string) (seq : Z) : bytes :=
  join temp_dir (bs prefix ++ bs "_" ++ show_uint own_pid ++ bs "_" ++ show_uint seq ++ bs "." ++ bs ext).
Definition temp_path (prefix ext : string) : act bytes :=
  fun h => (Ok (temp_name prefix ext (h_seq h)),
            {| h_files := h_files h; h_seq := (h_seq h + 1) mod (u64_max + 1); h_alive := h_alive h; h_started := h_started h |}).

Definition env_u64 (key : string) (default : Z) : Z :=
  unwrap_or default (var key ≫= fun s => parse_uint u64_max (trim s)).
(** Seconds *)
Definition boot_timeout (worker : WorkerKind) : Z :=
  match var "OXO_BOOT_TIMEOUT_SECS" ≫= (fun s => parse_uint u64_max (trim s)) with
  | Some n => n
  | None => match worker with Shim => 20 | Puma => 60 end
  end.

(** Milliseconds *)
Record BurstParams : Type := { limit : Z; window : Z; min_uptime : Z; base : Z; cap : Z }.
(** [BurstParams::from_env]; [None] is the overflow of [boot * 5]. *)
Definition burst_from_env (worker : WorkerKind) : option BurstParams :=
  let boot := boot_timeout worker in
  if u64_max <? boot * 5 then None
  else Some {| limit := env_u64 "OXO_RESPAWN_BURST" 5;
               window := env_u64 "OXO_RESPAWN_WINDOW_SECS" (Z.max (boot * 5) 30) * 1000;
               min_uptime := env_u64 "OXO_RESPAWN_MIN_UPTIME_SECS" 10 * 1000;
               base := 200;
               cap := env_u64 "OXO_RESPAWN_BACKOFF_CAP_SECS" 5 * 1000 |}.
Definition backoff (b : BurstParams) (attempt : Z) : Z := Z.min (base b * 2 ^ Z.min attempt 6) (cap b).

Definition resolve_exe (is_file : bytes -> bool) (name env_override : string) : result HandlerError bytes :=
  let missing := Err (Worker (bs "could not find `" ++ bs name ++ bs "` on PATH (set " ++ bs env_override ++ bs " to an absolute path)")) in
  let search :=
    match var "PATH" with
    | Some path =>
        match find is_file (map (fun dir => join dir (bs name)) (split_byte (zb 58) path)) with
        | Some cand => Ok cand
        | None => missing
        end
    | None => missing
    end in
  match var env_override with
  | Some explicit => if is_file explicit then Ok explicit else search
  | None => search
  end.

(** [std::fs::write] creates the file and fills it. *)
Inductive write : Type := Written | NotCreated | NotFilled.
Definition write_file (w : write) (p : bytes) (what : string) : act unit :=
  fun h => match w with
           | Written => (Ok tt, create_file p h)
           | NotCreated => (Err (Worker (bs what)), h)
           | NotFilled => (Err (Worker (bs what)), create_file p h)
           end.
(** [StablePaths::materialize], given how the writes go. *)
Definition materialize (worker : WorkerKind) (writes : write * write) : act StablePaths :=
  match worker with
  | Shim =>
      let! script := temp_path "oxo_worker" "rb" in
      let! _ := write_file (fst writes) script "writing worker script: " in
      ret (ShimPaths script)
  | Puma =>
      let! config := temp_path "oxo_puma_config" "rb" in
      let! rackup := temp_path "oxo_puma_rackup" "ru" in
      let! _ := write_file (fst writes) config "writing puma config: " in
      let! _ := write_file (snd writes) rackup "writing puma rackup: " in
      ret (PumaPaths config rackup)
  end.

(** ** Starting a worker *)

(** How the worker's standard output goes on after the lines that arrive in time: it ends (or
    cannot be read), or nothing more comes before the timeout. *)
Inductive stdout_end : Type := Eof | Silent.
Record spawn_env : Type := {
  sv_absolute : option bytes;        (** [std::path::absolute] of the app's path *)
  sv_is_file : bytes -> bool;
  sv_random : bytes;                 (** the operating system's 16 random bytes *)
  sv_create : bool;                  (** the stderr file can be created *)
  sv_free_port : option Z;
  sv_spawn : option (option Z);      (** the process starts, with its id if it still has one *)
  sv_stdout : bool;                  (** its standard output is there to take *)
  sv_lines : list bytes; sv_end : stdout_end;
  sv_stderr : option bytes;          (** what can be read back from the stderr file *)
  sv_polls : nat -> bool * Z;        (** each try to connect: whether it succeeds, and its milliseconds *)
}.
Record Spawned : Type := { sp_child : nat; sp_addr : SocketAddr; sp_secret : bytes; sp_pid : Z; sp_stderr : bytes }.

Definition worker_name (w : WorkerKind) : bytes := match w with Puma => bs "Puma" | Shim => bs "Shim" end.
Definition read_tail (content : option bytes) (max : nat) : bytes :=
  match content with
  | Some buf => let tail := drop (length buf - max) buf in from_utf8_lossy (length tail) tail
  | None => []
  end.
(** The worker is gone when this returns, whether it had exited already or not. *)
Definition boot_error (child : nat) (stderr_path : bytes) (stderr : option bytes) (worker : WorkerKind) (what : bytes) (h : host) : HandlerError * host :=
  let tail := read_tail stderr 4096 in
  (match trim tail with
   | [] => Worker (worker_name worker ++ bs " worker " ++ what ++ bs " (no stderr; on Windows, Norton/SONAR can suspend children — docs/THREAT_MODEL.md)")
   | _ => Worker (worker_name worker ++ bs " worker " ++ what ++ bs "; stderr tail:" ++ [zb 10] ++ tail)
   end, remove_file stderr_path (reap child h)).

Definition strip_prefix (p s : bytes) : option bytes := if starts_with p s then Some (drop (length p) s) else None.
(** The first line [OXO_PORT=<port>]; others are skipped. *)
Fixpoint read_port (lines : list bytes) : option Z :=
  match lines with
  | [] => None
  | line :: rest =>
      match strip_prefix (bs "OXO_PORT=") line ≫= (fun r => parse_uint u16_max (trim r)) with
      | Some p => Some p
      | None => read_port rest
      end
  end.
Definition loopback (port : Z) : SocketAddr := {| sa_ip := V4 2130706433; sa_port := port; sa_scope := 0 |}.

(** Whether a try succeeded before the deadline; [None] only when the fuel is too little. *)
Fixpoint wait_until_connectable (fuel : nat) (polls : nat -> bool * Z) (deadline elapsed : Z) (k : nat) : option bool :=
  match fuel with
  | O => None
  | S fuel =>
      if fst (polls k) then Some true
      else if deadline <=? elapsed + snd (polls k) then Some false
      else wait_until_connectable fuel polls deadline (elapsed + snd (polls k) + 50) (S k)
  end.
Definition CONNECT_FUEL : nat := 201.

(** The command for the worker, before the variables every worker gets. *)
Definition launcher (e : spawn_env) (worker : WorkerKind) (stable : StablePaths) (app : bytes) : result HandlerError Command :=
  match worker, stable with
  | Shim, ShimPaths script =>
      let? ruby := resolve_exe (sv_is_file e) "ruby" "OXO_RUBY" in
      Ok {| cmd_program := ruby; cmd_args := [script]; cmd_dir := None; cmd_env := [] |}
  | Puma, PumaPaths cfg rackup =>
      let? bundle := resolve_exe (sv_is_file e) "bundle" "OXO_BUNDLE" in
      let? app_dir := ok_or (parent app) (Worker (bs "rack app path has no parent directory")) in
      let? port := ok_or (sv_free_port e) (Io []) in
      Ok {| cmd_program := bundle; cmd_args := [bs "exec"; bs "puma"; bs "-C"; cfg; rackup]; cmd_dir := Some app_dir;
            cmd_env := [(bs "OXO_PUMA_PORT", show_uint port)] |}
  | _, _ => Err (Worker (bs "worker/stable-paths mismatch"))
  end.
Definition with_env (c : Command) (more : list (bytes * bytes)) : Command :=
  {| cmd_program := cmd_program c; cmd_args := cmd_args c; cmd_dir := cmd_dir c; cmd_env := cmd_env c ++ more |}.

(** The handshake: the port, or the failed boot cleaned up. *)
Definition handshake (e : spawn_env) (worker : WorkerKind) (child : nat) (stderr_path : bytes) : act Z :=
  fun h =>
    let failed what := match boot_error child stderr_path (sv_stderr e) worker what h with (err, h') => (Err err, h') end in
    match read_port (sv_lines e), sv_end e with
    | Some p, _ => (Ok p, h)
    | None, Eof => failed (bs "exited before reporting a port")
    | None, Silent => failed (bs "did not report a port within " ++ show_uint (boot_timeout worker) ++ bs "s")
    end.

Definition spawn_worker (config : Config) (stable : StablePaths) (e : spawn_env) : act Spawned :=
  let! app := lift (ok_or (sv_absolute e) (Worker (bs "resolving app path "))) in
  if negb (sv_is_file e app) then bail (Worker (bs "rack app not found at " ++ app ++ bs " (set OXO_APP or the config 'app')"))
  else
    let secret := generate_secret (sv_random e) in
    let! stderr_path := temp_path "oxo_worker_stderr" "log" in
    let! _ := write_file (if sv_create e then Written else NotCreated) stderr_path "creating worker stderr file: " in
    let! command := lift (launcher e (c_worker config) stable app) in
    let command := with_env command
      [(bs "OXO_WORKER_SECRET", secret); (bs "OXO_WORKER_APP", app); (bs "OXO_WORKER_MAX_BODY", show_uint (c_max_body_bytes config))] in
    match sv_spawn e with
    | None => fun h => (Err (Worker (bs "spawning " ++ worker_name (c_worker config) ++ bs " worker: ")), remove_file stderr_path h)
    | Some id =>
        fun h =>
          let '(child, h) := start_process command h in
          if negb (sv_stdout e) then (Err (Worker (bs "worker stdout unavailable")), reap child h)
          else (let! port := handshake e (c_worker config) child stderr_path in
                let _connected := wait_until_connectable CONNECT_FUEL (sv_polls e) 10000 0 0 in
                ret {| sp_child := child; sp_addr := loopback port; sp_secret := secret; sp_pid := unwrap_or 0 id; sp_stderr := stderr_path |}) h
    end.

(** ** The supervisor *)

Inductive Ev : Type := Died | Restart | Shutdown.
(** One pass of the respawn loop: when it starts, whether shutdown was asked for by the time
    its delay is over, and what the start meets. *)
Record attempt : Type := { a_now : Z; a_shutdown : bool; a_env : spawn_env }.
(** One pass of the outer loop: the event and when it is handled, whether shutdown was asked
    for by then, the attempts that follow, whether shutdown came during the last one, and when
    the new worker is published. *)
Record turn : Type := { t_event : Ev; t_now : Z; t_shutdown : bool; t_attempts : list attempt; t_shutdown_late : bool; t_live : Z }.

(** The supervisor's variables and what it shares with the handler; [s_published] is every
    value [state] took, newest first, and [s_delays] every delay slept. *)
Record sup : Type := {
  s_child : nat; s_stderr : bytes; s_window : list Z; s_live_since : Z;
  s_published : list WorkerState; s_pid : Z; s_respawns : Z; s_degraded : bool; s_current_stderr : bytes; s_delays : list Z }.
Definition set_window (w : list Z) (s : sup) : sup :=
  {| s_child := s_child s; s_stderr := s_stderr s; s_window := w; s_live_since := s_live_since s; s_published := s_published s; s_pid := s_pid s;
     s_respawns := s_respawns s; s_degraded := s_degraded s; s_current_stderr := s_current_stderr s; s_delays := s_delays s |}.
Definition publish (st : WorkerState) (s : sup) : sup :=
  {| s_child := s_child s; s_stderr := s_stderr s; s_window := s_window s; s_live_since := s_live_since s; s_published := st :: s_published s; s_pid := s_pid s;
     s_respawns := s_respawns s; s_degraded := s_degraded s; s_current_stderr := s_current_stderr s; s_delays := s_delays s |}.
Definition throttled (degraded : bool) (delay : Z) (s : sup) : sup :=
  {| s_child := s_child s; s_stderr := s_stderr s; s_window := s_window s; s_live_since := s_live_since s; s_published := Restarting degraded :: s_published s; s_pid := s_pid s;
     s_respawns := s_respawns s; s_degraded := degraded; s_current_stderr := s_current_stderr s; s_delays := delay :: s_delays s |}.

(** [Instant::duration_since] *)
Definition duration_since (now earlier : Z) : Z := Z.max (now - earlier) 0.
(** Expired starts leave at the front. *)
Fixpoint expire (now span : Z) (w : list Z) : list Z :=
  match w with [] => [] | front :: rest => if span <? duration_since now front then expire now span rest else w end.
Definition count_start (span : Z) (w : list Z) (now : Z) : list Z := expire now span w ++ [now].

Inductive respawned : Type := Returned | Retrying | Ready (sp : Spawned).
Section Supervise.
Variable burst : BurstParams.
Variable config : Config.
Variable stable : StablePaths.

Definition delay_of (degraded : bool) (attempt : Z) : Z := if degraded then cap burst else if attempt =? 0 then 0 else backoff burst attempt.
(** The inner loop; it has no end of its own, so a list of attempts that runs out leaves it
    [Retrying]. *)
Fixpoint respawn (n : Z) (attempts : list attempt) (s : sup) (h : host) : respawned * sup * host :=
  match attempts with
  | [] => (Retrying, s, h)
  | a :: rest =>
      let w := count_start (window burst) (s_window s) (a_now a) in
      let is_degraded := limit burst <=? zlen w in
      let s := throttled is_degraded (delay_of is_degraded n) (set_window w s) in
      if a_shutdown a then (Returned, s, h)
      else match spawn_worker config stable (a_env a) h with
           | (Ok sp, h') => (Ready sp, s, h')
           | (Err _, h') => respawn (Z.min (n + 1) u32_max) rest s h'
           end
  end.
(** The new worker is published. *)
Definition went_live (sp : Spawned) (now : Z) (s : sup) : sup :=
  {| s_child := sp_child sp; s_stderr := sp_stderr sp; s_window := s_window s; s_live_since := now;
     s_published := Live (sp_addr sp) (sp_secret sp) (s_respawns s + 1) :: s_published s; s_pid := sp_pid sp; s_respawns := s_respawns s + 1;
     s_degraded := false; s_current_stderr := sp_stderr sp; s_delays := s_delays s |}.
Inductive looping : Type := Goes | Tries | Ends.
Definition supervise_turn (t : turn) (s : sup) (h : host) : looping * sup * host :=
  let h := reap (s_child s) h in
  match t_event t with
  | Shutdown => (Ends, s, h)
  | _ =>
      if t_shutdown t then (Ends, s, h)
      else
        let s := if min_uptime burst <=? duration_since (t_now t) (s_live_since s) then set_window [] s else s in
        let s := publish (Restarting (s_degraded s)) s in
        match respawn 0 (t_attempts t) s h with
        | (Returned, s, h) => (Ends, s, h)
        | (Retrying, s, h) => (Tries, s, h)
        | (Ready sp, s, h) =>
            if t_shutdown_late t then (Ends, s, remove_file (sp_stderr sp) (reap (sp_child sp) h))
            else (Goes, went_live sp (t_live t) s, remove_file (s_stderr s) h)
        end
  end.
(** [Supervisor::run]; [Tries] is the moment the given attempts run out. *)
Fixpoint supervise (ts : list turn) (s : sup) (h : host) : looping * sup * host :=
  match ts with
  | [] => (Goes, s, h)
  | t :: ts' => match supervise_turn t s h with (Goes, s', h') => supervise ts' s' h' | r => r end
  end.
End Supervise.

(** ** The handler *)

Definition remove_files (ps : list bytes) (h : host) : host := fold_left (fun h p => remove_file p h) ps h.
(** [SupervisedRubyHandler::spawn], up to the start of the supervisor. *)
Definition spawn (config : Config) (writes : write * write) (e : spawn_env) (now : Z) : act (StablePaths * sup) :=
  let! stable := materialize (c_worker config) writes in
  fun h =>
    match spawn_worker config stable e h with
    | (Err err, h') => (Err err, remove_files (stable_files stable) h')
    | (Ok first, h') =>
        (Ok (stable, {| s_child := sp_child first; s_stderr := sp_stderr first; s_window := []; s_live_since := now;
                        s_published := [Live (sp_addr first) (sp_secret first) 0]; s_pid := sp_pid first; s_respawns := 0; s_degraded := false;
                        s_current_stderr := sp_stderr first; s_delays := [] |}), h')
    end.
(** The value of the shared state. *)
Definition state_of (s : sup) : option WorkerState := head (s_published s).
Definition worker_addr (st : WorkerState) : SocketAddr := match st with Live addr _ _ => addr | Restarting _ => loopback 0 end.
Definition temp_files (stable : StablePaths) (s : sup) : list bytes := stable_files stable ++ [s_current_stderr s].
(** [Drop]: the supervisor's task is gone and its worker with it. *)
Definition drop_handler (stable : StablePaths) (s : sup) (h : host) : host := remove_files (temp_files stable s) (reap (s_child s) h).
End Process.

(** ** One exchange with the worker *)

Record WorkerRequest : Type := { wr_method : bytes; wr_target : bytes; wr_headers : list (bytes * bytes); wr_body : bytes }.
(** How far an exchange gets: the request may have reached the worker when sending it fails,
    and has when its answer cannot be read. *)
Inductive hop : Type :=
| NoConnect | NoHandshake | NoSend (delivered : bool) | NoBody | Answer (status : Z) (headers : list (bytes * bytes)) (body : bytes).

Section Proxy.
Context `{HeaderRules}.

Definition edge_owned (k : bytes) : bool := one_of k ["host"; "content-length"; "transfer-encoding"; "connection"] || eq_bytes k SECRET_HEADER.
Definition worker_request (req : RackRequest) (addr : SocketAddr) (secret : bytes) : option WorkerRequest :=
  let target := match rq_query_string req with [] => rq_path req | q => rq_path req ++ bs "?" ++ q end in
  let hs := (bs "host", bs "127.0.0.1:" ++ show_uint (sa_port addr)) :: (SECRET_HEADER, secret) ::
            List.filter (fun h => negb (edge_owned (fst h))) (rq_headers req) in
  if valid_method (rq_method req) && valid_uri target
  then (fun built => {| wr_method := rq_method req; wr_target := target; wr_headers := built; wr_body := rq_body req |}) <$> build_headers hs
  else None.
(** The result, and the requests that reached a worker. *)
Definition proxy_once (req : RackRequest) (addr : SocketAddr) (secret : bytes) (x : hop) : result HandlerError RackResponse * list (SocketAddr * WorkerRequest) :=
  match worker_request req addr secret with
  | None => (Err (Worker (bs "building worker request: ")), [])
  | Some r =>
      match x with
      | NoConnect | NoHandshake | NoSend false => (Err (WorkerUnreachable []), [])
      | NoSend true | NoBody => (Err (WorkerUnreachable []), [(addr, r)])
      | Answer status headers body =>
          (Ok {| rs_status := status;
                 rs_headers := map (fun h => (to_ascii_lowercase (fst h), snd h)) (List.filter (fun h => visible (snd h)) headers);
                 rs_body := body |}, [(addr, r)])
      end
  end.

(** ** [handle]: up to three attempts *)

(** What a request meets: the worker state each attempt reads and how its exchange goes; and
    what it leaves: the attempts used, the requests delivered and the time slept. *)
Record exchange : Type := { x_view : nat -> WorkerState; x_hop : nat -> hop; x_at : nat; x_sent : list (SocketAddr * WorkerRequest); x_slept : Z }.
Definition after_attempt (sent : list (SocketAddr * WorkerRequest)) (slept : Z) (x : exchange) : exchange :=
  {| x_view := x_view x; x_hop := x_hop x; x_at := S (x_at x); x_sent := x_sent x ++ sent; x_slept := x_slept x + slept |}.
(** The worker's gate refused the secret. *)
Definition gate_denied (resp : RackResponse) : bool :=
  (rs_status resp =? 403) && existsb (fun h => eq_bytes (fst h) (bs "x-oxo-gate") && eq_bytes (snd h) (bs "denied")) (rs_headers resp).
Fixpoint handle_attempts (left : nat) (req : RackRequest) (x : exchange) : result HandlerError RackResponse * exchange :=
  match left with
  | O => (Err WorkerUnavailable, x)
  | S left' =>
      let last := (left' =? 0)%nat in
      match x_view x (x_at x) with
      | Restarting _ => if last then (Err WorkerUnavailable, after_attempt [] 0 x) else handle_attempts left' req (after_attempt [] 100 x)
      | Live addr secret _ =>
          match proxy_once req addr secret (x_hop x (x_at x)) with
          | (Ok resp, sent) =>
              if gate_denied resp && negb last then handle_attempts left' req (after_attempt sent 50 x)
              else (Ok resp, after_attempt sent 0 x)
          | (Err (WorkerUnreachable e), sent) =>
              if last then (Err (WorkerUnreachable e), after_attempt sent 0 x) else handle_attempts left' req (after_attempt sent 100 x)
          | (Err e, sent) => (Err e, after_attempt sent 0 x)
          end
      end
  end.
#[global] Instance supervised_handler : RackHandler exchange := handle_attempts HANDLE_ATTEMPTS.
End Proxy.
