(* ===== verification/RubySupervision.v ===== *)
(** * RubySupervision: what the supervised handler guarantees

    Properties of [RubyHandler]: one worker process at a time and never a permanent stop, the
    secret each request carries, the temporary files, the crash-loop throttle, the bounded
    retries of a request, and the request the worker gets from the Hyper edge. *)

From stdpp Require Import sorting.
From S2P Require Import Prelude Text LineText HeaderPolicy IpText FsChecks CoreConf HyperEdge RubyHandler.

(** ** Waiting for the port *)

Lemma wait_ends fuel polls deadline elapsed k :
  (forall i, 0 <= snd (polls i)) -> deadline <= elapsed + 50 * Z.of_nat fuel -> is_Some (wait_until_connectable (S fuel) polls deadline elapsed k).
Proof.
  intros P. revert elapsed k. induction fuel as [|fuel IH]; intros elapsed k D; cbn [wait_until_connectable]; pose proof (P k);
    destruct (fst (polls k)); eauto; destruct (deadline <=? _) eqn:E; eauto; [lia|]. apply IH. lia.
Qed.
(** Ten seconds of tries at least 50 milliseconds apart are at most 201 tries. *)
Lemma wait_until_connectable_ends polls : (forall i, 0 <= snd (polls i)) -> is_Some (wait_until_connectable CONNECT_FUEL polls 10000 0 0).
Proof. intros P. apply (wait_ends 200); [exact P | lia]. Qed.

(** ** Processes *)

Lemma reap_new c d h : ~ In c (h_alive h) -> h_alive (reap c {| h_files := h_files h; h_seq := h_seq h; h_alive := c :: h_alive h; h_started := d |}) = h_alive h.
Proof.
  intros N. cbn. rewrite Nat.eqb_refl. cbn [negb]. induction (h_alive h) as [|x l IH]; [reflexivity|]. cbn [List.filter].
  destruct (x =? c)%nat eqn:E; [apply Nat.eqb_eq in E; subst; destruct N; left; reflexivity|]. cbn [negb]. f_equal. apply IH. intros I. apply N. right. exact I.
Qed.
Lemma reap_only c h : h_alive h = [c] -> h_alive (reap c h) = [].
Proof. intros E. cbn. rewrite E. cbn. rewrite Nat.eqb_refl. reflexivity. Qed.

Section Process.
Variable var : string -> option bytes.
Variable temp_dir : bytes.
Variable own_pid : Z.

Abbreviation spawn_worker := (spawn_worker var temp_dir own_pid).
Abbreviation respawn := (respawn var temp_dir own_pid).
Abbreviation supervise_turn := (supervise_turn var temp_dir own_pid).
Abbreviation supervise := (supervise var temp_dir own_pid).
Abbreviation stderr_name := (temp_name temp_dir own_pid "oxo_worker_stderr" "log").

Lemma resolve_exe_file is_file name override p : resolve_exe var is_file name override = Ok p -> is_file p = true.
Proof.
  unfold resolve_exe. set (search := match var "PATH" with Some _ => _ | None => _ end).
  assert (search = Ok p -> is_file p = true) as S.
  { subst search. destruct (var "PATH"); [|discriminate]. destruct (find _ _) eqn:F; [|discriminate]. intros [= <-]. apply find_some in F as [_ F]. exact F. }
  destruct (var override) as [x|]; [|exact S]. destruct (is_file x) eqn:X; [intros [= <-]; exact X | exact S].
Qed.

(** The start leaves its stderr file behind: the launcher cannot be found, or the worker has
    no standard output. *)
Definition leaves_stderr (config : Config) (stable : StablePaths) (e : spawn_env) : bool :=
  match sv_absolute e with
  | Some app => sv_is_file e app && sv_create e &&
                match launcher var e (c_worker config) stable app with
                | Err _ => true
                | Ok _ => match sv_spawn e with Some _ => negb (sv_stdout e) | None => false end
                end
  | None => false
  end.
Definition next_seq (h : host) : Z := (h_seq h + 1) mod (u64_max + 1).

(** What a start does, on every path: on success there is one more process, started with the
    secret that is returned, and one more file; on failure no process is left, and no file but
    the one [leaves_stderr] says. *)
Record started (config : Config) (e : spawn_env) (h : host) (sp : Spawned) (h' : host) : Prop := {
  st_alive : h_alive h' = sp_child sp :: h_alive h;
  st_files : h_files h' = sp_stderr sp :: h_files h;
  st_path : sp_stderr sp = stderr_name (h_seq h);
  st_seq : h_seq h' = next_seq h;
  st_child : sp_child sp = length (h_started h);
  st_secret : sp_secret sp = generate_secret (sv_random e);
  st_addr : exists port, sp_addr sp = loopback port;
  st_command : exists c, h_started h' = c :: h_started h /\ In (bs "OXO_WORKER_SECRET", sp_secret sp) (cmd_env c) /\ sv_is_file e (cmd_program c) = true }.
Record not_started (config : Config) (stable : StablePaths) (e : spawn_env) (h h' : host) : Prop := {
  ns_alive : h_alive h' = h_alive h;
  ns_files : h_files h' = if leaves_stderr config stable e then stderr_name (h_seq h) :: h_files h else h_files h;
  ns_seq : h_seq h' = next_seq h \/ (h_seq h' = h_seq h /\ leaves_stderr config stable e = false);
  ns_commands : exists more, h_started h' = more ++ h_started h }.

Lemma remove_new p fs : ~ In p fs -> List.filter (fun q => negb (eq_bytes q p)) (p :: fs) = fs.
Proof.
  intros N. cbn [List.filter]. unfold eq_bytes at 1. rewrite bool_decide_true by reflexivity. cbn [negb].
  induction fs as [|q fs IH]; [reflexivity|]. cbn [List.filter]. unfold eq_bytes at 1. rewrite bool_decide_false by (intros ->; apply N; left; reflexivity). cbn [negb].
  f_equal. apply IH. intros I. apply N. right. exact I.
Qed.
Lemma launcher_file e worker stable app c : launcher var e worker stable app = Ok c -> sv_is_file e (cmd_program c) = true.
Proof.
  unfold launcher. destruct worker, stable; try discriminate.
  - intros (x & X & (y & _ & (z & _ & [= <-])%rbind_ok)%rbind_ok)%rbind_ok. exact (resolve_exe_file _ _ _ _ X).
  - intros (x & X & [= <-])%rbind_ok. exact (resolve_exe_file _ _ _ _ X).
Qed.

Lemma spawn_worker_spec config stable e h r h' :
  ~ In (length (h_started h)) (h_alive h) -> ~ In (stderr_name (h_seq h)) (h_files h) ->
  spawn_worker config stable e h = (r, h') ->
  match r with Ok sp => started config e h sp h' | Err _ => not_started config stable e h h' end.
Proof.
  intros Nc Nf. unfold RubyHandler.spawn_worker, bind, lift, bail, temp_path, ret.
  assert (forall l, leaves_stderr config stable e = l ->
    forall h', h_alive h' = h_alive h -> h_files h' = (if l then stderr_name (h_seq h) :: h_files h else h_files h) -> h_seq h' = next_seq h \/ (h_seq h' = h_seq h /\ l = false) ->
    (exists more, h_started h' = more ++ h_started h) -> not_started config stable e h h') as NS by (intros l <- ? ? ? ? ?; split; assumption).
  unfold leaves_stderr in NS at 1. destruct (sv_absolute e) as [app|]; cbn [ok_or];
    [|intros [= <- <-]; apply (NS false); auto; exists []; reflexivity].
  destruct (sv_is_file e app) eqn:A; cbn [negb andb] in *; [|intros [= <- <-]; apply (NS false); auto; exists []; reflexivity].
  destruct (sv_create e); cbn [write_file andb] in *; [|intros [= <- <-]; apply (NS false); auto; exists []; reflexivity].
  destruct (launcher var e (c_worker config) stable app) as [c|err] eqn:L; [|intros [= <- <-]; apply (NS true); auto; exists []; reflexivity].
  destruct (sv_spawn e) as [id|]; [|intros [= <- <-]; apply (NS false); cbn [h_alive h_files h_seq h_started remove_file create_file]; auto; [apply remove_new, Nf | exists []; reflexivity]].
  cbn [start_process h_started h_files h_seq h_alive create_file]. destruct (sv_stdout e); cbn [negb].
  - unfold handshake. destruct (read_port (sv_lines e)) as [port|].
    + intros [= <- <-]. split; try reflexivity; [eexists; reflexivity|].
      eexists. split; [reflexivity|]. split; [apply in_app_iff; right; left; reflexivity | exact (launcher_file _ _ _ _ _ L)].
    + assert (forall what h1, boot_error (length (h_started h)) (stderr_name (h_seq h)) (sv_stderr e) (c_worker config) what
        {| h_files := stderr_name (h_seq h) :: h_files h; h_seq := next_seq h; h_alive := length (h_started h) :: h_alive h; h_started := with_env c [(bs "OXO_WORKER_SECRET", generate_secret (sv_random e)); (bs "OXO_WORKER_APP", app); (bs "OXO_WORKER_MAX_BODY", show_uint (c_max_body_bytes config))] :: h_started h |} = h1 ->
        not_started config stable e h (snd h1)) as Boot.
      { intros what h1 <-. apply (NS false); [reflexivity|..]; cbn [boot_error snd remove_file reap h_alive h_files h_seq h_started]; auto.
        - apply (reap_new _ (h_started h) h Nc).
        - apply remove_new, Nf.
        - eexists [_]. reflexivity. }
      destruct (sv_end e); destruct (boot_error _ _ _ _ _ _) as [err h1] eqn:Be; intros [= <- <-]; exact (Boot _ _ Be).
  - intros [= <- <-]. apply (NS true); cbn [reap h_alive h_files h_seq h_started]; auto; [apply (reap_new _ (h_started h) h Nc) | eexists [_]; reflexivity].
Qed.

(** ** Names of temporary files *)

Lemma temp_name_inj prefix ext i j :
  is_u64 i -> is_u64 j -> temp_name temp_dir own_pid prefix ext i = temp_name temp_dir own_pid prefix ext j -> i = j.
Proof.
  unfold temp_name. intros I J E%join_inj. do 4 apply app_inv_head in E. rewrite !app_assoc in E. do 2 apply app_inv_tail in E. apply show_uint_inj; assumption.
Qed.
(** The last byte of a joined path is the last byte of the name. *)
Lemma join_last d x c : join d (x ++ [c]) = (match d with [] => x | _ => if ends_with [slash] d then d ++ x else d ++ [slash] ++ x end) ++ [c].
Proof. unfold join. destruct d; [reflexivity|]. destruct (ends_with _ _); rewrite <- ?app_assoc; reflexivity. Qed.
Lemma temp_name_last prefix ext seq x c : bs ext = x ++ [c] -> exists y, temp_name temp_dir own_pid prefix ext seq = y ++ [c].
Proof. intros E. unfold temp_name. rewrite E, !app_assoc, join_last. eauto. Qed.
Lemma stderr_not_script prefix ext i j : ext = "rb"%string \/ ext = "ru"%string -> stderr_name i <> temp_name temp_dir own_pid prefix ext j.
Proof.
  intros X E. destruct (temp_name_last "oxo_worker_stderr" "log" i (bs "lo") (zb 103) eq_refl) as [y Y].
  destruct X as [-> | ->].
  - destruct (temp_name_last prefix "rb" j (bs "r") (zb 98) eq_refl) as [z Z]. rewrite Y, Z in E. apply app_inj_tail in E as [_ E]. discriminate.
  - destruct (temp_name_last prefix "ru" j (bs "r") (zb 117) eq_refl) as [z Z]. rewrite Y, Z in E. apply app_inj_tail in E as [_ E]. discriminate.
Qed.

(** ** The host *)

(** Processes are numbered below the commands started, the sequence number has room for [n]
    more starts, and no stderr name from it on is taken. *)
Record roomy (n : nat) (h : host) : Prop := {
  ro_alive : Forall (fun c => (c < length (h_started h))%nat) (h_alive h);
  ro_seq : 0 <= h_seq h /\ h_seq h + Z.of_nat n <= u64_max;
  ro_names : forall k, h_seq h <= k <= u64_max -> ~ In (stderr_name k) (h_files h) }.
Lemma roomy_less n m h : (m <= n)%nat -> roomy n h -> roomy m h.
Proof. intros L [A S N]. split; auto. lia. Qed.
Lemma roomy_new n h : roomy (S n) h -> ~ In (length (h_started h)) (h_alive h) /\ ~ In (stderr_name (h_seq h)) (h_files h) /\ next_seq h = h_seq h + 1.
Proof.
  intros [A S N]. split; [intros I; rewrite List.Forall_forall in A; apply A in I; lia|]. split; [apply N; lia|].
  unfold next_seq. apply Z.mod_small. unfold_ints. lia.
Qed.
Lemma roomy_reap n c h : roomy n h -> roomy n (reap c h).
Proof. intros [A S N]. split; auto. cbn. rewrite List.Forall_forall in *. intros x I%filter_In. apply A, I. Qed.
Lemma roomy_remove n p h : roomy n h -> roomy n (remove_file p h).
Proof. intros [A S N]. split; auto. cbn. intros k K I%filter_In. apply (N k K), I. Qed.

(** The command a process was started with. *)
Definition launched (h : host) (child : nat) : option Command := nth_error (rev (h_started h)) child.
Definition extends (h h' : host) : Prop := exists more, h_started h' = more ++ h_started h.
#[global] Instance extends_preorder : PreOrder extends.
Proof.
  split; [intros h; exists []; reflexivity|]. intros a b c [x X] [y Y]. exists (y ++ x). rewrite Y, X, app_assoc. reflexivity.
Qed.
Lemma launched_extends h h' child c : extends h h' -> launched h child = Some c -> launched h' child = Some c.
Proof. intros [more E]. unfold launched. rewrite E, rev_app_distr. intros L. rewrite nth_error_app1; [exact L|]. apply nth_error_Some. rewrite L. discriminate. Qed.
(** A process started with this secret in its environment. *)
Definition knows (h : host) (child : nat) (secret : bytes) : Prop := exists c, launched h child = Some c /\ In (bs "OXO_WORKER_SECRET", secret) (cmd_env c).
Lemma knows_extends h h' child k : extends h h' -> knows h child k -> knows h' child k.
Proof. intros X (c & L & I). exists c. split; [exact (launched_extends _ _ _ _ X L) | exact I]. Qed.

Lemma spawn_worker_step n config stable e h r h' :
  roomy (S n) h -> spawn_worker config stable e h = (r, h') ->
  roomy n h' /\ extends h h' /\
  match r with Ok sp => started config e h sp h' /\ knows h' (sp_child sp) (sp_secret sp) | Err _ => not_started config stable e h h' end.
Proof.
  intros R E. destruct (roomy_new _ _ R) as (Nc & Nf & Sq). pose proof (spawn_worker_spec _ _ _ _ _ _ Nc Nf E) as Sp. destruct R as [A S N].
  assert (forall k, h_seq h + 1 <= k <= u64_max -> ~ In (stderr_name k) (stderr_name (h_seq h) :: h_files h)) as Names.
  { intros k K [I|I]; [|apply (N k); [lia | exact I]]. apply temp_name_inj in I; unfold_ints; lia. }
  destruct r as [sp|err].
  - pose proof Sp as [Al Fi Pa Se Ch Sec Ad (c & Co & Ie & Fp)]. split; [split|split; [exists [c]; exact Co|]].
    + rewrite Al, Co. constructor; [rewrite Ch; cbn; lia|]. eapply List.Forall_impl; [|exact A]. cbn. lia.
    + rewrite Se, Sq. lia.
    + rewrite Se, Sq, Fi, Pa. exact Names.
    + split; [exact Sp|]. exists c. split; [|exact Ie]. unfold launched. rewrite Co, Ch. cbn [rev]. rewrite <- (length_rev (h_started h)), nth_error_app2, Nat.sub_diag by lia. reflexivity.
  - pose proof Sp as [Al Fi Se (more & Co)]. split; [split|split; [exists more; exact Co | exact Sp]].
    + rewrite Al, Co. eapply List.Forall_impl; [|exact A]. cbn. intros x. rewrite length_app. lia.
    + destruct Se as [Se|[Se _]]; rewrite Se, ?Sq; lia.
    + destruct Se as [Se|[Se Lv]]; rewrite Se, Fi.
      * rewrite Sq. intros k K. destruct (leaves_stderr _ _ _); [apply Names; exact K | intros I; apply (Names k K); right; exact I].
      * rewrite Lv. intros k K. apply N. lia.
Qed.

(** ** One worker at a time *)

Section Run.
Variable burst : BurstParams.
Variable config : Config.
Variable stable : StablePaths.

Definition gen_of (st : WorkerState) : option Z := match st with Live _ _ g => Some g | Restarting _ => None end.
Definition generations (s : sup) : list Z := omap gen_of (s_published s).
(** Every live state published names a worker that was started with its secret. *)
Definition honest (h : host) (st : WorkerState) : Prop := match st with Live _ k _ => exists child, knows h child k | Restarting _ => True end.
Lemma honest_extends h h' l : extends h h' -> Forall (honest h) l -> Forall (honest h') l.
Proof. intros X. apply List.Forall_impl. intros [a k g|d]; [intros (c & K); exists c; exact (knows_extends _ _ _ _ X K) | auto]. Qed.

(** What the respawn loop leaves untouched, and what it publishes. *)
Record respawning (s s' : sup) : Prop := {
  rp_child : s_child s' = s_child s; rp_stderr : s_stderr s' = s_stderr s; rp_current : s_current_stderr s' = s_current_stderr s;
  rp_respawns : s_respawns s' = s_respawns s;
  rp_published : exists ds, s_published s' = map Restarting ds ++ s_published s;
  rp_state : state_of s = Some (Restarting (s_degraded s)) -> state_of s' = Some (Restarting (s_degraded s')) }.
#[global] Instance respawning_preorder : PreOrder respawning.
Proof.
  split; [intros s; split; auto; exists []; reflexivity|].
  intros a b c [A1 A2 A3 A4 (x & A5) A6] [B1 B2 B3 B4 (y & B5) B6]. split; try congruence; [|auto]. exists (y ++ x). rewrite B5, A5, map_app, app_assoc. reflexivity.
Qed.
Lemma throttled_respawning w d t s : respawning s (throttled d t (set_window w s)).
Proof. split; try reflexivity. exists [d]. reflexivity. Qed.

Lemma respawn_step n attempts s h r s' h' room :
  roomy (length attempts + room) h -> h_alive h = [] -> respawn burst config stable n attempts s h = (r, s', h') ->
  roomy room h' /\ extends h h' /\ respawning s s' /\ (r = Returned -> existsb a_shutdown attempts = true) /\
  match r with Ready sp => h_alive h' = [sp_child sp] /\ knows h' (sp_child sp) (sp_secret sp) | _ => h_alive h' = [] end.
Proof.
  revert n s h. induction attempts as [|a rest IH]; intros n s h R Al; cbn [RubyHandler.respawn].
  - intros [= <- <- <-]. split; [exact R|]. split; [reflexivity|]. split; [reflexivity|]. split; [discriminate | exact Al].
  - set (s1 := throttled _ _ _). pose proof (throttled_respawning _ _ _ s : respawning s s1) as T.
    destruct (a_shutdown a) eqn:Sh.
    + intros [= <- <- <-]. split; [apply (roomy_less _ _ _ (Nat.le_add_l room (length (a :: rest))) R)|]. split; [reflexivity|]. split; [exact T|]. split; [intros _; cbn; rewrite Sh; reflexivity | exact Al].
    + destruct (spawn_worker config stable (a_env a) h) as [[sp|err] h1] eqn:W; destruct (spawn_worker_step _ _ _ _ _ _ _ R W) as (R1 & X & Sp).
      * intros [= <- <- <-]. split; [apply (roomy_less _ _ _ (Nat.le_add_l room (length rest)) R1)|]. split; [exact X|]. split; [exact T|]. split; [discriminate|].
        destruct Sp as [[A] K]. rewrite A, Al. auto.
      * intros E. destruct Sp as [A]. destruct (IH _ _ _ R1 (eq_trans A Al) E) as (R2 & X2 & T2 & S2 & M).
        split; [exact R2|]. split; [etrans; eassumption|]. split; [etrans; eassumption|]. split; [intros Q; cbn; rewrite (S2 Q); apply orb_true_r | exact M].
Qed.

(** Between two turns: one process, alive, known by the secret in the shared state. *)
Record serving_one (s : sup) (h : host) : Prop := {
  so_alive : h_alive h = [s_child s];
  so_state : exists addr secret, state_of s = Some (Live addr secret (s_respawns s)) /\ knows h (s_child s) secret;
  so_honest : Forall (honest h) (s_published s);
  so_generations : generations s = rev (seqZ 0 (s_respawns s + 1)); so_count : 0 <= s_respawns s;
  so_stderr : s_current_stderr s = s_stderr s }.
Definition asked_to_stop (t : turn) : bool :=
  match t_event t with Shutdown => true | _ => false end || t_shutdown t || t_shutdown_late t || existsb a_shutdown (t_attempts t).

Lemma omap_restarting ds l : omap gen_of (map Restarting ds ++ l) = omap gen_of l.
Proof. induction ds as [|d ds IH]; [reflexivity|]. cbn. exact IH. Qed.
Lemma seqZ_rev_next n : 0 <= n -> rev (seqZ 0 (n + 1 + 1)) = (n + 1) :: rev (seqZ 0 (n + 1)).
Proof. intros P. rewrite (seqZ_app 0 (n + 1) 1) by lia. rewrite rev_app_distr. reflexivity. Qed.
Lemma restarting_honest h ds l : Forall (honest h) l -> Forall (honest h) (map Restarting ds ++ l).
Proof. intros F. induction ds as [|d ds IH]; [exact F|]. constructor; [exact I | exact IH]. Qed.

(** What a turn leaves: everything published is honest and the generations count the
    respawns; one worker while the loop goes on, none while it tries and when it ends. *)
Record turn_leaves (h : host) (room : nat) (l : looping) (s' : sup) (h' : host) : Prop := {
  tl_room : roomy room h'; tl_extends : extends h h'; tl_honest : Forall (honest h') (s_published s');
  tl_generations : generations s' = rev (seqZ 0 (s_respawns s' + 1));
  tl_worker : match l with
              | Goes => serving_one s' h'
              | Tries => h_alive h' = [] /\ state_of s' = Some (Restarting (s_degraded s'))
              | Ends => h_alive h' = []
              end }.

Section Turn.
Variables (s s1 s2 : sup) (h h1 h2 : host) (room : nat) (sp : Spawned).
Hypothesis same : respawning s s2.
Hypothesis room2 : roomy room h2.
Hypothesis grows : extends h h2.
Hypothesis all_honest : Forall (honest h2) (s_published s2).
Hypothesis all_generations : generations s2 = rev (seqZ 0 (s_respawns s2 + 1)).
Hypothesis counted : 0 <= s_respawns s2.
Hypothesis only : h_alive h2 = [sp_child sp].
Hypothesis told : knows h2 (sp_child sp) (sp_secret sp).

Lemma late_leaves : turn_leaves h room Ends s2 (remove_file (sp_stderr sp) (reap (sp_child sp) h2)).
Proof. split; [apply roomy_remove, roomy_reap, room2 | exact grows | exact all_honest | exact all_generations | exact (reap_only _ _ only)]. Qed.
Lemma live_leaves now old : turn_leaves h room Goes (went_live sp now s2) (remove_file old h2).
Proof.
  assert (generations (went_live sp now s2) = rev (seqZ 0 (s_respawns s2 + 1 + 1))) as G.
  { rewrite seqZ_rev_next by exact counted. unfold generations in *. cbn. rewrite all_generations. reflexivity. }
  assert (Forall (honest h2) (s_published (went_live sp now s2))) as Ho by (constructor; [exists (sp_child sp); exact told | exact all_honest]).
  split; [apply roomy_remove, room2 | exact grows | exact Ho | exact G|].
  split; [exact only | eexists _, _; split; [reflexivity | exact told] | exact Ho | exact G | cbn; lia | reflexivity].
Qed.
End Turn.

Lemma supervise_turn_step t s h l s' h' room :
  roomy (length (t_attempts t) + room) h -> serving_one s h -> supervise_turn burst config stable t s h = (l, s', h') ->
  turn_leaves h room l s' h' /\ (l = Ends -> asked_to_stop t = true).
Proof.
  intros R [Al St Ho Ge Co Er]. pose proof (roomy_reap _ (s_child s) _ R) as R0. pose proof (reap_only _ _ Al) as Al0.
  assert (extends h (reap (s_child s) h)) as X0 by (exists []; reflexivity).
  assert (turn_leaves h room Ends s (reap (s_child s) h)) as Quit.
  { split; [apply (roomy_less _ _ _ (Nat.le_add_l room (length (t_attempts t))) R0) | exact X0 | exact (honest_extends _ _ _ X0 Ho) | exact Ge | exact Al0]. }
  unfold RubyHandler.supervise_turn, asked_to_stop. set (s1 := publish _ _).
  assert (respawning s s1) as T0 by (subst s1; destruct (min_uptime burst <=? _); (split; try reflexivity; eexists [_]; reflexivity)).
  assert (state_of s1 = Some (Restarting (s_degraded s1))) as Re by reflexivity. clearbody s1.
  destruct (respawn burst config stable 0 (t_attempts t) s1 (reap (s_child s) h)) as [[r s2] h2] eqn:W.
  destruct (respawn_step _ _ _ _ _ _ _ _ R0 Al0 W) as (R2 & X2 & T2 & S2 & M). pose proof (transitivity T0 T2) as T. pose proof T as [C1 C2 C3 C4 (ds & C5) _].
  pose proof (transitivity X0 X2) as X. assert (Forall (honest h2) (s_published s2)) as Ho2 by (rewrite C5; apply restarting_honest, (honest_extends _ _ _ X Ho)).
  assert (generations s2 = rev (seqZ 0 (s_respawns s2 + 1))) as Ge2 by (unfold generations; rewrite C5, omap_restarting, C4; exact Ge).
  destruct (t_event t); try (intros [= <- <- <-]; auto; fail);
    (destruct (t_shutdown t); [intros [= <- <- <-]; auto|]; destruct r as [| |sp]; [intros [= <- <- <-]; split; [split; auto | intros _; rewrite S2, orb_true_r; reflexivity]
      | intros [= <- <- <-]; split; [split; auto; split; [exact M | apply T2, Re] | discriminate]|];
     destruct M as [M K]; destruct (t_shutdown_late t); intros [= <- <- <-]; [split; [apply (late_leaves s2 h h2); auto | auto] | split; [apply live_leaves; auto; lia | discriminate]]).
Qed.

Fixpoint starts_needed (ts : list turn) : nat := match ts with [] => 0 | t :: ts' => length (t_attempts t) + starts_needed ts' end.
Lemma supervise_step ts s h l s' h' room :
  roomy (starts_needed ts + room) h -> serving_one s h -> supervise burst config stable ts s h = (l, s', h') ->
  turn_leaves h room l s' h' /\ (l = Ends -> existsb asked_to_stop ts = true).
Proof.
  revert s h. induction ts as [|t ts IH]; intros s h R O; cbn [RubyHandler.supervise].
  - intros [= <- <- <-]. split; [|discriminate]. pose proof O as [Al St Ho Ge Co Er]. split; auto; reflexivity.
  - cbn [starts_needed] in R. rewrite <- Nat.add_assoc in R. destruct (supervise_turn burst config stable t s h) as [[l1 s1] h1] eqn:T.
    destruct (supervise_turn_step _ _ _ _ _ _ _ R O T) as [L Q]. destruct l1.
    + intros E. destruct (IH _ _ (tl_room _ _ _ _ _ L) (tl_worker _ _ _ _ _ L) E) as [[A B C D F] G].
      split; [split; auto; etrans; [exact (tl_extends _ _ _ _ _ L) | exact B] | intros N; cbn; rewrite (G N); apply orb_true_r].
    + intros [= <- <- <-]. split; [|discriminate]. destruct L as [A B C D F]. split; auto. apply (roomy_less _ _ _ (Nat.le_add_l room (starts_needed ts)) A).
    + intros [= <- <- <-]. split; [|intros N; cbn; rewrite (Q N); reflexivity]. destruct L as [A B C D F]. split; auto. apply (roomy_less _ _ _ (Nat.le_add_l room (starts_needed ts)) A).
Qed.
End Run.

(** ** Temporary files *)

Section Files.
Variable burst : BurstParams.
Variable config : Config.
Variable stable : StablePaths.
Abbreviation quiet := (fun a => negb (leaves_stderr config stable (a_env a))).

Lemma respawn_files n attempts s h r s' h' room :
  roomy (length attempts + room) h -> forallb quiet attempts = true -> respawn burst config stable n attempts s h = (r, s', h') ->
  h_seq h <= h_seq h' /\ h_seq h' <= u64_max /\ respawning s s' /\
  match r with
  | Ready sp => h_files h' = sp_stderr sp :: h_files h /\ exists k, sp_stderr sp = stderr_name k /\ h_seq h <= k < h_seq h'
  | _ => h_files h' = h_files h
  end.
Proof.
  revert n s h. induction attempts as [|a rest IH]; intros n s h R Q; pose proof (ro_seq _ _ R) as Room; cbn [RubyHandler.respawn].
  { intros [= <- <- <-]. split; [lia|]. split; [lia|]. split; reflexivity. }
  cbn [forallb] in Q. apply andb_true_iff in Q as [Qa Q]. apply negb_true_iff in Qa.
  set (s1 := throttled _ _ _). pose proof (throttled_respawning _ _ _ s : respawning s s1) as T.
  destruct (a_shutdown a); [intros [= <- <- <-]; split; [lia|]; split; [lia | split; [exact T | reflexivity]]|]. pose proof (roomy_new _ _ R) as (_ & _ & Sq).
  destruct (spawn_worker config stable (a_env a) h) as [[sp|err] h1] eqn:W; destruct (spawn_worker_step _ _ _ _ _ _ _ R W) as (R1 & _ & Sp); pose proof (ro_seq _ _ R1).
  - intros [= <- <- <-]. destruct Sp as [[_ Fi Pa Se] _]. split; [lia|]. split; [lia|]. split; [exact T|]. split; [exact Fi|]. exists (h_seq h). split; [exact Pa | lia].
  - intros E. destruct Sp as [_ Fi Se _]. rewrite Qa in Fi. destruct (IH _ _ _ R1 Q E) as (S & S' & T' & M). rewrite Fi in M.
    assert (h_seq h <= h_seq h1) as L by (destruct Se as [Se|[Se _]]; rewrite Se, ?Sq; lia). split; [lia|]. split; [exact S'|]. split; [etrans; eassumption|].
    destruct r; auto. destruct M as (A & k & B & C). split; [exact A|]. exists k. split; [exact B | lia].
Qed.

(** The handler's files beside the ones that were there: its scripts and the current
    worker's stderr. *)
Record owns (base : list bytes) (lo : Z) (s : sup) (h : host) : Prop := {
  ow_files : forall p, In p (h_files h) <-> In p base \/ In p (stable_files stable) \/ p = s_stderr s;
  ow_current : s_current_stderr s = s_stderr s;
  ow_name : exists k, s_stderr s = stderr_name k /\ lo <= k < h_seq h }.
Lemma remove_file_in p q h : In q (h_files (remove_file p h)) <-> In q (h_files h) /\ q <> p.
Proof. cbn. rewrite filter_In, negb_true_iff. unfold eq_bytes. rewrite bool_decide_eq_false. reflexivity. Qed.

Context (base : list bytes) (lo : Z).
Hypothesis low : 0 <= lo.
Hypothesis free : forall k, lo <= k <= u64_max -> ~ In (stderr_name k) base /\ ~ In (stderr_name k) (stable_files stable).

Section Swap.
Variables (s s2 : sup) (h h2 : host) (sp : Spawned).
Hypothesis owned : owns base lo s h.
Hypothesis same : s_stderr s2 = s_stderr s /\ s_current_stderr s2 = s_current_stderr s.
Hypothesis files2 : h_files h2 = sp_stderr sp :: h_files h.
Hypothesis named : exists k, sp_stderr sp = stderr_name k /\ h_seq h <= k < h_seq h2.
Hypothesis top : h_seq h2 <= u64_max.

Lemma new_name_free : sp_stderr sp <> s_stderr s /\ ~ In (sp_stderr sp) base /\ ~ In (sp_stderr sp) (stable_files stable) /\ ~ In (s_stderr s) base /\ ~ In (s_stderr s) (stable_files stable).
Proof.
  destruct owned as [_ _ (k0 & K0 & L0)], named as (k & K & L). rewrite K, K0. destruct (free k), (free k0); try lia.
  split; [|auto]. intros X. apply temp_name_inj in X; unfold_ints; lia.
Qed.
(** The new worker came too late: its file goes again. *)
Lemma owns_late : owns base lo s2 (remove_file (sp_stderr sp) (reap (sp_child sp) h2)).
Proof.
  destruct new_name_free as (N1 & N2 & N3 & _), same as [S S'], owned as [Fi Cu (k0 & K0 & L0)], named as (k & K & L). split.
  - intros p. rewrite remove_file_in. cbn [reap h_files]. rewrite files2, S. cbn [In]. rewrite Fi. split.
    + intros [[<-|I] N]; [congruence | exact I].
    + intros I. split; [auto|]. intros ->. destruct I as [I|[I|I]]; congruence.
  - congruence.
  - exists k0. rewrite S. split; [exact K0 | cbn; lia].
Qed.
(** The new worker is published: the old one's file goes. *)
Lemma owns_live now : owns base lo (went_live sp now s2) (remove_file (s_stderr s2) h2).
Proof.
  destruct new_name_free as (N1 & _ & _ & N4 & N5), same as [S S'], owned as [Fi Cu (k0 & K0 & L0)], named as (k & K & L). split.
  - intros p. rewrite remove_file_in, files2, S. cbn [In went_live s_stderr]. rewrite Fi. split.
    + intros [[<-|[I|[I|I]]] N]; auto. contradiction.
    + intros [I|[I|I]]; (split; [auto|]; intros ->; congruence).
  - reflexivity.
  - exists k. split; [exact K | cbn; lia].
Qed.
End Swap.

Lemma owns_turn t s h l s' h' room :
  roomy (length (t_attempts t) + room) h -> owns base lo s h -> forallb quiet (t_attempts t) = true ->
  supervise_turn burst config stable t s h = (l, s', h') -> owns base lo s' h'.
Proof.
  intros R Ow Q. pose proof Ow as [Fi Cu (k0 & K0 & L0)]. pose proof (roomy_reap _ (s_child s) _ R) as R0. unfold RubyHandler.supervise_turn.
  assert (owns base lo s (reap (s_child s) h)) as Stay by (split; eauto). set (s1 := publish _ _).
  assert (respawning s s1) as T0 by (subst s1; destruct (min_uptime burst <=? _); (split; try reflexivity; eexists [_]; reflexivity)). clearbody s1.
  destruct (respawn burst config stable 0 (t_attempts t) s1 (reap (s_child s) h)) as [[r s2] h2] eqn:W.
  destruct (respawn_files _ _ _ _ _ _ _ _ R0 Q W) as (Sq & Top & T2 & M). cbn [reap h_seq h_files] in Sq, M.
  pose proof (transitivity T0 T2) as [_ S2 S2' _ _ _].
  assert (h_files h2 = h_files h -> owns base lo s2 h2) as Same.
  { intros F. split; [intros p; rewrite F, S2; apply Fi | congruence | exists k0; rewrite S2; split; [exact K0 | lia]]. }
  destruct (t_event t); try (intros [= <- <- <-]; exact Stay);
    (destruct (t_shutdown t); [intros [= <- <- <-]; exact Stay|]; destruct r as [| |sp]; try (intros [= <- <- <-]; exact (Same M));
     destruct M as [F (k & Kn & Kl)]; destruct (t_shutdown_late t); intros [= <- <- <-]; [apply (owns_late s _ h); eauto | apply (owns_live s _ h); eauto]).
Qed.

Lemma owns_run ts s h l s' h' room :
  roomy (starts_needed ts + room) h -> serving_one s h -> owns base lo s h -> forallb (fun t => forallb quiet (t_attempts t)) ts = true ->
  supervise burst config stable ts s h = (l, s', h') -> owns base lo s' h'.
Proof.
  revert s h. induction ts as [|t ts IH]; intros s h R O F Q; cbn [RubyHandler.supervise]; [intros [= <- <- <-]; exact F|].
  cbn [starts_needed forallb] in R, Q. apply andb_true_iff in Q as [Qt Q]. rewrite <- Nat.add_assoc in R.
  destruct (supervise_turn burst config stable t s h) as [[l1 s1] h1] eqn:T. destruct (supervise_turn_step _ _ _ _ _ _ _ _ _ _ R O T) as [L _].
  pose proof (owns_turn _ _ _ _ _ _ _ R F Qt T) as F1. destruct l1; [|intros [= <- <- <-]; exact F1..].
  apply (IH _ _ (tl_room _ _ _ _ _ L) (tl_worker _ _ _ _ _ L) F1 Q).
Qed.

Lemma remove_files_in ps q h : In q (h_files (remove_files ps h)) <-> In q (h_files h) /\ ~ In q ps.
Proof.
  revert h. induction ps as [|p ps IH]; intros h; [cbn; tauto|]. change (remove_files (p :: ps) h) with (remove_files ps (remove_file p h)).
  rewrite IH, remove_file_in. cbn [In]. split; [intros [[A B] C]; split; [exact A | intros [D|D]; [congruence | exact (C D)]] | intros [A B]; split; [split; [exact A | intros ->; apply B; left; reflexivity] | intros D; apply B; right; exact D]].
Qed.
(** Dropping the handler removes what it owns and nothing else. *)
Lemma owns_dropped s h p : (forall q, In q (stable_files stable) -> ~ In q base) -> owns base lo s h -> h_seq h <= u64_max -> (In p (h_files (drop_handler stable s h)) <-> In p base).
Proof.
  intros D [Fi Cu (k & K & L)] Top. unfold drop_handler, temp_files. rewrite remove_files_in. cbn [reap h_files]. rewrite Fi, in_app_iff, Cu. cbn [In]. split; [intros [[A|[A|A]] N]; [exact A | destruct N; auto | destruct N; right; left; congruence]|].
  intros I. split; [auto|]. intros [X|[X|[]]]; [exact (D _ X I)|]. subst p. rewrite K in I. apply (proj1 (free k (conj (proj1 L) (Z.lt_le_incl _ _ (Z.lt_le_trans _ _ _ (proj2 L) Top)))) I).
Qed.
End Files.

(** ** Starting the handler *)

(** The names [materialize] may take. *)
Definition script_names : list (string * string) := [("oxo_worker", "rb"); ("oxo_puma_config", "rb"); ("oxo_puma_rackup", "ru")]%string.
Definition scripts_free (h : host) : Prop :=
  forall prefix ext k, In (prefix, ext) script_names -> h_seq h <= k <= u64_max -> ~ In (temp_name temp_dir own_pid prefix ext k) (h_files h).
Lemma seq_next k : 0 <= k < u64_max -> (k + 1) mod (u64_max + 1) = k + 1.
Proof. intros. apply Z.mod_small. unfold_ints. lia. Qed.

Lemma materialize_ok n worker writes h stable h' :
  roomy (2 + n) h -> scripts_free h -> materialize temp_dir own_pid worker writes h = (Ok stable, h') ->
  h_seq h <= h_seq h' /\ h_seq h' + Z.of_nat n <= u64_max /\ h_alive h' = h_alive h /\ h_started h' = h_started h /\
  h_files h' = rev (stable_files stable) ++ h_files h /\
  (forall q, In q (stable_files stable) -> ~ In q (h_files h)) /\
  (forall k, ~ In (stderr_name k) (stable_files stable)).
Proof.
  intros [_ [Lo Hi] _] Fr. unfold materialize, bind, temp_path, ret, write_file.
  destruct worker; cbn [h_seq]; rewrite (seq_next (h_seq h)) by lia; [rewrite (seq_next (h_seq h + 1)) by lia|]; destruct writes as [w1 w2]; cbn [fst snd];
    destruct w1; try discriminate; [destruct w2; try discriminate|]; intros [= <- <-]; cbn [h_seq h_alive h_started h_files create_file stable_files rev app];
    (split; [lia|]); (split; [lia|]); (do 3 (split; [reflexivity|])).
  - split.
    + intros q [<-|[<-|[]]]; (eapply Fr; [|lia]); cbn; auto.
    + intros k [X|[X|[]]]; symmetry in X; revert X; apply stderr_not_script; auto.
  - split.
    + intros q [<-|[]]; (eapply Fr; [|lia]); cbn; auto.
    + intros k [X|[]]; symmetry in X; revert X; apply stderr_not_script; auto.
Qed.

Lemma spawn_ok n config writes e now h stable s h' :
  roomy (3 + n) h -> scripts_free h -> h_alive h = [] -> spawn var temp_dir own_pid config writes e now h = (Ok (stable, s), h') ->
  roomy n h' /\ serving_one s h' /\ owns stable (h_files h) (h_seq h) s h' /\ (forall q, In q (stable_files stable) -> ~ In q (h_files h)) /\
  (forall k, h_seq h <= k <= u64_max -> ~ In (stderr_name k) (h_files h) /\ ~ In (stderr_name k) (stable_files stable)).
Proof.
  intros R Fr Al. unfold spawn, bind. destruct (materialize temp_dir own_pid (c_worker config) writes h) as [[st|err] h1] eqn:M; [|discriminate].
  destruct (materialize_ok (1 + n) _ _ _ _ _ R Fr M) as (L1 & L2 & A1 & S1 & F1 & Sep & Ne). pose proof R as [_ [Lo _] Nm].
  assert (roomy (S n) h1) as R1.
  { split; [rewrite A1, Al; constructor | lia|]. intros k K. rewrite F1, in_app_iff, <- in_rev. intros [I|I]; [exact (Ne k I) | apply (Nm k); [lia | exact I]]. }
  destruct (spawn_worker config st e h1) as [[sp|err] h2] eqn:W; [|discriminate]. destruct (spawn_worker_step _ _ _ _ _ _ _ R1 W) as (R2 & X & Sp & K).
  intros [= <- <- <-]. split; [exact R2|]. pose proof (roomy_new _ _ R1) as (_ & _ & Sq). pose proof Sp as [SA SF SP SS SC _ _ _].
  split; [|split; [|split; [exact Sep | intros k K'; split; [apply (Nm k); lia | apply Ne]]]].
  - split; cbn [s_child s_respawns s_published s_current_stderr s_stderr]; [rewrite SA, A1, Al; reflexivity | eexists _, _; split; [reflexivity | exact K] |
      constructor; [exists (sp_child sp); exact K | constructor] | reflexivity | lia | reflexivity].
  - split; cbn [s_current_stderr s_stderr]; [|reflexivity|exists (h_seq h1); split; [exact SP | rewrite SS, Sq; lia]].
    intros p. rewrite SF, F1. cbn [In]. rewrite in_app_iff, <- in_rev. split; [intros [<-|[I|I]]; auto | intros [I|[I| ->]]; auto].
Qed.
End Process.

(** C10. One worker at a time, and never a permanent stop.  Start the handler and let the
    supervisor run through any sequence of deaths, restart requests, failed and successful
    starts and shutdown requests.  Whenever it is between two events exactly one worker
    process is alive, the shared state names it, and it was started with the secret that state
    holds; while it retries none is alive and the state says it is restarting, degraded or
    not as the flag says.  It returns only after shutdown was asked for, and then leaves no
    process.  Every live state it ever published holds the secret some worker was started
    with, and their generations count 0, 1, 2 up to the number of respawns. *)
Theorem supervisor_keeps_one_worker var temp_dir own_pid config writes e now burst ts h stable s0 h0 l s h' :
  roomy temp_dir own_pid (3 + starts_needed ts) h -> scripts_free temp_dir own_pid h -> h_alive h = [] ->
  spawn var temp_dir own_pid config writes e now h = (Ok (stable, s0), h0) ->
  supervise var temp_dir own_pid burst config stable ts s0 h0 = (l, s, h') ->
  (forall addr secret g, In (Live addr secret g) (s_published s) -> exists child, knows h' child secret) /\
  generations s = rev (seqZ 0 (s_respawns s + 1)) /\
  (l = Ends -> existsb asked_to_stop ts = true) /\
  match l with
  | Goes => h_alive h' = [s_child s] /\ exists addr secret, state_of s = Some (Live addr secret (s_respawns s)) /\ knows h' (s_child s) secret
  | Tries => h_alive h' = [] /\ state_of s = Some (Restarting (s_degraded s))
  | Ends => h_alive h' = []
  end.
Proof.
  intros R Fr Al Sp Su. destruct (spawn_ok _ _ _ _ _ _ _ _ _ _ _ _ R Fr Al Sp) as (R0 & O & _). rewrite <- (Nat.add_0_r (starts_needed ts)) in R0.
  destruct (supervise_step _ _ _ _ _ _ _ _ _ _ _ _ _ R0 O Su) as [[_ _ Ho Ge Wk] St].
  split; [intros a k g I; rewrite List.Forall_forall in Ho; exact (Ho _ I)|]. split; [exact Ge|]. split; [exact St|].
  destruct l; auto. destruct Wk as [A B]. auto.
Qed.

(** The handler's files are its own and are gone with it.  However often the worker is
    restarted, as long as no start fails between creating its stderr file and having a process
    to run ([leaves_stderr]), the files on disk are the ones there before, the worker's scripts
    and the current worker's stderr, exactly what [temp_files] lists; dropping the handler
    leaves exactly the ones there before. *)
Theorem temporary_files_are_accounted_for var temp_dir own_pid config writes e now burst ts h stable s0 h0 l s h' :
  roomy temp_dir own_pid (3 + starts_needed ts) h -> scripts_free temp_dir own_pid h -> h_alive h = [] ->
  spawn var temp_dir own_pid config writes e now h = (Ok (stable, s0), h0) ->
  forallb (fun t => forallb (fun a => negb (leaves_stderr var config stable (a_env a))) (t_attempts t)) ts = true ->
  supervise var temp_dir own_pid burst config stable ts s0 h0 = (l, s, h') ->
  (forall p, In p (h_files h') <-> In p (h_files h) \/ In p (temp_files stable s)) /\
  (forall p, In p (h_files (drop_handler stable s h')) <-> In p (h_files h)).
Proof.
  intros R Fr Al Sp Q Su. destruct (spawn_ok _ _ _ _ _ _ _ _ _ _ _ _ R Fr Al Sp) as (R0 & O & Ow & Sep & Free). rewrite <- (Nat.add_0_r (starts_needed ts)) in R0.
  pose proof (proj1 (ro_seq _ _ _ _ R)) as Lo. destruct (supervise_step _ _ _ _ _ _ _ _ _ _ _ _ _ R0 O Su) as [L _].
  pose proof (owns_run _ _ _ _ _ _ _ _ Lo Free _ _ _ _ _ _ _ R0 O Ow Q Su) as Ow'.
  split; intros p; [|apply (owns_dropped _ _ _ _ _ Free); auto; pose proof (ro_seq _ _ _ _ (tl_room _ _ _ _ _ _ _ L)); lia].
  destruct Ow' as [Fi Cu _]. rewrite Fi. unfold temp_files. rewrite in_app_iff, Cu. cbn [In]. intuition congruence.
Qed.

(** ** The crash-loop throttle *)

(** The starts of the last [span] milliseconds. *)
Definition recent (span now : Z) (starts : list Z) : list Z := List.filter (fun t => now - t <=? span) starts.
Lemma expire_recent now span w : 0 <= span -> StronglySorted Z.le w -> expire now span w = recent span now w.
Proof.
  intros P. induction 1 as [|t w S IH F]; [reflexivity|]. cbn [expire recent List.filter]. unfold duration_since.
  destruct (span <? Z.max (now - t) 0) eqn:E, (now - t <=? span) eqn:E'; try lia; [exact IH|].
  f_equal. symmetry. rewrite List.forallb_filter_id; [reflexivity|]. apply forallb_forall. intros u U. rewrite List.Forall_forall in F. specialize (F u U). lia.
Qed.
Lemma recent_recent span a b l : a <= b -> recent span b (recent span a l) = recent span b l.
Proof.
  intros L. unfold recent. induction l as [|t l IH]; [reflexivity|]. cbn [List.filter]. destruct (a - t <=? span) eqn:E; cbn [List.filter].
  - destruct (b - t <=? span); rewrite IH; reflexivity.
  - destruct (b - t <=? span) eqn:E'; [lia | exact IH].
Qed.
Lemma recent_sorted span now l : StronglySorted Z.le l -> StronglySorted Z.le (recent span now l).
Proof.
  induction 1 as [|t l S IH F]; [constructor|]. cbn. destruct (now - t <=? span); [|exact IH]. constructor; [exact IH|].
  rewrite List.Forall_forall in *. intros u U%filter_In. apply F, U.
Qed.
Lemma recent_app span now a b : recent span now (a ++ b) = recent span now a ++ recent span now b.
Proof. apply List.filter_app. Qed.
Lemma sorted_snoc l x : StronglySorted Z.le (l ++ [x]) -> StronglySorted Z.le l /\ Forall (fun t => t <= x) l.
Proof.
  induction l as [|t l IH]; [intros _; split; constructor|]. cbn. inversion 1 as [|? ? S F]; subst. destruct (IH S) as [A B]. split.
  - constructor; [exact A|]. apply List.Forall_app in F as [F _]. exact F.
  - constructor; [|exact B]. apply List.Forall_app in F as [_ F]. inversion F; assumption.
Qed.
(** Counting one start into an exact window gives the exact window at that start. *)
Lemma count_start_recent span last w now starts :
  0 <= span -> StronglySorted Z.le (starts ++ [now]) -> last <= now -> w = recent span last starts -> count_start span w now = recent span now (starts ++ [now]).
Proof.
  intros P S L ->. destruct (sorted_snoc _ _ S) as [S' _]. unfold count_start. rewrite expire_recent, recent_recent, recent_app by (auto using recent_sorted).
  f_equal. cbn. rewrite (proj2 (Z.leb_le (now - now) span)) by lia. reflexivity.
Qed.

Lemma backoff_le_cap b n : backoff b n <= cap b.
Proof. unfold backoff. lia. Qed.
Lemma backoff_nonneg b n : 0 <= base b -> 0 <= cap b -> 0 <= n -> 0 <= backoff b n.
Proof. intros A C N. unfold backoff. apply Z.min_glb; [|exact C]. apply Z.mul_nonneg_nonneg; [exact A | apply Z.pow_nonneg; lia]. Qed.

Section Throttle.
Variable var : string -> option bytes.
Variable temp_dir : bytes.
Variable own_pid : Z.
Variable burst : BurstParams.
Hypothesis span_ok : 0 <= window burst.
Hypothesis base_ok : 0 <= base burst.
Hypothesis cap_ok : 0 <= cap burst.

(** A delay of the loop: the cap when degraded, at most the cap otherwise. *)
Definition fair_delay (d : Z) : Prop := 0 <= d <= cap burst.
Lemma delay_fair degraded n : 0 <= n -> fair_delay (delay_of burst degraded n).
Proof.
  intros N. unfold fair_delay, delay_of. destruct degraded; [lia|]. destruct (n =? 0); [lia|]. split; [apply backoff_nonneg; auto | apply backoff_le_cap].
Qed.

(** Starts in order, none after [last], followed by attempts in order from [last] on. *)
Record in_order (starts : list Z) (last : Z) (attempts : list attempt) : Prop := {
  io_starts : StronglySorted Z.le starts; io_last : Forall (fun t => t <= last) starts; io_attempts : StronglySorted Z.le (last :: map a_now attempts) }.
Lemma in_order_next starts last a rest : in_order starts last (a :: rest) -> in_order (starts ++ [a_now a]) (a_now a) rest.
Proof.
  intros [S L A]. cbn [map] in A. inversion A as [|? ? A1 A2]; subst. inversion A2 as [|? ? A3 _]; subst. split; [|apply List.Forall_app; split|exact A1].
  - clear A A1 A2. induction S as [|t l S IH F]; [repeat constructor|]. inversion L as [|? ? Lt Ll]; subst. constructor; [exact (IH Ll)|].
    apply List.Forall_app. split; [exact F | constructor; [lia | constructor]].
  - eapply List.Forall_impl; [|exact L]. cbn. lia.
  - constructor; [lia | constructor].
Qed.
Definition last_start (last : Z) (made : list attempt) : Z := List.last (map a_now made) last.

(** What the respawn loop has done after the attempts [made]. *)
Record throttle (starts : list Z) (last : Z) (made : list attempt) (s s' : sup) : Prop := {
  th_window : s_window s' = recent (window burst) (last_start last made) (starts ++ map a_now made);
  th_none : made = [] -> s' = s;
  th_degraded : made <> [] -> s_degraded s' = (limit burst <=? zlen (s_window s'));
  th_delays : exists ds, s_delays s' = ds ++ s_delays s /\ length ds = length made /\ Forall fair_delay ds /\ (made <> [] -> s_degraded s' = true -> head ds = Some (cap burst)) }.

Lemma last_cons_start (x d : Z) l : List.last (x :: l) d = List.last l x.
Proof. revert x d. induction l as [|y l IH]; intros x d; [reflexivity|]. change (List.last (x :: y :: l) d) with (List.last (y :: l) d). rewrite !IH. reflexivity. Qed.
Lemma last_start_cons last a made : last_start last (a :: made) = last_start (a_now a) made.
Proof. apply last_cons_start. Qed.
Lemma throttle_cons starts last a made s s1 s' :
  throttle starts last [a] s s1 -> throttle (starts ++ [a_now a]) (a_now a) made s1 s' -> throttle starts last (a :: made) s s'.
Proof.
  intros T1 [W2 N2 D2 (d2 & E2 & L2 & F2 & C2)]. destruct made as [|b made]; [rewrite (N2 eq_refl); exact T1|].
  destruct T1 as [W1 _ D1 (d1 & E1 & L1 & F1 & C1)]. split; [|discriminate|intros _; apply D2; discriminate|].
  - rewrite W2, (last_start_cons last a), <- app_assoc. reflexivity.
  - exists (d2 ++ d1). split; [rewrite E2, E1, app_assoc; reflexivity|]. split; [rewrite length_app, L2, L1; cbn; lia|]. split; [apply List.Forall_app; auto|].
    intros _ D. specialize (C2 ltac:(discriminate) D). destruct d2; [discriminate | exact C2].
Qed.

Lemma respawn_throttle config stable attempts n s h r s' h' starts last :
  0 <= n -> s_window s = recent (window burst) last starts -> in_order starts last attempts ->
  respawn var temp_dir own_pid burst config stable n attempts s h = (r, s', h') ->
  exists made rest, attempts = made ++ rest /\ (attempts <> [] -> made <> []) /\ throttle starts last made s s'.
Proof.
  revert n s h starts last. induction attempts as [|a rest IH]; intros n s h starts last N Wi O; cbn [respawn].
  - intros [= <- <- <-]. exists [], []. split; [reflexivity|]. split; [auto|]. split; [rewrite app_nil_r; exact Wi | reflexivity | congruence|]. exists []. split; [reflexivity|]. split; [reflexivity|]. split; [constructor | congruence].
  - pose proof (in_order_next _ _ _ _ O) as O'.
    assert (count_start (window burst) (s_window s) (a_now a) = recent (window burst) (a_now a) (starts ++ [a_now a])) as Cs.
    { apply (count_start_recent _ last); auto; [apply O'|]. destruct O as [_ _ A]. inversion A as [|? ? _ A2]; subst. inversion A2; assumption. }
    set (w := count_start _ _ _) in *. set (dg := limit burst <=? zlen w). set (s1 := throttled _ _ _).
    assert (throttle starts last [a] s s1) as T1.
    { split; [exact Cs | discriminate | reflexivity|]. exists [delay_of burst dg n]. split; [reflexivity|]. split; [reflexivity|]. split; [constructor; [apply delay_fair, N | constructor]|].
      intros _ D. cbn. unfold delay_of. change (dg = true) in D. rewrite D. reflexivity. }
    assert (forall q, (q, s1, h) = (r, s', h') \/ (exists h1, (q, s1, h1) = (r, s', h')) -> exists made rest0, a :: rest = made ++ rest0 /\ (a :: rest <> [] -> made <> []) /\ throttle starts last made s s') as Stop.
    { intros q E. assert (s1 = s') as <- by (destruct E as [[= _ <- _]|[h1 [= _ <- _]]]; reflexivity). exists [a], rest. auto. }
    destruct (a_shutdown a); [intros E; apply (Stop Returned); auto|].
    destruct (spawn_worker var temp_dir own_pid config stable (a_env a) h) as [[sp|err] h1]; [intros E; apply (Stop (Ready sp)); eauto|].
    assert (0 <= Z.min (n + 1) u32_max) as N' by (unfold u32_max; lia).
    intros E. destruct (IH _ s1 _ (starts ++ [a_now a]) (a_now a) N' Cs O' E) as (made & rst & -> & _ & T2).
    exists (a :: made), rst. split; [reflexivity|]. split; [discriminate|]. exact (throttle_cons _ _ _ _ _ _ _ T1 T2).
Qed.
End Throttle.

(** C12. The throttle counts exactly.  Take the starts made since the last healthy run, in order,
    with the window holding those recent at the last of them.  After a turn that tried to
    respawn, the window holds exactly the starts, the turn's own included, of the last
    [window] milliseconds (counting from nothing if the worker had been up for [min_uptime]);
    the handler is degraded exactly when they are at least [limit]; the delay before the last
    start was then the cap; and no delay was over the cap.  A new worker going live clears
    the flag. *)
Theorem crash_loop_throttle_is_exact var temp_dir own_pid burst config stable t s h l s' h' starts last :
  0 <= window burst -> 0 <= base burst -> 0 <= cap burst ->
  s_window s = recent (window burst) last starts -> in_order starts last (t_attempts t) ->
  t_event t <> Shutdown -> t_shutdown t = false -> t_attempts t <> [] ->
  supervise_turn var temp_dir own_pid burst config stable t s h = (l, s', h') ->
  exists made rest counted,
    t_attempts t = made ++ rest /\ made <> [] /\
    counted = (if min_uptime burst <=? duration_since (t_now t) (s_live_since s) then [] else starts) /\
    s_window s' = recent (window burst) (last_start last made) (counted ++ map a_now made) /\
    s_degraded s' = match l with Goes => false | _ => limit burst <=? zlen (s_window s') end /\
    exists ds, s_delays s' = ds ++ s_delays s /\ length ds = length made /\ Forall (fun d => 0 <= d <= cap burst) ds /\
      (limit burst <= zlen (s_window s') -> head ds = Some (cap burst)).
Proof.
  intros Wo Bo Co Wi O Ev Sh Ne E. set (counted := if min_uptime burst <=? duration_since (t_now t) (s_live_since s) then [] else starts).
  unfold supervise_turn in E. rewrite Sh in E. set (s1 := publish _ _) in E.
  assert (s_window s1 = recent (window burst) last counted /\ s_delays s1 = s_delays s) as [W1 D1] by (subst s1 counted; destruct (min_uptime burst <=? _); auto).
  assert (in_order counted last (t_attempts t)) as O1 by (subst counted; destruct (min_uptime burst <=? _); [|exact O]; destruct O as [_ _ A]; split; auto; constructor).
  clearbody s1. destruct (respawn var temp_dir own_pid burst config stable 0 (t_attempts t) s1 (reap (s_child s) h)) as [[r s2] h2] eqn:R.
  destruct (respawn_throttle _ _ _ _ Wo Bo Co _ _ _ _ _ _ _ _ _ _ _ (Z.le_refl 0) W1 O1 R) as (made & rest & Eq & Nm & [Tw _ Td (ds & Ds & Ld & Fd & Cd)]).
  specialize (Nm Ne). specialize (Td Nm). exists made, rest, counted. split; [exact Eq|]. split; [exact Nm|]. split; [reflexivity|].
  assert (limit burst <= zlen (s_window s2) -> head ds = Some (cap burst)) as Cap by (intros L; apply Cd; [exact Nm | rewrite Td; apply Z.leb_le, L]).
  rewrite D1 in Ds. destruct (t_event t); [| |congruence]; (destruct r as [| |sp]; [| |destruct (t_shutdown_late t)]; injection E as <- <- <-);
    (split; [exact Tw|]; split; [first [exact Td | reflexivity]|]; exists ds; auto).
Qed.

(** ** Concrete runs *)

Definition demo_var (k : string) : option bytes := if String.eqb k "PATH" then Some (bs "/opt/bin:/usr/bin") else None.
Definition demo_config : Config :=
  {| c_env := Development; c_bind := default_bind; c_handler := Supervised; c_worker := Shim; c_app := bs "config.ru";
     c_max_body_bytes := DEFAULT_MAX_BODY_BYTES; c_max_connections := 2; c_header_read_timeout_secs := 15; c_request_timeout_secs := 30;
     c_max_connection_secs := 0; c_max_header_count := 100; c_max_read_buf_bytes := DEFAULT_MAX_READ_BUF_BYTES; c_allow_public_bind := false |}.
Definition boots_with (random port : Z) (lines : list bytes) : spawn_env :=
  {| sv_absolute := Some (bs "/app/config.ru"); sv_is_file := fun p => one_of p ["/app/config.ru"; "/usr/bin/ruby"];
     sv_random := repeat (zb random) 16; sv_create := true; sv_free_port := Some 4000; sv_spawn := Some (Some (70 + port)); sv_stdout := true;
     sv_lines := lines; sv_end := Eof; sv_stderr := Some (bs "boom"); sv_polls := fun k => ((2 <? k)%nat, 1) |}.
Definition boots (random port : Z) : spawn_env := boots_with random port [bs "booting"; bs "OXO_PORT=nope"; bs "OXO_PORT= " ++ show_uint port].
Definition fails : spawn_env := boots_with 9 1 [bs "booting"].
Definition empty_host : host := {| h_files := [bs "/tmp/other"]; h_seq := 0; h_alive := []; h_started := [] |}.
Definition demo_turns : list turn :=
  [{| t_event := Died; t_now := 3000; t_shutdown := false; t_attempts := [{| a_now := 3000; a_shutdown := false; a_env := fails |}; {| a_now := 3500; a_shutdown := false; a_env := boots 2 4002 |}];
      t_shutdown_late := false; t_live := 4000 |};
   {| t_event := Restart; t_now := 5000; t_shutdown := false; t_attempts := [{| a_now := 5000; a_shutdown := false; a_env := boots 3 4003 |}]; t_shutdown_late := false; t_live := 5100 |}].
Definition demo_burst : BurstParams := {| limit := 2; window := 30000; min_uptime := 10000; base := 200; cap := 5000 |}.

Lemma no_temp_other prefix ext k : In (prefix, ext) (("oxo_worker_stderr", "log")%string :: script_names) -> ~ In (temp_name (bs "/tmp") 12 prefix ext k) (h_files empty_host).
Proof.
  intros I [E|[]]. unfold temp_name, join in E. change (ends_with [slash] (bs "/tmp")) with false in E. apply (f_equal (fun l => nth_error l 6)) in E.
  cbn in I. destruct I as [[= <- <-]|[[= <- <-]|[[= <- <-]|[[= <- <-]|[]]]]]; vm_compute in E; discriminate.
Qed.
Lemma empty_host_roomy : roomy (bs "/tmp") 12 6 empty_host /\ scripts_free (bs "/tmp") 12 empty_host.
Proof.
  split; [split; [constructor | cbn; unfold_ints; lia | intros k _; apply no_temp_other; left; reflexivity]|].
  intros prefix ext k I _. apply no_temp_other. right. exact I.
Qed.

Lemma supervisor_keeps_one_worker_witness :
  exists stable s0 h0 l s h',
    spawn demo_var (bs "/tmp") 12 demo_config (Written, Written) (boots 1 4001) 0 empty_host = (Ok (stable, s0), h0) /\
    supervise demo_var (bs "/tmp") 12 demo_burst demo_config stable demo_turns s0 h0 = (l, s, h') /\
    l = Goes /\ s_respawns s = 2 /\ h_alive h' = [s_child s].
Proof.
  destruct (spawn demo_var (bs "/tmp") 12 demo_config (Written, Written) (boots 1 4001) 0 empty_host) as [[[stable s0]|] h0] eqn:E; [|vm_compute in E; discriminate].
  destruct (supervise demo_var (bs "/tmp") 12 demo_burst demo_config stable demo_turns s0 h0) as [[l s] h'] eqn:R.
  exists stable, s0, h0, l, s, h'. split; [reflexivity|]. split; [exact R|].
  destruct empty_host_roomy as [Ro Fr]. pose proof (supervisor_keeps_one_worker _ _ _ _ _ _ _ _ demo_turns _ _ _ _ _ _ _ Ro Fr eq_refl E R) as (_ & _ & _ & W).
  assert (l = Goes /\ s_respawns s = 2) as [L N] by (vm_compute in E; injection E as <- <- <-; vm_compute in R; injection R as <- <- <-; split; reflexivity).
  subst l. split; [reflexivity|]. split; [exact N | exact (proj1 W)].
Defined.
Lemma temporary_files_are_accounted_for_witness :
  exists stable s0 h0 l s h',
    spawn demo_var (bs "/tmp") 12 demo_config (Written, Written) (boots 1 4001) 0 empty_host = (Ok (stable, s0), h0) /\
    supervise demo_var (bs "/tmp") 12 demo_burst demo_config stable demo_turns s0 h0 = (l, s, h') /\
    length (h_files h') = 3%nat /\ In (s_current_stderr s) (h_files h') /\ ~ In (s_current_stderr s) (h_files (drop_handler stable s h')).
Proof.
  destruct (spawn demo_var (bs "/tmp") 12 demo_config (Written, Written) (boots 1 4001) 0 empty_host) as [[[stable s0]|] h0] eqn:E; [|vm_compute in E; discriminate].
  destruct (supervise demo_var (bs "/tmp") 12 demo_burst demo_config stable demo_turns s0 h0) as [[l s] h'] eqn:R.
  exists stable, s0, h0, l, s, h'. split; [reflexivity|]. split; [exact R|]. destruct empty_host_roomy as [Ro Fr].
  assert (forallb (fun t => forallb (fun a => negb (leaves_stderr demo_var demo_config stable (a_env a))) (t_attempts t)) demo_turns = true) as Q
    by (vm_compute in E; injection E as <- _ _; vm_compute; reflexivity).
  pose proof (temporary_files_are_accounted_for _ _ _ _ _ _ _ _ demo_turns _ _ _ _ _ _ _ Ro Fr eq_refl E Q R) as [A B].
  split; [vm_compute in E; injection E as <- <- <-; vm_compute in R; injection R as <- <- <-; reflexivity|].
  split; [apply A; right; apply in_app_iff; right; left; reflexivity|]. intros I%B.
  vm_compute in E; injection E as <- <- <-; vm_compute in R; injection R as <- <- <-. vm_compute in I. destruct I as [I|[]]. discriminate.
Defined.

(** A crash loop: three starts in the window of a policy that allows two. *)
Definition crash_turn : turn :=
  {| t_event := Died; t_now := 1000; t_shutdown := false;
     t_attempts := [{| a_now := 1000; a_shutdown := false; a_env := fails |}; {| a_now := 1500; a_shutdown := false; a_env := fails |}]; t_shutdown_late := false; t_live := 0 |}.
Definition crashing : sup :=
  {| s_child := 0; s_stderr := bs "/tmp/e"; s_window := [200]; s_live_since := 500; s_published := []; s_pid := 7; s_respawns := 0; s_degraded := false;
     s_current_stderr := bs "/tmp/e"; s_delays := [] |}.
Lemma crash_loop_throttle_is_exact_witness :
  exists l s' h', supervise_turn demo_var (bs "/tmp") 12 demo_burst demo_config (ShimPaths (bs "/tmp/w.rb")) crash_turn crashing empty_host = (l, s', h') /\
    l = Tries /\ s_degraded s' = true /\ exists ds, s_delays s' = ds ++ [] /\ Forall (fun d => 0 <= d <= 5000) ds.
Proof.
  destruct (supervise_turn demo_var (bs "/tmp") 12 demo_burst demo_config (ShimPaths (bs "/tmp/w.rb")) crash_turn crashing empty_host) as [[l s'] h'] eqn:E.
  exists l, s', h'. split; [reflexivity|].
  assert (l = Tries /\ s_degraded s' = true) as [L D] by (vm_compute in E; injection E as <- <- <-; split; reflexivity). split; [exact L|]. split; [exact D|].
  destruct (crash_loop_throttle_is_exact _ _ _ demo_burst _ _ crash_turn crashing _ _ _ _ [200] 300 ltac:(cbn; lia) ltac:(cbn; lia) ltac:(cbn; lia) ltac:(vm_compute; reflexivity)
    ltac:(split; repeat constructor; cbn; lia) ltac:(discriminate) eq_refl ltac:(discriminate) E) as (made & rest & counted & _ & _ & _ & _ & _ & ds & A & _ & B & _).
  exists ds. split; [exact A | exact B].
Defined.

(** ** Corners *)

(** An empty element of [PATH], or a relative override, makes the launcher a relative path: a
    bare name is started after all. *)
Lemma launcher_can_be_a_bare_name :
  resolve_exe (fun k => if String.eqb k "PATH" then Some (bs ":/usr/bin") else None) (fun p => eq_bytes p (bs "ruby")) "ruby" "OXO_RUBY" = Ok (bs "ruby") /\
  resolve_exe (fun k => if String.eqb k "OXO_RUBY" then Some (bs "bin/ruby") else None) (fun p => eq_bytes p (bs "bin/ruby")) "ruby" "OXO_RUBY" = Ok (bs "bin/ruby").
Proof. split; vm_compute; reflexivity. Qed.
(** A worker whose launcher cannot be found leaves its stderr file on disk, once per attempt,
    and the handler does not know it. *)
Lemma missing_launcher_leaks_its_file :
  let r := spawn_worker (fun _ => None) (bs "/tmp") 12 demo_config (ShimPaths (bs "/tmp/w.rb")) (boots 1 4001) empty_host in
  is_ok (fst r) = false /\ h_files (snd r) = [bs "/tmp/oxo_worker_stderr_12_0.log"; bs "/tmp/other"].
Proof. vm_compute. split; reflexivity. Qed.
(** A first start that fails that way leaves it too, although the scripts are removed. *)
Lemma failed_spawn_leaks_its_file :
  let r := spawn (fun _ => None) (bs "/tmp") 12 demo_config (Written, Written) (boots 1 4001) 0 empty_host in
  is_ok (fst r) = false /\ h_files (snd r) = [bs "/tmp/oxo_worker_stderr_12_1.log"; bs "/tmp/other"].
Proof. vm_compute. split; reflexivity. Qed.
(** A boot timeout near the top of its range overflows the default window. *)
Lemma boot_timeout_can_overflow :
  burst_from_env (fun k => if String.eqb k "OXO_BOOT_TIMEOUT_SECS" then Some (bs "4000000000000000000") else None) Shim = None /\
  exists b, burst_from_env (fun _ => None) Puma = Some b /\ window b = 300000 /\ cap b = 5000.
Proof. split; [vm_compute; reflexivity|]. eexists. split; [vm_compute; reflexivity|]. split; reflexivity. Qed.
(** A worker that never accepts a connection is returned as ready once the deadline passed. *)
Definition never_accepts : spawn_env :=
  {| sv_absolute := Some (bs "/app/config.ru"); sv_is_file := fun p => one_of p ["/app/config.ru"; "/usr/bin/ruby"]; sv_random := repeat (zb 1) 16; sv_create := true;
     sv_free_port := None; sv_spawn := Some (Some 71); sv_stdout := true; sv_lines := [bs "OXO_PORT=4001"]; sv_end := Silent; sv_stderr := None; sv_polls := fun _ => (false, 0) |}.
Lemma unconnectable_worker_is_ready :
  wait_until_connectable CONNECT_FUEL (sv_polls never_accepts) 10000 0 0 = Some false /\
  is_ok (fst (spawn_worker demo_var (bs "/tmp") 12 demo_config (ShimPaths (bs "/tmp/w.rb")) never_accepts empty_host)) = true.
Proof. split; vm_compute; reflexivity. Qed.
