(* ===== verification/RubyProxy.v ===== *)
(** * RubyProxy: a request through the Hyper edge to the Ruby worker

    Properties of [handle] and [proxy_once] of [RubyHandler], and of the Hyper edge on top of
    them: which attempt decides the answer, and what reaches the worker. *)

From S2P Require Import Prelude Text HeaderPolicy IpText CoreConf HyperEdge RubyHandler.

(** ** The attempts of a request *)

Section Attempts.
Context `{HeaderRules}.
Variable req : RackRequest.

(** What attempt [k] meets on its own. *)
Definition attempt_result (x : exchange) (k : nat) : result HandlerError RackResponse :=
  match x_view x k with
  | Restarting _ => Err WorkerUnavailable
  | Live addr secret _ => fst (proxy_once req addr secret (x_hop x k))
  end.
Definition attempt_sends (x : exchange) (k : nat) : list (SocketAddr * WorkerRequest) :=
  match x_view x k with Restarting _ => [] | Live addr secret _ => snd (proxy_once req addr secret (x_hop x k)) end.
(** A result another attempt may better: the worker restarting, out of reach, or refusing the
    secret. *)
Definition retryable (r : result HandlerError RackResponse) : bool :=
  match r with
  | Ok resp => gate_denied resp
  | Err WorkerUnavailable | Err (WorkerUnreachable _) => true
  | Err _ => false
  end.
(** The specification: the first result that is not retryable, or the last one. *)
Fixpoint decide_at (left k : nat) (x : exchange) : nat :=
  match left with
  | O | S O => k
  | S left' => if retryable (attempt_result x k) then decide_at left' (S k) x else k
  end.

Lemma proxy_once_errors addr secret y e sent : proxy_once req addr secret y = (Err e, sent) -> e <> WorkerUnavailable.
Proof. unfold proxy_once. destruct (worker_request _ _ _); [destruct y as [| |[]| |]|]; intros [= <- <-]; discriminate. Qed.

(** One attempt, then the answer or the next one. *)
Lemma handle_attempts_step left x :
  exists t, handle_attempts (S left) req x =
    if retryable (attempt_result x (x_at x)) && negb (left =? 0)%nat
    then handle_attempts left req (after_attempt (attempt_sends x (x_at x)) t x)
    else (attempt_result x (x_at x), after_attempt (attempt_sends x (x_at x)) 0 x).
Proof.
  cbn [handle_attempts]. unfold attempt_result, attempt_sends. destruct (x_view x (x_at x)) as [addr secret g|d].
  - destruct (proxy_once req addr secret (x_hop x (x_at x))) as [[resp|e] sent] eqn:P; cbn [fst snd retryable]; [destruct (gate_denied resp && _); eauto|].
    destruct e; try (exists 0; reflexivity); [destruct (proxy_once_errors _ _ _ _ _ P eq_refl)|]. destruct (left =? 0)%nat; cbn; [exists 0 | exists 100]; reflexivity.
  - destruct (left =? 0)%nat; cbn; [exists 0 | exists 100]; reflexivity.
Qed.

(** The answer is that of attempt [d], and what was delivered is what attempts up to it sent. *)
Definition decided (x : exchange) (d : nat) (out : result HandlerError RackResponse * exchange) : Prop :=
  fst out = attempt_result x d /\ x_at (snd out) = S d /\ x_sent (snd out) = x_sent x ++ flat_map (attempt_sends x) (seq (x_at x) (S d - x_at x)).
Lemma decided_now x t : decided x (x_at x) (attempt_result x (x_at x), after_attempt (attempt_sends x (x_at x)) t x).
Proof. split; [reflexivity|]. split; [reflexivity|]. replace (S (x_at x) - x_at x)%nat with 1%nat by lia. cbn. rewrite app_nil_r. reflexivity. Qed.
Lemma decided_later x d t out : (x_at x < d)%nat -> decided (after_attempt (attempt_sends x (x_at x)) t x) d out -> decided x d out.
Proof.
  intros L (A & B & C). split; [exact A|]. split; [exact B|]. rewrite C. cbn [after_attempt x_sent x_at]. rewrite <- app_assoc. f_equal.
  replace (S d - x_at x)%nat with (S (S d - S (x_at x))) by lia. reflexivity.
Qed.
Lemma decide_at_after left k x sent t : decide_at left k (after_attempt sent t x) = decide_at left k x.
Proof. revert k. induction left as [|left IH]; intros k; [reflexivity|]. cbn [decide_at]. rewrite IH. reflexivity. Qed.
Lemma decide_at_range left k x : (0 < left)%nat -> (k <= decide_at left k x < k + left)%nat.
Proof.
  revert k. induction left as [|left IH]; intros k P; [lia|]. cbn [decide_at]. destruct left as [|left]; [lia|]. destruct (retryable _); [|lia]. specialize (IH (S k)). lia.
Qed.
Lemma handle_attempts_decides left x : (0 < left)%nat -> decided x (decide_at left (x_at x) x) (handle_attempts left req x).
Proof.
  revert x. induction left as [|left IH]; intros x P; [lia|]. clear P. destruct (handle_attempts_step left x) as [t ->].
  destruct left as [|left]; [rewrite andb_false_r; apply decided_now|]. cbn [Nat.eqb negb]. rewrite andb_true_r.
  change (decide_at (S (S left)) (x_at x) x) with (if retryable (attempt_result x (x_at x)) then decide_at (S left) (S (x_at x)) x else x_at x).
  destruct (retryable _); [|apply decided_now]. pose proof (decide_at_range (S left) (S (x_at x)) x).
  apply (decided_later x _ t); [lia|]. specialize (IH (after_attempt (attempt_sends x (x_at x)) t x)). rewrite decide_at_after in IH. apply IH. lia.
Qed.
End Attempts.

(** ** What reaches the worker *)

Section Delivered.
Context `{HeaderRulesLaws}.

Definition values (name : bytes) (hs : list (bytes * bytes)) : list bytes := map snd (List.filter (fun h => eq_bytes (fst h) name) hs).
Lemma values_none name hs : (forall k v, In (k, v) hs -> k <> name) -> values name hs = [].
Proof.
  unfold values. induction hs as [|[k v] hs IH]; intros N; [reflexivity|]. cbn [List.filter fst]. unfold eq_bytes. rewrite bool_decide_false by (apply (N k v); left; reflexivity).
  apply IH. intros k' v' I. apply (N k' v'). right. exact I.
Qed.
Lemma values_cons name k v hs : values name ((k, v) :: hs) = (if eq_bytes k name then [v] else []) ++ values name hs.
Proof. unfold values. cbn [List.filter fst]. destruct (eq_bytes k name); reflexivity. Qed.

(** Headers that the edge normalized, less its own: no name the edge sets, and none it frames. *)
Definition lowered (hs : list (bytes * bytes)) : Prop := forall k v, In (k, v) hs -> to_ascii_lowercase k = k.
Lemma client_headers_not_owned hs name : lowered hs -> edge_owned name = true ->
  values name (map (fun h => (to_ascii_lowercase (fst h), snd h)) (List.filter (fun h => negb (edge_owned (fst h))) hs)) = [].
Proof.
  intros L O. apply values_none. intros k v ([k0 v0] & [= <- <-] & I)%in_map_iff. apply filter_In in I as [I N]. cbn in *. rewrite (L _ _ I). intros ->.
  rewrite O in N. discriminate.
Qed.

Definition target_of (req : RackRequest) : bytes := match rq_query_string req with [] => rq_path req | q => rq_path req ++ bs "?" ++ q end.
(** The request for one worker: the edge's host and secret, once each, the client's other
    headers in order, no framing of the client's, and its method, target and body. *)
Record for_worker (req : RackRequest) (addr : SocketAddr) (secret : bytes) (r : WorkerRequest) : Prop := {
  fw_method : wr_method r = rq_method req; fw_target : wr_target r = target_of req; fw_body : wr_body r = rq_body req;
  fw_secret : values SECRET_HEADER (wr_headers r) = [secret];
  fw_host : values (bs "host") (wr_headers r) = [bs "127.0.0.1:" ++ show_uint (sa_port addr)];
  fw_framing : forall n, In n ["content-length"; "transfer-encoding"; "connection"]%string -> values (bs n) (wr_headers r) = [];
  fw_rest : drop 2 (wr_headers r) = List.filter (fun h => negb (edge_owned (fst h))) (rq_headers req) }.
Lemma worker_request_ok req addr secret r : lowered (rq_headers req) -> worker_request req addr secret = Some r -> for_worker req addr secret r.
Proof.
  intros L. unfold worker_request. destruct (_ && _); [|discriminate]. destruct (build_headers _) as [hs|] eqn:B; [|discriminate]. intros [= <-].
  apply build_headers_some in B as ->. cbn [map fst snd]. change (to_ascii_lowercase (bs "host")) with (bs "host"). change (to_ascii_lowercase SECRET_HEADER) with SECRET_HEADER.
  split; cbn [wr_method wr_target wr_body wr_headers]; try reflexivity.
  - rewrite !values_cons, client_headers_not_owned by (auto; reflexivity). reflexivity.
  - rewrite !values_cons, client_headers_not_owned by (auto; reflexivity). change (eq_bytes (bs "host") (bs "host")) with true. change (eq_bytes SECRET_HEADER (bs "host")) with false. reflexivity.
  - intros n [<-|[<-|[<-|[]]]]; rewrite !values_cons, client_headers_not_owned by (auto; reflexivity); reflexivity.
  - cbn [drop]. rewrite (List.map_ext_in _ (fun h => h)); [apply map_id|]. intros [k v] I%filter_In. cbn [fst snd]. rewrite (L k v) by apply I. reflexivity.
Qed.
Lemma proxy_once_sends req addr secret y a r : lowered (rq_headers req) -> In (a, r) (snd (proxy_once req addr secret y)) -> a = addr /\ for_worker req addr secret r.
Proof.
  intros L. unfold proxy_once. destruct (worker_request req addr secret) as [w|] eqn:W; [|intros []]. pose proof (worker_request_ok _ _ _ _ L W).
  destruct y as [| |[]| |]; cbn [snd In]; intros I; try (destruct I; fail); destruct I as [[= <- <-]|[]]; auto.
Qed.

Lemma proxy_once_sends_one req addr secret y : (length (snd (proxy_once req addr secret y)) <= 1)%nat.
Proof. unfold proxy_once. destruct (worker_request _ _ _); [destruct y as [| |[]| |]|]; cbn; lia. Qed.
Lemma flat_map_short {A C} (f : A -> list C) l : (forall a, length (f a) <= 1)%nat -> (length (flat_map f l) <= length l)%nat.
Proof. intros F. induction l as [|a l IH]; [cbn; lia|]. cbn. rewrite length_app. specialize (F a). lia. Qed.
(** What [handle] delivered: for a live worker some attempt saw, at most one for each attempt. *)
Lemma handle_sends req x a r :
  lowered (rq_headers req) -> x_at x = 0%nat -> x_sent x = [] -> In (a, r) (x_sent (snd (handle req x))) ->
  (exists k secret g, (k < 3)%nat /\ x_view x k = Live a secret g /\ for_worker req a secret r) /\ (length (x_sent (snd (handle req x))) <= 3)%nat.
Proof.
  intros L A S. destruct (handle_attempts_decides req 3 x ltac:(lia)) as (_ & _ & Se). pose proof (decide_at_range req 3 (x_at x) x ltac:(lia)) as Rg.
  rewrite A, S, Nat.sub_0_r in *. change (snd (handle req x)) with (snd (handle_attempts 3 req x)). rewrite Se. cbn [app]. intros (k & K & I)%in_flat_map. split.
  - apply in_seq in K. unfold attempt_sends in I. destruct (x_view x k) as [addr secret g|] eqn:V; [|destruct I]. destruct (proxy_once_sends _ _ _ _ _ _ L I) as [-> F].
    exists k, secret, g. split; [lia | auto].
  - etrans; [apply flat_map_short|rewrite length_seq; lia]. intros j. unfold attempt_sends. destruct (x_view x j); [apply proxy_once_sends_one | cbn; lia].
Qed.
End Delivered.
Lemma handle_one_world `{HeaderRules} {B W} `{BodyLib B} `{RackHandler W} (req : HyperRequest B) config local (w : W) :
  snd (handle_one req config local w) = match to_rack_request req (c_max_body_bytes config) local with Ok q => snd (handle q w) | Err _ => w end.
Proof. unfold handle_one. destruct (to_rack_request _ _ _) as [q|]; [|reflexivity]. destruct (handle q w) as [[]]; reflexivity. Qed.

(** ** Theorems *)

(** A request ends within three attempts, and the right one answers it.  For every view of the
    worker's state and every outcome of the exchanges: the answer is that of the first attempt
    that finds neither a restarting worker, nor one out of reach, nor a refused secret, or of
    the third attempt when there is none; no attempt follows it; and what was delivered to
    workers is what those attempts sent. *)
Theorem request_is_decided_in_three_attempts `{HeaderRules} (req : RackRequest) (x : exchange) :
  x_at x = 0%nat -> x_sent x = [] ->
  exists d, (d < 3)%nat /\ x_at (snd (handle req x)) = S d /\ fst (handle req x) = attempt_result req x d /\
    (forall k, (k < d)%nat -> retryable (attempt_result req x k) = true) /\ ((d < 2)%nat -> retryable (attempt_result req x d) = false) /\
    x_sent (snd (handle req x)) = flat_map (attempt_sends req x) (seq 0 (S d)).
Proof.
  intros A S. destruct (handle_attempts_decides req 3 x ltac:(lia)) as (R & At & Se). rewrite A, S in *. exists (decide_at req 3 0 x).
  pose proof (decide_at_range req 3 0 x ltac:(lia)) as L. split; [lia|]. split; [exact At|]. split; [exact R|]. split; [|split; [|rewrite Nat.sub_0_r in Se; exact Se]].
  - cbn [decide_at]. intros k. destruct (retryable (attempt_result req x 0)) eqn:E0; [|lia]. destruct (retryable (attempt_result req x 1)) eqn:E1; intros K; [|replace k with 0%nat by lia; exact E0].
    destruct k as [|[|k]]; [exact E0 | exact E1 | lia].
  - cbn [decide_at]. destruct (retryable (attempt_result req x 0)) eqn:E0; [|auto]. destruct (retryable (attempt_result req x 1)) eqn:E1; [lia | auto].
Qed.

(** C11. What the worker gets from the Hyper edge.  For every client request, every view of the
    worker's state and every outcome: each request delivered goes to the address of a live
    worker some attempt saw, with that worker's secret as its only [x-oxo-secret] whatever the
    client sent, the worker's own host, no framing header of the client's, the client's method,
    path and query, and a body within the limit; every other header is one of the client's
    with no underscore in its name, and at most three are delivered. *)
Theorem worker_gets_a_vouched_request `{HeaderRulesLaws} {B} `{BodyLaws B} (req : HyperRequest B) config local (x : exchange) a r :
  x_at x = 0%nat -> x_sent x = [] -> In (a, r) (x_sent (snd (handle_one req config local x))) ->
  (exists k secret g, (k < 3)%nat /\ x_view x k = Live a secret g /\ values SECRET_HEADER (wr_headers r) = [secret]) /\
  values (bs "host") (wr_headers r) = [bs "127.0.0.1:" ++ show_uint (sa_port a)] /\
  (forall n, In n ["content-length"; "transfer-encoding"; "connection"]%string -> values (bs n) (wr_headers r) = []) /\
  wr_method r = hr_method req /\
  wr_target r = match unwrap_or [] (hr_query req) with [] => hr_path req | q => hr_path req ++ bs "?" ++ q end /\
  zlen (wr_body r) <= c_max_body_bytes config /\
  (forall k v, In (k, v) (drop 2 (wr_headers r)) -> exists name, In (name, v) (hr_headers req) /\ k = to_ascii_lowercase name /\ contains_byte underscore name = false) /\
  (length (x_sent (snd (handle_one req config local x))) <= 3)%nat.
Proof.
  intros A S. rewrite handle_one_world. destruct (to_rack_request req (c_max_body_bytes config) local) as [q|resp] eqn:Q; [|rewrite S; intros []].
  destruct (to_rack_request_ok _ _ _ _ Q) as (Lb & Em & Ep & Eq & Eh).
  assert (lowered (rq_headers q)) as Low by (intros k v I; rewrite Eh in I; apply keep_headers_in in I as (n & _ & N & _); apply (normalized_lower n k N)).
  intros I. destruct (handle_sends q x a r Low A S I) as ((k & secret & g & K & V & F) & Len). pose proof F as [F1 F2 F3 F4 F5 F6 F7].
  split; [exists k, secret, g; auto|]. split; [exact F5|]. split; [exact F6|]. split; [congruence|]. split; [rewrite F2; unfold target_of; rewrite Eq, Ep; reflexivity|].
  split; [rewrite F3; exact Lb|]. split; [|exact Len].
  intros n v. rewrite F7. intros [J _]%filter_In. rewrite Eh in J. apply keep_headers_in in J as (m & J & N & _). exists m. split; [exact J|].
  unfold normalize_header_name in N. destruct (contains_byte underscore m); [discriminate|]. injection N as <-. auto.
Qed.

(** ** Concrete exchanges *)

(** The worker is being replaced: restarting, then refusing the old secret, then live. *)
Definition swapped : exchange :=
  {| x_view := fun k => nth k [Restarting false; Live (loopback 4001) (bs "old") 0] (Live (loopback 4002) (bs "new") 1);
     x_hop := fun k => nth k [NoConnect; Answer 403 [(bs "X-Oxo-Gate", bs "denied")] (bs "no")] (Answer 201 [(bs "Location", bs "/1")] (bs "made"));
     x_at := 0; x_sent := []; x_slept := 0 |}.
Definition demo_rack : RackRequest :=
  {| rq_method := bs "POST"; rq_path := bs "/orders"; rq_query_string := []; rq_server_name := bs "shop"; rq_server_port := 80; rq_url_scheme := bs "http";
     rq_headers := [(bs "accept", bs "text/html")]; rq_body := bs "hi" |}.
Lemma request_is_decided_in_three_attempts_witness :
  exists d, (d < 3)%nat /\ fst (@handle _ (@supervised_handler demo_rules) demo_rack swapped) = @attempt_result demo_rules demo_rack swapped d /\ is_ok (@attempt_result demo_rules demo_rack swapped d) = true /\ d = 2%nat.
Proof.
  destruct (@request_is_decided_in_three_attempts demo_rules demo_rack swapped eq_refl eq_refl) as (d & L & _ & E & R & Q & _).
  assert (d = 2%nat) as ->.
  { destruct d as [|[|[|d]]]; [specialize (Q ltac:(lia)); vm_compute in Q; discriminate | specialize (Q ltac:(lia)); vm_compute in Q; discriminate | reflexivity | lia]. }
  exists 2%nat. split; [exact L|]. split; [exact E|]. split; vm_compute; reflexivity.
Defined.
Lemma worker_gets_a_vouched_request_witness :
  exists a r, In (a, r) (x_sent (snd (@handle_one demo_rules bytes demo_body _ (@supervised_handler demo_rules) demo_request demo_cap default_bind swapped))) /\
    values SECRET_HEADER (wr_headers r) = [bs "new"] /\ zlen (wr_body r) <= 16.
Proof.
  destruct (List.find (fun ar => eq_bytes (concat (values SECRET_HEADER (wr_headers (snd ar)))) (bs "new"))
    (x_sent (snd (@handle_one demo_rules bytes demo_body _ (@supervised_handler demo_rules) demo_request demo_cap default_bind swapped)))) as [[a r]|] eqn:F; [|vm_compute in F; discriminate].
  apply List.find_some in F as [I N]. exists a, r. split; [exact I|].
  pose proof (@worker_gets_a_vouched_request demo_rules demo_laws bytes demo_body demo_body_laws demo_request demo_cap default_bind swapped a r eq_refl eq_refl I)
    as ((k & secret & g & K & V & S) & _ & _ & _ & _ & Z & _).
  split; [|exact Z]. cbn [snd] in N. rewrite S in N |- *. cbn [concat] in N. rewrite app_nil_r in N. unfold eq_bytes in N. apply bool_decide_eq_true in N. rewrite N. reflexivity.
Defined.

(** A request whose answer is lost is sent again: a [POST] can reach the worker three times. *)
Definition losing : exchange :=
  {| x_view := fun _ => Live (loopback 4001) (bs "s") 0; x_hop := fun k => nth k [NoBody; NoSend true] (Answer 200 [] []); x_at := 0; x_sent := []; x_slept := 0 |}.
Lemma lost_answer_repeats_the_request :
  length (x_sent (snd (@handle _ (@supervised_handler demo_rules) demo_rack losing))) = 3%nat /\ map (fun ar => wr_method (snd ar)) (x_sent (snd (@handle _ (@supervised_handler demo_rules) demo_rack losing))) = repeat (bs "POST") 3.
Proof. split; vm_compute; reflexivity. Qed.
(** The client's forwarding headers reach the worker. *)
Lemma forwarding_headers_pass_the_hyper_edge :
  exists r, @worker_request demo_rules {| rq_method := bs "GET"; rq_path := bs "/"; rq_query_string := []; rq_server_name := []; rq_server_port := 80; rq_url_scheme := bs "http";
      rq_headers := [(bs "x-forwarded-for", bs "203.0.113.9")]; rq_body := [] |} (loopback 4001) (bs "s") = Some r /\
    is_client_forwarding_header (bs "x-forwarded-for") = true /\ values (bs "x-forwarded-for") (wr_headers r) = [bs "203.0.113.9"].
Proof. eexists. split; [vm_compute; reflexivity|]. split; vm_compute; reflexivity. Qed.
