(* ===== verification/Embedded.v ===== *)
(** * Embedded: the in-process Ruby handler and the command-line binary

    Model of [crates/oxo-embedded/src/imp.rs] (the helper module [Oxo] it evaluates, the call
    into it, the request loop and its reply guard) and of [crates/oxo/src/main.rs].

    The Rack application is a parameter: a function of the Rack environment and of its own
    state.  The Ruby virtual machine and Magnus appear through what a call can do: return,
    raise, or panic on the Rust side. *)

From S2P Require Import Prelude Text HeaderPolicy IpText CoreConf HyperEdge RubyHandler.

(** ** The Rack environment *)

Inductive env_value : Type := Str (s : bytes) | Input (s : bytes) | Errors | Flag (b : bool).
Abbreviation rack_env := (list (bytes * env_value)).
(** [Hash#[]=] *)
Fixpoint env_set (k : bytes) (v : env_value) (env : rack_env) : rack_env :=
  match env with
  | [] => [(k, v)]
  | (k', v') :: rest => if eq_bytes k' k then (k', v) :: rest else (k', v') :: env_set k v rest
  end.
Fixpoint env_get (k : bytes) (env : rack_env) : option env_value :=
  match env with [] => None | (k', v) :: rest => if eq_bytes k' k then Some v else env_get k rest end.

Definition base_env (method path query body : bytes) : rack_env :=
  [(bs "REQUEST_METHOD", Str method); (bs "SCRIPT_NAME", Str []); (bs "PATH_INFO", Str path); (bs "QUERY_STRING", Str query);
   (bs "SERVER_NAME", Str []); (bs "SERVER_PORT", Str []); (bs "SERVER_PROTOCOL", Str (bs "HTTP/1.1")); (bs "rack.url_scheme", Str (bs "http"));
   (bs "rack.input", Input body); (bs "rack.errors", Errors); (bs "rack.multithread", Flag false); (bs "rack.multiprocess", Flag false); (bs "rack.run_once", Flag false)].
(** The key a header is stored under. *)
Definition env_key (k : bytes) : bytes :=
  if eq_bytes k (bs "content-length") then bs "CONTENT_LENGTH"
  else if eq_bytes k (bs "content-type") then bs "CONTENT_TYPE"
  else bs "HTTP_" ++ cgi_name k.
(** The [while] over the flat list of names and values; a missing value is [nil], which no
    caller passes. *)
Fixpoint add_headers (flat : list bytes) (env : rack_env) : rack_env :=
  match flat with
  | k :: v :: rest => add_headers rest (env_set (env_key k) (Str v) env)
  | _ => env
  end.

(** ** The application's answer *)

(** A body that answers [each], or only [call], or neither; its parts, and whether producing
    them raises. *)
Inductive rack_body : Type := Each (parts : list bytes) (raises : bool) | Callable (parts : list bytes) (raises : bool) | Neither.
(** [status.to_i] and the headers, each with its values. *)
Record rack_answer : Type := { ra_status : Z; ra_headers : list (bytes * list bytes); ra_body : rack_body; ra_close_raises : bool }.

Section Ruby.
Context {S : Type}.
(** Magnus turns this Ruby string into a Rust one. *)
Variable convertible : bytes -> bool.
(** The application raises ([None]) or answers. *)
Variable app : rack_env -> S -> option rack_answer * S.

Definition read_body (b : rack_body) : option bytes :=
  match b with Each parts false | Callable parts false => Some (concat parts) | _ => None end.
(** [Oxo.handle]: the status, the flat headers and the body, or an exception. *)
Definition oxo_handle (method path query : bytes) (flat : list bytes) (body : bytes) (s : S) : option (Z * list bytes * bytes) * S :=
  match app (add_headers flat (base_env method path query body)) s with
  | (None, s') => (None, s')
  | (Some a, s') =>
      match read_body (ra_body a) with
      | Some buf => if ra_close_raises a then (None, s') else (Some (ra_status a, flat_map (fun h => flat_map (fun v => [fst h; v]) (snd h)) (ra_headers a), buf), s')
      | None => (None, s')
      end
  end.

(** ** The call from Rust *)

Definition i64_min : Z := - 9223372036854775808.
Definition i64_max : Z := 9223372036854775807.
Definition flatten (hs : list (bytes * bytes)) : list bytes := flat_map (fun h => [fst h; snd h]) hs.
(** Names and values as Rust strings, in pairs: [None] if one cannot be converted. *)
Fixpoint pair_up (flat : list bytes) : option (list (bytes * bytes)) :=
  match flat with
  | k :: v :: rest =>
      if convertible k && convertible v then (fun hs => (to_ascii_lowercase k, v) :: hs) <$> pair_up rest else None
  | _ => Some []
  end.
(** [status as u16] of a 64-bit integer *)
Definition as_u16 (z : Z) : Z := z mod 65536.
Definition call_ruby (req : RackRequest) (s : S) : result HandlerError RackResponse * S :=
  match oxo_handle (rq_method req) (rq_path req) (rq_query_string req) (flatten (rq_headers req)) (rq_body req) s with
  | (None, s') => (Err (RubyError []), s')
  | (Some (status, flat, body), s') =>
      if (i64_min <=? status) && (status <=? i64_max) then
        match pair_up flat with
        | Some headers => (Ok {| rs_status := as_u16 status; rs_headers := headers; rs_body := body |}, s')
        | None => (Err (RubyError []), s')
        end
      else (Err (RubyError []), s')
  end.

(** ** The request loop *)

(** A job, and whether the call panics on the Rust side. *)
Record Job : Type := { j_req : RackRequest; j_panics : bool }.
(** What the handler's future gets: the reply, or the closed channel. *)
Definition dropped_reply : result HandlerError RackResponse := Err (RubyError (bs "ruby thread dropped the reply")).
Definition thread_gone : result HandlerError RackResponse := Err (RubyError (bs "ruby thread is gone")).
(** [ReplyGuard]: the reply channel, taken by [fulfill] or by the drop. *)
Definition fulfill (guard : option unit) (resp : RackResponse) : list RackResponse := match guard with Some _ => [resp] | None => [] end.
Definition drop_guard (guard : option unit) : list RackResponse := match guard with Some _ => [internal_error] | None => [] end.
Definition serve_job (j : Job) (s : S) : list RackResponse * bool * S :=
  let guard := Some tt in
  if j_panics j then (drop_guard guard, false, s)
  else match call_ruby (j_req j) s with
       | (Ok resp, s') => (fulfill guard resp ++ drop_guard None, true, s')
       | (Err _, s') => (fulfill guard internal_error ++ drop_guard None, true, s')
       end.
(** The loop over the jobs in the order of the channel.  A panic ends the thread: the jobs
    still queued lose their reply channel. *)
Fixpoint ruby_loop (jobs : list Job) (s : S) : list (result HandlerError RackResponse) * S :=
  match jobs with
  | [] => ([], s)
  | j :: rest =>
      match serve_job j s with
      | (replies, goes_on, s') =>
          let reply := match replies with resp :: _ => Ok resp | [] => dropped_reply end in
          if goes_on then let r := ruby_loop rest s' in (reply :: fst r, snd r)
          else (reply :: map (fun _ => dropped_reply) rest, s')
      end
  end.

(** The handler as the edge calls it, one request at a time; [Some] while the thread lives. *)
Definition handle_embedded (req : RackRequest) (w : option S) : result HandlerError RackResponse * option S :=
  match w with
  | None => (thread_gone, None)
  | Some s =>
      match serve_job {| j_req := req; j_panics := false |} s with
      | (resp :: _, _, s') => (Ok resp, Some s')
      | ([], _, s') => (dropped_reply, Some s')
      end
  end.
#[local] Instance embedded_handler : RackHandler (option S) := handle_embedded.
End Ruby.

(** ** Starting up *)

Inductive ExitCode : Type := SUCCESS | FAILURE.
(** What the start of the embedded server meets. *)
Record embedded_boot : Type := { eb_ruby : bool; eb_helper : bool; eb_module : bool; eb_load : bool; eb_thread : bool; eb_runtime : bool; eb_served : bool }.
(** The edge's thread: it returns when its runtime cannot be built or [serve] fails, having
    written why; either way the channel closes. *)
Definition edge_thread (b : embedded_boot) : option string :=
  if negb (eb_runtime b) then Some "building runtime"%string else if eb_served b then None else Some "serve error"%string.
(** The exit code, and the edge thread's message if the request loop ran. *)
Definition run_embedded_server (b : embedded_boot) : ExitCode * option (option string) :=
  if negb (eb_ruby b) then (FAILURE, None)
  else if negb (eb_helper b) then (FAILURE, None)
  else if negb (eb_module b) then (FAILURE, None)
  else if negb (eb_load b) then (FAILURE, None)
  else if negb (eb_thread b) then (FAILURE, None)
  else (SUCCESS, Some (edge_thread b)).

(** [run_supervised] of the binary: the runtime, the first worker, and [serve]. *)
Definition run_supervised (runtime : bool) (spawned : bool) (served : bool) : ExitCode :=
  if negb runtime then FAILURE else if negb spawned then FAILURE else if served then SUCCESS else FAILURE.
Record process : Type := { p_runtime : bool; p_spawned : Config -> bool; p_served : Config -> bool; p_embedded : option (Config -> embedded_boot) }.
(** [main]; [p_embedded] is [None] in a build without the feature. *)
Definition main (load : bytes -> option FileConfig) (pairs : list (bytes * bytes)) (p : process) : ExitCode :=
  match from_env_pairs load pairs with
  | Err _ => FAILURE
  | Ok config =>
      match c_handler config with
      | Supervised => run_supervised (p_runtime p) (p_spawned p config) (p_served p config)
      | Embedded => match p_embedded p with Some boot => fst (run_embedded_server (boot config)) | None => FAILURE end
      end
  end.

(** ** The environment reflects the request *)

Lemma env_get_set k k' v env : env_get k (env_set k' v env) = if eq_bytes k' k then Some v else env_get k env.
Proof.
  induction env as [|[j w] env IH]; cbn [env_set env_get].
  - destruct (eq_bytes k' k); reflexivity.
  - destruct (eq_bytes j k') eqn:E; cbn [env_get].
    + unfold eq_bytes in E. apply bool_decide_eq_true in E as ->. destruct (eq_bytes k' k); reflexivity.
    + destruct (eq_bytes j k) eqn:E'; [|exact IH]. unfold eq_bytes in E'. apply bool_decide_eq_true in E' as ->. unfold eq_bytes in *.
      rewrite bool_decide_eq_false in E. rewrite bool_decide_false by congruence. reflexivity.
Qed.
(** The value of the last header stored under a key. *)
Fixpoint last_value (key : bytes) (hs : list (bytes * bytes)) : option bytes :=
  match hs with
  | [] => None
  | (k, v) :: rest => match last_value key rest with Some w => Some w | None => if eq_bytes (env_key k) key then Some v else None end
  end.
Lemma add_headers_get hs env key : env_get key (add_headers (flatten hs) env) = match last_value key hs with Some v => Some (Str v) | None => env_get key env end.
Proof.
  revert env. induction hs as [|[k v] hs IH]; intros env; [reflexivity|]. change (flatten ((k, v) :: hs)) with (k :: v :: flatten hs). cbn [add_headers last_value]. rewrite IH, env_get_set.
  destruct (last_value key hs); [reflexivity|]. destruct (eq_bytes (env_key k) key); reflexivity.
Qed.
Lemma last_value_some key hs v : last_value key hs = Some v -> exists k, In (k, v) hs /\ env_key k = key.
Proof.
  induction hs as [|[k w] hs IH]; cbn [last_value]; [discriminate|]. destruct (last_value key hs) as [u|].
  - intros [= ->]. destruct (IH eq_refl) as (j & I & E). exists j. split; [right; exact I | exact E].
  - destruct (eq_bytes (env_key k) key) eqn:E; [|discriminate]. intros [= ->]. exists k. unfold eq_bytes in E. apply bool_decide_eq_true in E. split; [left; reflexivity | exact E].
Qed.
Lemma last_value_none key hs : last_value key hs = None -> forall k v, In (k, v) hs -> env_key k <> key.
Proof.
  induction hs as [|[k w] hs IH]; cbn [last_value]; [intros _ k v []|]. destruct (last_value key hs); [discriminate|]. destruct (eq_bytes (env_key k) key) eqn:E; [discriminate|].
  intros _ j v [[= <- <-]|I]; [unfold eq_bytes in E; apply bool_decide_eq_false in E; exact E | exact (IH eq_refl j v I)].
Qed.

(** A header is stored under its own key: no two names the edge keeps share one. *)
Definition kept_name (k : bytes) : Prop := contains_byte underscore k = false /\ existsb is_ascii_upper k = false.
Lemma env_key_http k : env_key k = bs "CONTENT_LENGTH" \/ env_key k = bs "CONTENT_TYPE" \/ env_key k = bs "HTTP_" ++ cgi_name k.
Proof. unfold env_key. cases_if; [auto|]. cases_if; auto. Qed.
Lemma env_key_inj k j : kept_name k -> kept_name j -> env_key k = env_key j -> k = j.
Proof.
  intros [Ku Kc] [Ju Jc]. unfold env_key, eq_bytes. repeat case_bool_decide; subst; try discriminate; try reflexivity; intros E%app_inv_head; apply cgi_name_inj; assumption.
Qed.
(** The keys of the environment that no header can change. *)
Definition own_keys : list string :=
  ["REQUEST_METHOD"; "SCRIPT_NAME"; "PATH_INFO"; "QUERY_STRING"; "SERVER_NAME"; "SERVER_PORT"; "SERVER_PROTOCOL"; "rack.url_scheme";
   "rack.input"; "rack.errors"; "rack.multithread"; "rack.multiprocess"; "rack.run_once"]%string.
Definition foreign (key : bytes) : bool := negb (starts_with (bs "HTTP_") key) && negb (eq_bytes key (bs "CONTENT_LENGTH")) && negb (eq_bytes key (bs "CONTENT_TYPE")).
Lemma foreign_key k key : foreign key = true -> env_key k <> key.
Proof.
  unfold foreign. intros [[A B]%andb_true_iff C]%andb_true_iff E. destruct (env_key_http k) as [X|[X|X]]; rewrite E in X; subst key.
  - rewrite X in B. vm_compute in B. discriminate.
  - rewrite X in C. vm_compute in C. discriminate.
  - rewrite X in A. change (starts_with (bs "HTTP_") (bs "HTTP_" ++ cgi_name k)) with true in A. discriminate.
Qed.
Lemma own_keys_foreign n : In n own_keys -> foreign (bs n) = true.
Proof. intros I. cbn in I. repeat (destruct I as [<-|I]; [vm_compute; reflexivity|]). destruct I. Qed.
Lemma keep_headers_kept `{HeaderRules} hs k v : In (k, v) (keep_headers hs) -> kept_name k.
Proof. intros (n & _ & N & _)%keep_headers_in. exact (normalize_some _ _ N). Qed.
Lemma base_env_keys key method path query body v : env_get key (base_env method path query body) = Some v -> foreign key = true.
Proof.
  intros E. assert (exists n, In n own_keys /\ key = bs n) as (n & I & ->); [|apply own_keys_foreign, I].
  cbn [base_env env_get] in E. unfold eq_bytes in E. repeat (case_bool_decide as K; [eexists; split; [|symmetry; exact K]; cbn; auto 20|]; clear K). discriminate.
Qed.

(** The application sees the client's request and nothing the client forged.  For a request the
    edge accepted: the variables of the request line and of Rack itself are the edge's, whatever
    the headers are called; every header the edge kept is in the environment under its own
    variable, with the last value sent under that name; and every header variable in the
    environment comes from one header the edge kept, no two names sharing a variable. *)
Theorem rack_env_is_the_request `{HeaderRules} {B} `{BodyLib B} (req : HyperRequest B) max local r :
  to_rack_request req max local = Ok r ->
  let env := add_headers (flatten (rq_headers r)) (base_env (rq_method r) (rq_path r) (rq_query_string r) (rq_body r)) in
  (forall n, In n own_keys -> env_get (bs n) env = env_get (bs n) (base_env (rq_method r) (rq_path r) (rq_query_string r) (rq_body r))) /\
  env_get (bs "REQUEST_METHOD") env = Some (Str (hr_method req)) /\ env_get (bs "PATH_INFO") env = Some (Str (hr_path req)) /\ env_get (bs "rack.input") env = Some (Input (rq_body r)) /\
  (forall k v, In (k, v) (rq_headers r) -> exists w, env_get (env_key k) env = Some (Str w) /\ In (k, w) (rq_headers r)) /\
  (forall key v, env_get key env = Some v -> foreign key = false -> exists k w, In (k, w) (rq_headers r) /\ key = env_key k /\ v = Str w) /\
  (forall k v k' v', In (k, v) (rq_headers r) -> In (k', v') (rq_headers r) -> env_key k = env_key k' -> k = k').
Proof.
  unfold to_rack_request. intros (d & _ & E)%rbind_ok. injection E as <-. cbn [rq_headers rq_method rq_path rq_query_string rq_body]. set (hs := keep_headers (hr_headers req)).
  set (base := base_env _ _ _ _). cbv zeta.
  assert (forall n, In n own_keys -> env_get (bs n) (add_headers (flatten hs) base) = env_get (bs n) base) as Own.
  { intros n I. rewrite add_headers_get. destruct (last_value (bs n) hs) as [v|] eqn:L; [|reflexivity]. apply last_value_some in L as (k & _ & K).
    destruct (foreign_key k (bs n) (own_keys_foreign n I) K). }
  split; [exact Own|]. split; [apply Own; cbn; auto|]. split; [apply Own; cbn; auto|]. split; [apply Own; cbn; auto 20|].
  assert (forall k v k' v', In (k, v) hs -> In (k', v') hs -> env_key k = env_key k' -> k = k') as Inj.
  { intros k v k' v' I I'. apply env_key_inj; [exact (keep_headers_kept _ _ _ I) | exact (keep_headers_kept _ _ _ I')]. }
  split; [|split; [|exact Inj]].
  - intros k v I. rewrite add_headers_get. destruct (last_value (env_key k) hs) as [w|] eqn:L; [|destruct (last_value_none _ _ L _ _ I eq_refl)].
    exists w. split; [reflexivity|]. apply last_value_some in L as (j & J & K). rewrite <- (Inj _ _ _ _ J I K). exact J.
  - intros key v. rewrite add_headers_get. destruct (last_value key hs) as [w|] eqn:L.
    + intros [= <-] _. apply last_value_some in L as (k & I & K). exists k, w. auto.
    + intros G F. apply base_env_keys in G. congruence.
Qed.
Lemma rack_env_is_the_request_witness :
  exists r, @to_rack_request demo_rules bytes demo_body demo_request 16 default_bind = Ok r /\
    env_get (bs "REQUEST_METHOD") (add_headers (flatten (rq_headers r)) (base_env (rq_method r) (rq_path r) (rq_query_string r) (rq_body r))) = Some (Str (bs "POST")).
Proof.
  destruct (@to_rack_request demo_rules bytes demo_body demo_request 16 default_bind) as [r|] eqn:E; [|vm_compute in E; discriminate]. exists r. split; [reflexivity|].
  destruct (@rack_env_is_the_request demo_rules bytes demo_body demo_request 16 default_bind r E) as (_ & M & _). exact M.
Defined.

(** ** Every job is answered *)

Section Loop.
Context {S : Type}.
Variable convertible : bytes -> bool.
Variable app : rack_env -> S -> option rack_answer * S.

(** What one job is answered with while the thread lives. *)
Definition answer (j : Job) (s : S) : RackResponse :=
  if j_panics j then internal_error else match fst (call_ruby convertible app (j_req j) s) with Ok resp => resp | Err _ => internal_error end.
(** The job is answered once, and the loop goes on unless it panicked. *)
Lemma serve_job_answers j s : exists s', serve_job convertible app j s = ([answer j s], negb (j_panics j), s').
Proof. unfold serve_job, answer. destruct (j_panics j); [eexists; reflexivity|]. destruct (call_ruby convertible app (j_req j) s) as [[resp|e] s']; eexists; reflexivity. Qed.
End Loop.

(** Every request handed to the Ruby thread gets exactly one reply, in order.  Whatever the
    application does, raise included: as long as no call panics each job is answered with a
    response, a 500 where the application raised or its answer could not be read; a job whose
    call panics is still answered 500; and every job behind it is told that its reply was
    dropped, none is left waiting. *)
Theorem every_job_is_answered {S} convertible (app : rack_env -> S -> option rack_answer * S) jobs s :
  length (fst (ruby_loop convertible app jobs s)) = length jobs /\
  forall before j after, jobs = before ++ j :: after -> forallb (fun b => negb (j_panics b)) before = true ->
    exists s', nth_error (fst (ruby_loop convertible app jobs s)) (length before) = Some (Ok (answer convertible app j s')) /\
      (j_panics j = true -> answer convertible app j s' = internal_error /\ fst (ruby_loop convertible app jobs s) = take (Datatypes.S (length before)) (fst (ruby_loop convertible app jobs s)) ++ map (fun _ => dropped_reply) after).
Proof.
  revert s. induction jobs as [|k rest IH]; intros s; [split; [reflexivity|]; intros [|? ?] ? ? E; discriminate|].
  cbn [ruby_loop]. destruct (serve_job_answers convertible app k s) as [s1 ->]. destruct (IH s1) as [L Q]. destruct (j_panics k) eqn:P; cbn [negb fst].
  - split; [cbn; rewrite length_map; reflexivity|]. intros [|b before] j after [= -> ->] F; [|cbn in F; rewrite P in F; discriminate].
    exists s. split; [reflexivity|]. intros _. split; [unfold answer; rewrite P; reflexivity | reflexivity].
  - split; [cbn; rewrite L; reflexivity|]. intros [|b before] j after [= -> ->] F.
    + exists s. split; [reflexivity|]. congruence.
    + cbn [forallb] in F. apply andb_true_iff in F as [_ F]. destruct (Q before j after eq_refl F) as (s' & N & D). exists s'. split; [exact N|].
      intros Pj. destruct (D Pj) as [A E]. split; [exact A|]. cbn [length take List.app]. f_equal. exact E.
Qed.

(** ** Corners *)

(** The status is cut to 16 bits: an application's 65736 is sent as 200. *)
Definition odd_status : rack_env -> unit -> option rack_answer * unit :=
  fun _ u => (Some {| ra_status := 65736; ra_headers := [(bs "x-a", [bs "1"; bs "2"])]; ra_body := Each [bs "o"; bs "k"] false; ra_close_raises := false |}, u).
Lemma embedded_status_wraps :
  match @to_rack_request demo_rules bytes demo_body demo_request 16 default_bind with
  | Ok r => fst (call_ruby utf8 odd_status r tt) = Ok {| rs_status := 200; rs_headers := [(bs "x-a", bs "1"); (bs "x-a", bs "2")]; rs_body := bs "ok" |}
  | Err _ => False
  end.
Proof. vm_compute. reflexivity. Qed.
(** An embedded server that could not listen exits with success. *)
Lemma embedded_serve_error_exits_zero :
  let b := {| eb_ruby := true; eb_helper := true; eb_module := true; eb_load := true; eb_thread := true; eb_runtime := true; eb_served := false |} in
  run_embedded_server b = (SUCCESS, Some (Some "serve error"%string)) /\ run_supervised true true false = FAILURE.
Proof. split; reflexivity. Qed.
(** Three jobs, the second of which panics. *)
Definition plain_get : RackRequest :=
  {| rq_method := bs "GET"; rq_path := bs "/"; rq_query_string := []; rq_server_name := []; rq_server_port := 80; rq_url_scheme := bs "http"; rq_headers := []; rq_body := [] |}.
Definition plain_job (panics : bool) : Job := {| j_req := plain_get; j_panics := panics |}.
Lemma every_job_is_answered_witness :
  let jobs := [plain_job false; plain_job true; plain_job false] in
  length (fst (ruby_loop utf8 odd_status jobs tt)) = 3%nat /\ nth_error (fst (ruby_loop utf8 odd_status jobs tt)) 1 = Some (Ok internal_error).
Proof.
  cbv zeta. destruct (every_job_is_answered utf8 odd_status [plain_job false; plain_job true; plain_job false] tt) as [L Q]. split; [exact L|].
  destruct (Q [plain_job false] (plain_job true) [plain_job false] eq_refl eq_refl) as (s' & N & D). destruct (D eq_refl) as [A _]. rewrite <- A. exact N.
Defined.
