(* ===== verification/EdgeConf.v ===== *)
(** * EdgeConf: the configuration the edge starts with

    Model of [run_with_cli] of [crates/oxo-pingora-edge/src/platform/config.rs] with all the
    readers it calls, up to the options handed to the running edge, and of
    [EdgeConfig::new_with_worker_sockets_and_public_alpha] of [lib.rs].  The environment, the
    file system, the certificate library, the mount parser and the resource limits are
    parameters.  Errors carry the name they report, not the message. *)

From stdpp Require Import gmap.
From S2P Require Import Prelude Text IpText EdgeCli ServiceConf FsChecks Identity FdBudget FramePool Dispatch FrameSend.

Inductive EdgeError : Type :=
| ConfigEnv (name : string)
| NonLoopbackBind
| ZeroMaxBody
| NoWorkersConfigured
| FsError (e : fs_error)
| TlsCertificateName
| AcmeCommand.                      (** the one-shot ACME commands, which end here *)

Inductive BindKind : Type := Http | Https.
Inductive ListenerMode : Type := Plain | Tls (cert_path key_path : bytes) (h2 : bool).
Definition is_tls (l : ListenerMode) : bool := match l with Plain => false | Tls _ _ _ => true end.
Definition url_scheme (l : ListenerMode) : bytes := match l with Plain => bs "http" | Tls _ _ _ => bs "https" end.
Inductive PublicMode : Type := Alpha | SmokeBeta.
Definition public_mode_parse (raw : bytes) : option PublicMode :=
  if eq_bytes raw (bs "alpha") then Some Alpha else if one_of raw ["smoke-beta"; "beta"]%string then Some SmokeBeta else None.
Definition requires_admin_health (m : PublicMode) : bool := match m with SmokeBeta => true | Alpha => false end.
Inductive WorkerHop : Type := Frame | HttpHop.
Inductive RequestLogMode : Type := LogOff | LogRejections | LogAll.

Definition DEFAULT_MAX_BODY_BYTES : Z := 16777216.
Definition DEFAULT_PUBLIC_MAX_IN_FLIGHT_PER_IDENTITY : Z := 64.
Definition DEFAULT_HEADER_READ_TIMEOUT_MS : Z := 15000.
Definition DEFAULT_KEEPALIVE_IDLE_TIMEOUT_MS : Z := 15000.
Definition DEFAULT_MAX_REQUESTS_PER_CONNECTION : Z := 1000.
Definition DEFAULT_H2_MAX_CONCURRENT_STREAMS : Z := 100.
Definition DEFAULT_H2_MAX_RESET_STREAMS : Z := 20.
Definition DEFAULT_LONG_LIVED_MAX_CONNECTIONS : Z := 128.
Definition DEFAULT_LONG_LIVED_MAX_BUFFERED_BYTES : Z := 67108864.
Definition DEFAULT_LONG_LIVED_DOWNSTREAM_WRITE_TIMEOUT_MS : Z := 10000.
Definition DEFAULT_EDGE_DRAIN_GRACE_MS : Z := 2000.
Definition MAX_LISTENER_TASKS : Z := 64.
Definition MAX_EDGE_THREADS : Z := 1024.

Record SlowClientPolicy : Type := {
  sc_header_read_timeout_ms : Z; sc_keepalive_idle_timeout_ms : Z; sc_max_connection_secs : option Z;
  sc_keepalive_enabled : bool; sc_keepalive_request_limit : option Z }.
Record LongLivedLimits : Type := { ll_max_connections : Z; ll_max_buffered_bytes : Z; ll_write_timeout_ms : Z }.
Record H2Policy : Type := { max_concurrent_streams : Z; max_reset_streams : Z }.
Record ServeRailsPlan : Type := { static_dir : option bytes; static_assets : bool; static_overridden : bool }.

(** What the certificate library finds in a file. *)
Inductive certificate : Type := Unreadable | Unparsable | DnsNames (names : list bytes).

Section EdgeConf.
Variable getenv : string -> option bytes.
Variable lstat : bytes -> stat.
(** [Path::exists] and [Path::is_dir]. *)
Variables (exists_path is_dir : bytes -> bool).
Variable certificate_of : bytes -> certificate.
Variable mount_parses : bytes -> bool.
Variable limits : Nofile.
Variable nproc : Z.

(** ** Variables *)

Inductive var : Type := Absent | NotUnicode | Value (v : bytes).
Definition env_var (name : string) : var :=
  match getenv name with None => Absent | Some v => if utf8 v then Value v else NotUnicode end.
Definition opt_string (name : string) : result EdgeError (option bytes) :=
  match env_var name with
  | Absent => Ok None
  | NotUnicode => Err (ConfigEnv name)
  | Value v => if is_empty (trim v) then Ok None else Ok (Some v)
  end.
Definition opt_bool (name : string) : result EdgeError (option bool) :=
  let? o := opt_string name in
  match o with None => Ok None | Some v => let? b := ok_or (parse_bool v) (ConfigEnv name) in Ok (Some b) end.
Definition env_flag (name : string) (default : bool) : result EdgeError bool :=
  match env_var name with Absent => Ok default | NotUnicode => Err (ConfigEnv name) | Value v => ok_or (parse_bool v) (ConfigEnv name) end.
Definition opt_u64 (name : string) : result EdgeError (option Z) :=
  let? o := opt_string name in
  match o with None => Ok None | Some v => let? n := ok_or (parse_uint u64_max v) (ConfigEnv name) in Ok (Some n) end.
Definition read_env (name : string) : result EdgeError bytes :=
  match env_var name with Value v => Ok v | _ => Err (ConfigEnv name) end.
Definition opt_path (name : string) : option bytes := optional_path getenv name.
(** [env::var(name).ok()]. *)
Definition env_ok (name : string) : option bytes := match env_var name with Value v => Some v | _ => None end.

(** A number from the command line, else from the variable, with the name an error reports. *)
Definition num_or_env (cli_value : option Z) (cli_name env_name : string) : result EdgeError (option Z * string) :=
  match cli_value with
  | Some v => Ok (Some v, cli_name)
  | None => let? o := opt_u64 env_name in Ok (o, env_name)
  end.
Definition required_nonzero_u64 (cli_value : option Z) (cli_name env_name : string) (default : Z) : result EdgeError Z :=
  let? (o, name) := num_or_env cli_value cli_name env_name in
  let v := unwrap_or default o in
  if v =? 0 then Err (ConfigEnv name) else Ok v.
Definition optional_nonzero_u64 (cli_value : option Z) (cli_name env_name : string) : result EdgeError (option Z) :=
  let? (o, name) := num_or_env cli_value cli_name env_name in
  match o with Some v => if v =? 0 then Err (ConfigEnv name) else Ok (Some v) | None => Ok None end.
Definition text_or_env (cli_value : option bytes) (cli_name env_name : string) : result EdgeError (option bytes * string) :=
  match cli_value with
  | Some v => Ok (Some v, cli_name)
  | None => let? o := opt_string env_name in Ok (o, env_name)
  end.

(** ** The listener *)

Definition SOCKET_ACTIVATION_ENV : list string := ["LISTEN_FDS"; "LISTEN_PID"; "LISTEN_FDNAMES"]%string.
Definition socket_activation_env_name : option string :=
  List.find (fun n => match getenv n with Some v => negb (is_empty v) | None => false end) SOCKET_ACTIVATION_ENV.
Definition reject_socket_activation_env : result EdgeError unit :=
  match socket_activation_env_name with Some n => Err (ConfigEnv n) | None => Ok tt end.

Definition read_bind (cli : EdgeCliConfig) : result EdgeError (SocketAddr * BindKind) :=
  match binds cli !! http_bind, binds cli !! https_bind with
  | Some _, Some _ => Err (ConfigEnv "argv")
  | Some b, None => Ok (b, Http)
  | None, Some b => Ok (b, Https)
  | None, None =>
      let? raw := read_env "OXO_EDGE_BIND" in
      let? b := ok_or (parse_socket_addr raw) (ConfigEnv "OXO_EDGE_BIND") in
      let? tls := env_flag "OXO_EDGE_TLS" false in
      Ok (b, if tls then Https else Http)
  end.
Definition read_worker_sockets (cli : EdgeCliConfig) : result EdgeError (list bytes) :=
  match repeated_of (lists cli) worker_sockets with
  | [] =>
      match env_var "OXO_EDGE_WORKER_SOCKETS" with
      | Value raw => match list_items (zb 44) raw with [] => Err (ConfigEnv "OXO_EDGE_WORKER_SOCKETS") | l => Ok l end
      | Absent => let? s := read_env "OXO_EDGE_WORKER_SOCKET" in Ok [s]
      | NotUnicode => Err (ConfigEnv "OXO_EDGE_WORKER_SOCKETS")
      end
  | l => Ok l
  end.
Definition read_max_body (cli : EdgeCliConfig) : result EdgeError (Z * bool) :=
  match nums cli !! max_body_bytes with
  | Some v => Ok (v, true)
  | None =>
      match env_var "OXO_EDGE_MAX_BODY" with
      | Value raw => let? v := ok_or (parse_uint u64_max raw) (ConfigEnv "OXO_EDGE_MAX_BODY") in Ok (v, true)
      | Absent => Ok (DEFAULT_MAX_BODY_BYTES, false)
      | NotUnicode => Err (ConfigEnv "OXO_EDGE_MAX_BODY")
      end
  end.
Definition path_or_env (o : option bytes) (name : string) : result EdgeError bytes :=
  match o with Some p => Ok p | None => ok_or (opt_path name) (ConfigEnv name) end.
Definition is_some {A} (o : option A) : bool := match o with Some _ => true | None => false end.
Definition read_listener_mode (cli : EdgeCliConfig) (kind : BindKind) : result EdgeError ListenerMode :=
  let cli_requests_tls := match kind with Https => true | Http => false end || is_some (paths cli !! tls_cert) || is_some (paths cli !! tls_key) in
  let env_tls_allowed := negb (is_some (binds cli !! http_bind)) && negb (is_some (binds cli !! https_bind)) &&
                         negb (is_some (paths cli !! tls_cert)) && negb (is_some (paths cli !! tls_key)) in
  let? tls_requested := if cli_requests_tls then Ok true else if env_tls_allowed then env_flag "OXO_EDGE_TLS" false else Ok false in
  if negb tls_requested then Ok Plain
  else
    let? cert := path_or_env (paths cli !! tls_cert) "OXO_EDGE_TLS_CERT" in
    let? key := path_or_env (paths cli !! tls_key) "OXO_EDGE_TLS_KEY" in
    let? _ := map_err FsError (validate_tls_file lstat cert false) in
    let? _ := map_err FsError (validate_tls_file lstat key true) in
    let? h2 := match tris cli !! tls_h2 with Some v => Ok v | None => env_flag "OXO_EDGE_TLS_H2" true end in
    Ok (Tls cert key h2).
Definition validate_future_acme_state_path (cli : EdgeCliConfig) : result EdgeError unit :=
  match or_else (paths cli !! acme_state_path) (opt_path "OXO_EDGE_ACME_STATE_PATH") with
  | Some p => if is_absolute p then Ok tt else Err (ConfigEnv "OXO_EDGE_ACME_STATE_PATH")
  | None => Ok tt
  end.
Definition read_server_name (cli : EdgeCliConfig) : result EdgeError (bytes * bool) :=
  match texts cli !! fqdn with
  | Some n => if is_empty (trim n) then Err (ConfigEnv "argv") else Ok (n, true)
  | None =>
      match env_var "OXO_EDGE_SERVER_NAME" with
      | Value n => if is_empty (trim n) then Err (ConfigEnv "OXO_EDGE_SERVER_NAME") else Ok (n, true)
      | Absent => Ok (bs "localhost", false)
      | NotUnicode => Err (ConfigEnv "OXO_EDGE_SERVER_NAME")
      end
  end.
Definition read_public_origin_port (cli : EdgeCliConfig) : result EdgeError (option Z) :=
  match nums cli !! public_origin_port with
  | Some p => Ok (Some p)
  | None => let? o := opt_string "OXO_EDGE_PUBLIC_ORIGIN_PORT" in
            match o with
            | None => Ok None
            | Some raw => let? p := ok_or (parse_uint u16_max raw) (ConfigEnv "OXO_EDGE_PUBLIC_ORIGIN_PORT") in Ok (Some p)
            end
  end.

(** ** Public exposure *)

(** [cli.is_some() || env?.is_some()]: the variable is read only when the flag is absent. *)
Definition set_anywhere (flag : bool) (name : string) : result EdgeError bool :=
  if flag then Ok true else let? o := opt_string name in Ok (is_some o).
Definition read_public_mode_gate (bind : SocketAddr) (listener : ListenerMode) (cli : EdgeCliConfig) (max_body_explicit server_name_explicit : bool)
    : result EdgeError (option PublicMode) :=
  if is_loopback (sa_ip bind) then
    let? mode_set := set_anywhere (is_some (texts cli !! public_mode)) "OXO_EDGE_PUBLIC_MODE" in
    let? identity_set := set_anywhere (is_some (texts cli !! public_identity)) "OXO_EDGE_PUBLIC_IDENTITY" in
    let? cidrs_set := set_anywhere (negb (length (repeated_of (lists cli) trusted_proxy_cidrs) =? 0)%nat) "OXO_EDGE_TRUSTED_PROXY_CIDRS" in
    if mode_set || identity_set || cidrs_set then Err (ConfigEnv "OXO_EDGE_PUBLIC_MODE")
    else
      let? ack := if decide (acme_allow_production_directory ∈ switches cli) then Ok true else env_flag "OXO_EDGE_ACME_ALLOW_PRODUCTION_DIRECTORY" false in
      if ack : bool then Err (ConfigEnv "OXO_EDGE_ACME_ALLOW_PRODUCTION_DIRECTORY") else Ok None
  else
    let? (raw, _) := text_or_env (texts cli !! public_mode) "" "OXO_EDGE_PUBLIC_MODE" in
    match raw with
    | None => Ok None
    | Some raw =>
        let? mode := ok_or (public_mode_parse raw) (ConfigEnv "OXO_EDGE_PUBLIC_MODE") in
        if negb max_body_explicit then Err (ConfigEnv "OXO_EDGE_MAX_BODY")
        else if negb (is_tls listener) then Err (ConfigEnv "OXO_EDGE_TLS")
        else if negb server_name_explicit then Err (ConfigEnv "OXO_EDGE_SERVER_NAME")
        else Ok (Some mode)
    end.
Definition read_trusted_proxy_cidrs (cli : EdgeCliConfig) : result EdgeError (list bytes) :=
  match repeated_of (lists cli) trusted_proxy_cidrs with
  | [] => let? o := opt_string "OXO_EDGE_TRUSTED_PROXY_CIDRS" in Ok (match o with Some raw => list_items (zb 44) raw | None => [] end)
  | l => Ok l
  end.
Definition read_public_identity_policy (mode : option PublicMode) (cli : EdgeCliConfig) : result EdgeError PublicIdentityPolicy :=
  match mode with
  | None => Ok DirectPublic
  | Some _ =>
      let? (identity, _) := text_or_env (texts cli !! public_identity) "" "OXO_EDGE_PUBLIC_IDENTITY" in
      match identity with
      | None => Err (ConfigEnv "OXO_EDGE_PUBLIC_IDENTITY")
      | Some i =>
          if eq_bytes i (bs "direct-public") then Ok DirectPublic
          else if eq_bytes i (bs "trusted-proxy") then
            let? cidrs := read_trusted_proxy_cidrs cli in
            let? policy := map_err (fun _ => ConfigEnv "OXO_EDGE_TRUSTED_PROXY_CIDRS") (parse_all cidrs) in
            Ok (TrustedProxy policy)
          else Err (ConfigEnv "OXO_EDGE_PUBLIC_IDENTITY")
      end
  end.
(** The limit given to [IdentityFairnessLimiter::new]. *)
Definition read_identity_fairness (mode : option PublicMode) (cli : EdgeCliConfig) : result EdgeError (option Z) :=
  let? (o, name) := num_or_env (nums cli !! max_in_flight_per_identity) "--max-in-flight-per-identity" "OXO_EDGE_MAX_IN_FLIGHT_PER_IDENTITY" in
  match o with
  | Some v => if v =? 0 then Err (ConfigEnv name) else Ok (Some v)
  | None => Ok (if is_some mode then Some DEFAULT_PUBLIC_MAX_IN_FLIGHT_PER_IDENTITY else None)
  end.
(** The limit given to [GlobalInFlightLimiter::new]; the warning about one identity only prints. *)
Definition read_global_in_flight (mode : option PublicMode) (cli : EdgeCliConfig) : result EdgeError (option Z) :=
  let? (o, name) := num_or_env (nums cli !! max_in_flight_requests) "--max-in-flight-requests" "OXO_EDGE_MAX_IN_FLIGHT_REQUESTS" in
  match o with
  | Some v => if v =? 0 then Err (ConfigEnv name) else Ok (Some v)
  | None => match mode with Some SmokeBeta => Err (ConfigEnv "OXO_EDGE_MAX_IN_FLIGHT_REQUESTS") | _ => Ok None end
  end.
Definition validate_tls_certificate_name (cert_path server_name : bytes) : result EdgeError unit :=
  match certificate_of cert_path with
  | Unreadable => Err (FsError TlsFileUnavailable)
  | Unparsable => Err TlsCertificateName
  | DnsNames names => if existsb (fun n => eq_ignore_case n server_name) names then Ok tt else Err TlsCertificateName
  end.
Definition validate_public_tls_identity (mode : option PublicMode) (listener : ListenerMode) (server_name : bytes) : result EdgeError unit :=
  match mode with
  | None => Ok tt
  | Some _ =>
      if negb (is_single_ascii_fqdn server_name) then Err (ConfigEnv "OXO_EDGE_SERVER_NAME")
      else match listener with Tls cert _ _ => validate_tls_certificate_name cert server_name | Plain => Ok tt end
  end.
Definition read_admin_bind (mode : option PublicMode) (cli : EdgeCliConfig) : result EdgeError (option SocketAddr) :=
  let loopback b := if is_loopback (sa_ip b) then Ok (Some b) else Err (ConfigEnv "OXO_EDGE_ADMIN_BIND") in
  match binds cli !! admin_bind with
  | Some b => loopback b
  | None =>
      match env_var "OXO_EDGE_ADMIN_BIND" with
      | Value raw => let? b := ok_or (parse_socket_addr raw) (ConfigEnv "OXO_EDGE_ADMIN_BIND") in loopback b
      | Absent => match mode with Some m => if requires_admin_health m then Err (ConfigEnv "OXO_EDGE_ADMIN_BIND") else Ok None | None => Ok None end
      | NotUnicode => Err (ConfigEnv "OXO_EDGE_ADMIN_BIND")
      end
  end.
(** [read_action_cable_bind] and [read_grpc_bind]. *)
Definition read_sidecar_bind (cli_value : option SocketAddr) (name : string) : result EdgeError (option SocketAddr) :=
  let? b := match cli_value with
            | Some b => Ok (Some b)
            | None => let? o := opt_string name in
                      match o with None => Ok None | Some raw => let? b := ok_or (parse_socket_addr raw) (ConfigEnv name) in Ok (Some b) end
            end in
  match b with
  | Some a => if is_loopback (sa_ip a) then Ok (Some a) else Err (ConfigEnv name)
  | None => Ok None
  end.

(** ** Serving *)

Definition read_serve_rails (cli : EdgeCliConfig) : option bytes := or_else (paths cli !! serve_rails) (opt_path "OXO_EDGE_SERVE_RAILS").
Definition plan_serve_rails (root : bytes) (explicit_static_dir : option bytes) : result EdgeError ServeRailsPlan :=
  if negb (is_dir root) then Err (ConfigEnv "--serve-rails")
  else match explicit_static_dir with
  | Some dir => Ok {| static_dir := Some dir; static_assets := true; static_overridden := true |}
  | None =>
      let public := join root (bs "public") in
      if negb (exists_path public) then Ok {| static_dir := None; static_assets := false; static_overridden := false |}
      else if negb (is_dir public) then Err (ConfigEnv "--serve-rails")
      else Ok {| static_dir := Some public; static_assets := is_dir (join public (bs "assets")); static_overridden := false |}
  end.
Definition read_static_rails_preset (cli : EdgeCliConfig) : result EdgeError (option bytes) :=
  match paths cli !! static_rails_preset with
  | Some p => Ok (Some p)
  | None => let? o := opt_string "OXO_EDGE_STATIC_RAILS_PRESET" in Ok (trim <$> o)
  end.
(** The raw mount specifications with the setting each comes from. *)
Definition raw_mounts (cli : EdgeCliConfig) (preset : option bytes) (plan : option ServeRailsPlan) : result EdgeError (list (bytes * string)) :=
  let from_env l := map (fun s => (s, "OXO_EDGE_STATIC_MOUNTS"%string)) l in
  let? explicit := match repeated_of (lists cli) static_mounts with
                   | [] => match env_var "OXO_EDGE_STATIC_MOUNTS" with
                           | Value raw => Ok (from_env (list_items (zb 59) raw))
                           | Absent => Ok []
                           | NotUnicode => Err (ConfigEnv "OXO_EDGE_STATIC_MOUNTS")
                           end
                   | l => Ok (from_env l)
                   end in
  let derived := match preset, plan with
                 | Some dir, _ => Some (dir, true, "--static-rails-preset"%string)
                 | None, Some p => match static_dir p with
                                   | Some d => if static_overridden p then None else Some (d, static_assets p, "--serve-rails"%string)
                                   | None => None
                                   end
                 | None, None => None
                 end in
  Ok (explicit ++ match derived with
                  | Some (dir, with_assets, source) =>
                      (if with_assets : bool then [(bs "/assets=" ++ dir ++ bs "/assets,cache-control=public%2Cmax-age=31536000%2Cimmutable", source)] else []) ++
                      [(bs "/=" ++ dir ++ bs ",fallthrough", source)]
                  | None => []
                  end).
Fixpoint parse_mounts (specs : list (bytes * string)) : result EdgeError (list bytes) :=
  match specs with
  | [] => Ok []
  | (raw, source) :: specs' => if mount_parses raw then let? ms := parse_mounts specs' in Ok (raw :: ms) else Err (ConfigEnv source)
  end.
Definition read_static_mounts (cli : EdgeCliConfig) (preset : option bytes) (plan : option ServeRailsPlan) : result EdgeError (list bytes) :=
  let? specs := raw_mounts cli preset plan in parse_mounts specs.

(** The ladder of a switch: command line, variable, preset. *)
Definition bool_ladder (cli_value : option bool) (name : string) (preset : bool) : result EdgeError bool :=
  match cli_value with Some v => Ok v | None => let? o := opt_bool name in Ok (unwrap_or preset o) end.
Definition read_sse_enabled (cli : EdgeCliConfig) (serve_rails_active : bool) : result EdgeError bool :=
  bool_ladder (tris cli !! sse_enabled) "OXO_EDGE_SSE" serve_rails_active.
Definition read_prod_enabled (cli : EdgeCliConfig) : result EdgeError bool := bool_ladder (tris cli !! prod_enabled) "OXO_EDGE_PROD" false.
Definition requests_per_connection_to_reuse_limit (n : Z) (name : string) : result EdgeError Z := ok_or (try_from_u32 (n - 1)) (ConfigEnv name).
Definition read_slow_client_policy (cli : EdgeCliConfig) (serve_rails_active : bool) : result EdgeError SlowClientPolicy :=
  let? header := required_nonzero_u64 (nums cli !! header_read_timeout_ms) "--header-read-timeout-ms" "OXO_EDGE_HEADER_READ_TIMEOUT_MS" DEFAULT_HEADER_READ_TIMEOUT_MS in
  let? idle := required_nonzero_u64 (nums cli !! keepalive_idle_timeout_ms) "--keepalive-idle-timeout-ms" "OXO_EDGE_KEEPALIVE_IDLE_TIMEOUT_MS" DEFAULT_KEEPALIVE_IDLE_TIMEOUT_MS in
  let? age := optional_nonzero_u64 (nums cli !! max_connection_secs) "--max-connection-secs" "OXO_EDGE_MAX_CONNECTION_SECS" in
  let? keepalive := bool_ladder (tris cli !! keepalive_enabled) "OXO_EDGE_KEEPALIVE" serve_rails_active in
  let? requests := required_nonzero_u64 (nums cli !! max_requests_per_connection) "--max-requests-per-connection" "OXO_EDGE_MAX_REQUESTS_PER_CONNECTION" DEFAULT_MAX_REQUESTS_PER_CONNECTION in
  let? reuse := requests_per_connection_to_reuse_limit requests "--max-requests-per-connection" in
  Ok {| sc_header_read_timeout_ms := header; sc_keepalive_idle_timeout_ms := idle; sc_max_connection_secs := age;
        sc_keepalive_enabled := keepalive; sc_keepalive_request_limit := if keepalive : bool then Some reuse else None |}.
Definition render_unenforced_knobs (p : SlowClientPolicy) : list string :=
  (if sc_header_read_timeout_ms p =? DEFAULT_HEADER_READ_TIMEOUT_MS then [] else ["--header-read-timeout-ms"%string]) ++
  (if is_some (sc_max_connection_secs p) then ["--max-connection-secs"%string] else []).
Definition read_long_lived_registry (cli : EdgeCliConfig) : result EdgeError LongLivedLimits :=
  let? n := required_nonzero_u64 (nums cli !! long_lived_max_connections) "--long-lived-max-connections" "OXO_EDGE_LONG_LIVED_MAX_CONNECTIONS" DEFAULT_LONG_LIVED_MAX_CONNECTIONS in
  let? b := required_nonzero_u64 (nums cli !! long_lived_max_buffered_bytes) "--long-lived-max-buffered-bytes" "OXO_EDGE_LONG_LIVED_MAX_BUFFERED_BYTES" DEFAULT_LONG_LIVED_MAX_BUFFERED_BYTES in
  let? t := required_nonzero_u64 (nums cli !! long_lived_downstream_write_timeout_ms) "--long-lived-downstream-write-timeout-ms"
              "OXO_EDGE_LONG_LIVED_DOWNSTREAM_WRITE_TIMEOUT_MS" DEFAULT_LONG_LIVED_DOWNSTREAM_WRITE_TIMEOUT_MS in
  Ok {| ll_max_connections := n; ll_max_buffered_bytes := b; ll_write_timeout_ms := t |}.
(** [EdgeDrainConfig::from_millis], in seconds. *)
Definition from_millis (name : string) (millis : Z) : result EdgeError Z :=
  if millis =? 0 then Err (ConfigEnv name) else Ok (saturating_add millis 999 / 1000).
Definition read_edge_drain_config (cli : EdgeCliConfig) : result EdgeError Z :=
  let? (o, name) := num_or_env (nums cli !! drain_grace_ms) "--drain-grace-ms" "OXO_EDGE_DRAIN_GRACE_MS" in
  from_millis name (unwrap_or DEFAULT_EDGE_DRAIN_GRACE_MS o).
Definition bounded_count (o : option Z) (name : string) (max default : Z) : result EdgeError Z :=
  match o with
  | None => Ok default
  | Some v => if v =? 0 then Err (ConfigEnv name) else if v >? max then Err (ConfigEnv name) else Ok v
  end.
Definition read_edge_threads (cli : EdgeCliConfig) : result EdgeError Z :=
  let? (o, name) := num_or_env (nums cli !! edge_threads) "--edge-threads" "OXO_EDGE_THREADS" in
  bounded_count o name MAX_EDGE_THREADS (if nproc <=? 2 then Z.max (saturating_sub nproc 1) 1 else nproc).
Definition read_listener_tasks (cli : EdgeCliConfig) : result EdgeError Z :=
  let? (o, name) := num_or_env (nums cli !! listener_tasks) "--listener-tasks" "OXO_EDGE_LISTENER_TASKS" in
  bounded_count o name MAX_LISTENER_TASKS 1.
Definition read_request_log (cli : EdgeCliConfig) : result EdgeError RequestLogMode :=
  let? (o, name) := text_or_env (texts cli !! request_log) "--request-log" "OXO_EDGE_REQUEST_LOG" in
  match o with
  | None => Ok LogRejections
  | Some v => if eq_bytes v (bs "off") then Ok LogOff else if eq_bytes v (bs "rejections") then Ok LogRejections
              else if eq_bytes v (bs "all") then Ok LogAll else Err (ConfigEnv name)
  end.
Definition read_worker_hop (cli : EdgeCliConfig) (max_body : Z) : result EdgeError WorkerHop :=
  let? (o, name) := text_or_env (texts cli !! worker_hop) "--worker-hop" "OXO_EDGE_WORKER_HOP" in
  let? hop := match o with
              | None => Ok Frame
              | Some v => if eq_bytes v (bs "frame") then Ok Frame else if eq_bytes v (bs "http") then Ok HttpHop else Err (ConfigEnv name)
              end in
  match hop with Frame => if max_body >? u32_max then Err (ConfigEnv name) else Ok hop | HttpHop => Ok hop end.
Definition read_worker_dispatch (cli : EdgeCliConfig) (worker_count : nat) : result EdgeError DispatchMode :=
  let? (o, name) := text_or_env (texts cli !! worker_dispatch) "--worker-dispatch" "OXO_WORKER_DISPATCH" in
  let? mode := match o with None => Ok LeastOutstanding | Some v => ok_or (parse_mode v) (ConfigEnv name) end in
  match mode with
  | Rr => Ok Rr
  | m => if (MAX_WORKERS <? worker_count)%nat then Err (ConfigEnv name) else Ok m
  end.
Definition read_worker_cap (cli : EdgeCliConfig) (worker_count : nat) (global_max : option Z) : result EdgeError (option Z) :=
  let? (o, name) := num_or_env (nums cli !! worker_cap) "--worker-cap" "OXO_EDGE_WORKER_CAP" in
  match o with
  | None => Ok None
  | Some k =>
      if k =? 0 then Err (ConfigEnv name)
      else if (MAX_WORKERS <? worker_count)%nat then Err (ConfigEnv name)
      else match global_max with
           | Some g => if saturating_mul k (Z.of_nat worker_count) >=? g then Err (ConfigEnv name) else Ok (Some k)
           | None => Ok (Some k)
           end
  end.
Definition read_worker_kind : result EdgeError WorkerKind :=
  let? o := opt_string "OXO_WORKER_KIND" in
  match o with None => Ok Classic | Some v => ok_or (parse_kind v) (ConfigEnv "OXO_WORKER_KIND") end.
Definition read_h2_policy (cli : EdgeCliConfig) : result EdgeError H2Policy :=
  let? c := required_nonzero_u64 (nums cli !! h2_max_concurrent_streams) "--h2-max-concurrent-streams" "OXO_EDGE_H2_MAX_CONCURRENT_STREAMS" DEFAULT_H2_MAX_CONCURRENT_STREAMS in
  let? c := ok_or (try_from_u32 c) (ConfigEnv "--h2-max-concurrent-streams") in
  let? r := required_nonzero_u64 (nums cli !! h2_max_reset_streams) "--h2-max-reset-streams" "OXO_EDGE_H2_MAX_RESET_STREAMS" DEFAULT_H2_MAX_RESET_STREAMS in
  Ok {| max_concurrent_streams := c; max_reset_streams := r |}.
Definition parse_unwrap_wait_ms (raw : option bytes) : option Z :=
  match raw with
  | None => Some 20
  | Some v => if is_empty (trim v) then Some 20 else parse_uint u64_max (trim v)
  end.

(** ** The whole configuration *)

(** [EdgeConfig::new_with_worker_sockets_and_public_alpha]. *)
Fixpoint validate_sockets (sockets : list bytes) : result EdgeError unit :=
  match sockets with [] => Ok tt | s :: ss => let? _ := map_err FsError (validate_worker_socket_path lstat s) in validate_sockets ss end.
Definition new_with_worker_sockets_and_public_alpha (bind : SocketAddr) (sockets : list bytes) (max_body : Z) (allow_public_alpha : bool) : result EdgeError unit :=
  if negb (is_loopback (sa_ip bind)) && negb allow_public_alpha then Err NonLoopbackBind
  else if max_body =? 0 then Err ZeroMaxBody
  else match sockets with [] => Err NoWorkersConfigured | _ => validate_sockets sockets end.

Record RunEdgeOptions : Type := {
  o_bind : SocketAddr; o_sockets : list bytes; o_max_body : Z; o_server_name : bytes; o_listener : ListenerMode;
  o_public_mode : option PublicMode; o_identity : PublicIdentityPolicy; o_per_identity : option Z; o_global : option Z;
  o_slow_client : SlowClientPolicy; o_long_lived : LongLivedLimits; o_admin : option SocketAddr; o_cable : option SocketAddr;
  o_grpc : option SocketAddr; o_origin_port : option Z; o_drain_seconds : Z; o_threads : Z; o_tasks : Z; o_request_log : RequestLogMode;
  o_hop : WorkerHop; o_dispatch : DispatchMode; o_cap : option Z; o_kind : WorkerKind; o_mounts : list bytes; o_sse : bool; o_prod : bool;
  o_h2 : H2Policy; o_pool_idle : Z; o_unwrap_wait : Z }.

(** [run_with_cli], up to and with the verdict of the descriptor budget: what it would go on
    with.  The one-shot ACME commands end it here as [AcmeCommand]. *)
Definition run_with_cli (cli : EdgeCliConfig) : result EdgeError RunEdgeOptions :=
  let? _ := reject_socket_activation_env in
  if decide (acme_issue_once ∈ switches cli) then
    if decide (acme_renew_once ∈ switches cli) then Err (ConfigEnv "argv") else Err AcmeCommand
  else if decide (acme_renew_once ∈ switches cli) then Err AcmeCommand
  else
  let? (bind, kind) := read_bind cli in
  let? sockets := read_worker_sockets cli in
  let worker_count := length sockets in
  let? (max_body, max_body_explicit) := read_max_body cli in
  let? listener := read_listener_mode cli kind in
  let? _ := validate_future_acme_state_path cli in
  let? (server_name, server_name_explicit) := read_server_name cli in
  let? origin_port := read_public_origin_port cli in
  let? mode := read_public_mode_gate bind listener cli max_body_explicit server_name_explicit in
  let? identity := read_public_identity_policy mode cli in
  let? per_identity := read_identity_fairness mode cli in
  let? global := read_global_in_flight mode cli in
  let? preset := read_static_rails_preset cli in
  let? plan := match read_serve_rails cli with Some root => let? p := plan_serve_rails root preset in Ok (Some p) | None => Ok None end in
  let? slow := read_slow_client_policy cli (is_some plan) in
  let? long_lived := read_long_lived_registry cli in
  let? drain := read_edge_drain_config cli in
  let? threads := read_edge_threads cli in
  let? tasks := read_listener_tasks cli in
  let? log := read_request_log cli in
  let? hop := read_worker_hop cli max_body in
  let? dispatch := read_worker_dispatch cli worker_count in
  let? cap := read_worker_cap cli worker_count global in
  let? wkind := read_worker_kind in
  let? _ := validate_public_tls_identity mode listener server_name in
  let? admin := read_admin_bind mode cli in
  let? cable := read_sidecar_bind (binds cli !! action_cable_bind) "OXO_EDGE_ACTION_CABLE_BIND" in
  let? grpc := read_sidecar_bind (binds cli !! grpc_bind) "OXO_EDGE_GRPC_BIND" in
  let? sse := read_sse_enabled cli (is_some plan) in
  let? prod := read_prod_enabled cli in
  let? h2 := read_h2_policy cli in
  let? mounts := read_static_mounts cli preset plan in
  let? _ := new_with_worker_sockets_and_public_alpha bind sockets max_body (is_some mode) in
  let pool := fst (resolve_idle_ceiling (env_ok "OXO_EDGE_FRAME_POOL_IDLE") (Z.of_nat worker_count)) in
  let? _ := map_err (fun _ => ConfigEnv "OXO_EDGE_POOL") (parse_pool_impl (env_ok "OXO_EDGE_POOL")) in
  let? unwrap := ok_or (parse_unwrap_wait_ms (env_ok "OXO_EDGE_UNWRAP_WAIT_MS")) (ConfigEnv "OXO_EDGE_UNWRAP_WAIT_MS") in
  match refusal (fd_budget limits (1 + if is_some admin then 1 else 0) (Z.of_nat worker_count) pool global) with
  | Some _ => Err (ConfigEnv "RLIMIT_NOFILE")
  | None =>
      Ok {| o_bind := bind; o_sockets := sockets; o_max_body := max_body; o_server_name := server_name; o_listener := listener;
            o_public_mode := mode; o_identity := identity; o_per_identity := per_identity; o_global := global; o_slow_client := slow;
            o_long_lived := long_lived; o_admin := admin; o_cable := cable; o_grpc := grpc; o_origin_port := origin_port;
            o_drain_seconds := drain; o_threads := threads; o_tasks := tasks; o_request_log := log; o_hop := hop; o_dispatch := dispatch;
            o_cap := cap; o_kind := wkind; o_mounts := mounts; o_sse := sse; o_prod := prod; o_h2 := h2; o_pool_idle := pool; o_unwrap_wait := unwrap |}
  end.
End EdgeConf.

(** ** What a configuration that is accepted guarantees *)

Ltac peel E := repeat match type of E with
  | rbind _ (fun '(_, _) => _) = Ok _ => let a := fresh "a" in let b := fresh "b" in apply rbind_ok in E as ([a b] & ? & E)
  | rbind _ _ = Ok _ => apply rbind_ok in E as (? & ? & E)
  end.
Section Guarantees.
Variable getenv : string -> option bytes.
Variable lstat : bytes -> stat.
Variables (exists_path is_dir : bytes -> bool).
Variable certificate_of : bytes -> certificate.
Variable mount_parses : bytes -> bool.
Variable limits : Nofile.
Variable nproc : Z.
Local Abbreviation run_with_cli := (run_with_cli getenv lstat exists_path is_dir certificate_of mount_parses limits nproc).

(** The readers that ended well, for the fields the theorems below speak of. *)
Record accepted (cli : EdgeCliConfig) (o : RunEdgeOptions) : Prop := {
  acc_listener : exists kind, read_listener_mode getenv lstat cli kind = Ok (o_listener o);
  acc_mode : exists b1 b2, read_public_mode_gate getenv (o_bind o) (o_listener o) cli b1 b2 = Ok (o_public_mode o);
  acc_identity : read_public_identity_policy getenv (o_public_mode o) cli = Ok (o_identity o);
  acc_fair : read_identity_fairness getenv (o_public_mode o) cli = Ok (o_per_identity o);
  acc_global : read_global_in_flight getenv (o_public_mode o) cli = Ok (o_global o);
  acc_tls : validate_public_tls_identity certificate_of (o_public_mode o) (o_listener o) (o_server_name o) = Ok tt;
  acc_admin : read_admin_bind getenv (o_public_mode o) cli = Ok (o_admin o);
  acc_cable : read_sidecar_bind getenv (binds cli !! action_cable_bind) "OXO_EDGE_ACTION_CABLE_BIND" = Ok (o_cable o);
  acc_grpc : read_sidecar_bind getenv (binds cli !! grpc_bind) "OXO_EDGE_GRPC_BIND" = Ok (o_grpc o);
  acc_new : new_with_worker_sockets_and_public_alpha lstat (o_bind o) (o_sockets o) (o_max_body o) (is_some (o_public_mode o)) = Ok tt;
  acc_hop : read_worker_hop getenv cli (o_max_body o) = Ok (o_hop o);
  acc_dispatch : read_worker_dispatch getenv cli (length (o_sockets o)) = Ok (o_dispatch o);
  acc_cap : read_worker_cap getenv cli (length (o_sockets o)) (o_global o) = Ok (o_cap o);
  acc_slow : exists b, read_slow_client_policy getenv cli b = Ok (o_slow_client o);
  acc_long : read_long_lived_registry getenv cli = Ok (o_long_lived o);
  acc_h2 : read_h2_policy getenv cli = Ok (o_h2 o);
  acc_tasks : read_listener_tasks getenv cli = Ok (o_tasks o);
  acc_threads : read_edge_threads getenv nproc cli = Ok (o_threads o);
  acc_fds : refusal (fd_budget limits (1 + if is_some (o_admin o) then 1 else 0) (Z.of_nat (length (o_sockets o))) (o_pool_idle o) (o_global o)) = None;
}.
Lemma run_accepted cli o : run_with_cli cli = Ok o -> accepted cli o.
Proof.
  unfold EdgeConf.run_with_cli. intros E. apply rbind_ok in E as ([] & _ & E).
  destruct (decide (acme_issue_once ∈ switches cli)); [destruct (decide _); discriminate|]. destruct (decide (acme_renew_once ∈ switches cli)); [discriminate|].
  apply rbind_ok in E as ([bind kind] & _ & E). apply rbind_ok in E as (sockets & _ & E). cbv zeta in E.
  apply rbind_ok in E as ([max_body max_explicit] & _ & E). apply rbind_ok in E as (listener & Li & E). apply rbind_ok in E as ([] & _ & E).
  apply rbind_ok in E as ([server_name name_explicit] & _ & E). apply rbind_ok in E as (port & _ & E). apply rbind_ok in E as (mode & Mo & E).
  apply rbind_ok in E as (identity & Id & E). apply rbind_ok in E as (fair & Fa & E). apply rbind_ok in E as (global & Gl & E).
  apply rbind_ok in E as (preset & _ & E). apply rbind_ok in E as (plan & _ & E). apply rbind_ok in E as (slow & Sl & E). apply rbind_ok in E as (ll & Lo & E).
  apply rbind_ok in E as (drain & _ & E). apply rbind_ok in E as (threads & Th & E). apply rbind_ok in E as (tasks & Ta & E). apply rbind_ok in E as (log & _ & E).
  apply rbind_ok in E as (hop & Ho & E). apply rbind_ok in E as (dispatch & Di & E). apply rbind_ok in E as (cap & Ca & E). apply rbind_ok in E as (wk & _ & E).
  apply rbind_ok in E as ([] & Tn & E). apply rbind_ok in E as (admin & Ad & E). apply rbind_ok in E as (cable & Cb & E). apply rbind_ok in E as (grpc & Gr & E).
  apply rbind_ok in E as (sse & _ & E). apply rbind_ok in E as (prod & _ & E). apply rbind_ok in E as (h2 & H2 & E). apply rbind_ok in E as (mounts & _ & E).
  apply rbind_ok in E as ([] & Nw & E). apply rbind_ok in E as ([] & _ & E). apply rbind_ok in E as (unwrap & _ & E).
  destruct (refusal _) eqn:Rf; [discriminate|]. injection E as <-. split; cbn; eauto.
Qed.

Lemma gate_loopback bind listener cli b1 b2 mode :
  read_public_mode_gate getenv bind listener cli b1 b2 = Ok mode -> is_loopback (sa_ip bind) = true -> mode = None.
Proof.
  unfold read_public_mode_gate. intros E L. rewrite L in E. peel E. destruct (_ || _ || _); [discriminate|]. apply rbind_ok in E as ([] & _ & E); [discriminate | injection E as <-; reflexivity].
Qed.
Lemma gate_public bind listener cli b1 b2 m :
  read_public_mode_gate getenv bind listener cli b1 b2 = Ok (Some m) -> b1 = true /\ b2 = true /\ is_tls listener = true.
Proof.
  unfold read_public_mode_gate. intros E. destruct (is_loopback (sa_ip bind)).
  - peel E. destruct (_ || _ || _); [discriminate|]. apply rbind_ok in E as ([] & _ & E); discriminate.
  - apply rbind_ok in E as ([[raw|] nm] & _ & E); [|discriminate]. apply rbind_ok in E as (m' & _ & E).
    destruct b1; [|discriminate]. destruct (is_tls listener); [|discriminate]. destruct b2; [auto | discriminate].
Qed.
Lemma listener_files cli kind cert key h2 :
  read_listener_mode getenv lstat cli kind = Ok (Tls cert key h2) ->
  (exists m, lstat cert = Found Regular m) /\ exists m, lstat key = Found Regular m /\ Z.land (perm m) 63 = 0.
Proof.
  unfold read_listener_mode. intros E. apply rbind_ok in E as ([] & _ & E); [|discriminate]. cbn [negb] in E.
  apply rbind_ok in E as (c & _ & E). apply rbind_ok in E as (k & _ & E). apply rbind_ok in E as ([] & Vc & E). apply rbind_ok in E as ([] & Vk & E).
  apply rbind_ok in E as (h & _ & E). injection E as -> -> ->. unfold validate_tls_file in *. split.
  - destruct (lstat cert) as [[] m| |]; try discriminate. eauto.
  - destruct (lstat key) as [[] m| |]; try discriminate. exists m. split; [reflexivity|]. cbn in Vk. destruct (Z.land (perm m) 63 =? 0) eqn:Z0; [lia | discriminate].
Qed.
Lemma fairness_public m cli k : read_identity_fairness getenv (Some m) cli = Ok k -> exists v, k = Some v /\ v <> 0.
Proof.
  unfold read_identity_fairness. intros E. apply rbind_ok in E as ([[v|] nm] & _ & E).
  - destruct (v =? 0) eqn:Z0; [discriminate|]. injection E as <-. exists v. split; [reflexivity | lia].
  - injection E as <-. exists DEFAULT_PUBLIC_MAX_IN_FLIGHT_PER_IDENTITY. split; [reflexivity | discriminate].
Qed.
Lemma admin_loopback mode cli b : read_admin_bind getenv mode cli = Ok (Some b) -> is_loopback (sa_ip b) = true.
Proof.
  unfold read_admin_bind. intros E. destruct (binds cli !! admin_bind) as [a|].
  - destruct (is_loopback (sa_ip a)) eqn:L; [|discriminate]. injection E as ->. exact L.
  - destruct (env_var getenv "OXO_EDGE_ADMIN_BIND") as [| |raw]; [|discriminate|].
    + destruct mode as [m|]; [destruct (requires_admin_health m)|]; discriminate.
    + apply rbind_ok in E as (a & _ & E). destruct (is_loopback (sa_ip a)) eqn:L; [|discriminate]. injection E as ->. exact L.
Qed.
Lemma admin_required cli a : read_admin_bind getenv (Some SmokeBeta) cli = Ok a -> is_some a = true.
Proof.
  unfold read_admin_bind. intros E. destruct (binds cli !! admin_bind) as [b|].
  - destruct (is_loopback (sa_ip b)); [|discriminate]. injection E as <-. reflexivity.
  - destruct (env_var getenv "OXO_EDGE_ADMIN_BIND") as [| |raw]; [discriminate | discriminate|]. apply rbind_ok in E as (b & _ & E).
    destruct (is_loopback (sa_ip b)); [|discriminate]. injection E as <-. reflexivity.
Qed.
Lemma sidecar_loopback o name b : read_sidecar_bind getenv o name = Ok (Some b) -> is_loopback (sa_ip b) = true.
Proof.
  unfold read_sidecar_bind. intros E. apply rbind_ok in E as ([a|] & _ & E); [|discriminate]. destruct (is_loopback (sa_ip a)) eqn:L; [|discriminate]. injection E as ->. exact L.
Qed.
Lemma global_required cli g : read_global_in_flight getenv (Some SmokeBeta) cli = Ok g -> exists v, g = Some v /\ v <> 0.
Proof.
  unfold read_global_in_flight. intros E. apply rbind_ok in E as ([[v|] nm] & _ & E); [|discriminate]. destruct (v =? 0) eqn:Z0; [discriminate|].
  injection E as <-. exists v. split; [reflexivity | lia].
Qed.
Lemma certificate_names m listener name cert key h2 :
  validate_public_tls_identity certificate_of (Some m) listener name = Ok tt -> listener = Tls cert key h2 ->
  is_single_ascii_fqdn name = true /\ exists names n, certificate_of cert = DnsNames names /\ In n names /\ eq_ignore_case n name = true.
Proof.
  intros E ->. cbn in E. destruct (is_single_ascii_fqdn name); [|discriminate]. split; [reflexivity|]. cbn in E. unfold validate_tls_certificate_name in E.
  destruct (certificate_of cert) as [| |names]; try discriminate. destruct (existsb _ names) eqn:X; [|discriminate].
  apply existsb_exists in X as (n & I & Q). eauto.
Qed.

(** C18. The edge is exposed to a network only when everything that makes it safe is in place.
    For every command line, environment, file system and certificate, if the configuration is
    accepted: on a loopback bind no public mode is active and the peer address is the identity;
    on any other bind a public mode is active, the listener is TLS with a private key file
    closed to group and others and a certificate one of whose DNS names is the configured name
    up to letter case, that name is two or more labels of letters, digits and inner hyphens
    joined by dots (a shape that a dotted IPv4 address has too), each identity's share is
    bounded, and in the beta mode so are all requests together, with the private admin
    listener on.  In every case the admin and sidecar addresses are loopback addresses. *)
Theorem public_listener_is_guarded cli o :
  run_with_cli cli = Ok o ->
  (is_loopback (sa_ip (o_bind o)) = true -> o_public_mode o = None /\ o_identity o = DirectPublic) /\
  (is_loopback (sa_ip (o_bind o)) = false ->
     exists m cert key h2 names n k,
       o_public_mode o = Some m /\ o_listener o = Tls cert key h2 /\ (exists f, lstat key = Found Regular f /\ Z.land (perm f) 63 = 0) /\
       certificate_of cert = DnsNames names /\ In n names /\ eq_ignore_case n (o_server_name o) = true /\ dns_name (o_server_name o) /\
       o_per_identity o = Some k /\ k <> 0 /\
       (m = SmokeBeta -> is_some (o_admin o) = true /\ exists g, o_global o = Some g /\ g <> 0)) /\
  (forall b, o_admin o = Some b \/ o_cable o = Some b \/ o_grpc o = Some b -> is_loopback (sa_ip b) = true).
Proof.
  intros E. apply run_accepted in E as [(kind & Li) (b1 & b2 & Mo) Id Fa Gl Tn Ad Cb Gr Nw _ _ _ _ _ _ _ _ _]. split; [|split].
  - intros L. rewrite (gate_loopback _ _ _ _ _ _ Mo L) in *. cbn in Id. injection Id as <-. auto.
  - intros L. unfold new_with_worker_sockets_and_public_alpha in Nw. rewrite L in Nw. cbn [negb andb] in Nw.
    destruct (o_public_mode o) as [m|] eqn:M; [|discriminate]. destruct (gate_public _ _ _ _ _ _ Mo) as (_ & _ & T).
    destruct (o_listener o) as [|cert key h2] eqn:Ls; [discriminate|]. destruct (certificate_names _ _ _ cert key h2 Tn eq_refl) as (Fq & names & n & Cn & I & Q).
    destruct (fairness_public _ _ _ Fa) as (k & K & Kn). apply fqdn_is_dns_name in Fq. exists m, cert, key, h2, names, n, k.
    repeat (split; [solve [auto] || apply (listener_files _ _ _ _ _ Li)|]). intros ->. split; [apply (admin_required _ _ Ad) | apply (global_required _ _ Gl)].
  - intros b [H|[H|H]]; [rewrite H in Ad; eapply admin_loopback, Ad | rewrite H in Cb; eapply sidecar_loopback, Cb | rewrite H in Gr; eapply sidecar_loopback, Gr].
Qed.

Lemma nonzero_required o cn en d v : required_nonzero_u64 getenv o cn en d = Ok v -> v <> 0.
Proof. unfold required_nonzero_u64. intros E. apply rbind_ok in E as ([x nm] & _ & E). cbv zeta in E. destruct (_ =? 0) eqn:Z0; [discriminate|]. injection E as <-. lia. Qed.
Lemma bounded_ok o name max d v : bounded_count o name max d = Ok v -> v = d \/ v <> 0 /\ v <= max.
Proof.
  unfold bounded_count. destruct o as [x|]; [|intros [= <-]; auto]. destruct (x =? 0) eqn:Z0; [discriminate|]. destruct (x >? max) eqn:M; [discriminate|].
  intros [= <-]. right. lia.
Qed.
Lemma sockets_valid sockets : validate_sockets lstat sockets = Ok tt -> Forall (fun s => validate_worker_socket_path lstat s = Ok tt) sockets.
Proof.
  induction sockets as [|s ss IH]; [constructor|]. cbn [validate_sockets]. intros E. apply rbind_ok in E as ([] & V & E). constructor; [|apply IH, E].
  destruct (validate_worker_socket_path lstat s) as [[]|]; [reflexivity | discriminate].
Qed.
Lemma cap_ok cli n global k :
  read_worker_cap getenv cli n global = Ok (Some k) -> k <> 0 /\ (n <= MAX_WORKERS)%nat /\ forall g, global = Some g -> saturating_mul k (Z.of_nat n) < g.
Proof.
  unfold read_worker_cap. intros E. apply rbind_ok in E as ([[x|] nm] & _ & E); [|discriminate]. destruct (x =? 0) eqn:Z0; [discriminate|].
  destruct (MAX_WORKERS <? n)%nat eqn:M; [discriminate|]. apply Nat.ltb_ge in M. destruct global as [g|].
  - destruct (_ >=? g) eqn:L; [discriminate|]. injection E as ->. split; [lia|]. split; [exact M|]. intros ? [= <-]. lia.
  - injection E as ->. split; [lia|]. split; [exact M | discriminate].
Qed.
Lemma dispatch_ok cli n m : read_worker_dispatch getenv cli n = Ok m -> m = Rr \/ (n <= MAX_WORKERS)%nat.
Proof.
  unfold read_worker_dispatch. intros E. apply rbind_ok in E as ([o nm] & _ & E). apply rbind_ok in E as (md & _ & E).
  destruct md; [injection E as <-; auto| | |]; (destruct (MAX_WORKERS <? n)%nat eqn:M; [discriminate | apply Nat.ltb_ge in M; auto]).
Qed.
Lemma hop_ok cli n h : read_worker_hop getenv cli n = Ok h -> h = Frame -> n <= u32_max.
Proof.
  unfold read_worker_hop. intros E ->. apply rbind_ok in E as ([o nm] & _ & E). apply rbind_ok in E as ([] & _ & E); [|discriminate].
  destruct (n >? u32_max) eqn:L; [discriminate | lia].
Qed.

(** C36. Every limit of an accepted configuration can be enforced: the body limit is positive
    and fits the 32-bit lengths of the frame protocol when that is used; the depth gauges
    have a slot for every worker unless the policy is round robin; a per-worker cap leaves
    the global limit above what the workers can hold together; the connection, stream and
    long-lived limits are positive, the reuse counter fits its type; the sockets are private;
    and the descriptors needed before the first request fit the process limit. *)
Theorem accepted_limits_are_enforceable cli o :
  run_with_cli cli = Ok o ->
  o_max_body o <> 0 /\ (o_hop o = Frame -> o_max_body o <= u32_max) /\
  o_sockets o <> [] /\ Forall (fun s => validate_worker_socket_path lstat s = Ok tt) (o_sockets o) /\
  (o_dispatch o = Rr \/ (length (o_sockets o) <= MAX_WORKERS)%nat) /\
  (forall k, o_cap o = Some k -> k <> 0 /\ (length (o_sockets o) <= MAX_WORKERS)%nat /\
     forall g, o_global o = Some g -> saturating_mul k (Z.of_nat (length (o_sockets o))) < g) /\
  ll_max_connections (o_long_lived o) <> 0 /\ ll_max_buffered_bytes (o_long_lived o) <> 0 /\
  max_concurrent_streams (o_h2 o) <> 0 /\ max_concurrent_streams (o_h2 o) <= u32_max /\ max_reset_streams (o_h2 o) <> 0 /\
  (forall k, sc_keepalive_request_limit (o_slow_client o) = Some k -> k <= u32_max /\ sc_keepalive_enabled (o_slow_client o) = true) /\
  (o_tasks o = 1 \/ o_tasks o <> 0 /\ o_tasks o <= MAX_LISTENER_TASKS) /\
  verdict (fd_budget limits (1 + if is_some (o_admin o) then 1 else 0) (Z.of_nat (length (o_sockets o))) (o_pool_idle o) (o_global o)) <> VRefuse.
Proof.
  intros E. apply run_accepted in E as [_ _ _ _ _ _ _ _ _ Nw Ho Di Ca (b & Sl) Lo H2 Ta _ Fd].
  unfold new_with_worker_sockets_and_public_alpha in Nw. destruct (_ && _); [discriminate|]. destruct (o_max_body o =? 0) eqn:Z0; [discriminate|].
  destruct (o_sockets o) as [|s ss] eqn:Ss; [discriminate|]. rewrite <- Ss in *.
  unfold read_long_lived_registry in Lo. peel Lo. injection Lo as <-.
  unfold read_h2_policy in H2. apply rbind_ok in H2 as (c & C1 & H2). apply rbind_ok in H2 as (c' & C2 & H2). apply rbind_ok in H2 as (r & C3 & H2). injection H2 as <-.
  unfold try_from_u32 in C2. destruct (c <=? u32_max) eqn:Cl; [|discriminate]. injection C2 as <-.
  unfold read_listener_tasks in Ta. apply rbind_ok in Ta as ([to tn] & _ & Ta). apply bounded_ok in Ta.
  repeat match goal with H : required_nonzero_u64 _ _ _ _ _ = Ok _ |- _ => apply nonzero_required in H end.
  split; [lia|]. split; [apply (hop_ok _ _ _ Ho)|]. split; [rewrite Ss; discriminate|]. split; [apply sockets_valid, Nw|].
  split; [apply (dispatch_ok _ _ _ Di)|]. split; [intros k Ck; rewrite Ck in Ca; apply (cap_ok _ _ _ _ Ca)|]. cbn [ll_max_connections ll_max_buffered_bytes max_concurrent_streams max_reset_streams].
  split; [assumption|]. split; [assumption|]. split; [assumption|]. split; [lia|]. split; [assumption|]. split; [|split; [exact Ta|]].
  - unfold read_slow_client_policy in Sl. peel Sl. injection Sl as <-. cbn [sc_keepalive_request_limit sc_keepalive_enabled]. intros k Ck.
    match goal with H : requests_per_connection_to_reuse_limit _ _ = Ok ?r |- _ => unfold requests_per_connection_to_reuse_limit, try_from_u32 in H; destruct (_ <=? u32_max) eqn:Q in H; [|discriminate]; injection H as <- end.
    match goal with |- _ /\ ?kb = true => destruct kb; [|discriminate Ck] end. injection Ck as <-. split; [lia | reflexivity].
  - intros V. unfold refusal in Fd. rewrite V, bool_decide_eq_true_2 in Fd by reflexivity. discriminate Fd.
Qed.
End Guarantees.

(** A public edge for the witnesses. *)
Definition public_cli : EdgeCliConfig :=
  {| nums := <[max_body_bytes := 1048576]> (<[max_in_flight_requests := 100]> (<[worker_cap := 4]> ∅));
     texts := <[fqdn := bs "app.example.org"]> (<[public_mode := bs "beta"]> {[public_identity := bs "direct-public"]});
     paths := <[tls_cert := bs "/etc/oxo/cert.pem"]> {[tls_key := bs "/etc/oxo/key.pem"]};
     binds := <[https_bind := {| sa_ip := V4 0; sa_port := 443; sa_scope := 0 |}]> {[admin_bind := {| sa_ip := V4 2130706433; sa_port := 9000; sa_scope := 0 |}]};
     tris := ∅; switches := ∅; lists := {| r_worker_sockets := [bs "/run/oxo/w.sock"]; r_acme_contacts := []; r_trusted_proxy_cidrs := []; r_static_mounts := [] |} |}.
Definition public_fs (p : bytes) : stat :=
  if eq_bytes p (bs "/run/oxo") then Found Dir 448 else if eq_bytes p (bs "/etc/oxo/key.pem") then Found Regular 384
  else if eq_bytes p (bs "/etc/oxo/cert.pem") then Found Regular 420 else NotFound.
Definition public_run : result EdgeError RunEdgeOptions :=
  run_with_cli (fun _ => None) public_fs (fun _ => false) (fun _ => false) (fun _ => DnsNames [bs "APP.example.org"]) (fun _ => false) (Limits 4096 4096) 8 public_cli.
Lemma public_listener_is_guarded_witness : exists o, public_run = Ok o /\ is_some (o_admin o) = true.
Proof.
  destruct public_run as [o|e] eqn:E; [|vm_compute in E; discriminate]. exists o. split; [reflexivity|].
  pose proof E as E'. apply public_listener_is_guarded in E as (_ & P & _).
  assert (is_loopback (sa_ip (o_bind o)) = false /\ o_public_mode o = Some SmokeBeta) as [L M]
    by (vm_compute in E'; injection E' as <-; split; vm_compute; reflexivity).
  destruct (P L) as (m & _ & _ & _ & _ & _ & _ & M' & _ & _ & _ & _ & _ & _ & _ & _ & B). apply B. congruence.
Defined.
Lemma accepted_limits_are_enforceable_witness : exists o, public_run = Ok o /\ (o_hop o = Frame -> o_max_body o <= u32_max).
Proof.
  destruct public_run as [o|e] eqn:E; [|vm_compute in E; discriminate]. exists o. split; [reflexivity|].
  apply accepted_limits_are_enforceable in E as (_ & B & _). exact B.
Defined.
