(* ===== verification/Telemetry.v ===== *)
(** * Telemetry: what the edge tells its operator

    Model of [crates/oxo-pingora-edge/src/platform/telemetry.rs]: the atomic counters of
    [EdgeTelemetry] and the methods that record a request, the request log, the bodies of
    [/ready] and [/metrics], and the private admin endpoint that serves them; with the snapshots
    of [platform/fairness.rs] and the certificate fields of [acme/state.rs] they print.

    Recording is a list of atomic operations on 64-bit counters (all [Relaxed]; the counters are
    independent, so an interleaving of the operations is a run of the edge).  What is read from
    the clock, the drain flag and the other statics is an argument. *)

From S2P Require Import Prelude Text LineText AdminJson Fairness FramePool Dispatch EdgeConf.

(** ** Counters *)

Inductive counter : Type :=
| InFlight | RequestsTotal | ResponsesTotal | RejectionsTotal
| Status2xx | Status4xx | Status5xx | StatusOther
| LastResponseStatus | LastRejectionStatus | RateLimitedTotal | LastRequestSeq.
#[global] Instance counter_eq_dec : EqDecision counter.
Proof. solve_decision. Defined.

Inductive bump : Type :=
| Add (c : counter)               (** [fetch_add(1)] *)
| Sub (c : counter)               (** [fetch_sub(1)] *)
| Store (c : counter) (v : Z).
Definition cells : Type := counter -> Z.
Definition zero_cells : cells := fun _ => 0.
Definition apply_bump (b : bump) (s : cells) : cells := fun c =>
  match b with
  | Add d => if decide (c = d) then incr (s c) else s c
  | Sub d => if decide (c = d) then (s c - 1) mod (u64_max + 1) else s c
  | Store d v => if decide (c = d) then v else s c
  end.

Definition start_request (request_sequence : Z) : list bump :=
  [Add RequestsTotal; Add InFlight; Store LastRequestSeq request_sequence].
(** [Drop for RequestObservation] *)
Definition drop_observation : list bump := [Sub InFlight].
Definition record_status_class (status : Z) : bump :=
  if (200 <=? status) && (status <=? 299) then Add Status2xx
  else if (400 <=? status) && (status <=? 499) then Add Status4xx
  else if (500 <=? status) && (status <=? 599) then Add Status5xx
  else Add StatusOther.
Definition record_response (status : Z) : list bump :=
  [Add ResponsesTotal; Store LastResponseStatus status; record_status_class status].
Definition record_rejection (status : Z) : list bump :=
  [Add RejectionsTotal; Store LastRejectionStatus status; record_status_class status].
Definition record_rate_limited : list bump :=
  [Add RateLimitedTotal; Add RejectionsTotal; Store LastRejectionStatus 503; record_status_class 503].
Definition record_overloaded : list bump :=
  [Add RejectionsTotal; Store LastRejectionStatus 503; record_status_class 503].

(** The four ways a request is recorded. *)
Inductive outcome : Type :=
| Response (status : Z)
| Rejection (status : Z)
| RateLimited
| Overloaded.
Definition record (o : outcome) : list bump :=
  match o with
  | Response status => record_response status
  | Rejection status => record_rejection status
  | RateLimited => record_rate_limited
  | Overloaded => record_overloaded
  end.

(** ** The request log *)

Definition log_mode_str (m : RequestLogMode) : bytes :=
  match m with LogOff => bs "off" | LogRejections => bs "rejections" | LogAll => bs "all" end.
Definition logs_responses (m : RequestLogMode) : bool := match m with LogAll => true | _ => false end.
Definition logs_rejections (m : RequestLogMode) : bool := match m with LogOff => false | _ => true end.
Definition public_mode_str (m : PublicMode) : bytes := match m with Alpha => bs "alpha" | SmokeBeta => bs "smoke-beta" end.
Definition public_mode_name (m : option PublicMode) : bytes :=
  match m with Some m => public_mode_str m | None => bs "loopback" end.
Definition worker_hop_str (h : WorkerHop) : bytes := match h with Frame => bs "frame" | HttpHop => bs "http" end.

Definition log_fields (mode : option PublicMode) (request_id what : bytes) (status : Z) : list field :=
  [(bs "event", JWord (bs "oxo_edge_request")); (bs "request_id", JStr request_id); (bs "outcome", JWord what);
   (bs "status", JNum status); (bs "public_mode", JWord (public_mode_name mode))].
(** [eprintln!] ends the line. *)
Definition log_request_outcome (mode : option PublicMode) (request_id what : bytes) (status : Z) : bytes :=
  write_object (log_fields mode request_id what status) ++ [zb 10].
(** What a recording method prints. *)
Definition logged (log : RequestLogMode) (mode : option PublicMode) (request_id : bytes) (o : outcome) : option bytes :=
  match o with
  | Response status => if logs_responses log then Some (log_request_outcome mode request_id (bs "response") status) else None
  | Rejection status => if logs_rejections log then Some (log_request_outcome mode request_id (bs "rejection") status) else None
  | RateLimited => if logs_rejections log then Some (log_request_outcome mode request_id (bs "rate_limited") 503) else None
  | Overloaded => if logs_rejections log then Some (log_request_outcome mode request_id (bs "overloaded") 503) else None
  end.

(** ** Snapshots *)

Record GlobalInFlightSnapshot : Type := {
  gs_enabled : bool; gs_max_requests : option Z; gs_active : Z; gs_admitted_total : Z; gs_overload_total : Z; gs_max_active_observed : Z }.
Definition global_snapshot (max_requests : option Z) (s : slots (C := unit)) : GlobalInFlightSnapshot :=
  {| gs_enabled := match max_requests with Some _ => true | None => false end; gs_max_requests := max_requests; gs_active := active s;
     gs_admitted_total := granted_total s; gs_overload_total := refused_total s; gs_max_active_observed := max_active_observed s |}.
Record IdentityFairnessSnapshot : Type := {
  fs_enabled : bool; fs_max_per_identity : option Z; fs_active_in_flight : Z; fs_tracked_identities : Z; fs_admitted_total : Z; fs_saturation_total : Z }.
Definition identity_snapshot (l : IdentityFairnessLimiter) : IdentityFairnessSnapshot :=
  {| fs_enabled := match max_per_identity l with Some _ => true | None => false end; fs_max_per_identity := max_per_identity l;
     fs_active_in_flight := map_fold (fun _ n acc => n + acc) 0 (in_flight l); fs_tracked_identities := Z.of_nat (size (in_flight l));
     fs_admitted_total := id_admitted_total l; fs_saturation_total := saturation_total l |}.
Record LongLivedSnapshot : Type := {
  ls_active : Z; ls_accepted_total : Z; ls_rejected_total : Z; ls_max_active_observed : Z; ls_totals : LongLivedCounters; ls_limits : LongLivedLimits }.
Definition long_lived_snapshot (limits : LongLivedLimits) (s : slots (C := LongLivedCounters)) : LongLivedSnapshot :=
  {| ls_active := active s; ls_accepted_total := granted_total s; ls_rejected_total := refused_total s;
     ls_max_active_observed := max_active_observed s; ls_totals := counters s; ls_limits := limits |}.

(** ** The bodies *)

(** [pingora_tls_handshake_timeout_secs] of [SlowClientPolicy] is a constant of the code. *)
Definition PINGORA_TLS_HANDSHAKE_TIMEOUT_SECS : Z := 60.
Record EdgeTelemetry : Type := {
  worker_count : Z; edge_threads : Z; listener_tasks : Z; request_log : RequestLogMode; t_worker_hop : WorkerHop; t_public_mode : option PublicMode;
  slow_client : SlowClientPolicy; certificate_admin_json : option bytes; serve_rails_active : bool; serve_rails_static : bytes; routing_pinned : bool }.
(** The statics of the dispatcher. *)
Record DispatchView : Type := {
  dv_mode : DispatchMode; dv_cap : option Z; dv_parked : Z; dv_park_total : Z; dv_hit_total : Z; dv_miss_total : Z;
  dv_fallback_total : Z; dv_evict_total : Z; dv_entries : Z; dv_pins : list Z }.
(** What one request to the endpoint reads: the two reads of the drain flag, the clock, the
    counters, the snapshots, the dispatcher, the process id and the static-file counters. *)
Record AdminView : Type := {
  av_draining : bool; av_draining_again : bool; av_uptime : Z; av_cells : cells;
  av_global : GlobalInFlightSnapshot; av_fairness : IdentityFairnessSnapshot; av_long_lived : LongLivedSnapshot;
  av_dispatch : DispatchView; av_pid : Z; av_static : list (bytes * Z) }.

Definition ready (t : EdgeTelemetry) (draining : bool) : bool := (worker_count t >? 0) && negb draining.
(** [oxo-{pid}-{seq}] *)
Definition request_id_text (pid sequence : Z) : bytes := bs "oxo-" ++ show_uint pid ++ bs "-" ++ show_uint sequence.
Definition last_request_id_json (pid seq : Z) : jvalue := if seq =? 0 then JNull else JWord (request_id_text pid seq).
Definition sticky_pins_json (n : Z) (pins : list Z) : jvalue := JNums (take (Z.to_nat (Z.min n (Z.of_nat MAX_WORKERS))) pins).

Definition ready_fields (t : EdgeTelemetry) (v : AdminView) : list field :=
  let s := av_cells v in let g := av_global v in let f := av_fairness v in let l := av_long_lived v in let d := av_dispatch v in let c := slow_client t in
  [(bs "live", JBool true); (bs "ready", JBool (ready t (av_draining v))); (bs "draining", JBool (av_draining_again v)); (bs "generation", JNum 1);
   (bs "worker_count", JNum (worker_count t)); (bs "edge_threads", JNum (edge_threads t)); (bs "listener_tasks", JNum (listener_tasks t));
   (bs "request_log", JWord (log_mode_str (request_log t))); (bs "worker_hop", JWord (worker_hop_str (t_worker_hop t)));
   (bs "worker_dispatch", JWord (mode_name (dv_mode d))); (bs "public_mode", JWord (public_mode_name (t_public_mode t)));
   (bs "operator_schema", JWord (bs "v86")); (bs "uptime_seconds", JNum (av_uptime v)); (bs "in_flight", JNum (s InFlight));
   (bs "requests_total", JNum (s RequestsTotal)); (bs "responses_total", JNum (s ResponsesTotal)); (bs "rejections_total", JNum (s RejectionsTotal));
   (bs "rate_limited_total", JNum (s RateLimitedTotal)); (bs "overload_total", JNum (gs_overload_total g));
   (bs "global_in_flight_enabled", JBool (gs_enabled g)); (bs "global_in_flight_max_requests", option_u64_json (gs_max_requests g));
   (bs "global_in_flight_active", JNum (gs_active g)); (bs "global_in_flight_admitted_total", JNum (gs_admitted_total g));
   (bs "global_in_flight_max_active_observed", JNum (gs_max_active_observed g));
   (bs "slow_client_header_read_timeout_ms", JNum (sc_header_read_timeout_ms c)); (bs "slow_client_header_read_timeout_enforced", JBool false);
   (bs "slow_client_keepalive_idle_timeout_ms", JNum (sc_keepalive_idle_timeout_ms c));
   (bs "slow_client_keepalive_idle_timeout_enforced", JBool (sc_keepalive_enabled c));
   (bs "slow_client_max_connection_secs", option_u64_json (sc_max_connection_secs c)); (bs "slow_client_max_connection_secs_enforced", JBool false);
   (bs "slow_client_pingora_tls_handshake_timeout_secs", JNum PINGORA_TLS_HANDSHAKE_TIMEOUT_SECS);
   (bs "serve_rails_active", JBool (serve_rails_active t)); (bs "serve_rails_static", JStr (serve_rails_static t));
   (bs "routing_pinned", JBool (routing_pinned t)); (bs "status_2xx_total", JNum (s Status2xx)); (bs "status_4xx_total", JNum (s Status4xx));
   (bs "status_5xx_total", JNum (s Status5xx)); (bs "status_other_total", JNum (s StatusOther)); (bs "fairness_enabled", JBool (fs_enabled f));
   (bs "fairness_max_in_flight_per_identity", option_u64_json (fs_max_per_identity f)); (bs "fairness_in_flight", JNum (fs_active_in_flight f));
   (bs "fairness_tracked_identities", JNum (fs_tracked_identities f)); (bs "fairness_admitted_total", JNum (fs_admitted_total f));
   (bs "fairness_saturation_total", JNum (fs_saturation_total f)); (bs "long_lived_active", JNum (ls_active l));
   (bs "long_lived_max_connections", JNum (ll_max_connections (ls_limits l))); (bs "long_lived_max_buffered_bytes", JNum (ll_max_buffered_bytes (ls_limits l)));
   (bs "long_lived_downstream_write_timeout_ms", JNum (ll_write_timeout_ms (ls_limits l)));
   (bs "long_lived_max_active_observed", JNum (ls_max_active_observed l)); (bs "long_lived_accepted_total", JNum (ls_accepted_total l));
   (bs "long_lived_completed_total", JNum (completed_total (ls_totals l))); (bs "long_lived_drained_total", JNum (drained_total (ls_totals l)));
   (bs "long_lived_cancelled_total", JNum (cancelled_total (ls_totals l))); (bs "long_lived_rejected_total", JNum (ls_rejected_total l));
   (bs "long_lived_downstream_timeout_total", JNum (downstream_timeout_total (ls_totals l)));
   (bs "long_lived_bytes_streamed_total", JNum (bytes_streamed_total (ls_totals l)));
   (bs "last_request_id", last_request_id_json (av_pid v) (s LastRequestSeq)); (bs "last_response_status", status_json (s LastResponseStatus));
   (bs "last_rejection_status", status_json (s LastRejectionStatus)); (bs "worker_cap", option_u64_json (dv_cap d)); (bs "parked", JNum (dv_parked d));
   (bs "park_total", JNum (dv_park_total d)); (bs "sticky_hit_total", JNum (dv_hit_total d)); (bs "sticky_miss_total", JNum (dv_miss_total d));
   (bs "sticky_fallback_total", JNum (dv_fallback_total d)); (bs "sticky_evict_total", JNum (dv_evict_total d)); (bs "sticky_entries", JNum (dv_entries d));
   (bs "sticky_pins", sticky_pins_json (worker_count t) (dv_pins d))].
Definition ready_json (t : EdgeTelemetry) (v : AdminView) : bytes :=
  bs "{" ++ write_fields (ready_fields t v) ++ unwrap_or [] (certificate_admin_json t) ++ bs "}".

(** [CertificateLifecycleStatus::admin_json_fields] *)
Record CertificateLifecycleStatus : Type := {
  cert_present : bool; not_after_epoch_seconds : option Z; seconds_until_expiry : option Z; renewal_due : bool;
  next_renewal_epoch_seconds : option Z; reload_required : bool; reload_strategy : option bytes; plaintext_fallback : bool;
  failure_count : Z; last_error_kind : option bytes; last_error_message : option bytes; backoff_until_epoch_seconds : option Z }.
Definition certificate_fields (c : CertificateLifecycleStatus) : list field :=
  [(bs "cert_present", JBool (cert_present c)); (bs "cert_not_after_epoch_seconds", option_u64_json (not_after_epoch_seconds c));
   (bs "cert_seconds_until_expiry", option_u64_json (seconds_until_expiry c)); (bs "cert_renewal_due", JBool (renewal_due c));
   (bs "cert_next_renewal_epoch_seconds", option_u64_json (next_renewal_epoch_seconds c)); (bs "cert_reload_required", JBool (reload_required c));
   (bs "cert_reload_strategy", option_string_json (reload_strategy c)); (bs "cert_plaintext_fallback", JBool (plaintext_fallback c));
   (bs "cert_failure_count", JNum (failure_count c)); (bs "cert_last_error_kind", option_string_json (last_error_kind c));
   (bs "cert_last_error_message", option_string_json (last_error_message c));
   (bs "cert_backoff_until_epoch_seconds", option_u64_json (backoff_until_epoch_seconds c))].
Definition admin_json_fields (c : CertificateLifecycleStatus) : bytes := [comma] ++ write_fields (certificate_fields c).

(** ** [/metrics] *)

Inductive metric_kind : Type := Gauge | Counter.
Definition metric : Type := (bytes * metric_kind * Z)%type.
Definition kind_text (k : metric_kind) : bytes := match k with Gauge => bs "gauge" | Counter => bs "counter" end.
Definition write_metric (m : metric) : bytes :=
  bs "# TYPE " ++ fst (fst m) ++ bs " " ++ kind_text (snd (fst m)) ++ [zb 10] ++ fst (fst m) ++ bs " " ++ show_uint (snd m) ++ [zb 10].
Definition u8_from (b : bool) : Z := if b then 1 else 0.
Definition edge_metrics (v : AdminView) : list metric :=
  let s := av_cells v in let g := av_global v in let f := av_fairness v in let l := av_long_lived v in
  [(bs "oxo_edge_in_flight", Gauge, s InFlight); (bs "oxo_edge_draining", Gauge, u8_from (av_draining v));
   (bs "oxo_edge_requests_total", Counter, s RequestsTotal); (bs "oxo_edge_responses_total", Counter, s ResponsesTotal);
   (bs "oxo_edge_rejections_total", Counter, s RejectionsTotal); (bs "oxo_edge_rate_limited_total", Counter, s RateLimitedTotal);
   (bs "oxo_edge_overload_total", Counter, gs_overload_total g); (bs "oxo_edge_global_in_flight_active", Gauge, gs_active g);
   (bs "oxo_edge_global_in_flight_max_active_observed", Gauge, gs_max_active_observed g);
   (bs "oxo_edge_global_in_flight_admitted_total", Counter, gs_admitted_total g); (bs "oxo_edge_status_2xx_total", Counter, s Status2xx);
   (bs "oxo_edge_status_4xx_total", Counter, s Status4xx); (bs "oxo_edge_status_5xx_total", Counter, s Status5xx);
   (bs "oxo_edge_status_other_total", Counter, s StatusOther); (bs "oxo_edge_fairness_enabled", Gauge, u8_from (fs_enabled f));
   (bs "oxo_edge_fairness_in_flight", Gauge, fs_active_in_flight f); (bs "oxo_edge_fairness_tracked_identities", Gauge, fs_tracked_identities f);
   (bs "oxo_edge_fairness_admitted_total", Counter, fs_admitted_total f); (bs "oxo_edge_fairness_saturation_total", Counter, fs_saturation_total f);
   (bs "oxo_edge_long_lived_active", Gauge, ls_active l); (bs "oxo_edge_long_lived_max_active_observed", Gauge, ls_max_active_observed l);
   (bs "oxo_edge_long_lived_accepted_total", Counter, ls_accepted_total l); (bs "oxo_edge_long_lived_completed_total", Counter, completed_total (ls_totals l));
   (bs "oxo_edge_long_lived_drained_total", Counter, drained_total (ls_totals l)); (bs "oxo_edge_long_lived_cancelled_total", Counter, cancelled_total (ls_totals l));
   (bs "oxo_edge_long_lived_rejected_total", Counter, ls_rejected_total l);
   (bs "oxo_edge_long_lived_downstream_timeout_total", Counter, downstream_timeout_total (ls_totals l));
   (bs "oxo_edge_long_lived_bytes_streamed_total", Counter, bytes_streamed_total (ls_totals l))].

(** [str::replace] *)
Fixpoint replace_from (skip : nat) (from to s : bytes) : bytes :=
  match s with
  | [] => []
  | b :: s' =>
      match skip with
      | S skip => replace_from skip from to s'
      | O => if starts_with from s then to ++ replace_from (length from - 1) from to s' else b :: replace_from 0 from to s'
      end
  end.
Definition static_metrics (v : AdminView) : list metric :=
  map (fun m => (replace_from 0 (bs "crenel_") (bs "oxo_edge_static_") (fst m), Counter, snd m)) (av_static v).
Definition static_metrics_text (v : AdminView) : bytes := concat (map write_metric (static_metrics v)).
Definition metrics_text (v : AdminView) : bytes := concat (map write_metric (edge_metrics v)) ++ static_metrics_text v.

(** ** The endpoint *)

(** [IdleCeilingSource::as_str] *)
Definition ceiling_source_str (s : IdleCeilingSource) : bytes := match s with FromEnv => bs "env" | FromDefault => bs "default" end.
(** The counters of the worker pool that [WorkerFramePool::health_json] prints. *)
Record PoolHealth : Type := {
  ph_pool_reuse_total : Z; ph_fresh_connect_total : Z; ph_stale_evictions : Z; ph_try_unwrap_fail_total : Z; ph_unwrap_retry_total : Z;
  ph_checkin_total : Z; ph_lru_evictions : Z; ph_idle_ceiling : Z; ph_idle_high_water : Z; ph_lock_contended_total : Z; ph_lock_wait_ns : Z;
  ph_idle_source : IdleCeilingSource; ph_unwrap_wait_budget_ms : Z; ph_unwrap_wait_ns : Z; ph_unwrap_wait_max_ns : Z }.
Definition health_fields (p : PoolHealth) : list field :=
  [(bs "pool_reuse_total", JNum (ph_pool_reuse_total p)); (bs "fresh_connect_total", JNum (ph_fresh_connect_total p));
   (bs "stale_evictions", JNum (ph_stale_evictions p)); (bs "try_unwrap_fail_total", JNum (ph_try_unwrap_fail_total p));
   (bs "unwrap_retry_total", JNum (ph_unwrap_retry_total p)); (bs "checkin_total", JNum (ph_checkin_total p));
   (bs "lru_evictions", JNum (ph_lru_evictions p)); (bs "frame_pool_idle", JNum (ph_idle_ceiling p)); (bs "pool_impl", JWord (bs "owned"));
   (bs "idle_high_water", JNum (ph_idle_high_water p)); (bs "pool_lock_contended_total", JNum (ph_lock_contended_total p));
   (bs "pool_lock_wait_ns", JNum (ph_lock_wait_ns p)); (bs "frame_pool_idle_source", JWord (ceiling_source_str (ph_idle_source p)));
   (bs "unwrap_wait_budget_ms", JNum (ph_unwrap_wait_budget_ms p)); (bs "unwrap_wait_ns", JNum (ph_unwrap_wait_ns p));
   (bs "unwrap_wait_max_ns", JNum (ph_unwrap_wait_max_ns p))].
Definition health_json (p : PoolHealth) : bytes := write_object (health_fields p) ++ [zb 10].
Definition admin_pool_health_json (pool : option PoolHealth) : bytes :=
  match pool with
  | Some p => bs "{" ++ quoted (bs "registered") ++ bs ":true," ++ trim_start_by (fun b => bz b =? 123) (trim_start (health_json p))
  | None => bs "{" ++ quoted (bs "registered") ++ bs ":false}" ++ [zb 10]
  end.

Definition ADMIN_READ : nat := 1024.
Definition admin_path (request : bytes) : bytes :=
  match lines (to_text request) with
  | line :: _ => match split_whitespace line with _ :: path :: _ => path | _ => bs "/" end
  | [] => bs "/"
  end.
Definition admin_route (t : EdgeTelemetry) (v : AdminView) (pool : option PoolHealth) (path : bytes) : string * string * bytes :=
  if eq_bytes path (bs "/live") then ("200 OK"%string, "application/json"%string, bs "{" ++ quoted (bs "live") ++ bs ":true}" ++ [zb 10])
  else if eq_bytes path (bs "/ready") then ("200 OK"%string, "application/json"%string, ready_json t v)
  else if eq_bytes path (bs "/pool-health") then ("200 OK"%string, "application/json"%string, admin_pool_health_json pool)
  else if eq_bytes path (bs "/metrics") then ("200 OK"%string, "text/plain; version=0.0.4"%string, metrics_text v)
  else ("404 Not Found"%string, "application/json"%string, bs "{" ++ quoted (bs "error") ++ bs ":" ++ quoted (bs "not_found") ++ bs "}" ++ [zb 10]).
Definition crlf : bytes := [zb 13; zb 10].
Definition admin_response (r : string * string * bytes) : bytes :=
  bs "HTTP/1.1 " ++ bs (fst (fst r)) ++ crlf ++ bs "Content-Type: " ++ bs (snd (fst r)) ++ crlf
  ++ bs "Content-Length: " ++ show_uint (zlen (snd r)) ++ crlf ++ bs "Connection: close" ++ crlf ++ crlf ++ snd r.
(** One connection: the bytes of the only [read] ([None]: it failed or timed out), and what is
    written back. *)
Definition handle_admin_connection (t : EdgeTelemetry) (v : AdminView) (pool : option PoolHealth) (read : option bytes) : option bytes :=
  match read with
  | None | Some [] => None
  | Some data => Some (admin_response (admin_route t v pool (admin_path (take ADMIN_READ data))))
  end.

(** ** Interleavings

    The edge serves many requests at once; each runs its own list of operations, and one step
    performs the next operation of one of them. *)

Record run : Type := { shared : cells; threads : list (list bump) }.
Inductive run_step : run -> run -> Prop :=
| do_bump s ts i b bs :
    ts !! i = Some (b :: bs) -> run_step {| shared := s; threads := ts |} {| shared := apply_bump b s; threads := <[i := bs]> ts |}.
Definition start_run (ts : list (list bump)) : run := {| shared := zero_cells; threads := ts |}.

(** What a list of operations adds to a counter. *)
Definition weight (c : counter) (b : bump) : Z :=
  match b with Add d => if decide (c = d) then 1 else 0 | Sub d => if decide (c = d) then -1 else 0 | Store _ _ => 0 end.
Definition net (c : counter) (bs : list bump) : Z := fold_right (fun b n => weight c b + n) 0 bs.
Definition net_all (c : counter) (ts : list (list bump)) : Z := fold_right (fun bs n => net c bs + n) 0 ts.
Definition stores (c : counter) (b : bump) : bool := match b with Store d _ => bool_decide (c = d) | _ => false end.
(** A counter that only goes up and down. *)
Definition only_counts (c : counter) (ts : list (list bump)) : Prop := Forall (Forall (fun b => stores c b = false)) ts.

Lemma net_cons c x a : net c (x :: a) = weight c x + net c a.
Proof. reflexivity. Qed.
Lemma net_all_cons c t ts : net_all c (t :: ts) = net c t + net_all c ts.
Proof. reflexivity. Qed.
Lemma net_app c a b : net c (a ++ b) = net c a + net c b.
Proof. induction a as [|x a IH]; cbn [app]; [cbn [net fold_right]; lia | rewrite !net_cons, IH; lia]. Qed.
Lemma net_all_insert c ts i bs bs' : ts !! i = Some bs -> net_all c (<[i := bs']> ts) = net_all c ts - net c bs + net c bs'.
Proof.
  revert i. induction ts as [|t ts IH]; intros [|i]; [discriminate..| |]; intros E.
  - injection E as ->. cbn [insert list_insert]. rewrite !net_all_cons. lia.
  - change (<[S i := bs']> (t :: ts)) with (t :: <[i := bs']> ts). rewrite !net_all_cons, (IH i E). lia.
Qed.
Lemma apply_bump_counts c b s : stores c b = false -> apply_bump b s c mod two64 = (s c + weight c b) mod two64.
Proof.
  destruct b as [d|d|d v]; cbn [apply_bump stores weight].
  - unfold incr, two64. intros _. destruct (decide (c = d)); [rewrite Z.mod_mod by (unfold_ints; lia); reflexivity | f_equal; lia].
  - intros _. destruct (decide (c = d)); [unfold two64; rewrite Z.mod_mod by (unfold_ints; lia); f_equal; lia | f_equal; lia].
  - rewrite bool_decide_eq_false. intros N. destruct (decide (c = d)); [contradiction | f_equal; lia].
Qed.
Lemma apply_bump_range c b s : 0 <= s c < two64 -> stores c b = false -> 0 <= apply_bump b s c < two64.
Proof.
  intros R. destruct b as [d|d|d v]; cbn [apply_bump stores].
  - intros _. destruct (decide (c = d)); [apply Z.mod_pos_bound; unfold_ints; lia | exact R].
  - intros _. destruct (decide (c = d)); [apply Z.mod_pos_bound; unfold_ints; lia | exact R].
  - rewrite bool_decide_eq_false. intros N. destruct (decide (c = d)); [contradiction | exact R].
Qed.

(** At every moment a counter and what the requests have still to do make up the total. *)
Lemma run_counts c ts r : only_counts c ts -> rtc run_step (start_run ts) r ->
  (shared r c + net_all c (threads r)) mod two64 = net_all c ts mod two64 /\ 0 <= shared r c < two64 /\ only_counts c (threads r).
Proof.
  intros O R. remember (start_run ts) as r0. cut (forall r1, rtc run_step r1 r ->
    only_counts c (threads r1) -> 0 <= shared r1 c < two64 ->
    (shared r c + net_all c (threads r)) mod two64 = (shared r1 c + net_all c (threads r1)) mod two64 /\ 0 <= shared r c < two64 /\ only_counts c (threads r)).
  { intros K. subst r0. specialize (K _ R O). cbn [start_run shared threads zero_cells] in K. apply K. split; reflexivity || discriminate. }
  clear. induction 1 as [r|r1 r2 r3 S _ IH]; [auto|]. intros O B. destruct S as [s ts i b bs L]. cbn [shared threads] in *.
  pose proof O as O'. unfold only_counts in O'. rewrite list.Forall_lookup in O'. specialize (O' _ _ L). cbn beta in O'. inversion O' as [|? ? Sb Sbs]; subst.
  destruct IH as (E & Bd & O2).
  - apply Forall_insert; assumption.
  - apply apply_bump_range; assumption.
  - split; [|auto]. rewrite E, (net_all_insert c ts i (b :: bs)) by exact L. rewrite net_cons.
    rewrite <- Zplus_mod_idemp_l, apply_bump_counts, Zplus_mod_idemp_l by exact Sb. f_equal. lia.
Qed.
(** When every request is done, the counter holds the total. *)
Lemma run_total c ts r : only_counts c ts -> rtc run_step (start_run ts) r -> Forall (fun t => t = []) (threads r) ->
  shared r c = net_all c ts mod two64.
Proof.
  intros O R D. destruct (run_counts c ts r O R) as (E & B & _). assert (net_all c (threads r) = 0) as Z.
  { clear -D. induction D as [|t l -> _ IH]; [reflexivity | rewrite net_all_cons, IH; reflexivity]. }
  rewrite Z, Z.add_0_r, (Z.mod_small (shared r c)) in E by exact B. exact E.
Qed.

(** ** Reading the answers *)

Definition number_fits (v : jvalue) : Prop := match v with JNum n => is_u64 n | JNums l => Forall is_u64 l | _ => True end.
(** Every number is one of the machine's. *)
Definition numbers_fit (fs : list field) : Prop := Forall (fun f => number_fits (snd f)) fs.
Definition u64b (n : Z) : bool := (0 <=? n) && (n <=? u64_max).
Definition number_fitsb (v : jvalue) : bool := match v with JNum n => u64b n | JNums l => forallb u64b l | _ => true end.
Lemma numbers_fit_b fs : forallb (fun f => number_fitsb (snd f)) fs = true -> numbers_fit fs.
Proof.
  assert (forall n, u64b n = true -> is_u64 n) as U by (unfold u64b, is_u64; intros; lia).
  intros H. apply List.Forall_forall. intros f Hf. rewrite forallb_forall in H. specialize (H f Hf). destruct (snd f); cbn in *; auto.
  apply List.Forall_forall. intros n Hn. apply U. rewrite forallb_forall in H. auto.
Qed.
Definition word_plain (v : jvalue) : Prop := match v with JWord s => plain s = true | _ => True end.
Definition texts_plain (fs : list field) : Prop := Forall (fun f => plain (fst f) = true /\ word_plain (snd f)) fs.
Lemma fields_fit fs : texts_plain fs -> numbers_fit fs -> Forall fits_field fs.
Proof.
  intros T N. induction T as [|[k v] fs [K W] T IH]; [constructor|]. inversion N as [|? ? N1 N2]; subst. constructor; [|auto].
  split; [exact K | destruct v; cbn in *; auto].
Qed.
Lemma plain_app a b : plain (a ++ b) = plain a && plain b.
Proof. apply forallb_app. Qed.
Lemma digits_plain s : forallb is_ascii_digit s = true -> plain s = true.
Proof. apply forallb_weaken. intros b H. destruct b; try discriminate H; reflexivity. Qed.
Lemma request_id_plain pid seq : 0 <= pid -> 0 <= seq -> plain (request_id_text pid seq) = true.
Proof. intros P S. unfold request_id_text. rewrite !plain_app, (digits_plain (show_uint pid)), (digits_plain (show_uint seq)) by (apply show_uint_digits; assumption). reflexivity. Qed.
Ltac plain_fields := repeat (constructor; [split; [reflexivity | try exact I; try reflexivity]|]); [.. | constructor].

Lemma ready_fields_plain t v : 0 <= av_pid v -> 0 <= av_cells v LastRequestSeq -> texts_plain (ready_fields t v).
Proof.
  intros P S. unfold ready_fields. cbv zeta. plain_fields; cbn [snd word_plain option_u64_json status_json last_request_id_json].
  all: unfold last_request_id_json, status_json, log_mode_str, worker_hop_str, public_mode_name, public_mode_str, mode_name, option_u64_json;
    repeat case_match; try exact I; try reflexivity. simplify_eq. apply request_id_plain; assumption.
Qed.
Lemma certificate_fields_plain c : texts_plain (certificate_fields c).
Proof. plain_fields; cbn [snd]; unfold option_u64_json, option_string_json; repeat case_match; exact I. Qed.
Lemma health_fields_plain p : texts_plain (health_fields p).
Proof. plain_fields. cbn [snd word_plain]. unfold ceiling_source_str. destruct (ph_idle_source p); reflexivity. Qed.

Definition shown_fields (t : EdgeTelemetry) (v : AdminView) (c : option CertificateLifecycleStatus) : list field :=
  ready_fields t v ++ match c with Some c => certificate_fields c | None => [] end.
Lemma ready_json_object t v c : certificate_admin_json t = option_map admin_json_fields c -> ready_json t v = write_object (shown_fields t v c).
Proof.
  intros E. unfold ready_json, shown_fields, write_object. rewrite E. destruct c as [c|]; cbn [option_map unwrap_or].
  - rewrite write_fields_app by discriminate. unfold admin_json_fields. rewrite <- !app_assoc. reflexivity.
  - rewrite app_nil_r. reflexivity.
Qed.
Lemma pool_health_object p :
  admin_pool_health_json (Some p) = write_object ((bs "registered", JBool true) :: health_fields p) ++ [zb 10].
Proof. reflexivity. Qed.

(** The request line of a probe. *)
Definition probe (meth path version rest : bytes) : bytes := meth ++ zb 32 :: path ++ zb 32 :: version ++ crlf ++ rest.
Definition word_ok (s : bytes) : Prop := s <> [] /\ forallb graphic s = true.
Lemma graphic_below s : forallb graphic s = true -> forallb (fun b => bz b <? 128) s = true.
Proof. apply forallb_weaken. intros b H. destruct b; try discriminate H; reflexivity. Qed.
Lemma lossy_ascii_prefix a s fuel : forallb (fun b => bz b <? 128) a = true -> (length a <= fuel)%nat ->
  from_utf8_lossy fuel (a ++ s) = a ++ from_utf8_lossy (fuel - length a) s.
Proof.
  revert fuel. induction a as [|b a IH]; intros fuel A L; [rewrite Nat.sub_0_r; reflexivity|]. cbn [forallb] in A. apply andb_prop in A as [B A].
  destruct fuel as [|fuel]; [cbn in L; lia|]. cbn [app from_utf8_lossy]. rewrite B. cbn [take drop app length]. rewrite drop_0, IH by (cbn in L; lia || exact A). reflexivity.
Qed.
Lemma lines_first l s : contains_byte (zb 10) l = false -> exists ls, lines (l ++ crlf ++ s) = l :: ls.
Proof.
  intros N. unfold lines. replace (l ++ crlf ++ s) with ((l ++ [zb 13]) ++ [zb 10] ++ s) by (rewrite <- app_assoc; reflexivity).
  rewrite split_byte_piece by (rewrite contains_byte_app, N; reflexivity). cbn [rev].
  assert (strip_cr (l ++ [zb 13]) = l) as SC by (unfold strip_cr; rewrite rev_app_distr; cbn; apply rev_involutive).
  destruct (rev (split_byte (zb 10) s)) as [|[|b p] r] eqn:R; cbn [app].
  - destruct (l ++ [zb 13]) eqn:E; [destruct l; discriminate|]. cbn [map]. rewrite SC. eauto.
  - rewrite rev_app_distr. cbn [rev app map]. rewrite SC. eauto.
  - cbn [map]. rewrite SC. eauto.
Qed.
Lemma admin_path_probe m p w rest : word_ok m -> word_ok p -> word_ok w -> (length (m ++ p ++ w) + 4 <= ADMIN_READ)%nat ->
  admin_path (take ADMIN_READ (probe m p w rest)) = p.
Proof.
  intros [M1 M2] [P1 P2] [W1 W2] L. set (l := m ++ zb 32 :: p ++ zb 32 :: w).
  assert (probe m p w rest = l ++ crlf ++ rest) as -> by (unfold probe, l; rewrite <- !app_assoc; cbn [app]; rewrite <- !app_assoc; reflexivity).
  assert (length l = length (m ++ p ++ w) + 2)%nat as Ll by (unfold l; rewrite !length_app; cbn [length]; rewrite !length_app; cbn [length]; lia).
  rewrite take_app, (take_ge l) by lia.
  assert (exists r, take (ADMIN_READ - length l) (crlf ++ rest) = crlf ++ r) as [r ->].
  { destruct (ADMIN_READ - length l)%nat as [|[|n]] eqn:E; try lia. exists (take n rest). reflexivity. }
  assert (forallb (fun b => bz b <? 128) l = true) as A.
  { unfold l. rewrite forallb_app. cbn [forallb]. rewrite forallb_app. cbn [forallb]. rewrite !graphic_below by assumption. reflexivity. }
  unfold admin_path, to_text. rewrite app_assoc, lossy_ascii_prefix.
  - rewrite <- app_assoc. destruct (lines_first l (from_utf8_lossy (length ((l ++ crlf) ++ r) - length (l ++ crlf)) r)) as [ls ->].
    + unfold l. rewrite contains_byte_app. change (zb 32 :: p ++ zb 32 :: w) with ([zb 32] ++ p ++ [zb 32] ++ w). rewrite !contains_byte_app.
      rewrite !(no_byte_outside graphic (zb 10) m), !(no_byte_outside graphic (zb 10) p), !(no_byte_outside graphic (zb 10) w) by (reflexivity || assumption). reflexivity.
    + unfold l. rewrite three_words by assumption. reflexivity.
  - rewrite forallb_app, A. reflexivity.
  - rewrite (length_app (l ++ crlf)). apply Nat.le_add_r.
Qed.

(** A readiness probe gets the state of the edge.  Whatever the counters, the limits and the
    configured static directory (any bytes), the answer to [GET /ready] is a 200 whose body is
    one JSON object that a reader decodes to exactly the fields [ready_json] lists, followed by
    those of the certificate state when ACME is configured; every name occurs once; and the
    member [ready] is true iff a worker is configured and the edge is not draining. *)
Theorem ready_probe_reads_back t v pool c m w rest :
  word_ok m -> word_ok w -> (length (m ++ w) + 10 <= ADMIN_READ)%nat ->
  certificate_admin_json t = option_map admin_json_fields c ->
  0 <= av_pid v -> 0 <= av_cells v LastRequestSeq -> numbers_fit (shown_fields t v c) ->
  exists body fs, handle_admin_connection t v pool (Some (probe m (bs "/ready") w rest)) = Some (admin_response ("200 OK", "application/json", body)%string) /\
    read_object body = Some (fs, []) /\ fs = map field_as (shown_fields t v c) /\ NoDup (map fst fs) /\
    (In (bs "ready", JBool true) fs <-> worker_count t > 0 /\ av_draining v = false).
Proof.
  intros M W L C P S N. exists (ready_json t v), (map field_as (shown_fields t v c)). split; [|split; [|split; [reflexivity | split]]].
  - unfold handle_admin_connection. assert (probe m (bs "/ready") w rest <> []) as Ne by (destruct M as [M _]; unfold probe; destruct m; [congruence | discriminate]).
    destruct (probe m (bs "/ready") w rest) as [|b q] eqn:E; [congruence|]. rewrite <- E, admin_path_probe; [reflexivity | exact M | split; [discriminate | reflexivity] | exact W |].
    rewrite !length_app in *. cbn [length bs String.list_byte_of_string]. change (length (bs "/ready")) with 6%nat. lia.
  - rewrite (ready_json_object _ _ _ C), <- (app_nil_r (write_object _)). apply read_object_write; [discriminate|]. apply fields_fit; [|exact N].
    unfold texts_plain, shown_fields. rewrite Forall_app. split; [apply ready_fields_plain; assumption|]. destruct c; [apply certificate_fields_plain | constructor].
  - apply (bool_decide_unpack _). unfold shown_fields. destruct c; vm_compute; reflexivity.
  - split.
    + unfold shown_fields. rewrite map_app, in_app_iff. intros [K|K].
      * apply in_map_iff in K as ([k x] & [= Ek Ev] & K). unfold ready_fields in K. cbv zeta in K. cbn [In] in K.
        repeat (destruct K as [K|K]; [try (injection K as <- <-; discriminate Ek) | ]); [| contradiction].
        injection K as <- <-. cbn in Ev. injection Ev as Ev. unfold ready in Ev. apply andb_prop in Ev as [E1 E2]. apply negb_true_iff in E2. split; [lia | exact E2].
      * exfalso. destruct c as [c|]; [|exact K]. apply in_map_iff in K as ([k x] & [= Ek Ev] & K). unfold certificate_fields in K. cbn [In] in K.
        repeat (destruct K as [K|K]; [injection K as <- <-; discriminate Ek | ]). exact K.
    + intros [E1 E2]. apply in_map_iff. exists (bs "ready", JBool (ready t (av_draining v))). split.
      * unfold field_as, ready. rewrite E2. cbn. replace (worker_count t >? 0) with true by lia. reflexivity.
      * unfold shown_fields. apply in_app_iff. left. right. left. reflexivity.
Qed.

Definition demo_telemetry : EdgeTelemetry :=
  {| worker_count := 2; edge_threads := 4; listener_tasks := 1; request_log := LogRejections; t_worker_hop := Frame; t_public_mode := Some SmokeBeta;
     slow_client := {| sc_header_read_timeout_ms := 10000; sc_keepalive_idle_timeout_ms := 5000; sc_max_connection_secs := None;
                       sc_keepalive_enabled := true; sc_keepalive_request_limit := Some 99 |};
     certificate_admin_json := None; serve_rails_active := true; serve_rails_static := [zb 47; quote; backslash; zb 10; zb 194; zb 133];
     routing_pinned := true |}.
Definition demo_view : AdminView :=
  {| av_draining := false; av_draining_again := false; av_uptime := 12; av_cells := fun c => match c with LastRequestSeq => 41 | RequestsTotal => 41 | _ => 7 end;
     av_global := global_snapshot (Some 64) {| active := 1; granted_total := 41; refused_total := 0; max_active_observed := 3; counters := tt |};
     av_fairness := identity_snapshot (identity_new None);
     av_long_lived := long_lived_snapshot {| ll_max_connections := 8; ll_max_buffered_bytes := 1024; ll_write_timeout_ms := 30000 |}
                        {| active := 0; granted_total := 0; refused_total := 0; max_active_observed := 0; counters := zero_counters |};
     av_dispatch := {| dv_mode := Sticky; dv_cap := Some 1; dv_parked := 0; dv_park_total := 2; dv_hit_total := 9; dv_miss_total := 3; dv_fallback_total := 0;
                       dv_evict_total := 0; dv_entries := 3; dv_pins := [2; 1; 0; 0] |};
     av_pid := 4242; av_static := [(bs "crenel_hits_total", 5)] |}.
Lemma ready_probe_reads_back_witness :
  exists body fs, handle_admin_connection demo_telemetry demo_view None (Some (probe (bs "GET") (bs "/ready") (bs "HTTP/1.1") []))
    = Some (admin_response ("200 OK", "application/json", body)%string) /\ read_object body = Some (fs, []) /\ In (bs "ready", JBool true) fs.
Proof.
  destruct (ready_probe_reads_back demo_telemetry demo_view None None (bs "GET") (bs "HTTP/1.1") []) as (body & fs & H & R & _ & _ & E).
  - split; [discriminate | reflexivity].
  - split; [discriminate | reflexivity].
  - change (length (bs "GET" ++ bs "HTTP/1.1")) with 11%nat. unfold ADMIN_READ. lia.
  - reflexivity.
  - cbn. lia.
  - cbn. lia.
  - apply numbers_fit_b. vm_compute. reflexivity.
  - exists body, fs. split; [exact H | split; [exact R | apply E; split; [cbn; lia | reflexivity]]].
Defined.

(** ** Scraping *)

(** A reader of the text format: one sample per line that is neither blank nor a comment. *)
Fixpoint scrape_lines (ls : list bytes) : option (list (bytes * Z)) :=
  match ls with
  | [] => Some []
  | l :: ls' =>
      match l with
      | [] => scrape_lines ls'
      | b :: _ =>
          if bz b =? 35 then scrape_lines ls'
          else match split_once (zb 32) l with
               | Some (name, value) =>
                   match parse_uint u64_max value, scrape_lines ls' with Some n, Some r => Some ((name, n) :: r) | _, _ => None end
               | None => None
               end
      end
  end.
Definition scrape (s : bytes) : option (list (bytes * Z)) := scrape_lines (split_byte (zb 10) s).

Definition metric_ok (m : metric) : Prop :=
  match fst (fst m) with b :: _ => bz b <> 35 | [] => False end /\ forallb graphic (fst (fst m)) = true /\ is_u64 (snd m).
Definition samples (ms : list metric) : list (bytes * Z) := map (fun m => (fst (fst m), snd m)) ms.
Lemma scrape_metric m rest : metric_ok m -> scrape (write_metric m ++ rest) = match scrape rest with Some r => Some ((fst (fst m), snd m) :: r) | None => None end.
Proof.
  destruct m as [[name kind] n]. cbn [fst snd]. intros (F & G & N). cbn [fst snd] in F, G, N.
  assert (forall c, graphic c = false -> contains_byte c name = false) as Nn by (intros c Hc; apply (no_byte_outside graphic); assumption).
  assert (contains_byte (zb 10) (show_uint n) = false) as Nd by (apply digits_no_byte; [reflexivity | apply show_uint_digits; unfold_ints; lia]).
  unfold scrape, write_metric. cbn [fst snd].
  replace ((bs "# TYPE " ++ name ++ bs " " ++ kind_text kind ++ [zb 10] ++ name ++ bs " " ++ show_uint n ++ [zb 10]) ++ rest)
    with ((bs "# TYPE " ++ name ++ bs " " ++ kind_text kind) ++ [zb 10] ++ (name ++ bs " " ++ show_uint n) ++ [zb 10] ++ rest) by (rewrite <- !app_assoc; reflexivity).
  rewrite split_byte_piece, split_byte_piece.
  - change (bs "# TYPE ") with (zb 35 :: bs " TYPE "). cbn [app scrape_lines]. change (bz (zb 35) =? 35) with true. cbn iota.
    destruct name as [|b name]; [contradiction|]. cbn [app scrape_lines]. replace (bz b =? 35) with false by (symmetry; apply Z.eqb_neq; exact F).
    change (b :: name ++ bs " " ++ show_uint n) with ((b :: name) ++ [zb 32] ++ show_uint n). rewrite split_once_app by (apply Nn; reflexivity).
    rewrite parse_show_uint by (unfold_ints; lia). reflexivity.
  - rewrite !contains_byte_app, Nn, Nd by reflexivity. reflexivity.
  - rewrite !contains_byte_app, Nn by reflexivity. destruct kind; reflexivity.
Qed.
Lemma scrape_metrics ms rest : Forall metric_ok ms ->
  scrape (concat (map write_metric ms) ++ rest) = match scrape rest with Some r => Some (samples ms ++ r) | None => None end.
Proof.
  induction 1 as [|m ms M F IH]; cbn [map concat samples app]; [destruct (scrape rest); reflexivity|].
  rewrite <- app_assoc, scrape_metric, IH by exact M. destruct (scrape rest); reflexivity.
Qed.

(** A scrape of [/metrics] recovers every counter.  For any values of the counters, limits and
    snapshots, and any static-file counters whose names are printable words, the text that the
    endpoint writes is read back, line by line, as exactly the samples of the edge followed by
    the static-file samples under their [oxo_edge_static_] names, in order and with their
    64-bit values; and the edge's own names are distinct. *)
Theorem metrics_scrape_round_trip v :
  Forall metric_ok (edge_metrics v) -> Forall metric_ok (static_metrics v) ->
  scrape (metrics_text v) = Some (samples (edge_metrics v ++ static_metrics v)) /\ NoDup (map fst (samples (edge_metrics v))).
Proof.
  intros E S. split; [|apply (bool_decide_unpack _); vm_compute; reflexivity]. unfold metrics_text, static_metrics_text. rewrite scrape_metrics by exact E.
  rewrite <- (app_nil_r (concat (map write_metric (static_metrics v)))), scrape_metrics by exact S. change (scrape []) with (Some (@nil (bytes * Z))). cbn iota. unfold samples. rewrite app_nil_r, map_app. reflexivity.
Qed.
Lemma metrics_scrape_round_trip_witness :
  exists l, scrape (metrics_text demo_view) = Some l /\ In (bs "oxo_edge_static_hits_total", 5) l /\ In (bs "oxo_edge_requests_total", 41) l.
Proof.
  exists (samples (edge_metrics demo_view ++ static_metrics demo_view)). split; [apply metrics_scrape_round_trip|].
  - repeat (constructor; [split; [discriminate | split; [reflexivity | vm_compute; split; discriminate]]|]). constructor.
  - repeat (constructor; [split; [discriminate | split; [reflexivity | vm_compute; split; discriminate]]|]). constructor.
  - split; apply list_elem_of_In, (bool_decide_unpack _); vm_compute; reflexivity.
Defined.
