(* ===== verification/Proxy.v ===== *)
(** * Proxy: one request at the edge

    Model of [EdgeProxy] of [crates/oxo-pingora-edge/src/platform/proxy.rs]: the static-file
    pins, the construction from the resolved options, the admission pipeline [admit] and the
    whole of [request_filter], which validates, admits, sanitizes, reads the body, hands the
    request to a worker over one of the two hops and records the outcome.

    A run is the list of actions the code performs, in order, and how it ends.  What it
    observes (the request, the answers of the limiters, the outcome of each read, the workers)
    is the record [arrival]; the components it calls are the definitions of the other files.
    A guard is an action on entry and one on exit: the exit action is missing exactly when the
    guard has moved into the request context, or the future is still waiting.  The
    [edge-bench] and [hop-timing] diagnostics are not compiled in. *)

From S2P Require Import Prelude Text LineText HopFrame HeaderPolicy EdgeHeaders ClientRequest WorkerWire Fairness Dispatch FrameClient FrameSend HttpClient IpText Identity EdgeConf Telemetry.

(** ** Static routing *)

Definition first_path_segment (path : bytes) : bytes :=
  let trimmed := unwrap_or path (strip_prefix [slash] path) in
  match split_once slash trimmed with Some (segment, _) => segment | None => trimmed end.
Definition is_static_candidate (prod_pin : option (gset bytes)) (path : bytes) : bool :=
  match prod_pin with
  | None => true
  | Some pin => let seg := first_path_segment path in contains_byte (zb 37) seg || bool_decide (seg ∈ pin)
  end.

Definition MAX_PINNED_ENTRIES : Z := 65536.
Record MountSpec : Type := { m_prefix : bytes; m_docroot : bytes }.
(** An entry of a directory: unreadable, or a name that is UTF-8 or not. *)
Inductive dir_entry : Type := BadEntry | OtherName | Name (n : bytes).
Section Pins.
Variable read_dir : bytes -> option (list dir_entry).

Fixpoint pin_entries (entries : list dir_entry) (pin : gset bytes) : result EdgeError (gset bytes) :=
  match entries with
  | [] => Ok pin
  | BadEntry :: _ => Err (ConfigEnv "OXO_EDGE_PROD")
  | e :: entries' =>
      let pin := match e with Name n => {[n]} ∪ pin | _ => pin end in
      if Z.of_nat (size pin) >? MAX_PINNED_ENTRIES then Err (ConfigEnv "OXO_EDGE_PROD") else pin_entries entries' pin
  end.
Fixpoint pin_mounts (mounts : list MountSpec) (pin : gset bytes) : result EdgeError (gset bytes) :=
  match mounts with
  | [] => Ok pin
  | m :: mounts' =>
      let seg := first_path_segment (m_prefix m) in
      if negb (bool_decide (seg = [])) then pin_mounts mounts' ({[seg]} ∪ pin)
      else
        let? entries := ok_or (read_dir (m_docroot m)) (ConfigEnv "OXO_EDGE_PROD") in
        let? pin := pin_entries entries ({[ [] ]} ∪ pin) in
        pin_mounts mounts' pin
  end.
Definition build_prod_pin_set (mounts : list MountSpec) : result EdgeError (gset bytes) := pin_mounts mounts ∅.
End Pins.

(** ** The proxy *)

Record EdgeProxy : Type := {
  p_workers : nat;                          (** [worker_socket_paths.len()] *)
  p_max_body : Z;
  p_server_name : bytes;
  p_server_port : Z;
  p_public_server_name : option bytes;
  p_identity : PublicIdentityPolicy;
  p_url_scheme : bytes;
  p_sse : bool;
  p_cable : option SocketAddr;
  p_grpc : option SocketAddr;
  p_static : bool;                          (** a static server is configured *)
  p_pin : option (gset bytes);
  p_keepalive : bool;
  p_keepalive_secs : Z;
  p_hop : WorkerHop;
  p_max_buffered : Z;                       (** of the long-lived registry *)
  p_caps : FrameCaps;                       (** [edge_frame_caps] *)
  p_mode : DispatchMode;
  p_cap : option Z;
  p_kind : WorkerKind;
  p_pid : Z;
}.
(** [EdgeProxy::new], on what [run_with_cli] resolved; the rest are the statics of the hop. *)
Definition edge_proxy_new (o : RunEdgeOptions) (pin : option (gset bytes)) (caps : FrameCaps) (pid : Z) : EdgeProxy :=
  {| p_workers := length (o_sockets o); p_max_body := o_max_body o; p_server_name := o_server_name o;
     p_server_port := unwrap_or (sa_port (o_bind o)) (o_origin_port o);
     p_public_server_name := match o_public_mode o with Some _ => Some (o_server_name o) | None => None end;
     p_identity := o_identity o; p_url_scheme := url_scheme (o_listener o); p_sse := o_sse o; p_cable := o_cable o; p_grpc := o_grpc o;
     p_static := match o_mounts o with [] => false | _ => true end; p_pin := pin;
     p_keepalive := sc_keepalive_enabled (o_slow_client o);
     p_keepalive_secs := keepalive_idle_secs (sc_keepalive_idle_timeout_ms (o_slow_client o)); p_hop := o_hop o;
     p_max_buffered := ll_max_buffered_bytes (o_long_lived o); p_caps := caps; p_mode := o_dispatch o; p_cap := o_cap o; p_kind := o_kind o; p_pid := pid |}.

Definition public_upstream_host (p : EdgeProxy) : bytes :=
  if default_port (p_url_scheme p) (p_server_port p) then p_server_name p
  else p_server_name p ++ bs ":" ++ show_uint (p_server_port p).

(** ** Contexts, actions and runs *)

Inductive EdgeRoute : Type :=
| ToWorker
| ActionCable (bind : SocketAddr)
| Grpc (bind : SocketAddr).
Record EdgeRequestContext : Type := {
  route : EdgeRoute;
  request_id : option bytes;
  ctx_global : bool;                         (** holds a global slot *)
  ctx_identity : option bytes;               (** holds a slot of this identity *)
  ctx_long : option LongLivedAdmission;
  grpc_request_bytes : Z;
  grpc_response_bytes : Z;
  outcome_recorded : bool;
}.
Definition new_ctx : EdgeRequestContext :=
  {| route := ToWorker; request_id := None; ctx_global := false; ctx_identity := None; ctx_long := None;
     grpc_request_bytes := 0; grpc_response_bytes := 0; outcome_recorded := false |}.

Section Filter.
Context {H : Type} `{HeaderLib H}.

Inductive action : Type :=
| SetKeepalive (secs : option Z)
| Observed (sequence : Z)                    (** [telemetry.start_request] *)
| Unobserved                                 (** the observation is dropped *)
| TookGlobal | GaveGlobal
| TookIdentity (id : bytes) | GaveIdentity (id : bytes)
| TookLong | GaveLong (a : LongLivedAdmission)
| Recorded (o : outcome)
| Answered (status : Z)                      (** [session.respond_error] *)
| StaticServed (status : Z)
| BodyAsked                                  (** the client's body is read *)
| SentFrame (request : bytes) (evs : list hop_event) (c : client (H := H))
| SentHttp (request : bytes) (reached : list nat) (c : client (H := H)).

(** [Ok(true)], [Ok(false)] with the context, an error, or a request that is still parked. *)
Inductive verdict : Type :=
| Handled
| Proxied (c : EdgeRequestContext)
| Failed
| Waiting.
Definition prog : Type := (list action * verdict)%type.

Definition emit (a : action) (k : prog) : prog := (a :: fst k, snd k).
Definition observing (sequence : Z) (k : prog) : prog :=
  (Observed sequence :: fst k ++ match snd k with Waiting => [] | _ => [Unobserved] end, snd k).
(** A slot that is given back on return unless it moved into the context. *)
Definition holding_slot (take_it give_it : action) (k : prog) : prog :=
  (take_it :: fst k ++ match snd k with Handled | Failed => [give_it] | _ => [] end, snd k).

(** ** What a request observes *)

Inductive slot_answer : Type := NoLimit | SlotGranted | SlotRefused.
Inductive served : Type := Done (reusable : bool) (status : Z) | NotStatic.
Record arrival : Type := {
  a_sequence : Z;                             (** [request_sequence.fetch_add(1)] *)
  a_headers : list (bytes * option bytes);    (** each header, and its value as text if it is text *)
  a_head : client_head;
  a_query : bytes * bytes;                    (** path and query of the target *)
  a_addr : client_addr;
  a_draining : bool;
  a_global : slot_answer;
  a_fairness : IdentityFairnessLimiter;       (** as its lock is taken *)
  a_long : bool;                              (** [long_lived.try_admit] *)
  a_respond_ok : bool;                        (** the error answer can be written *)
  a_static : served;
  a_body : list body_read;
  a_buffer : bytes;                           (** the reused frame buffer *)
  a_sticky : option Z;                        (** [sticky_conn_key] *)
  a_lookup : Z -> nat;
  a_barge : option (result Z unit);
  a_passes : list pass;
  a_next : nat;
  a_links : nat -> http_attempt;
  a_client : client (H := H);
}.

Fixpoint collect_request_headers (hs : list (bytes * option bytes)) : result Z (list LoweredHeader) :=
  match hs with
  | [] => Ok []
  | (name, value) :: hs' => let? v := ok_or value 400 in let? r := collect_request_headers hs' in Ok (lh_new name v :: r)
  end.

Section Steps.
Variables (p : EdgeProxy) (a : arrival).

Definition apply_keepalive_posture : action :=
  SetKeepalive (if p_keepalive p then Some (p_keepalive_secs p) else None).
Definition answered : verdict := if a_respond_ok a then Handled else Failed.
Definition reject_as (o : outcome) (status : Z) : prog := ([Recorded o; Answered status], answered).
Definition reject (status : Z) : prog := reject_as (Rejection status) status.

(** [admit]; [k] runs with the admission. *)
Definition admit_request (raw : list LoweredHeader) (want_long_lived : bool) (k : bytes -> bool -> option bytes -> prog) : prog :=
  let inner (global : bool) : prog :=
    match admitted_identity (p_identity p) (a_addr a) raw with
    | Err rejection => reject (rejection_status rejection)
    | Ok remote_addr =>
        let with_identity (id : option bytes) : prog :=
          if want_long_lived then
            if a_long a then holding_slot TookLong (GaveLong new_admission) (k remote_addr global id) else reject 503
          else k remote_addr global id in
        match fst (identity_acquire remote_addr (a_fairness a)) with
        | Saturated => reject_as RateLimited 503
        | Unlimited => with_identity None
        | Granted i => holding_slot (TookIdentity i) (GaveIdentity i) (with_identity (Some i))
        end
    end in
  match a_global a with
  | SlotRefused => reject_as Overloaded 503
  | NoLimit => inner false
  | SlotGranted => holding_slot TookGlobal GaveGlobal (inner true)
  end.

(** The sidecar routes: the guards move into the context. *)
Definition to_sidecar (r : EdgeRoute) (raw : list LoweredHeader) : prog :=
  admit_request raw true (fun _ global id =>
    ([], Proxied {| route := r; request_id := Some (request_id_text (p_pid p) (a_sequence a)); ctx_global := global; ctx_identity := id;
                    ctx_long := Some new_admission; grpc_request_bytes := 0; grpc_response_bytes := 0; outcome_recorded := false |})).

Definition finish (r : option (result Z Z)) : prog :=
  match r with
  | Some (Ok status) => ([Recorded (Response status)], Handled)
  | Some (Err status) => reject status
  | None => ([], Waiting)
  end.

Definition metadata (remote_addr : bytes) (id : option bytes) : TrustedHopMetadata :=
  {| md_remote_addr := remote_addr; md_url_scheme := p_url_scheme p; md_server_name := p_server_name p;
     md_server_port := p_server_port p; md_request_id := id |}.
Definition build_request_frame_bytes_into (raw : list LoweredHeader) (plan : FrameHeaderPlan) (body remote_addr : bytes) : bytes * result Z unit :=
  match path_and_query (a_head a) with
  | None => (a_buffer a, Err 400)
  | Some _ => assemble_into (a_buffer a) (rq_method (a_head a)) (fst (a_query a)) (snd (a_query a)) (authority (a_head a)) raw plan body
                (metadata remote_addr None) None
  end.
Definition sticky_key : option Z := match p_mode p with Sticky => a_sticky a | _ => None end.

Definition frame_hop (raw : list LoweredHeader) (plan : FrameHeaderPlan) (body remote_addr : bytes) : prog :=
  match build_request_frame_bytes_into raw plan body remote_addr with
  | (_, Err status) => reject status
  | (request, Ok _) =>
      let '(r, evs, c) := send_worker_frame_to_pool (p_caps p) (p_max_buffered p) (p_keepalive p) (p_cap p) (p_kind p) (p_mode p) (p_workers p)
                            sticky_key (a_lookup a) (a_barge a) (a_passes a) (a_client a) in
      emit (SentFrame request evs c) (finish r)
  end.
Definition http_hop (clean : list header) (body : bytes) : prog :=
  match build_worker_request (a_head a) clean body with
  | Err status => reject status
  | Ok request =>
      match send_worker_request_to_pool (p_max_buffered p) (p_keepalive p) (p_workers p) (a_next a) (a_links a) (fst (a_client a)) (snd (a_client a)) with
      | None => ([], Waiting)
      | Some (r, reached, c, k) => emit (SentHttp request reached (c, k)) (finish (Some r))
      end
  end.

Definition request_rejection_status (r : RequestRejection) : Z := match r with GrpcUnsupported => 415 | _ => 400 end.
(** From the sanitized headers to the end of the hop. *)
Definition dispatch (raw : list LoweredHeader) (content_length : option Z) (remote_addr : bytes) : prog :=
  let protocols := {| sse := p_sse p |} in
  let read_body (k : bytes -> prog) : prog :=
    emit BodyAsked (match fst (read_complete_body content_length (http2 (a_head a)) (p_max_body p) (a_body a)) with
                    | Err status => reject status
                    | Ok body => k body
                    end) in
  match p_hop p with
  | Frame =>
      match sanitize_frame_headers raw protocols with
      | Err e => reject (request_rejection_status e)
      | Ok plan => read_body (fun body => frame_hop raw plan body remote_addr)
      end
  | HttpHop =>
      match sanitize_lowered raw (metadata remote_addr (Some (request_id_text (p_pid p) (a_sequence a)))) protocols with
      | Err e => reject (request_rejection_status e)
      | Ok s => read_body (fun body => http_hop (clean_headers s) body)
      end
  end.
Definition is_get_or_head : bool := eq_bytes (rq_method (a_head a)) (bs "GET") || eq_bytes (rq_method (a_head a)) (bs "HEAD").
Definition worker_route (raw : list LoweredHeader) (content_length : option Z) (remote_addr : bytes) : prog :=
  if p_static p && (is_get_or_head && is_static_candidate (p_pin p) (uri_path (a_head a))) then
    match a_static a with
    | Done reusable status =>
        emit (StaticServed status) ((if reusable then [] else [SetKeepalive None]) ++ [Recorded (Response status)], Handled)
    | NotStatic => dispatch raw content_length remote_addr
    end
  else dispatch raw content_length remote_addr.

Definition cable_route (raw : list LoweredHeader) : option prog :=
  match p_cable p with
  | Some bind =>
      if is_action_cable_upgrade_attempt (a_head a) raw then
        Some (match validate_action_cable_request (a_head a) raw (p_public_server_name p) (p_url_scheme p) (p_server_name p) (p_server_port p) with
              | Err status => reject status
              | Ok _ => to_sidecar (ActionCable bind) raw
              end)
      else None
  | None => None
  end.
Definition grpc_route (raw : list LoweredHeader) : option prog :=
  match p_grpc p with
  | Some bind =>
      if is_native_grpc_request_attempt raw then
        Some (match validate_grpc_unary_request (a_head a) raw (p_max_body p) (p_public_server_name p) with
              | Err status => reject status
              | Ok _ => to_sidecar (Grpc bind) raw
              end)
      else None
  | None => None
  end.
Definition routed (raw : list LoweredHeader) : prog :=
  match cable_route raw with
  | Some k => k
  | None =>
      match grpc_route raw with
      | Some k => k
      | None =>
          match validate_client_request (a_head a) raw (p_max_body p) (p_public_server_name p) with
          | Err status => reject status
          | Ok content_length => admit_request raw false (fun remote_addr _ _ => worker_route raw content_length remote_addr)
          end
      end
  end.
Definition request_filter : prog :=
  emit apply_keepalive_posture
    (observing (a_sequence a)
      (match collect_request_headers (a_headers a) with
       | Err status => reject status
       | Ok raw => if a_draining a then emit (SetKeepalive None) (reject 503) else routed raw
       end)).
End Steps.
End Filter.
