(* ===== verification/ProxyLife.v ===== *)
(** * ProxyLife: a request from its first byte to its last

    The callbacks of [ProxyHttp] that follow [request_filter] in
    [crates/oxo-pingora-edge/src/platform/proxy.rs] on the sidecar routes, the life of a
    request as [request_filter] followed by any sequence of them, and what every life keeps:
    the order of observation, admission, work, recording and answer, and the totals of the
    telemetry when any number of requests are served at once. *)

From S2P Require Import Prelude Text LineText HopFrame HeaderPolicy EdgeHeaders ClientRequest WorkerWire Fairness Dispatch FrameClient FrameSend HttpClient IpText Identity EdgeConf Telemetry Proxy.

(** ** The callbacks *)

Inductive ErrorSource : Type := Upstream | Downstream | Internal | Unset.
(** The error of the proxy library: its HTTP status, if it is of that type, and its source. *)
Record ProxyError : Type := { e_status : option Z; e_source : ErrorSource }.
Definition fail_code (e : ProxyError) : Z :=
  match e_status e with
  | Some code => code
  | None => match e_source e with Upstream => 502 | Downstream => 400 | Internal | Unset => 500 end
  end.
Definition is_sidecar (r : EdgeRoute) : bool := match r with ToWorker => false | _ => true end.
Definition is_grpc (r : EdgeRoute) : bool := match r with Grpc _ => true | _ => false end.

Definition set_recorded (c : EdgeRequestContext) : EdgeRequestContext :=
  {| route := route c; request_id := request_id c; ctx_global := ctx_global c; ctx_identity := ctx_identity c; ctx_long := ctx_long c;
     grpc_request_bytes := grpc_request_bytes c; grpc_response_bytes := grpc_response_bytes c; outcome_recorded := true |}.
Definition set_request_bytes (n : Z) (c : EdgeRequestContext) : EdgeRequestContext :=
  {| route := route c; request_id := request_id c; ctx_global := ctx_global c; ctx_identity := ctx_identity c; ctx_long := ctx_long c;
     grpc_request_bytes := n; grpc_response_bytes := grpc_response_bytes c; outcome_recorded := outcome_recorded c |}.
Definition set_response_bytes (n : Z) (c : EdgeRequestContext) : EdgeRequestContext :=
  {| route := route c; request_id := request_id c; ctx_global := ctx_global c; ctx_identity := ctx_identity c; ctx_long := ctx_long c;
     grpc_request_bytes := grpc_request_bytes c; grpc_response_bytes := n; outcome_recorded := outcome_recorded c |}.
Definition set_long (l : option LongLivedAdmission) (c : EdgeRequestContext) : EdgeRequestContext :=
  {| route := route c; request_id := request_id c; ctx_global := ctx_global c; ctx_identity := ctx_identity c; ctx_long := l;
     grpc_request_bytes := grpc_request_bytes c; grpc_response_bytes := grpc_response_bytes c; outcome_recorded := outcome_recorded c |}.

Section Callbacks.
Context {H : Type} `{HeaderLib H}.
Variable p : EdgeProxy.

(** [body] is the length of the piece, if there is one. *)
Definition request_body_filter (body : option Z) (c : EdgeRequestContext) : result Z unit * EdgeRequestContext :=
  match is_grpc (route c), body with
  | true, Some len =>
      let n := saturating_add (grpc_request_bytes c) len in
      (if n >? p_max_body p then Err 413 else Ok tt, set_request_bytes n c)
  | _, _ => (Ok tt, c)
  end.
Definition response_filter (status : Z) (c : EdgeRequestContext) : list (action (H := H)) * EdgeRequestContext :=
  if is_sidecar (route c) && negb (outcome_recorded c)
  then (match request_id c with Some _ => [Recorded (Response status)] | None => [] end, set_recorded c)
  else ([], c).

(** [admission.complete()] *)
Definition complete_long (c : EdgeRequestContext) (k : LongLivedCounters) : EdgeRequestContext * LongLivedCounters :=
  match ctx_long c with
  | Some a => let '(a, k) := long_lived_hold Complete (a, k) in (set_long (Some a) c, k)
  | None => (c, k)
  end.
Definition response_body_filter (body : option Z) (end_of_stream : bool) (c : EdgeRequestContext) (k : LongLivedCounters)
    : result Z unit * EdgeRequestContext * LongLivedCounters :=
  if negb (is_grpc (route c)) then (Ok tt, c, k)
  else
    let '(r, c, k) :=
      match body with
      | None => (Ok tt, c, k)
      | Some len =>
          let n := saturating_add (grpc_response_bytes c) len in
          let c := set_response_bytes n c in
          if n >? p_max_body p then (Err 502, c, k)
          else match ctx_long c with
               | None => (Ok tt, c, k)
               | Some a =>
                   let '(a, k) := long_lived_hold (RecordBytes len) (a, k) in
                   (if within_buffer (p_max_buffered p) a then Ok tt else Err 502, set_long (Some a) c, k)
               end
      end in
    match r with
    | Err e => (Err e, c, k)
    | Ok _ => if end_of_stream then let '(c, k) := complete_long c k in (Ok tt, c, k) else (Ok tt, c, k)
    end.
(** [error.is_none()] *)
Definition logging (clean : bool) (c : EdgeRequestContext) (k : LongLivedCounters) : EdgeRequestContext * LongLivedCounters :=
  if clean && is_sidecar (route c) then complete_long c k else (c, k).
Definition fail_to_proxy (e : ProxyError) (c : EdgeRequestContext) : list (action (H := H)) * EdgeRequestContext :=
  let code := fail_code e in
  if negb (outcome_recorded c)
  then ((match request_id c with Some _ => [Recorded (Rejection code)] | None => [] end) ++ [Answered code], set_recorded c)
  else ([Answered code], c).

(** [ctx] is dropped with the session: its fields in the order of their declaration. *)
Definition drop_ctx (c : EdgeRequestContext) : list (action (H := H)) :=
  (if ctx_global c then [GaveGlobal] else [])
  ++ match ctx_identity c with Some i => [GaveIdentity i] | None => [] end
  ++ match ctx_long c with Some a => [GaveLong a] | None => [] end.

(** ** A life *)

(** The calls the proxy library makes after [request_filter], in any order and number. *)
Inductive callback : Type :=
| CbRequestBody (body : option Z)
| CbResponse (status : Z)
| CbResponseBody (body : option Z) (end_of_stream : bool)
| CbFail (e : ProxyError)
| CbLogging (clean : bool).
Definition run_callback (cb : callback) (c : EdgeRequestContext) (k : LongLivedCounters) : list (action (H := H)) * EdgeRequestContext * LongLivedCounters :=
  match cb with
  | CbRequestBody body => ([], snd (request_body_filter body c), k)
  | CbResponse status => (response_filter status c, k)
  | CbResponseBody body e => let '(_, c, k) := response_body_filter body e c k in ([], c, k)
  | CbFail e => (fail_to_proxy e c, k)
  | CbLogging clean => let '(c, k) := logging clean c k in ([], c, k)
  end.
Fixpoint run_callbacks (cbs : list callback) (c : EdgeRequestContext) (k : LongLivedCounters) : list (action (H := H)) * EdgeRequestContext * LongLivedCounters :=
  match cbs with
  | [] => ([], c, k)
  | cb :: cbs' =>
      let '(tr, c, k) := run_callback cb c k in
      let '(tr', c, k) := run_callbacks cbs' c k in
      (tr ++ tr', c, k)
  end.
Definition afterwards (cbs : list callback) (c : EdgeRequestContext) (k : LongLivedCounters) : list (action (H := H)) :=
  let '(tr, c, _) := run_callbacks cbs c k in tr ++ drop_ctx c.
Definition life (a : arrival (H := H)) (cbs : list callback) (k : LongLivedCounters) : list (action (H := H)) :=
  let '(tr, v) := request_filter p a in
  tr ++ match v with
        | Handled | Failed => afterwards cbs new_ctx k
        | Proxied c => afterwards cbs c k
        | Waiting => []
        end.
End Callbacks.

(** ** The order of things *)

(** An abstract request: not yet, now or no longer under observation, the slots it holds, and
    its outcome. *)
Inductive phase : Type := Unseen | Live | Gone.
Definition is_live (x : phase) : bool := match x with Live => true | _ => false end.
Record ledger : Type := {
  l_phase : phase;
  l_global : bool;
  l_identity : option bytes;
  l_long : bool;
  l_outcome : option outcome;
}.
Definition fresh_ledger : ledger := {| l_phase := Unseen; l_global := false; l_identity := None; l_long := false; l_outcome := None |}.
Definition with_phase x l := {| l_phase := x; l_global := l_global l; l_identity := l_identity l; l_long := l_long l; l_outcome := l_outcome l |}.
Definition with_global b l := {| l_phase := l_phase l; l_global := b; l_identity := l_identity l; l_long := l_long l; l_outcome := l_outcome l |}.
Definition with_identity i l := {| l_phase := l_phase l; l_global := l_global l; l_identity := i; l_long := l_long l; l_outcome := l_outcome l |}.
Definition with_long b l := {| l_phase := l_phase l; l_global := l_global l; l_identity := l_identity l; l_long := b; l_outcome := l_outcome l |}.
Definition with_outcome o l := {| l_phase := l_phase l; l_global := l_global l; l_identity := l_identity l; l_long := l_long l; l_outcome := o |}.
Definition guarded {A} (b : bool) (x : A) : option A := if b then Some x else None.
Definition none_yet {A} (o : option A) : bool := match o with None => true | Some _ => false end.

(** The slots a request must hold before it makes work: those that have a limit. *)
Record limits : Type := { lim_global : bool; lim_identity : bool }.
Definition admitted (m : limits) (l : ledger) : bool :=
  is_live (l_phase l) && none_yet (l_outcome l) && implb (lim_global m) (l_global l) && implb (lim_identity m) (negb (none_yet (l_identity l))).

Section Order.
Context {H : Type} `{HeaderLib H}.

(** What the specification allows: a slot is taken once, under observation, before the outcome,
    in the order global, identity, long-lived, and given back by its holder; work (a static
    file, reading the body, a worker) needs the slots that are limited and comes before the
    outcome; the outcome is recorded once; an error answer follows it. *)
Definition ledger_step (m : limits) (l : ledger) (x : action (H := H)) : option ledger :=
  match x with
  | SetKeepalive _ => Some l
  | Observed _ => guarded (match l_phase l with Unseen => none_yet (l_outcome l) | _ => false end) (with_phase Live l)
  | Unobserved => guarded (is_live (l_phase l)) (with_phase Gone l)
  | TookGlobal => guarded (is_live (l_phase l) && negb (l_global l) && none_yet (l_outcome l) && none_yet (l_identity l)) (with_global true l)
  | GaveGlobal => guarded (l_global l) (with_global false l)
  | TookIdentity i => guarded (is_live (l_phase l) && none_yet (l_identity l) && none_yet (l_outcome l) && implb (lim_global m) (l_global l)) (with_identity (Some i) l)
  | GaveIdentity i => guarded (match l_identity l with Some j => eq_bytes i j | None => false end) (with_identity None l)
  | TookLong => guarded (admitted m l && negb (l_long l)) (with_long true l)
  | GaveLong _ => guarded (l_long l) (with_long false l)
  | Recorded o => guarded (none_yet (l_outcome l)) (with_outcome (Some o) l)
  | Answered _ => Some l
  | StaticServed _ | BodyAsked | SentFrame _ _ _ | SentHttp _ _ _ => guarded (admitted m l) l
  end.
Fixpoint ledger_run (m : limits) (l : ledger) (tr : list (action (H := H))) : option ledger :=
  match tr with
  | [] => Some l
  | x :: tr' => match ledger_step m l x with Some l' => ledger_run m l' tr' | None => None end
  end.
Lemma ledger_run_app m l a b : ledger_run m l (a ++ b) = match ledger_run m l a with Some l' => ledger_run m l' b | None => None end.
Proof. revert l. induction a as [|x a IH]; intros l; [reflexivity|]. cbn [app ledger_run]. destruct (ledger_step m l x); [apply IH | reflexivity]. Qed.

(** The slots a context holds. *)
Definition slots_of (c : EdgeRequestContext) (l : ledger) : ledger :=
  {| l_phase := l_phase l; l_global := ctx_global c; l_identity := ctx_identity c; l_long := negb (none_yet (ctx_long c)); l_outcome := l_outcome l |}.
(** A context as [request_filter] leaves it to the proxy library. *)
Definition handed_over (c : EdgeRequestContext) : Prop := is_sidecar (route c) = true /\ request_id c <> None /\ outcome_recorded c = false.

(** How a part of [request_filter] may run from the ledger [l]. *)
Definition runs (m : limits) (l : ledger) (k : prog (H := H)) : Prop :=
  exists l', ledger_run m l (fst k) = Some l' /\
    match snd k with
    | Handled | Failed => exists o, l' = with_outcome (Some o) l
    | Proxied c => l' = slots_of c l /\ handed_over c
    | Waiting => l_outcome l' = None
    end.
(** Nothing recorded yet, under observation. *)
Definition open (l : ledger) : Prop := l_phase l = Live /\ l_outcome l = None.

Lemma ledger_eta l : with_outcome (l_outcome l) l = l.
Proof. destruct l; reflexivity. Qed.
Lemma runs_reject_as m l a o status : open l -> runs m l (reject_as a o status).
Proof.
  intros [L O]. eexists. split; [cbn; rewrite O; reflexivity|]. unfold reject_as, answered. cbn [snd]. destruct (a_respond_ok a); eauto.
Qed.
Lemma runs_emit m l l' x k : ledger_step m l x = Some l' -> l' = l -> runs m l k -> runs m l (emit x k).
Proof. intros S -> (l2 & R & V). exists l2. split; [|exact V]. cbn [emit fst ledger_run]. rewrite S. exact R. Qed.
Lemma runs_holding m l l1 t g k :
  ledger_step m l t = Some l1 -> (forall o, ledger_step m (with_outcome (Some o) l1) g = Some (with_outcome (Some o) l)) ->
  (forall c, slots_of c l1 = slots_of c l) -> runs m l1 k -> runs m l (holding_slot t g k).
Proof.
  intros T G S (l2 & R & V). unfold runs, holding_slot. cbn [fst snd ledger_run]. rewrite T, ledger_run_app, R. destruct (snd k) as [|c| |].
  - destruct V as [o ->]. exists (with_outcome (Some o) l). cbn [ledger_run]. rewrite G. eauto.
  - destruct V as [-> V]. exists (slots_of c l). rewrite <- (S c). cbn [ledger_run]. eauto.
  - destruct V as [o ->]. exists (with_outcome (Some o) l). cbn [ledger_run]. rewrite G. eauto.
  - exists l2. cbn [ledger_run]. eauto.
Qed.

Definition limits_of (a : arrival (H := H)) : limits :=
  {| lim_global := match a_global a with SlotGranted => true | _ => false end; lim_identity := negb (none_yet (max_per_identity (a_fairness a))) |}.
(** Under observation and without slots. *)
Definition unadmitted : ledger := with_phase Live fresh_ledger.
Definition over : ledger := with_phase Gone fresh_ledger.

Lemma runs_admit p a raw want (k : bytes -> bool -> option bytes -> prog (H := H)) :
  (forall remote l, admitted (limits_of a) l = true -> l_long l = want -> runs (limits_of a) l (k remote (l_global l) (l_identity l))) ->
  runs (limits_of a) unadmitted (admit_request p a raw want k).
Proof.
  intros K. assert (forall m l o status, open l -> runs m l (reject_as a o status)) as Rj by (intros; apply runs_reject_as; assumption).
  unfold admit_request. destruct (a_global a) eqn:G.
  2: eapply runs_holding with (l1 := with_global true unadmitted); [reflexivity | reflexivity | reflexivity |].
  3: apply Rj; split; reflexivity.
  all: destruct (admitted_identity _ _ _) as [remote|rej]; [|apply Rj; split; reflexivity].
  all: unfold identity_acquire; destruct (max_per_identity (a_fairness a)) as [mx|] eqn:M.
  all: repeat match goal with |- context [if ?b >=? ?c then _ else _] => destruct (b >=? c) end; cbn [fst].
  all: try (apply Rj; split; reflexivity).
  1: eapply runs_holding with (l1 := with_identity (Some remote) unadmitted).
  6: eapply runs_holding with (l1 := with_identity (Some remote) (with_global true unadmitted)).
  all: try (cbn [ledger_step unadmitted fresh_ledger with_phase with_global with_identity l_phase is_live l_identity l_outcome l_global limits_of lim_global none_yet]; rewrite ?G; reflexivity).
  all: try (intros o; cbn; unfold eq_bytes; rewrite bool_decide_eq_true_2 by reflexivity; reflexivity).
  all: try reflexivity.
  all: destruct want; [destruct (a_long a); [|apply Rj; split; reflexivity]|].
  all: try (eapply runs_holding with (l1 := with_long true _); [unfold limits_of; rewrite ?G, ?M; cbn; reflexivity | reflexivity | reflexivity |]).
  all: match goal with |- runs _ ?l _ => apply (K remote l) end; unfold limits_of, admitted; rewrite ?G, ?M; reflexivity.
Qed.

Lemma admitted_open m l : admitted m l = true -> open l.
Proof. unfold admitted, open. destruct (l_phase l), (l_outcome l); cbn; intros; try discriminate; auto. Qed.
Lemma runs_reject m l a status : admitted m l = true -> runs m l (reject a status).
Proof. intros A. apply runs_reject_as, (admitted_open m), A. Qed.
Lemma runs_work m l x k : admitted m l = true -> (match x with StaticServed _ | BodyAsked | SentFrame _ _ _ | SentHttp _ _ _ => True | _ => False end) ->
  runs m l k -> runs m l (emit x k).
Proof. intros A X. apply runs_emit with (l' := l); [|reflexivity]. destruct x; try destruct X; cbn [ledger_step]; unfold guarded; rewrite A; reflexivity. Qed.
Lemma runs_response m l status : admitted m l = true -> runs m l ([Recorded (Response status)], Handled).
Proof. intros A. destruct (admitted_open _ _ A) as [_ O]. eexists. split; [cbn; rewrite O; reflexivity|]. cbn. eauto. Qed.
Lemma runs_finish m l a r : admitted m l = true -> runs m l (finish a r).
Proof.
  intros A. destruct r as [[status|status]|]; cbn [finish]; [apply runs_response, A | apply runs_reject, A |].
  destruct (admitted_open _ _ A) as [_ O]. exists l. split; [reflexivity | exact O].
Qed.
Lemma runs_waiting m l : admitted m l = true -> runs m l ([], Waiting).
Proof. intros A. destruct (admitted_open _ _ A) as [_ O]. exists l. split; [reflexivity | exact O]. Qed.
Lemma runs_dispatch m l p a raw cl remote : admitted m l = true -> runs m l (dispatch p a raw cl remote).
Proof.
  intros A. assert (forall k, (forall body, runs m l (k body)) ->
    runs m l (emit BodyAsked (match fst (read_complete_body cl (http2 (a_head a)) (p_max_body p) (a_body a)) with Err status => reject a status | Ok body => k body end))) as Body.
  { intros k K. apply runs_work; [exact A | exact I|]. destruct (fst _); [apply K | apply runs_reject, A]. }
  unfold dispatch. destruct (p_hop p).
  - destruct (sanitize_frame_headers _ _); [|apply runs_reject, A]. apply Body. intros body. unfold frame_hop.
    destruct (build_request_frame_bytes_into _ _ _ _ _ _) as [request [u|e]]; [|apply runs_reject, A].
    destruct (send_worker_frame_to_pool _ _ _ _ _ _ _ _ _ _ _ _) as [[r evs] c]. apply runs_work; [exact A | exact I | apply runs_finish, A].
  - destruct (sanitize_lowered _ _ _); [|apply runs_reject, A]. apply Body. intros body. unfold http_hop.
    destruct (build_worker_request _ _ _); [|apply runs_reject, A].
    destruct (send_worker_request_to_pool _ _ _ _ _ _ _) as [[[[r reached] c] k]|]; [|apply runs_waiting, A].
    apply runs_work; [exact A | exact I | apply runs_finish, A].
Qed.
Lemma runs_worker_route m l p a raw cl remote : admitted m l = true -> runs m l (worker_route p a raw cl remote).
Proof.
  intros A. unfold worker_route. destruct (_ && _); [|apply runs_dispatch, A]. destruct (a_static a) as [reusable status|]; [|apply runs_dispatch, A].
  apply runs_work; [exact A | exact I|]. destruct reusable; [apply runs_response, A|]. destruct (admitted_open _ _ A) as [_ O].
  eexists. split; [cbn; rewrite O; reflexivity|]. cbn. eauto.
Qed.
Lemma runs_to_sidecar p a r raw : is_sidecar r = true -> runs (limits_of a) unadmitted (to_sidecar p a r raw).
Proof.
  intros S. apply runs_admit. intros remote l A L. exists l. split; [reflexivity|]. cbn [snd]. split.
  - destruct l. cbn in *. subst. reflexivity.
  - split; [exact S | split; [discriminate | reflexivity]].
Qed.
Lemma runs_routed p a raw : runs (limits_of a) unadmitted (routed p a raw).
Proof.
  assert (forall status, runs (limits_of a) unadmitted (reject a status)) as Rj by (intros; apply runs_reject_as; split; reflexivity).
  unfold routed, cable_route, grpc_route.
  destruct (p_cable p) as [b|]; [destruct (is_action_cable_upgrade_attempt _ _); [destruct (validate_action_cable_request _ _ _ _ _ _); [apply runs_to_sidecar; reflexivity | apply Rj]|]|];
  (destruct (p_grpc p) as [b2|]; [destruct (is_native_grpc_request_attempt _); [destruct (validate_grpc_unary_request _ _ _ _); [apply runs_to_sidecar; reflexivity | apply Rj]|]|]);
  (destruct (validate_client_request _ _ _ _); [apply runs_admit; intros; apply runs_worker_route; assumption | apply Rj]).
Qed.

(** The whole filter: from nothing to nothing, or to what the context holds. *)
Lemma filter_runs p a :
  exists l', ledger_run (limits_of a) fresh_ledger (fst (request_filter p a)) = Some l' /\
    match snd (request_filter p a) with
    | Handled | Failed => exists o, l' = with_outcome (Some o) over
    | Proxied c => l' = slots_of c over /\ handed_over c
    | Waiting => l_outcome l' = None
    end.
Proof.
  unfold request_filter. set (inner := match collect_request_headers (a_headers a) with Err status => reject a status | Ok raw => _ end).
  assert (runs (limits_of a) unadmitted inner) as (l2 & R & V).
  { unfold inner. destruct (collect_request_headers (a_headers a)) as [raw|]; [|apply runs_reject_as; split; reflexivity].
    destruct (a_draining a); [|apply runs_routed]. apply runs_emit with (l' := unadmitted); [reflexivity..|]. apply runs_reject_as. split; reflexivity. }
  clearbody inner. cbn [emit observing fst snd apply_keepalive_posture ledger_run ledger_step]. change (guarded _ _) with (Some unadmitted). cbn iota.
  rewrite ledger_run_app, R. destruct (snd inner) as [|c| |].
  - destruct V as [o ->]. eexists. split; [reflexivity|]. exists o. reflexivity.
  - destruct V as [-> V]. eexists. split; [reflexivity|]. split; [reflexivity | exact V].
  - destruct V as [o ->]. eexists. split; [reflexivity|]. exists o. reflexivity.
  - exists l2. split; [reflexivity | exact V].
Qed.

(** ** After the filter *)

Definition follows (c : EdgeRequestContext) (l : ledger) : Prop :=
  l = slots_of c l /\ (request_id c = None \/ outcome_recorded c = true \/ l_outcome l = None).
(** The callbacks that settle a request. *)
Definition settles (cb : callback) : bool := match cb with CbResponse _ | CbFail _ => true | _ => false end.

Lemma slots_same c c' l : ctx_global c' = ctx_global c -> ctx_identity c' = ctx_identity c -> none_yet (ctx_long c') = none_yet (ctx_long c) ->
  l = slots_of c l -> l = slots_of c' l.
Proof. intros G I L E. rewrite E at 1. unfold slots_of. rewrite G, I, L. reflexivity. Qed.
(** What a callback leaves of the context. *)
Record same_request (c c' : EdgeRequestContext) : Prop := {
  sr_route : route c' = route c;
  sr_id : request_id c' = request_id c;
  sr_global : ctx_global c' = ctx_global c;
  sr_identity : ctx_identity c' = ctx_identity c;
  sr_long : none_yet (ctx_long c') = none_yet (ctx_long c);
}.
Lemma complete_keeps c k : same_request c (fst (complete_long c k)) /\ outcome_recorded (fst (complete_long c k)) = outcome_recorded c.
Proof. unfold complete_long. destruct (ctx_long c) as [a|] eqn:L; cbn; (split; [constructor|]; cbn; rewrite ?L; reflexivity). Qed.
Lemma callback_keeps p cb c k :
  same_request c (snd (fst (run_callback (H := H) p cb c k))) /\
  (if settles cb then True else fst (fst (run_callback (H := H) p cb c k)) = [] /\ outcome_recorded (snd (fst (run_callback (H := H) p cb c k))) = outcome_recorded c).
Proof.
  destruct cb as [body|status|body e|e|clean]; cbn [run_callback settles fst snd].
  - unfold request_body_filter. destruct (is_grpc (route c)), body; cbn; (split; [constructor|]); auto.
  - unfold response_filter. destruct (_ && _); (split; [constructor; reflexivity | exact I]).
  - unfold response_body_filter. destruct (is_grpc (route c)) eqn:G; cbn [negb]; [|split; [constructor; reflexivity | split; reflexivity]].
    set (x := match body with None => _ | Some _ => _ end).
    assert (same_request c (snd (fst x)) /\ outcome_recorded (snd (fst x)) = outcome_recorded c) as [Sx Ox].
    { unfold x. destruct body as [len|]; [|split; [constructor|]; reflexivity]. destruct (_ >? _); [split; [constructor|]; reflexivity|].
      cbn [set_response_bytes ctx_long]. destruct (ctx_long c) eqn:L; cbn; (split; [constructor|]; cbn; rewrite ?L; reflexivity). }
    destruct x as [[r c1] k1]. cbn [fst snd] in Sx, Ox. destruct r; [|split; [exact Sx | split; [reflexivity | exact Ox]]].
    destruct e; [|split; [exact Sx | split; [reflexivity | exact Ox]]]. pose proof (complete_keeps c1 k1) as [Sc Oc]. destruct (complete_long c1 k1) as [c2 k2]. cbn [fst snd] in *.
    split; [|split; [reflexivity | congruence]]. destruct Sx, Sc. constructor; congruence.
  - unfold fail_to_proxy. destruct (negb _); (split; [constructor; reflexivity | exact I]).
  - unfold logging. destruct (_ && _); [|split; [constructor; reflexivity | split; reflexivity]].
    pose proof (complete_keeps c k) as [Sc Oc]. destruct (complete_long c k) as [c2 k2]. cbn in *. split; [exact Sc | split; [reflexivity | exact Oc]].
Qed.
(** A settling callback records at most once, and nothing for a request without an id. *)
Lemma settling_runs m p cb c k l : follows c l -> (request_id c <> None -> is_sidecar (route c) = true) -> settles cb = true ->
  exists l', ledger_run m l (fst (fst (run_callback (H := H) p cb c k))) = Some l' /\ l' = with_outcome (l_outcome l') l /\
    (request_id c = None -> l_outcome l' = l_outcome l) /\ (request_id c <> None -> outcome_recorded c = false -> l_outcome l = None -> is_Some (l_outcome l')) /\
    (is_Some (l_outcome l) -> is_Some (l_outcome l')) /\
    (request_id c <> None -> outcome_recorded (snd (fst (run_callback (H := H) p cb c k))) = true).
Proof.
  intros [_ F] R S. destruct cb as [|status| |e|]; try discriminate; cbn [run_callback fst snd].
  - unfold response_filter. destruct (outcome_recorded c) eqn:O; [rewrite andb_false_r | rewrite andb_true_r].
    + exists l. rewrite ledger_eta. cbn. repeat split; auto; congruence.
    + destruct (is_sidecar (route c)) eqn:Sd; cbn [fst snd].
      * destruct (request_id c) as [i|] eqn:Id.
        { destruct F as [F|[F|F]]; try discriminate. eexists. split; [cbn; rewrite F; reflexivity|]. cbn. repeat split; eauto; discriminate. }
        { exists l. rewrite ledger_eta. cbn. repeat split; auto; congruence. }
      * exists l. rewrite ledger_eta. cbn. repeat split; auto; intros K; specialize (R K); congruence.
  - unfold fail_to_proxy. destruct (outcome_recorded c) eqn:O; cbn [negb fst snd].
    + exists l. rewrite ledger_eta. cbn. repeat split; auto; congruence.
    + destruct (request_id c) as [i|] eqn:Id.
      * destruct F as [F|[F|F]]; try discriminate. eexists. split; [cbn; rewrite F; reflexivity|]. cbn. repeat split; eauto; discriminate.
      * exists l. rewrite ledger_eta. cbn. repeat split; auto; congruence.
Qed.
Lemma follows_after c c' l o : same_request c c' -> follows c l -> (request_id c <> None -> outcome_recorded c' = true) -> follows c' (with_outcome o l).
Proof.
  intros [_ I G Id L] [E _] R. split.
  - rewrite E. unfold slots_of, with_outcome. cbn. rewrite G, Id, L. reflexivity.
  - rewrite I. destruct (request_id c); [right; left; apply R; discriminate | left; reflexivity].
Qed.
Lemma follows_same c c' l : same_request c c' -> outcome_recorded c' = outcome_recorded c -> follows c l -> follows c' l.
Proof.
  intros [_ I G Id L] O [E F]. split; [|rewrite I, O; exact F]. apply (slots_same c c' l G Id L E).
Qed.
Lemma callbacks_run m p cbs c k l : follows c l -> (request_id c <> None -> is_sidecar (route c) = true) ->
  exists l', ledger_run m l (fst (fst (run_callbacks (H := H) p cbs c k))) = Some l' /\ follows (snd (fst (run_callbacks (H := H) p cbs c k))) l' /\
    l_phase l' = l_phase l /\ (request_id c = None -> l_outcome l' = l_outcome l) /\ (is_Some (l_outcome l) -> is_Some (l_outcome l')) /\
    (request_id c <> None -> outcome_recorded c = false -> l_outcome l = None -> (is_Some (l_outcome l') <-> existsb settles cbs = true)).
Proof.
  revert c k l. induction cbs as [|cb cbs IH]; intros c k l F S.
  - exists l. repeat split; auto; try apply F; cbn; [|discriminate]. intros [? K]. congruence.
  - cbn [run_callbacks existsb]. pose proof (callback_keeps p cb c k) as [Sm Nx]. pose proof (settling_runs m p cb c k l F S) as St.
    destruct (run_callback p cb c k) as [[tr c1] k1]. cbn [fst snd] in *.
    assert (request_id c1 <> None -> is_sidecar (route c1) = true) as S1 by (destruct Sm as [-> -> _ _ _]; exact S). pose proof (sr_id _ _ Sm) as Eid.
    destruct (settles cb).
    + destruct (St eq_refl) as (l1 & R1 & E1 & N1 & Y1 & K1 & O1). specialize (IH c1 k1 l1).
      destruct IH as (l2 & R2 & F2 & L2 & N2 & K2 & _); [rewrite E1; apply (follows_after c); assumption | exact S1|].
      destruct (run_callbacks p cbs c1 k1) as [[tr2 c2] k2]. cbn [fst snd] in *. exists l2. rewrite ledger_run_app, R1. split; [exact R2|]. split; [exact F2|].
      split; [rewrite L2, E1; reflexivity|]. split; [intros Z; rewrite N2, N1 by (rewrite ?Eid; exact Z); reflexivity|]. split; [auto|].
      intros Z O Nn. cbn [orb]. split; [reflexivity|]. intros _. apply K2, Y1; assumption.
    + destruct Nx as [-> Ox]. specialize (IH c1 k1 l (follows_same _ _ _ Sm Ox F) S1). destruct (run_callbacks p cbs c1 k1) as [[tr2 c2] k2]. cbn [fst snd app orb] in *.
      destruct IH as (l2 & R2 & F2 & L2 & N2 & K2 & Y2). exists l2. rewrite Eid, Ox in *. auto 10.
Qed.
Lemma drop_runs m c l : follows c l -> ledger_run m l (drop_ctx (H := H) c) = Some (with_outcome (l_outcome l) (with_phase (l_phase l) fresh_ledger)).
Proof.
  intros [E _]. rewrite E. clear E. unfold drop_ctx, slots_of. destruct (ctx_global c), (ctx_identity c) as [i|], (ctx_long c); cbn; unfold eq_bytes; rewrite ?bool_decide_eq_true_2 by reflexivity; reflexivity.
Qed.

(** What became of the request: recorded by the filter, or by a later callback. *)
Definition settled (v : verdict) (cbs : list callback) : Prop := match v with Handled | Failed => True | Proxied _ => existsb settles cbs = true | Waiting => False end.
Lemma life_runs p a cbs k :
  exists l, ledger_run (limits_of a) fresh_ledger (life p a cbs k) = Some l /\ (is_Some (l_outcome l) <-> settled (snd (request_filter p a)) cbs) /\
    (snd (request_filter p a) <> Waiting -> l = with_outcome (l_outcome l) over).
Proof.
  destruct (filter_runs p a) as (l & R & V). unfold life. destruct (request_filter p a) as [tr v]. cbn [fst snd] in *. rewrite ledger_run_app, R.
  assert (forall c l0, follows c l0 -> l_phase l0 = Gone -> (request_id c <> None -> is_sidecar (route c) = true) -> 
    exists l1, ledger_run (limits_of a) l0 (afterwards p cbs c k) = Some l1 /\ l1 = with_outcome (l_outcome l1) over /\
      (request_id c = None -> l_outcome l1 = l_outcome l0) /\
      (request_id c <> None -> outcome_recorded c = false -> l_outcome l0 = None -> (is_Some (l_outcome l1) <-> existsb settles cbs = true))) as After.
  { intros c l0 F Lv S. destruct (callbacks_run (limits_of a) p cbs c k l0 F S) as (l1 & R1 & F1 & L1 & N1 & _ & Y1). unfold afterwards.
    destruct (run_callbacks p cbs c k) as [[tr1 c1] k1]. cbn [fst snd] in *. rewrite ledger_run_app, R1, (drop_runs _ c1 l1 F1), L1, Lv.
    eexists. split; [reflexivity|]. cbn. auto. }
  destruct v as [|c| |]; cbn [settled].
  - destruct V as [o ->]. destruct (After new_ctx (with_outcome (Some o) over)) as (l1 & R1 & E1 & N1 & _); [split; [reflexivity | left; reflexivity] | reflexivity | intros K; destruct (K eq_refl)|].
    exists l1. rewrite R1. split; [reflexivity|]. rewrite N1 by reflexivity. cbn. split; [split; eauto | rewrite E1, N1 by reflexivity; reflexivity].
  - destruct V as (-> & S & I & O). destruct (After c (slots_of c over)) as (l1 & R1 & E1 & _ & Y1); [split; [reflexivity | right; right; reflexivity] | reflexivity | auto |].
    exists l1. rewrite R1. split; [reflexivity|]. split; [apply Y1; auto | auto].
  - destruct V as [o ->]. destruct (After new_ctx (with_outcome (Some o) over)) as (l1 & R1 & E1 & N1 & _); [split; [reflexivity | left; reflexivity] | reflexivity | intros K; destruct (K eq_refl)|].
    exists l1. rewrite R1. split; [reflexivity|]. rewrite N1 by reflexivity. cbn. split; [split; eauto | rewrite E1, N1 by reflexivity; reflexivity].
  - exists l. cbn [ledger_run]. split; [reflexivity|]. split; [rewrite V; split; [intros [? [=]] | intros []] | congruence].
Qed.
End Order.

(** ** The telemetry of many lives *)

Section Totals.
Context {H : Type} `{HeaderLib H}.

(** The atomic operations an action performs on the counters. *)
Definition bumps_of (x : action (H := H)) : list bump :=
  match x with
  | Observed sequence => start_request sequence
  | Unobserved => drop_observation
  | Recorded o => record o
  | _ => []
  end.
Definition bumps (tr : list (action (H := H))) : list bump := flat_map bumps_of tr.

Definition b2z (b : bool) : Z := if b then 1 else 0.
Definition seen (l : ledger) : Z := match l_phase l with Unseen => 0 | _ => 1 end.
Definition watched (l : ledger) : Z := b2z (is_live (l_phase l)).
Definition closed (l : ledger) : Z := b2z (negb (none_yet (l_outcome l))).
Definition class_net (bs : list bump) : Z := net Status2xx bs + net Status4xx bs + net Status5xx bs + net StatusOther bs.
Definition class_counters : list counter := [Status2xx; Status4xx; Status5xx; StatusOther].
Definition settled_counters : list counter := [ResponsesTotal; RejectionsTotal].

Lemma class_net_app a b : class_net (a ++ b) = class_net a + class_net b.
Proof. unfold class_net. rewrite !net_app. lia. Qed.
Lemma class_cases s : record_status_class s = Add Status2xx \/ record_status_class s = Add Status4xx \/ record_status_class s = Add Status5xx \/ record_status_class s = Add StatusOther.
Proof. unfold record_status_class. repeat case_match; auto. Qed.
(** Recording: one outcome, one class. *)
Lemma record_counts o :
  net RequestsTotal (record o) = 0 /\ net InFlight (record o) = 0 /\ net ResponsesTotal (record o) + net RejectionsTotal (record o) = 1 /\ class_net (record o) = 1.
Proof.
  destruct o as [s|s| |]; cbn [record]; unfold record_response, record_rejection, record_rate_limited, record_overloaded; change (record_status_class 503) with (Add Status5xx).
  1,2: destruct (class_cases s) as [-> | [-> | [-> | ->]]]; repeat split; reflexivity.
  all: repeat split; reflexivity.
Qed.
Lemma step_counts m l x l' : ledger_step m l x = Some l' ->
  net RequestsTotal (bumps_of x) = seen l' - seen l /\ net InFlight (bumps_of x) = watched l' - watched l /\
  net ResponsesTotal (bumps_of x) + net RejectionsTotal (bumps_of x) = closed l' - closed l /\ class_net (bumps_of x) = closed l' - closed l.
Proof.
  unfold seen, watched, closed. destruct x; cbn [ledger_step bumps_of]; unfold guarded.
  all: match goal with |- (if ?b then _ else _) = _ -> _ => destruct b eqn:E; [|discriminate] | |- _ => idtac end; intros [= <-].
  all: cbn [with_phase with_global with_identity with_long with_outcome l_phase l_outcome].
  all: try (unfold class_net; cbn [net fold_right]; lia).
  - destruct (l_phase l); try discriminate. rewrite !Z.sub_diag. repeat split; reflexivity.
  - destruct (l_phase l); try discriminate. rewrite !Z.sub_diag. repeat split; reflexivity.
  - destruct (record_counts o) as (A & B & C & D). rewrite A, B, C, D. destruct (l_outcome l); [discriminate | cbn; lia].
Qed.
Lemma run_counts_ledger m l tr l' : ledger_run m l tr = Some l' ->
  net RequestsTotal (bumps tr) = seen l' - seen l /\ net InFlight (bumps tr) = watched l' - watched l /\
  net ResponsesTotal (bumps tr) + net RejectionsTotal (bumps tr) = closed l' - closed l /\ class_net (bumps tr) = closed l' - closed l.
Proof.
  revert l. induction tr as [|x tr IH]; intros l; cbn [ledger_run bumps flat_map]; [intros [= <-]; unfold class_net; cbn; lia|].
  destruct (ledger_step m l x) as [l1|] eqn:S; [|discriminate]. intros R. apply IH in R as (A & B & C & D). apply step_counts in S as (A1 & B1 & C1 & D1).
  fold (bumps tr). rewrite !net_app, class_net_app. lia.
Qed.

(** The gauge of one request is 0 or 1 at every moment. *)
Definition gauge_bounded (lv : Z) (bs : list bump) : Prop := forall pre suf, bs = pre ++ suf -> 0 <= lv + net InFlight pre <= 1.
Lemma record_no_gauge o pre suf : record o = pre ++ suf -> net InFlight pre = 0.
Proof.
  intros E. assert (Forall (fun b => weight InFlight b = 0) (record o)) as F.
  { destruct o as [s|s| |]; cbn [record record_response record_rejection record_rate_limited record_overloaded]; repeat constructor;
      match goal with |- weight _ (record_status_class ?s) = 0 => destruct (class_cases s) as [-> | [-> | [-> | ->]]] end; reflexivity. }
  rewrite E in F. apply Forall_app in F as [F _]. clear E. induction F as [|b bs W _ IH]; [reflexivity|]. rewrite net_cons, W, IH. reflexivity.
Qed.
Lemma step_gauge m l x l' : ledger_step m l x = Some l' -> gauge_bounded (watched l) (bumps_of x).
Proof.
  intros S pre suf E. assert (0 <= watched l <= 1) as W by (unfold watched, b2z; destruct (is_live _); lia).
  destruct x; cbn [bumps_of] in E; try (destruct pre; [cbn; lia | discriminate]).
  - cbn [ledger_step] in S. unfold guarded in S. assert (watched l = 0) as -> by (unfold watched; destruct (l_phase l); cbn in *; congruence).
    unfold start_request in E. destruct pre as [|b1 [|b2 [|b3 [|b4 pre]]]]; cbn [app] in E; simplify_eq; try (vm_compute; split; discriminate).
  - cbn [ledger_step] in S. unfold guarded in S. assert (watched l = 1) as -> by (unfold watched; destruct (l_phase l); cbn in *; congruence).
    unfold drop_observation in E. destruct pre as [|b1 [|b2 pre]]; cbn [app] in E; simplify_eq; vm_compute; split; discriminate.
  - rewrite (record_no_gauge o pre suf E). lia.
Qed.
Lemma run_gauge m l tr l' : ledger_run m l tr = Some l' -> gauge_bounded (watched l) (bumps tr).
Proof.
  revert l. induction tr as [|x tr IH]; intros l; cbn [ledger_run bumps flat_map].
  - intros [= <-] pre suf E. destruct pre; [cbn; unfold watched, b2z; destruct (is_live _); lia | discriminate].
  - destruct (ledger_step m l x) as [l1|] eqn:S; [|discriminate]. intros R pre suf E. fold (bumps tr) in E.
    apply app_eq_app in E as (mid & [[E1 E2]|[E1 E2]]).
    + apply (step_gauge m l x l1 S pre mid). exact E1.
    + rewrite E1, net_app. pose proof (IH l1 R mid suf E2) as G. apply step_counts in S as (_ & B & _). lia.
Qed.

(** A request with its circumstances. *)
Record served_request : Type := { sv_proxy : EdgeProxy; sv_arrival : arrival (H := H); sv_callbacks : list callback; sv_counters : LongLivedCounters }.
Definition life_of (s : served_request) : list (action (H := H)) := life (sv_proxy s) (sv_arrival s) (sv_callbacks s) (sv_counters s).
Definition ended (s : served_request) : Prop := settled (snd (request_filter (sv_proxy s) (sv_arrival s))) (sv_callbacks s).

Lemma life_counts s : ended s ->
  net RequestsTotal (bumps (life_of s)) = 1 /\ net InFlight (bumps (life_of s)) = 0 /\
  net ResponsesTotal (bumps (life_of s)) + net RejectionsTotal (bumps (life_of s)) = 1 /\ class_net (bumps (life_of s)) = 1.
Proof.
  intros E. unfold life_of, ended in *. destruct (life_runs (sv_proxy s) (sv_arrival s) (sv_callbacks s) (sv_counters s)) as (l & R & S & F).
  apply run_counts_ledger in R. apply S in E as O. rewrite F in R by (intros W; rewrite W in E; exact E). destruct O as [o O]. rewrite O in R. exact R.
Qed.
Lemma life_gauge s : gauge_bounded 0 (bumps (life_of s)).
Proof. destruct (life_runs (sv_proxy s) (sv_arrival s) (sv_callbacks s) (sv_counters s)) as (l & R & _). exact (run_gauge _ _ _ _ R). Qed.
Lemma bumps_class (P : bump -> Prop) tr :
  (forall q, Forall P (start_request q)) -> Forall P drop_observation -> (forall o, Forall P (record o)) -> Forall P (bumps tr).
Proof. intros S D R. induction tr as [|x tr IH]; [constructor|]. cbn [bumps flat_map]. apply Forall_app. split; [|exact IH]. destruct x; cbn; auto. Qed.
Lemma bumps_count c tr : c <> LastRequestSeq -> c <> LastResponseStatus -> c <> LastRejectionStatus -> Forall (fun b => stores c b = false) (bumps tr).
Proof.
  intros A B C. apply bumps_class; [intros q | | intros o; destruct o];
    cbn [start_request drop_observation record record_response record_rejection record_rate_limited record_overloaded]; repeat constructor;
    try (apply bool_decide_eq_false; assumption); match goal with |- stores _ (record_status_class ?s) = false => destruct (class_cases s) as [-> | [-> | [-> | ->]]] end; reflexivity.
Qed.
Lemma bumps_nonneg c tr : c <> InFlight -> 0 <= net c (bumps tr).
Proof.
  intros N. assert (Forall (fun b => 0 <= weight c b) (bumps tr)) as F.
  { assert (forall d, 0 <= weight c (Add d)) as W by (intros d; cbn; destruct (decide (c = d)); lia).
    apply bumps_class; [intros q | | intros o; destruct o];
    cbn [start_request drop_observation record record_response record_rejection record_rate_limited record_overloaded]; repeat constructor; try apply W; try (cbn; lia).
    - cbn. destruct (decide (c = InFlight)); [contradiction | lia].
    - match goal with |- 0 <= weight _ (record_status_class ?s) => destruct (class_cases s) as [-> | [-> | [-> | ->]]] end; apply W.
    - match goal with |- 0 <= weight _ (record_status_class ?s) => destruct (class_cases s) as [-> | [-> | [-> | ->]]] end; apply W. }
  induction F as [|b bs W _ IH]; [reflexivity | rewrite net_cons; lia].
Qed.

Definition programs (reqs : list served_request) : list (list bump) := map (fun s => bumps (life_of s)) reqs.
Lemma programs_count c reqs : c <> LastRequestSeq -> c <> LastResponseStatus -> c <> LastRejectionStatus -> only_counts c (programs reqs).
Proof. intros A B C. apply List.Forall_map, List.Forall_forall. intros s _. apply bumps_count; assumption. Qed.
Lemma net_all_sum (f : list bump -> Z) v reqs : (forall s, In s reqs -> f (bumps (life_of s)) = v) -> fold_right (fun t n => f t + n) 0 (programs reqs) = v * zlen reqs.
Proof.
  induction reqs as [|s reqs IH]; intros E; [change (zlen (@nil served_request)) with 0; rewrite Z.mul_0_r; reflexivity|]. change (programs (s :: reqs)) with (bumps (life_of s) :: programs reqs). cbn [fold_right]. rewrite IH by (intros; apply E; right; assumption).
  rewrite (E s) by (left; reflexivity). rewrite zlen_cons. lia.
Qed.
Lemma net_all_nonneg c reqs : c <> InFlight -> 0 <= net_all c (programs reqs).
Proof. intros N. induction reqs as [|s reqs IH]; [reflexivity|]. change (programs (s :: reqs)) with (bumps (life_of s) :: programs reqs). rewrite net_all_cons. pose proof (bumps_nonneg c (life_of s) N). lia. Qed.
Lemma net_all_add cs ts : fold_right (fun t n => fold_right (fun c m => net c t + m) 0 cs + n) 0 ts = fold_right (fun c m => net_all c ts + m) 0 cs.
Proof.
  induction ts as [|t ts IH]; cbn [fold_right].
  - induction cs as [|c cs IHc]; cbn [fold_right]; [reflexivity|]. change (net_all c []) with 0. lia.
  - rewrite IH. clear IH. induction cs as [|c cs IHc]; cbn [fold_right]; [reflexivity|]. rewrite net_all_cons. lia.
Qed.
End Totals.

(** What is left of each request is a suffix of its operations. *)
Lemma run_suffixes ts r : rtc run_step (start_run ts) r -> Forall2 (fun t0 t => exists pre, t0 = pre ++ t) ts (threads r).
Proof.
  assert (forall r1, rtc run_step r1 r -> Forall2 (fun t0 t => exists pre, t0 = pre ++ t) (threads r1) (threads r)) as K; [|intros R; apply (K _ R)].
  induction 1 as [r1|r1 r2 r3 S _ IH].
  - clear. induction (threads r1) as [|t l IH]; constructor; [exists []; reflexivity | exact IH].
  - destruct S as [s ts0 i b bs L]. cbn [threads] in *. revert IH. generalize (threads r3). revert i L. clear.
    induction ts0 as [|t ts IH]; intros [|i] L l2 F; try discriminate.
    + injection L as ->. change (<[0%nat := bs]> ((b :: bs) :: ts)) with (bs :: ts) in F. inversion F as [|? ? ? ? [pre E] F']; subst. constructor; [exists (b :: pre); reflexivity | exact F'].
    + change (<[S i := bs]> (t :: ts)) with (t :: <[i := bs]> ts) in F. inversion F as [|? ? ? ? E F']; subst. constructor; [exact E | apply (IH i L), F'].
Qed.
Lemma gauge_sum ts l : Forall (gauge_bounded 0) ts -> Forall2 (fun t0 t => exists pre, t0 = pre ++ t) ts l ->
  0 <= net_all InFlight ts - net_all InFlight l <= zlen ts.
Proof.
  intros G F. induction F as [|t0 t ts l [pre E] F IH]; [split; [reflexivity | discriminate]|]. inversion G as [|? ? G1 G2]; subst. specialize (IH G2).
  pose proof (G1 pre t eq_refl) as B. rewrite !net_all_cons, net_app, zlen_cons. lia.
Qed.

(** ** Properties *)

(** C1. Every request is admitted before it makes work, settled once, and leaves nothing behind.
    For every configuration, every request (malformed, refused by any limit, answered from a
    file, by a worker or by a sidecar), every behaviour of the client, the workers and the
    limiters, and every sequence of later callbacks of the proxy library, the actions of the
    edge follow the specification [ledger_step]: slots are taken in the order global, identity,
    long-lived, each at most once and only before the outcome; static files, the client's body
    and the workers are touched only under observation and with every limited slot held; at
    most one outcome is recorded, and exactly one when the request is handled, fails, or is
    answered or failed on the sidecar route; and unless the request is still parked, all slots
    have been given back at the end, each by the holder that took it. *)
Theorem every_request_settles_once {H} `{HeaderLib H} p (a : arrival (H := H)) cbs k :
  exists l, ledger_run (limits_of a) fresh_ledger (life p a cbs k) = Some l /\
    (is_Some (l_outcome l) <-> settled (snd (request_filter p a)) cbs) /\
    (snd (request_filter p a) <> Waiting ->
       l_phase l = Gone /\ l_global l = false /\ l_identity l = None /\ l_long l = false).
Proof.
  destruct (life_runs p a cbs k) as (l & R & S & F). exists l. split; [exact R|]. split; [exact S|]. intros W. rewrite (F W). repeat split; reflexivity.
Qed.

(** C3. The totals of the telemetry add up under concurrency.  Take any number of requests (fewer
    than 2^64), each with its own configuration, traffic and callbacks, and interleave their
    atomic operations on the shared counters in any way.  At every moment the gauge
    [in_flight] lies between 0 and the number of requests: it never wraps below zero.  Once
    all operations are done, and every request was settled, [requests_total] is the number of
    requests, [in_flight] is 0, responses and rejections together are the number of requests,
    and so are the four status classes together. *)
Theorem telemetry_totals_add_up {H} `{HeaderLib H} (reqs : list (served_request (H := H))) r :
  zlen reqs <= u64_max -> rtc run_step (start_run (programs reqs)) r ->
  0 <= shared r InFlight <= zlen reqs /\
  (Forall (fun t => t = []) (threads r) -> Forall ended reqs ->
     shared r RequestsTotal = zlen reqs /\ shared r InFlight = 0 /\ shared r ResponsesTotal + shared r RejectionsTotal = zlen reqs /\
     shared r Status2xx + shared r Status4xx + shared r Status5xx + shared r StatusOther = zlen reqs).
Proof.
  intros N R. pose proof (zlen_nonneg reqs) as N0. split.
  - destruct (run_counts InFlight (programs reqs) r) as (E & B & _); [apply programs_count; discriminate | exact R|].
    assert (0 <= net_all InFlight (programs reqs) - net_all InFlight (threads r) <= zlen reqs) as D.
    { replace (zlen reqs) with (zlen (programs reqs)) by (unfold zlen, programs; rewrite length_map; reflexivity).
      apply gauge_sum; [apply List.Forall_map, List.Forall_forall; intros s _; apply life_gauge | apply run_suffixes, R]. }
    assert (shared r InFlight = net_all InFlight (programs reqs) - net_all InFlight (threads r)) as ->; [|exact D].
    rewrite <- (Z.mod_small (shared r InFlight) two64), <- (Z.mod_small (_ - _) two64) by (exact B || (unfold two64 in *; unfold_ints; lia)).
    rewrite Zminus_mod, <- E, <- Zminus_mod. f_equal. lia.
  - intros Done E. assert (forall s, In s reqs -> ended s) as En by (apply List.Forall_forall; exact E).
    assert (forall c, c <> LastRequestSeq -> c <> LastResponseStatus -> c <> LastRejectionStatus -> shared r c = net_all c (programs reqs) mod two64) as T
      by (intros; apply run_total; [apply programs_count; assumption | exact R | exact Done]).
    assert (net_all RequestsTotal (programs reqs) = zlen reqs) as T1
      by (unfold net_all; rewrite (net_all_sum (net RequestsTotal) 1), Z.mul_1_l by (intros s Hs; apply life_counts, En, Hs); reflexivity).
    assert (net_all InFlight (programs reqs) = 0) as T2
      by (unfold net_all; rewrite (net_all_sum (net InFlight) 0) by (intros s Hs; apply life_counts, En, Hs); lia).
    pose proof (net_all_add [ResponsesTotal; RejectionsTotal] (programs reqs)) as T3. pose proof (net_all_add class_counters (programs reqs)) as T4.
    rewrite (net_all_sum (fun t => fold_right (fun c m => net c t + m) 0 [ResponsesTotal; RejectionsTotal]) 1) in T3
      by (intros s Hs; cbn [fold_right]; destruct (life_counts s (En s Hs)) as (_ & _ & C & _); lia).
    rewrite (net_all_sum (fun t => fold_right (fun c m => net c t + m) 0 class_counters) 1) in T4
      by (intros s Hs; cbn [fold_right class_counters]; destruct (life_counts s (En s Hs)) as (_ & _ & _ & C); unfold class_net in C; lia).
    cbn [fold_right class_counters] in T3, T4.
    pose proof (net_all_nonneg ResponsesTotal reqs ltac:(discriminate)). pose proof (net_all_nonneg RejectionsTotal reqs ltac:(discriminate)).
    pose proof (net_all_nonneg Status2xx reqs ltac:(discriminate)). pose proof (net_all_nonneg Status4xx reqs ltac:(discriminate)).
    pose proof (net_all_nonneg Status5xx reqs ltac:(discriminate)). pose proof (net_all_nonneg StatusOther reqs ltac:(discriminate)).
    rewrite !T by discriminate. rewrite !Z.mod_small by (unfold two64; unfold_ints; lia). lia.
Qed.

Lemma run_thread d bs ts s : exists s', rtc run_step {| shared := s; threads := d ++ bs :: ts |} {| shared := s'; threads := d ++ [] :: ts |}.
Proof.
  revert s. induction bs as [|b bs IH]; intros s; [exists s; constructor|]. destruct (IH (apply_bump b s)) as [s' R]. exists s'. eapply rtc_l; [|exact R].
  replace (d ++ bs :: ts) with (<[length d := bs]> (d ++ (b :: bs) :: ts)) by (rewrite insert_app_r_alt, Nat.sub_diag by lia; reflexivity).
  apply do_bump. rewrite lookup_app_r, Nat.sub_diag by lia. reflexivity.
Qed.
(** Every run can be completed. *)
Lemma run_completes d ts s : exists s', rtc run_step {| shared := s; threads := d ++ ts |} {| shared := s'; threads := d ++ map (fun _ => []) ts |}.
Proof.
  revert d s. induction ts as [|t ts IH]; intros d s; [exists s; constructor|]. destruct (run_thread d t ts s) as [s1 R1].
  destruct (IH (d ++ [[]]) s1) as [s2 R2]. exists s2. rewrite <- !app_assoc in R2. etrans; [exact R1 | exact R2].
Qed.

Definition demo_proxy : EdgeProxy :=
  {| p_workers := 1; p_max_body := 1000; p_server_name := bs "app.example"; p_server_port := 443; p_public_server_name := Some (bs "app.example");
     p_identity := DirectPublic; p_url_scheme := bs "https"; p_sse := false; p_cable := None;
     p_grpc := Some {| sa_ip := V4 2130706433; sa_port := 50051; sa_scope := 0 |}; p_static := false; p_pin := None;
     p_keepalive := false; p_keepalive_secs := 5; p_hop := HttpHop; p_max_buffered := 1000; p_caps := sample_caps; p_mode := Rr; p_cap := None;
     p_kind := Classic; p_pid := 77 |}.
Definition demo_answer : bytes := bs "HTTP/1.1 200 OK" ++ crlf ++ bs "Content-Length: 2" ++ crlf ++ crlf ++ bs "ok".
Definition demo_arrival (draining : bool) : arrival (H := list (bytes * bytes)) :=
  {| a_sequence := 1; a_headers := [(bs "Host", Some (bs "app.example")); (bs "X-Real-IP", Some (bs "6.6.6.6"))];
     a_head := {| http2 := false; rq_method := bs "GET"; path_and_query := Some (bs "/a"); uri_path := bs "/a"; uri_scheme := None; authority := None |};
     a_query := (bs "/a", []); a_addr := Inet (V4 3405803785) 41822; a_draining := draining; a_global := SlotGranted;
     a_fairness := identity_new (Some 2); a_long := true; a_respond_ok := true; a_static := NotStatic; a_body := []; a_buffer := []; a_sticky := None;
     a_lookup := fun _ => 0%nat; a_barge := None; a_passes := []; a_next := 0;
     a_links := fun _ => {| ha_drained := false; ha_link := Some {| hl_write_ok := true; hl_shutdown_ok := true; hl_reads := [Got demo_answer; Got []];
                                                                    hl_admitted := true; hl_drained := fun _ => false |} |};
     a_client := (zero_counters, {| written := []; accepts := 10; refusal_is_timeout := false |}) |}.
Definition demo_served (draining : bool) : served_request (H := list (bytes * bytes)) :=
  {| sv_proxy := demo_proxy; sv_arrival := demo_arrival draining; sv_callbacks := [CbLogging true]; sv_counters := zero_counters |}.
Lemma telemetry_totals_add_up_witness :
  exists r, rtc run_step (start_run (programs [demo_served true; demo_served false])) r /\ shared r RequestsTotal = 2 /\ shared r InFlight = 0.
Proof.
  destruct (run_completes [] (programs [demo_served true; demo_served false]) zero_cells) as [s R]. eexists. split; [exact R|].
  destruct (telemetry_totals_add_up [demo_served true; demo_served false] {| shared := s; threads := map (fun _ => []) (programs [demo_served true; demo_served false]) |})
    as [_ K].
  - vm_compute. discriminate.
  - exact R.
  - destruct K as (A & B & _).
    + apply List.Forall_map, List.Forall_forall. reflexivity.
    + apply List.Forall_cons; [vm_compute; exact I | apply List.Forall_cons; [vm_compute; exact I | apply List.Forall_nil]].
    + split; [exact A | exact B].
Defined.
