(* ===== verification/ProxyRequest.v ===== *)
(** * ProxyRequest: what a worker or a sidecar is given

    Composition of [Proxy] with the validators, the identity policy, the sanitizers and the
    request builders: the bytes that reach a worker, the headers that reach a sidecar
    ([upstream_request_filter] and [upstream_peer] of
    [crates/oxo-pingora-edge/src/platform/proxy.rs]), the byte limits of the gRPC route, and
    which paths are looked up as static files. *)

From S2P Require Import Prelude Text LineText HopFrame HeaderPolicy EdgeHeaders ClientRequest WorkerWire HttpHop Fairness Dispatch FrameClient FrameSend HttpClient IpText Identity EdgeConf Telemetry Proxy ProxyLife.

Section Worker.
Context {H : Type} `{HeaderLib H}.
Variables (p : EdgeProxy) (a : arrival (H := H)).

Definition reaches_worker (x : action (H := H)) : Prop := match x with SentFrame _ _ _ | SentHttp _ _ _ => True | _ => False end.

Lemma not_in_reject x o status : reaches_worker x -> ~ In x (fst (reject_as a o status)).
Proof. intros R [<-|[<-|[]]]; exact R. Qed.
Lemma in_holding x t g k : reaches_worker x -> ~ reaches_worker t -> ~ reaches_worker g -> In x (fst (holding_slot t g k)) -> In x (fst k).
Proof.
  intros R T G. unfold holding_slot. cbn [fst In]. rewrite in_app_iff. intros [<-|[I|I]]; [contradiction | exact I|].
  destruct (snd k); try destruct I as [<-|[]]; try contradiction; destruct I.
Qed.
Lemma in_emit x y k : reaches_worker x -> ~ reaches_worker y -> In x (fst (emit y k)) -> In x (fst k).
Proof. intros R Y [<-|I]; [contradiction | exact I]. Qed.
Lemma in_admit x raw want k : reaches_worker x -> In x (fst (admit_request p a raw want k)) ->
  exists remote g id, admitted_identity (p_identity p) (a_addr a) raw = Ok remote /\ In x (fst (k remote g id)).
Proof.
  intros R. pose proof (not_in_reject x) as Rj. unfold admit_request. intros I.
  assert (exists g, In x (fst (match admitted_identity (p_identity p) (a_addr a) raw with
    | Err rejection => reject a (rejection_status rejection)
    | Ok remote_addr =>
        match fst (identity_acquire remote_addr (a_fairness a)) with
        | Saturated => reject_as a RateLimited 503
        | Unlimited => if want then if a_long a then holding_slot TookLong (GaveLong new_admission) (k remote_addr g None) else reject a 503 else k remote_addr g None
        | Granted i => holding_slot (TookIdentity i) (GaveIdentity i)
            (if want then if a_long a then holding_slot TookLong (GaveLong new_admission) (k remote_addr g (Some i)) else reject a 503 else k remote_addr g (Some i))
        end
    end))) as [g I1].
  { destruct (a_global a); [exists false; exact I | exists true; apply in_holding in I; auto | destruct (Rj _ _ R I)]. }
  clear I. destruct (admitted_identity _ _ _) as [remote|rej]; [|destruct (Rj _ _ R I1)]. exists remote, g.
  destruct (fst (identity_acquire _ _)) as [|i|]; [exists None | exists (Some i) | destruct (Rj _ _ R I1)]; (split; [reflexivity|]).
  - destruct want; [|exact I1]. destruct (a_long a); [|destruct (Rj _ _ R I1)]. apply in_holding in I1; auto.
  - apply in_holding in I1; auto. destruct want; [|exact I1]. destruct (a_long a); [|destruct (Rj _ _ R I1)]. apply in_holding in I1; auto.
Qed.
Lemma finish_quiet x r : reaches_worker x -> ~ In x (fst (finish a r)).
Proof. intros R. destruct r as [[status|status]|]; [intros [<-|[]]; exact R | apply not_in_reject, R | intros []]. Qed.
Lemma sidecar_quiet x r raw : reaches_worker x -> ~ In x (fst (to_sidecar p a r raw)).
Proof. intros R I. apply in_admit in I as (? & ? & ? & _ & []); exact R. Qed.

(** The header values are texts, lowered as they are collected. *)
Lemma collected_wf hs raw : collect_request_headers hs = Ok raw -> Forall lh_wf raw /\ map kv raw = map (fun h => (fst h, unwrap_or [] (snd h))) hs.
Proof.
  revert raw. induction hs as [|[n v] hs IH]; intros raw; cbn [collect_request_headers]; [intros [= <-]; auto|].
  destruct v as [v|]; [|discriminate]. cbn [ok_or rbind]. intros E. apply rbind_ok in E as (r & C & [= <-]). destruct (IH r C) as [W M].
  split; [constructor; [reflexivity | exact W] | cbn [map fst snd unwrap_or]; rewrite M; reflexivity].
Qed.
Lemma validated_count r hs max name cl : validate_client_request r hs max name = Ok cl -> zlen hs <= MAX_REQUEST_HEADERS.
Proof.
  unfold validate_client_request. intros E. apply rbind_ok in E as (? & _ & E). destruct (eq_ignore_case _ _); [discriminate|].
  destruct (zlen hs >? MAX_REQUEST_HEADERS) eqn:L; [discriminate | lia].
Qed.

(** What a request must have passed when a worker is written to: its text [raw], the length it
    declared, the identity it was given, its complete body, and the headers that survive. *)
Record forwarded (raw : list LoweredHeader) (cl : option Z) (remote body : bytes) (clean : list header) : Prop := {
  fw_collected : collect_request_headers (a_headers a) = Ok raw;
  fw_not_draining : a_draining a = false;
  fw_valid : validate_client_request (a_head a) raw (p_max_body p) (p_public_server_name p) = Ok cl;
  fw_identity : admitted_identity (p_identity p) (a_addr a) raw = Ok remote;
  fw_body : fst (read_complete_body cl (http2 (a_head a)) (p_max_body p) (a_body a)) = Ok body;
  fw_no_upgrade : upgrade_pass raw = false;
  fw_clean : clean = map kv (List.filter (fun h => negb (must_strip raw (lh_name h))) raw);
}.
Definition sent_well (x : action (H := H)) : Prop :=
  match x with
  | SentFrame request _ _ => exists raw cl remote body clean, forwarded raw cl remote body clean /\ p_hop p = Frame /\
      encode_request (assemble_owned (rq_method (a_head a)) (fst (a_query a)) (snd (a_query a)) (authority (a_head a)) clean body (metadata p remote None)) = Ok request
  | SentHttp request _ _ => exists raw cl remote body clean, forwarded raw cl remote body clean /\ p_hop p = HttpHop /\
      build_worker_request (a_head a) (clean ++ metadata_headers (metadata p remote (Some (request_id_text (p_pid p) (a_sequence a)))) ++ [(bs "connection", bs "close")]) body = Ok request
  | _ => True
  end.

Lemma in_dispatch x raw cl remote : reaches_worker x -> In x (fst (dispatch p a raw cl remote)) ->
  exists body s, fst (read_complete_body cl (http2 (a_head a)) (p_max_body p) (a_body a)) = Ok body /\
    match p_hop p with
    | Frame => exists plan, sanitize_frame_headers raw {| sse := p_sse p |} = Ok plan /\ In x (fst (frame_hop p a raw plan body remote))
    | HttpHop => sanitize_lowered raw (metadata p remote (Some (request_id_text (p_pid p) (a_sequence a)))) {| sse := p_sse p |} = Ok s /\ In x (fst (http_hop p a (clean_headers s) body))
    end.
Proof.
  intros R. assert (SanitizedWorkerRequest) as dummy by exact {| clean_headers := []; stripped_headers := [] |}.
  assert (forall k, In x (fst (emit BodyAsked (match fst (read_complete_body cl (http2 (a_head a)) (p_max_body p) (a_body a)) with Err status => reject a status | Ok body => k body end))) ->
    exists body, fst (read_complete_body cl (http2 (a_head a)) (p_max_body p) (a_body a)) = Ok body /\ In x (fst (k body))) as B.
  { intros k I. apply in_emit in I; [|exact R | auto]. destruct (fst (read_complete_body _ _ _ _)) as [body|]; [eauto | destruct (not_in_reject _ _ _ R I)]. }
  unfold dispatch. destruct (p_hop p).
  - destruct (sanitize_frame_headers _ _) as [plan|]; [|intros I; destruct (not_in_reject _ _ _ R I)]. intros (body & Eb & I)%B. eauto 8.
  - destruct (sanitize_lowered _ _ _) as [s|]; [|intros I; destruct (not_in_reject _ _ _ R I)]. intros (body & Eb & I)%B. eauto 8.
Qed.

Lemma in_frame_hop x raw plan body remote : reaches_worker x -> In x (fst (frame_hop p a raw plan body remote)) ->
  exists request evs c, x = SentFrame request evs c /\
    assemble_into (a_buffer a) (rq_method (a_head a)) (fst (a_query a)) (snd (a_query a)) (authority (a_head a)) raw plan body (metadata p remote None) None = (request, Ok tt).
Proof.
  intros R. unfold frame_hop, build_request_frame_bytes_into. destruct (path_and_query (a_head a)); [|intros I; destruct (not_in_reject _ _ _ R I)].
  destruct (assemble_into _ _ _ _ _ _ _ _ _ _) as [request [[]|e]]; [|intros I; destruct (not_in_reject _ _ _ R I)].
  destruct (send_worker_frame_to_pool _ _ _ _ _ _ _ _ _ _ _ _) as [[r evs] c]. intros [<-|I]; [eauto | destruct (finish_quiet _ _ R I)].
Qed.
Lemma in_http_hop x clean body : reaches_worker x -> In x (fst (http_hop p a clean body)) ->
  exists request reached c, x = SentHttp request reached c /\ build_worker_request (a_head a) clean body = Ok request.
Proof.
  intros R. unfold http_hop. destruct (build_worker_request _ _ _) as [request|]; [|intros I; destruct (not_in_reject _ _ _ R I)].
  destruct (send_worker_request_to_pool _ _ _ _ _ _ _) as [[[[r reached] c] k]|]; [|intros []]. intros [<-|I]; [eauto | destruct (finish_quiet _ _ R I)].
Qed.
Lemma in_worker_route x raw cl remote : reaches_worker x -> In x (fst (worker_route p a raw cl remote)) -> In x (fst (dispatch p a raw cl remote)).
Proof.
  intros R. unfold worker_route. destruct (_ && _); [|auto]. destruct (a_static a) as [reusable status|]; [|auto].
  intros [<-|I]; [destruct R|]. destruct reusable; cbn in I; repeat destruct I as [<-|I]; contradiction || destruct R.
Qed.
Lemma in_routed x raw : reaches_worker x -> In x (fst (routed p a raw)) ->
  exists cl remote, validate_client_request (a_head a) raw (p_max_body p) (p_public_server_name p) = Ok cl /\
    admitted_identity (p_identity p) (a_addr a) raw = Ok remote /\ In x (fst (dispatch p a raw cl remote)).
Proof.
  intros R. unfold routed.
  assert (forall k, cable_route p a raw = Some k -> ~ In x (fst k)) as C.
  { intros k. unfold cable_route. destruct (p_cable p); [|discriminate]. destruct (is_action_cable_upgrade_attempt _ _); [|discriminate]. intros [= <-].
    destruct (validate_action_cable_request _ _ _ _ _ _); [apply sidecar_quiet, R | apply not_in_reject, R]. }
  assert (forall k, grpc_route p a raw = Some k -> ~ In x (fst k)) as G.
  { intros k. unfold grpc_route. destruct (p_grpc p); [|discriminate]. destruct (is_native_grpc_request_attempt _); [|discriminate]. intros [= <-].
    destruct (validate_grpc_unary_request _ _ _ _); [apply sidecar_quiet, R | apply not_in_reject, R]. }
  destruct (cable_route p a raw) as [k|]; [intros I; destruct (C k eq_refl I)|]. destruct (grpc_route p a raw) as [k|]; [intros I; destruct (G k eq_refl I)|].
  destruct (validate_client_request _ _ _ _) as [cl|]; [|intros I; destruct (not_in_reject _ _ _ R I)]. intros I. apply in_admit in I as (remote & g & id & A & I); [|exact R].
  exists cl, remote. split; [reflexivity|]. split; [exact A|]. apply in_worker_route; assumption.
Qed.
Lemma in_filter x : reaches_worker x -> In x (fst (request_filter p a)) ->
  exists raw, collect_request_headers (a_headers a) = Ok raw /\ a_draining a = false /\ In x (fst (routed p a raw)).
Proof.
  intros R I. unfold request_filter in I. apply in_emit in I; [|exact R | auto]. unfold observing in I. cbn [fst In] in I. rewrite in_app_iff in I.
  destruct I as [<-|[I|I]]; [destruct R| |destruct (snd _); cbn in I; repeat destruct I as [<-|I]; contradiction || destruct R].
  destruct (collect_request_headers _) as [raw|]; [|destruct (not_in_reject _ _ _ R I)]. exists raw. split; [reflexivity|].
  destruct (a_draining a); [|auto]. apply in_emit in I; [destruct (not_in_reject _ _ _ R I) | exact R | auto].
Qed.
Lemma request_sent_well x : In x (fst (request_filter p a)) -> sent_well x.
Proof.
  intros I. assert (reaches_worker x \/ ~ reaches_worker x) as [R|R] by (destruct x; cbn; auto); [|destruct x; cbn in *; tauto].
  apply in_filter in I as (raw & C & D & I); [|exact R]. apply in_routed in I as (cl & remote & V & Id & I); [|exact R].
  apply in_dispatch in I as (body & s & B & I); [|exact R]. destruct (collected_wf _ _ C) as [W _]. pose proof (validated_count _ _ _ _ _ V) as N. unfold MAX_REQUEST_HEADERS in N.
  destruct (p_hop p) eqn:Hop.
  - destruct I as (plan & San & I). apply in_frame_hop in I as (request & evs & c & -> & As); [|exact R].
    pose proof (sanitizers_match raw {| sse := p_sse p |} W ltac:(lia)) as Ag. rewrite San in Ag. destruct (sanitize_bare raw _) as [s'|] eqn:Bare; [|destruct Ag].
    pose proof (assemble_agrees (a_buffer a) (rq_method (a_head a)) (fst (a_query a)) (snd (a_query a)) (authority (a_head a)) raw _ body (metadata p remote None) s' plan W ltac:(lia) Bare San) as E.
    apply sanitize_bare_spec in Bare as (U & _ & ->); [|exact W]. cbn [clean_headers] in E. exists raw, cl, remote, body, (map kv (List.filter (fun h => negb (must_strip raw (lh_name h))) raw)).
    split; [constructor; auto|]. split; [exact Hop|]. cbv zeta in E. destruct (encode_request _) as [frame|]; [rewrite As in E; congruence|].
    destruct E as [out E]. rewrite As in E. discriminate.
  - destruct I as (San & I). apply in_http_hop in I as (request & reached & c & -> & Bw); [|exact R].
    unfold sanitize_lowered in San. apply rbind_ok in San as (s' & Bare & [= <-]). apply sanitize_bare_spec in Bare as (U & _ & ->); [|exact W]. cbn [clean_headers] in Bw.
    exists raw, cl, remote, body, (map kv (List.filter (fun h => negb (must_strip raw (lh_name h))) raw)). split; [constructor; auto|]. split; [exact Hop | exact Bw].
Qed.
End Worker.

(** ** What a sidecar is given *)

(** The request header object of the HTTP library, with what it documents: names are compared
    without case, [remove_header] removes every value, [insert_header] replaces them all by
    one, and refuses names and values that are not allowed in a header. *)
Class RequestLib (R : Type) : Type := {
  rl_values : bytes -> R -> list bytes;
  rl_remove : bytes -> R -> R;
  rl_insert : bytes -> bytes -> R -> option R;
}.
Class RequestLaws (R : Type) `{RequestLib R} : Prop := {
  values_remove n m r : rl_values n (rl_remove m r) = if eq_ignore_case n m then [] else rl_values n r;
  values_insert n m v r r' : rl_insert m v r = Some r' -> rl_values n r' = if eq_ignore_case n m then [v] else rl_values n r;
}.

Definition removed_for_sidecars : list bytes :=
  map bs ["forwarded"; "x-forwarded-for"; "x-forwarded-host"; "x-forwarded-port"; "x-forwarded-proto"; "x-real-ip"; "x-request-id";
          "x-oxo-remote-addr"; "x-oxo-url-scheme"; "x-oxo-server-name"; "x-oxo-server-port"; "x-oxo-request-id"]%string.

Section Sidecar.
Context {R : Type} `{RequestLaws R}.
Variable p : EdgeProxy.

(** What the edge states for itself, in the order it inserts it. *)
Definition stated (c : EdgeRequestContext) : list (bytes * bytes) :=
  [(bs "host", public_upstream_host p); (bs "x-oxo-url-scheme", p_url_scheme p); (bs "x-oxo-server-name", p_server_name p);
   (bs "x-oxo-server-port", show_uint (p_server_port p))]
  ++ match request_id c with Some i => [(bs "x-oxo-request-id", i)] | None => [] end.
(** [insert_header(..).unwrap()], one after the other; [None] is the panic. *)
Fixpoint insert_all (hs : list (bytes * bytes)) (r : R) : option R :=
  match hs with
  | [] => Some r
  | (n, v) :: hs' => match rl_insert n v r with Some r' => insert_all hs' r' | None => None end
  end.
Definition upstream_request_filter (r : R) (c : EdgeRequestContext) : option R :=
  if is_sidecar (route c) then insert_all (stated c) (fold_left (fun r n => rl_remove n r) removed_for_sidecars r) else Some r.

Lemma values_removed n ms r : rl_values n (fold_left (fun r m => rl_remove m r) ms r) = if existsb (eq_ignore_case n) ms then [] else rl_values n r.
Proof.
  revert r. induction ms as [|m ms IH]; intros r; cbn [fold_left existsb]; [reflexivity|]. rewrite IH, values_remove.
  destruct (eq_ignore_case n m), (existsb _ ms); reflexivity.
Qed.
Fixpoint last_stated (n : bytes) (hs : list (bytes * bytes)) (d : list bytes) : list bytes :=
  match hs with [] => d | (m, v) :: hs' => last_stated n hs' (if eq_ignore_case n m then [v] else d) end.
Lemma values_inserted n hs r r' : insert_all hs r = Some r' -> rl_values n r' = last_stated n hs (rl_values n r).
Proof.
  revert r. induction hs as [|[m v] hs IH]; intros r; cbn [insert_all last_stated]; [intros [= <-]; reflexivity|].
  destruct (rl_insert m v r) as [r1|] eqn:E; [|discriminate]. intros K. rewrite (IH _ K), (values_insert n m v r r1 E). reflexivity.
Qed.
Lemma sidecar_values n r r' c : is_sidecar (route c) = true -> upstream_request_filter r c = Some r' ->
  rl_values n r' = last_stated n (stated c) (if existsb (eq_ignore_case n) removed_for_sidecars then [] else rl_values n r).
Proof. unfold upstream_request_filter. intros -> E. rewrite (values_inserted _ _ _ _ E), values_removed. reflexivity. Qed.
End Sidecar.

(** [upstream_peer]: the address, the protocol and the one-shot pool settings. *)
Inductive peer_addr : Type := Tcp (a : SocketAddr) | Uds (path : bytes).
Record HttpPeer : Type := {
  peer_address : peer_addr; peer_tls : bool; group_key : Z; http_version : option (Z * Z); max_h2_streams : option Z; idle_timeout : option Z;
  read_timeout : option Z; write_timeout : option Z }.
Definition one_shot (address : peer_addr) (generation : Z) : HttpPeer :=
  {| peer_address := address; peer_tls := false; group_key := generation; http_version := None; max_h2_streams := None; idle_timeout := Some 0;
     read_timeout := None; write_timeout := None |}.
(** Times in seconds. *)
Definition WORKER_READ_TIMEOUT : Z := 30.
Definition WORKER_WRITE_TIMEOUT : Z := 5.
Definition upstream_peer (sockets : list bytes) (configured : option bytes) (generation : Z) (c : EdgeRequestContext) : HttpPeer :=
  match route c with
  | ActionCable bind => one_shot (Tcp bind) generation
  | Grpc bind =>
      {| peer_address := Tcp bind; peer_tls := false; group_key := generation; http_version := Some (2, 2); max_h2_streams := Some 1; idle_timeout := Some 0;
         read_timeout := Some WORKER_READ_TIMEOUT; write_timeout := Some WORKER_WRITE_TIMEOUT |}
  | ToWorker => one_shot (Uds (match sockets with s :: _ => s | [] => unwrap_or [] configured end)) generation
  end.

(** ** Bodies on the gRPC route *)

(** The pieces of a request body, up to the first refusal. *)
Fixpoint feed_request (p : EdgeProxy) (pieces : list Z) (c : EdgeRequestContext) : result Z EdgeRequestContext :=
  match pieces with
  | [] => Ok c
  | n :: ps => match request_body_filter p (Some n) c with (Ok _, c') => feed_request p ps c' | (Err e, _) => Err e end
  end.
Fixpoint feed_response (p : EdgeProxy) (pieces : list Z) (c : EdgeRequestContext) (k : LongLivedCounters) : result Z (EdgeRequestContext * LongLivedCounters) :=
  match pieces with
  | [] => Ok (c, k)
  | n :: ps => match response_body_filter p (Some n) false c k with (Ok _, c', k') => feed_response p ps c' k' | (Err e, _, _) => Err e end
  end.
Definition total (l : list Z) : Z := fold_right Z.add 0 l.
Lemma total_nonneg l : Forall (fun n => 0 <= n) l -> 0 <= total l.
Proof. unfold total. induction 1; cbn [fold_right]; lia. Qed.

Lemma feed_request_exact p pieces c : is_grpc (route c) = true -> Forall (fun n => 0 <= n) pieces -> p_max_body p < u64_max ->
  0 <= grpc_request_bytes c <= p_max_body p ->
  if grpc_request_bytes c + total pieces <=? p_max_body p
  then exists c', feed_request p pieces c = Ok c' /\ grpc_request_bytes c' = grpc_request_bytes c + total pieces
  else feed_request p pieces c = Err 413.
Proof.
  intros G F M. revert c G. induction F as [|n ps N F IH]; intros c G B; cbn [feed_request].
  - change (total []) with 0. rewrite Z.add_0_r. destruct (_ <=? _) eqn:E; [eauto | lia].
  - change (total (n :: ps)) with (n + total ps). unfold request_body_filter. rewrite G. pose proof (total_nonneg ps F) as T. pose proof (saturating_add_spec (grpc_request_bytes c) n) as S.
    destruct (saturating_add (grpc_request_bytes c) n >? p_max_body p) eqn:E.
    + destruct (_ <=? _) eqn:L; [|reflexivity]. int_lia.
    + assert (saturating_add (grpc_request_bytes c) n = grpc_request_bytes c + n) as A by int_lia. rewrite A in *.
      specialize (IH (set_request_bytes (grpc_request_bytes c + n) c) G). cbn [set_request_bytes grpc_request_bytes] in IH. rewrite <- Z.add_assoc in IH. apply IH. lia.
Qed.
Definition streamed (c : EdgeRequestContext) : Z := match ctx_long c with Some a => bytes_streamed a | None => 0 end.
Lemma feed_response_exact p pieces c k : is_grpc (route c) = true -> ctx_long c <> None -> Forall (fun n => 0 <= n) pieces ->
  p_max_body p < u64_max -> p_max_buffered p < u64_max -> 0 <= grpc_response_bytes c <= p_max_body p -> 0 <= streamed c <= p_max_buffered p ->
  if (grpc_response_bytes c + total pieces <=? p_max_body p) && (streamed c + total pieces <=? p_max_buffered p)
  then exists c' k', feed_response p pieces c k = Ok (c', k') /\ streamed c' = streamed c + total pieces
  else feed_response p pieces c k = Err 502.
Proof.
  intros G L F M1 M2. revert c k G L. induction F as [|n ps N F IH]; intros c k G L B1 B2; cbn [feed_response].
  - change (total []) with 0. rewrite !Z.add_0_r. destruct (_ && _) eqn:E; [eauto | lia].
  - change (total (n :: ps)) with (n + total ps). unfold response_body_filter. rewrite G. cbn [negb]. pose proof (total_nonneg ps F) as T.
    pose proof (saturating_add_spec (grpc_response_bytes c) n) as S1. destruct (saturating_add (grpc_response_bytes c) n >? p_max_body p) eqn:E1.
    { destruct (_ && _) eqn:X; [|reflexivity]. int_lia. }
    cbn [set_response_bytes ctx_long]. unfold streamed in *. destruct (ctx_long c) as [a|] eqn:Lc; [|congruence]. cbn [long_lived_hold]. unfold within_buffer. cbn [bytes_streamed].
    pose proof (saturating_add_spec (bytes_streamed a) n) as S2. destruct (saturating_add (bytes_streamed a) n <=? p_max_buffered p) eqn:E2.
    2: { destruct (_ && _) eqn:X; [|reflexivity]. int_lia. }
    assert (saturating_add (grpc_response_bytes c) n = grpc_response_bytes c + n) as A1 by int_lia.
    assert (saturating_add (bytes_streamed a) n = bytes_streamed a + n) as A2 by int_lia. rewrite A1, A2 in *.
    match goal with |- context [feed_response p ps ?c1 ?k1] => specialize (IH c1 k1 G) end. cbn [set_long set_response_bytes ctx_long grpc_response_bytes bytes_streamed] in IH.
    rewrite <- !Z.add_assoc in IH. apply IH; [discriminate | lia | lia].
Qed.

(** ** Static files *)

(** A first segment that the mounts can serve: that of a prefix, the empty one of a root mount,
    or an entry of its directory. *)
Definition mounted (read_dir : bytes -> option (list dir_entry)) (mounts : list MountSpec) (seg : bytes) : Prop :=
  exists m, In m mounts /\
    (let prefix := first_path_segment (m_prefix m) in
     if bool_decide (prefix = []) then seg = [] \/ exists es, read_dir (m_docroot m) = Some es /\ In (Name seg) es else seg = prefix).
Lemma pin_entries_exact es pin pin' : pin_entries es pin = Ok pin' -> forall seg, seg ∈ pin' <-> seg ∈ pin \/ In (Name seg) es.
Proof.
  revert pin. induction es as [|e es IH]; intros pin; cbn [pin_entries].
  - intros [= <-] seg. cbn. tauto.
  - destruct e as [| |n]; [discriminate| |]; destruct (_ >? _); try discriminate; intros E seg; rewrite (IH _ E seg); cbn [In]; split.
    + tauto.
    + intros [K|[[=]|K]]; auto.
    + rewrite elem_of_union, elem_of_singleton. intros [[-> |K]|K]; auto.
    + rewrite elem_of_union, elem_of_singleton. intros [K|[[= ->]|K]]; auto.
Qed.
Lemma pin_mounts_exact read_dir ms pin pin' : pin_mounts read_dir ms pin = Ok pin' -> forall seg, seg ∈ pin' <-> seg ∈ pin \/ mounted read_dir ms seg.
Proof.
  unfold mounted. revert pin. induction ms as [|m ms IH]; intros pin; cbn [pin_mounts].
  - intros [= <-] seg. split; [auto | intros [K|(m & [] & _)]; exact K].
  - destruct (bool_decide (first_path_segment (m_prefix m) = [])) eqn:P; cbn [negb].
    + intros E seg. apply rbind_ok in E as (es & Rd & E). apply ok_or_ok in Rd. apply rbind_ok in E as (pin1 & Pe & E). rewrite (IH _ E seg), (pin_entries_exact _ _ _ Pe seg), elem_of_union, elem_of_singleton.
      split.
      * intros [[[-> |K]|K]|(m' & I & K)]; [right; exists m; rewrite P; cbn; auto | auto | right; exists m; rewrite P; cbn; eauto 6 | right; exists m'; cbn; auto].
      * intros [K|(m' & [<-|I] & K)]; [auto | | right; eauto]. rewrite P in K. cbv zeta in K. destruct K as [-> |(es' & Rd' & K)]; [auto|]. rewrite Rd in Rd'. injection Rd' as <-. auto.
    + intros E seg. rewrite (IH _ E seg), elem_of_union, elem_of_singleton. split.
      * intros [[-> |K]|(m' & I & K)]; [right; exists m; rewrite P; cbn; auto | auto | right; exists m'; cbn; auto].
      * intros [K|(m' & [<-|I] & K)]; [auto | | right; eauto]. rewrite P in K. cbv zeta in K. auto.
Qed.

(** Decides the comparisons of literal names. *)
Ltac closed_names :=
  cbn [last_stated app];
  repeat match goal with
         | |- context [existsb (eq_ignore_case ?x) ?y] => let b := eval vm_compute in (existsb (eq_ignore_case x) y) in change (existsb (eq_ignore_case x) y) with b
         | |- context [eq_ignore_case ?x ?y] => let b := eval vm_compute in (eq_ignore_case x y) in change (eq_ignore_case x y) with b
         end; cbn iota.

(** ** Properties *)

(** C2. What reaches a worker.  For every request and every configuration, whenever the edge writes
    to a worker on either hop, the request was read as text, passed [validate_client_request]
    (so its target, its Host, its sizes and the public name are right), was given an identity by
    the policy, is not refused as an upgrade, and its body was received completely and within
    the limit; the bytes written are exactly the encoding of its method, target and body, the
    client's headers that need not be stripped, in order, and the edge's own metadata with that
    identity (as frame fields, or as [x-oxo-] headers).  No header of the client that can forge
    a forwarding identity or the edge's metadata is among them. *)
Theorem worker_gets_the_validated_request {H} `{HeaderLib H} p (a : arrival (H := H)) x :
  In x (fst (request_filter p a)) ->
  sent_well p a x /\
  (forall raw cl remote body clean h, forwarded p a raw cl remote body clean -> In h clean ->
     In h (map kv raw) /\ is_client_forwarding_header (to_ascii_lowercase (fst h)) = false /\ is_reserved (to_ascii_lowercase (fst h)) = false).
Proof.
  intros I. split; [apply request_sent_well, I|]. intros raw cl remote body clean h F Hc. rewrite (fw_clean _ _ _ _ _ _ _ F) in Hc.
  apply in_map_iff in Hc as (y & <- & Hy). apply filter_In in Hy as [Iy S]. split; [apply in_map, Iy|].
  apply negb_true_iff in S. unfold must_strip in S. rewrite !orb_false_iff in S. destruct S as [[[_ S1] S2] _]. auto.
Qed.
Lemma worker_gets_the_validated_request_witness :
  exists request reached c, In (SentHttp request reached c) (fst (request_filter demo_proxy (demo_arrival false))) /\
    exists raw cl remote body clean, forwarded demo_proxy (demo_arrival false) raw cl remote body clean /\ clean = [(bs "Host", bs "app.example")].
Proof.
  set (is_http := fun x : action (H := list (bytes * bytes)) => match x with SentHttp _ _ _ => true | _ => false end).
  assert (match List.find is_http (fst (request_filter demo_proxy (demo_arrival false))) with Some _ => true | None => false end = true) as Found by (vm_compute; reflexivity).
  destruct (List.find is_http (fst (request_filter demo_proxy (demo_arrival false)))) as [x|] eqn:E; [|discriminate]. apply find_some in E as [I Hx].
  pose proof (proj1 (worker_gets_the_validated_request demo_proxy (demo_arrival false) x I)) as S.
  destruct x as [| | | | | | | | | | | | | |request reached c]; try discriminate Hx. exists request, reached, c. split; [exact I|].
  destruct S as (raw & cl & remote & body & clean & F & _ & _). exists raw, cl, remote, body, clean. split; [exact F|].
  rewrite (fw_clean _ _ _ _ _ _ _ F). pose proof (fw_collected _ _ _ _ _ _ _ F) as C. vm_compute in C. injection C as <-. vm_compute. reflexivity.
Defined.

(** What reaches a sidecar.  On the Action Cable and gRPC routes the request header that goes
    upstream states the edge's own host, scheme, name, port and request id, each exactly once
    whatever the client sent under these names; the twelve names of the list that the edge does
    not state again are gone; and every other header is as the client sent it. *)
Theorem sidecar_headers_are_the_edges {R} `{RequestLaws R} p (c : EdgeRequestContext) (r r' : R) :
  is_sidecar (route c) = true -> upstream_request_filter p r c = Some r' ->
  Forall (fun h => rl_values (fst h) r' = [snd h]) (stated p c) /\
  (forall n, existsb (eq_ignore_case n) removed_for_sidecars = true -> existsb (fun h => eq_ignore_case n (fst h)) (stated p c) = false -> rl_values n r' = []) /\
  (forall n, existsb (eq_ignore_case n) removed_for_sidecars = false -> eq_ignore_case n (bs "host") = false -> rl_values n r' = rl_values n r).
Proof.
  intros S E. assert (forall n, rl_values n r' = last_stated n (stated p c) (if existsb (eq_ignore_case n) removed_for_sidecars then [] else rl_values n r)) as V
    by (intros n; apply sidecar_values; assumption).
  assert (forall n hs d, existsb (fun h => eq_ignore_case n (fst h)) hs = false -> last_stated n hs d = d) as Skip.
  { intros n hs. induction hs as [|[m v] hs IH]; intros d; cbn [existsb last_stated fst]; [reflexivity|]. rewrite orb_false_iff. intros [-> K]. apply IH, K. }
  split; [|split].
  - unfold stated in *. destruct (request_id c) as [i|]; repeat constructor; cbn [fst snd]; rewrite V; closed_names; reflexivity.
  - intros n R1 R2. rewrite V, R1. apply Skip, R2.
  - intros n R1 R2. rewrite V, R1. apply Skip. unfold stated. unfold removed_for_sidecars in R1. cbn [map existsb] in R1. rewrite !orb_false_iff in R1.
    decompose [and] R1. destruct (request_id c); cbn [app existsb fst]; rewrite ?R2; rewrite !orb_false_iff; repeat split; assumption || reflexivity.
Qed.

(** An association list is such a header object. *)
#[global] Instance pairs_request : RequestLib (list (bytes * bytes)) := {
  rl_values n r := map snd (List.filter (fun h => eq_ignore_case n (fst h)) r);
  rl_remove n r := List.filter (fun h => negb (eq_ignore_case n (fst h))) r;
  rl_insert n v r := if is_valid_header_name n && negb (has_invalid_header_value_bytes v) then Some (List.filter (fun h => negb (eq_ignore_case n (fst h))) r ++ [(n, v)]) else None;
}.
Lemma eq_ignore_case_trans n m k : eq_ignore_case n m = true -> eq_ignore_case n k = eq_ignore_case m k.
Proof. unfold eq_ignore_case. intros E. apply eq_bytes_true in E. rewrite E. reflexivity. Qed.
Lemma eq_ignore_case_sym n m : eq_ignore_case n m = eq_ignore_case m n.
Proof. unfold eq_ignore_case, eq_bytes. apply bool_decide_ext. split; congruence. Qed.
Lemma pairs_removed (r : list (bytes * bytes)) n m : map snd (List.filter (fun h => eq_ignore_case n (fst h)) (List.filter (fun h => negb (eq_ignore_case m (fst h))) r)) =
  if eq_ignore_case n m then [] else map snd (List.filter (fun h => eq_ignore_case n (fst h)) r).
Proof.
  induction r as [|[k v] r IH]; cbn [List.filter fst map]; [destruct (eq_ignore_case n m); reflexivity|].
  destruct (eq_ignore_case m k) eqn:Mk; cbn [negb List.filter fst].
  - rewrite IH. destruct (eq_ignore_case n m) eqn:Nm; [reflexivity|]. rewrite eq_ignore_case_sym in Mk. rewrite eq_ignore_case_sym, (eq_ignore_case_trans _ _ n Mk), eq_ignore_case_sym, Nm. reflexivity.
  - destruct (eq_ignore_case n k) eqn:Nk; cbn [map snd]; rewrite IH; destruct (eq_ignore_case n m) eqn:Nm; try reflexivity.
    rewrite (eq_ignore_case_trans _ _ k Nm), Mk in Nk. discriminate.
Qed.
#[global] Instance pairs_request_laws : RequestLaws (list (bytes * bytes)).
Proof.
  split.
  - intros n m r. apply pairs_removed.
  - intros n m v r r'. cbn [rl_insert rl_values pairs_request]. destruct (_ && _); [|discriminate]. intros [= <-]. rewrite List.filter_app, map_app, pairs_removed. cbn [List.filter fst].
    destruct (eq_ignore_case n m) eqn:Nm; cbn [map snd app]; rewrite ?app_nil_r; reflexivity.
Qed.
Definition cable_ctx : EdgeRequestContext :=
  {| route := ActionCable {| sa_ip := V4 2130706433; sa_port := 28080; sa_scope := 0 |}; request_id := Some (bs "oxo-77-5"); ctx_global := true; ctx_identity := None;
     ctx_long := Some new_admission; grpc_request_bytes := 0; grpc_response_bytes := 0; outcome_recorded := false |}.
Definition cable_request : list (bytes * bytes) :=
  [(bs "Host", bs "evil.example"); (bs "X-Forwarded-For", bs "1.2.3.4"); (bs "X-Oxo-Request-Id", bs "forged"); (bs "Origin", bs "https://app.example"); (bs "Client-IP", bs "10.0.0.1")].
Lemma sidecar_headers_are_the_edges_witness :
  exists r', upstream_request_filter demo_proxy cable_request cable_ctx = Some r' /\ rl_values (bs "x-oxo-request-id") r' = [bs "oxo-77-5"] /\ rl_values (bs "origin") r' = [bs "https://app.example"].
Proof.
  destruct (upstream_request_filter demo_proxy cable_request cable_ctx) as [r'|] eqn:E; [|vm_compute in E; discriminate]. exists r'. split; [reflexivity|].
  destruct (sidecar_headers_are_the_edges demo_proxy cable_ctx cable_request r' eq_refl E) as (S & _ & K). split.
  - rewrite List.Forall_forall in S. apply (S (bs "x-oxo-request-id", bs "oxo-77-5")). vm_compute. tauto.
  - rewrite (K (bs "origin")) by reflexivity. reflexivity.
Defined.

(** The client-address headers that the workers never see reach the sidecars: [client-ip] and
    eleven more names of the forwarding family are passed on as the client wrote them. *)
Definition kept_forwarding : list bytes :=
  map bs ["client-ip"; "true-client-ip"; "cf-connecting-ip"; "cf-pseudo-ipv4"; "x-client-ip"; "fastly-client-ip"; "fly-client-ip"; "x-cluster-client-ip";
          "x-original-forwarded-for"; "x-forwarded"; "x-forwarded-ssl"; "x-forwarded-server"]%string.
Theorem sidecars_see_client_ip_headers {R} `{RequestLaws R} p (c : EdgeRequestContext) (r r' : R) :
  is_sidecar (route c) = true -> upstream_request_filter p r c = Some r' ->
  Forall (fun n => is_client_forwarding_header n = true /\ rl_values n r' = rl_values n r) kept_forwarding.
Proof.
  intros S E. unfold kept_forwarding. cbn [map]. repeat (apply List.Forall_cons; [split; [vm_compute; reflexivity | rewrite (sidecar_values p _ r r' c S E); unfold stated; destruct (request_id c); closed_names; reflexivity]|]).
  apply List.Forall_nil.
Qed.
Lemma sidecars_see_client_ip_headers_witness :
  exists r', upstream_request_filter demo_proxy cable_request cable_ctx = Some r' /\ rl_values (bs "client-ip") r' = [bs "10.0.0.1"].
Proof.
  destruct (upstream_request_filter demo_proxy cable_request cable_ctx) as [r'|] eqn:E; [|vm_compute in E; discriminate]. exists r'. split; [reflexivity|].
  pose proof (sidecars_see_client_ip_headers demo_proxy cable_ctx cable_request r' eq_refl E) as K. inversion K as [|? ? [_ V] _]; subst. rewrite V. reflexivity.
Defined.

(** The bodies of the gRPC route are bounded exactly.  On a context that [request_filter] made
    for that route, a request body passes, in whatever pieces it comes, iff its length is at
    most the body limit, and is refused with 413 otherwise; a response body passes iff it is
    within both the body limit and the streaming limit, and fails with 502 otherwise. *)
Theorem grpc_bodies_are_bounded p c k requests responses :
  is_grpc (route c) = true -> ctx_long c = Some new_admission -> grpc_request_bytes c = 0 -> grpc_response_bytes c = 0 ->
  0 <= p_max_body p < u64_max -> 0 <= p_max_buffered p < u64_max -> Forall (fun n => 0 <= n) requests -> Forall (fun n => 0 <= n) responses ->
  (if total requests <=? p_max_body p then is_ok (feed_request p requests c) = true else feed_request p requests c = Err 413) /\
  (if total responses <=? Z.min (p_max_body p) (p_max_buffered p) then is_ok (feed_response p responses c k) = true else feed_response p responses c k = Err 502).
Proof.
  intros G L B1 B2 M1 M2 F1 F2. split.
  - pose proof (feed_request_exact p requests c G F1 ltac:(lia) ltac:(lia)) as E. rewrite B1, Z.add_0_l in E.
    destruct (_ <=? _); [destruct E as (c' & -> & _); reflexivity | exact E].
  - assert (streamed c = 0) as S by (unfold streamed; rewrite L; reflexivity).
    pose proof (feed_response_exact p responses c k G ltac:(rewrite L; discriminate) F2 ltac:(lia) ltac:(lia) ltac:(lia) ltac:(lia)) as E. rewrite B2, S, !Z.add_0_l in E.
    replace (total responses <=? Z.min (p_max_body p) (p_max_buffered p)) with ((total responses <=? p_max_body p) && (total responses <=? p_max_buffered p)) by lia.
    destruct (_ && _); [destruct E as (c' & k' & -> & _); reflexivity | exact E].
Qed.
Definition grpc_ctx : EdgeRequestContext :=
  {| route := Grpc {| sa_ip := V4 2130706433; sa_port := 50051; sa_scope := 0 |}; request_id := Some (bs "oxo-77-6"); ctx_global := true; ctx_identity := None;
     ctx_long := Some new_admission; grpc_request_bytes := 0; grpc_response_bytes := 0; outcome_recorded := false |}.
Lemma grpc_bodies_are_bounded_witness : feed_request demo_proxy [600; 401] grpc_ctx = Err 413 /\ is_ok (feed_response demo_proxy [600; 400] grpc_ctx zero_counters) = true.
Proof.
  destruct (grpc_bodies_are_bounded demo_proxy grpc_ctx zero_counters [600; 401] [600; 400]) as [A B]; try reflexivity.
  - cbn. unfold_ints. lia.
  - cbn. unfold_ints. lia.
  - repeat constructor; lia.
  - repeat constructor; lia.
  - split; [exact A | exact B].
Defined.

(** The boot-time pins decide exactly which requests may be static.  When the pin set can be
    built, a GET or HEAD request is looked up in the static server iff its first path segment
    has a percent sign, or is the first segment of a mount prefix, or a root mount has an entry
    of that name in its directory (the empty segment being the index): a file below a mount is
    never missed, and no other path costs a look-up. *)
Theorem static_pins_are_exact read_dir mounts pin path :
  build_prod_pin_set read_dir mounts = Ok pin ->
  is_static_candidate (Some pin) path = true <->
  contains_byte (zb 37) (first_path_segment path) = true \/ mounted read_dir mounts (first_path_segment path).
Proof.
  intros E. unfold is_static_candidate. rewrite orb_true_iff, bool_decide_eq_true, (pin_mounts_exact _ _ _ _ E). split; [intros [K|[K|K]]; [auto | set_solver | auto] | tauto].
Qed.
Definition demo_dir (d : bytes) : option (list dir_entry) := if eq_bytes d (bs "/srv/public") then Some [Name (bs "favicon.ico"); OtherName; Name (bs "packs")] else None.
Definition demo_mounts : list MountSpec := [{| m_prefix := bs "/assets/v1"; m_docroot := bs "/nowhere" |}; {| m_prefix := bs "/"; m_docroot := bs "/srv/public" |}].
Lemma static_pins_are_exact_witness :
  exists pin, build_prod_pin_set demo_dir demo_mounts = Ok pin /\ is_static_candidate (Some pin) (bs "/packs/app.js") = true /\ is_static_candidate (Some pin) (bs "/assetsfoo") = false.
Proof.
  assert (is_ok (build_prod_pin_set demo_dir demo_mounts) = true) as O by (vm_compute; reflexivity).
  destruct (build_prod_pin_set demo_dir demo_mounts) as [pin|] eqn:E; [|discriminate]. exists pin. split; [reflexivity|]. split.
  - apply (static_pins_are_exact demo_dir demo_mounts pin _ E). right. exists {| m_prefix := bs "/"; m_docroot := bs "/srv/public" |}. split; [cbn; tauto|].
    right. exists [Name (bs "favicon.ico"); OtherName; Name (bs "packs")]. split; [reflexivity | cbn; tauto].
  - apply not_true_is_false. intros K. apply (static_pins_are_exact demo_dir demo_mounts pin _ E) in K as [K|(m & [<-|[<-|[]]] & K)]; [vm_compute in K; discriminate | vm_compute in K; discriminate |].
    destruct K as [K|(es & Rd & K)]; [vm_compute in K; discriminate|]. injection Rd as <-. cbn [In] in K. destruct K as [K|[K|[K|[]]]]; vm_compute in K; discriminate.
Defined.
