(* ===== verification/AcmeChallenge.v ===== *)
(** * AcmeChallenge: answering the authority's challenge, and what may be issued

    Model of [crates/oxo-pingora-edge/src/acme/challenge.rs] (the HTTP-01 store, the request
    parser, the reply of one connection, the check of a domain name) and of
    [AcmeIssueConfig::from_edge_cli] and [validate_directory_url_policy] of
    [acme/issue.rs]. *)

From stdpp Require Import gmap.
From S2P Require Import Prelude Text LineText IpText EdgeCli ServiceConf FsChecks AcmeState EdgeConf.

(** ** Domain names *)

Definition trim_dots (s : bytes) : bytes := trim_end_by (fun b => bz b =? 46) s.
Inductive name_error : Type := NameLength | NameKind | NameLabels | NameLabel.
Definition validate_single_ascii_fqdn (value : bytes) : result name_error bytes :=
  let fqdn := to_ascii_lowercase (trim_dots (trim value)) in
  if (length fqdn =? 0)%nat || (zlen fqdn >? 253) then Err NameLength
  else if negb (forallb (fun b => bz b <? 128) fqdn) || starts_with (bs "*.") fqdn || is_some (parse_ip fqdn) then Err NameKind
  else
    let labels := split_byte (zb 46) fqdn in
    if (length labels <? 2)%nat then Err NameLabels
    else if forallb label_ok labels then Ok fqdn else Err NameLabel.
Definition host_matches_fqdn (host fqdn : bytes) : bool :=
  let host := to_ascii_lowercase (trim_dots host) in
  let fqdn := to_ascii_lowercase (trim_dots fqdn) in
  eq_bytes host fqdn ||
  match strip_prefix (fqdn ++ bs ":") host with
  | Some port => negb (length port =? 0)%nat && forallb is_ascii_digit port
  | None => false
  end.

(** ** The challenge store *)

Definition valid_http01_token (token : bytes) : bool :=
  negb (length token =? 0)%nat && (zlen token <=? 256) && forallb (fun b => is_ascii_alphanumeric b || (bz b =? 45) || (bz b =? 95)) token.
Abbreviation store := (gmap bytes bytes).
Definition provision (st : store) (token key_authorization : bytes) : result AcmeError store :=
  if negb (valid_http01_token token) then Err (InvalidChallenge (bs "HTTP-01 token must use non-empty base64url token grammar without padding"))
  else if (length key_authorization =? 0)%nat || existsb (fun b => (bz b =? 13) || (bz b =? 10) || (bz b =? 0)) key_authorization
  then Err (InvalidChallenge (bs "key authorization must be a single non-empty line"))
  else Ok (<[token := key_authorization]> st).
Definition answer (st : store) (token : bytes) : result AcmeError (option bytes) :=
  if valid_http01_token token then Ok (st !! token)
  else Err (InvalidChallenge (bs "HTTP-01 token must use non-empty base64url token grammar without padding")).

(** ** One connection *)

Definition HTTP01_PREFIX : bytes := bs "/.well-known/acme-challenge/".
Inductive Http01RequestError : Type := BadMethod | BadHost | BadPath | Malformed.
Definition host_value (ls : list bytes) : option bytes :=
  match List.find (fun p => eq_ignore_case (fst p) (bs "host")) (omap (split_once (zb 58)) ls) with
  | Some p => Some (trim (snd p))
  | None => None
  end.
Definition parse_http01_request (request fqdn : bytes) : result Http01RequestError bytes :=
  match lines request with
  | [] => Err Malformed
  | request_line :: rest =>
      match split_whitespace request_line with
      | [method; target; version] =>
          if negb (eq_bytes version (bs "HTTP/1.1")) then Err Malformed
          else if negb (eq_bytes method (bs "GET")) then Err BadMethod
          else
            let? host := ok_or (host_value rest) BadHost in
            if negb (host_matches_fqdn host fqdn) then Err BadHost
            else
              let? token := ok_or (strip_prefix HTTP01_PREFIX target) BadPath in
              if contains_byte (zb 63) token || contains_byte (zb 47) token || negb (valid_http01_token token) then Err BadPath else Ok token
      | _ => Err Malformed
      end
  end.
Definition http01_reply (request fqdn : bytes) (st : store) : bytes * bytes :=
  match parse_http01_request request fqdn with
  | Ok token => match answer st token with
                | Ok (Some a) => (bs "200 OK", a)
                | Ok None => (bs "404 Not Found", bs "not found" ++ [zb 10])
                | Err _ => (bs "400 Bad Request", bs "bad request" ++ [zb 10])
                end
  | Err BadMethod => (bs "405 Method Not Allowed", bs "method not allowed" ++ [zb 10])
  | Err BadHost => (bs "403 Forbidden", bs "forbidden" ++ [zb 10])
  | Err BadPath => (bs "404 Not Found", bs "not found" ++ [zb 10])
  | Err Malformed => (bs "400 Bad Request", bs "bad request" ++ [zb 10])
  end.
Definition eol : bytes := [zb 13; zb 10].
Definition http01_response (status body : bytes) : bytes :=
  bs "HTTP/1.1 " ++ status ++ eol ++ bs "Content-Type: text/plain" ++ eol ++ bs "Content-Length: " ++ show_uint (zlen body) ++ eol ++
  bs "Connection: close" ++ eol ++ eol ++ body.
(** [handle_http01_connection]: [first] is what the one [read] of up to 4096 bytes returned. *)
Definition handle_http01_connection (first fqdn : bytes) (st : store) : option bytes :=
  match first with
  | [] => None
  | _ => let '(status, body) := http01_reply (to_text first) fqdn st in Some (http01_response status body)
  end.

(** ** The challenge server *)

(** [Http01ChallengeStore::clear] *)
Definition clear (st : store) : store := ∅.
(** What one turn of the server's thread sees: the stop flag, and then what [accept] gives: a
    connection with its first read and the store at that moment, nothing yet, or an error. *)
Inductive accept_result : Type := Connection (first : bytes) (st : store) | WouldBlock | AcceptFails.
Fixpoint challenge_loop (fqdn : bytes) (turns : list (bool * accept_result)) : list (option bytes) :=
  match turns with
  | [] => []
  | (true, _) :: _ => []
  | (false, Connection first st) :: turns' => handle_http01_connection first fqdn st :: challenge_loop fqdn turns'
  | (false, WouldBlock) :: turns' => challenge_loop fqdn turns'
  | (false, AcceptFails) :: _ => []
  end.
(** [Http01ChallengeServer::start], up to its thread: [binds] is the outcome of the four calls. *)
Definition challenge_server (name : bytes) (binds : result AcmeError unit) (turns : list (bool * accept_result)) : result (name_error + AcmeError) (list (option bytes)) :=
  match validate_single_ascii_fqdn name with
  | Err e => Err (inl e)
  | Ok host => match binds with Err e => Err (inr e) | Ok _ => Ok (challenge_loop host turns) end
  end.

(** ** What may be issued *)

Definition PRODUCTION : bytes := bs "https://acme-v02.api.letsencrypt.org/directory".
Definition STAGING : bytes := bs "https://acme-staging-v02.api.letsencrypt.org/directory".
Fixpoint first_prefix (ps : list bytes) (url : bytes) : option bytes :=
  match ps with [] => None | p :: ps' => match strip_prefix p url with Some r => Some r | None => first_prefix ps' url end end.
Definition is_loopback_http_directory (url : bytes) : bool :=
  match first_prefix [bs "http://127.0.0.1"; bs "http://[::1]"] url with
  | Some rest => (length rest =? 0)%nat || starts_with (bs "/") rest || starts_with (bs ":") rest
  | None => false
  end.
Definition validate_directory_url_policy (url : bytes) (allow_production : bool) : bool :=
  if eq_bytes (trim_slashes url) PRODUCTION then allow_production
  else starts_with (bs "https://") url || is_loopback_http_directory url.

Record AcmeIssueConfig : Type := {
  ic_fqdn : bytes; ic_http_bind : SocketAddr; ic_state_dir : bytes; ic_directory_url : bytes; ic_contacts : list bytes;
  ic_terms_of_service_agreed : bool }.
Section Issue.
Variable getenv : string -> option bytes.
(** The lenient readers of this file: what cannot be read counts as unset. *)
Definition lenient (name : string) : option bytes := match getenv name with Some v => if utf8 v then Some v else None | None => None end.
Definition lenient_string (name : string) : option bytes := match lenient name with Some v => if is_empty (trim v) then None else Some v | None => None end.
Definition lenient_socket (name : string) : option SocketAddr := match lenient name with Some v => parse_socket_addr (trim v) | None => None end.
Definition lenient_bool (name : string) : option bool := match lenient name with Some v => parse_bool (trim v) | None => None end.

Definition production_consent (cli : EdgeCliConfig) : bool :=
  bool_decide (acme_allow_production_directory ∈ switches cli) || unwrap_or false (lenient_bool "OXO_EDGE_ACME_ALLOW_PRODUCTION_DIRECTORY").
Definition from_edge_cli (cli : EdgeCliConfig) : result EdgeError AcmeIssueConfig :=
  let? name := ok_or (or_else (texts cli !! fqdn) (lenient_string "OXO_EDGE_SERVER_NAME")) (ConfigEnv "OXO_EDGE_SERVER_NAME") in
  let? name := map_err (fun _ => ConfigEnv "OXO_EDGE_SERVER_NAME") (validate_single_ascii_fqdn name) in
  if is_some (binds cli !! https_bind) then Err (ConfigEnv "argv")
  else
  let? bind := ok_or (or_else (binds cli !! http_bind) (lenient_socket "OXO_EDGE_BIND")) (ConfigEnv "OXO_EDGE_BIND") in
  let? dir := ok_or (or_else (paths cli !! acme_state_path) (optional_path getenv "OXO_EDGE_ACME_STATE_PATH")) (ConfigEnv "OXO_EDGE_ACME_STATE_PATH") in
  if negb (is_absolute dir) then Err (ConfigEnv "OXO_EDGE_ACME_STATE_PATH")
  else
  let url := unwrap_or STAGING (or_else (texts cli !! acme_directory_url) (lenient_string "OXO_EDGE_ACME_DIRECTORY_URL")) in
  let allow_production := production_consent cli in
  if negb (validate_directory_url_policy url allow_production) then Err (ConfigEnv "OXO_EDGE_ACME_DIRECTORY_URL")
  else if allow_production && negb (eq_bytes (trim_slashes url) PRODUCTION) then Err (ConfigEnv "OXO_EDGE_ACME_ALLOW_PRODUCTION_DIRECTORY")
  else if allow_production && is_loopback (sa_ip bind) then Err (ConfigEnv "OXO_EDGE_ACME_ALLOW_PRODUCTION_DIRECTORY")
  else
  let contacts := match repeated_of (lists cli) acme_contacts with
                  | [] => match lenient_string "OXO_EDGE_ACME_CONTACTS" with Some v => list_items (zb 44) v | None => [] end
                  | l => l
                  end in
  let agreed := bool_decide (acme_accept_terms ∈ switches cli) || unwrap_or false (lenient_bool "OXO_EDGE_ACME_ACCEPT_TERMS") in
  if negb (forallb (fun c => negb (is_empty (trim c)) && negb (existsb is_ctl c)) contacts) then Err (ConfigEnv "OXO_EDGE_ACME_CONTACTS")
  else if negb agreed then Err (ConfigEnv "OXO_EDGE_ACME_ACCEPT_TERMS")
  else Ok {| ic_fqdn := name; ic_http_bind := bind; ic_state_dir := dir; ic_directory_url := url; ic_contacts := contacts; ic_terms_of_service_agreed := agreed |}.
End Issue.

(** ** Names *)

Lemma split_byte_bytes c (P : byte -> bool) s :
  P c = true -> forallb (forallb P) (split_byte c s) = true -> forallb P s = true.
Proof.
  intros Pc. induction s as [|x s IH]; cbn [split_byte]; [reflexivity|]. destruct (decide (x = c)) as [->|Ne].
  - cbn [forallb andb]. intros H. rewrite Pc, IH by exact H. reflexivity.
  - destruct (split_byte c s) as [|p ps]; cbn [forallb]; intros H; apply andb_true_iff in H as [[Hx Hp]%andb_true_iff Hps];
      rewrite Hx; apply IH; cbn [forallb]; rewrite ?Hp, ?Hps; reflexivity.
Qed.
Lemma trim_end_by_keeps f s : match rev s with [] => True | b :: _ => f b = false end -> trim_end_by f s = s.
Proof.
  unfold trim_end_by. intros H. destruct (rev s) as [|b r] eqn:E; cbn [trim_start_by]; [|rewrite H]; rewrite <- E; apply rev_involutive.
Qed.
Lemma trim_end_by_last f s : match rev (trim_end_by f s) with [] => True | b :: _ => f b = false end.
Proof.
  unfold trim_end_by. rewrite rev_involutive. induction (rev s) as [|b r IH]; cbn [trim_start_by]; [exact I|].
  destruct (f b) eqn:F; [exact IH | exact F].
Qed.
Lemma lower_byte_dot b : (bz (lower_byte b) =? 46) = (bz b =? 46).
Proof. unfold lower_byte, is_ascii_upper, in_range. destruct (_ && _) eqn:E; [|reflexivity]. rewrite bz_zb; lia. Qed.
Lemma lower_byte_twice b : lower_byte (lower_byte b) = lower_byte b.
Proof.
  unfold lower_byte at 2 3. destruct (is_ascii_upper b) eqn:E; unfold lower_byte; [|rewrite E; reflexivity].
  unfold is_ascii_upper, in_range in *. rewrite bz_zb by lia. replace (_ && _) with false by lia. reflexivity.
Qed.
Lemma lowercase_twice s : to_ascii_lowercase (to_ascii_lowercase s) = to_ascii_lowercase s.
Proof. unfold to_ascii_lowercase. rewrite map_map. apply map_ext, lower_byte_twice. Qed.
Lemma lowercase_ends_without_dot s : trim_dots (to_ascii_lowercase (trim_dots s)) = to_ascii_lowercase (trim_dots s).
Proof.
  apply trim_end_by_keeps. unfold to_ascii_lowercase. rewrite <- map_rev.
  pose proof (trim_end_by_last (fun b => bz b =? 46) s) as H. fold (trim_dots s) in H.
  destruct (rev (trim_dots s)); cbn [map]; [exact I | rewrite lower_byte_dot; exact H].
Qed.

Definition name_byte (b : byte) : bool := is_ascii_alphanumeric b || (bz b =? 45) || (bz b =? 46).
Lemma name_byte_graphic b : name_byte b = true -> graphic b = true.
Proof. unfold name_byte, is_ascii_alphanumeric, is_ascii_alphabetic, is_ascii_upper, is_ascii_lower, is_ascii_digit, graphic, in_range. lia. Qed.
Lemma labels_bytes s : forallb label_ok (split_byte (zb 46) s) = true -> forallb name_byte s = true.
Proof.
  intros H. apply (split_byte_bytes (zb 46)); [reflexivity|]. revert H. apply forallb_weaken. intros l. unfold label_ok.
  rewrite !andb_true_iff. intros [_ H]. revert H. apply forallb_weaken. intros b. unfold name_byte. intros ->. reflexivity.
Qed.
(** What a validated name is. *)
Lemma validated_name v f :
  validate_single_ascii_fqdn v = Ok f ->
  f <> [] /\ zlen f <= 253 /\ trim_dots f = f /\ to_ascii_lowercase f = f /\ parse_ip f = None /\ starts_with (bs "*.") f = false /\
  (2 <= length (split_byte (zb 46) f))%nat /\ forallb label_ok (split_byte (zb 46) f) = true.
Proof.
  unfold validate_single_ascii_fqdn. set (n := to_ascii_lowercase _).
  assert (trim_dots n = n /\ to_ascii_lowercase n = n) as [D L] by (split; [apply lowercase_ends_without_dot | apply lowercase_twice]).
  clearbody n. destruct (_ || (zlen n >? 253)) eqn:E1; [discriminate|]. destruct (_ || is_some (parse_ip n)) eqn:E2; [discriminate|].
  destruct (_ <? 2)%nat eqn:E3; [discriminate|]. destruct (forallb label_ok _) eqn:E4; [|discriminate]. intros [= <-].
  apply orb_false_iff in E1 as [E1 E1']. apply orb_false_iff in E2 as [E2 E2']. apply orb_false_iff in E2 as [_ E2].
  repeat split; auto; [intros -> | | | ]; [discriminate | lia | destruct (parse_ip n); [discriminate | reflexivity] | apply Nat.ltb_ge in E3; lia].
Qed.
Lemma name_bytes v f : validate_single_ascii_fqdn v = Ok f -> forallb name_byte f = true.
Proof. intros H. apply validated_name in H. apply labels_bytes, H. Qed.
Lemma name_ascii s : forallb name_byte s = true -> forallb (fun b => bz b <? 128) s = true.
Proof. apply forallb_weaken. intros b H%name_byte_graphic. unfold graphic, in_range in H. lia. Qed.
Lemma validated_name_stays v f : validate_single_ascii_fqdn v = Ok f -> validate_single_ascii_fqdn f = Ok f /\ is_single_ascii_fqdn f = true.
Proof.
  intros H. pose proof (name_bytes v f H) as B. apply validated_name in H as (Ne & Len & D & L & P & W & N & Ls).
  pose proof (name_ascii f B) as A. assert (Nat.eqb (length f) 0 = false) as Z by (destruct f; [contradiction | reflexivity]).
  assert ((zlen f >? 253) = false) as Z' by lia. split.
  - unfold validate_single_ascii_fqdn. rewrite trim_graphics by (revert B; apply forallb_weaken, name_byte_graphic).
    rewrite D, L, A, P, W, Ls, Z, Z'. cbn [negb orb is_some]. destruct (_ <? 2)%nat eqn:E; [apply Nat.ltb_lt in E; lia | reflexivity].
  - unfold is_single_ascii_fqdn. fold (trim_dots f). rewrite D, A, Z, Z', Ls.
    rewrite !(no_byte_outside name_byte) by (reflexivity || exact B). cbn [negb orb andb]. apply Nat.leb_le. lia.
Qed.

(** Decimal octets are labels. *)
Definition octet_ok (k : nat) : bool := let l := show_uint (Z.of_nat k) in label_ok l && (zlen l <=? 3) && negb (contains_byte (zb 46) l) && forallb is_ascii_digit l.
Lemma octets_ok : forallb octet_ok (seq 0 256) = true.
Proof. vm_compute. reflexivity. Qed.
Lemma octet_label n :
  0 <= n <= 255 -> label_ok (show_uint n) = true /\ zlen (show_uint n) <= 3 /\ contains_byte (zb 46) (show_uint n) = false /\ forallb is_ascii_digit (show_uint n) = true.
Proof.
  intros H. pose proof octets_ok as A. rewrite forallb_forall in A. specialize (A (Z.to_nat n)).
  unfold octet_ok in A. rewrite Z2Nat.id, !andb_true_iff, negb_true_iff in A by lia. assert (In (Z.to_nat n) (seq 0 256)) as I by (apply in_seq; lia).
  apply A in I. repeat split; try apply I. lia.
Qed.
Definition octets (n : Z) : list Z := [n / 16777216; n / 65536 mod 256; n / 256 mod 256; n mod 256].
Lemma octets_range n : 0 <= n < 2 ^ 32 -> forall o, In o (octets n) -> 0 <= o <= 255.
Proof.
  intros H. pose proof (Z.mod_pos_bound (n / 65536) 256 ltac:(lia)). pose proof (Z.mod_pos_bound (n / 256) 256 ltac:(lia)). pose proof (Z.mod_pos_bound n 256 ltac:(lia)).
  assert (0 <= n / 16777216 <= 255) by (split; [apply Z.div_pos; lia | apply Z.lt_succ_r, Z.div_lt_upper_bound; lia]).
  intros o [<-|[<-|[<-|[<-|[]]]]]; lia.
Qed.
(** The text of an address: four labels, of digits. *)
Section Octets.
Context (n : Z) (Hn : 0 <= n < 2 ^ 32).
Lemma show_v4_labels : split_byte (zb 46) (show_v4 n) = map show_uint (octets n).
Proof.
  pose proof (octets_range n Hn) as R. unfold show_v4, dot. rewrite !split_byte_piece by (apply octet_label, R; cbn; tauto).
  rewrite split_byte_last by (apply octet_label, R; cbn; tauto). reflexivity.
Qed.
Lemma show_v4_labels_ok : forallb label_ok (split_byte (zb 46) (show_v4 n)) = true.
Proof.
  rewrite show_v4_labels, forallb_forall. intros l I. apply in_map_iff in I as (o & <- & I). apply octet_label, (octets_range n Hn o I).
Qed.
Lemma show_v4_length : 0 < zlen (show_v4 n) <= 253.
Proof.
  pose proof (fun o I => proj1 (proj2 (octet_label o (octets_range n Hn o I)))) as L. unfold show_v4. rewrite !zlen_app. change (zlen [dot]) with 1.
  pose proof (L _ (or_introl eq_refl)). pose proof (L _ (or_intror (or_introl eq_refl))). pose proof (L _ (or_intror (or_intror (or_introl eq_refl)))).
  pose proof (L _ (or_intror (or_intror (or_intror (or_introl eq_refl))))).
  pose proof (zlen_nonneg (show_uint (n / 16777216))). pose proof (zlen_nonneg (show_uint (n / 65536 mod 256))).
  pose proof (zlen_nonneg (show_uint (n / 256 mod 256))). pose proof (zlen_nonneg (show_uint (n mod 256))). lia.
Qed.
Lemma show_v4_bytes : forallb (fun b => is_ascii_digit b || (bz b =? 46)) (show_v4 n) = true.
Proof.
  apply (split_byte_bytes (zb 46)); [reflexivity|]. rewrite show_v4_labels, forallb_forall. intros l I. apply in_map_iff in I as (o & <- & I).
  apply octets_range, octet_label in I as (_ & _ & _ & D); [|exact Hn]. revert D. apply forallb_weaken. intros b ->. reflexivity.
Qed.
Lemma show_v4_last : trim_dots (show_v4 n) = show_v4 n.
Proof.
  apply trim_end_by_keeps. unfold show_v4. rewrite !rev_app_distr. pose proof (octets_range n Hn (n mod 256) ltac:(cbn; tauto)) as R.
  apply octet_label in R as (_ & _ & _ & D). pose proof (show_uint_nonempty (n mod 256)) as Ne.
  destruct (rev (show_uint (n mod 256))) as [|b r] eqn:E; cbn [app].
  - apply (f_equal (@rev byte)) in E. rewrite rev_involutive in E. contradiction.
  - rewrite forallb_forall in D. specialize (D b). rewrite in_rev, E in D. unfold is_ascii_digit, in_range in D. specialize (D (or_introl eq_refl)). lia.
Qed.
Lemma show_v4_lower : to_ascii_lowercase (show_v4 n) = show_v4 n.
Proof.
  unfold to_ascii_lowercase. rewrite <- (map_id (show_v4 n)) at 2. apply map_ext_in. intros b I. pose proof show_v4_bytes as B.
  rewrite forallb_forall in B. specialize (B b I). unfold lower_byte, is_ascii_upper, is_ascii_digit, in_range in *. replace (_ && _) with false by lia. reflexivity.
Qed.
Lemma show_v4_is_a_name : is_single_ascii_fqdn (show_v4 n) = true /\ validate_single_ascii_fqdn (show_v4 n) = Err NameKind.
Proof.
  pose proof show_v4_labels_ok as Ls. pose proof (labels_bytes _ Ls) as B. pose proof (name_ascii _ B) as A. pose proof show_v4_length as Len.
  assert (Nat.eqb (length (show_v4 n)) 0 = false /\ (zlen (show_v4 n) >? 253) = false) as [Z Z'] by (unfold zlen in *; split; [apply Nat.eqb_neq; lia | lia]).
  split.
  - unfold is_single_ascii_fqdn. fold (trim_dots (show_v4 n)). rewrite show_v4_last, A, Z, Z', Ls, show_v4_labels, !(no_byte_outside name_byte) by (reflexivity || exact B). reflexivity.
  - unfold validate_single_ascii_fqdn. rewrite trim_graphics by (revert B; apply forallb_weaken, name_byte_graphic).
    pose proof (parse_show_ip (V4 n) Hn) as P. cbn [show_ip] in P. rewrite show_v4_last, show_v4_lower, A, Z, Z', P, !orb_true_r. reflexivity.
Qed.
End Octets.

(** Two checks of one name.  What the ACME check returns is a fixed point of it and passes
    the public listener's check too, and is no address.  The converse fails on every IPv4
    address: the public listener's check takes each as a host name, although its message
    promises to refuse IP literals, and the ACME check refuses it. *)
Theorem server_name_checks_differ_on_addresses :
  (forall v f, validate_single_ascii_fqdn v = Ok f ->
     validate_single_ascii_fqdn f = Ok f /\ is_single_ascii_fqdn f = true /\ parse_ip f = None) /\
  (forall n, 0 <= n < 2 ^ 32 ->
     is_single_ascii_fqdn (show_v4 n) = true /\ validate_single_ascii_fqdn (show_v4 n) = Err NameKind).
Proof.
  split; [|exact show_v4_is_a_name]. intros v f H. destruct (validated_name_stays v f H) as [S I]. split; [exact S|]. split; [exact I|].
  apply validated_name in H. apply H.
Qed.

(** ** The request of the authority *)

(** Lines that end in CR LF. *)
Lemma strip_cr_end l : strip_cr (l ++ [zb 13]) = l.
Proof. unfold strip_cr. rewrite rev_app_distr. cbn [rev app]. rewrite bz_zb by lia. cbn. apply rev_involutive. Qed.
Lemma request_lines a b :
  contains_byte (zb 10) a = false -> contains_byte (zb 10) b = false -> lines (a ++ eol ++ b ++ eol ++ eol) = [a; b; []].
Proof.
  intros Ha Hb. unfold lines, eol. replace (a ++ _) with ((a ++ [zb 13]) ++ [zb 10] ++ (b ++ [zb 13]) ++ [zb 10] ++ [zb 13] ++ [zb 10] ++ [])
    by (rewrite <- !app_assoc; reflexivity).
  rewrite !split_byte_piece by (rewrite ?contains_byte_app, ?Ha, ?Hb; reflexivity). cbn [split_byte rev app map].
  rewrite !strip_cr_end. reflexivity.
Qed.

Definition token_byte (b : byte) : bool := is_ascii_alphanumeric b || (bz b =? 45) || (bz b =? 95).
Lemma http01_token_bytes t : valid_http01_token t = true -> t <> [] /\ forallb token_byte t = true.
Proof. unfold valid_http01_token. rewrite !andb_true_iff. intros [[H _] H']. split; [intros ->; discriminate | exact H']. Qed.
Lemma token_byte_graphic b : token_byte b = true -> graphic b = true.
Proof. unfold token_byte, is_ascii_alphanumeric, is_ascii_alphabetic, is_ascii_upper, is_ascii_lower, is_ascii_digit, graphic, in_range. lia. Qed.

Lemma printable_words w s :
  forallb graphic w = true -> forallb (fun b => graphic b || (bz b =? 32)) s = true -> forallb (fun b => graphic b || (bz b =? 32)) (w ++ zb 32 :: s) = true.
Proof.
  intros Hw Hs. rewrite forallb_app. cbn [forallb]. rewrite Hs. replace (forallb _ w) with true; [reflexivity|].
  symmetry. revert Hw. apply forallb_weaken. intros b ->. reflexivity.
Qed.

(** What the authority sends for a token. *)
Definition challenge_request (token host : bytes) : bytes :=
  (bs "GET" ++ zb 32 :: (HTTP01_PREFIX ++ token) ++ zb 32 :: bs "HTTP/1.1") ++ eol ++ (bs "Host" ++ [zb 58] ++ zb 32 :: host) ++ eol ++ eol.
Lemma challenge_request_parses v fqdn token :
  validate_single_ascii_fqdn v = Ok fqdn -> valid_http01_token token = true -> parse_http01_request (challenge_request token fqdn) fqdn = Ok token.
Proof.
  intros N T. pose proof (name_bytes v fqdn N) as B. destruct (http01_token_bytes token T) as [Nt Bt].
  assert (forallb graphic fqdn = true) as Gf by (revert B; apply forallb_weaken, name_byte_graphic).
  assert (forallb graphic token = true) as Gt by (revert Bt; apply forallb_weaken, token_byte_graphic).
  unfold parse_http01_request, challenge_request. rewrite request_lines.
  - rewrite three_words by (discriminate || reflexivity || (rewrite forallb_app, Gt; reflexivity)).
    assert (host_value [bs "Host" ++ [zb 58] ++ zb 32 :: fqdn; []] = Some fqdn) as ->.
    { unfold host_value. cbn [omap list_omap]. rewrite split_once_app by reflexivity. cbn [split_once]. cbn [List.find fst].
      assert (eq_ignore_case (bs "Host") (bs "host") = true) as -> by reflexivity. cbn [snd]. f_equal.
      unfold trim, trim_start. cbn [length strip_many]. assert (strip_one ws_fwd (zb 32 :: fqdn) = Some fqdn) as -> by reflexivity.
      fold (trim_start fqdn). fold (trim fqdn). apply trim_graphics, Gf. }
    assert (host_matches_fqdn fqdn fqdn = true) as M by (unfold host_matches_fqdn; apply orb_true_iff; left; apply eq_bytes_true; reflexivity).
    cbn [ok_or rbind]. rewrite M, strip_prefix_app. cbn [ok_or rbind negb].
    rewrite T, !(no_byte_outside token_byte) by (reflexivity || exact Bt). reflexivity.
  - apply (no_byte_outside (fun b => graphic b || (bz b =? 32))); [reflexivity|]. apply printable_words; [reflexivity|].
    apply printable_words; [rewrite forallb_app, Gt; reflexivity | reflexivity].
  - apply (no_byte_outside (fun b => graphic b || (bz b =? 32))); [reflexivity|]. apply (printable_words (bs "Host" ++ [zb 58])); [reflexivity|].
    revert Gf. apply forallb_weaken. intros b ->. reflexivity.
Qed.

Lemma challenge_request_ascii v fqdn token :
  validate_single_ascii_fqdn v = Ok fqdn -> valid_http01_token token = true ->
  forallb (fun b => bz b <? 128) (challenge_request token fqdn) = true /\ zlen (challenge_request token fqdn) <= 4096.
Proof.
  intros N T. pose proof (name_ascii _ (name_bytes v fqdn N)) as Af. apply validated_name in N as (_ & Len & _). pose proof T as T'.
  apply http01_token_bytes in T as [_ Bt]. unfold valid_http01_token in T'. rewrite !andb_true_iff in T'.
  assert (forallb (fun b => bz b <? 128) token = true) as At.
  { revert Bt. apply forallb_weaken. intros b H%token_byte_graphic. unfold graphic, in_range in H. lia. }
  unfold challenge_request. split.
  - rewrite !forallb_app. cbn [forallb]. rewrite !forallb_app. cbn [forallb]. rewrite At, Af. reflexivity.
  - repeat (rewrite zlen_app || rewrite zlen_cons). change (zlen (bs "GET")) with 3. change (zlen HTTP01_PREFIX) with 28. change (zlen (bs "HTTP/1.1")) with 8.
    change (zlen eol) with 2. change (zlen (bs "Host")) with 4. rewrite zlen_nil. lia.
Qed.
Lemma parse_http01_exact request fqdn token :
  parse_http01_request request fqdn = Ok token <->
  exists line rest host, lines request = line :: rest /\ split_whitespace line = [bs "GET"; HTTP01_PREFIX ++ token; bs "HTTP/1.1"] /\
    host_value rest = Some host /\ host_matches_fqdn host fqdn = true /\ valid_http01_token token = true.
Proof.
  unfold parse_http01_request. split.
  - destruct (lines request) as [|l r]; [discriminate|]. destruct (split_whitespace l) as [|m [|tg [|vs [|]]]] eqn:W; try discriminate.
    destruct (eq_bytes vs _) eqn:Ev; cbn [negb]; [|discriminate]. destruct (eq_bytes m _) eqn:Em; cbn [negb]; [|discriminate].
    destruct (host_value r) as [h|] eqn:H; [|discriminate]. cbn [ok_or rbind]. destruct (host_matches_fqdn h fqdn) eqn:M; [|discriminate].
    destruct (strip_prefix _ tg) as [u|] eqn:P; [|discriminate]. cbn [ok_or rbind negb]. destruct (_ || negb (valid_http01_token u)) eqn:V; [discriminate|].
    intros [= <-]. apply eq_bytes_true in Ev as ->. apply eq_bytes_true in Em as ->. apply strip_prefix_some in P as ->.
    apply orb_false_iff in V as [_ V]. apply negb_false_iff in V. exists l, r, h. auto.
  - intros (l & r & h & -> & -> & -> & M & V). destruct (http01_token_bytes token V) as [_ B].
    cbn [ok_or rbind]. rewrite M, strip_prefix_app. cbn [ok_or rbind negb]. rewrite V, !(no_byte_outside token_byte) by (reflexivity || exact B). reflexivity.
Qed.
Lemma reply_is_served request fqdn st body :
  http01_reply request fqdn st = (bs "200 OK", body) <-> exists token, parse_http01_request request fqdn = Ok token /\ st !! token = Some body.
Proof.
  unfold http01_reply. split.
  - destruct (parse_http01_request request fqdn) as [t|[]]; try (intros [=]; fail).
    unfold answer. destruct (valid_http01_token t); [|intros [=]]. destruct (st !! t) as [a|] eqn:E; [|intros [=]]. intros [= <-]. eauto.
  - intros (t & P & E). rewrite P. unfold answer. assert (valid_http01_token t = true) as ->; [|rewrite E; reflexivity].
    apply parse_http01_exact in P as (? & ? & ? & _ & _ & _ & _ & V). exact V.
Qed.

(** C24. The challenge is answered, and nothing else is.  After [provision] the request the
    authority sends for the token and the checked name fits the one read of 4096 bytes and is
    answered 200 with exactly the key authorization; and a request is answered 200 exactly
    when it is a GET with HTTP/1.1 of the challenge path of a well-formed token that is
    provisioned, naming the host, with the body provisioned for it. *)
Theorem provisioned_challenge_is_answered st token key st' v fqdn :
  provision st token key = Ok st' -> validate_single_ascii_fqdn v = Ok fqdn ->
  zlen (challenge_request token fqdn) <= 4096 /\
  handle_http01_connection (challenge_request token fqdn) fqdn st' = Some (http01_response (bs "200 OK") key) /\
  forall request body, http01_reply request fqdn st' = (bs "200 OK", body) <->
    exists line rest host t, lines request = line :: rest /\ split_whitespace line = [bs "GET"; HTTP01_PREFIX ++ t; bs "HTTP/1.1"] /\
      host_value rest = Some host /\ host_matches_fqdn host fqdn = true /\ valid_http01_token t = true /\ st' !! t = Some body.
Proof.
  unfold provision. destruct (valid_http01_token token) eqn:T; cbn [negb]; [|discriminate]. destruct (_ || existsb _ key); [discriminate|]. intros [= <-] N.
  destruct (challenge_request_ascii v fqdn token N T) as [A L]. split; [exact L|]. split.
  - unfold handle_http01_connection. rewrite to_text_ascii by exact A.
    assert (http01_reply (challenge_request token fqdn) fqdn (<[token:=key]> st) = (bs "200 OK", key)) as ->; [|reflexivity].
    apply reply_is_served. exists token. split; [exact (challenge_request_parses v fqdn token N T) | apply lookup_insert_eq].
  - intros request body. rewrite reply_is_served. setoid_rewrite parse_http01_exact. split.
    + intros (t & (l & r & h & H) & E). exists l, r, h, t. tauto.
    + intros (l & r & h & t & H). exists t. split; [exists l, r, h|]; tauto.
Qed.
Lemma provisioned_challenge_is_answered_witness :
  handle_http01_connection (challenge_request (bs "tok-EN_1") (bs "app.example.com")) (bs "app.example.com")
    (<[bs "tok-EN_1" := bs "tok-EN_1.thumb"]> ∅) = Some (http01_response (bs "200 OK") (bs "tok-EN_1.thumb")).
Proof.
  apply (provisioned_challenge_is_answered ∅ (bs "tok-EN_1") (bs "tok-EN_1.thumb") _ (bs " App.Example.com. ")); reflexivity.
Defined.

(** ** Issuing *)

Lemma trim_end_by_split f s : exists z, s = trim_end_by f s ++ z.
Proof.
  unfold trim_end_by. assert (forall r, exists z, r = z ++ trim_start_by f r) as T.
  { induction r as [|b r [z E]]; [exists []; reflexivity|]. cbn [trim_start_by]. destruct (f b); [exists (b :: z); cbn; rewrite <- E | exists []]; reflexivity. }
  destruct (T (rev s)) as [z E]. exists (rev z). rewrite <- rev_app_distr, <- E, rev_involutive. reflexivity.
Qed.
Lemma policy_accepts url consent :
  validate_directory_url_policy url consent = true ->
  (trim_slashes url = PRODUCTION -> consent = true) /\ (starts_with (bs "https://") url = true \/ is_loopback_http_directory url = true).
Proof.
  unfold validate_directory_url_policy. destruct (eq_bytes _ _) eqn:E.
  - apply eq_bytes_true in E. intros C. split; [auto | left]. destruct (trim_end_by_split (fun b => bz b =? 47) url) as [z ->].
    fold (trim_slashes url). rewrite E. reflexivity.
  - intros H. apply orb_true_iff in H. split; [|exact H]. intros P. apply eq_bytes_true in P. congruence.
Qed.

(** What issuing needs.  A configuration that [from_edge_cli] accepts names one checked
    host, keeps its state under an absolute path, has the terms accepted, and uses the
    production directory exactly when consent to it was given, then never over a loopback
    listener.  Its directory is an HTTPS URL or passes as a loopback one; the loopback test is
    on a prefix of the text, so a URL whose host is another machine passes it as user
    information. *)
Theorem issuing_needs_consent getenv cli c :
  from_edge_cli getenv cli = Ok c ->
  (validate_single_ascii_fqdn (ic_fqdn c) = Ok (ic_fqdn c) /\ is_absolute (ic_state_dir c) = true /\ ic_terms_of_service_agreed c = true /\
   (production_consent getenv cli = true <-> trim_slashes (ic_directory_url c) = PRODUCTION) /\
   (production_consent getenv cli = true -> is_loopback (sa_ip (ic_http_bind c)) = false) /\
   (starts_with (bs "https://") (ic_directory_url c) = true \/ is_loopback_http_directory (ic_directory_url c) = true) /\
   forallb (fun x => negb (is_empty (trim x)) && negb (existsb is_ctl x)) (ic_contacts c) = true) /\
  is_loopback_http_directory (bs "http://127.0.0.1:x@ca.example/directory") = true.
Proof.
  unfold from_edge_cli. destruct (or_else (texts cli !! fqdn) _) as [n0|]; [|discriminate]. cbn [ok_or rbind].
  destruct (validate_single_ascii_fqdn n0) as [n|] eqn:N; [|discriminate]. cbn [map_err rbind]. destruct (is_some _); [discriminate|].
  destruct (or_else (binds cli !! http_bind) _) as [bind|]; [|discriminate]. cbn [ok_or rbind].
  destruct (or_else (paths cli !! acme_state_path) _) as [dir|]; [|discriminate]. cbn [ok_or rbind].
  destruct (is_absolute dir) eqn:Ab; cbn [negb]; [|discriminate]. set (url := unwrap_or STAGING _). set (consent := production_consent getenv cli).
  destruct (validate_directory_url_policy url consent) eqn:V; cbn [negb]; [|discriminate].
  destruct (consent && negb (eq_bytes (trim_slashes url) PRODUCTION)) eqn:P; [discriminate|].
  destruct (consent && is_loopback (sa_ip bind)) eqn:L; [discriminate|]. set (contacts := match repeated_of _ _ with [] => _ | _ => _ end).
  set (agreed := _ || unwrap_or false (lenient_bool getenv "OXO_EDGE_ACME_ACCEPT_TERMS")).
  destruct (forallb _ contacts) eqn:F; cbn [negb]; [|discriminate]. destruct agreed; cbn [negb]; [|discriminate]. intros [= <-]. cbn.
  apply policy_accepts in V as [V1 V2]. destruct (validated_name_stays n0 n N) as [S _]. split; [|reflexivity].
  repeat split; auto.
  - intros C. rewrite C in P. apply eq_bytes_true. destruct (eq_bytes _ _); [reflexivity | discriminate].
  - intros C. rewrite C in L. exact L.
Qed.
Definition no_settings (_ : string) : option bytes := None.
Definition issue_cli : EdgeCliConfig :=
  match parse_flags [bs "--fqdn=App.example.com"; bs "--http-bind=0.0.0.0:80"; bs "--acme-state-path=/var/lib/oxo"; bs "--acme-accept-terms"] with
  | Ok c => c
  | Err _ => cli_default
  end.
Lemma issuing_needs_consent_witness :
  exists c, from_edge_cli no_settings issue_cli = Ok c /\ ic_terms_of_service_agreed c = true /\
    (production_consent no_settings issue_cli = true <-> trim_slashes (ic_directory_url c) = PRODUCTION).
Proof.
  destruct (from_edge_cli no_settings issue_cli) as [c|e] eqn:E; [|vm_compute in E; discriminate]. exists c. split; [reflexivity|].
  pose proof (issuing_needs_consent no_settings issue_cli c E) as ((_ & _ & T & P & _) & _). exact (conj T P).
Defined.

(** ** The server's thread *)

Definition turns_on (t : bool * accept_result) : bool := negb (fst t) && match snd t with AcceptFails => false | _ => true end.
(** Every connection before the stop is answered on its own, and none after it; the drop of the
    server, which sets the flag, ends the thread at its next turn. *)
Lemma challenge_loop_answers fqdn before t after : forallb turns_on before = true -> turns_on t = false ->
  challenge_loop fqdn (before ++ t :: after) = omap (fun u => match snd u with Connection first st => Some (handle_http01_connection first fqdn st) | _ => None end) before.
Proof.
  intros B T. induction before as [|[[] r] before IH]; cbn [app].
  - destruct t as [[] []]; reflexivity || discriminate.
  - discriminate.
  - cbn in B. apply andb_true_iff in B as [Br B]. destruct r as [first st| |]; cbn [challenge_loop]; [rewrite IH by exact B; reflexivity | apply IH, B | discriminate].
Qed.
(** One failed accept ends the challenge server for good. *)
Corollary challenge_server_ends_with_an_error fqdn before after : forallb turns_on before = true ->
  challenge_loop fqdn (before ++ (false, AcceptFails) :: after) = challenge_loop fqdn before.
Proof.
  intros B. rewrite challenge_loop_answers by (exact B || reflexivity). induction before as [|[[] r] before IH]; cbn; [reflexivity | discriminate|].
  cbn in B. apply andb_true_iff in B as [Br B]. destruct r; cbn; [rewrite IH by exact B; reflexivity | apply IH, B | discriminate].
Qed.
