(* ===== verification/ServiceBoot.v ===== *)
(** * ServiceBoot: the configuration the supervisor starts from

    Model of [ServiceConfig::from_cli], [read_worker_launch], [configured_binary],
    [worker_socket_paths] and [read_acme_renew_config] of
    [crates/oxo-pingora-edge/src/service.rs], and of the commands the supervisor builds for
    its children ([spawn_worker_slot], [spawn_cable], [spawn_grpc], [spawn_edge],
    [spawn_renew_child]).  The readers of single variables are those of [ServiceConf], the
    children's environments those of [Service], the file checks those of [FsChecks].  The
    process environment, the file system and the path of the running executable are
    arguments. *)

From stdpp Require Import gmap.
From S2P Require Import Prelude Text IpText EdgeCli Service ServiceConf FsChecks EdgeConf AcmeChallenge.

(** ** Paths as components *)

(** [Path::components]: whether the path has a root, and its parts.  Empty parts and [.]
    are dropped, but for a [.] that a relative path starts with. *)
Definition components (p : bytes) : bool * list bytes :=
  let parts := split_byte slash p in
  let kept := List.filter (fun s => negb (is_empty s) && negb (eq_bytes s [full_stop])) parts in
  (is_absolute p, match parts with s :: _ => if eq_bytes s [full_stop] then s :: kept else kept | [] => kept end).
(** Equality of paths. *)
Definition path_eq (p q : bytes) : bool := bool_decide (components p = components q).
(** [Path::file_name], [file_stem] and [extension]. *)
Definition file_name (p : bytes) : option bytes :=
  match rev (snd (components p)) with
  | s :: _ => if one_of s ["."; ".."]%string then None else Some s
  | [] => None
  end.
Definition stem_and_extension (name : bytes) : bytes * option bytes :=
  match rsplit_once full_stop name with
  | Some ([], _) | None => (name, None)
  | Some (before, after) => (before, Some after)
  end.
Definition file_stem (p : bytes) : option bytes := (fun n => fst (stem_and_extension n)) <$> file_name p.
Definition extension (p : bytes) : option bytes := match file_name p with Some n => snd (stem_and_extension n) | None => None end.

Example path_examples :
  path_eq (bs "/run//oxo/./w.sock/") (bs "/run/oxo/w.sock") = true /\ path_eq (bs "./w") (bs "w") = false /\
  file_stem (bs "/run/w.a.sock") = Some (bs "w.a") /\ extension (bs "/run/w.a.sock") = Some (bs "sock") /\
  file_stem (bs "/run/.sock") = Some (bs ".sock") /\ extension (bs "/run/.sock") = None /\ file_stem (bs "/run/..") = None.
Proof. vm_compute. repeat split. Qed.

(** ** One socket per worker *)

Definition worker_socket_name (stem : bytes) (ext : option bytes) (id : Z) : bytes :=
  stem ++ bs "-" ++ show_uint id ++
  match ext with Some e => if is_empty e then [] else bs "." ++ e | None => [] end.
Definition socket_stem (base : bytes) : bytes :=
  match file_stem base with Some s => if utf8 s && negb (is_empty s) then s else bs "worker" | None => bs "worker" end.
Definition socket_extension (base : bytes) : option bytes :=
  match extension base with Some e => if utf8 e then Some e else None | None => None end.
Definition worker_socket_paths (base : bytes) (count : Z) : result conf_error (list bytes) :=
  if count =? 1 then Ok [base]
  else let? dir := ok_or (parent base) (ConfInvalid "OXO_WORKER_SOCKET") in
       Ok (map (fun id => join dir (worker_socket_name (socket_stem base) (socket_extension base) (Z.of_nat id))) (seq 0 (Z.to_nat count))).

(** ** The configuration *)

Inductive WorkerLaunch : Type := Classic | Async (bundle_bin ruby_bin script app_root : bytes).
Definition launch_is_async (l : WorkerLaunch) : bool := match l with Async _ _ _ _ => true | Classic => false end.

Record AcmeRenewConfig : Type := { rn_interval : Z; rn_timeout : Z; rn_state_dir : bytes; rn_args : list bytes }.
Record ServiceConfig : Type := {
  sc_worker_bin : option bytes;
  sc_worker_launch : WorkerLaunch;
  sc_worker_ready_timeout : Z;
  sc_worker_respawn_ready_timeout : Z;
  sc_worker_drain_wait : Z;
  sc_edge_bin : bytes;
  sc_worker_socket : bytes;
  sc_worker_sockets : list bytes;
  sc_worker_count : Z;
  sc_edge_bind : SocketAddr;
  sc_check_config : bool;
  sc_cable_bin : option bytes;
  sc_cable_bind : option SocketAddr;
  sc_grpc_bin : option bytes;
  sc_grpc_bind : option SocketAddr;
  sc_drain_grace : Z;
  sc_edge_drain_grace : Z;
  sc_worker_env : env_list;
  sc_edge_env : list (string * bytes);
  sc_edge_args : list bytes;
  sc_cable_env : env_list;
  sc_grpc_env : env_list;
  sc_acme_renew : option AcmeRenewConfig;
}.
Inductive boot_error : Type :=
| BadArgv (e : cli_error)
| BadEnv (e : conf_error)
| BadChildEnv (e : env_error)
| BinaryOverrideDenied (name : string) (path : bytes)
| BadBinary (role : string) (e : binary_error)
| BadRuntimeDir.

Definition DEFAULT_ACME_RENEW_INTERVAL : Z := 6 * 60 * 60 * 1000.
Definition DEFAULT_ACME_RENEW_TIMEOUT : Z := 10 * 60 * 1000.

Section Boot.
(** [env::var_os], [fs::metadata], whether a directory can be created, [env::current_exe],
    and whether the binary was built with the [acme] feature. *)
Variable getenv : bytes -> option bytes.
Variable fstat : bytes -> stat.
Variable creates : bytes -> bool.
Variable current_exe : option bytes.
Variable acme_built : bool.
Local Abbreviation var := (fun name : string => getenv (bs name)).

Definition is_file (p : bytes) : bool := match fstat p with Found Regular _ => true | _ => false end.
Definition is_dir (p : bytes) : bool := match fstat p with Found Dir _ => true | _ => false end.
Definition required_path (name : string) : result boot_error bytes := ok_or (optional_path var name) (BadEnv (ConfMissing name)).
Definition sibling_binary (name : bytes) : bytes :=
  match current_exe with Some exe => match parent exe with Some dir => join dir name | None => name end | None => name end.
Definition check_executable (role : string) (path : bytes) : result boot_error unit := map_err (BadBinary role) (validate_executable fstat path).
Definition configured_binary (env_name sibling_name : string) (allow_override : bool) (role : string) : result boot_error bytes :=
  let? path := match optional_path var env_name with
               | Some path => if allow_override then Ok path else Err (BinaryOverrideDenied env_name path)
               | None => Ok (sibling_binary (bs sibling_name))
               end in
  let? _ := check_executable role path in
  Ok path.

Definition read_async_launch : result boot_error WorkerLaunch :=
  let? script := required_path "OXO_ASYNC_WORKER_SCRIPT" in
  let? _ := check_executable "async-worker-script" script in
  let? bundle_bin := required_path "OXO_ASYNC_BUNDLE_BIN" in
  let? _ := check_executable "async-bundle" bundle_bin in
  let? ruby_bin := required_path "OXO_ASYNC_RUBY_BIN" in
  let? _ := check_executable "async-ruby" ruby_bin in
  let? app_root := required_path "OXO_ASYNC_WORKER_APP_ROOT" in
  if negb (is_absolute app_root) then Err (BadEnv (ConfInvalid "OXO_ASYNC_WORKER_APP_ROOT"))
  else if negb (is_dir app_root) then Err (BadEnv (ConfInvalid "OXO_ASYNC_WORKER_APP_ROOT"))
  else Ok (Async bundle_bin ruby_bin script app_root).
Definition read_worker_launch : result boot_error WorkerLaunch :=
  let? kind := map_err BadEnv (optional_string_env var "OXO_WORKER_KIND") in
  match kind with
  | None => Ok Classic
  | Some k => if eq_bytes k (bs "classic") then Ok Classic
              else if eq_bytes k (bs "async") then read_async_launch
              else Err (BadEnv (ConfInvalid "OXO_WORKER_KIND"))
  end.

(** A sidecar that may be switched on: its binary, its bind and its environment. *)
Record sidecar : Type := { sd_bin : option bytes; sd_bind : option SocketAddr; sd_env : env_list }.
Definition read_sidecar (enabled_var bind_var bin_var sibling role : string) (collect : bytes -> result env_error env_list) (allow : bool) : result boot_error sidecar :=
  let? enabled := map_err BadEnv (env_bool var enabled_var false) in
  if enabled then
    let? raw := map_err BadEnv (required_string var bind_var) in
    let? bind := ok_or (parse_socket_addr raw) (BadEnv (ConfInvalid bind_var)) in
    if negb (is_loopback (sa_ip bind)) then Err (BadEnv (ConfInvalid bind_var))
    else
      let? bin := configured_binary bin_var sibling allow role in
      let? env := map_err BadChildEnv (collect (show_socket_addr bind)) in
      Ok {| sd_bin := Some bin; sd_bind := Some bind; sd_env := env |}
  else Ok {| sd_bin := None; sd_bind := None; sd_env := [] |}.
Definition read_cable (allow : bool) : result boot_error sidecar :=
  read_sidecar "OXO_CABLE_ENABLED" "OXO_CABLE_BIND" "OXO_CABLE_BIN" "oxo-cable" "cable" (collect_cable_env getenv) allow.
Definition read_grpc (allow : bool) : result boot_error sidecar :=
  read_sidecar "OXO_GRPC_ENABLED" "OXO_GRPC_BIND" "OXO_GRPC_BIN" "oxo-grpc" "grpc" (collect_grpc_env getenv) allow.
Definition child_env (launch : WorkerLaunch) (worker_socket : bytes) : result env_error env_list :=
  match launch with
  | Classic => collect_worker_env getenv worker_socket
  | Async _ _ _ app_root => collect_async_worker_env getenv is_file worker_socket (join app_root (bs "Gemfile"))
  end.

(** [renew_args]; the flags in the order the source pushes them. *)
Definition renew_args (state_dir name : bytes) (bind : SocketAddr) (url : option bytes) (contacts : list bytes) (production : bool) : list bytes :=
  [bs "--acme-renew-once"] ++ push_arg "--acme-state-path" state_dir ++ push_arg "--fqdn" name ++
  push_arg "--http-bind" (show_socket_addr bind) ++ [bs "--acme-accept-terms"] ++
  arg_opt "--acme-directory-url" as_is url ++ arg_each "--acme-contact" contacts ++
  (if production then [bs "--acme-allow-production-directory"] else []).
Definition consents (cli : EdgeCliConfig) (f : switch_field) (name : string) : result conf_error bool :=
  if decide (f ∈ switches cli) then Ok true else env_bool var name false.
Definition serves (cli : EdgeCliConfig) (f : path_field) (name : string) (expected : bytes) : bool :=
  match or_else (paths cli !! f) (optional_path var name) with Some p => path_eq p expected | None => false end.
Definition renew_contacts (cli : EdgeCliConfig) : result conf_error (list bytes) :=
  match repeated_of (lists cli) acme_contacts with
  | [] => let? o := optional_string_env var "OXO_EDGE_ACME_CONTACTS" in
          Ok (match o with Some v => list_items (zb 44) v | None => [] end)
  | cs => Ok cs
  end.
Definition read_acme_renew_config (cli : EdgeCliConfig) : result conf_error (option AcmeRenewConfig) :=
  let? on := env_bool var "OXO_SERVICE_ACME_RENEW" false in
  if negb on then Ok None
  else
  let? raw := required_string var "OXO_SERVICE_ACME_HTTP_BIND" in
  let? bind := ok_or (parse_socket_addr raw) (ConfInvalid "OXO_SERVICE_ACME_HTTP_BIND") in
  let? dir := ok_or (or_else (paths cli !! acme_state_path) (optional_path var "OXO_EDGE_ACME_STATE_PATH")) (ConfMissing "OXO_EDGE_ACME_STATE_PATH") in
  let? name := match texts cli !! fqdn with
               | Some n => Ok n
               | None => let? o := optional_string_env var "OXO_EDGE_SERVER_NAME" in ok_or o (ConfMissing "OXO_EDGE_SERVER_NAME")
               end in
  let? accept_terms := consents cli acme_accept_terms "OXO_EDGE_ACME_ACCEPT_TERMS" in
  if negb accept_terms then Err (ConfInvalid "OXO_EDGE_ACME_ACCEPT_TERMS")
  else if negb (serves cli tls_cert "OXO_EDGE_TLS_CERT" (join dir (bs "cert.pem"))) || negb (serves cli tls_key "OXO_EDGE_TLS_KEY" (join dir (bs "key.pem")))
  then Err (ConfInvalid "OXO_EDGE_TLS_CERT")
  else
  let? interval := env_duration_ms var "OXO_SERVICE_ACME_RENEW_INTERVAL_MS" DEFAULT_ACME_RENEW_INTERVAL in
  let? timeout := env_duration_ms var "OXO_SERVICE_ACME_RENEW_TIMEOUT_MS" DEFAULT_ACME_RENEW_TIMEOUT in
  let? env_url := optional_string_env var "OXO_EDGE_ACME_DIRECTORY_URL" in
  let? contacts := renew_contacts cli in
  let? production := consents cli acme_allow_production_directory "OXO_EDGE_ACME_ALLOW_PRODUCTION_DIRECTORY" in
  Ok (Some {| rn_interval := interval; rn_timeout := timeout; rn_state_dir := dir;
              rn_args := renew_args dir name bind (or_else (texts cli !! acme_directory_url) env_url) contacts production |}).
(** The gate of the renewal scheduler, by feature. *)
Definition read_renewal (cli : EdgeCliConfig) : result conf_error (option AcmeRenewConfig) :=
  if acme_built then read_acme_renew_config cli
  else let? on := env_bool var "OXO_SERVICE_ACME_RENEW" false in
       if on then Err (ConfInvalid "OXO_SERVICE_ACME_RENEW") else Ok None.

Definition from_cli (cli : EdgeCliConfig) : result boot_error ServiceConfig :=
  let check := bool_decide (check_config ∈ switches cli) in
  let? allow := map_err BadEnv (env_bool var "OXO_SERVICE_ALLOW_BIN_OVERRIDES" false) in
  let? launch := read_worker_launch in
  let? worker_bin := match launch with
                     | Classic => let? b := configured_binary "OXO_WORKER_BIN" "oxo-worker" allow "worker" in Ok (Some b)
                     | Async _ _ _ _ => Ok None
                     end in
  let? edge_bin := configured_binary "OXO_EDGE_BIN" "oxo-pingora-edge" allow "edge" in
  let? worker_socket := required_path "OXO_WORKER_SOCKET" in
  let? _ := ok_or (ensure_runtime_dir fstat creates worker_socket check) BadRuntimeDir in
  let? ready_timeout := map_err BadEnv (read_worker_ready_timeout var (launch_is_async launch)) in
  let? respawn_timeout := map_err BadEnv (read_worker_respawn_ready_timeout var (launch_is_async launch)) in
  let? drain_wait := map_err BadEnv (read_worker_drain_wait var (launch_is_async launch)) in
  let? _ := map_err BadEnv (validate_frame_pool_idle_env var) in
  let? _ := map_err BadEnv (validate_edge_pool_env var) in
  let? count := map_err BadEnv (env_usize var "OXO_WORKER_COUNT" 1) in
  if count =? 0 then Err (BadEnv (ConfInvalid "OXO_WORKER_COUNT"))
  else
  let? sockets := map_err BadEnv (worker_socket_paths worker_socket count) in
  let? edge_bind := map_err BadEnv (resolve_edge_bind var cli) in
  let? cable := read_cable allow in
  let? grpc := read_grpc allow in
  let? worker_env := map_err BadChildEnv (child_env launch worker_socket) in
  let? drain_grace := map_err BadEnv (env_duration_ms var "OXO_SERVICE_DRAIN_GRACE_MS" DEFAULT_DRAIN_GRACE) in
  let? (edge_drain_ms, edge_drain) := map_err BadEnv (resolve_edge_drain_grace var cli) in
  let? _ := map_err BadEnv (validate_drain_grace_hierarchy drain_grace edge_drain drain_wait) in
  let? edge_args := map_err BadEnv (collect_edge_args var sockets edge_bind cli edge_drain_ms) in
  let? renew := map_err BadEnv (read_renewal cli) in
  Ok {| sc_worker_bin := worker_bin; sc_worker_launch := launch; sc_worker_ready_timeout := ready_timeout;
        sc_worker_respawn_ready_timeout := respawn_timeout; sc_worker_drain_wait := drain_wait; sc_edge_bin := edge_bin;
        sc_worker_socket := worker_socket; sc_worker_sockets := sockets; sc_worker_count := count; sc_edge_bind := edge_bind;
        sc_check_config := check; sc_cable_bin := sd_bin cable; sc_cable_bind := sd_bind cable; sc_grpc_bin := sd_bin grpc;
        sc_grpc_bind := sd_bind grpc; sc_drain_grace := drain_grace; sc_edge_drain_grace := edge_drain; sc_worker_env := worker_env;
        sc_edge_env := collect_edge_env var (launch_is_async launch); sc_edge_args := edge_args; sc_cable_env := sd_env cable;
        sc_grpc_env := sd_env grpc; sc_acme_renew := renew |}.
Definition from_args (args : list bytes) : result boot_error ServiceConfig :=
  let? cli := map_err BadArgv (parse_from_args args) in from_cli cli.
End Boot.

(** ** The children's commands *)

(** What [std::process::Command] is given; each has [process_group(0)], [env_clear] and no
    standard input.  [cmd_piped]: output goes to pipes the supervisor reads, else it is
    inherited. *)
Record Command : Type := {
  cmd_program : bytes;
  cmd_args : list bytes;
  cmd_dir : option bytes;
  cmd_env : gmap bytes bytes;
  cmd_piped : bool;
}.
(** [Command::envs]: a later value replaces an earlier one. *)
Definition envs (l : env_list) : gmap bytes bytes := fold_left (fun m e => <[fst e := snd e]> m) l ∅.

(** [spawn_worker_slot]; [None] is the [expect] on a classic launch without a binary. *)
Definition worker_command (c : ServiceConfig) (id : nat) (generation : Z) (socket : bytes) : option Command :=
  let env := <[bs "OXO_WORKER_MULTIPROCESS" := bs (if sc_worker_count c >? 1 then "1" else "0")]>
             (<[bs "OXO_WORKER_POOL_SIZE" := show_uint (sc_worker_count c)]>
             (<[bs "OXO_WORKER_GENERATION" := show_uint generation]>
             (<[bs "OXO_WORKER_ID" := show_uint (Z.of_nat id)]>
             (<[bs "OXO_WORKER_SOCKET" := socket]> (envs (sc_worker_env c)))))) in
  match sc_worker_launch c with
  | Classic => (fun bin => {| cmd_program := bin; cmd_args := []; cmd_dir := None; cmd_env := env; cmd_piped := true |}) <$> sc_worker_bin c
  | Async bundle_bin ruby_bin script app_root =>
      Some {| cmd_program := bundle_bin; cmd_args := [bs "exec"; ruby_bin; script; socket]; cmd_dir := Some app_root; cmd_env := env; cmd_piped := true |}
  end.
Definition plain_command (bin : bytes) (args : list bytes) (env : gmap bytes bytes) : Command :=
  {| cmd_program := bin; cmd_args := args; cmd_dir := None; cmd_env := env; cmd_piped := false |}.
(** [spawn_cable] and [spawn_grpc] up to the spawn: no command when the sidecar is off. *)
Definition sidecar_command (bin : option bytes) (bind : option SocketAddr) (env : env_list) (bind_var : string) : result conf_error (option (Command * SocketAddr)) :=
  match bin with
  | None => Ok None
  | Some bin => let? b := ok_or bind (ConfMissing bind_var) in Ok (Some (plain_command bin [] (envs env), b))
  end.
Definition cable_command (c : ServiceConfig) : result conf_error (option (Command * SocketAddr)) :=
  sidecar_command (sc_cable_bin c) (sc_cable_bind c) (sc_cable_env c) "OXO_CABLE_BIND".
Definition grpc_command (c : ServiceConfig) : result conf_error (option (Command * SocketAddr)) :=
  sidecar_command (sc_grpc_bin c) (sc_grpc_bind c) (sc_grpc_env c) "OXO_GRPC_BIND".
Definition edge_command (c : ServiceConfig) : Command :=
  plain_command (sc_edge_bin c) (sc_edge_args c) (envs (map (fun e => (bs (fst e), snd e)) (sc_edge_env c))).

(** ** Socket paths *)


(** *** The directory of a joined path *)

Lemma strip_seps_idem r : strip_seps (strip_seps r) = strip_seps r.
Proof.
  induction r as [r IH] using (well_founded_induction (well_founded_ltof _ (@length byte))). unfold ltof in IH.
  destruct r as [|b r']; [reflexivity|]. cbn [strip_seps]. destruct (decide (b = slash)) as [->|Nb]; [apply IH; cbn; lia|].
  destruct r' as [|s r'']; [cbn [strip_seps]; rewrite decide_False by exact Nb; reflexivity|].
  destruct (decide (b = full_stop /\ s = slash)) as [D|D]; [apply IH; cbn; lia|]. cbn [strip_seps]. rewrite decide_False by exact Nb. rewrite decide_False by exact D. reflexivity.
Qed.
Lemma strip_seps_length l : (length (strip_seps l) <= length l)%nat.
Proof.
  induction l as [l IH] using (well_founded_induction (well_founded_ltof _ (@length byte))). unfold ltof in IH. destruct l as [|x l]; [reflexivity|].
  cbn [strip_seps]. destruct (decide (x = slash)); [specialize (IH l); cbn in *; lia|]. destruct l as [|y l]; [reflexivity|].
  destruct (decide _); [specialize (IH l); cbn in *; lia | reflexivity].
Qed.
Lemma strip_seps_head r b r' : strip_seps r = b :: r' -> b <> slash.
Proof.
  intros E ->. pose proof (strip_seps_idem r) as I. rewrite E in I. cbn [strip_seps] in I. rewrite decide_True in I by reflexivity.
  pose proof (strip_seps_length r') as L. rewrite I in L. cbn in L. lia.
Qed.
Lemma parent_shorter p q : parent p = Some q -> (length q < length p)%nat.
Proof.
  unfold parent. destruct (strip_seps (rev p)) as [|b r] eqn:E; [discriminate|]. pose proof (strip_seps_head _ _ _ E) as Nb.
  pose proof (strip_seps_length (rev p)) as L. rewrite E, length_rev in L. cbn [length] in L.
  assert (forall l, (length (drop_name l) <= length l)%nat) as D by (induction l as [|x l IH]; [reflexivity|]; cbn; destruct (decide (x = slash)); cbn; lia).
  cbn [drop_name]. rewrite decide_False by exact Nb. specialize (D r). destruct (drop_name r) as [|x l] eqn:N; [intros [= <-]; cbn; lia|].
  pose proof (strip_seps_length (x :: l)) as S. destruct (strip_seps (x :: l)) as [|y m]; intros [= <-]; [cbn in *; lia|].
  rewrite length_app, length_rev. cbn in *. lia.
Qed.


(** ** An accepted configuration *)

(** What is run: an absolute path to a regular file that neither its group nor others may
    write, or one below [/mnt/]. *)
Definition trusted_program (fstat : bytes -> stat) (p : bytes) : Prop :=
  is_absolute p = true /\ exists m, fstat p = Found Regular m /\ (starts_with (bs "/mnt/") p = true \/ Z.land (perm m) 18 = 0).

Section Accepted.
Variable getenv : bytes -> option bytes.
Variable fstat : bytes -> stat.
Variable creates : bytes -> bool.
Variable current_exe : option bytes.
Variable acme_built : bool.
Local Abbreviation var := (fun name : string => getenv (bs name)).

Lemma checked_program role p u : check_executable fstat role p = Ok u -> trusted_program fstat p.
Proof.
  unfold check_executable. intros E. apply map_err_ok in E. unfold validate_executable in E. destruct (is_absolute p) eqn:A; [|discriminate]. cbn [negb] in E.
  destruct (fstat p) as [[] m| |] eqn:F; try discriminate. split; [exact A|]. exists m. split; [exact F|].
  destruct (starts_with (bs "/mnt/") p); [left; reflexivity | right]. destruct (Z.land (perm m) 18 =? 0) eqn:L; [lia | discriminate].
Qed.
Lemma configured_program n s allow role p : configured_binary getenv fstat current_exe n s allow role = Ok p ->
  trusted_program fstat p /\ (allow = false -> p = sibling_binary current_exe (bs s)).
Proof.
  unfold configured_binary. intros E. apply rbind_ok in E as (q & Q & E). apply rbind_ok in E as (u & C & [= <-]). split; [eapply checked_program, C|].
  intros ->. destruct (optional_path var n); [discriminate|]. injection Q as <-. reflexivity.
Qed.
Lemma sidecar_fenced ev bv nv s role collect allow d :
  read_sidecar getenv fstat current_exe ev bv nv s role collect allow = Ok d ->
  Forall (trusted_program fstat) (option_list (sd_bin d)) /\ (allow = false -> forall b, sd_bin d = Some b -> b = sibling_binary current_exe (bs s)) /\
  (forall b, sd_bind d = Some b -> is_loopback (sa_ip b) = true) /\ (forall env v, exists r, sidecar_command (sd_bin d) (sd_bind d) env v = Ok r).
Proof.
  unfold read_sidecar. intros E. apply rbind_ok in E as (on & _ & E). destruct on.
  - apply rbind_ok in E as (raw & _ & E). apply rbind_ok in E as (b & _ & E). destruct (is_loopback (sa_ip b)) eqn:L; [|discriminate]. cbn [negb] in E.
    apply rbind_ok in E as (bin & B & E). apply rbind_ok in E as (en & _ & [= <-]). apply configured_program in B as [T S]. cbn [sd_bin sd_bind].
    split; [constructor; [exact T | constructor]|]. split; [intros A b0 [= <-]; apply S, A|]. split; [intros b0 [= <-]; exact L | intros env v; eexists; reflexivity].
  - injection E as <-. cbn [sd_bin sd_bind]. split; [constructor|]. split; [discriminate|]. split; [discriminate | intros env v; eexists; reflexivity].
Qed.

(** The commands of both sidecars can be built. *)
Lemma accepted_sidecars cli c : from_cli getenv fstat creates current_exe acme_built cli = Ok c ->
  (exists r, cable_command c = Ok r) /\ exists r, grpc_command c = Ok r.
Proof.
  unfold from_cli. intros E. do 12 (apply rbind_ok in E as (? & _ & E)). destruct (_ =? 0) in E; [discriminate|]. do 2 (apply rbind_ok in E as (? & _ & E)).
  apply rbind_ok in E as (cable & Ca & E). apply rbind_ok in E as (grpc & Gr & E). do 2 (apply rbind_ok in E as (? & _ & E)).
  apply rbind_ok in E as ([? ?] & _ & E). do 3 (apply rbind_ok in E as (? & _ & E)). injection E as <-.
  apply sidecar_fenced in Ca as (_ & _ & _ & Cc). apply sidecar_fenced in Gr as (_ & _ & _ & Cg). split; [apply Cc | apply Cg].
Qed.
End Accepted.

(** A host with one classic worker pool and the cable switched on. *)
Definition demo_vars : list (string * string) :=
  [("OXO_WORKER_SOCKET", "/run/oxo/w.sock"); ("OXO_WORKER_COUNT", "3"); ("OXO_EDGE_BIND", "0.0.0.0:80"); ("OXO_WORKER_APP", "app.ru");
   ("OXO_CABLE_ENABLED", "1"); ("OXO_CABLE_BIND", "127.0.0.1:28080")]%string.
Definition demo_getenv (extra : list (string * string)) (n : bytes) : option bytes :=
  (fun e => bs (snd e)) <$> List.find (fun e => eq_bytes (bs (fst e)) n) (extra ++ demo_vars).
Definition demo_fstat (p : bytes) : stat :=
  if eq_bytes p (bs "/run/oxo") then Found Dir 448 else if starts_with (bs "/opt/oxo/") p then Found Regular 493 else NotFound.
Definition demo_exe : option bytes := Some (bs "/opt/oxo/oxo-pingora-service").

(** ** What a worker's process is told *)

Lemma envs_in l : forall (m : gmap bytes bytes) k v, fold_left (fun m e => <[fst e := snd e]> m) l m !! k = Some v -> m !! k = Some v \/ In (k, v) l.
Proof.
  induction l as [|[k0 v0] l IH]; intros m k v E; [left; exact E|]. cbn [fold_left fst snd] in E. destruct (IH _ _ _ E) as [H|H]; [|right; right; exact H].
  destruct (decide (k0 = k)) as [->|Ne]; [rewrite lookup_insert_eq in H; injection H as <-; right; left; reflexivity | rewrite lookup_insert_ne in H by exact Ne; left; exact H].
Qed.
Section Told.
Variable getenv : bytes -> option bytes.
Variable fstat : bytes -> stat.

Lemma child_env_not_edge_only launch socket env : child_env getenv fstat launch socket = Ok env -> Forall not_edge_only env.
Proof.
  intros E. apply (children_see_no_edge_settings getenv (is_file fstat) socket
    (match launch with Async _ _ _ root => join root (bs "Gemfile") | Classic => [] end) [] env).
  destruct launch; [left; exact E | right; left; exact E].
Qed.
Lemma accepted_worker_env creates current_exe acme_built cli c : from_cli getenv fstat creates current_exe acme_built cli = Ok c -> Forall not_edge_only (sc_worker_env c).
Proof.
  unfold from_cli. intros E. do 12 (apply rbind_ok in E as (? & _ & E)). destruct (_ =? 0) in E; [discriminate|]. do 4 (apply rbind_ok in E as (? & _ & E)).
  apply rbind_ok in E as (we & We & E). apply rbind_ok in E as (dg & _ & E). apply rbind_ok in E as ([? ?] & _ & E). do 3 (apply rbind_ok in E as (? & _ & E)).
  injection E as <-. cbn [sc_worker_env]. apply map_err_ok in We. eapply child_env_not_edge_only, We.
Qed.
(** What one worker of the pool is told: under its own command its environment names its
    socket, its number, its generation and the size of the pool, whatever the operator put
    under those names; an async worker gets the same socket as its last argument; and no
    edge-only setting reaches it. *)
Theorem worker_is_told_its_slot creates current_exe acme_built cli c id generation socket cmd :
  from_cli getenv fstat creates current_exe acme_built cli = Ok c -> worker_command c id generation socket = Some cmd ->
  cmd_env cmd !! bs "OXO_WORKER_SOCKET" = Some socket /\ cmd_env cmd !! bs "OXO_WORKER_ID" = Some (show_uint (Z.of_nat id)) /\
  cmd_env cmd !! bs "OXO_WORKER_GENERATION" = Some (show_uint generation) /\ cmd_env cmd !! bs "OXO_WORKER_POOL_SIZE" = Some (show_uint (sc_worker_count c)) /\
  (launch_is_async (sc_worker_launch c) = true -> list.last (cmd_args cmd) = Some socket) /\
  (forall n v, cmd_env cmd !! n = Some v -> is_edge_only_env_name n = false).
Proof.
  intros E W. pose proof (accepted_worker_env _ _ _ _ _ E) as F. unfold worker_command in W.
  set (env := insert (bs "OXO_WORKER_MULTIPROCESS") _ _) in W.
  assert (cmd_env cmd = env /\ (launch_is_async (sc_worker_launch c) = true -> list.last (cmd_args cmd) = Some socket)) as [-> A].
  { destruct (sc_worker_launch c); [destruct (sc_worker_bin c); [|discriminate]; injection W as <-; split; [reflexivity | discriminate] | injection W as <-; split; reflexivity]. }
  clear W. split; [subst env; rewrite !lookup_insert_ne by discriminate; apply lookup_insert_eq|].
  split; [subst env; rewrite !lookup_insert_ne by discriminate; apply lookup_insert_eq|].
  split; [subst env; rewrite !lookup_insert_ne by discriminate; apply lookup_insert_eq|].
  split; [subst env; rewrite !lookup_insert_ne by discriminate; apply lookup_insert_eq|]. split; [exact A|].
  intros n v L. subst env. repeat (rewrite lookup_insert_Some in L; destruct L as [[<- _]|[_ L]]; [reflexivity|]).
  apply envs_in in L as [L|L]; [rewrite lookup_empty in L; discriminate|]. apply (proj1 (List.Forall_forall _ _) F _ L).
Qed.
End Told.

(** ** Renewals *)


Section Renewal.
Variable getenv : bytes -> option bytes.
Local Abbreviation var := (fun name : string => getenv (bs name)).
Variable cli : EdgeCliConfig.
Hypothesis W : cli_wf cli.

End Renewal.


Section Reach.
Variable getenv : bytes -> option bytes.
Variable fstat : bytes -> stat.
Variable creates : bytes -> bool.
Variable current_exe : option bytes.
Local Abbreviation var := (fun name : string => getenv (bs name)).


End Reach.

Definition renewing : list (string * string) :=
  [("OXO_SERVICE_ACME_RENEW", "1"); ("OXO_SERVICE_ACME_HTTP_BIND", "0.0.0.0:8081"); ("OXO_EDGE_ACME_STATE_PATH", "/var/acme"); ("OXO_EDGE_SERVER_NAME", "app.example.org");
   ("OXO_EDGE_ACME_ACCEPT_TERMS", "yes"); ("OXO_EDGE_TLS_CERT", "/var/acme//cert.pem"); ("OXO_EDGE_TLS_KEY", "/var/acme/key.pem")]%string.
(** Without TLS the scheduler is accepted all the same: the paths come from the environment
    and satisfy the check, the edge is started on a plain listener without them, and the pair
    the renewals rotate is loaded by nobody. *)
Lemma renewals_can_be_inert :
  exists c r ec, from_cli (demo_getenv renewing) demo_fstat (fun _ => true) demo_exe true cli_default = Ok c /\ sc_acme_renew c = Some r /\
    parse_flags (sc_edge_args c) = Ok ec /\ paths ec !! tls_cert = None /\ is_Some (binds ec !! http_bind).
Proof.
  destruct (from_cli (demo_getenv renewing) demo_fstat (fun _ => true) demo_exe true cli_default) as [c|e] eqn:E; [|vm_compute in E; discriminate].
  destruct (sc_acme_renew c) as [r|] eqn:R; [|vm_compute in E; injection E as <-; discriminate].
  destruct (parse_flags (sc_edge_args c)) as [ec|] eqn:P; [|vm_compute in E; injection E as <-; vm_compute in P; discriminate].
  exists c, r, ec. split; [reflexivity|]. split; [exact R|]. split; [exact P|].
  vm_compute in E. injection E as <-. vm_compute in P. injection P as <-. split; [reflexivity | eexists; reflexivity].
Qed.
