(* ===== verification/WorkerBoot.v ===== *)
(** * WorkerBoot: starting the workers and the other children

    Model of the boot part of [crates/oxo-pingora-edge/src/service.rs]: the reader a worker's
    output is given to ([attach_worker_readiness]), the checks on its READY line
    ([finish_worker_ready]), the wait for one worker ([wait_for_worker_ready]), the pool
    started one worker after the other ([spawn_worker_pool], [spawn_ready_worker]) and all at
    once ([spawn_worker_pool_batched]), and the waits for the edge and the sidecars.  A loop
    runs over the list of its turns: a turn says what polling the child and the channel gives
    and how long it takes; the loop itself keeps the clock, in milliseconds.  A child is
    known by its slot, and the model keeps the set of slots whose process was started and
    neither reaped nor terminated. *)

From stdpp Require Import gmap fin_sets.
From S2P Require Import Prelude Text LineText FsChecks Supervisor ServiceBoot.

(** ** The readiness reader *)

Definition WORKER_READY_PREFIX : bytes := bs "OXO_WORKER_READY=".
Definition MAX_PRE_READY_OUTPUT_BYTES : Z := 64 * 1024.
Definition cap_text : bytes := bs "pre-ready output exceeded cap".

(** [BufRead::read_line]: a line with its terminator, the end, or an error and its text. *)
Inductive line_read : Type := Line (l : bytes) | LinesEnd | LineFails (text : bytes).
(** What the reader sends. *)
Inductive ready_msg : Type := ReadyLine (l : bytes) | OutputEnded | OutputFailed (text : bytes).
(** The thread of [attach_worker_readiness]; [None] while it is still reading. *)
Fixpoint readiness_reader (seen : Z) (reads : list line_read) : option ready_msg :=
  match reads with
  | [] => None
  | LinesEnd :: _ => Some OutputEnded
  | LineFails text :: _ => Some (OutputFailed text)
  | Line l :: rest =>
      if starts_with WORKER_READY_PREFIX l then Some (ReadyLine l)
      else let seen := seen + zlen l in
           if seen >? MAX_PRE_READY_OUTPUT_BYTES then Some (OutputFailed cap_text) else readiness_reader seen rest
  end.

(** ** One READY line *)

Inductive ready_error : Type :=
| SpawnError
| MissingWorkerPipe                 (** [MissingWorkerStdout], [MissingWorkerStderr] *)
| WaitError
| WorkerExited
| WorkerReadyDisconnected
| WorkerReadinessOutputTooLarge
| WorkerReadyIo (text : bytes)
| WorkerReadiness (line : bytes)
| WorkerReadyWrongSocket (got : bytes)
| WorkerSocketInvalid (e : fs_error)
| WorkerSocketProbe
| WorkerReadyTimeout.
Record WorkerSlot : Type := { ws_id : nat; ws_generation : Z; ws_socket : bytes; ws_state : WorkerSlotState; ws_draining : bool }.
(** [WorkerSlot::ready]. *)
Definition slot_ready (id : nat) (generation : Z) (socket : bytes) : WorkerSlot :=
  {| ws_id := id; ws_generation := generation; ws_socket := socket; ws_state := Ready; ws_draining := false |}.
Definition is_newline (b : byte) : bool := (bz b =? 13) || (bz b =? 10).
Definition ready_socket_from_line (line : bytes) : result ready_error bytes :=
  match strip_prefix WORKER_READY_PREFIX line with
  | Some value => Ok (trim_end_by is_newline value)
  | None => Err (WorkerReadiness line)
  end.

(** A poll of the channel: a message, nothing yet (in [recv_timeout] after 25 ms), or the
    other end is gone. *)
Inductive recv : Type := Got (m : ready_msg) | Nothing | Gone.

(** What starting the pool comes to: the workers or an error, and the slots still running. *)
Abbreviation pool := (result ready_error (option (list WorkerSlot)) * gset nat)%type.
(** A child being waited for in the batched boot. *)
Abbreviation boot_slot := (nat * bytes)%type.

Section Boot.
(** The file system and whether the socket takes a connection, when the READY line of a slot
    is looked at. *)
Variable lstat_at : nat -> bytes -> stat.
Variable connects_at : nat -> bytes -> bool.

Definition finish_worker_ready (line : bytes) (id : nat) (generation : Z) (expected : bytes) : result ready_error WorkerSlot :=
  let? got := ready_socket_from_line line in
  if negb (path_eq got expected) then Err (WorkerReadyWrongSocket got)
  else
    let? _ := map_err WorkerSocketInvalid (validate_worker_socket_path (lstat_at id) expected) in
    if connects_at id expected then Ok (slot_ready id generation expected) else Err WorkerSocketProbe.
(** The arms on a message, the same in both boot shapes. *)
Definition on_message (m : ready_msg) (id : nat) (generation : Z) (socket : bytes) : result ready_error WorkerSlot :=
  match m with
  | ReadyLine line => finish_worker_ready line id generation socket
  | OutputEnded => Err WorkerReadyDisconnected
  | OutputFailed text => if contains_sub cap_text text then Err WorkerReadinessOutputTooLarge else Err (WorkerReadyIo text)
  end.

(** ** The wait for one worker *)

(** One turn; [w_took]: what it takes beyond the 25 ms of a [recv_timeout] that gives nothing. *)
Record wait_turn : Type := { w_shutdown : bool; w_poll : poll; w_recv : recv; w_took : Z }.
(** The result and whether the child still runs, not reaped; [None]: the turns did not end it. *)
Fixpoint wait_for_worker_ready (turns : list wait_turn) (id : nat) (generation : Z) (socket : bytes) (deadline now : Z) : option (result ready_error (option WorkerSlot) * bool) :=
  match turns with
  | [] => None
  | t :: turns' =>
      if w_shutdown t then Some (Ok None, false)
      else match w_poll t with
      | WaitFails => Some (Err WaitError, true)
      | Exited => Some (Err WorkerExited, false)
      | Running =>
          match w_recv t with
          | Got m => match on_message m id generation socket with Ok slot => Some (Ok (Some slot), true) | Err e => Some (Err e, false) end
          | Nothing =>
              let now := now + 25 + w_took t in
              if now <? deadline then wait_for_worker_ready turns' id generation socket deadline now else Some (Err WorkerReadyTimeout, false)
          | Gone => Some (Err WorkerReadyDisconnected, false)
          end
      end
  end.

(** ** Workers one after the other *)

(** Whether each slot's process starts, whether its pipes are there, the turns of its wait
    and when the wait begins. *)
Variable spawns : nat -> bool.
Variable piped : nat -> bool.
Variable turns_of : nat -> list wait_turn.
Variable begins : nat -> Z.

Definition spawn_ready_worker (id : nat) (generation : Z) (socket : bytes) (timeout : Z) : option (result ready_error (option WorkerSlot) * bool) :=
  if negb (spawns id) then Some (Err SpawnError, false)
  else if negb (piped id) then Some (Err MissingWorkerPipe, false)
  else wait_for_worker_ready (turns_of id) id generation socket (begins id + timeout) (begins id).

Definition slots (ws : list WorkerSlot) : gset nat := list_to_set (map ws_id ws).
Definition if_left (alive : bool) (id : nat) : gset nat := if alive then {[id]} else ∅.
Fixpoint boot_each (id : nat) (sockets : list bytes) (timeout : Z) (workers : list WorkerSlot) (running : gset nat) : option pool :=
  match sockets with
  | [] => Some (Ok (Some workers), running)
  | socket :: rest =>
      match spawn_ready_worker id 1 socket timeout with
      | None => None
      | Some (Ok (Some w), alive) => boot_each (S id) rest timeout (workers ++ [w]) (if_left alive id ∪ running)
      | Some (Ok None, alive) => Some (Ok None, (if_left alive id ∪ running) ∖ slots workers)
      | Some (Err e, alive) => Some (Err e, (if_left alive id ∪ running) ∖ slots workers)
      end
  end.

(** ** Workers all at once *)

Record sweep_turn : Type := { b_shutdown : bool; b_poll : nat -> poll; b_recv : nat -> recv; b_took : Z }.
Definition boot_ids (l : list boot_slot) : gset nat := list_to_set (map fst l).
Definition ready_ids (l : list (option WorkerSlot)) : gset nat := slots (omap id l).
(** The closure [fail]: every child still booting and every ready one is terminated. *)
Definition fail (booting : list boot_slot) (ready : list (option WorkerSlot)) (running : gset nat) : gset nat :=
  running ∖ boot_ids booting ∖ ready_ids ready.
(** The first loop: every child is started and its pipes attached before any is waited for. *)
Fixpoint start_all (id : nat) (sockets : list bytes) (booting : list boot_slot) (ready : list (option WorkerSlot)) (running : gset nat) : result ready_error (list boot_slot) * gset nat :=
  match sockets with
  | [] => (Ok booting, running)
  | socket :: rest =>
      if negb (spawns id) then (Err SpawnError, fail booting ready running)
      else if negb (piped id) then (Err MissingWorkerPipe, fail booting ready (({[id]} ∪ running) ∖ {[id]}))
      else start_all (S id) rest (booting ++ [(id, socket)]) ready ({[id]} ∪ running)
  end.
(** One pass over the booting children: an error with what was booting and ready then, or
    what is still booting, the ready ones and whether any became ready. *)
Inductive swept : Type :=
| SweepErr (e : ready_error) (booting : list boot_slot) (ready : list (option WorkerSlot))
| Swept (booting : list boot_slot) (ready : list (option WorkerSlot)) (progressed : bool).
Fixpoint sweep (t : sweep_turn) (kept todo : list boot_slot) (ready : list (option WorkerSlot)) (progressed : bool) : swept :=
  match todo with
  | [] => Swept kept ready progressed
  | (id, socket) :: rest =>
      match b_poll t id with
      | Exited => SweepErr WorkerExited (kept ++ todo) ready
      | WaitFails => SweepErr WaitError (kept ++ todo) ready
      | Running =>
          match b_recv t id with
          | Got m =>
              match on_message m id 1 socket with
              | Ok w => sweep t kept rest (<[id := Some w]> ready) true
              | Err e => SweepErr e (kept ++ todo) ready
              end
          | Nothing => sweep t (kept ++ [(id, socket)]) rest ready progressed
          | Gone => SweepErr WorkerReadyDisconnected (kept ++ todo) ready
          end
      end
  end.
Fixpoint boot_loop (turns : list sweep_turn) (booting : list boot_slot) (ready : list (option WorkerSlot)) (running : gset nat) (timeout deadline now : Z) : option pool :=
  match booting with
  | [] => Some (Ok (Some (omap id ready)), running)
  | _ :: _ =>
      match turns with
      | [] => None
      | t :: turns' =>
          if b_shutdown t then Some (Ok None, fail booting ready running)
          else match sweep t [] booting ready false with
               | SweepErr e booting ready => Some (Err e, fail booting ready running)
               | Swept booting ready progressed =>
                   let now := now + b_took t in
                   if progressed then boot_loop turns' booting ready running timeout (now + timeout) now
                   else if deadline <=? now then Some (Err WorkerReadyTimeout, fail booting ready running)
                   else boot_loop turns' booting ready running timeout deadline (now + 25)
               end
      end
  end.
Definition boot_batched (sockets : list bytes) (timeout : Z) (turns : list sweep_turn) (now : Z) : option pool :=
  let ready := replicate (length sockets) None in
  match start_all 0 sockets [] ready ∅ with
  | (Err e, running) => Some (Err e, running)
  | (Ok booting, running) => boot_loop turns booting ready running timeout (now + timeout) now
  end.

Definition spawn_worker_pool (c : ServiceConfig) (sweeps : list sweep_turn) (now : Z) : option pool :=
  if launch_is_async (sc_worker_launch c) then boot_batched (sc_worker_sockets c) (sc_worker_ready_timeout c) sweeps now
  else boot_each 0 (sc_worker_sockets c) (sc_worker_ready_timeout c) [] ∅.
End Boot.

(** ** The edge and the sidecars *)

Definition EDGE_READY_TIMEOUT : Z := 15000.
Definition CABLE_READY_TIMEOUT : Z := 15000.
Definition GRPC_READY_TIMEOUT : Z := 15000.
Inductive bind_error : Type := BindWait | BindExited | BindTimeout.
(** One turn: the poll, whether a connection is taken, and how long both took. *)
Record bind_turn : Type := { t_poll : poll; t_connects : bool; t_took : Z }.
Fixpoint wait_for_bind (turns : list bind_turn) (deadline now : Z) : option (result bind_error unit * bool) :=
  match turns with
  | [] => None
  | t :: turns' =>
      match t_poll t with
      | WaitFails => Some (Err BindWait, true)
      | Exited => Some (Err BindExited, false)
      | Running =>
          if t_connects t then Some (Ok tt, true)
          else let now := now + t_took t in
               if deadline <=? now then Some (Err BindTimeout, false) else wait_for_bind turns' deadline (now + 25)
      end
  end.
Definition wait_for_edge_ready (turns : list bind_turn) (now : Z) := wait_for_bind turns (now + EDGE_READY_TIMEOUT) now.
Definition wait_for_cable_ready (turns : list bind_turn) (now : Z) := wait_for_bind turns (now + CABLE_READY_TIMEOUT) now.
Definition wait_for_grpc_ready (turns : list bind_turn) (now : Z) := wait_for_bind turns (now + GRPC_READY_TIMEOUT) now.
Inductive start_error : Type := StartConf (e : ServiceConf.conf_error) | StartSpawn | StartWait (e : bind_error).
(** [spawn_cable] and [spawn_grpc]: whether the sidecar was started, and whether its process
    runs. *)
Definition start_sidecar (cmd : result ServiceConf.conf_error (option (Command * IpText.SocketAddr))) (spawns : Command -> bool)
    (wait : option (result bind_error unit * bool)) : option (result start_error bool * bool) :=
  match cmd with
  | Err e => Some (Err (StartConf e), false)
  | Ok None => Some (Ok false, false)
  | Ok (Some (command, _)) =>
      if negb (spawns command) then Some (Err StartSpawn, false)
      else match wait with
           | None => None
           | Some (Ok _, alive) => Some (Ok true, alive)
           | Some (Err e, alive) => Some (Err (StartWait e), alive)
           end
  end.
Definition spawn_cable (c : ServiceConfig) (spawns : Command -> bool) (turns : list bind_turn) (now : Z) : option (result start_error bool * bool) :=
  start_sidecar (cable_command c) spawns (wait_for_cable_ready turns now).
Definition spawn_grpc (c : ServiceConfig) (spawns : Command -> bool) (turns : list bind_turn) (now : Z) : option (result start_error bool * bool) :=
  start_sidecar (grpc_command c) spawns (wait_for_grpc_ready turns now).
Definition ready_status (cable grpc : bool) : bytes :=
  bs "READY=1" ++ [zb 10] ++
  bs match cable, grpc with
     | true, true => "STATUS=Oxo edge, workers, standalone Action Cable, and standalone gRPC are ready"
     | true, false => "STATUS=Oxo edge, workers, and standalone Action Cable are ready"
     | false, true => "STATUS=Oxo edge, workers, and standalone gRPC are ready"
     | false, false => "STATUS=Oxo edge and workers are ready"
     end.

(** ** Passing on a child's output *)

(** [Read::read] into the buffer of 8192 bytes, and [relay]: what is written, where [write_ok]
    says whether the n-th write succeeds; a write that fails ends it. *)
Inductive chunk_read : Type := Chunk (data : bytes) | ChunksEnd | Interrupted | ChunkFails.
Fixpoint relay (reads : list chunk_read) (write_ok : nat -> bool) (n : nat) : list bytes :=
  match reads with
  | [] => []
  | Chunk data :: rest => if write_ok n then data :: relay rest write_ok (S n) else []
  | Interrupted :: rest => relay rest write_ok n
  | ChunksEnd :: _ | ChunkFails :: _ => []
  end.

(** ** Whole or not at all *)

Definition first_slots (n : nat) : gset nat := list_to_set (seq 0 n).
Lemma in_first_slots i n : i ∈ first_slots n <-> (i < n)%nat.
Proof. unfold first_slots. rewrite elem_of_list_to_set, elem_of_seq. lia. Qed.

Section Whole.
Variable lstat_at : nat -> bytes -> stat.
Variable connects_at : nat -> bytes -> bool.

(** A slot that was vouched for: it carries its own number and socket, the socket passed the
    private-directory check and took a connection. *)
Definition slot_up (id : nat) (generation : Z) (socket : bytes) (w : WorkerSlot) : Prop :=
  w = slot_ready id generation socket /\ validate_worker_socket_path (lstat_at id) socket = Ok tt /\ connects_at id socket = true.
Lemma message_up m id g s w : on_message lstat_at connects_at m id g s = Ok w -> slot_up id g s w.
Proof.
  unfold on_message. destruct m as [line| |text]; [|discriminate | destruct (contains_sub cap_text text); discriminate].
  unfold finish_worker_ready. intros E. apply rbind_ok in E as (got & _ & E). destruct (negb (path_eq got s)); [discriminate|].
  apply rbind_ok in E as ([] & V & E). apply map_err_ok in V. destruct (connects_at id s) eqn:C; [|discriminate]. injection E as <-. split; [reflexivity | auto].
Qed.
Lemma wait_outcome turns id g s : forall deadline now r alive,
  wait_for_worker_ready lstat_at connects_at turns id g s deadline now = Some (r, alive) ->
  match r with Ok (Some w) => alive = true /\ slot_up id g s w | Ok None => alive = false | Err e => alive = false \/ e = WaitError end.
Proof.
  induction turns as [|t turns IH]; intros deadline now r alive; cbn [wait_for_worker_ready]; [discriminate|].
  destruct (w_shutdown t); [intros [= <- <-]; reflexivity|]. destruct (w_poll t); [|intros [= <- <-]; auto | intros [= <- <-]; auto].
  destruct (w_recv t) as [m| |]; [| destruct (_ <? deadline); [apply IH | intros [= <- <-]; auto] | intros [= <- <-]; auto].
  destruct (on_message lstat_at connects_at m id g s) as [w|e] eqn:M; intros [= <- <-]; [split; [reflexivity | eapply message_up, M] | auto].
Qed.

Variable spawns : nat -> bool.
Variable piped : nat -> bool.
Variable turns_of : nat -> list wait_turn.
Variable begins : nat -> Z.
Lemma spawn_outcome id g s timeout r alive : spawn_ready_worker lstat_at connects_at spawns piped turns_of begins id g s timeout = Some (r, alive) ->
  match r with Ok (Some w) => alive = true /\ slot_up id g s w | Ok None => alive = false | Err e => alive = false \/ e = WaitError end.
Proof.
  unfold spawn_ready_worker. destruct (spawns id); cbn [negb]; [|intros [= <- <-]; auto]. destruct (piped id); cbn [negb]; [|intros [= <- <-]; auto].
  apply wait_outcome.
Qed.
(** The slots [from], [from + 1], ... are up. *)
Definition up_from (from : nat) (sockets : list bytes) (ws : list WorkerSlot) : Prop :=
  length ws = length sockets /\ forall i s w, sockets !! i = Some s -> ws !! i = Some w -> slot_up (from + i) 1 s w.
Definition nothing_left (e : ready_error) (n : nat) (sequential : bool) (running : gset nat) : Prop :=
  running = ∅ \/ e = WaitError /\ sequential = true /\ exists i, (i < n)%nat /\ running = {[i]}.
Lemma left_of id ws alive : map ws_id ws = seq 0 id -> (if_left alive id ∪ first_slots id) ∖ slots ws = if_left alive id.
Proof.
  intros S. unfold slots. rewrite S. fold (first_slots id). apply set_eq. intros i. rewrite elem_of_difference, elem_of_union, in_first_slots.
  unfold if_left. destruct alive; [rewrite elem_of_singleton; lia | set_solver by lia].
Qed.
Lemma up_cons from s sockets w ws : slot_up from 1 s w -> up_from (S from) sockets ws -> up_from from (s :: sockets) (w :: ws).
Proof.
  intros U [L F]. split; [cbn; lia|]. intros [|i] s0 w0; cbn; [intros [= <-] [= <-]; rewrite Nat.add_0_r; exact U|]. intros Hs Hw.
  replace (from + S i)%nat with (S from + i)%nat by lia. exact (F i s0 w0 Hs Hw).
Qed.
Lemma boot_each_outcome timeout sockets : forall id workers r running,
  map ws_id workers = seq 0 id -> boot_each lstat_at connects_at spawns piped turns_of begins id sockets timeout workers (first_slots id) = Some (r, running) ->
  match r with
  | Ok (Some ws) => exists ws', ws = workers ++ ws' /\ up_from id sockets ws' /\ running = first_slots (id + length sockets)
  | Ok None => running = ∅
  | Err e => nothing_left e (id + length sockets) true running
  end.
Proof.
  induction sockets as [|s sockets IH]; intros id workers r running Hw E; cbn [boot_each] in E.
  - injection E as <- <-. exists []. rewrite app_nil_r. split; [reflexivity|]. split; [split; [reflexivity | intros i ? ? H; destruct i; discriminate] | cbn; rewrite Nat.add_0_r; reflexivity].
  - destruct (spawn_ready_worker _ _ _ _ _ _ id 1 s timeout) as [[[[w|]|e] alive]|] eqn:W; [| | |discriminate]; apply spawn_outcome in W.
    + destruct W as [-> U]. assert (if_left true id ∪ first_slots id = first_slots (S id)) as F.
      { apply set_eq. intros i. cbn [if_left]. rewrite elem_of_union, elem_of_singleton, !in_first_slots. lia. }
      rewrite F in E. apply IH in E.
      * cbn [length]. rewrite Nat.add_succ_r. destruct r as [[ws|]|e]; [|exact E | exact E]. destruct E as (ws' & -> & Up & ->).
        exists (w :: ws'). rewrite <- app_assoc. split; [reflexivity|]. split; [apply up_cons; assumption | reflexivity].
      * rewrite map_app, Hw. destruct U as [-> _]. rewrite seq_S. reflexivity.
    + subst alive. injection E as <- <-. apply (left_of id workers false Hw).
    + injection E as <- <-. rewrite (left_of id workers alive Hw). destruct alive; [|left; reflexivity]. destruct W as [Hf| ->]; [discriminate|].
      right. split; [reflexivity|]. split; [reflexivity|]. exists id. split; [cbn; lia | reflexivity].
Qed.

(** *** The batched pool *)

Section Batched.
Variable sockets : list bytes.
(** Every slot is either booting, with its own socket and no entry, or ready and up. *)
Record booted (booting : list boot_slot) (ready : list (option WorkerSlot)) : Prop := {
  bt_length : length ready = length sockets;
  bt_once : NoDup (map fst booting);
  bt_booting : forall i s, (i, s) ∈ booting -> sockets !! i = Some s /\ ready !! i = Some None;
  bt_ready : forall i w, ready !! i = Some (Some w) -> exists s, sockets !! i = Some s /\ slot_up i 1 s w;
  bt_all : forall i, (i < length sockets)%nat -> (exists s, (i, s) ∈ booting) \/ exists w, ready !! i = Some (Some w);
}.
Lemma in_boot_ids i (l : list boot_slot) : i ∈ boot_ids l <-> exists s, (i, s) ∈ l.
Proof.
  unfold boot_ids. rewrite elem_of_list_to_set, list_elem_of_fmap. split; [intros ([j s] & -> & I); exists s; exact I | intros (s & I); exists (i, s); auto].
Qed.
Lemma in_ready_ids i l : i ∈ ready_ids l <-> exists w, ws_id w = i /\ Some w ∈ l.
Proof.
  unfold ready_ids, slots. rewrite elem_of_list_to_set, list_elem_of_fmap. split.
  - intros (w & -> & I). apply list_elem_of_omap in I as ([x|] & I & [= <-]). eauto.
  - intros (w & <- & I). exists w. split; [reflexivity|]. apply list_elem_of_omap. exists (Some w). auto.
Qed.
Lemma fail_leaves_nothing booting ready : booted booting ready -> fail booting ready (first_slots (length sockets)) = ∅.
Proof.
  intros B. apply set_eq. intros i. unfold fail. rewrite !elem_of_difference, in_first_slots, in_boot_ids, in_ready_ids. split; [|set_solver].
  intros [[Hi Nb] Nr]. destruct (bt_all _ _ B i Hi) as [H|[w Hw]]; [contradiction|]. exfalso. apply Nr. exists w.
  destruct (bt_ready _ _ B i w Hw) as (s & _ & -> & _). split; [reflexivity | eapply list_elem_of_lookup_2, Hw].
Qed.
Lemma booted_ready kept id s rest ready w : booted (kept ++ (id, s) :: rest) ready -> slot_up id 1 s w -> booted (kept ++ rest) (<[id := Some w]> ready).
Proof.
  intros B U. destruct (bt_booting _ _ B id s ltac:(set_solver)) as [Hs Hr]. pose proof (lookup_lt_Some _ _ _ Hr) as Lr.
  pose proof (bt_once _ _ B) as N. rewrite map_app in N. cbn [map fst] in N. apply list.NoDup_app in N as (N1 & N2 & N3). apply list.NoDup_cons in N3 as [N4 N3].
  assert (forall j x, (j, x) ∈ kept ++ rest -> j <> id) as Other.
  { intros j x I ->. apply elem_of_app in I as [I|I].
    - apply (N2 id); [apply list_elem_of_fmap; exists (id, x); auto | left].
    - apply N4, list_elem_of_fmap. exists (id, x). auto. }
  split.
  - rewrite length_insert. apply (bt_length _ _ B).
  - rewrite map_app. apply list.NoDup_app. split; [exact N1|]. split; [intros j Hj Hk; apply (N2 j Hj); right; exact Hk | exact N3].
  - intros j x I. pose proof (Other j x I). destruct (bt_booting _ _ B j x ltac:(set_solver)) as [Hj Rj]. split; [exact Hj|].
    rewrite list_lookup_insert_ne by congruence. exact Rj.
  - intros j x Hj. destruct (decide (j = id)) as [->|Ne].
    + rewrite list_lookup_insert_eq in Hj by exact Lr. injection Hj as <-. eauto.
    + rewrite list_lookup_insert_ne in Hj by congruence. exact (bt_ready _ _ B j x Hj).
  - intros j Hj. destruct (decide (j = id)) as [->|Ne]; [right; exists w; apply list_lookup_insert_eq, Lr|].
    destruct (bt_all _ _ B j Hj) as [[x I]|[x Hx]]; [left; exists x; set_solver | right; exists x; rewrite list_lookup_insert_ne by congruence; exact Hx].
Qed.
Lemma sweep_outcome t : forall todo kept ready progressed, booted (kept ++ todo) ready ->
  match sweep lstat_at connects_at t kept todo ready progressed with
  | SweepErr _ booting' ready' => booted booting' ready'
  | Swept booting' ready' _ => booted booting' ready'
  end.
Proof.
  induction todo as [|[id s] todo IH]; intros kept ready progressed B; cbn [sweep]; [rewrite app_nil_r in B; exact B|].
  destruct (b_poll t id); [| exact B | exact B]. destruct (b_recv t id) as [m| |]; [| |exact B].
  - destruct (on_message lstat_at connects_at m id 1 s) as [w|e] eqn:M; [|exact B]. apply message_up in M. apply IH. exact (booted_ready _ _ _ _ _ _ B M).
  - apply IH. rewrite <- app_assoc. exact B.
Qed.
Lemma all_ready ready : booted [] ready -> up_from 0 sockets (omap id ready).
Proof.
  intros B. assert (exists ws, ready = map Some ws) as (ws & ->).
  { pose proof (bt_length _ _ B) as L. assert (forall o, o ∈ ready -> exists w, o = Some w) as S.
    { intros o I. apply list_elem_of_lookup_1 in I as (i & Hi). pose proof (lookup_lt_Some _ _ _ Hi) as Li. rewrite L in Li.
      destruct (bt_all _ _ B i Li) as [[x I]|[w Hw]]; [inversion I | exists w; congruence]. }
    clear L B. induction ready as [|o ready IH]; [exists []; reflexivity|]. destruct (S o ltac:(left)) as [w ->].
    destruct IH as [ws ->]; [intros o I; apply S; right; exact I | exists (w :: ws); reflexivity]. }
  assert (omap id (map Some ws) = ws) as -> by (clear; induction ws as [|w ws IH]; [reflexivity | cbn; f_equal; exact IH]).
  split; [rewrite <- (bt_length _ _ B), length_map; reflexivity|]. intros i s w Hs Hw.
  destruct (bt_ready _ _ B i w) as (s' & Hs' & U); [exact (eq_trans (list_lookup_fmap Some ws i) (f_equal (fmap Some) Hw))|].
  rewrite Hs in Hs'. injection Hs' as <-. exact U.
Qed.
Lemma boot_loop_outcome timeout turns : forall booting ready deadline now r running,
  booted booting ready ->
  boot_loop lstat_at connects_at turns booting ready (first_slots (length sockets)) timeout deadline now = Some (r, running) ->
  match r with
  | Ok (Some ws) => up_from 0 sockets ws /\ running = first_slots (length sockets)
  | Ok None => running = ∅
  | Err e => running = ∅
  end.
Proof.
  induction turns as [|t turns IH]; intros booting ready deadline now r running B E; destruct booting as [|bs0 booting]; cbn [boot_loop] in E; try discriminate.
  - injection E as <- <-. split; [apply all_ready, B | reflexivity].
  - injection E as <- <-. split; [apply all_ready, B | reflexivity].
  - destruct (b_shutdown t); [injection E as <- <-; apply fail_leaves_nothing, B|].
    pose proof (sweep_outcome t (bs0 :: booting) [] ready false B) as Sw. destruct (sweep _ _ _ _ _ _ _) as [e b' r'|b' r' p'].
    + injection E as <- <-. apply fail_leaves_nothing, Sw.
    + destruct p'; [eapply IH, E; exact Sw|]. destruct (deadline <=? _); [injection E as <- <-; apply fail_leaves_nothing, Sw | eapply IH, E; exact Sw].
Qed.
End Batched.

Lemma start_all_outcome todo : forall id booting ready r running,
  map fst booting = seq 0 id -> ready_ids ready = ∅ ->
  start_all spawns piped id todo booting ready (first_slots id) = (r, running) ->
  match r with
  | Ok booting' => booting' = booting ++ zip (seq id (length todo)) todo /\ running = first_slots (id + length todo)
  | Err e => running = ∅
  end.
Proof.
  induction todo as [|s todo IH]; intros id booting ready r running Hb Hr E; cbn [start_all] in E.
  - injection E as <- <-. cbn. rewrite app_nil_r, Nat.add_0_r. auto.
  - assert (forall x, x = first_slots id -> fail booting ready x = ∅) as F.
    { intros x ->. unfold fail, boot_ids. rewrite Hb, Hr. fold (first_slots id). set_solver. }
    destruct (spawns id); cbn [negb] in E; [|injection E as <- <-; apply F; reflexivity]. destruct (piped id); cbn [negb] in E.
    + assert ({[id]} ∪ first_slots id = first_slots (S id)) as G by (apply set_eq; intros i; rewrite elem_of_union, elem_of_singleton, !in_first_slots; lia).
      rewrite G in E. apply IH in E; [|rewrite map_app, Hb, seq_S; reflexivity | exact Hr]. cbn [length seq zip zip_with].
      rewrite Nat.add_succ_r. destruct r as [b|e]; [|exact E]. destruct E as [-> ->]. rewrite <- app_assoc. auto.
    + injection E as <- <-. apply F. apply set_eq. intros i. rewrite elem_of_difference, elem_of_union, elem_of_singleton, in_first_slots. lia.
Qed.
Lemma zip_booted sockets : booted sockets (zip (seq 0 (length sockets)) sockets) (replicate (length sockets) None).
Proof.
  assert (forall i s, (i, s) ∈ zip (seq 0 (length sockets)) sockets <-> sockets !! i = Some s) as Z.
  { intros i s. rewrite list_elem_of_lookup. split.
    - intros (j & Hj). apply lookup_zip_with_Some in Hj as (a & b & [= <- <-] & Ha & Hb). apply lookup_seq in Ha as [-> _]. exact Hb.
    - intros Hs. exists i. apply lookup_zip_with_Some. exists i, s. pose proof (lookup_lt_Some _ _ _ Hs). split; [reflexivity|]. split; [apply lookup_seq; lia | exact Hs]. }
  split.
  - apply length_replicate.
  - change (map fst (zip (seq 0 (length sockets)) sockets)) with ((zip (seq 0 (length sockets)) sockets).*1). rewrite fst_zip by (rewrite length_seq; reflexivity). apply NoDup_seq.
  - intros i s I. apply Z in I. split; [exact I|]. apply lookup_replicate_2, (lookup_lt_Some _ _ _ I).
  - intros i w H. apply lookup_replicate in H as [H _]. discriminate.
  - intros i Hi. left. destruct (lookup_lt_is_Some_2 sockets i Hi) as [s Hs]. exists s. apply Z, Hs.
Qed.

(** C20. The worker pool comes up whole or not at all.  When starting it succeeds, there is one
    worker per socket, in order, each ready under its own number on its own socket, which
    passed the private-directory check and took a connection, and exactly those processes
    run.  When it fails or a drain is requested meanwhile, whatever workers were started
    before, no process is left; only in the one-after-the-other boot, and only when polling
    the worker being waited for itself fails, that one worker is left running. *)
Theorem pool_boots_whole_or_not_at_all c sweeps now r running :
  spawn_worker_pool lstat_at connects_at spawns piped turns_of begins c sweeps now = Some (r, running) ->
  match r with
  | Ok (Some ws) => up_from 0 (sc_worker_sockets c) ws /\ running = first_slots (length (sc_worker_sockets c))
  | Ok None => running = ∅
  | Err e => nothing_left e (length (sc_worker_sockets c)) (negb (launch_is_async (sc_worker_launch c))) running
  end.
Proof.
  unfold spawn_worker_pool. destruct (launch_is_async (sc_worker_launch c)).
  - unfold boot_batched. set (sockets := sc_worker_sockets c).
    destruct (start_all _ _ _ _ _ _ _) as [[booting|e] run1] eqn:St; (apply start_all_outcome in St; [|reflexivity|]).
    + destruct St as [-> ->]. intros E. apply (boot_loop_outcome sockets) in E; [|apply zip_booted]. destruct r as [[ws|]|e]; [exact E | exact E | left; exact E].
    + apply set_eq. intros i. rewrite in_ready_ids. split; [|set_solver]. intros (w & _ & I). apply elem_of_replicate in I as [I _]. discriminate.
    + intros [= <- <-]. left. exact St.
    + apply set_eq. intros i. rewrite in_ready_ids. split; [|set_solver]. intros (w & _ & I). apply elem_of_replicate in I as [I _]. discriminate.
  - intros E. apply boot_each_outcome in E; [|reflexivity]. destruct r as [[ws|]|e]; [|exact E | exact E]. destruct E as (ws' & -> & U & ->). auto.
Qed.
End Whole.

(** ** Every boot is decided *)

(** How many polls of 25 ms fit before a deadline that is [left] away. *)
Definition polls (left : Z) : nat := Z.to_nat ((left + 24) / 25).
Lemma polls_fewer d d' : 0 < d' -> d' + 25 <= d -> (polls d' < polls d)%nat.
Proof.
  intros P H. unfold polls. assert ((d' + 24) / 25 + 1 <= (d + 24) / 25) by (apply Z.div_le_lower_bound; [lia|]; pose proof (Z.mul_div_le (d' + 24) 25 ltac:(lia)); lia).
  pose proof (Z.div_pos (d' + 24) 25 ltac:(lia) ltac:(lia)). lia.
Qed.
Lemma polls_spent d d' : 0 < d -> d' + 25 <= d -> (polls d' < polls d)%nat.
Proof.
  intros P H. destruct (Z_lt_le_dec 0 d') as [L|L]; [apply polls_fewer; assumption|]. unfold polls.
  assert ((d' + 24) / 25 < 1) by (apply Z.div_lt_upper_bound; lia). assert (1 <= (d + 24) / 25) by (apply Z.div_le_lower_bound; lia). lia.
Qed.

Section Decided.
Variable lstat_at : nat -> bytes -> stat.
Variable connects_at : nat -> bytes -> bool.

Lemma wait_decided id g s turns : forall deadline now, Forall (fun t => 0 <= w_took t) turns -> (polls (deadline - now) < length turns)%nat ->
  is_Some (wait_for_worker_ready lstat_at connects_at turns id g s deadline now).
Proof.
  induction turns as [|t turns IH]; intros deadline now F L; [cbn in L; lia|]. inversion_clear F as [|? ? Ht F0]. cbn [wait_for_worker_ready].
  destruct (w_shutdown t); [eauto|]. destruct (w_poll t); eauto. destruct (w_recv t) as [m| |]; eauto; [destruct (on_message _ _ _ _ _ _); eauto|].
  cbv zeta. destruct (_ <? deadline) eqn:D; [|eauto]. apply IH; [exact F0|].
  pose proof (polls_fewer (deadline - now) (deadline - (now + 25 + w_took t)) ltac:(lia) ltac:(lia)). cbn [length] in L. lia.
Qed.
Variable spawns : nat -> bool.
Variable piped : nat -> bool.
Variable turns_of : nat -> list wait_turn.
Variable begins : nat -> Z.
Lemma each_decided timeout sockets : (forall i, Forall (fun t => 0 <= w_took t) (turns_of i) /\ (polls timeout < length (turns_of i))%nat) ->
  forall id workers running, is_Some (boot_each lstat_at connects_at spawns piped turns_of begins id sockets timeout workers running).
Proof.
  intros Ts. induction sockets as [|s sockets IH]; intros id workers running; cbn [boot_each]; [eauto|].
  assert (is_Some (spawn_ready_worker lstat_at connects_at spawns piped turns_of begins id 1 s timeout)) as [[r alive] ->].
  { unfold spawn_ready_worker. destruct (negb (spawns id)); [eauto|]. destruct (negb (piped id)); [eauto|]. destruct (Ts id) as [F L].
    apply wait_decided; [exact F|]. replace (begins id + timeout - begins id) with timeout by lia. exact L. }
  destruct r as [[w|]|e]; eauto.
Qed.
Lemma sweep_shorter t todo : forall kept ready progressed booting' ready' progressed',
  sweep lstat_at connects_at t kept todo ready progressed = Swept booting' ready' progressed' ->
  (length booting' <= length kept + length todo)%nat /\ (progressed' = true -> progressed = true \/ (length booting' < length kept + length todo)%nat).
Proof.
  induction todo as [|[id s] todo IH]; intros kept ready progressed b' r' p'; cbn [sweep length].
  - intros [= <- <- <-]. split; [lia | auto].
  - destruct (b_poll t id); [|discriminate | discriminate]. destruct (b_recv t id) as [m| |]; [| |discriminate].
    + destruct (on_message _ _ m id 1 s) as [w|e]; [|discriminate]. intros E. apply IH in E as [L P]. split; [lia | intros _; right; lia].
    + intros E. apply IH in E as [L P]. rewrite length_app in L, P. cbn [length] in L, P. split; [lia|]. intros Hp. destruct (P Hp); [auto | right; lia].
Qed.
Lemma loop_decided timeout turns : forall booting ready running deadline now, Forall (fun t => 0 <= b_took t) turns ->
  (length booting * S (polls timeout) + polls (deadline - now) < length turns)%nat ->
  is_Some (boot_loop lstat_at connects_at turns booting ready running timeout deadline now).
Proof.
  induction turns as [|t turns IH]; intros booting ready running deadline now F L; [cbn in L; lia|]. inversion_clear F as [|? ? Ht F0].
  destruct booting as [|b booting]; cbn [boot_loop]; [eauto|]. destruct (b_shutdown t); [eauto|].
  destruct (sweep _ _ _ _ _ _ _) as [e b' r'|b' r' p'] eqn:Sw; [eauto|]. cbv zeta. apply sweep_shorter in Sw as [Lb P]. cbn [length] in L, Lb, P.
  destruct p'.
  - destruct (P eq_refl) as [Hf|Lt]; [discriminate|]. apply IH; [exact F0|]. replace (now + b_took t + timeout - (now + b_took t)) with timeout by lia. nia.
  - destruct (deadline <=? now + b_took t) eqn:D; [eauto|]. apply IH; [exact F0|].
    pose proof (polls_spent (deadline - now) (deadline - (now + b_took t + 25)) ltac:(lia) ltac:(lia)). nia.
Qed.
(** Every boot is decided: however long the polls take, the wait for one worker ends within
    the polls of 25 ms that fit its timeout, and the batched wait within that many polls, and
    one more, per worker and once again, for a READY renews the window of the others. *)
Theorem pool_boot_is_decided c sweeps now :
  (forall i, Forall (fun t => 0 <= w_took t) (turns_of i) /\ (polls (sc_worker_ready_timeout c) < length (turns_of i))%nat) ->
  Forall (fun t => 0 <= b_took t) sweeps ->
  (length (sc_worker_sockets c) * S (polls (sc_worker_ready_timeout c)) + polls (sc_worker_ready_timeout c) < length sweeps)%nat ->
  is_Some (spawn_worker_pool lstat_at connects_at spawns piped turns_of begins c sweeps now).
Proof.
  intros Ts Fs Ls. unfold spawn_worker_pool. destruct (launch_is_async _); [|apply each_decided, Ts].
  unfold boot_batched. destruct (start_all _ _ _ _ _ _ _) as [[booting|e] running] eqn:St; [|eauto].
  apply loop_decided; [exact Fs|]. replace (now + sc_worker_ready_timeout c - now) with (sc_worker_ready_timeout c) by lia.
  assert (forall todo id b ready run b' run', start_all spawns piped id todo b ready run = (Ok b', run') -> length b' = (length b + length todo)%nat) as Len.
  { induction todo as [|s todo IH]; intros id b ready run b' run'; cbn [start_all length]; [intros [= <- _]; lia|].
    destruct (negb (spawns id)); [discriminate|]. destruct (negb (piped id)); [discriminate|]. intros E. rewrite (IH _ _ _ _ _ _ E), length_app. cbn. lia. }
  rewrite (Len _ _ _ _ _ _ _ St). exact Ls.
Qed.
End Decided.

(** ** From the worker's output to its slot *)

Lemma reader_counts pre : forall seen l rest, Forall (fun p => starts_with WORKER_READY_PREFIX p = false) pre -> starts_with WORKER_READY_PREFIX l = true ->
  seen <= MAX_PRE_READY_OUTPUT_BYTES ->
  readiness_reader seen (map Line pre ++ Line l :: rest) =
  Some (if seen + zlen (concat pre) <=? MAX_PRE_READY_OUTPUT_BYTES then ReadyLine l else OutputFailed cap_text).
Proof.
  induction pre as [|p pre IH]; intros seen l rest F L S; cbn [map app readiness_reader concat].
  - rewrite L. unfold zlen. cbn [length]. replace (seen + Z.of_nat 0 <=? MAX_PRE_READY_OUTPUT_BYTES) with true by lia. reflexivity.
  - inversion_clear F as [|? ? Hp F0]. rewrite Hp. cbv zeta. replace (zlen (p ++ concat pre)) with (zlen p + zlen (concat pre)) by (unfold zlen; rewrite length_app; lia).
    destruct (seen + zlen p >? MAX_PRE_READY_OUTPUT_BYTES) eqn:C.
    + pose proof (zlen_nonneg (concat pre)). replace (_ <=? MAX_PRE_READY_OUTPUT_BYTES) with false by lia. reflexivity.
    + rewrite IH by (assumption || lia). rewrite Z.add_assoc. reflexivity.
Qed.
Lemma starts_app p s : starts_with p (p ++ s) = true.
Proof. induction p as [|b p IH]; [reflexivity|]. cbn. rewrite bool_decide_eq_true_2 by reflexivity. exact IH. Qed.
Lemma ready_line_read socket nl : forallb is_newline nl = true -> match rev socket with b :: _ => is_newline b = false | [] => True end ->
  ready_socket_from_line (WORKER_READY_PREFIX ++ socket ++ nl) = Ok socket.
Proof.
  intros Nl S. unfold ready_socket_from_line, strip_prefix. rewrite starts_app, drop_app_length. f_equal. unfold trim_end_by. rewrite rev_app_distr.
  assert (forall l, forallb is_newline l = true -> trim_start_by is_newline (l ++ rev socket) = trim_start_by is_newline (rev socket)) as T.
  { induction l as [|b l IH]; intros F; [reflexivity|]. cbn in F. apply andb_true_iff in F as [Hb F]. cbn. rewrite Hb. apply IH, F. }
  rewrite T by (apply forallb_forall; intros b I; apply in_rev in I; rewrite forallb_forall in Nl; apply Nl, I).
  rewrite <- (rev_involutive socket) at 2. f_equal. destruct (rev socket) as [|b r]; [reflexivity|]. cbn. rewrite S. reflexivity.
Qed.
(** A worker that announces its socket is taken for ready exactly when it should be: after at
    most 64 KiB of other output, its READY line with the socket it was given, however it is
    ended, gives its slot when the socket passes the private-directory check and takes a
    connection, and the matching refusal otherwise; after more output it is refused whatever
    the line says. *)
Theorem announced_worker_is_taken lstat_at connects_at pre socket nl rest id generation :
  Forall (fun p => starts_with WORKER_READY_PREFIX p = false) pre ->
  forallb is_newline nl = true -> match rev socket with b :: _ => is_newline b = false | [] => True end ->
  exists m, readiness_reader 0 (map Line pre ++ Line (WORKER_READY_PREFIX ++ socket ++ nl) :: rest) = Some m /\
    on_message lstat_at connects_at m id generation socket =
      if zlen (concat pre) <=? MAX_PRE_READY_OUTPUT_BYTES then
        match validate_worker_socket_path (lstat_at id) socket with
        | Ok _ => if connects_at id socket then Ok (slot_ready id generation socket) else Err WorkerSocketProbe
        | Err e => Err (WorkerSocketInvalid e)
        end
      else Err WorkerReadinessOutputTooLarge.
Proof.
  intros F Nl S. eexists. split; [apply reader_counts; [exact F | apply starts_app | discriminate]|]. cbn [Z.add].
  destruct (_ <=? MAX_PRE_READY_OUTPUT_BYTES); [|reflexivity]. cbn [on_message]. unfold finish_worker_ready. rewrite ready_line_read by assumption. cbn [rbind].
  unfold path_eq. rewrite bool_decide_eq_true_2 by reflexivity. cbn [negb]. destruct (validate_worker_socket_path (lstat_at id) socket); reflexivity.
Qed.
Lemma announced_worker_is_taken_witness :
  exists m, readiness_reader 0 [Line (bs "booting"); Line (bs "OXO_WORKER_READY=/run/oxo/w-0.sock" ++ [zb 13; zb 10])] = Some m /\
    on_message (fun _ p => if eq_bytes p (bs "/run/oxo") then Found Dir 448 else Found Socket 384) (fun _ _ => true) m 0 1 (bs "/run/oxo/w-0.sock") =
    Ok (slot_ready 0 1 (bs "/run/oxo/w-0.sock")).
Proof.
  destruct (announced_worker_is_taken (fun _ p => if eq_bytes p (bs "/run/oxo") then Found Dir 448 else Found Socket 384) (fun _ _ => true)
    [bs "booting"] (bs "/run/oxo/w-0.sock") [zb 13; zb 10] [] 0 1) as (m & R & O).
  - constructor; [reflexivity | constructor].
  - reflexivity.
  - reflexivity.
  - exists m. split; [exact R|]. rewrite O. vm_compute. reflexivity.
Defined.

(** ** Waiting for a listener *)

Lemma bind_outcome turns : forall deadline now r alive, wait_for_bind turns deadline now = Some (r, alive) ->
  match r with Ok _ => alive = true | Err BindWait => alive = true | Err _ => alive = false end.
Proof.
  induction turns as [|t turns IH]; intros deadline now r alive; cbn [wait_for_bind]; [discriminate|].
  destruct (t_poll t); [|intros [= <- <-]; reflexivity | intros [= <- <-]; reflexivity]. destruct (t_connects t); [intros [= <- <-]; reflexivity|].
  cbv zeta. destruct (deadline <=? _); [intros [= <- <-]; reflexivity | apply IH].
Qed.
Lemma bind_decided turns : forall deadline now, Forall (fun t => 0 <= t_took t) turns -> (polls (deadline - now) < length turns)%nat -> is_Some (wait_for_bind turns deadline now).
Proof.
  induction turns as [|t turns IH]; intros deadline now F L; [cbn in L; lia|]. inversion_clear F as [|? ? Ht F0]. cbn [wait_for_bind].
  destruct (t_poll t); eauto. destruct (t_connects t); [eauto|]. cbv zeta. destruct (deadline <=? now + t_took t) eqn:D; [eauto|]. apply IH; [exact F0|].
  pose proof (polls_spent (deadline - now) (deadline - (now + t_took t + 25)) ltac:(lia) ltac:(lia)). cbn [length] in L. lia.
Qed.
Lemma sidecar_outcome o spawns w : is_Some w ->
  (forall r alive, w = Some (r, alive) -> match r with Ok _ => alive = true | Err BindWait => alive = true | Err _ => alive = false end) ->
  exists r alive, start_sidecar (Ok o) spawns w = Some (r, alive) /\
    match r with Ok started => alive = started | Err (StartWait BindWait) => alive = true | Err (StartConf _) => False | Err _ => alive = false end.
Proof.
  intros [[r alive] ->] H. specialize (H r alive eq_refl). cbn [start_sidecar]. destruct o as [[cmd b]|]; [|exists (Ok false), false; auto].
  destruct (spawns cmd); cbn [negb]; [|exists (Err StartSpawn), false; auto]. destruct r as [u|e]; [exists (Ok true), alive; auto|].
  exists (Err (StartWait e)), alive. split; [reflexivity|]. destruct e; exact H.
Qed.
(** Starting a sidecar of an accepted configuration is decided within 601 polls; its process
    runs afterwards exactly when it counts as started, but for a wait that itself fails; and
    the bind is never missing. *)
Theorem sidecar_runs_or_is_gone getenv fstat creates current_exe acme_built cli c spawns turns now :
  ServiceBoot.from_cli getenv fstat creates current_exe acme_built cli = Ok c ->
  Forall (fun t => 0 <= t_took t) turns -> (600 < length turns)%nat ->
  forall start, start = spawn_cable \/ start = spawn_grpc ->
  exists r alive, start c spawns turns now = Some (r, alive) /\
    match r with Ok started => alive = started | Err (StartWait BindWait) => alive = true | Err (StartConf _) => False | Err _ => alive = false end.
Proof.
  intros E F L start St. destruct (accepted_sidecars _ _ _ _ _ _ _ E) as [[rc Hc] [rg Hg]].
  assert (is_Some (wait_for_bind turns (now + 15000) now)) as D.
  { apply bind_decided; [exact F|]. replace (now + 15000 - now) with 15000 by lia. exact L. }
  destruct St as [-> | ->]; unfold spawn_cable, spawn_grpc; [rewrite Hc | rewrite Hg]; (apply sidecar_outcome; [exact D | intros r alive; apply bind_outcome]).
Qed.

(** ** What passes through *)

(** [relay] writes what it reads, in order, and all of it when no write fails. *)
Definition chunks (reads : list chunk_read) : list bytes := flat_map (fun r => match r with Chunk d => [d] | _ => [] end) reads.
Lemma relay_copies reads write_ok : forall n, exists rest, chunks reads = relay reads write_ok n ++ rest /\
  ((forall k, write_ok k = true) -> Forall (fun r => r <> ChunksEnd /\ r <> ChunkFails) reads -> rest = []).
Proof.
  induction reads as [|[d| | |] reads IH]; intros n; cbn [chunks flat_map relay app].
  - exists []. auto.
  - destruct (write_ok n) eqn:W.
    + destruct (IH (S n)) as (rest & E & A). exists rest. cbn [app]. unfold chunks in E. rewrite E. split; [reflexivity|]. intros Ok0 F. inversion_clear F. auto.
    + eexists. split; [reflexivity|]. intros Ok0. rewrite Ok0 in W. discriminate.
  - eexists. split; [reflexivity|]. intros _ F. inversion_clear F as [|? ? [Ne _] _]. contradiction.
  - destruct (IH n) as (rest & E & A). exists rest. split; [exact E|]. intros Ok0 F. inversion_clear F. auto.
  - eexists. split; [reflexivity|]. intros _ F. inversion_clear F as [|? ? [_ Ne] _]. contradiction.
Qed.

(** ** Examples *)

(** Two workers on private sockets that announce themselves; the second one's channel and
    process as given. *)
Definition demo_service (launch : WorkerLaunch) : ServiceConfig :=
  {| sc_worker_bin := Some (bs "/opt/oxo/oxo-worker"); sc_worker_launch := launch; sc_worker_ready_timeout := 50; sc_worker_respawn_ready_timeout := 50;
     sc_worker_drain_wait := 1000; sc_edge_bin := bs "/opt/oxo/oxo-pingora-edge"; sc_worker_socket := bs "/run/oxo/w.sock";
     sc_worker_sockets := [bs "/run/oxo/w-0.sock"; bs "/run/oxo/w-1.sock"]; sc_worker_count := 2; sc_edge_bind := ServiceConf.demo_bind; sc_check_config := false;
     sc_cable_bin := None; sc_cable_bind := None; sc_grpc_bin := None; sc_grpc_bind := None; sc_drain_grace := 5000; sc_edge_drain_grace := 2000;
     sc_worker_env := []; sc_edge_env := []; sc_edge_args := []; sc_cable_env := []; sc_grpc_env := []; sc_acme_renew := None |}.
Definition demo_async : WorkerLaunch := Async (bs "/usr/bin/bundle") (bs "/usr/bin/ruby") (bs "/opt/oxo/worker.rb") (bs "/srv/app").
Definition demo_lstat (_ : nat) (p : bytes) : stat := if eq_bytes p (bs "/run/oxo") then Found Dir 448 else Found Socket 384.
Definition demo_line (i : nat) : recv :=
  Got (ReadyLine (if (i =? 0)%nat then bs "OXO_WORKER_READY=/run/oxo/w-0.sock" else bs "OXO_WORKER_READY=/run/oxo/w-1.sock")).
Definition demo_turns (second : poll) (i : nat) : list wait_turn :=
  [{| w_shutdown := false; w_poll := Running; w_recv := Nothing; w_took := 3 |};
   {| w_shutdown := false; w_poll := if (i =? 0)%nat then Running else second; w_recv := demo_line i; w_took := 0 |};
   {| w_shutdown := false; w_poll := Running; w_recv := Nothing; w_took := 0 |}].
Definition demo_sweeps (second : poll) : list sweep_turn :=
  {| b_shutdown := false; b_poll := fun i => if (i =? 0)%nat then Running else second; b_recv := fun i => if (i =? 0)%nat then demo_line i else Nothing; b_took := 1 |} ::
  replicate 9 {| b_shutdown := false; b_poll := fun _ => Running; b_recv := demo_line; b_took := 1 |}.
Local Abbreviation demo_boot launch second :=
  (spawn_worker_pool demo_lstat (fun _ _ => true) (fun _ => true) (fun _ => true) (demo_turns second) (fun _ => 0) (demo_service launch) (demo_sweeps second) 0).

Lemma pool_boots_whole_or_not_at_all_witness :
  exists ws running, demo_boot demo_async Running = Some (Ok (Some ws), running) /\
    map ws_socket ws = [bs "/run/oxo/w-0.sock"; bs "/run/oxo/w-1.sock"] /\ running = first_slots 2.
Proof.
  destruct (demo_boot demo_async Running) as [[[[ws|]|e] running]|] eqn:E; [| vm_compute in E; discriminate..].
  exists ws, running. split; [reflexivity|]. split; [vm_compute in E; injection E as <- _; vm_compute; reflexivity|].
  exact (proj2 (pool_boots_whole_or_not_at_all _ _ _ _ _ _ _ _ _ _ _ E)).
Defined.
Lemma pool_boot_is_decided_witness : is_Some (demo_boot Classic Running) /\ polls 50 = 2%nat.
Proof.
  split; [|vm_compute; reflexivity]. apply pool_boot_is_decided.
  - intros i. split; [|vm_compute; lia]. destruct i; repeat constructor; cbn; lia.
  - repeat constructor; cbn; lia.
  - vm_compute. lia.
Defined.
(** When polling the worker being waited for fails, the one-after-the-other boot terminates
    the workers before it and leaves that worker running; the batched boot leaves nothing. *)
Lemma failed_poll_leaves_a_worker :
  demo_boot Classic WaitFails = Some (Err WaitError, {[1%nat]}) /\ demo_boot demo_async WaitFails = Some (Err WaitError, ∅).
Proof. split; vm_compute; reflexivity. Qed.
(** A sidecar whose poll fails while its listener is waited for keeps running although its
    start is an error. *)
Lemma failed_poll_leaves_a_sidecar cmd bind now :
  start_sidecar (Ok (Some (cmd, bind))) (fun _ => true) (wait_for_cable_ready [{| t_poll := WaitFails; t_connects := false; t_took := 0 |}] now) =
  Some (Err (StartWait BindWait), true).
Proof. reflexivity. Qed.
(** The cap on output before READY counts whole lines, after they were read: the READY line
    itself may have any length. *)
Lemma ready_line_is_not_capped n :
  readiness_reader 0 [Line (WORKER_READY_PREFIX ++ repeat (zb 97) n)] = Some (ReadyLine (WORKER_READY_PREFIX ++ repeat (zb 97) n)).
Proof. cbn [readiness_reader]. rewrite starts_app. reflexivity. Qed.
