(* ===== verification/WorkerStart.v ===== *)
(** * WorkerStart: the life of a worker process

    Model of [run], [start_listener_and_threads] and [prepare_socket] of
    [crates/oxo-worker/src/native/serve.rs] and of [init_vm_and_load_app],
    [start_ruby_threads] and [join_ruby_threads] of [native/ruby.rs], and their composition
    with the supervisor that started the worker ([ServiceBoot], [WorkerBoot]).  The part of
    the file system a worker touches is its socket and the directory of the socket; whether
    each call on it succeeds is an argument.  What the process does is kept as a trace. *)

From stdpp Require Import gmap.
From S2P Require Import Prelude Text LineText FsChecks JobQueue WorkerServe ServiceConf ServiceBoot WorkerBoot.

(** ** The socket and its directory *)

Record node : Type := { n_type : file_type; n_mode : Z; n_uid : Z }.
Record sock_host : Type := {
  sh_dir : option node;             (** the directory's own entry *)
  sh_dir_target : option node;      (** what the directory's path leads to through links *)
  sh_socket : option node;          (** the entry of the socket *)
  sh_listening : bool;
}.
Inductive call : Type := StatDir | CreateDir | ChmodDir | StatSocket | RemoveSocket | BindSocket | ChmodSocket | SpawnAcceptor.
Inductive event : Type :=
| AppLoaded | ThreadsStarted (n : Z) | Announced (line : bytes) | Accepting | SocketRemoved | QueueClosed | ThreadsJoined.
Record process : Type := { p_host : sock_host; p_trace : list event }.
Inductive start_error : Type :=
| RubyInit | AppNotFound | AppLoad
| NoParent | DirStat | DirNotDirectory | DirMode (mode : Z) | DirCreate | DirChmod
| SocketStat | NotSocket | NotOwner (uid : Z) | StaleRemove | Binding | SocketChmod | Acceptor.

(** Fallible code on the process: the result and what it left, also after an error. *)
Abbreviation proc A := (process -> result start_error A * process).
Definition p_ret {A} (a : A) : proc A := fun p => (Ok a, p).
Definition p_err {A} (e : start_error) : proc A := fun p => (Err e, p).
Definition p_bind {A B} (c : proc A) (k : A -> proc B) : proc B :=
  fun p => match c p with (Ok a, p') => k a p' | (Err e, p') => (Err e, p') end.
Notation "'let*' x := c 'in' k" := (p_bind c (fun x => k)) (at level 10, x name, k at level 200).
Definition p_emit (e : event) : proc unit := fun p => (Ok tt, {| p_host := p_host p; p_trace := p_trace p ++ [e] |}).
Definition p_host_of {A} (f : sock_host -> A) : proc A := fun p => (Ok (f (p_host p)), p).
Definition p_change (f : sock_host -> sock_host) : proc unit := fun p => (Ok tt, {| p_host := f (p_host p); p_trace := p_trace p |}).

Definition set_dir (n : option node) (h : sock_host) : sock_host := {| sh_dir := n; sh_dir_target := n; sh_socket := sh_socket h; sh_listening := sh_listening h |}.
Definition set_socket (n : option node) (h : sock_host) : sock_host := {| sh_dir := sh_dir h; sh_dir_target := sh_dir_target h; sh_socket := n; sh_listening := sh_listening h |}.
Definition listen (h : sock_host) : sock_host := {| sh_dir := sh_dir h; sh_dir_target := sh_dir_target h; sh_socket := sh_socket h; sh_listening := true |}.
Definition with_mode (mode : Z) (n : option node) : option node := (fun n => {| n_type := n_type n; n_mode := mode; n_uid := n_uid n |}) <$> n.
Definition is_type (t : file_type) (n : node) : bool :=
  match n_type n, t with Dir, Dir | Socket, Socket | Regular, Regular => true | _, _ => false end.

Section Worker.
(** Whether each call succeeds, the effective user and the process's [umask]. *)
Variable can : call -> bool.
Variables (euid umask : Z).

Definition try_call (c : call) (e : start_error) : proc unit := if can c then p_ret tt else p_err e.
Definition created_mode (base : Z) : Z := Z.land base (Z.lnot umask).

Definition prepare_dir : proc unit :=
  let* target := p_host_of sh_dir_target in
  match target with
  | Some d =>
      let* _ := try_call StatDir DirStat in
      if negb (is_type Dir d) then p_err DirNotDirectory
      else if negb (Z.land (n_mode d) 63 =? 0) then p_err (DirMode (perm (n_mode d)))
      else p_ret tt
  | None =>
      let* _ := try_call CreateDir DirCreate in
      let* _ := p_change (set_dir (Some {| n_type := Dir; n_mode := created_mode 511; n_uid := euid |})) in
      let* _ := try_call ChmodDir DirChmod in
      p_change (set_dir (Some {| n_type := Dir; n_mode := 448; n_uid := euid |}))
  end.
Definition remove_stale : proc unit :=
  let* _ := try_call StatSocket SocketStat in
  let* entry := p_host_of sh_socket in
  match entry with
  | Some n =>
      if negb (is_type Socket n) then p_err NotSocket
      else if negb (n_uid n =? euid) then p_err (NotOwner (n_uid n))
      else let* _ := try_call RemoveSocket StaleRemove in p_change (set_socket None)
  | None => p_ret tt
  end.
Definition prepare_socket (socket : bytes) : proc unit :=
  match parent socket with
  | None => p_err NoParent
  | Some _ => let* _ := prepare_dir in remove_stale
  end.

(** [UnixListener::bind] refuses a path that is taken. *)
Definition bind_socket : proc unit :=
  let* entry := p_host_of sh_socket in
  match entry with
  | Some _ => p_err Binding
  | None =>
      let* _ := try_call BindSocket Binding in
      let* _ := p_change (set_socket (Some {| n_type := Socket; n_mode := created_mode 511; n_uid := euid |})) in
      p_change listen
  end.
Definition READY_PREFIX : bytes := bs "OXO_WORKER_READY=".
(** [println!("{READY_PREFIX}{}", socket.display())]. *)
Definition ready_line (socket : bytes) : bytes := READY_PREFIX ++ to_text socket ++ [zb 10].
Definition start_listener_and_threads (socket : bytes) : proc unit :=
  let* _ := prepare_socket socket in
  let* _ := bind_socket in
  let* _ := try_call ChmodSocket SocketChmod in
  let* _ := p_change (fun h => set_socket (with_mode 384 (sh_socket h)) h) in
  let* _ := p_emit (Announced (ready_line socket)) in
  let* _ := try_call SpawnAcceptor Acceptor in
  p_emit Accepting.

(** [accept_loop]: each connection gets its own thread, whose panic is caught there; an accept
    error is logged and the loop goes on. *)
Fixpoint accept_loop {A} (incoming : list (option A)) : list A :=
  match incoming with
  | [] => []
  | Some stream :: incoming' => stream :: accept_loop incoming'
  | None :: incoming' => accept_loop incoming'
  end.
(** No accept error costs another connection. *)
Lemma accept_loop_serves_all {A} (incoming : list (option A)) stream : In (Some stream) incoming <-> In stream (accept_loop incoming).
Proof. induction incoming as [|[s|] l IH]; cbn; [tauto | rewrite <- IH | rewrite <- IH]; intuition congruence. Qed.

(** ** The Ruby side *)

(** Whether the VM starts, whether the application file is there and whether the evaluation
    of the helper and of the application succeeds. *)
Record ruby_boot : Type := { rb_init : bool; rb_app_is_file : bool; rb_loads : bool }.
Definition init_vm_and_load_app (rb : ruby_boot) : proc unit :=
  if negb (rb_init rb) then p_err RubyInit
  else if negb (rb_app_is_file rb) then p_err AppNotFound
  else if negb (rb_loads rb) then p_err AppLoad
  else p_emit AppLoaded.

(** In milliseconds.  A thread is known by the time it ends, if it does; [Thread#join] with a
    limit returns when the thread has ended or the limit is over. *)
Definition DRAIN_DEADLINE : Z := 900.
Definition join_until (now limit : Z) (ends : option Z) : Z :=
  match ends with Some t => if t <=? now + limit then Z.max now t else now + limit | None => now + limit end.
Fixpoint join_ruby_threads (deadline now : Z) (threads : list (option Z)) : Z :=
  match threads with
  | [] => now
  | t :: threads' => join_ruby_threads deadline (join_until now (Z.max 0 (deadline - now)) t) threads'
  end.

(** ** The whole life *)

(** [run]: up to the park, and what follows the interrupt; the removal of the socket may
    fail, which is ignored. *)
Definition start_worker (rb : ruby_boot) (c : Config) : proc unit :=
  let* _ := init_vm_and_load_app rb in
  let* _ := p_emit (ThreadsStarted (cfg_threads c)) in
  start_listener_and_threads (cfg_socket c).
Definition stop_worker : proc unit :=
  let* _ := (if can RemoveSocket then let* _ := p_change (set_socket None) in p_emit SocketRemoved else p_ret tt) in
  let* _ := p_emit QueueClosed in
  p_emit ThreadsJoined.
Definition run (rb : ruby_boot) (c : Config) : proc unit :=
  let* _ := start_worker rb c in stop_worker.
End Worker.

(** ** What a start comes to *)

(** A directory the worker accepts: its target is a directory closed to group and others. *)
Definition closed_dir (h : sock_host) : Prop := exists d, sh_dir_target h = Some d /\ is_type Dir d = true /\ Z.land (n_mode d) 63 = 0.
(** A socket path the worker may take: free, or a socket of its own user. *)
Definition takeable (euid : Z) (h : sock_host) : Prop := match sh_socket h with Some n => is_type Socket n = true /\ n_uid n = euid | None => True end.
Definition bound_socket (euid : Z) : node := {| n_type := Socket; n_mode := 384; n_uid := euid |}.
Definition all_calls (can : call -> bool) : Prop := forall c, can c = true.

Section Start.
Variable can : call -> bool.
Variables (euid umask : Z).
Local Abbreviation prepare_dir := (prepare_dir can euid umask).
Local Abbreviation prepare_socket := (prepare_socket can euid umask).
Local Abbreviation start_listener_and_threads := (start_listener_and_threads can euid umask).
Local Abbreviation start_worker := (start_worker can euid umask).

Lemma p_bind_ok {A B} (c : proc A) (k : A -> proc B) p b p' : p_bind c k p = (Ok b, p') -> exists a p1, c p = (Ok a, p1) /\ k a p1 = (Ok b, p').
Proof. unfold p_bind. destruct (c p) as [[a|e] p1]; [eauto | discriminate]. Qed.
Lemma p_bind_run {A B} (c : proc A) (k : A -> proc B) p a p1 : c p = (Ok a, p1) -> p_bind c k p = k a p1.
Proof. unfold p_bind. intros ->. reflexivity. Qed.
Lemma p_bind_err {A B} (c : proc A) (k : A -> proc B) p e p1 : c p = (Err e, p1) -> p_bind c k p = (Err e, p1).
Proof. unfold p_bind. intros ->. reflexivity. Qed.

(** Preparing the directory leaves the socket, the trace and an accepted directory as they
    were; a directory it made is closed and its own. *)
Lemma prepare_dir_outcome p r p' : prepare_dir p = (r, p') ->
  sh_socket (p_host p') = sh_socket (p_host p) /\ sh_listening (p_host p') = sh_listening (p_host p) /\ p_trace p' = p_trace p /\
  (is_Some (sh_dir_target (p_host p)) -> p' = p) /\ (r = Ok tt -> closed_dir (p_host p')) /\
  (sh_dir_target (p_host p) = None -> r = Ok tt -> sh_dir (p_host p') = Some {| n_type := Dir; n_mode := 448; n_uid := euid |}).
Proof.
  unfold WorkerStart.prepare_dir, p_host_of, p_bind, try_call, p_ret, p_err, p_change. destruct (sh_dir_target (p_host p)) as [d|] eqn:T.
  - destruct (can StatDir); [|intros [= <- <-]; repeat split; intros; discriminate].
    destruct (is_type Dir d) eqn:Ty; cbn [negb]; [|intros [= <- <-]; repeat split; intros; discriminate].
    destruct (Z.land (n_mode d) 63 =? 0) eqn:M; cbn [negb]; [|intros [= <- <-]; repeat split; intros; discriminate].
    intros [= <- <-]. do 4 (split; [reflexivity || intros _; reflexivity|]). split; [intros _; exists d; split; [exact T|]; split; [exact Ty | lia] | discriminate].
  - destruct (can CreateDir); [|intros [= <- <-]; repeat split; intros; try discriminate; destruct H; discriminate].
    destruct (can ChmodDir); [|intros [= <- <-]; repeat split; intros; try discriminate; destruct H; discriminate].
    intros [= <- <-]. cbn. do 3 (split; [reflexivity|]). split; [intros [x H]; discriminate|]. split; [intros _; eexists; repeat split | reflexivity].
Qed.
Lemma remove_stale_outcome p r p' : remove_stale can euid p = (r, p') ->
  sh_dir (p_host p') = sh_dir (p_host p) /\ sh_dir_target (p_host p') = sh_dir_target (p_host p) /\ sh_listening (p_host p') = sh_listening (p_host p) /\
  p_trace p' = p_trace p /\ (r = Ok tt -> takeable euid (p_host p) /\ sh_socket (p_host p') = None) /\ (r <> Ok tt -> p' = p).
Proof.
  unfold remove_stale, takeable, p_host_of, p_bind, try_call, p_ret, p_err, p_change. destruct (can StatSocket); [|intros [= <- <-]; repeat split; intros; discriminate].
  destruct (sh_socket (p_host p)) as [n|] eqn:S; [|intros [= <- <-]; repeat split; auto; intros H; contradiction].
  destruct (is_type Socket n) eqn:Ty; cbn [negb]; [|intros [= <- <-]; repeat split; intros; discriminate].
  destruct (n_uid n =? euid) eqn:U; cbn [negb]; [|intros [= <- <-]; repeat split; intros; discriminate].
  destruct (can RemoveSocket); [|intros [= <- <-]; repeat split; intros; discriminate].
  intros [= <- <-]. cbn. do 4 (split; [reflexivity|]). split; [intros _; split; [split; [reflexivity | lia] | reflexivity] | intros H; contradiction].
Qed.

(** A start of the listener either announces nothing and leaves a path it may not take as it
    was, or it took a path it may take, in a closed directory, and listens on a socket of its
    own with mode 0600 before it announces it. *)
Definition listening_private (p p' : process) : Prop :=
  takeable euid (p_host p) /\ sh_socket (p_host p') = Some (bound_socket euid) /\ sh_listening (p_host p') = true /\ closed_dir (p_host p') /\
  (is_Some (sh_dir_target (p_host p)) -> sh_dir (p_host p') = sh_dir (p_host p)).
Lemma listener_outcome socket p r p' : start_listener_and_threads socket p = (r, p') ->
  (p_trace p' = p_trace p /\ r <> Ok tt /\ (~ takeable euid (p_host p) -> sh_socket (p_host p') = sh_socket (p_host p))) \/
  (p_trace p' = p_trace p ++ Announced (ready_line socket) :: (match r with Ok _ => [Accepting] | Err _ => [] end) /\ listening_private p p').
Proof.
  unfold WorkerStart.start_listener_and_threads, WorkerStart.prepare_socket. destruct (parent socket) as [dir|]; [|intros [= <- <-]; left; repeat split; discriminate].
  destruct (prepare_dir p) as [rd p1] eqn:D. pose proof (prepare_dir_outcome _ _ _ D) as (S1 & L1 & T1 & K1 & C1 & _).
  destruct rd as [[]|e]; [|unfold p_bind; rewrite D; intros [= <- <-]; left; split; [exact T1|]; split; [discriminate | intros _; exact S1]].
  specialize (C1 eq_refl). destruct (remove_stale can euid p1) as [rs p2] eqn:R. pose proof (remove_stale_outcome _ _ _ R) as (D2 & G2 & L2 & T2 & O2 & E2).
  assert (p_bind prepare_dir (fun _ => remove_stale can euid) p = (rs, p2)) as PS by (unfold p_bind; rewrite D; exact R).
  destruct rs as [[]|e].
  2: { unfold p_bind at 1. rewrite PS. intros [= <- <-]. rewrite E2 by discriminate. left. split; [exact T1|]. split; [discriminate | intros _; exact S1]. }
  destruct (O2 eq_refl) as [Tk N2]. assert (takeable euid (p_host p)) as Tk0 by (unfold takeable in *; rewrite <- S1; exact Tk).
  unfold p_bind at 1. rewrite PS. unfold bind_socket, p_host_of, p_bind, try_call, p_ret, p_err, p_change, p_emit. rewrite N2.
  destruct (can BindSocket); [|intros [= <- <-]; left; split; [congruence|]; split; [discriminate | intros H; contradiction]].
  destruct (can ChmodSocket); [|intros [= <- <-]; left; cbn; split; [congruence|]; split; [discriminate | intros H; contradiction]].
  cbn. assert (forall p3, sh_socket (p_host p3) = Some (bound_socket euid) -> sh_listening (p_host p3) = true -> sh_dir (p_host p3) = sh_dir (p_host p2) ->
    sh_dir_target (p_host p3) = sh_dir_target (p_host p2) -> listening_private p p3) as Fin.
  { intros p3 Hs Hl Hd Ht. split; [exact Tk0|]. split; [exact Hs|]. split; [exact Hl|]. split.
    - destruct C1 as (d & Hc & Rest). exists d. rewrite Ht, G2. auto.
    - intros Dt. rewrite Hd, D2, (K1 Dt). reflexivity. }
  destruct (can SpawnAcceptor); intros [= <- <-]; right; cbn; (split; [rewrite T2, T1, <- ?app_assoc; reflexivity | apply Fin; reflexivity]).
Qed.

(** A worker is announced only when it can serve, privately.  Whatever fails: if a start wrote
    a READY line, it names the configured socket, the application was loaded and the Ruby
    threads were started before it, and the process listens on that path with a socket of its
    own, mode 0600, in a directory closed to group and others; there is only one such line.
    And a path that holds anything but a free name or a socket of the worker's own user is
    refused and left as it was. *)
Theorem ready_line_means_serving rb c p r p' line :
  p_trace p = [] -> start_worker rb c p = (r, p') ->
  (Announced line ∈ p_trace p' ->
     line = ready_line (cfg_socket c) /\ listening_private p p' /\
     p_trace p' = [AppLoaded; ThreadsStarted (cfg_threads c); Announced line] ++ match r with Ok _ => [Accepting] | Err _ => [] end) /\
  (~ takeable euid (p_host p) -> r <> Ok tt /\ sh_socket (p_host p') = sh_socket (p_host p)).
Proof.
  intros T0 E. unfold WorkerStart.start_worker, init_vm_and_load_app in E.
  assert (forall e, (r, p') = (Err e, p) -> (Announced line ∈ p_trace p' -> line = ready_line (cfg_socket c) /\ listening_private p p' /\
     p_trace p' = [AppLoaded; ThreadsStarted (cfg_threads c); Announced line] ++ match r with Ok _ => [Accepting] | Err _ => [] end) /\
    (~ takeable euid (p_host p) -> r <> Ok tt /\ sh_socket (p_host p') = sh_socket (p_host p))) as Early.
  { intros e [= -> ->]. rewrite T0. split; [intros H; inversion H | intros _; split; [discriminate | reflexivity]]. }
  destruct (rb_init rb); [|symmetry in E; apply (Early _ E)]. destruct (rb_app_is_file rb); [|symmetry in E; apply (Early _ E)].
  destruct (rb_loads rb); [|symmetry in E; apply (Early _ E)]. clear Early. unfold p_bind, p_emit in E. cbn in E. rewrite T0 in E. cbn in E.
  apply listener_outcome in E. cbn [p_host p_trace] in E. destruct E as [(Tr & Ne & Un)|(Tr & Pr)].
  - rewrite Tr. split; [intros H; repeat (inversion H as [|? ? ? H']; subst; clear H; rename H' into H); inversion H | intros Nt; split; [exact Ne | apply Un, Nt]].
  - split.
    + intros H. rewrite Tr in H. assert (line = ready_line (cfg_socket c)) as ->.
      { cbn in H. destruct r; set_solver. }
      split; [reflexivity|]. split; [exact Pr | rewrite Tr; destruct r; reflexivity].
    + intros Nt. destruct Pr as [Tk _]. contradiction.
Qed.
End Start.

(** ** The supervisor and the worker together *)

(** What the supervisor sees of the worker's directory and socket. *)
Definition stat_of (n : option node) : stat := match n with Some n => Found (n_type n) (n_mode n) | None => NotFound end.
Definition host_lstat (h : sock_host) (socket q : bytes) : stat :=
  if eq_bytes q socket then stat_of (sh_socket h) else if bool_decide (parent socket = Some q) then stat_of (sh_dir h) else NotFound.

Section Together.
Variable getenv : bytes -> option bytes.
Variable fstat : bytes -> stat.
Variable creates : bytes -> bool.
Variable current_exe : option bytes.
Variable acme_built : bool.
Variables (euid umask : Z).

Lemma worker_reads_its_socket sc id generation socket cmd cli c :
  ServiceBoot.from_cli getenv fstat creates current_exe acme_built cli = Ok sc -> worker_command sc id generation socket = Some cmd ->
  WorkerServe.from_env (fun n => cmd_env cmd !! n) = Ok c -> socket <> [] -> cfg_socket c = socket.
Proof.
  intros E W F Ne. destruct (worker_is_told_its_slot _ _ _ _ _ _ _ _ _ _ _ E W) as (S & _). unfold WorkerServe.from_env in F.
  apply rbind_ok in F as (app & _ & F). apply rbind_ok in F as (s & Fs & F). unfold env_path in Fs. rewrite S in Fs. destruct socket as [|b socket]; [contradiction|].
  injection Fs as <-. apply rbind_ok in F as (n & _ & F). destruct (n =? 0); [discriminate|]. do 4 (apply rbind_ok in F as (? & _ & F)). injection F as <-. reflexivity.
Qed.

(** C16. The handshake of a worker with the supervisor that started it.  Take a worker slot of an
    accepted configuration and start its command where every call succeeds: the process reads
    its own socket from its environment; if the path may be taken, is valid text without a
    trailing line break, and its directory is a real one with mode 0700, then the process
    comes up, and the line it writes, after at most 64 KiB of other output, makes the
    supervisor take it for ready on exactly that socket. *)
Theorem started_worker_is_taken cli sc id generation socket cmd c rb p dir d pre :
  ServiceBoot.from_cli getenv fstat creates current_exe acme_built cli = Ok sc ->
  worker_command sc id generation socket = Some cmd ->
  WorkerServe.from_env (fun n => cmd_env cmd !! n) = Ok c ->
  rb = {| rb_init := true; rb_app_is_file := true; rb_loads := true |} -> p_trace p = [] ->
  is_absolute socket = true -> utf8 socket = true -> parent socket = Some dir -> dir <> [] ->
  match rev socket with b :: _ => is_newline b = false | [] => True end ->
  sh_dir (p_host p) = Some d -> sh_dir_target (p_host p) = Some d -> n_type d = Dir -> n_mode d = 448 -> takeable euid (p_host p) ->
  Forall (fun l => starts_with WORKER_READY_PREFIX l = false) pre -> zlen (concat pre) <= MAX_PRE_READY_OUTPUT_BYTES ->
  exists p' line m, start_worker (fun _ => true) euid umask rb c p = (Ok tt, p') /\ Announced line ∈ p_trace p' /\
    readiness_reader 0 (map Line pre ++ [Line line]) = Some m /\
    on_message (fun _ => host_lstat (p_host p') socket) (fun _ _ => sh_listening (p_host p')) m id generation socket = Ok (slot_ready id generation socket).
Proof.
  intros E W F -> T0 Abs U P Nd Nl Sd St Ty Mo Tk Fp Lp.
  assert (socket <> []) as Ne by (intros ->; discriminate). pose proof (worker_reads_its_socket _ _ _ _ _ _ _ E W F Ne) as Cs.
  assert (takeable euid (p_host p) -> exists p', start_worker (fun _ => true) euid umask {| rb_init := true; rb_app_is_file := true; rb_loads := true |} c p = (Ok tt, p') /\
      sh_dir (p_host p') = Some d /\ sh_socket (p_host p') = Some (bound_socket euid) /\ sh_listening (p_host p') = true /\
      p_trace p' = [AppLoaded; ThreadsStarted (cfg_threads c); Announced (ready_line socket); Accepting]) as (p' & R & D' & S' & L' & Tr); [|exact Tk|].
  - intros Tk0. unfold takeable in Tk0. unfold start_worker, init_vm_and_load_app, start_listener_and_threads, prepare_socket. rewrite Cs, P.
    unfold prepare_dir, remove_stale, bind_socket, p_bind, p_host_of, p_emit, p_change, try_call, p_ret. cbn -[ready_line]. rewrite St, T0. unfold is_type. rewrite Ty, Mo. change (Z.land 448 63 =? 0) with true. cbn -[ready_line].
    destruct (sh_socket (p_host p)) as [n|] eqn:Sn; cbn -[ready_line].
    + destruct Tk0 as [Tn Un]. unfold is_type in Tn. destruct (n_type n) eqn:Tn'; try discriminate. rewrite Un, Z.eqb_refl. cbn -[ready_line].
      eexists. split; [reflexivity|]. cbn. rewrite Sd. auto.
    + rewrite Sn. cbn -[ready_line]. eexists. split; [reflexivity|]. cbn. rewrite Sd. auto.
  - exists p', (ready_line socket). destruct (announced_worker_is_taken (fun _ => host_lstat (p_host p') socket) (fun _ _ => sh_listening (p_host p')) pre socket [zb 10] [] id generation Fp eq_refl Nl) as (m & Rm & Om).
    exists m. split; [exact R|]. split; [rewrite Tr; set_solver|]. split; [unfold ready_line; rewrite (to_text_utf8 _ U); exact Rm|].
    rewrite Om. replace (_ <=? MAX_PRE_READY_OUTPUT_BYTES) with true by lia.
    assert (validate_worker_socket_path (host_lstat (p_host p') socket) socket = Ok tt) as ->; [|rewrite L'; reflexivity].
    unfold validate_worker_socket_path. rewrite Abs, P. cbn [negb]. destruct dir as [|b dir]; [contradiction|].
    pose proof (parent_shorter _ _ P) as Sh. unfold validate_runtime_dir, validate_socket_if_present, host_lstat.
    assert (eq_bytes (b :: dir) socket = false) as -> by (apply not_true_iff_false; rewrite eq_bytes_true; intros Eq; rewrite Eq in Sh; lia).
    rewrite bool_decide_eq_true_2 by exact P. assert (eq_bytes socket socket = true) as -> by (apply eq_bytes_true; reflexivity).
    rewrite D', S'. cbn [stat_of]. rewrite Ty, Mo. reflexivity.
Qed.
End Together.

(** The demonstration host of [ServiceBoot], one worker of it and its process. *)
Definition demo_dir : node := {| n_type := Dir; n_mode := 448; n_uid := 1000 |}.
Definition demo_process : process :=
  {| p_host := {| sh_dir := Some demo_dir; sh_dir_target := Some demo_dir; sh_socket := Some {| n_type := Socket; n_mode := 493; n_uid := 1000 |}; sh_listening := false |};
     p_trace := [] |}.
Definition demo_ruby : ruby_boot := {| rb_init := true; rb_app_is_file := true; rb_loads := true |}.
Definition stale : bytes := bs "/run/oxo/w-1.sock".
Lemma started_worker_is_taken_witness :
  exists sc cmd c p' line m,
    ServiceBoot.from_cli (demo_getenv []) demo_fstat (fun _ => true) demo_exe true EdgeCli.cli_default = Ok sc /\ worker_command sc 1 1 stale = Some cmd /\
    WorkerServe.from_env (fun n => cmd_env cmd !! n) = Ok c /\ start_worker (fun _ => true) 1000 18 demo_ruby c demo_process = (Ok tt, p') /\
    Announced line ∈ p_trace p' /\ readiness_reader 0 [Line (bs "loading"); Line line] = Some m /\
    on_message (fun _ => host_lstat (p_host p') stale) (fun _ _ => sh_listening (p_host p')) m 1 1 stale = Ok (slot_ready 1 1 stale).
Proof.
  assert (match ServiceBoot.from_cli (demo_getenv []) demo_fstat (fun _ => true) demo_exe true EdgeCli.cli_default with
          | Ok sc => match worker_command sc 1 1 stale with
                     | Some cmd => match WorkerServe.from_env (fun n => cmd_env cmd !! n) with Ok _ => true | Err _ => false end
                     | None => false end
          | Err _ => false end = true) as K by (vm_compute; reflexivity).
  destruct (ServiceBoot.from_cli (demo_getenv []) demo_fstat (fun _ => true) demo_exe true EdgeCli.cli_default) as [sc|e] eqn:E; [|discriminate].
  destruct (worker_command sc 1 1 stale) as [cmd|] eqn:W; [|discriminate].
  destruct (WorkerServe.from_env (fun n => cmd_env cmd !! n)) as [c|e] eqn:F; [|discriminate].
  destruct (started_worker_is_taken (demo_getenv []) demo_fstat (fun _ => true) demo_exe true 1000 18 EdgeCli.cli_default sc 1 1 stale cmd c demo_ruby demo_process
    (bs "/run/oxo") demo_dir [bs "loading"]) as (p' & line & m & R & A & Rd & O);
    [exact E | exact W | exact F | reflexivity | reflexivity | reflexivity | reflexivity | reflexivity | discriminate | reflexivity | reflexivity | reflexivity
    | reflexivity | reflexivity | split; reflexivity | constructor; [reflexivity | constructor] | vm_compute; discriminate |].
  exists sc, cmd, c, p', line, m. split; [reflexivity|]. split; [exact W|]. split; [exact F|]. split; [exact R|]. split; [exact A|]. split; [exact Rd | exact O].
Defined.
(** A socket path that is not valid text is announced with replacement characters, and the
    supervisor takes the announcement for another path. *)
Lemma lossy_socket_is_never_ready lstat_at connects_at id generation :
  let socket := bs "/run/oxo/" ++ [zb 255] in
  on_message lstat_at connects_at (ReadyLine (ready_line socket)) id generation socket = Err (WorkerReadyWrongSocket (bs "/run/oxo/" ++ replacement)).
Proof. reflexivity. Qed.
(** A directory with mode 0500 is closed to group and others: the worker listens in it, the
    supervisor then refuses it. *)
Lemma read_only_directory_is_refused_late :
  let d := {| n_type := Dir; n_mode := 320; n_uid := 1000 |} in
  let p := {| p_host := {| sh_dir := Some d; sh_dir_target := Some d; sh_socket := None; sh_listening := false |}; p_trace := [] |} in
  exists p', start_listener_and_threads (fun _ => true) 1000 18 stale p = (Ok tt, p') /\
    on_message (fun _ => host_lstat (p_host p') stale) (fun _ _ => true) (ReadyLine (ready_line stale)) 1 1 stale = Err (WorkerSocketInvalid (RuntimeDirMode 320)).
Proof. eexists. split; [vm_compute; reflexivity | vm_compute; reflexivity]. Qed.

(** ** The end *)

Lemma join_until_bounds now limit t : 0 <= limit -> now <= join_until now limit t <= now + limit /\ (forall e, t = Some e -> e <= now + limit -> e <= join_until now limit t).
Proof. intros L. unfold join_until. destruct t as [e|]; [destruct (e <=? now + limit) eqn:D|]; split; try lia; intros e' [= <-]; lia. Qed.
(** The stop takes its budget and no more: joining the Ruby threads one after the other ends
    by the deadline, however many there are and whenever they end, and waits for every thread
    that ends by the deadline; the budget is less than the supervisor's drain stage for a
    classic worker. *)
Theorem drain_waits_for_the_punctual now budget threads : 0 <= budget ->
  let done := join_ruby_threads (now + budget) now threads in
  now <= done <= now + budget /\ (forall e, Some e ∈ threads -> e <= now + budget -> e <= done) /\ DRAIN_DEADLINE < WORKER_DRAIN_WAIT.
Proof.
  intros B done. assert (forall deadline threads n, n <= deadline -> n <= join_ruby_threads deadline n threads <= deadline /\
    forall e, Some e ∈ threads -> e <= deadline -> e <= join_ruby_threads deadline n threads) as G.
  { clear. intros deadline. induction threads as [|t threads IH]; intros n L; cbn [join_ruby_threads]; [split; [lia | intros e H; inversion H]|].
    destruct (join_until_bounds n (Z.max 0 (deadline - n)) t ltac:(lia)) as [J P]. destruct (IH (join_until n (Z.max 0 (deadline - n)) t) ltac:(lia)) as [I Q].
    split; [lia|]. intros e H He. apply elem_of_cons in H as [<-|H]; [specialize (P e eq_refl ltac:(lia)); lia | apply Q; assumption]. }
  destruct (G (now + budget) threads now ltac:(lia)) as [I Q]. split; [exact I|]. split; [exact Q | reflexivity].
Qed.
(** A worker that stops takes its name away before it turns requests away: new connections
    fail over to a sibling while queued jobs still run. *)
Lemma socket_goes_before_the_queue can euid umask rb c p p' : p_trace p = [] -> can RemoveSocket = true ->
  run can euid umask rb c p = (Ok tt, p') -> sh_socket (p_host p') = None /\ exists t, p_trace p' = t ++ [SocketRemoved; QueueClosed; ThreadsJoined].
Proof.
  intros T0 R E. unfold run in E. apply p_bind_ok in E as ([] & p1 & _ & E). unfold stop_worker, p_bind, p_change, p_emit in E. rewrite R in E. cbn in E.
  injection E as <-. cbn. split; [reflexivity|]. exists (p_trace p1). rewrite <- !app_assoc. reflexivity.
Qed.
