(* ===== verification/StreamQueue.v ===== *)
(** * StreamQueue: a streamed body between Ruby and Rust

    A streamed answer has two threads: the Ruby thread that [handle_stream] of the helper in
    [crates/oxo-worker/src/native/ruby.rs] starts, which pushes the parts of the body on a
    [SizedQueue] of [STREAM_QUEUE_LIMIT] entries, and the worker thread in
    [call_ruby_streaming], which pops them and sends them to the connection thread.  The two
    run in any order and block on the queue.  The file models both as steps on the shared
    queue and proves that every schedule sends the events of the sequential
    [WorkerRuby.call_ruby_streaming], in a bounded number of steps and with a bounded queue.

    The parts are the strings [part.to_s.b] yields; a body that raises at its end and one that
    returns end the same way here, in the [ensure] that signals the end. *)

From stdpp Require Import relations list.
From S2P Require Import Prelude Text WorkerParser WorkerRuby WorkerFrame.

Definition STREAM_QUEUE_LIMIT : nat := 8.

Inductive producer : Type := Producing (todo : list bytes) | Signalling | Finished.
(** [Failed]: [call_ruby_streaming] returned an error before its loop. *)
Inductive consumer : Type := Starting | Reading | Ended | Abandoned | Failed.
(** The queue holds the parts and the final nil ([None]); [receiver] more sends find their
    receiver. *)
Record stream : Type :=
  { ruby_side : producer; items : list (option bytes); q_closed : bool; rust_side : consumer; receiver : nat; sent : list WorkerEvent }.

Section Queue.
Context {E : Type}.
(** The head of the answer, or the error of its conversion. *)
Variable head : result E WorkerResponseHead.

Definition initial (parts : list bytes) (alive : nat) : stream :=
  {| ruby_side := Producing parts; items := []; q_closed := false; rust_side := Starting; receiver := alive; sent := [] |}.
Definition room (s : stream) : bool := (length (items s) <? STREAM_QUEUE_LIMIT)%nat.
(** [queue <<] with room, and what the thread does next. *)
Definition pushed (x : option bytes) (p : producer) (s : stream) : stream :=
  {| ruby_side := p; items := items s ++ [x]; q_closed := q_closed s; rust_side := rust_side s; receiver := receiver s; sent := sent s |}.
Definition with_prod (p : producer) (s : stream) : stream :=
  {| ruby_side := p; items := items s; q_closed := q_closed s; rust_side := rust_side s; receiver := receiver s; sent := sent s |}.
(** A step of the Ruby thread; [None]: blocked or finished.  A push on a closed queue raises
    [ClosedQueueError], which both places rescue. *)
Definition produce (s : stream) : option stream :=
  match ruby_side s with
  | Producing (p :: todo) =>
      if q_closed s then Some (with_prod Signalling s) else if room s then Some (pushed (Some p) (Producing todo) s) else None
  | Producing [] => Some (with_prod Signalling s)
  | Signalling => if q_closed s then Some (with_prod Finished s) else if room s then Some (pushed None Finished s) else None
  | Finished => None
  end.
(** [send_stream_event]: whether the receiver was there. *)
Definition send (ev : WorkerEvent) (s : stream) : bool * stream :=
  match receiver s with
  | O => (false, s)
  | S r => (true, {| ruby_side := ruby_side s; items := items s; q_closed := q_closed s; rust_side := rust_side s; receiver := r; sent := sent s ++ [ev] |})
  end.
Definition goto (c : consumer) (s : stream) : stream :=
  {| ruby_side := ruby_side s; items := items s; q_closed := q_closed s; rust_side := c; receiver := receiver s; sent := sent s |}.
Definition close_stream_queue (s : stream) : stream :=
  {| ruby_side := ruby_side s; items := items s; q_closed := true; rust_side := rust_side s; receiver := receiver s; sent := sent s |}.
Definition pop (q : list (option bytes)) (s : stream) : stream :=
  {| ruby_side := ruby_side s; items := q; q_closed := q_closed s; rust_side := rust_side s; receiver := receiver s; sent := sent s |}.
Definition send_or_close (ev : WorkerEvent) (s : stream) : stream :=
  let '(alive, s) := send ev s in
  if alive then goto Reading s else goto Abandoned (close_stream_queue s).
(** A step of the worker thread. *)
Definition consume (s : stream) : option stream :=
  match rust_side s with
  | Starting =>
      match head with
      | Err _ => Some (goto Failed s)
      | Ok h => Some (send_or_close (EvStart h) s)
      end
  | Reading =>
      match items s with
      | Some c :: q => Some (send_or_close (EvChunk c) (pop q s))
      | None :: q => Some (goto Ended (snd (send EvEnd (pop q s))))
      | [] => if q_closed s then Some (goto Ended (snd (send EvEnd s))) else None
      end
  | Ended | Abandoned | Failed => None
  end.
Definition step (s s' : stream) : Prop := produce s = Some s' \/ consume s = Some s'.
Definition stuck (s : stream) : Prop := produce s = None /\ consume s = None.
(** Any scheduler: at each turn which thread runs first, the other one when it is blocked. *)
Fixpoint run_stream (schedule : list bool) (s : stream) : stream :=
  match schedule with
  | [] => s
  | b :: schedule' =>
      let next := if b then match produce s with Some s' => Some s' | None => consume s end
                  else match consume s with Some s' => Some s' | None => produce s end in
      match next with Some s' => run_stream schedule' s' | None => s end
  end.

(** ** Termination *)

Definition producer_work (p : producer) : nat := match p with Producing todo => 2 * length todo + 4 | Signalling => 2 | Finished => 0 end.
Definition consumer_work (c : consumer) : nat := match c with Starting => 2 | Reading => 1 | _ => 0 end.
Definition work (s : stream) : nat := producer_work (ruby_side s) + length (items s) + consumer_work (rust_side s).
Ltac stream_cases := repeat (case_match; simplify_eq; cbn in * ).
Lemma step_works s s' : step s s' -> (work s' < work s)%nat.
Proof.
  destruct s as [p q cl c r ev]. unfold step, work, produce, consume, send_or_close, send, room. cbn.
  intros [H|H]; stream_cases; rewrite ?length_app; cbn; lia.
Qed.
Lemma nsteps_bound n s s' : nsteps step n s s' -> (n + work s' <= work s)%nat.
Proof. induction 1 as [|n x y z H _ IH]; [lia|]. apply step_works in H. lia. Qed.

(** ** The invariant *)

Definition todo (p : producer) : list bytes := match p with Producing t => t | _ => [] end.
Definition queued (q : list (option bytes)) : list bytes := omap (fun x => x) q.
(** The parts that are not sent yet. *)
Definition pending (s : stream) : list bytes := queued (items s) ++ todo (ruby_side s).
(** The events of a stream whose parts [ps] are still to come. *)
Definition coming (ps : list bytes) (r : nat) : list WorkerEvent := fst (stream_chunks (E := E) (map Ok ps) r).
Definition starting (ps : list bytes) (r : nat) : list WorkerEvent :=
  match head, r with Ok h, S r => EvStart h :: coming ps r | _, _ => [] end.
Definition to_come (s : stream) : list WorkerEvent :=
  match rust_side s with Starting => starting (pending s) (receiver s) | Reading => coming (pending s) (receiver s) | _ => [] end.
Definition is_abandoned (c : consumer) : bool := match c with Abandoned => true | _ => false end.
(** Before it is closed the queue holds parts, then the nil of a finished producer. *)
Definition queue_shape (s : stream) : Prop :=
  match rust_side s with
  | Starting | Reading | Failed => items s = map Some (queued (items s)) ++ (match ruby_side s with Finished => [None] | _ => [] end)
  | Ended => ruby_side s = Finished
  | Abandoned => True
  end.
Record stream_inv (parts : list bytes) (alive : nat) (s : stream) : Prop :=
  { si_bounded : (length (items s) <= STREAM_QUEUE_LIMIT)%nat;
    si_closed : q_closed s = is_abandoned (rust_side s);
    si_shape : queue_shape s;
    si_failed : rust_side s = Failed -> exists e, head = Err e;
    si_events : sent s ++ to_come s = starting parts alive;
    si_kept : rust_side s = Starting \/ rust_side s = Failed -> pending s = parts }.

Lemma queued_app q q' : queued (q ++ q') = queued q ++ queued q'.
Proof. apply omap_app. Qed.
Lemma pushed_pending p ps s : ruby_side s = Producing (p :: ps) -> pending (pushed (Some p) (Producing ps) s) = pending s.
Proof. intros H. unfold pending. rewrite H. cbn [items pushed ruby_side todo]. rewrite queued_app, <- app_assoc. reflexivity. Qed.
Lemma stream_initial_inv parts alive : stream_inv parts alive (initial parts alive).
Proof. split; cbn; try reflexivity; try discriminate. unfold STREAM_QUEUE_LIMIT. lia. Qed.
(** The Ruby thread's step leaves what is still to be sent as it is. *)
Lemma produce_inv parts alive s s' : stream_inv parts alive s -> produce s = Some s' -> stream_inv parts alive s'.
Proof.
  intros [B C Sh F Ev K] H.
  assert (rust_side s' = rust_side s /\ receiver s' = receiver s /\ sent s' = sent s /\ q_closed s' = q_closed s /\ (length (items s') <= STREAM_QUEUE_LIMIT)%nat /\
    (q_closed s = false -> pending s' = pending s) /\ (q_closed s = false -> queue_shape s -> queue_shape s')) as (Hc & Hr & Hs & Hq & Hb & Hp & Hsh).
  { unfold produce in H. destruct (ruby_side s) as [[|p ps]| |] eqn:P; [ | | |discriminate].
    - injection H as <-. cbn. repeat split; try assumption.
      + intros _. unfold pending. rewrite P. reflexivity.
      + intros _. unfold queue_shape. cbn. rewrite P. destruct (rust_side s); try discriminate; trivial.
    - destruct (q_closed s) eqn:Cl; [injection H as <-; cbn; rewrite Cl; repeat split; try assumption; discriminate|].
      destruct (room s) eqn:R; [|discriminate]. injection H as <-. apply Nat.ltb_lt in R. rewrite pushed_pending by exact P.
      cbn. rewrite length_app, Cl. cbn. repeat split; try lia. intros _. unfold queue_shape. cbn. rewrite P, queued_app, map_app. cbn.
      destruct (rust_side s); trivial; try discriminate; rewrite !app_nil_r; intros <-; reflexivity.
    - destruct (q_closed s) eqn:Cl; [injection H as <-; cbn; rewrite Cl; repeat split; try assumption; discriminate|].
      destruct (room s) eqn:R; [|discriminate]. injection H as <-. apply Nat.ltb_lt in R. cbn. rewrite length_app, Cl. cbn. repeat split; try lia.
      + intros _. unfold pending. rewrite P. cbn. rewrite queued_app. cbn. rewrite app_nil_r. reflexivity.
      + intros _. unfold queue_shape. cbn. rewrite P, queued_app, map_app. cbn.
        destruct (rust_side s); trivial; rewrite !app_nil_r; intros <-; reflexivity. }
  destruct (is_abandoned (rust_side s)) eqn:A.
  - destruct (rust_side s) eqn:Cs; try discriminate. split; [assumption | rewrite Hq, Hc; assumption | unfold queue_shape; rewrite Hc; exact I | rewrite Hc; discriminate | |
      rewrite Hc; intros [?|?]; discriminate]. unfold to_come in *. rewrite Hs, Hc. rewrite Cs in Ev. exact Ev.
  - split; [assumption | rewrite Hq, Hc, A; exact C | apply Hsh; assumption | rewrite Hc; exact F | | rewrite Hc, Hp by exact C; exact K].
    unfold to_come in *. rewrite Hs, Hc, Hr, Hp by exact C. exact Ev.
Qed.
Lemma coming_cons c ps r : coming (c :: ps) r = match r with O => [] | S r => EvChunk c :: coming ps r end.
Proof. unfold coming. cbn. destruct r as [|r]; [reflexivity|]. destruct (stream_chunks (map Ok ps) r). reflexivity. Qed.
Lemma coming_last r : coming [] r = match r with O => [] | S _ => [EvEnd] end.
Proof. reflexivity. Qed.
(** The queue's first entry, when the worker thread reads. *)
Lemma reading_head parts alive s x q : stream_inv parts alive s -> rust_side s = Reading -> items s = x :: q ->
  match x with
  | Some c => pending s = c :: pending (pop q s) /\ queue_shape (pop q s)
  | None => q = [] /\ ruby_side s = Finished
  end.
Proof.
  intros [_ _ Sh _ _ _] R Q. unfold queue_shape in *. rewrite R, Q in Sh. unfold pending. rewrite Q. cbn [items ruby_side pop rust_side]. rewrite R. destruct x as [c|].
  - split; [reflexivity|]. cbn in Sh. injection Sh as Sh. exact Sh.
  - change (queued (None :: q)) with (queued q) in Sh. destruct (ruby_side s); destruct (queued q); cbn in Sh; try discriminate. injection Sh as ->. auto.
Qed.
(** A send moves its event from what is to come to what is sent, or closes the queue. *)
Lemma send_or_close_inv parts alive ev s :
  (length (items s) <= STREAM_QUEUE_LIMIT)%nat -> q_closed s = false -> queue_shape (goto Reading s) ->
  sent s ++ match receiver s with O => [] | S r => ev :: coming (pending s) r end = starting parts alive ->
  stream_inv parts alive (send_or_close ev s).
Proof.
  intros B C Sh Ev. unfold send_or_close, send. destruct (receiver s) as [|r] eqn:R.
  - split; cbn; try assumption; try discriminate; try (intros [?|?]; discriminate); try exact I; reflexivity.
  - split; cbn; try assumption; try discriminate; try (intros [?|?]; discriminate). unfold to_come. cbn. rewrite <- app_assoc. exact Ev.
Qed.
Lemma consume_inv parts alive s s' : stream_inv parts alive s -> consume s = Some s' -> stream_inv parts alive s'.
Proof.
  intros Iv H. pose proof Iv as [B C Sh F Ev K]. unfold consume in H. destruct (rust_side s) eqn:R; try discriminate; unfold to_come in Ev; rewrite R in *.
  - destruct head as [h|e] eqn:Hd; injection H as <-.
    + unfold queue_shape in Sh. rewrite R in Sh. unfold starting at 1 in Ev. rewrite Hd in Ev. apply send_or_close_inv; assumption.
    + unfold queue_shape in Sh. rewrite R in Sh. unfold starting at 1 in Ev. rewrite Hd in Ev. split; cbn; try assumption; eauto.
  - destruct (items s) as [|[c|] q] eqn:Q.
    + cbn in C. rewrite C in H. discriminate.
    + injection H as <-. destruct (reading_head _ _ _ _ _ Iv R Q) as [Pd Sh']. rewrite Pd, coming_cons in Ev.
      unfold queue_shape in Sh'. cbn [rust_side pop] in Sh'. rewrite R in Sh'.
      apply send_or_close_inv; cbn; try assumption. cbn in B. lia.
    + injection H as <-. destruct (reading_head _ _ _ _ _ Iv R Q) as [-> P].
      unfold pending in Ev. rewrite P, Q in Ev. change (queued [None] ++ todo Finished) with (@nil bytes) in Ev. rewrite coming_last in Ev.
      unfold send. cbn. destruct (receiver s); split; cbn; try assumption; try discriminate; try lia; try (intros [?|?]; discriminate).
      rewrite app_nil_r. exact Ev.
Qed.
Lemma stream_reachable_inv parts alive s : rtc step (initial parts alive) s -> stream_inv parts alive s.
Proof.
  revert s. apply (rtc_ind_r (stream_inv parts alive)); [apply stream_initial_inv|]. intros y z _ [H|H] Iv; [eapply produce_inv | eapply consume_inv]; eassumption.
Qed.
Lemma stuck_is_over parts alive s : stream_inv parts alive s -> stuck s -> to_come s = [] /\ (ruby_side s = Finished \/ rust_side s = Failed).
Proof.
  intros [B C Sh F Ev K] [P Q]. unfold consume in Q. unfold to_come, produce, queue_shape in *. destruct (rust_side s); cbn in C.
  - destruct head; discriminate.
  - destruct (items s) as [|[c|] q] eqn:It; try discriminate. unfold room in P. rewrite C, It in P. cbn in P, Sh.
    destruct (ruby_side s) as [[|]| |]; discriminate.
  - auto.
  - rewrite C in P. destruct (ruby_side s) as [[|]| |]; try discriminate. auto.
  - auto.
Qed.
End Queue.

(** ** What every schedule does *)

Section Streamed.
Context {E : Type}.
Variable convertible : bytes -> bool.
Variable conversion_error : E.
(** The sequential call for an answer with these parts. *)
Definition sequential (status : Z) (flat : list bytes) (parts : list bytes) (req : WorkerRequest) (opts : WorkerOptions) (alive : nat) : list WorkerEvent * result E unit :=
  call_ruby_streaming (fun _ _ => Ok (status, flat, map Ok parts)) convertible conversion_error req opts alive.
Lemma sequential_events status flat parts req opts alive :
  fst (sequential status flat parts req opts alive) = starting (stream_head convertible conversion_error status flat) parts alive.
Proof.
  unfold sequential, call_ruby_streaming, starting, coming. destruct (stream_head _ _ _ _) as [h|e]; [|reflexivity]. destruct alive as [|n]; [reflexivity|].
  destruct (stream_chunks (map Ok parts) n). reflexivity.
Qed.
End Streamed.
(** C14. A streamed answer does not depend on the schedule.  Whatever the interleaving of the Ruby
    thread that produces the body and the worker thread that sends it, the queue never holds
    more than [STREAM_QUEUE_LIMIT] entries, what has been sent is a beginning of what the
    sequential call sends, the two threads stop after a number of steps linear in the body,
    and when they have stopped exactly the sequential call's events were sent; the Ruby thread
    has then finished, even when the client went away, provided the head was sent to it. *)
Theorem streamed_body_refines {E} convertible (conversion_error : E) status flat parts req opts alive s :
  rtc (step (stream_head convertible conversion_error status flat)) (initial parts alive) s ->
  (length (items s) <= STREAM_QUEUE_LIMIT)%nat /\
  sent s `prefix_of` fst (sequential convertible conversion_error status flat parts req opts alive) /\
  (forall n s', nsteps (step (stream_head convertible conversion_error status flat)) n (initial parts alive) s' -> (n <= 2 * length parts + 6)%nat) /\
  (stuck (stream_head convertible conversion_error status flat) s ->
    sent s = fst (sequential convertible conversion_error status flat parts req opts alive) /\
    (forall head, stream_head convertible conversion_error status flat = Ok head -> ruby_side s = Finished)).
Proof.
  intros H. pose proof (stream_reachable_inv _ _ _ _ H) as Iv. rewrite sequential_events.
  split; [exact (si_bounded _ _ _ _ Iv)|]. split; [exists (to_come (stream_head convertible conversion_error status flat) s); symmetry; exact (si_events _ _ _ _ Iv)|]. split.
  - intros n s' N. apply nsteps_bound in N. cbn in N. lia.
  - intros St. destruct (stuck_is_over _ _ _ _ Iv St) as [Z D]. split.
    + pose proof (si_events _ _ _ _ Iv) as Ev. rewrite Z, app_nil_r in Ev. exact Ev.
    + intros h Hh. destruct D as [D|D]; [exact D|]. destruct (si_failed _ _ _ _ Iv D). congruence.
Qed.
Lemma run_reaches {E} (head : result E WorkerResponseHead) schedule : forall s, rtc (step head) s (run_stream head schedule s).
Proof.
  induction schedule as [|b sch IH]; intros s; cbn; [constructor|].
  destruct b; destruct (produce s) eqn:P; destruct (consume head s) eqn:C; try constructor;
    (eapply rtc_l; [|apply IH]); first [left; assumption | right; assumption].
Qed.
Definition demo_parts : list bytes := map (fun n => bs "part " ++ show_uint n) [1; 2; 3; 4; 5; 6; 7; 8; 9; 10; 11; 12]%Z.
Definition demo_flat : list bytes := [bs "content-type"; bs "text/plain"].
Definition demo_schedule : list bool := repeat true 11 ++ flat_map (fun _ => [true; false; false]) (seq 0 20).
Definition demo_request : WorkerRequest :=
  {| w_method := bs "GET"; w_path := bs "/"; w_query := []; w_server_name := bs "a"; w_server_port := 80; w_url_scheme := bs "http";
     w_remote_addr := bs "127.0.0.1"; w_headers := []; w_body := [] |}.
Lemma streamed_body_refines_witness :
  let s := run_stream (stream_head (fun _ => true) tt 200 demo_flat) demo_schedule (initial demo_parts 20) in
  sent s = EvStart {| head_status := 200; head_headers := [(bs "content-type", bs "text/plain")] |} :: map EvChunk demo_parts ++ [EvEnd] /\ ruby_side s = Finished.
Proof.
  destruct (streamed_body_refines (fun _ => true) tt 200 demo_flat demo_parts demo_request {| multithread := true; multiprocess := false |} 20 _
    (run_reaches (stream_head (fun _ => true) tt 200 demo_flat) demo_schedule (initial demo_parts 20))) as (_ & _ & _ & D).
  destruct D as [D1 D2]; [split; vm_compute; reflexivity|]. split; [rewrite D1; vm_compute; reflexivity | eapply D2; vm_compute; reflexivity].
Defined.
(** With a client that stays, every schedule sends the head, all the parts and the end. *)
Lemma patient_client_gets_all {E} convertible (conversion_error : E) status flat parts req opts alive head :
  stream_head convertible conversion_error status flat = Ok head -> (length parts + 2 <= alive)%nat ->
  fst (sequential convertible conversion_error status flat parts req opts alive) = EvStart head :: map EvChunk parts ++ [EvEnd].
Proof.
  intros H A. rewrite sequential_events. unfold starting. rewrite H. destruct alive as [|r]; [lia|]. f_equal.
  assert (length parts + 1 <= r)%nat as B by lia. clear A. revert r B. induction parts as [|p ps IH]; intros r B.
  - destruct r; [cbn in B; lia | reflexivity].
  - cbn in B. rewrite coming_cons. destruct r as [|r]; [lia|]. cbn [map app]. f_equal. apply IH. lia.
Qed.
(** A head that cannot be converted (a status wider than 64 bits, a header that is not valid
    text) is answered with an error before the loop, and nobody closes the queue: the Ruby
    thread of a body of eight parts or more never finishes. *)
Lemma failed_head_leaks_the_thread {E} (e : E) parts alive s :
  rtc (step (Err e)) (initial parts alive) s -> (STREAM_QUEUE_LIMIT <= length parts)%nat -> ruby_side s <> Finished.
Proof.
  intros H L F. pose proof (stream_reachable_inv _ _ _ _ H) as [B C Sh _ _ K].
  assert (rust_side s = Starting \/ rust_side s = Failed) as St.
  { clear - H. revert s H. apply (rtc_ind_r (fun s => rust_side s = Starting \/ rust_side s = Failed)); [left; reflexivity|]. intros y z _ [P|P] D.
    - unfold produce in P. repeat case_match; simplify_eq; exact D.
    - unfold consume in P. destruct D as [D|D]; rewrite D in P; simplify_eq. right. reflexivity. }
  specialize (K St). unfold pending in K. rewrite F in K. cbn [todo] in K. rewrite app_nil_r in K.
  assert (length (items s) = length parts + 1)%nat as N; [|lia].
  unfold queue_shape in Sh. rewrite F, K in Sh. destruct St as [St|St]; rewrite St in Sh; rewrite Sh, length_app, length_map; reflexivity.
Qed.
