(* ===== verification/WorkerHelper.v ===== *)
(** * WorkerHelper: the Ruby side of the worker

    Model of the helper module [Oxo] that [crates/oxo-worker/src/native/ruby.rs] evaluates in
    the embedded virtual machine: [build_env] with its table of header keys,
    [flatten_headers], [each_body_part], [handle], and the bounded queue between the thread
    that produces a streamed body and the Rust side that consumes it ([handle_stream] and the
    loop of [call_ruby_streaming]).

    The Rack application is a parameter.  Header names reach the helper in lower case and in
    ASCII, where [String#upcase] is the mapping of [HeaderPolicy.cgi_name]. *)

From stdpp Require Import gmap relations.
From S2P Require Import Prelude Text AdminJson HeaderPolicy Stream WorkerParser WorkerRuby WorkerFrame WorkerServe StreamQueue.

(** ** The Rack environment *)

Inductive env_value : Type := Str (s : bytes) | Input (body : bytes) | Stderr | Flag (b : bool).
Abbreviation rack_env := (gmap bytes env_value).

Definition HTTP_KEYS : list string :=
  ["accept"; "accept-encoding"; "accept-language"; "accept-charset"; "authorization";
   "cache-control"; "cookie"; "host"; "if-modified-since"; "if-none-match"; "if-match";
   "if-unmodified-since"; "origin"; "pragma"; "range"; "referer"; "user-agent"; "via"; "date";
   "upgrade-insecure-requests"; "x-request-id"; "x-requested-with";
   "sec-fetch-dest"; "sec-fetch-mode"; "sec-fetch-site"; "sec-fetch-user"]%string.
Definition cgi_key (k : bytes) : bytes := bs "HTTP_" ++ cgi_name k.
(** [HTTP_KEY_TABLE]: [to_h] on the pairs. *)
Definition HTTP_KEY_TABLE : gmap bytes bytes := list_to_map (map (fun k => (bs k, cgi_key (bs k))) HTTP_KEYS).
Definition env_key (k : bytes) : bytes :=
  if eq_bytes k (bs "content-length") then bs "CONTENT_LENGTH"
  else if eq_bytes k (bs "content-type") then bs "CONTENT_TYPE"
  else match HTTP_KEY_TABLE !! k with Some key => key | None => cgi_key k end.
Definition base_env (opts : WorkerOptions) (r : WorkerRequest) : rack_env :=
  list_to_map
    [(bs "REQUEST_METHOD", Str (w_method r)); (bs "SCRIPT_NAME", Str []); (bs "PATH_INFO", Str (w_path r)); (bs "QUERY_STRING", Str (w_query r));
     (bs "SERVER_NAME", Str (w_server_name r)); (bs "SERVER_PORT", Str (show_uint (w_server_port r))); (bs "SERVER_PROTOCOL", Str (bs "HTTP/1.1"));
     (bs "REMOTE_ADDR", Str (w_remote_addr r)); (bs "rack.url_scheme", Str (w_url_scheme r)); (bs "rack.input", Input (w_body r)); (bs "rack.errors", Stderr);
     (bs "rack.multithread", Flag (multithread opts)); (bs "rack.multiprocess", Flag (multiprocess opts)); (bs "rack.run_once", Flag false)].
(** The flat array of names and values that Rust builds, and the [while] over it. *)
Definition flat_headers (hs : list (bytes * bytes)) : list bytes := flat_map (fun h => [fst h; snd h]) hs.
Fixpoint add_headers (flat : list bytes) (env : rack_env) : rack_env :=
  match flat with
  | k :: v :: rest => add_headers rest (<[env_key k := Str v]> env)
  | _ => env
  end.
Definition build_env (opts : WorkerOptions) (r : WorkerRequest) : rack_env := add_headers (flat_headers (w_headers r)) (base_env opts r).

(** ** Response headers *)

(** [String#split] with one separator: trailing empty pieces are dropped. *)
Fixpoint drop_empty (ps : list bytes) : list bytes := match ps with [] :: ps' => drop_empty ps' | _ => ps end.
Definition ruby_split (c : byte) (s : bytes) : list bytes := rev (drop_empty (rev (split_byte c s))).
Definition is_nil (s : bytes) : bool := match s with [] => true | _ => false end.
(** The lines one value becomes. *)
Definition value_lines (v : bytes) : list bytes :=
  let segs := ruby_split (zb 10) v in
  let segs := match segs with [] => [ [] ] | _ => segs end in
  List.filter (fun seg => negb (is_nil seg && (1 <? length segs)%nat)) segs.
(** Each header with its values: [Array(v)], each turned into a string. *)
Definition flatten_headers (hs : list (bytes * list bytes)) : list bytes :=
  flat_map (fun h => flat_map (fun v => flat_map (fun seg => [fst h; seg]) (value_lines v)) (snd h)) hs.

(** ** The answer *)

(** A body answers [each], or only [call], or neither; its parts, and whether producing them
    raises at the end. *)
Inductive rack_body : Type := Each (parts : list bytes) (raises : bool) | Callable (parts : list bytes) (raises : bool) | Neither.
Record rack_answer : Type := { ra_status : Z; ra_headers : list (bytes * list bytes); ra_body : rack_body; ra_close_raises : bool }.
(** [each_body_part]: the parts yielded, and whether it returns ([false]: raises); [close] is
    called in either case. *)
Definition each_body_part (b : rack_body) (close_raises : bool) : list bytes * bool :=
  match b with
  | Each parts raises | Callable parts raises => (parts, negb raises && negb close_raises)
  | Neither => ([], false)
  end.
Section Handle.
Context {E : Type}.
(** The application, and the exception a body ends with. *)
Variable app : rack_env -> result E rack_answer.
Variable body_error : E.
Definition handle (req : WorkerRequest) (opts : WorkerOptions) : result E (Z * list bytes * bytes) :=
  let? a := app (build_env opts req) in
  let '(parts, returns) := each_body_part (ra_body a) (ra_close_raises a) in
  if returns then Ok (ra_status a, flatten_headers (ra_headers a), concat parts) else Err body_error.
(** What the worker thread pops: the parts, however the body ends; [handle_stream] starts the
    thread that pushes them, [StreamQueue.initial], and the loop of [StreamQueue] pops. *)
Definition handle_stream (req : WorkerRequest) (opts : WorkerOptions) : result E (Z * list bytes * list (result E bytes)) :=
  let? a := app (build_env opts req) in
  Ok (ra_status a, flatten_headers (ra_headers a), map Ok (fst (each_body_part (ra_body a) (ra_close_raises a)))).
End Handle.

(** ** What the application sees *)

Lemma table_key k key : HTTP_KEY_TABLE !! k = Some key -> key = cgi_key k.
Proof.
  intros H. apply elem_of_list_to_map_2, list_elem_of_In, in_map_iff in H as (n & [= <- <-] & _). reflexivity.
Qed.
(** The table of frozen keys changes nothing: the key is what the allocating path builds. *)
Lemma env_key_built k : env_key k =
  if eq_bytes k (bs "content-length") then bs "CONTENT_LENGTH" else if eq_bytes k (bs "content-type") then bs "CONTENT_TYPE" else cgi_key k.
Proof.
  unfold env_key. destruct (HTTP_KEY_TABLE !! k) as [key|] eqn:T; [|reflexivity]. rewrite (table_key _ _ T). reflexivity.
Qed.
Definition plain_name (k : bytes) : Prop := existsb is_ascii_upper k = false /\ contains_byte underscore k = false.
Lemma helper_key_inj k j : plain_name k -> plain_name j -> env_key k = env_key j -> k = j.
Proof.
  intros [Ku Kc] [Ju Jc]. rewrite !env_key_built. unfold eq_bytes, cgi_key. repeat case_bool_decide; subst; try discriminate; try reflexivity;
    intros E%app_inv_head; apply cgi_name_inj; assumption.
Qed.
(** The keys no header can have. *)
Definition own_keys : list string :=
  ["REQUEST_METHOD"; "SCRIPT_NAME"; "PATH_INFO"; "QUERY_STRING"; "SERVER_NAME"; "SERVER_PORT"; "SERVER_PROTOCOL"; "REMOTE_ADDR"; "rack.url_scheme";
   "rack.input"; "rack.errors"; "rack.multithread"; "rack.multiprocess"; "rack.run_once"]%string.
Lemma own_key_not_header k n : In n own_keys -> env_key k <> bs n.
Proof.
  intros I E. rewrite env_key_built in E. revert E. unfold eq_bytes, cgi_key.
  cbn [own_keys In] in I. repeat case_bool_decide; intuition (subst; discriminate).
Qed.
Lemma added_headers hs : forall env, NoDup (map fst hs) -> Forall (fun h => plain_name (fst h)) hs ->
  (forall h, In h hs -> add_headers (flat_headers hs) env !! env_key (fst h) = Some (Str (snd h))) /\
  (forall key, (forall h, In h hs -> env_key (fst h) <> key) -> add_headers (flat_headers hs) env !! key = env !! key).
Proof.
  induction hs as [|[k v] hs IH]; intros env N F; [split; [intros h [] | reflexivity]|].
  cbn [map fst] in N. apply list.NoDup_cons in N as [Nk N]. inversion_clear F as [|? ? Pk F0]. cbn [fst] in Pk.
  destruct (IH (<[env_key k := Str v]> env) N F0) as [In_ Out]. change (flat_headers ((k, v) :: hs)) with (k :: v :: flat_headers hs). cbn [add_headers].
  assert (forall h, In h hs -> env_key (fst h) <> env_key k) as Ne.
  { intros h I E. apply Nk. apply helper_key_inj in E; [|exact (proj1 (List.Forall_forall _ _) F0 _ I) | exact Pk]. rewrite <- E. apply list_elem_of_In, in_map, I. }
  split.
  - intros h [<-|I]; [|apply In_, I]. cbn [fst snd]. rewrite Out by exact Ne. apply lookup_insert_eq.
  - intros key Hk. rewrite Out by (intros h I; apply Hk; right; exact I). apply lookup_insert_ne. apply (Hk (k, v)). left. reflexivity.
Qed.
Lemma helper_base_keys opts r key v : base_env opts r !! key = Some v -> exists n, In n own_keys /\ key = bs n.
Proof.
  intros H. apply elem_of_list_to_map_2, list_elem_of_In in H. cbn [In] in H.
  repeat (destruct H as [H|H]; [injection H as <- _; eexists; split; [|reflexivity]; cbn; tauto|]). destruct H.
Qed.
(** C15. The application sees the client's request and nothing forged.  For every request the
    worker's parser accepts, the Rack environment holds the variables of the request line, of
    the connection and of Rack itself as the worker set them, each header under its own key
    with its value, and nothing else; in particular no client header of the forwarding family
    or of the reserved namespace has a variable, and no header can pose as another one or as a
    variable of the server. *)
Theorem worker_env_is_the_request order s max_body r s' opts :
  (forall m, order m ≡ₚ m) -> parse_request order s max_body = (Ok r, s') ->
  (forall n, In n own_keys -> build_env opts r !! bs n = base_env opts r !! bs n) /\
  (forall h, In h (w_headers r) -> build_env opts r !! env_key (fst h) = Some (Str (snd h))) /\
  (forall key v, build_env opts r !! key = Some v -> (exists n, In n own_keys /\ key = bs n) \/ exists h, In h (w_headers r) /\ key = env_key (fst h) /\ v = Str (snd h)) /\
  (forall name, plain_name name -> is_client_forwarding_header name = true \/ is_reserved name = true -> build_env opts r !! cgi_key name = None).
Proof.
  intros Ho P. destruct (parse_request_sound _ _ _ _ _ Ho P) as (_ & _ & _ & _ & _ & _ & _ & _ & _ & _ & V & N & _).
  assert (Forall (fun h => plain_name (fst h)) (w_headers r)) as F by (eapply List.Forall_impl; [|exact V]; intros h (U & C & _); split; assumption).
  destruct (added_headers (w_headers r) (base_env opts r) N F) as [In_ Out]. fold (build_env opts r) in In_, Out.
  assert (forall key v, build_env opts r !! key = Some v -> (exists n, In n own_keys /\ key = bs n) \/ exists h, In h (w_headers r) /\ key = env_key (fst h) /\ v = Str (snd h)) as All.
  { intros key v H. destruct (decide (List.Exists (fun h => env_key (fst h) = key) (w_headers r))) as [(h & I & <-)%List.Exists_exists|No].
    - right. exists h. rewrite (In_ h I) in H. injection H as <-. auto.
    - left. rewrite Out in H; [eapply helper_base_keys, H | intros h I E; apply No, List.Exists_exists; exists h; auto]. }
  split; [intros n I; apply Out; intros h _; apply own_key_not_header, I|]. split; [exact In_|]. split; [exact All|].
  intros name Pn Fw. destruct (build_env opts r !! cgi_key name) as [v|] eqn:H; [|reflexivity]. exfalso.
  assert (env_key name = cgi_key name) as Kn.
  { rewrite env_key_built. unfold eq_bytes. repeat case_bool_decide; subst; try reflexivity; destruct Fw; discriminate. }
  rewrite <- Kn in H. destruct (All _ _ H) as [(n & I & E)|(h & I & E & _)]; [exact (own_key_not_header _ _ I E)|].
  pose proof (proj1 (List.Forall_forall _ _) V _ I) as (U & C & NF & NR & _).
  apply helper_key_inj in E; [|exact Pn | split; assumption]. subst name. destruct Fw; congruence.
Qed.
Lemma worker_env_is_the_request_witness :
  let env := build_env {| multithread := true; multiprocess := false |} sample_http_request in
  env !! bs "HTTP_HOST" = Some (Str (bs "x.test:81")) /\ env !! bs "HTTP_X_FORWARDED_FOR" = None /\ env !! bs "HTTP_X_OXO_URL_SCHEME" = None.
Proof.
  destruct (worker_env_is_the_request (fun m => m) [Data sample_head; Data (bs "ab"); Interrupted; Data (bs "cd")] 10 sample_http_request [Data (bs "d")]
    {| multithread := true; multiprocess := false |}) as (_ & Hs & _ & No); [reflexivity | vm_compute; reflexivity|].
  split; [exact (Hs (bs "host", bs "x.test:81") (or_introl eq_refl))|].
  split; [apply (No (bs "x-forwarded-for")) | apply (No (bs "x-oxo-url-scheme"))]; try (split; vm_compute; reflexivity); [left | right]; vm_compute; reflexivity.
Defined.

(** ** Repeated response headers *)

Definition demo_options : WorkerOptions := {| multithread := true; multiprocess := true |}.

(** ** Streamed answers *)

(** The helper's streamed call is the sequential call of [StreamQueue] on the parts of the
    body, so every schedule of the two threads sends these events. *)
Lemma helper_streams {E} (app : rack_env -> result E rack_answer) convertible (conversion_error : E) req opts alive a :
  app (build_env opts req) = Ok a ->
  call_ruby_streaming (handle_stream app) convertible conversion_error req opts alive =
  sequential convertible conversion_error (ra_status a) (flatten_headers (ra_headers a)) (fst (each_body_part (ra_body a) (ra_close_raises a))) req opts alive.
Proof. intros H. unfold sequential, call_ruby_streaming, handle_stream. rewrite H. reflexivity. Qed.
(** A body that raises is a 500 when it is buffered; when it is streamed the client gets the
    events of the body that ended there, with nothing to tell the two apart. *)
Lemma raised_stream_looks_complete {E} (app1 app2 : rack_env -> result E rack_answer) body_error convertible (conversion_error : E) req opts alive status hs parts :
  app1 (build_env opts req) = Ok {| ra_status := status; ra_headers := hs; ra_body := Each parts true; ra_close_raises := false |} ->
  app2 (build_env opts req) = Ok {| ra_status := status; ra_headers := hs; ra_body := Each parts false; ra_close_raises := false |} ->
  streaming_reply (handle_stream app1) convertible conversion_error opts req alive = streaming_reply (handle_stream app2) convertible conversion_error opts req alive /\
  buffered_reply (handle app1 body_error) convertible conversion_error opts req = response_text 500 internal_error.
Proof.
  intros H1 H2. unfold streaming_reply, buffered_reply. rewrite !(helper_streams _ _ _ _ _ _ _ H1), !(helper_streams _ _ _ _ _ _ _ H2). split; [reflexivity|].
  unfold call_ruby, handle. rewrite H1. reflexivity.
Qed.
(** The 64-bit status is cut to 16 bits before its range is looked at. *)
Example worker_status_wraps :
  buffered_reply (handle (fun _ : rack_env => Ok {| ra_status := 65736; ra_headers := []; ra_body := Each [] false; ra_close_raises := false |}) tt) (fun _ => true) tt
    demo_options demo_request = {| resp_status := 200; resp_headers := []; resp_body := [] |}.
Proof. reflexivity. Qed.
