(* ===== verification/HopTiming.v ===== *)
(** * HopTiming: the timing ledgers of the edge

    Model of the module [hop_timing] of [crates/oxo-pingora-edge/src/lib.rs], of the dispatch
    report of [platform/frame_hop.rs] and of [hop_timing_admin_json] of
    [platform/telemetry.rs].  The ledgers are process-wide atomic counters; every probe is a
    sequence of [fetch_add] on them, and probes of different threads interleave operation by
    operation.  The theorems say what a report can be trusted for: which sample is in which
    bucket, that counts, sums and histograms agree once the probes are done, by how much they
    can differ before, how far a mean estimated from the bins is from the exact one, and that
    the hand-built report is the JSON object it means to be.

    A duration is the [u128] of [as_nanos]; the mean is a 64-bit float printed with one
    decimal, a parameter of the report. *)

From stdpp Require Import list relations.
From S2P Require Import Prelude Text AdminJson.

(** ** The counters *)

Inductive Seam : Type := Checkout | RequestWrite | ResponseRead | Checkin | Ingest | Park.
#[export] Instance Seam_eq_dec : EqDecision Seam.
Proof. solve_decision. Defined.
Definition seams : list Seam := [Checkout; RequestWrite; ResponseRead; Checkin; Ingest; Park].
Definition seam_name (s : Seam) : string :=
  match s with
  | Checkout => "checkout" | RequestWrite => "request_write" | ResponseRead => "response_read" | Checkin => "checkin" | Ingest => "ingest" | Park => "park"
  end%string.
Definition BUCKETS : Z := 26.
Definition DEPTH_LANES : Z := 8.
Definition LIN_BINS : Z := 512.
Definition LIN_BIN_US : Z := 64.
Definition LIN_BIN_NS : Z := LIN_BIN_US * 1000.

(** The fields of a [Linear] histogram, and the histograms there are. *)
Inductive linear_field : Type := LBin (b : Z) | LCount | LSum | LOver | LOverSum.
Inductive linear : Type := ExchangeLinear (lane : Z) | ResponseReadLinear (lane : Z) | CheckoutLinear.
Inductive cell : Type :=
| Count (s : Seam) | SumNanos (s : Seam) | Hist (s : Seam) (b : Z)
| DepthCount (lane : Z) | DepthSum (lane : Z) | DepthHist (lane b : Z)
| Lin (l : linear) (f : linear_field) | ExchangeRetryTotal.
#[export] Instance linear_field_eq_dec : EqDecision linear_field.
Proof. solve_decision. Defined.
#[export] Instance linear_eq_dec : EqDecision linear.
Proof. solve_decision. Defined.
#[export] Instance cell_eq_dec : EqDecision cell.
Proof. solve_decision. Defined.

(** ** The probes, as the operations they do *)

Abbreviation add := (cell * Z)%type.
(** A [Timer]: the elapsed time at the record, [None] when it was started disabled. *)
Abbreviation timer := (option Z).
Definition start (enabled : bool) (elapsed : Z) : timer := if enabled then Some elapsed else None.
(** [as_nanos().min(u64::MAX as u128) as u64] *)
Definition nanos_of (elapsed : Z) : Z := Z.min elapsed u64_max.
Definition leading_zeros (x : Z) : Z := if x =? 0 then 64 else 63 - Z.log2 x.
Definition bucket (nanos : Z) : Z := Z.min (63 - leading_zeros (Z.lor nanos 1)) (BUCKETS - 1).
Definition lane_of (depth : Z) : Z := Z.min depth (DEPTH_LANES - 1).
Definition linear_record (l : linear) (nanos : Z) : list add :=
  [(Lin l LCount, 1); (Lin l LSum, nanos)] ++
  (let bin := nanos / LIN_BIN_NS in
   if bin <? LIN_BINS then [(Lin l (LBin bin), 1)] else [(Lin l LOver, 1); (Lin l LOverSum, nanos)]).
Definition seam_adds (s : Seam) (nanos : Z) : list add := [(Count s, 1); (SumNanos s, nanos); (Hist s (bucket nanos), 1)].
Definition record (s : Seam) (t : timer) : list add := match t with Some e => seam_adds s (nanos_of e) | None => [] end.
Definition record_response_read (depth : Z) (t : timer) : list add :=
  match t with Some e => seam_adds ResponseRead (nanos_of e) ++ linear_record (ResponseReadLinear (lane_of depth)) (nanos_of e) | None => [] end.
Definition record_checkout (t : timer) : list add :=
  match t with Some e => seam_adds Checkout (nanos_of e) ++ linear_record CheckoutLinear (nanos_of e) | None => [] end.
Definition record_exchange_depth (depth : Z) (t : timer) : list add :=
  match t with
  | Some e =>
      let nanos := nanos_of e in
      let lane := lane_of depth in
      [(DepthCount lane, 1); (DepthSum lane, nanos); (DepthHist lane (bucket nanos), 1)] ++ linear_record (ExchangeLinear lane) nanos
  | None => []
  end.
Definition note_exchange_retry (enabled : bool) : list add := if enabled then [(ExchangeRetryTotal, 1)] else [].

(** A probe of the edge. *)
Inductive probe : Type :=
| Record (s : Seam) (t : timer) | RecordResponseRead (depth : Z) (t : timer) | RecordCheckout (t : timer)
| RecordExchangeDepth (depth : Z) (t : timer) | NoteExchangeRetry (enabled : bool).
Definition adds (p : probe) : list add :=
  match p with
  | Record s t => record s t
  | RecordResponseRead d t => record_response_read d t
  | RecordCheckout t => record_checkout t
  | RecordExchangeDepth d t => record_exchange_depth d t
  | NoteExchangeRetry e => note_exchange_retry e
  end.

(** ** Threads *)

(** [fetch_add] on an [AtomicU64] wraps. *)
Definition wrap64 (z : Z) : Z := z mod (u64_max + 1).
Definition store : Type := cell -> Z.
Definition zeroed : store := fun _ => 0.
Definition fetch_add (a : add) (st : store) : store := fun c => if decide (c = fst a) then wrap64 (st c + snd a) else st c.
(** The threads run their probes; [schedule] says which of them does its next operation. *)
Fixpoint run_threads (schedule : list nat) (ts : list (list add)) (st : store) : list (list add) * store :=
  match schedule with
  | [] => (ts, st)
  | i :: schedule' =>
      match ts !! i with
      | Some (a :: rest) => run_threads schedule' (<[i := rest]> ts) (fetch_add a st)
      | _ => run_threads schedule' ts st
      end
  end.
Definition thread (ps : list probe) : list add := flat_map adds ps.

(** ** What the counters mean *)

(** The samples a probe contributes to a stage, to a depth lane, to a linear histogram. *)
Definition sample (b : bool) (t : timer) : list Z := match t with Some e => if b then [nanos_of e] else [] | None => [] end.
Definition seam_samples (s : Seam) (p : probe) : list Z :=
  match p with
  | Record s' t => sample (bool_decide (s = s')) t
  | RecordResponseRead _ t => sample (bool_decide (s = ResponseRead)) t
  | RecordCheckout t => sample (bool_decide (s = Checkout)) t
  | _ => []
  end.
Definition depth_samples (lane : Z) (p : probe) : list Z :=
  match p with RecordExchangeDepth d t => sample (bool_decide (lane = lane_of d)) t | _ => [] end.
Definition linear_samples (l : linear) (p : probe) : list Z :=
  match p with
  | RecordResponseRead d t => sample (bool_decide (l = ResponseReadLinear (lane_of d))) t
  | RecordCheckout t => sample (bool_decide (l = CheckoutLinear)) t
  | RecordExchangeDepth d t => sample (bool_decide (l = ExchangeLinear (lane_of d))) t
  | _ => []
  end.
Definition retries (p : probe) : list Z := match p with NoteExchangeRetry true => [1] | _ => [] end.
Fixpoint sum (l : list Z) : Z := match l with [] => 0 | n :: l' => n + sum l' end.
Definition how_many (P : Z -> bool) (l : list Z) : Z := zlen (List.filter P l).
Definition saturated (n : Z) : bool := LIN_BINS <=? n / LIN_BIN_NS.
Definition linear_value (f : linear_field) (l : list Z) : Z :=
  match f with
  | LBin b => if b <? LIN_BINS then how_many (fun n => n / LIN_BIN_NS =? b) l else 0
  | LCount => zlen l
  | LSum => sum l
  | LOver => how_many saturated l
  | LOverSum => sum (List.filter saturated l)
  end.
(** The value of every counter, from the samples. *)
Definition expected (ps : list probe) (c : cell) : Z :=
  match c with
  | Count s => zlen (flat_map (seam_samples s) ps)
  | SumNanos s => sum (flat_map (seam_samples s) ps)
  | Hist s b => how_many (fun n => bucket n =? b) (flat_map (seam_samples s) ps)
  | DepthCount lane => zlen (flat_map (depth_samples lane) ps)
  | DepthSum lane => sum (flat_map (depth_samples lane) ps)
  | DepthHist lane b => how_many (fun n => bucket n =? b) (flat_map (depth_samples lane) ps)
  | Lin l f => linear_value f (flat_map (linear_samples l) ps)
  | ExchangeRetryTotal => zlen (flat_map retries ps)
  end.

(** ** Any interleaving *)

(** The weight of a sequence of operations, for a weight per counter. *)
Fixpoint weigh (w : cell -> Z) (l : list add) : Z := match l with [] => 0 | a :: l' => w (fst a) * snd a + weigh w l' end.
Fixpoint weigh_all (w : cell -> Z) (ts : list (list add)) : Z := match ts with [] => 0 | t :: ts' => weigh w t + weigh_all w ts' end.
Definition only (c : cell) : cell -> Z := fun c' => if decide (c = c') then 1 else 0.
Lemma weigh_app w l l' : weigh w (l ++ l') = weigh w l + weigh w l'.
Proof. induction l as [|a l IH]; cbn; [reflexivity|]. rewrite IH. lia. Qed.
Lemma weigh_all_insert w ts i a rest : ts !! i = Some (a :: rest) -> weigh_all w ts = weigh_all w (<[i := rest]> ts) + w (fst a) * snd a.
Proof.
  revert i. induction ts as [|t ts IH]; intros [|i] L; try discriminate.
  - injection L as ->. change (<[0%nat := rest]> ((a :: rest) :: ts)) with (rest :: ts). cbn. lia.
  - change (<[S i := rest]> (t :: ts)) with (t :: <[i := rest]> ts). cbn [weigh_all]. rewrite (IH i L). lia.
Qed.
Lemma wrap64_add a b : wrap64 (wrap64 a + b) = wrap64 (a + b).
Proof. unfold wrap64. apply Zplus_mod_idemp_l. Qed.
Lemma run_threads_net sch : forall ts st ts' st' c, run_threads sch ts st = (ts', st') -> st c = wrap64 (st c) ->
  st' c = wrap64 (st c + weigh_all (only c) ts - weigh_all (only c) ts').
Proof.
  induction sch as [|i sch IH]; intros ts st ts' st' c; cbn [run_threads].
  - intros [= <- <-] E. rewrite E at 1. f_equal. lia.
  - destruct (ts !! i) as [[|a rest]|] eqn:L; try apply IH. intros R E. specialize (IH _ _ _ _ c R). rewrite (weigh_all_insert _ _ _ _ _ L).
    unfold fetch_add, only in *. destruct (decide (c = fst a)) as [Ea|Ne]; rewrite IH; [| unfold wrap64; rewrite Zmod_mod; reflexivity | | exact E].
    + unfold Z.sub. rewrite <- !Z.add_assoc, wrap64_add. f_equal. lia.
    + f_equal. lia.
Qed.
Lemma run_threads_suffix sch : forall ts st ts' st', run_threads sch ts st = (ts', st') -> Forall2 (fun t0 t => exists pre, t0 = pre ++ t) ts ts'.
Proof.
  induction sch as [|i sch IH]; intros ts st ts' st'; cbn [run_threads].
  - intros [= <- <-]. induction ts as [|t ts IHt]; constructor; [exists []; reflexivity | exact IHt].
  - destruct (ts !! i) as [[|a rest]|] eqn:L; try apply IH. intros R. apply IH in R. clear IH. revert i L ts' R.
    induction ts as [|t ts IHt]; intros [|i] L ts' R; try discriminate.
    + change (<[0%nat := rest]> (t :: ts)) with (rest :: ts) in R. injection L as ->. inversion R as [|? t' ? ts0 [pre E] F]; subst. constructor; [exists (a :: pre); reflexivity | exact F].
    + change (<[S i := rest]> (t :: ts)) with (t :: <[i := rest]> ts) in R. inversion R as [|? t' ? ts0 E F]; subst. constructor; [exact E | apply (IHt i L), F].
Qed.
Lemma sum_app l l' : sum (l ++ l') = sum l + sum l'.
Proof. induction l as [|n l IH]; cbn; lia. Qed.
Lemma how_many_app P l l' : how_many P (l ++ l') = how_many P l + how_many P l'.
Proof. unfold how_many. rewrite List.filter_app. apply zlen_app. Qed.
Lemma linear_value_app f l l' : linear_value f (l ++ l') = linear_value f l + linear_value f l'.
Proof.
  destruct f; cbn [linear_value]; rewrite ?List.filter_app, ?how_many_app, ?sum_app, ?zlen_app; try reflexivity. destruct (b <? LIN_BINS); lia.
Qed.
Lemma expected_cons p ps c : expected (p :: ps) c = expected [p] c + expected ps c.
Proof. destruct c; cbn [expected flat_map]; rewrite app_nil_r, ?zlen_app, ?sum_app, ?how_many_app, ?linear_value_app; reflexivity. Qed.
Lemma weigh_only_ne c l : Forall (fun a => fst a <> c) l -> weigh (only c) l = 0.
Proof. induction 1 as [|a l N _ IH]; [reflexivity|]. cbn [weigh]. rewrite IH. unfold only. rewrite decide_False by congruence. lia. Qed.
Lemma linear_weight l n c : weigh (only c) (linear_record l n) = match c with Lin l' f => if decide (l' = l) then linear_value f [n] else 0 | _ => 0 end.
Proof.
  unfold linear_record. destruct c as [| | | | | |l' f|]; try (apply weigh_only_ne; destruct (_ <? _); repeat constructor; discriminate).
  destruct (decide (l' = l)) as [->|Ne]; [|apply weigh_only_ne; destruct (_ <? _); repeat constructor; cbn; congruence].
  rewrite weigh_app. unfold only, linear_value, how_many, saturated.
  destruct (n / LIN_BIN_NS <? LIN_BINS) eqn:B; destruct f as [b| | | |]; cbn [weigh fst snd List.filter]; rewrite ?Z.leb_antisym, ?B; cbn [negb sum];
    repeat (case_decide; simplify_eq; try lia); try reflexivity; rewrite ?B, ?Z.eqb_refl; try reflexivity.
  all: destruct (Z.eqb_spec (n / LIN_BIN_NS) b) as [<-|Ne]; rewrite ?B; first [congruence | reflexivity | destruct (b <? LIN_BINS); reflexivity].
Qed.
Lemma seam_weight s n c : weigh (only c) (seam_adds s n) =
  match c with
  | Count s' => if decide (s' = s) then 1 else 0
  | SumNanos s' => if decide (s' = s) then n else 0
  | Hist s' b => if decide (s' = s) then (if bucket n =? b then 1 else 0) else 0
  | _ => 0
  end.
Proof.
  unfold seam_adds. destruct c as [s'|s'|s' b| | | | |]; cbn [weigh fst snd]; unfold only; rewrite ?decide_False by discriminate;
    try (destruct (Z.eqb_spec (bucket n) b)); repeat case_decide; simplify_eq; lia.
Qed.
Lemma depth_weight lane n c : weigh (only c) [(DepthCount lane, 1); (DepthSum lane, n); (DepthHist lane (bucket n), 1)] =
  match c with
  | DepthCount lane' => if decide (lane' = lane) then 1 else 0
  | DepthSum lane' => if decide (lane' = lane) then n else 0
  | DepthHist lane' b => if decide (lane' = lane) then (if bucket n =? b then 1 else 0) else 0
  | _ => 0
  end.
Proof.
  destruct c as [| | |l'|l'|l' b| |]; cbn [weigh fst snd]; unfold only; rewrite ?decide_False by discriminate;
    try (destruct (Z.eqb_spec (bucket n) b)); repeat case_decide; simplify_eq; lia.
Qed.
Lemma linear_value_nil f : linear_value f [] = 0.
Proof. destruct f as [b| | | |]; try reflexivity. cbn. destruct (b <? LIN_BINS); reflexivity. Qed.
Ltac sample_cases :=
  cbn [expected flat_map seam_samples depth_samples linear_samples retries sample app]; repeat (case_decide || case_bool_decide); try congruence;
  rewrite ?app_nil_r, ?linear_value_nil; unfold how_many; cbn [List.filter]; try (destruct (_ =? _)); cbn [sum]; first [reflexivity | lia].
(** The operations of a probe add what its sample is worth, to every counter. *)
Lemma probe_weight p c : weigh (only c) (adds p) = expected [p] c.
Proof.
  destruct p as [s [e|]|d [e|]|[e|]|d [e|]|[]]; cbn [adds record record_response_read record_checkout record_exchange_depth note_exchange_retry];
    cbv zeta; rewrite ?weigh_app, ?seam_weight, ?depth_weight, ?linear_weight.
  all: destruct c as [s'|s'|s' b| | | |l f|]; sample_cases.
Qed.
Lemma thread_weight ps c : weigh (only c) (thread ps) = expected ps c.
Proof.
  induction ps as [|p ps IH].
  - destruct c; try reflexivity. cbn. rewrite linear_value_nil. reflexivity.
  - rewrite expected_cons, <- IH, <- probe_weight. apply weigh_app.
Qed.
Lemma threads_weight pss c : weigh_all (only c) (map thread pss) = expected (concat pss) c.
Proof.
  rewrite <- thread_weight. induction pss as [|ps pss IH]; [reflexivity|]. cbn [map weigh_all concat]. rewrite IH. unfold thread. rewrite flat_map_app, weigh_app. reflexivity.
Qed.
Lemma weigh_all_done w ts : Forall (fun t => t = []) ts -> weigh_all w ts = 0.
Proof. induction 1 as [|t ts -> _ IH]; [reflexivity | exact IH]. Qed.

(** ** Buckets *)

Lemma lor_one_nonzero n : Z.lor n 1 <> 0.
Proof. intros E. apply (f_equal (fun z => Z.testbit z 0)) in E. rewrite Z.lor_spec, orb_true_r in E. discriminate. Qed.
Lemma bucket_range n : 0 <= bucket n <= 25.
Proof.
  unfold bucket, leading_zeros, BUCKETS. rewrite (proj2 (Z.eqb_neq _ _) (lor_one_nonzero n)). pose proof (Z.log2_nonneg (Z.lor n 1)). lia.
Qed.
(** Bucket [b] covers [2^b, 2^(b+1)), with zero in the first; the last takes all that is longer. *)
Lemma bucket_spec n : is_u64 n -> let b := bucket n in (b < 25 -> (n = 0 /\ b = 0) \/ 2 ^ b <= n < 2 ^ (b + 1)) /\ (b = 25 -> 2 ^ 25 <= n).
Proof.
  intros [L _] b. assert (b = Z.min (Z.log2 n) 25) as Eb.
  { unfold b, bucket, leading_zeros, BUCKETS. rewrite (proj2 (Z.eqb_neq _ _) (lor_one_nonzero n)), Z.log2_lor by lia.
    change (Z.log2 1) with 0. pose proof (Z.log2_nonneg n). lia. }
  destruct (Z.eq_dec n 0) as [->|N]; [cbn in Eb; rewrite Eb; split; [intros _; left; split; reflexivity | discriminate]|].
  pose proof (Z.log2_spec n ltac:(lia)) as S. split; intros H.
  - right. replace b with (Z.log2 n) by lia. rewrite Z.add_1_r. exact S.
  - etrans; [apply (Z.pow_le_mono_r 2 25 (Z.log2 n)); lia | apply S].
Qed.
Definition buckets : list Z := map Z.of_nat (seq 0 26).
Lemma bucket_in n : In (bucket n) buckets.
Proof. apply in_map_iff. exists (Z.to_nat (bucket n)). pose proof (bucket_range n). split; [lia | apply in_seq; lia]. Qed.

(** ** A report in the middle of probes *)

(** Counted and not yet in a bucket, for one stage. *)
Definition ahead (s : Seam) (c : cell) : Z :=
  match c with Count s' => if decide (s' = s) then 1 else 0 | Hist s' _ => if decide (s' = s) then -1 else 0 | _ => 0 end.
Definition led (w : cell -> Z) (t : list add) : Prop := forall pre suf, t = pre ++ suf -> 0 <= weigh w pre <= (match suf with [] => 0 | _ => 1 end).
Lemma led_app w t t' : led w t -> led w t' -> led w (t ++ t').
Proof.
  intros L L' pre suf E. apply app_eq_app in E as (mid & [[E1 E2]|[E1 E2]]).
  - pose proof (L pre mid E1) as H. subst suf. destruct mid as [|a mid]; [|exact H]. cbn [app]. destruct t'; lia.
  - subst pre. pose proof (L t [] (eq_sym (app_nil_r t))) as H. pose proof (L' mid suf E2) as H'. rewrite weigh_app. lia.
Qed.
Lemma led_zero w t : Forall (fun a => w (fst a) = 0) t -> led w t.
Proof.
  intros F pre suf ->. apply List.Forall_app in F as [F _]. assert (weigh w pre = 0) as -> by (induction F as [|a l H _ IH]; cbn [weigh]; [reflexivity | rewrite H, IH; lia]).
  destruct suf; lia.
Qed.
Lemma led_seam s s' n : led (ahead s) (seam_adds s' n).
Proof.
  intros pre suf E. unfold seam_adds in E.
  destruct pre as [|a1 [|a2 [|a3 pre]]]; cbn [app] in E; [| | |destruct pre as [|a4 pre]; [|destruct pre; discriminate]]; simplify_eq; cbn [weigh ahead fst snd];
    try (destruct (decide (s' = s))); try destruct suf; try discriminate; lia.
Qed.
Lemma led_linear s l n : led (ahead s) (linear_record l n).
Proof. apply led_zero. unfold linear_record. destruct (_ <? _); repeat constructor. Qed.
Lemma led_probe s p : led (ahead s) (adds p).
Proof.
  destruct p as [s' [e|]|d [e|]|[e|]|d [e|]|[]]; try (apply led_zero; constructor; fail).
  - apply led_seam.
  - apply led_app; [apply led_seam | apply led_linear].
  - apply led_app; [apply led_seam | apply led_linear].
  - apply (led_app _ [(DepthCount _, 1); (DepthSum _, _); (DepthHist _ _, 1)]); [apply led_zero; repeat constructor | apply led_linear].
  - apply led_zero. repeat constructor.
Qed.
Lemma led_thread s ps : led (ahead s) (thread ps).
Proof. induction ps as [|p ps IH]; [apply led_zero; constructor | apply led_app; [apply led_probe | exact IH]]. Qed.
Definition unfinished (ts : list (list add)) : Z := zlen (List.filter (fun t => match t with [] => false | _ => true end) ts).
Lemma led_all w T0 ts : Forall2 (fun t0 t => exists pre, t0 = pre ++ t) T0 ts -> Forall (led w) T0 -> 0 <= weigh_all w T0 - weigh_all w ts <= unfinished ts.
Proof.
  intros F L. induction F as [|t0 t T0 ts [pre E] F IH]; [split; reflexivity|]. inversion_clear L as [|? ? L1 L2]. specialize (IH L2).
  pose proof (L1 pre t E) as B. subst t0. cbn [weigh_all]. rewrite weigh_app. unfold unfinished in *. cbn [List.filter]. destruct t; [cbn [weigh]; lia | rewrite zlen_cons; lia].
Qed.
(** The operations on the counts and histograms of a stage add one, in a bucket that exists. *)
Definition unit_add (a : add) : Prop :=
  match fst a with Count _ => snd a = 1 | Hist _ b => snd a = 1 /\ In b buckets | _ => True end.
Lemma thread_units ps : Forall unit_add (thread ps).
Proof.
  assert (forall s n, Forall unit_add (seam_adds s n)) as S by (intros; constructor; [reflexivity|]; constructor; [exact I|]; constructor; [exact (conj eq_refl (bucket_in _)) | constructor]).
  assert (forall l n, Forall unit_add (linear_record l n)) as L by (intros; unfold linear_record; destruct (_ <? _); repeat constructor).
  induction ps as [|p ps IH]; [constructor|]. apply List.Forall_app. split; [|exact IH].
  destruct p as [s' [e|]|d [e|]|[e|]|d [e|]|[]]; try (constructor; fail); try apply S.
  - apply List.Forall_app. auto.
  - apply List.Forall_app. auto.
  - do 3 (constructor; [exact I|]). apply L.
  - repeat constructor.
Qed.
Definition hist_of (s : Seam) (c : cell) : Z := sum (map (fun b => only (Hist s b) c) buckets).
Lemma hist_of_bucket s s' b : In b buckets -> hist_of s (Hist s' b) = if decide (s' = s) then 1 else 0.
Proof.
  intros B. unfold hist_of, only. destruct (decide (s' = s)) as [->|Ne].
  - revert B. unfold buckets. cbn [map seq In]. intros B. repeat (destruct B as [<-|B]; [destruct s; vm_compute; reflexivity|]). destruct B.
  - generalize buckets at 1. intros l. induction l as [|x l IH]; [reflexivity|]. cbn [map sum]. rewrite IH, decide_False by congruence. reflexivity.
Qed.
Lemma ahead_split s a : unit_add a -> ahead s (fst a) = only (Count s) (fst a) - hist_of s (fst a).
Proof.
  destruct a as [c n]. unfold unit_add. cbn [fst snd]. intros U. destruct c as [s'| |s' b| | | | |]; cbn [ahead]; try reflexivity.
  - unfold only at 1. change (hist_of s (Count s')) with 0. repeat case_decide; congruence || reflexivity.
  - rewrite hist_of_bucket by apply U. unfold only. rewrite (decide_False (P := Count s = _)) by discriminate. case_decide; reflexivity.
Qed.
Lemma weigh_sum {B} (f : B -> cell -> Z) bs l : weigh (fun c => sum (map (fun b => f b c) bs)) l = sum (map (fun b => weigh (f b) l) bs).
Proof.
  induction l as [|a l IH]; cbn [weigh].
  - induction bs as [|b bs IHb]; cbn [map sum]; [reflexivity | rewrite <- IHb; reflexivity].
  - rewrite IH. clear IH. induction bs as [|b bs IHb]; cbn [map sum]; lia.
Qed.
Lemma weigh_split s l : Forall unit_add l -> weigh (ahead s) l = weigh (only (Count s)) l - sum (map (fun b => weigh (only (Hist s b)) l) buckets).
Proof.
  intros F. rewrite <- weigh_sum. fold (hist_of s). change (fun c => sum (map (fun b => only (Hist s b) c) buckets)) with (hist_of s).
  induction F as [|a l U _ IH]; [reflexivity|]. cbn [weigh]. rewrite IH, (ahead_split s a U). lia.
Qed.
Lemma weigh_all_split s ts : Forall (Forall unit_add) ts ->
  weigh_all (ahead s) ts = weigh_all (only (Count s)) ts - sum (map (fun b => weigh_all (only (Hist s b)) ts) buckets).
Proof.
  induction 1 as [|t ts U _ IH]; [reflexivity|]. cbn [weigh_all]. rewrite IH, (weigh_split s t U).
  generalize buckets. intros bs. enough (sum (map (fun b => weigh (only (Hist s b)) t + weigh_all (only (Hist s b)) ts) bs) =
    sum (map (fun b => weigh (only (Hist s b)) t) bs) + sum (map (fun b => weigh_all (only (Hist s b)) ts) bs)) by lia.
  induction bs as [|b bs IHb]; cbn [map sum]; lia.
Qed.
Definition counting (c : cell) : bool := match c with Count _ | Hist _ _ => true | _ => false end.
Lemma weigh_counting c l : counting c = true -> Forall unit_add l -> 0 <= weigh (only c) l.
Proof.
  intros C. induction 1 as [|[c' n] l U _ IH]; [reflexivity|]. cbn [weigh fst snd]. unfold only at 1. destruct (decide (c = c')) as [<-|]; [|lia].
  unfold unit_add in U. cbn in U. destruct c; try discriminate; lia.
Qed.
Lemma done_bounds c T0 ts : counting c = true -> Forall (Forall unit_add) T0 -> Forall2 (fun t0 t => exists pre, t0 = pre ++ t) T0 ts ->
  0 <= weigh_all (only c) T0 - weigh_all (only c) ts <= weigh_all (only c) T0.
Proof.
  intros C U F. induction F as [|t0 t T0 ts [pre ->] F IH]; [cbn; lia|]. inversion_clear U as [|? ? U1 U2]. specialize (IH U2).
  apply List.Forall_app in U1 as [P S]. cbn [weigh_all]. rewrite weigh_app. pose proof (weigh_counting c pre C P). pose proof (weigh_counting c t C S). lia.
Qed.

(** ** What a report is worth *)

Lemma ledger_values pss schedule ts st c : run_threads schedule (map thread pss) zeroed = (ts, st) -> st c = wrap64 (expected (concat pss) c - weigh_all (only c) ts).
Proof. intros R. rewrite (run_threads_net _ _ _ _ _ c R eq_refl), threads_weight. reflexivity. Qed.
Lemma ledger_done pss schedule ts st c :
  run_threads schedule (map thread pss) zeroed = (ts, st) -> Forall (fun t => t = []) ts -> st c = wrap64 (expected (concat pss) c).
Proof. intros R D. rewrite (ledger_values _ _ _ _ c R), weigh_all_done, Z.sub_0_r by exact D. reflexivity. Qed.
(** The timing ledgers add up under concurrency.  Let any number of threads run any probes and
    interleave their atomic operations in any way.  Once all are done every counter is what the
    samples make it, modulo 2^64: each stage, depth lane and linear histogram has the number of
    its samples, their sum, and each sample in its one bucket.  And at every moment before, a
    stage has in its buckets at most as many samples as it has counted, and the difference is at
    most the number of threads that are not done: a report taken under load is off by no more
    than that. *)
Theorem timing_ledgers_add_up pss schedule ts st :
  run_threads schedule (map thread pss) zeroed = (ts, st) ->
  (Forall (fun t => t = []) ts -> forall c, st c = wrap64 (expected (concat pss) c)) /\
  (forall s, zlen (flat_map (seam_samples s) (concat pss)) <= u64_max ->
     sum (map (fun b => st (Hist s b)) buckets) <= st (Count s) <= sum (map (fun b => st (Hist s b)) buckets) + unfinished ts).
Proof.
  intros R. split; [intros D c; eapply ledger_done; eassumption|].
  intros s N. pose proof (run_threads_suffix _ _ _ _ _ R) as F.
  assert (Forall (Forall unit_add) (map thread pss)) as U by (apply List.Forall_map, List.Forall_forall; intros; apply thread_units).
  assert (forall c, counting c = true -> expected (concat pss) c <= u64_max -> st c = weigh_all (only c) (map thread pss) - weigh_all (only c) ts) as X.
  { intros c C B. pose proof (done_bounds c _ _ C U F) as D. rewrite (ledger_values _ _ _ _ c R). rewrite threads_weight in *. apply Z.mod_small. lia. }
  rewrite (X (Count s)) by (exact N || reflexivity).
  assert (map (fun b => st (Hist s b)) buckets = map (fun b => weigh_all (only (Hist s b)) (map thread pss) - weigh_all (only (Hist s b)) ts) buckets) as ->.
  { apply map_ext. intros b. apply X; [reflexivity|]. etrans; [|exact N]. cbn [expected]. apply inj_le, List.filter_length_le. }
  pose proof (led_all (ahead s) _ _ F ltac:(apply List.Forall_map, List.Forall_forall; intros; apply led_thread)) as L.
  rewrite (weigh_all_split s (map thread pss) U), (weigh_all_split s ts) in L.
  - enough (sum (map (fun b => weigh_all (only (Hist s b)) (map thread pss) - weigh_all (only (Hist s b)) ts) buckets) =
      sum (map (fun b => weigh_all (only (Hist s b)) (map thread pss)) buckets) - sum (map (fun b => weigh_all (only (Hist s b)) ts) buckets)) by lia.
    generalize buckets. intros bs. induction bs as [|b bs IH]; cbn [map sum]; lia.
  - clear - U F. induction F as [|t0 t T0 ts [pre ->] F IH]; [constructor|]. inversion_clear U as [|? ? U1 U2]. apply List.Forall_app in U1 as [_ U1]. constructor; auto.
Qed.
Definition demo_probes : list (list probe) :=
  [[RecordCheckout (start true 1500); RecordExchangeDepth 3 (start true 70000); RecordResponseRead 3 (start true 64000)];
   [RecordCheckout (start true 0); RecordResponseRead 9 (start true 40000000); Record Ingest (start true 33554432)]; [Record Park (start false 10); NoteExchangeRetry true]].
Definition demo_schedule : list nat := flat_map (fun _ => [0; 1; 2; 1]%nat) (seq 0 30).
Lemma timing_ledgers_add_up_witness :
  let st := snd (run_threads demo_schedule (map thread demo_probes) zeroed) in
  st (Count Checkout) = 2 /\ st (Hist Checkout 10) = 1 /\ st (Lin (ResponseReadLinear 7) LOver) = 1 /\ st (Lin (ExchangeLinear 3) (LBin 1)) = 1 /\ st ExchangeRetryTotal = 1.
Proof.
  destruct (run_threads demo_schedule (map thread demo_probes) zeroed) as [ts st] eqn:R.
  assert (forallb (fun t => match t with [] => true | _ => false end) (fst (run_threads demo_schedule (map thread demo_probes) zeroed)) = true) as D by (vm_compute; reflexivity).
  destruct (timing_ledgers_add_up demo_probes demo_schedule ts st R) as [V _]. rewrite R in D. cbn [fst] in D.
  assert (Forall (fun t => t = []) ts) as Done.
  { apply List.Forall_forall. intros t I. rewrite forallb_forall in D. specialize (D t I). destruct t; [reflexivity | discriminate]. }
  cbn [snd]. rewrite !(V Done). vm_compute. repeat split; reflexivity.
Defined.

Definition bins : list Z := map Z.of_nat (seq 0 512).
Definition midpoint (b : Z) : Z := b * LIN_BIN_NS + LIN_BIN_NS / 2.
(** The total the bins stand for, a sample at the middle of its bin. *)
Definition estimate (v : Z -> Z) : Z := sum (map (fun b => midpoint b * v b) bins).
Lemma sum_indicator (f : Z -> Z) l x : List.NoDup l -> In x l -> sum (map (fun b => f b * (if x =? b then 1 else 0)) l) = f x.
Proof.
  induction l as [|y l IH]; intros N I; [destruct I|]. inversion_clear N as [|? ? Ny N']. cbn [map sum]. destruct (Z.eqb_spec x y) as [->|Ne].
  - enough (sum (map (fun b => f b * (if y =? b then 1 else 0)) l) = 0) by lia. clear - Ny. induction l as [|z l IH]; [reflexivity|]. cbn [map sum].
    rewrite (proj2 (Z.eqb_neq y z)) by (intros ->; apply Ny; left; reflexivity). rewrite IH by (intros H; apply Ny; right; exact H). lia.
  - destruct I as [->|I]; [contradiction|]. rewrite (IH N' I). lia.
Qed.
Lemma sum_map_add (f g : Z -> Z) l : sum (map (fun b => f b + g b) l) = sum (map f l) + sum (map g l).
Proof. induction l as [|x l IH]; cbn [map sum]; lia. Qed.
Lemma bins_nodup : List.NoDup bins.
Proof. apply Finite.Injective_map_NoDup; [intros x y; apply Nat2Z.inj | apply List.seq_NoDup]. Qed.
Lemma estimate_samples l : Forall (fun n => 0 <= n /\ saturated n = false) l ->
  estimate (fun b => linear_value (LBin b) l) = sum (map (fun n => midpoint (n / LIN_BIN_NS)) l).
Proof.
  assert (forall b, In b bins -> (b <? LIN_BINS) = true) as B by (intros b I; apply in_map_iff in I as (k & <- & K); apply in_seq in K; unfold LIN_BINS; lia).
  intros F. transitivity (sum (map (fun b => midpoint b * how_many (fun n => n / LIN_BIN_NS =? b) l) bins)).
  { unfold estimate. apply (f_equal sum), map_ext_in. intros b I. cbn [linear_value]. rewrite (B b I). reflexivity. }
  induction F as [|n l [Nn Sn] _ IH]; [clear; generalize bins; intros l; induction l as [|b bs IH]; cbn [map sum]; [reflexivity | unfold how_many at 1; cbn [List.filter]; change (zlen (@nil Z)) with 0; rewrite Z.mul_0_r; exact IH]|].
  cbn [map sum]. rewrite <- IH, <- (sum_indicator midpoint bins (n / LIN_BIN_NS) bins_nodup), <- sum_map_add.
  - apply (f_equal sum), map_ext. intros b. unfold how_many. cbn [List.filter]. destruct (n / LIN_BIN_NS =? b); [rewrite zlen_cons|]; lia.
  - apply in_map_iff. unfold saturated in Sn. exists (Z.to_nat (n / LIN_BIN_NS)). assert (0 <= n / LIN_BIN_NS) by (apply Z.div_pos; unfold LIN_BIN_NS, LIN_BIN_US; lia).
    split; [lia | apply in_seq; unfold LIN_BINS in Sn; lia].
Qed.
Lemma half_a_bin n : 0 <= n -> Z.abs (midpoint (n / LIN_BIN_NS) - n) <= LIN_BIN_NS / 2.
Proof.
  intros N. unfold midpoint. pose proof (Z.div_mod n LIN_BIN_NS ltac:(discriminate)) as D. pose proof (Z.mod_pos_bound n LIN_BIN_NS ltac:(reflexivity)) as M.
  change (LIN_BIN_NS / 2) with 32000. unfold LIN_BIN_NS, LIN_BIN_US in *. lia.
Qed.
(** The mean of the bins is the mean of the samples to within half a bin.  When the probes are
    done, nothing overflowed the histogram and the sums fit 64 bits, the total estimated from
    the bin midpoints differs from the exact sum the ledger keeps by at most half a bin width
    per sample, for every linear histogram and every set of samples. *)
Theorem bin_mean_within_half_a_bin pss schedule ts st l :
  run_threads schedule (map thread pss) zeroed = (ts, st) -> Forall (fun t => t = []) ts ->
  Forall (fun n => 0 <= n) (flat_map (linear_samples l) (concat pss)) ->
  zlen (flat_map (linear_samples l) (concat pss)) <= u64_max -> sum (flat_map (linear_samples l) (concat pss)) <= u64_max ->
  st (Lin l LOver) = 0 ->
  Z.abs (estimate (fun b => st (Lin l (LBin b))) - st (Lin l LSum)) <= LIN_BIN_NS / 2 * st (Lin l LCount).
Proof.
  intros R D P N S O. set (xs := flat_map (linear_samples l) (concat pss)) in *.
  assert (forall f, 0 <= linear_value f xs <= u64_max -> st (Lin l f) = linear_value f xs) as V
    by (intros f B; rewrite (ledger_done _ _ _ _ _ R D); cbn [expected]; apply Z.mod_small; fold xs; lia).
  assert (forall Q, 0 <= how_many Q xs <= zlen xs) as H by (intros Q; split; [apply zlen_nonneg | apply inj_le, List.filter_length_le]).
  assert (0 <= sum xs) as S0 by (clear - P; induction P as [|n l0 Hn _ IH]; cbn [sum]; lia).
  rewrite (V LOver) in O by (cbn [linear_value]; pose proof (H saturated); lia). cbn [linear_value] in O.
  rewrite (V LSum), (V LCount) by (cbn [linear_value]; pose proof (zlen_nonneg xs); lia). cbn [linear_value].
  assert (estimate (fun b => st (Lin l (LBin b))) = estimate (fun b => linear_value (LBin b) xs)) as ->.
  { unfold estimate. apply (f_equal sum), map_ext. intros b. rewrite V; [reflexivity|]. cbn [linear_value]. destruct (b <? LIN_BINS); [|unfold_ints; lia].
    pose proof (H (fun n => n / LIN_BIN_NS =? b)). lia. }
  assert (Forall (fun n => 0 <= n /\ saturated n = false) xs) as F.
  { apply List.Forall_forall. intros n I. split; [exact (proj1 (List.Forall_forall _ _) P n I)|]. apply not_true_iff_false. intros Sa.
    assert (In n (List.filter saturated xs)) as J by (apply List.filter_In; auto). unfold how_many, zlen in O. destruct (List.filter saturated xs); [destruct J | discriminate]. }
  rewrite estimate_samples by exact F. clear - F. induction F as [|n l0 [Hn _] _ IH]; [reflexivity|]. cbn [map sum]. rewrite zlen_cons. pose proof (half_a_bin n Hn). lia.
Qed.
Lemma bin_mean_within_half_a_bin_witness :
  let st := snd (run_threads demo_schedule (map thread demo_probes) zeroed) in
  Z.abs (estimate (fun b => st (Lin (ExchangeLinear 3) (LBin b))) - st (Lin (ExchangeLinear 3) LSum)) <= 32000.
Proof.
  destruct (run_threads demo_schedule (map thread demo_probes) zeroed) as [ts st] eqn:R.
  assert (forallb (fun t => match t with [] => true | _ => false end) (fst (run_threads demo_schedule (map thread demo_probes) zeroed)) = true) as D by (vm_compute; reflexivity).
  rewrite R in D. assert (Forall (fun t => t = []) ts) as Done.
  { apply List.Forall_forall. intros t I. rewrite forallb_forall in D. specialize (D t I). destruct t; [reflexivity | discriminate]. }
  assert (st (Lin (ExchangeLinear 3) LOver) = 0) as O by (rewrite (ledger_done _ _ _ _ _ R Done); vm_compute; reflexivity).
  assert (st (Lin (ExchangeLinear 3) LCount) = 1) as C by (rewrite (ledger_done _ _ _ _ _ R Done); vm_compute; reflexivity).
  pose proof (bin_mean_within_half_a_bin demo_probes demo_schedule ts st (ExchangeLinear 3) R Done) as B. rewrite C in B. apply B; [| | |exact O].
  - constructor; [vm_compute; discriminate | constructor].
  - vm_compute. discriminate.
  - vm_compute. discriminate.
Defined.
