(* ===== verification/HopReport.v ===== *)
(** * HopReport: the report of the timing ledgers

    Model of [report_json] and [Linear::json] of the module [hop_timing] in
    [crates/oxo-pingora-edge/src/lib.rs], of the dispatch counters and their [report_json] in
    [platform/frame_hop.rs], and of [hop_timing_admin_json] in [platform/telemetry.rs].  The
    reports are built as text, member by member, and the second one is spliced into the first
    before its last brace.  The reference is a JSON tree with one writer; the texts are shown
    to be the writer's output on the trees they mean, and the splice to append one member. *)

From stdpp Require Import list.
From S2P Require Import Prelude Text AdminJson Dispatch HopTiming.

(** ** Trees *)

#[warnings="-register-all"]
Inductive json : Type := JLeaf (v : jvalue) | JFloat (text : bytes) | JObj (members : list (bytes * json)).
Fixpoint write_json (j : json) : bytes :=
  match j with
  | JLeaf v => write_value v
  | JFloat t => t
  | JObj ms => bs "{" ++ join [comma] (map (fun m => quoted (fst m) ++ bs ":" ++ write_json (snd m)) ms) ++ bs "}"
  end.
Definition write_member (m : bytes * json) : bytes := quoted (fst m) ++ bs ":" ++ write_json (snd m).

(** ** The text *)

Definition key (k : string) : bytes := quoted (bs k) ++ bs ":".
(** The loop over the cells of a histogram: only the non-empty ones, separated by commas. *)
Definition cells_text (cells : list (Z * Z)) : bytes :=
  fold_left (fun acc c => if 0 <? snd c then (match acc with [] => [] | _ => acc ++ [comma] end) ++ quoted (show_uint (fst c)) ++ bs ":" ++ show_uint (snd c) else acc) cells [].
Definition hist_cells (st : store) (f : Z -> cell) (ix : list Z) : list (Z * Z) := map (fun b => (b, st (f b))) ix.
(** Members written with a comma before all but the first. *)
Fixpoint separated (first : bool) (items : list bytes) : bytes :=
  match items with
  | [] => []
  | x :: items' => (if first then [] else [comma]) ++ x ++ separated false items'
  end.
Definition linear_json (st : store) (l : linear) : bytes :=
  bs "{" ++ key "bin_us" ++ show_uint LIN_BIN_US ++ bs "," ++ key "count" ++ show_uint (st (Lin l LCount)) ++ bs "," ++ key "sum_nanos" ++ show_uint (st (Lin l LSum)) ++
  bs "," ++ key "over" ++ show_uint (st (Lin l LOver)) ++ bs "," ++ key "over_sum_nanos" ++ show_uint (st (Lin l LOverSum)) ++
  bs "," ++ key "bins" ++ bs "{" ++ cells_text (hist_cells st (fun b => Lin l (LBin b)) bins) ++ bs "}" ++ bs "}".
Definition is_empty (st : store) (l : linear) : bool := st (Lin l LCount) =? 0.
Definition lanes : list Z := map Z.of_nat (seq 0 8).

Section Report.
(** [{mean:.1}] of [sum as f64 / c as f64], zero without samples. *)
Variable mean_text : Z -> Z -> bytes.
Definition seam_text (st : store) (s : Seam) : bytes :=
  key (seam_name s) ++ bs "{" ++ key "count" ++ show_uint (st (Count s)) ++ bs "," ++ key "sum_nanos" ++ show_uint (st (SumNanos s)) ++
  bs "," ++ key "mean_nanos" ++ mean_text (st (SumNanos s)) (st (Count s)) ++ bs "," ++ key "log2_buckets" ++ bs "{" ++ cells_text (hist_cells st (Hist s) buckets) ++ bs "}" ++ bs "}".
Definition depth_text (st : store) (lane : Z) : bytes :=
  quoted (show_uint lane) ++ bs ":" ++ bs "{" ++ key "count" ++ show_uint (st (DepthCount lane)) ++ bs "," ++ key "mean_nanos" ++ mean_text (st (DepthSum lane)) (st (DepthCount lane)) ++
  bs "," ++ key "log2_buckets" ++ bs "{" ++ cells_text (hist_cells st (DepthHist lane) buckets) ++ bs "}" ++ bs "}".
Definition lanes_text (st : store) (name : string) (l : Z -> linear) : bytes :=
  bs "," ++ key name ++ bs "{" ++ separated true (map (fun lane => quoted (show_uint lane) ++ bs ":" ++ linear_json st (l lane)) (List.filter (fun lane => negb (is_empty st (l lane))) lanes)) ++ bs "}".
Definition report_json (enabled : bool) (st : store) : bytes :=
  bs "{" ++ key "enabled" ++ bs (if enabled then "true" else "false") ++ bs "," ++ key "seams" ++ bs "{" ++ separated true (map (seam_text st) seams) ++ bs "}" ++
  bs "," ++ key "exchange_by_depth" ++ bs "{" ++ separated true (map (depth_text st) (List.filter (fun lane => negb (st (DepthCount lane) =? 0)) lanes)) ++ bs "}" ++
  lanes_text st "exchange_linear" ExchangeLinear ++ lanes_text st "response_read_linear" ResponseReadLinear ++
  bs "," ++ key "checkout_linear" ++ linear_json st CheckoutLinear ++ bs "," ++ key "exchange_retry_total" ++ show_uint (st ExchangeRetryTotal) ++ bs "}" ++ [zb 10].

(** ** The dispatch counters *)

Record gauges : Type := { dispatch_total : Z; chosen_busy : Z; bad_dispatch : Z; depth_hist : list Z }.
Definition DEPTH_BUCKETS : nat := 8.
Definition new_gauges : gauges := {| dispatch_total := 0; chosen_busy := 0; bad_dispatch := 0; depth_hist := repeat 0 DEPTH_BUCKETS |}.
(** What [InFlightGuard] counts when a worker is chosen: [depth] requests were already in
    flight on it, and [others] are the in-flight counts of the other workers. *)
Definition note_dispatch (depth : nat) (others : list Z) (g : gauges) : gauges :=
  let slot := Nat.min depth (DEPTH_BUCKETS - 1) in
  let busy := (0 <? depth)%nat in
  {| dispatch_total := wrap64 (dispatch_total g + 1);
     chosen_busy := if busy then wrap64 (chosen_busy g + 1) else chosen_busy g;
     bad_dispatch := if busy && existsb (fun n => n =? 0) others then wrap64 (bad_dispatch g + 1) else bad_dispatch g;
     depth_hist := alter (fun n => wrap64 (n + 1)) slot (depth_hist g) |}.
Definition dispatch_report_json (m : DispatchMode) (g : gauges) : bytes :=
  bs "{" ++ key "mode" ++ quoted (mode_name m) ++ bs "," ++ key "dispatch_total" ++ show_uint (dispatch_total g) ++ bs "," ++ key "chosen_busy" ++ show_uint (chosen_busy g) ++
  bs "," ++ key "bad_dispatch" ++ show_uint (bad_dispatch g) ++ bs "," ++ key "depth_hist" ++ bs "{" ++
  join [comma] (map (fun bc => quoted (show_uint (Z.of_nat (fst bc))) ++ bs ":" ++ show_uint (snd bc)) (imap pair (depth_hist g))) ++ bs "}" ++ bs "}".
(** [strip_suffix('}').unwrap_or(trimmed)] *)
Definition strip_brace (s : bytes) : bytes := match rev s with b :: r => if bz b =? 125 then rev r else s | [] => s end.
Definition hop_timing_admin_json (enabled : bool) (st : store) (m : DispatchMode) (g : gauges) : bytes :=
  strip_brace (trim_end (report_json enabled st)) ++ bs "," ++ key "dispatch" ++ dispatch_report_json m g ++ bs "}" ++ [zb 10].

(** ** The trees they mean *)

Definition jnum (n : Z) : json := JLeaf (JNum n).
Definition cells_tree (cells : list (Z * Z)) : json := JObj (map (fun c => (show_uint (fst c), jnum (snd c))) (List.filter (fun c => 0 <? snd c) cells)).
Definition linear_tree (st : store) (l : linear) : json :=
  JObj [(bs "bin_us", jnum LIN_BIN_US); (bs "count", jnum (st (Lin l LCount))); (bs "sum_nanos", jnum (st (Lin l LSum))); (bs "over", jnum (st (Lin l LOver)));
        (bs "over_sum_nanos", jnum (st (Lin l LOverSum))); (bs "bins", cells_tree (hist_cells st (fun b => Lin l (LBin b)) bins))].
Definition seam_tree (st : store) (s : Seam) : json :=
  JObj [(bs "count", jnum (st (Count s))); (bs "sum_nanos", jnum (st (SumNanos s))); (bs "mean_nanos", JFloat (mean_text (st (SumNanos s)) (st (Count s))));
        (bs "log2_buckets", cells_tree (hist_cells st (Hist s) buckets))].
Definition depth_tree (st : store) (lane : Z) : json :=
  JObj [(bs "count", jnum (st (DepthCount lane))); (bs "mean_nanos", JFloat (mean_text (st (DepthSum lane)) (st (DepthCount lane))));
        (bs "log2_buckets", cells_tree (hist_cells st (DepthHist lane) buckets))].
Definition lanes_tree (st : store) (l : Z -> linear) : json :=
  JObj (map (fun lane => (show_uint lane, linear_tree st (l lane))) (List.filter (fun lane => negb (is_empty st (l lane))) lanes)).
Definition report_members (enabled : bool) (st : store) : list (bytes * json) :=
  [(bs "enabled", JLeaf (JBool enabled)); (bs "seams", JObj (map (fun s => (bs (seam_name s), seam_tree st s)) seams));
   (bs "exchange_by_depth", JObj (map (fun lane => (show_uint lane, depth_tree st lane)) (List.filter (fun lane => negb (st (DepthCount lane) =? 0)) lanes)));
   (bs "exchange_linear", lanes_tree st ExchangeLinear); (bs "response_read_linear", lanes_tree st ResponseReadLinear); (bs "checkout_linear", linear_tree st CheckoutLinear);
   (bs "exchange_retry_total", jnum (st ExchangeRetryTotal))].
Definition dispatch_tree (m : DispatchMode) (g : gauges) : json :=
  JObj [(bs "mode", JLeaf (JWord (mode_name m))); (bs "dispatch_total", jnum (dispatch_total g)); (bs "chosen_busy", jnum (chosen_busy g)); (bs "bad_dispatch", jnum (bad_dispatch g));
        (bs "depth_hist", JObj (map (fun bc => (show_uint (Z.of_nat (fst bc)), jnum (snd bc))) (imap pair (depth_hist g))))].

(** ** The text is the tree's *)

Lemma separated_join items : separated true items = join [comma] items.
Proof.
  destruct items as [|x items]; [reflexivity|]. cbn [separated app]. revert x. induction items as [|y items IH]; intros x; cbn [separated]; [apply app_nil_r|].
  rewrite join_cons. f_equal. f_equal. rewrite <- IH. reflexivity.
Qed.
Lemma write_obj ms : write_json (JObj ms) = bs "{" ++ join [comma] (map write_member ms) ++ bs "}".
Proof. reflexivity. Qed.
Lemma quoted_cons k : exists b s, quoted k = b :: s.
Proof. exists quote, (k ++ [quote]). reflexivity. Qed.
(** The loop with [is_empty] for its separator is a join. *)
Lemma cells_join cells acc : acc <> [] ->
  fold_left (fun acc c => if 0 <? snd c then (match acc with [] => [] | _ => acc ++ [comma] end) ++ quoted (show_uint (fst c)) ++ bs ":" ++ show_uint (snd c) else acc) cells acc =
  acc ++ separated false (map write_member (map (fun c => (show_uint (fst c), jnum (snd c))) (List.filter (fun c => 0 <? snd c) cells))).
Proof.
  revert acc. induction cells as [|c cells IH]; intros acc N; cbn [fold_left List.filter map separated]; [rewrite app_nil_r; reflexivity|].
  destruct (0 <? snd c); [|apply IH, N]. cbn [map separated]. destruct acc as [|b acc]; [contradiction|]. rewrite IH by discriminate.
  change (write_member (show_uint (fst c), jnum (snd c))) with (quoted (show_uint (fst c)) ++ bs ":" ++ show_uint (snd c)).
  cbn [app]. rewrite <- !app_assoc. reflexivity.
Qed.
Lemma cells_text_tree cells : bs "{" ++ cells_text cells ++ bs "}" = write_json (cells_tree cells).
Proof.
  unfold cells_tree. rewrite write_obj. f_equal. f_equal. unfold cells_text. rewrite <- separated_join.
  induction cells as [|c cells IH]; [reflexivity|]. cbn [fold_left List.filter]. destruct (0 <? snd c); [|exact IH]. cbn [map separated app].
  destruct (quoted_cons (show_uint (fst c))) as (b & t & Q). rewrite cells_join by (rewrite Q; discriminate). reflexivity.
Qed.
Lemma cells_text_tree_app cells r : bs "{" ++ cells_text cells ++ bs "}" ++ r = write_json (cells_tree cells) ++ r.
Proof. rewrite <- cells_text_tree, <- !app_assoc. reflexivity. Qed.
(** The members of an object, one after the other. *)
Fixpoint members_text (ms : list (bytes * json)) : bytes :=
  match ms with [] => bs "}" | m :: ms' => bs "," ++ quoted (fst m) ++ bs ":" ++ write_json (snd m) ++ members_text ms' end.
Lemma members_join m ms : write_json (JObj (m :: ms)) = bs "{" ++ quoted (fst m) ++ bs ":" ++ write_json (snd m) ++ members_text ms.
Proof.
  rewrite write_obj. f_equal. revert m. induction ms as [|m' ms IH]; intros m; cbn [map].
  - cbn [join members_text]. unfold write_member. rewrite <- !app_assoc. reflexivity.
  - rewrite join_cons. cbn [members_text]. rewrite <- IH. unfold write_member at 1. rewrite <- !app_assoc. reflexivity.
Qed.
Lemma linear_json_tree st l r : linear_json st l ++ r = write_json (linear_tree st l) ++ r.
Proof.
  f_equal. unfold linear_json, linear_tree, key. rewrite members_join. cbn [members_text fst snd write_json jnum write_value]. rewrite cells_text_tree_app. rewrite <- !app_assoc. reflexivity.
Qed.
Lemma seam_text_tree st s : seam_text st s = write_member (bs (seam_name s), seam_tree st s).
Proof.
  unfold seam_text, write_member, seam_tree, key. cbn [fst snd]. rewrite members_join. cbn [members_text fst snd write_json jnum write_value]. rewrite cells_text_tree_app, <- !app_assoc. reflexivity.
Qed.
Lemma depth_text_tree st lane : depth_text st lane = write_member (show_uint lane, depth_tree st lane).
Proof.
  unfold depth_text, write_member, depth_tree, key. cbn [fst snd]. rewrite members_join. cbn [members_text fst snd write_json jnum write_value]. rewrite cells_text_tree_app, <- !app_assoc. reflexivity.
Qed.
Lemma object_text {A} (f : A -> bytes) (g : A -> bytes * json) l r :
  (forall x, f x = write_member (g x)) -> bs "{" ++ separated true (map f l) ++ bs "}" ++ r = write_json (JObj (map g l)) ++ r.
Proof. intros E. rewrite separated_join, (map_ext _ _ E), <- map_map, write_obj, <- !app_assoc. reflexivity. Qed.
Lemma lanes_text_tree st name l r : lanes_text st name l ++ r = bs "," ++ quoted (bs name) ++ bs ":" ++ write_json (lanes_tree st l) ++ r.
Proof.
  unfold lanes_text, key. rewrite <- !app_assoc.
  rewrite (object_text _ (fun lane => (show_uint lane, linear_tree st (l lane)))); [reflexivity|].
  intros lane. unfold write_member. cbn [fst snd]. f_equal. f_equal. rewrite <- (app_nil_r (linear_json st (l lane))), linear_json_tree. apply app_nil_r.
Qed.
Lemma report_text_tree enabled st : report_json enabled st = write_json (JObj (report_members enabled st)) ++ [zb 10].
Proof.
  unfold report_json, report_members, key. rewrite members_join. cbn [members_text fst snd]. rewrite <- !app_assoc.
  rewrite (object_text _ (fun s => (bs (seam_name s), seam_tree st s))) by apply seam_text_tree.
  rewrite (object_text _ (fun lane => (show_uint lane, depth_tree st lane))) by apply depth_text_tree.
  rewrite !lanes_text_tree, linear_json_tree. destruct enabled; reflexivity.
Qed.
Lemma dispatch_text_tree m g r : dispatch_report_json m g ++ r = write_json (dispatch_tree m g) ++ r.
Proof.
  f_equal. unfold dispatch_report_json, dispatch_tree, key. rewrite members_join. cbn [members_text fst snd write_json jnum write_value]. rewrite <- !app_assoc.
  rewrite map_map. reflexivity.
Qed.
Lemma object_last ms : exists t, write_json (JObj ms) = t ++ bs "}".
Proof. exists (bs "{" ++ join [comma] (map write_member ms)). rewrite write_obj, app_assoc. reflexivity. Qed.
Lemma strip_one_lf s : strip_one ws_bwd (zb 10 :: s) = Some s.
Proof. reflexivity. Qed.
Lemma trim_line t b : graphic b = true -> trim_end (t ++ [b; zb 10]) = t ++ [b].
Proof.
  intros G. rewrite <- (trim_end_graphic t b G). unfold trim_end. change [b; zb 10] with ([b] ++ [zb 10]). rewrite app_assoc, rev_app_distr, length_app, Nat.add_comm.
  cbn [rev app length Nat.add strip_many]. rewrite strip_one_lf. reflexivity.
Qed.
Lemma strip_brace_end t : strip_brace (t ++ bs "}") = t.
Proof. unfold strip_brace. rewrite rev_app_distr. cbn [rev bs app]. change (rev (bs "}") ++ rev t) with (zb 125 :: rev t). cbn. apply rev_involutive. Qed.
Lemma members_snoc m ms x : write_json (JObj ((m :: ms) ++ [x])) ++ bs "" = strip_brace (write_json (JObj (m :: ms))) ++ bs "," ++ write_member x ++ bs "}".
Proof.
  rewrite app_nil_r. replace (write_json (JObj (m :: ms))) with ((bs "{" ++ join [comma] (map write_member (m :: ms))) ++ bs "}") by (rewrite <- app_assoc; reflexivity).
  rewrite strip_brace_end, write_obj, map_app. cbn [map app]. rewrite <- !app_assoc. f_equal. generalize (write_member m). generalize (map write_member ms).
  intros l. induction l as [|y l IH]; intros w; cbn [app]; [cbn [join]; rewrite <- !app_assoc; reflexivity|].
  rewrite !join_cons, <- !app_assoc. do 2 f_equal. apply IH.
Qed.
End Report.
(** The timing report is the JSON it means to be.  For every state of the ledgers, however the
    means are printed, the text [report_json] builds by hand is the canonical writing of the
    object with its seven members, the histograms holding exactly their non-empty cells and the
    lanes exactly those with samples; and the body of the admin endpoint, which removes the last
    brace and splices in the dispatch report, is the writing of that object with one member
    more. *)
Theorem report_is_the_json_tree mean_text enabled st m g :
  report_json mean_text enabled st = write_json (JObj (report_members mean_text enabled st)) ++ [zb 10] /\
  hop_timing_admin_json mean_text enabled st m g = write_json (JObj (report_members mean_text enabled st ++ [(bs "dispatch", dispatch_tree m g)])) ++ [zb 10].
Proof.
  split; [apply report_text_tree|]. unfold hop_timing_admin_json, key. rewrite report_text_tree, <- !app_assoc, dispatch_text_tree.
  destruct (object_last (report_members mean_text enabled st)) as [t E].
  replace (trim_end (write_json (JObj (report_members mean_text enabled st)) ++ [zb 10])) with (write_json (JObj (report_members mean_text enabled st)))
    by (rewrite E; change (bs "}") with [zb 125]; rewrite <- app_assoc; symmetry; apply trim_line; reflexivity).
  unfold report_members. change ((?m :: ?ms) ++ ?x) with (m :: (ms ++ x)).
  etrans; [|apply (f_equal (fun x => x ++ [zb 10])); etrans; [|apply app_nil_r]; symmetry; apply members_snoc].
  unfold write_member. cbn [fst snd]. rewrite <- !app_assoc. reflexivity.
Qed.

(** ** The dispatch counters agree *)

Record gauges_ok (k : Z) (g : gauges) : Prop :=
  { go_total : dispatch_total g = k; go_order : 0 <= bad_dispatch g <= chosen_busy g /\ chosen_busy g <= k; go_sum : sum (depth_hist g) = k;
    go_pos : Forall (fun n => 0 <= n) (depth_hist g); go_len : length (depth_hist g) = DEPTH_BUCKETS }.
Lemma wrap64_small n : 0 <= n <= u64_max -> wrap64 n = n.
Proof. intros H. apply Z.mod_small. lia. Qed.
Lemma sum_nonneg l : Forall (fun n => 0 <= n) l -> 0 <= sum l.
Proof. induction 1 as [|n l H _ IH]; cbn [sum]; lia. Qed.
Lemma hist_alter l i : Forall (fun n => 0 <= n) l -> sum l < u64_max -> (i < length l)%nat ->
  sum (alter (fun n => wrap64 (n + 1)) i l) = sum l + 1 /\ Forall (fun n => 0 <= n) (alter (fun n => wrap64 (n + 1)) i l).
Proof.
  intros F. revert i. induction F as [|n l Hn F IH]; intros i B L; [cbn in L; lia|]. pose proof (sum_nonneg l F) as P. cbn [sum] in B. destruct i as [|i].
  - change (alter (fun n => wrap64 (n + 1)) 0%nat (n :: l)) with (wrap64 (n + 1) :: l). rewrite wrap64_small by lia. cbn [sum]. split; [lia | constructor; [lia | exact F]].
  - change (alter (fun n => wrap64 (n + 1)) (S i) (n :: l)) with (n :: alter (fun n => wrap64 (n + 1)) i l). cbn [length] in L. destruct (IH i) as [E G]; [lia | lia|].
    cbn [sum]. rewrite E. split; [lia | constructor; assumption].
Qed.
Lemma note_dispatch_ok k g depth others : gauges_ok k g -> 0 <= k < u64_max -> gauges_ok (k + 1) (note_dispatch depth others g).
Proof.
  intros [T [O1 O2] Su P L] K. destruct (hist_alter (depth_hist g) (Nat.min depth (DEPTH_BUCKETS - 1)) P) as [E G];
    [rewrite Su; lia | rewrite L; unfold DEPTH_BUCKETS; lia|].
  split; cbn [note_dispatch dispatch_total chosen_busy bad_dispatch depth_hist]; rewrite ?length_alter; try assumption; try lia.
  - rewrite T. apply wrap64_small. lia.
  - destruct (0 <? depth)%nat; cbn [andb]; [|lia]. rewrite (wrap64_small (chosen_busy g + 1)) by lia. destruct (existsb _ others); [rewrite wrap64_small by lia|]; lia.
Qed.
(** Any sequence of dispatches below 2^64: the histogram holds each once, and the convoy signal
    counts no dispatch that the busy counter does not. *)
Lemma dispatch_counters_agree notes : zlen notes <= u64_max ->
  gauges_ok (zlen notes) (fold_left (fun g n => note_dispatch (fst n) (snd n) g) notes new_gauges).
Proof.
  intros N. rewrite <- fold_left_rev_right. replace (zlen notes) with (zlen (rev notes)) in * by (unfold zlen; rewrite length_rev; reflexivity).
  induction (rev notes) as [|n l IH]; cbn [fold_right].
  - split; cbn; [reflexivity | vm_compute; repeat split; discriminate | reflexivity | repeat (constructor; [lia|]); constructor | reflexivity].
  - rewrite zlen_cons in *. rewrite Z.add_comm. apply note_dispatch_ok; [apply IH; lia | pose proof (zlen_nonneg l); lia].
Qed.
