(* ===== verification/Reaper.v ===== *)
(** * Reaper: one task for all idle connections

    Model of the consolidated watcher of
    [crates/oxo-pingora-edge/src/platform/frame_hop.rs]: the end of the check-in that hands a
    connection to its watcher, [spawn_supervised_reaper] and [run_reaper], with
    [OXO_HOP_REAPER=1].  Each watch is the future of [watch_idle_connection], whose outcomes
    [PoolHandover] models; here it is pending, ready or done.  The receiver of the channel is
    behind a lock of the supervisor and survives a panic of the task; the futures the task was
    driving do not. *)

From stdpp Require Import relations list.
From S2P Require Import Prelude.

(** A connection under watch. *)
Abbreviation item := nat.
Inductive task : Type := Running | Draining | Exited.
Record reaper : Type := {
  channel : list item; tx_open : bool;      (** sent and not yet received; whether the pool still holds the sender *)
  watches : list (item * bool);             (** the futures, and whether each is ready *)
  state : task; spawned : Z; deaths : Z;
  sent : list item; finished : list item; lost : list item; popped : list item }.
(** The first check-in makes the channel and starts the supervised task. *)
Definition spawn_supervised_reaper : reaper :=
  {| channel := []; tx_open := true; watches := []; state := Running; spawned := 1; deaths := 0; sent := []; finished := []; lost := []; popped := [] |}.
Definition none_ready (r : reaper) : bool := negb (existsb snd (watches r)).

(** The check-in: a failed send takes the connection out of the pool again. *)
Definition hand_over (i : item) (r : reaper) : reaper :=
  match state r with
  | Exited => {| channel := channel r; tx_open := tx_open r; watches := watches r; state := state r; spawned := spawned r; deaths := deaths r;
                 sent := sent r ++ [i]; finished := finished r; lost := lost r; popped := popped r ++ [i] |}
  | _ => {| channel := channel r ++ [i]; tx_open := tx_open r; watches := watches r; state := state r; spawned := spawned r; deaths := deaths r;
            sent := sent r ++ [i]; finished := finished r; lost := lost r; popped := popped r |}
  end.
Definition with_watches (ws : list (item * bool)) (r : reaper) : reaper :=
  {| channel := channel r; tx_open := tx_open r; watches := ws; state := state r; spawned := spawned r; deaths := deaths r;
     sent := sent r; finished := finished r; lost := lost r; popped := popped r |}.
Definition with_state (t : task) (r : reaper) : reaper :=
  {| channel := channel r; tx_open := tx_open r; watches := watches r; state := t; spawned := spawned r; deaths := deaths r;
     sent := sent r; finished := finished r; lost := lost r; popped := popped r |}.
(** The watch futures make progress on their own. *)
Definition wake (i : item) (r : reaper) : reaper := with_watches (map (fun w => if (fst w =? i)%nat then (i, true) else w) (watches r)) r.
(** [watches.next()]: a ready future completes. *)
Definition complete (before after : list (item * bool)) (i : item) (r : reaper) : reaper :=
  {| channel := channel r; tx_open := tx_open r; watches := before ++ after; state := state r; spawned := spawned r; deaths := deaths r;
     sent := sent r; finished := finished r ++ [i]; lost := lost r; popped := popped r |}.
(** A turn of [run_reaper] that does not complete a watch; [None]: it waits. *)
Definition turn (r : reaper) : option reaper :=
  match state r with
  | Exited => None
  | Draining => match watches r with [] => Some (with_state Exited r) | _ => None end
  | Running =>
      if none_ready r then
        match channel r with
        | i :: ch => Some {| channel := ch; tx_open := tx_open r; watches := watches r ++ [(i, false)]; state := Running; spawned := spawned r; deaths := deaths r;
                             sent := sent r; finished := finished r; lost := lost r; popped := popped r |}
        | [] => if tx_open r then None else match watches r with [] => Some (with_state Exited r) | _ => Some (with_state Draining r) end
        end
      else None
  end.
(** The task panics: its futures are dropped, the supervisor counts and starts another. *)
Definition panic (r : reaper) : reaper :=
  {| channel := channel r; tx_open := tx_open r; watches := []; state := Running; spawned := spawned r + 1; deaths := deaths r + 1;
     sent := sent r; finished := finished r; lost := lost r ++ map fst (watches r); popped := popped r |}.
Definition drop_sender (r : reaper) : reaper :=
  {| channel := channel r; tx_open := false; watches := watches r; state := state r; spawned := spawned r; deaths := deaths r;
     sent := sent r; finished := finished r; lost := lost r; popped := popped r |}.

Inductive step : reaper -> reaper -> Prop :=
| step_hand_over r i : tx_open r = true -> step r (hand_over i r)
| step_wake r i : step r (wake i r)
| step_complete r before i after : state r <> Exited -> watches r = before ++ (i, true) :: after -> step r (complete before after i r)
| step_turn r r' : turn r = Some r' -> step r r'
| step_panic r : state r <> Exited -> step r (panic r)
| step_drop_sender r : step r (drop_sender r).

(** ** Every connection is accounted for *)

Definition whereabouts (r : reaper) : list item := channel r ++ map fst (watches r) ++ finished r ++ lost r ++ popped r.
Record inv (r : reaper) : Prop := {
  inv_items : sent r ≡ₚ whereabouts r;
  inv_counters : spawned r = deaths r + 1 /\ 0 <= deaths r;
  inv_lost : deaths r = 0 -> lost r = [];
  inv_draining : state r <> Running -> tx_open r = false /\ channel r = [];
  inv_exited : state r = Exited -> watches r = [] }.
(** Permutations of concatenations, by counting. *)
Ltac count_items P :=
  apply (proj2 (Permutation_count_occ Nat.eq_dec _ _)); let x := fresh "x" in let Q := fresh "Q" in
  intros x; pose proof (proj1 (Permutation_count_occ Nat.eq_dec _ _) P x) as Q; repeat rewrite ?map_app, ?count_occ_app in *; cbn [count_occ map fst app] in *;
  repeat rewrite ?map_app, ?count_occ_app in *; repeat match goal with |- context [Nat.eq_dec ?a ?b] => destruct (Nat.eq_dec a b) end; lia.
Lemma wake_names i ws : map fst (map (fun w : item * bool => if (fst w =? i)%nat then (i, true) else w) ws) = map fst ws.
Proof. rewrite map_map. apply map_ext. intros [j b]. cbn. destruct (Nat.eqb_spec j i) as [->|]; reflexivity. Qed.
Lemma turn_inv r r' : inv r -> turn r = Some r' -> inv r'.
Proof.
  intros [P C L D X] H. unfold turn in H. destruct (state r) eqn:S; [| |discriminate].
  - destruct (none_ready r); [|discriminate]. destruct (channel r) as [|i ch] eqn:Ch.
    + destruct (tx_open r) eqn:O; [discriminate|]. unfold whereabouts in P. rewrite Ch in P.
      destruct (watches r) as [|w ws] eqn:W; injection H as <-; (split; unfold whereabouts; cbn; rewrite ?Ch, ?W; auto; discriminate).
    + injection H as <-. split; unfold whereabouts in *; cbn; auto; [|intros E; exfalso; apply E; reflexivity|discriminate].
      rewrite Ch in P. count_items P.
  - destruct (watches r) as [|w ws] eqn:W; [|discriminate]. injection H as <-. destruct D as [D1 D2]; [discriminate|].
    unfold whereabouts in P. rewrite W in P. split; unfold whereabouts; cbn; rewrite ?W; auto.
Qed.
Lemma reaper_step_inv r r' : inv r -> step r r' -> inv r'.
Proof.
  intros I S. destruct S as [r i O|r i|r before i after Ne W|r r' T|r Ne|r]; try (eapply turn_inv; eassumption); destruct I as [P C L D X].
  - unfold hand_over. destruct (state r) eqn:St; [|destruct D as [D _]; [discriminate | congruence]|destruct D as [D _]; [discriminate | congruence]].
    split; unfold whereabouts in *; cbn; rewrite ?St; auto; try congruence. count_items P.
  - split; unfold whereabouts in *; cbn; rewrite ?wake_names; auto. intros E. rewrite (X E). reflexivity.
  - split; unfold whereabouts in *; cbn; auto; [|intros E; contradiction]. rewrite W in P. count_items P.
  - split; unfold whereabouts in *; cbn; try lia; try (intros E; exfalso; apply E; reflexivity); try discriminate. count_items P.
  - split; unfold whereabouts in *; cbn; auto. intros E. split; [reflexivity | apply (D E)].
Qed.
Lemma reaper_inv r : rtc step spawn_supervised_reaper r -> inv r.
Proof.
  revert r. apply (rtc_ind_r inv); [|intros y z _ S I; eapply reaper_step_inv; eassumption]. split; cbn; try reflexivity; try discriminate; auto; [lia | intros H; exfalso; apply H; reflexivity].
Qed.
(** The reaper loses no connection while it lives.  In every run, with check-ins, wake-ups,
    completions, panics and the end of the pool in any order: each connection handed to it is
    in exactly one place, waiting in the channel, under watch, done, or, because the task died
    while it was watched or the reaper had ended, dropped or taken out of the pool again; as
    long as the task never died nothing is dropped; the counters always say that one task more
    was started than died; and when the reaper has ended, nothing is waiting or under watch. *)
Theorem reaper_accounts_for_connections r :
  rtc step spawn_supervised_reaper r ->
  sent r ≡ₚ whereabouts r /\ spawned r = deaths r + 1 /\ (deaths r = 0 -> lost r = []) /\ (state r = Exited -> sent r ≡ₚ finished r ++ lost r ++ popped r).
Proof.
  intros H. destruct (reaper_inv r H) as [P [C _] L D X]. repeat split; auto. intros E. unfold whereabouts in P. destruct (D ltac:(congruence)) as [_ Ch]. rewrite Ch, (X E) in P. exact P.
Qed.
(** The end of the pool ends the reaper: with no panic and no new check-in, each turn and each
    completion uses up what is left. *)
Definition left (r : reaper) : nat := 2 * length (channel r) + length (watches r) + match state r with Running => 2 | Draining => 1 | Exited => 0 end.
Lemma turn_uses_up r r' : turn r = Some r' -> (left r' < left r)%nat.
Proof.
  unfold turn, left. intros H. destruct (state r) eqn:S; [| |discriminate].
  - destruct (none_ready r); [|discriminate]. destruct (channel r) as [|i ch] eqn:Ch.
    + destruct (tx_open r); [discriminate|]. destruct (watches r) eqn:W; injection H as <-; cbn; rewrite ?Ch, ?W; cbn; lia.
    + injection H as <-. cbn. rewrite length_app. cbn. lia.
  - destruct (watches r) eqn:W; [|discriminate]. injection H as <-. cbn. rewrite W. cbn. lia.
Qed.
(** Once the sender is gone the reaper is never stuck: it takes a turn, or completes a watch that is ready, or waits for one that is pending, or has ended. *)
Lemma reaper_never_stuck r : tx_open r = false -> turn r = None -> state r = Exited \/ watches r <> [].
Proof.
  intros O T. unfold turn in T. destruct (state r); [| |auto].
  - destruct (watches r) eqn:W; [|right; discriminate]. unfold none_ready in T. rewrite W in T. cbn in T. destruct (channel r); [rewrite O in T|]; discriminate.
  - destruct (watches r); [discriminate | right; discriminate].
Qed.
Lemma reaper_accounts_for_connections_witness : exists r, rtc step spawn_supervised_reaper r /\ sent r = [7; 8; 9]%nat /\ finished r = [7]%nat /\ lost r = [8]%nat /\ deaths r = 1 /\
  sent r ≡ₚ whereabouts r.
Proof.
  assert (exists r, rtc step spawn_supervised_reaper r /\ sent r = [7; 8; 9]%nat /\ finished r = [7]%nat /\ lost r = [8]%nat /\ deaths r = 1) as (r & R & E).
  { eexists. split.
    - eapply rtc_l; [apply (step_hand_over _ 7); reflexivity|]. eapply rtc_l; [apply step_turn; reflexivity|]. eapply rtc_l; [apply (step_hand_over _ 8); reflexivity|].
      eapply rtc_l; [apply (step_wake _ 7)|]. eapply rtc_l; [apply (step_complete _ [] 7 []); [discriminate | reflexivity]|]. eapply rtc_l; [apply step_turn; reflexivity|].
      eapply rtc_l; [apply step_panic; discriminate|]. eapply rtc_l; [apply (step_hand_over _ 9); reflexivity | constructor].
    - repeat split; reflexivity. }
  exists r. destruct E as (E1 & E2 & E3 & E4). split; [exact R|]. repeat (split; [assumption|]). apply (reaper_accounts_for_connections r R).
Defined.
