(* ===== verification/Scratch.v ===== *)
(** * Scratch: the pool of per-request buffers

    Model of [crates/oxo-pingora-edge/src/platform/scratch.rs].  A scratch is an arena and a
    frame buffer; [ScratchPool::checkout] takes one out of a stripe or makes a new one, and the
    drop of its guard puts it back unless it has grown too large or the stripe is full.  The
    arena is a library: what it allocated after a reset is a parameter, never more than before.
    The round-robin selector is a machine word that wraps.

    Requests run concurrently; each step below is one critical section. *)

From stdpp Require Import relations list.
From S2P Require Import Prelude Text.

Definition RETAIN_CAP_BYTES : Z := 65536.
Definition STRIPES : nat := 8.
Definition PER_STRIPE_CAP : nat := 8.

(** The arena's allocation and what was written into it, and the frame buffer. *)
Record RequestScratch : Type := { allocated : Z; arena : list bytes; frame_capacity : Z; frame_buf : bytes }.
Definition new_scratch : RequestScratch := {| allocated := 0; arena := []; frame_capacity := 0; frame_buf := [] |}.
Definition clean (s : RequestScratch) : Prop := arena s = [] /\ frame_buf s = [].
(** [next] is modulo 2^64. *)
Record ScratchPool : Type := { stripes : list (list RequestScratch); next : Z }.
Definition new_pool : ScratchPool := {| stripes := repeat [] STRIPES; next := 0 |}.

Section Pool.
(** [Bump::reset]: what stays allocated. *)
Variable reset_to : Z -> Z.
Hypothesis reset_shrinks : forall n, 0 <= n -> 0 <= reset_to n <= n.

(** [bump.reset()] and [frame_buf.clear()] *)
Definition reset (s : RequestScratch) : RequestScratch :=
  {| allocated := reset_to (allocated s); arena := []; frame_capacity := frame_capacity s; frame_buf := [] |}.
(** [next.fetch_add(1) % STRIPES] *)
Definition pick (p : ScratchPool) : nat := Z.to_nat (next p mod Z.of_nat STRIPES).
Definition advance (p : ScratchPool) (st : list (list RequestScratch)) : ScratchPool := {| stripes := st; next := (next p + 1) mod (u64_max + 1) |}.
Definition checkout (p : ScratchPool) : RequestScratch * ScratchPool :=
  let i := pick p in
  match rev (unwrap_or [] (stripes p !! i)) with
  | s :: rest => (reset s, advance p (<[i := rev rest]> (stripes p)))
  | [] => (reset new_scratch, advance p (stripes p))
  end.
Definition drop_guard (s : RequestScratch) (p : ScratchPool) : ScratchPool :=
  if (allocated s >? RETAIN_CAP_BYTES) || (frame_capacity s >? RETAIN_CAP_BYTES) then p
  else
    let s := reset s in
    let i := pick p in
    let free := unwrap_or [] (stripes p !! i) in
    if (length free <? PER_STRIPE_CAP)%nat then advance p (<[i := free ++ [s]]> (stripes p)) else advance p (stripes p).

(** Requests in progress hold their scratch and write to it. *)
Record system : Type := { pool : ScratchPool; held : list RequestScratch }.
Inductive step : system -> system -> Prop :=
| step_checkout sys s p : checkout (pool sys) = (s, p) -> step sys {| pool := p; held := s :: held sys |}
| step_use sys i s s' : held sys !! i = Some s -> 0 <= allocated s' -> 0 <= frame_capacity s' -> step sys {| pool := pool sys; held := <[i := s']> (held sys) |}
| step_drop sys before s after : held sys = before ++ s :: after -> step sys {| pool := drop_guard s (pool sys); held := before ++ after |}.

(** ** The invariant *)

Definition retained (s : RequestScratch) : Prop := clean s /\ 0 <= allocated s <= RETAIN_CAP_BYTES /\ 0 <= frame_capacity s <= RETAIN_CAP_BYTES.
Definition stripe_ok (free : list RequestScratch) : Prop := (length free <= PER_STRIPE_CAP)%nat /\ Forall retained free.
Record pool_ok (p : ScratchPool) : Prop := { po_stripes : length (stripes p) = STRIPES; po_all : Forall stripe_ok (stripes p) }.
Record inv (sys : system) : Prop := { inv_pool : pool_ok (pool sys); inv_held : Forall (fun s => 0 <= allocated s /\ 0 <= frame_capacity s) (held sys) }.

Lemma pick_lt p : pool_ok p -> (pick p < length (stripes p))%nat.
Proof. intros [L _]. rewrite L. unfold pick. pose proof (Z.mod_pos_bound (next p) (Z.of_nat STRIPES) ltac:(reflexivity)). unfold STRIPES in *. lia. Qed.
Lemma stripe_at p : pool_ok p -> exists free, stripes p !! pick p = Some free /\ stripe_ok free.
Proof.
  intros P. destruct (lookup_lt_is_Some_2 (stripes p) (pick p) (pick_lt p P)) as [free F]. exists free. split; [exact F|].
  destruct P as [_ A]. rewrite list.Forall_forall in A. apply A. eapply list_elem_of_lookup_2, F.
Qed.
Lemma put_stripe p free : pool_ok p -> stripe_ok free -> pool_ok (advance p (<[pick p := free]> (stripes p))).
Proof. intros [L A] F. split; cbn [stripes advance]; [rewrite length_insert; exact L | apply list.Forall_insert; assumption]. Qed.
Lemma checkout_ok p s p' : pool_ok p -> checkout p = (s, p') -> clean s /\ 0 <= allocated s /\ 0 <= frame_capacity s /\ pool_ok p'.
Proof.
  intros P. destruct (stripe_at p P) as (free & F & [L A]). unfold checkout. rewrite F. cbn [unwrap_or]. destruct (rev free) as [|x rest] eqn:R; intros [= <- <-].
  - split; [split; reflexivity|]. cbn. pose proof (reset_shrinks 0 ltac:(lia)). repeat split; [lia | lia | destruct P; assumption | destruct P; assumption].
  - assert (free = rev rest ++ [x]) as -> by (rewrite <- (rev_involutive free), R; reflexivity). apply List.Forall_app in A as [A1 A2].
    inversion_clear A2 as [|? ? [_ [[Ha _] [Hf _]]] _]. split; [split; reflexivity|]. cbn. pose proof (reset_shrinks (allocated x) Ha).
    split; [lia|]. split; [lia|]. apply put_stripe; [exact P|]. split; [rewrite length_app in L; cbn in L; lia | exact A1].
Qed.
Lemma drop_ok s p : pool_ok p -> 0 <= allocated s -> 0 <= frame_capacity s -> pool_ok (drop_guard s p).
Proof.
  intros P Ha Hf. unfold drop_guard. destruct (_ || _) eqn:G; [exact P|]. apply orb_false_iff in G as [G1 G2].
  destruct (stripe_at p P) as (free & F & [L A]). rewrite F. cbn [unwrap_or]. destruct (length free <? PER_STRIPE_CAP)%nat eqn:Lt; [|destruct P; split; assumption].
  apply Nat.ltb_lt in Lt. apply put_stripe; [exact P|]. split; [rewrite length_app; cbn; lia|]. apply List.Forall_app. split; [exact A|]. constructor; [|constructor].
  pose proof (reset_shrinks (allocated s) Ha). split; [split; reflexivity|]. cbn. lia.
Qed.
Lemma scratch_step_inv sys sys' : inv sys -> step sys sys' -> inv sys'.
Proof.
  intros [P H] S. destruct S as [sys s p C|sys i s s' L Ha Hf|sys before s after E]; cbn in *.
  - apply checkout_ok in C as (_ & Ha & Hf & P'); [|exact P]. split; cbn; [exact P' | constructor; [split; assumption | exact H]].
  - split; cbn; [exact P | apply list.Forall_insert; [exact H | split; assumption]].
  - rewrite E in H. apply List.Forall_app in H as [H1 H2]. inversion_clear H2 as [|? ? [Ha Hf] H3]. split; cbn; [apply drop_ok; assumption | apply List.Forall_app; auto].
Qed.
Definition fresh : system := {| pool := new_pool; held := [] |}.
Lemma scratch_reachable_inv sys : rtc step fresh sys -> inv sys.
Proof.
  revert sys. apply (rtc_ind_r inv); [|intros y z _ S I; eapply scratch_step_inv; eassumption].
  split; [split; [reflexivity|] | constructor]. cbn. repeat (constructor; [split; [cbn; lia | constructor]|]). constructor.
Qed.
(** What the pool keeps. *)
Fixpoint total (f : RequestScratch -> Z) (l : list RequestScratch) : Z := match l with [] => 0 | s :: l' => f s + total f l' end.
Definition size_of (s : RequestScratch) : Z := allocated s + frame_capacity s.
Lemma total_app f l l' : total f (l ++ l') = total f l + total f l'.
Proof. induction l as [|s l IH]; cbn; lia. Qed.
Lemma total_bound l : Forall retained l -> 0 <= total size_of l <= 2 * RETAIN_CAP_BYTES * zlen l.
Proof. induction 1 as [|s l [_ [A B]] _ IH]; [split; discriminate|]. cbn [total]. rewrite zlen_cons. assert (size_of s = allocated s + frame_capacity s) by reflexivity. unfold RETAIN_CAP_BYTES in *. lia. Qed.
Lemma stripes_bound ls : Forall stripe_ok ls -> 0 <= total size_of (concat ls) <= 2 * RETAIN_CAP_BYTES * Z.of_nat PER_STRIPE_CAP * zlen ls.
Proof.
  induction 1 as [|l ls [L R] _ IH]; [split; discriminate|]. cbn [concat]. rewrite total_app, zlen_cons. pose proof (total_bound l R).
  assert (zlen l <= Z.of_nat PER_STRIPE_CAP) by (unfold zlen; lia). unfold RETAIN_CAP_BYTES in *. lia.
Qed.
End Pool.
(** Scratch buffers carry nothing over and retain little.  However many requests check
    scratches out, write to them and drop them, in any order: a scratch that is checked out has
    an empty arena and an empty frame buffer, whatever earlier requests left in it, no scratch
    in the pool is over the retention cap, and the pool never keeps more than 8 MiB. *)
Theorem scratch_is_clean_and_bounded reset_to sys :
  (forall n, 0 <= n -> 0 <= reset_to n <= n) -> rtc (step reset_to) fresh sys ->
  (forall s p, checkout reset_to (pool sys) = (s, p) -> clean s) /\
  Forall (Forall retained) (stripes (pool sys)) /\ total size_of (concat (stripes (pool sys))) <= 8 * 1024 * 1024.
Proof.
  intros Sh R. apply (scratch_reachable_inv reset_to Sh) in R as [P _]. split; [intros s p C; apply (checkout_ok reset_to Sh _ _ _ P) in C as [C _]; exact C|].
  destruct P as [L A]. split; [eapply List.Forall_impl; [|exact A]; intros free [_ F]; exact F|].
  pose proof (stripes_bound _ A) as B. unfold zlen in B. rewrite L in B. exact (proj2 B).
Qed.
Definition used : RequestScratch := {| allocated := 4096; arena := [bs "cookie: secret"]; frame_capacity := 1024; frame_buf := bs "frame" |}.
Lemma scratch_is_clean_and_bounded_witness :
  exists s p, checkout (fun n => n) (drop_guard (fun n => n) used (snd (checkout (fun n => n) new_pool))) = (s, p) /\ clean s.
Proof.
  destruct (checkout (fun n => n) (drop_guard (fun n => n) used (snd (checkout (fun n => n) new_pool)))) as [s p] eqn:C. exists s, p. split; [reflexivity|].
  assert (rtc (step (fun n => n)) fresh {| pool := drop_guard (fun n => n) used (snd (checkout (fun n => n) new_pool)); held := [] |}) as R.
  { eapply rtc_l; [apply (step_checkout _ fresh (fst (checkout (fun n => n) new_pool)) (snd (checkout (fun n => n) new_pool))); reflexivity|].
    eapply rtc_l; [apply (step_use _ _ 0%nat (fst (checkout (fun n => n) new_pool)) used); [reflexivity | cbn; lia | cbn; lia]|].
    eapply rtc_l; [apply (step_drop _ _ [] used []); reflexivity | constructor]. }
  destruct (scratch_is_clean_and_bounded (fun n => n) _ ltac:(intros; lia) R) as [H _]. exact (H s p C).
Defined.
