(* ===== verification/CertPair.v ===== *)
(** * CertPair: what makes an issued certificate acceptable

    Model of [validate_issued_pair], [invalid_issued] and
    [certificate_not_after_epoch_seconds] of [crates/oxo-pingora-edge/src/acme/issue.rs], the
    checks a new certificate passes before it reaches the disk, against the check the serving
    edge makes when it loads it, [validate_tls_certificate_name] of [platform/config.rs].

    The PEM and X.509 parsers and the key library are parameters: the blocks of a PEM text, the
    first block, the certificate in a block, and the public key of a private key.  A certificate
    has its subject alternative name extensions (one that does not parse is [None]), its public
    key and its end of validity.  [subject_alternative_name] is documented to fail on an
    extension that occurs twice. *)

From S2P Require Import Prelude Text AcmeState FsChecks EdgeConf.

Inductive general_name : Type := DnsName (n : bytes) | OtherName (raw : bytes).
Record leaf : Type := { l_sans : list (option (list general_name)); l_public_key : bytes; l_not_after : Z }.
Definition is_dns (fqdn : bytes) (n : general_name) : bool := match n with DnsName d => eq_ignore_case d fqdn | OtherName _ => false end.
Definition dns_names (ns : list general_name) : list bytes := omap (fun n => match n with DnsName d => Some d | OtherName _ => None end) ns.

Section Pair.
Variable pem_blocks : bytes -> option (list bytes).
Variable parse_x509_pem : bytes -> option bytes.
Variable parse_x509 : bytes -> option leaf.
Variable public_key_of : bytes -> option bytes.

Definition invalid_issued (detail : bytes) : AcmeError := InvalidIssuance (bs "invalid issued certificate: " ++ detail).
(** The filter over the extensions, the names of all of them together, and the match. *)
Definition san_match (c : leaf) (fqdn : bytes) : bool :=
  existsb (is_dns fqdn) (flat_map (fun ext => match ext with Some names => names | None => [] end) (l_sans c)).
Definition validate_issued_pair (cert_pem key_pem fqdn : bytes) : result AcmeError unit :=
  match pem_blocks cert_pem with
  | None => Err (invalid_issued (bs "certificate PEM did not parse"))
  | Some [] => Err (invalid_issued (bs "certificate PEM contained no certificates"))
  | Some (block :: _) =>
      match parse_x509 block with
      | None => Err (invalid_issued (bs "leaf certificate DER did not parse"))
      | Some c =>
          if negb (san_match c fqdn) then Err (invalid_issued (bs "leaf certificate SAN does not cover " ++ fqdn))
          else match public_key_of key_pem with
               | None => Err (invalid_issued (bs "private key PEM did not parse"))
               | Some k => if eq_bytes k (l_public_key c) then Ok tt
                           else Err (invalid_issued (bs "private key does not correspond to the leaf certificate public key"))
               end
      end
  end.
Definition certificate_not_after_epoch_seconds (pem : bytes) : result AcmeError (option Z) :=
  match parse_x509_pem pem with
  | None => Err (InvalidIssuance (bs "failed to parse issued certificate PEM"))
  | Some block =>
      match parse_x509 block with
      | None => Err (InvalidIssuance (bs "failed to parse issued certificate"))
      | Some c => if l_not_after c <? 0 then Err (InvalidIssuance (bs "issued certificate not_after is before the Unix epoch")) else Ok (Some (l_not_after c))
      end
  end.
(** What the edge finds in a certificate file with this content: [subject_alternative_name]
    wants the extension once and parsed. *)
Definition certificate_in (content : bytes) : certificate :=
  match parse_x509_pem content with
  | None => Unparsable
  | Some block =>
      match parse_x509 block with
      | Some {| l_sans := [Some names] |} => DnsNames (dns_names names)
      | _ => Unparsable
      end
  end.

(** ** The two checks *)

Lemma dns_match fqdn names : existsb (is_dns fqdn) names = existsb (fun n => eq_ignore_case n fqdn) (dns_names names).
Proof. induction names as [|[d|r] names IH]; cbn; [reflexivity | rewrite IH; reflexivity | exact IH]. Qed.
Lemma accepted_pair cert key fqdn : validate_issued_pair cert key fqdn = Ok tt ->
  exists block blocks c k, pem_blocks cert = Some (block :: blocks) /\ parse_x509 block = Some c /\ san_match c fqdn = true /\ public_key_of key = Some k /\ k = l_public_key c.
Proof.
  unfold validate_issued_pair. destruct (pem_blocks cert) as [[|block blocks]|]; try discriminate. destruct (parse_x509 block) as [c|] eqn:C; [|discriminate].
  destruct (san_match c fqdn) eqn:S; [|discriminate]. destruct (public_key_of key) as [k|] eqn:K; [|discriminate]. cbn [negb]. destruct (eq_bytes k (l_public_key c)) eqn:E; [|discriminate].
  intros _. apply eq_bytes_true in E. exists block, blocks, c, k. auto.
Qed.
Lemma contains_sub_app p a b : contains_sub p (a ++ p ++ b) = true.
Proof.
  induction a as [|x a IH]; cbn [app].
  - assert (starts_with p (p ++ b) = true) as S by (induction p as [|c p IHp]; [reflexivity | cbn; rewrite bool_decide_true by reflexivity; exact IHp]).
    destruct (p ++ b) eqn:E; cbn [contains_sub]; rewrite S; reflexivity.
  - cbn [contains_sub]. rewrite IH. apply orb_true_r.
Qed.
(** The prefix of the message carries the class: every refusal of a pair, whatever its detail,
    is classified as an invalid certificate, the class with the long delay and the latch. *)
Lemma refused_pair_is_classified cert key fqdn e : validate_issued_pair cert key fqdn = Err e -> classify_acme_failure (display e) = bs "invalid-certificate".
Proof.
  intros H. assert (exists d, e = invalid_issued d) as [d ->].
  { unfold validate_issued_pair in H. repeat case_match; simplify_eq; eauto. }
  unfold classify_acme_failure, display, invalid_issued. unfold to_ascii_lowercase. rewrite !map_app.
  replace (contains_sub _ _) with true; [reflexivity|]. symmetry.
  rewrite (app_assoc (map _ _)). change (map lower_byte (bs "invalid issued certificate: ")) with (bs "invalid issued certificate" ++ bs ": ").
  rewrite <- !app_assoc. apply contains_sub_app.
Qed.
End Pair.
(** What is issued can be served.  When the first block of a PEM text is the one the other
    parser reads, a pair that passes the check before it is written has a key that belongs to
    its certificate, and the serving edge accepts the certificate for that name, in any case of
    its letters, exactly when the certificate has its alternative names in one extension. *)
Theorem issued_pair_can_be_served pem_blocks parse_x509_pem parse_x509 public_key_of cert key fqdn path :
  (forall s b rest, pem_blocks s = Some (b :: rest) -> parse_x509_pem s = Some b) ->
  validate_issued_pair pem_blocks parse_x509 public_key_of cert key fqdn = Ok tt ->
  exists block c, parse_x509_pem cert = Some block /\ parse_x509 block = Some c /\ public_key_of key = Some (l_public_key c) /\
    (validate_tls_certificate_name (fun _ => certificate_in parse_x509_pem parse_x509 cert) path fqdn = Ok tt <-> length (l_sans c) = 1%nat).
Proof.
  intros Pem A. apply accepted_pair in A as (block & blocks & c & k & B & C & S & K & ->). exists block, c. pose proof (Pem _ _ _ B) as P. repeat (split; [assumption|]).
  unfold validate_tls_certificate_name, certificate_in. rewrite P, C. destruct c as [sans pk na]. unfold san_match in S. cbn [l_sans] in *.
  destruct sans as [|[names|] [|x rest]]; cbn [length]; try (split; [discriminate | lia]).
  - cbn in S. rewrite app_nil_r, dns_match in S. rewrite S. split; reflexivity.
  - discriminate.
Qed.
Definition demo_leaf : leaf := {| l_sans := [Some [OtherName (bs "ip"); DnsName (bs "App.Example.org")]]; l_public_key := bs "key"; l_not_after := 2000000000 |}.
Lemma issued_pair_can_be_served_witness :
  validate_tls_certificate_name (fun _ => certificate_in Some (fun _ => Some demo_leaf) (bs "pem")) (bs "/etc/cert.pem") (bs "app.example.org") = Ok tt.
Proof.
  destruct (issued_pair_can_be_served (fun s => Some [s]) Some (fun _ => Some demo_leaf) Some (bs "pem") (bs "key") (bs "app.example.org") (bs "/etc/cert.pem"))
    as (block & c & _ & C & _ & S); [intros s b rest [= -> _]; reflexivity | vm_compute; reflexivity|]. injection C as <-. apply S. reflexivity.
Defined.
(** With its names in two extensions a certificate is written and then not served. *)
Example twice_named_certificate_is_written_and_refused :
  let c := {| l_sans := [Some [DnsName (bs "app.example.org")]; Some [DnsName (bs "www.example.org")]]; l_public_key := bs "key"; l_not_after := 2000000000 |} in
  validate_issued_pair (fun s => Some [s]) (fun _ => Some c) Some (bs "pem") (bs "key") (bs "app.example.org") = Ok tt /\
  validate_tls_certificate_name (fun _ => certificate_in Some (fun _ => Some c) (bs "pem")) (bs "/etc/cert.pem") (bs "app.example.org") = Err TlsCertificateName.
Proof. split; vm_compute; reflexivity. Qed.
