(* ===== verification/EdgeBoot.v ===== *)
(** * EdgeBoot: from accepted options to a serving edge

    Model of the end of [run_with_cli] in
    [crates/oxo-pingora-edge/src/platform/config.rs] (the dry run of [--check-config] and the
    certificate report), of [run_edge] in [platform/proxy.rs], of the accept loop of the admin
    endpoint in [platform/telemetry.rs] and of [platform/drain.rs].  [EdgeConf] models the
    readers that come before.

    A boot is the list of what became visible outside the process, in order, and how it ended.
    The static file server is a library: whether it accepts its mounts is a parameter, as are
    the parser of a mount, the directory listings and the outcome of binding a socket. *)

From stdpp Require Import gmap relations.
From S2P Require Import Prelude Text AdminJson HopFrame EdgeCli FdBudget FsChecks AcmeState IpText Identity EdgeConf Telemetry Proxy.

(** ** The drain flag *)

(** [DrainState]: a watch channel; [DrainSignalService::start] on the values the server's
    shutdown watch shows, the first one at its start, until its sender is gone. *)
Fixpoint drain_service (shutdown : list bool) (draining : bool) : bool :=
  match shutdown with
  | [] => draining
  | v :: shutdown' => if v then true else drain_service shutdown' draining
  end.
Lemma drain_is_a_latch shutdown d : drain_service shutdown d = existsb (fun v => v) shutdown || (negb (existsb (fun v => v) shutdown) && d).
Proof. induction shutdown as [|[] l IH]; cbn; [reflexivity | reflexivity | exact IH]. Qed.

(** ** The admin endpoint's accept loop *)

(** The connections it answers: [None] is an accept error, which ends the thread. *)
Fixpoint admin_loop {A} (incoming : list (option A)) : list A :=
  match incoming with Some c :: incoming' => c :: admin_loop incoming' | _ => [] end.
(** After one failed accept nobody is answered any more. *)
Lemma admin_ends_with_an_error {A} (before after : list (option A)) : admin_loop (before ++ None :: after) = admin_loop before.
Proof. induction before as [|[c|] before IH]; cbn; [reflexivity | rewrite IH; reflexivity | reflexivity]. Qed.

(** ** The worker set *)

Inductive WorkerSlotState : Type := SlotReady | SlotDraining | SlotStopped | SlotFailed.
Record WorkerSlot : Type := { ws_id : Z; ws_generation : Z; ws_socket : bytes; ws_state : WorkerSlotState; ws_draining : bool }.
(** [WorkerSet::ready]; the index is cut to 32 bits. *)
Definition worker_set_ready (sockets : list bytes) : list WorkerSlot :=
  imap (fun i s => {| ws_id := Z.of_nat i mod 2 ^ 32; ws_generation := 1; ws_socket := s; ws_state := SlotReady; ws_draining := false |}) sockets.
Definition ready_sockets (slots : list WorkerSlot) : list bytes :=
  map ws_socket (List.filter (fun s => match ws_state s with SlotReady => negb (ws_draining s) | _ => false end) slots).
Definition configured_socket (slots : list WorkerSlot) : option bytes := ws_socket <$> head slots.
(** The proxy's workers are the configured sockets, in their order. *)
Lemma ready_set_is_all_sockets sockets : ready_sockets (worker_set_ready sockets) = sockets /\ configured_socket (worker_set_ready sockets) = head sockets.
Proof.
  split; [|destruct sockets; reflexivity]. unfold ready_sockets, worker_set_ready. generalize 0%nat as k.
  assert (forall f : nat -> bytes -> WorkerSlot, (forall i s, ws_socket (f i s) = s /\ ws_state (f i s) = SlotReady /\ ws_draining (f i s) = false) ->
    map ws_socket (List.filter (fun s => match ws_state s with SlotReady => negb (ws_draining s) | _ => false end) (imap f sockets)) = sockets) as G.
  { induction sockets as [|s ss IH]; intros f F; [reflexivity|]. rewrite imap_cons. cbn [List.filter]. destruct (F 0%nat s) as (E1 & E2 & E3). rewrite E2, E3. cbn [negb map].
    rewrite E1, IH by (intros; apply F). reflexivity. }
  intros _. apply G. intros; repeat split.
Qed.

(** ** Boot *)

Inductive boot_error : Type := Refused (e : EdgeError) | CertState (e : stop) | AdminBind | TlsSettings.
Inductive boot_event : Type := StateRead | AdminListening (a : SocketAddr) | Listening (a : SocketAddr).
(** [ServerConf], the service's options and its proxy. *)
Record Server : Type := {
  s_listener : ListenerMode; s_grace_seconds : Z; s_shutdown_timeout : Z; s_threads : Z; s_tasks : Z; s_request_limit : option Z;
  s_h2_streams : Z; s_h2_resets : Z; s_admin : option SocketAddr; s_proxy : EdgeProxy; s_telemetry : EdgeTelemetry }.
Inductive outcome : Type := Checked | Serving (s : Server).

Section Boot.
Variable getenv : string -> option bytes.
Variable lstat : bytes -> stat.
Variables (exists_path is_dir : bytes -> bool).
Variable certificate_of : bytes -> certificate.
Variable mount_parses : bytes -> bool.
Variable limits : Nofile.
Variable nproc : Z.
Local Abbreviation run_with_cli := (run_with_cli getenv lstat exists_path is_dir certificate_of mount_parses limits nproc).
(** The mount of a specification that parses; a directory's entries; the static server. *)
Variable mount_of : bytes -> MountSpec.
Variable read_dir : bytes -> option (list dir_entry).
Variable static_server : list MountSpec -> bool.
(** The certificate state: the libraries, what is at the path, the disk and the clock. *)
Variable from_json : bytes -> result bytes json.
Variable certificate_not_after : bytes -> result AcmeError (option Z).
Variable state_dir : bytes -> dir_state.
Variable disk_of : bytes -> host.
Variable now : Z.
(** Whether a socket can be bound and its thread started, and the TLS settings built. *)
Variable admin_ok : SocketAddr -> bool.
Variable tls_ok : bytes -> bytes -> bool.
Variable caps : FrameCaps.
Variable pid : Z.

Definition mounts_of (o : RunEdgeOptions) : list MountSpec := map mount_of (o_mounts o).
Definition new_static_server (ms : list MountSpec) : result EdgeError unit := if static_server ms then Ok tt else Err (ConfigEnv "OXO_EDGE_STATIC_MOUNTS").
(** The dry run's audit of the static mounts. *)
Definition check_static (o : RunEdgeOptions) : result EdgeError unit :=
  match o_mounts o with
  | [] => Ok tt
  | _ =>
      let? _ := if o_prod o then (let? _ := build_prod_pin_set read_dir (mounts_of o) in Ok tt) else Ok tt in
      new_static_server (mounts_of o)
  end.
(** [static_descriptor] of the plan; the default posture without one. *)
Definition serve_rails_posture (cli : EdgeCliConfig) : bool * bytes :=
  match read_serve_rails getenv cli, read_static_rails_preset getenv cli with
  | Some root, Ok preset =>
      match plan_serve_rails exists_path is_dir root preset with
      | Ok p => (true, unwrap_or (bs "off") (static_dir p))
      | Err _ => (false, bs "off")
      end
  | _, _ => (false, bs "off")
  end.
Definition lifecycle (s : AcmeState.CertificateLifecycleStatus) : CertificateLifecycleStatus :=
  {| cert_present := AcmeState.cert_present s; not_after_epoch_seconds := AcmeState.not_after_epoch_seconds s;
     seconds_until_expiry := AcmeState.seconds_until_expiry s; renewal_due := AcmeState.renewal_due s;
     next_renewal_epoch_seconds := AcmeState.next_renewal_epoch_seconds s; reload_required := AcmeState.reload_required s;
     reload_strategy := AcmeState.reload_strategy s; plaintext_fallback := AcmeState.plaintext_fallback s; failure_count := AcmeState.failure_count s;
     last_error_kind := AcmeState.last_error_kind s; last_error_message := AcmeState.last_error_message s;
     backoff_until_epoch_seconds := AcmeState.backoff_until_epoch_seconds s |}.
Definition certificate_lifecycle_admin_json (path : bytes) : result stop bytes :=
  fst ((let! _ := prepare (is_absolute path) (state_dir path) in
        let! s := status from_json certificate_not_after now default_policy in
        ret (admin_json_fields (lifecycle s))) (disk_of path)).
Definition state_path (cli : EdgeCliConfig) : option bytes := or_else (paths cli !! acme_state_path) (opt_path getenv "OXO_EDGE_ACME_STATE_PATH").
Definition read_certificate_admin_json (cli : EdgeCliConfig) : result stop (option bytes) :=
  match state_path cli with
  | None => Ok None
  | Some path => let? j := certificate_lifecycle_admin_json path in Ok (Some j)
  end.
(** [EdgeTelemetry::new] *)
Definition telemetry_new (cli : EdgeCliConfig) (o : RunEdgeOptions) (cert : option bytes) (pinned : bool) : EdgeTelemetry :=
  let '(active, descriptor) := serve_rails_posture cli in
  {| worker_count := Z.of_nat (length (o_sockets o)); edge_threads := o_threads o; listener_tasks := o_tasks o; request_log := o_request_log o;
     t_worker_hop := o_hop o; t_public_mode := o_public_mode o; slow_client := o_slow_client o; certificate_admin_json := cert;
     serve_rails_active := active; serve_rails_static := descriptor; routing_pinned := pinned |}.
Definition prod_pin (o : RunEdgeOptions) : result EdgeError (option (gset bytes)) :=
  if o_prod o && negb (match o_mounts o with [] => true | _ => false end) then let? p := build_prod_pin_set read_dir (mounts_of o) in Ok (Some p) else Ok None.
Definition static_of (o : RunEdgeOptions) : result EdgeError unit :=
  match o_mounts o with [] => Ok tt | _ => new_static_server (mounts_of o) end.
Definition bind_admin (o : RunEdgeOptions) : option (list boot_event) :=
  match o_admin o with None => Some [] | Some a => if admin_ok a then Some [AdminListening a] else None end.
Definition listener_ok (l : ListenerMode) : bool := match l with Plain => true | Tls cert key _ => tls_ok cert key end.
Definition run_edge (cli : EdgeCliConfig) (o : RunEdgeOptions) (cert : option bytes) : list boot_event * result boot_error outcome :=
  match (let? pin := prod_pin o in let? _ := static_of o in Ok pin) with
  | Err e => ([], Err (Refused e))
  | Ok pin =>
      match bind_admin o with
      | None => ([], Err AdminBind)
      | Some admin =>
          if listener_ok (o_listener o) then
            (admin ++ [Listening (o_bind o)],
             Ok (Serving {| s_listener := o_listener o; s_grace_seconds := o_drain_seconds o; s_shutdown_timeout := 0; s_threads := o_threads o; s_tasks := o_tasks o;
                            s_request_limit := sc_keepalive_request_limit (o_slow_client o); s_h2_streams := max_concurrent_streams (o_h2 o);
                            s_h2_resets := max_reset_streams (o_h2 o); s_admin := o_admin o; s_proxy := edge_proxy_new o pin caps pid;
                            s_telemetry := telemetry_new cli o cert (is_some pin) |}))
          else (admin, Err TlsSettings)
      end
  end.
(** [run_with_cli] to its end; [check] is [cli.check_config]. *)
Definition boot_with (check : bool) (cli : EdgeCliConfig) : list boot_event * result boot_error outcome :=
  match run_with_cli cli with
  | Err e => ([], Err (Refused e))
  | Ok o =>
      if check then ([], match check_static o with Ok _ => Ok Checked | Err e => Err (Refused e) end)
      else match read_certificate_admin_json cli with
           | Err e => ([StateRead], Err (CertState e))
           | Ok cert => let '(evs, r) := run_edge cli o cert in ((if is_some (state_path cli) then StateRead :: evs else evs), r)
           end
  end.
Definition boot (cli : EdgeCliConfig) : list boot_event * result boot_error outcome := boot_with (bool_decide (check_config ∈ switches cli)) cli.

(** ** What the dry run tells *)

Lemma check_static_audits o : check_static o = Ok tt <-> (exists pin, prod_pin o = Ok pin) /\ static_of o = Ok tt.
Proof.
  unfold check_static, prod_pin, static_of. destruct (o_mounts o) as [|m ms]; [rewrite andb_false_r; split; [eauto | reflexivity]|]. rewrite andb_true_r.
  destruct (o_prod o); [|cbn; split; [intros H; split; [eauto | exact H] | tauto]].
  destruct (build_prod_pin_set read_dir (mounts_of o)) as [p|e]; cbn; [split; [intros H; split; [eauto | exact H] | tauto] | split; [discriminate | intros [[? ?] _]; discriminate]].
Qed.
(** Why a boot that passed the dry run may still fail. *)
Definition left_to_boot (cli : EdgeCliConfig) (o : RunEdgeOptions) (r : result boot_error outcome) : Prop :=
  match r with
  | Ok Checked => False
  | Ok (Serving s) => exists pin, s_proxy s = edge_proxy_new o pin caps pid /\ prod_pin o = Ok pin
  | Err (Refused _) => False
  | Err (CertState e) => exists path, state_path cli = Some path /\ certificate_lifecycle_admin_json path = Err e
  | Err AdminBind => exists a, o_admin o = Some a /\ admin_ok a = false
  | Err TlsSettings => exists cert key h2, o_listener o = Tls cert key h2 /\ tls_ok cert key = false
  end.
(** C13. The dry run decides everything but the state of the machine.  If [--check-config] accepts a
    command line, it has opened nothing, and starting the edge with it never refuses the
    configuration: it serves, with the proxy built from the accepted options and the pins the
    dry run could build, unless the certificate state cannot be read, the admin address cannot
    be bound or the TLS settings cannot be built.  If the dry run refuses, the edge does not
    serve and opens no socket at all. *)
Theorem dry_run_predicts_boot cli :
  (forall evs, boot_with true cli = (evs, Ok Checked) -> evs = [] /\ exists o, run_with_cli cli = Ok o /\ left_to_boot cli o (snd (boot_with false cli))) /\
  (forall evs e, boot_with true cli = (evs, Err e) ->
     evs = [] /\ (exists e', snd (boot_with false cli) = Err e') /\ Forall (fun ev => ev = StateRead) (fst (boot_with false cli))).
Proof.
  unfold boot_with. destruct (run_with_cli cli) as [o|e0]; [|split; [intros evs H; discriminate | intros evs e [= <- <-]; repeat split; [eauto | constructor]]].
  assert (forall cert, check_static o = Ok tt -> left_to_boot cli o (snd (run_edge cli o cert))) as Pass.
  { intros cert [[pin P] S]%check_static_audits. unfold run_edge. rewrite P, S. cbn [rbind]. unfold bind_admin.
    destruct (o_admin o) as [a|] eqn:A; [destruct (admin_ok a) eqn:Ok_; [|cbn; eauto]|];
      (destruct (o_listener o) as [|cp kp h2] eqn:L; cbn [listener_ok]; [cbn; eauto | destruct (tls_ok cp kp) eqn:T; cbn; eauto]). }
  split.
  - intros evs H. destruct (check_static o) as [[]|e] eqn:C; [|discriminate]. injection H as <-. split; [reflexivity|]. exists o. split; [reflexivity|].
    unfold read_certificate_admin_json. destruct (state_path cli) as [path|] eqn:Sp.
    + destruct (certificate_lifecycle_admin_json path) as [j|e] eqn:J; cbn [rbind]; [|cbn; eauto].
      specialize (Pass (Some j) eq_refl). destruct (run_edge cli o (Some j)). exact Pass.
    + specialize (Pass None eq_refl). destruct (run_edge cli o None). exact Pass.
  - intros evs e H. destruct (check_static o) as [[]|e1] eqn:C; [discriminate|]. injection H as <- <-. split; [reflexivity|].
    destruct (read_certificate_admin_json cli) as [cert|e2]; [|split; [cbn; eauto | repeat constructor]].
    assert (exists e', run_edge cli o cert = ([], Err (Refused e'))) as [e' ->].
    { unfold run_edge. destruct (prod_pin o) as [pin|e'] eqn:P; [|cbn; eauto]. cbn [rbind]. destruct (static_of o) as [[]|e'] eqn:S; [|cbn; eauto].
      assert (check_static o = Ok tt) by (apply check_static_audits; eauto). congruence. }
    split; [cbn; eauto|]. cbn [fst snd]. destruct (is_some (state_path cli)); repeat constructor.
Qed.
(** The public socket is opened last: an edge that serves has done everything else, and one
    that does not has not listened. *)
Lemma public_socket_is_last cli :
  match snd (boot_with false cli) with
  | Ok _ => exists before o, fst (boot_with false cli) = before ++ [Listening (o_bind o)] /\ run_with_cli cli = Ok o /\ Forall (fun ev => forall a, ev <> Listening a) before
  | Err _ => Forall (fun ev => forall a, ev <> Listening a) (fst (boot_with false cli))
  end.
Proof.
  unfold boot_with. destruct (run_with_cli cli) as [o|e0]; [|constructor]. destruct (read_certificate_admin_json cli) as [cert|e2]; [|repeat constructor; discriminate].
  assert (forall evs r, run_edge cli o cert = (evs, r) -> match r with
    | Ok _ => exists before, evs = before ++ [Listening (o_bind o)] /\ Forall (fun ev => forall a, ev <> Listening a) before
    | Err _ => Forall (fun ev => forall a, ev <> Listening a) evs end) as H.
  { intros evs r. unfold run_edge. destruct (rbind _ _) as [pin|e]; [|intros [= <- <-]; constructor]. unfold bind_admin.
    assert (forall admin, match o_admin o with None => Some [] | Some a => if admin_ok a then Some [AdminListening a] else None end = Some admin ->
      Forall (fun ev => forall a, ev <> Listening a) admin) as Adm.
    { intros admin. destruct (o_admin o) as [a|]; [destruct (admin_ok a); [|discriminate]|]; intros [= <-]; [constructor; [discriminate | constructor] | constructor]. }
    destruct (match o_admin o with None => _ | Some _ => _ end) as [admin|]; [|intros [= <- <-]; constructor]. specialize (Adm admin eq_refl).
    destruct (listener_ok (o_listener o)); intros [= <- <-]; [exists admin; auto | exact Adm]. }
  destruct (run_edge cli o cert) as [evs r] eqn:R. specialize (H _ _ eq_refl). destruct r as [out|e]; cbn [fst snd].
  - destruct H as (before & -> & F). destruct (is_some (state_path cli)); [exists (StateRead :: before), o | exists before, o]; repeat split; try assumption.
    constructor; [discriminate | exact F].
  - destruct (is_some (state_path cli)); [constructor; [discriminate | exact H] | exact H].
Qed.
(** What the dry run does not look at: with a state directory that is a symlink it says yes,
    and the edge does not start. *)
Lemma dry_run_skips_the_state cli o path :
  run_with_cli cli = Ok o -> check_static o = Ok tt -> state_path cli = Some path -> is_absolute path = true -> state_dir path = DirSymlink -> plan (disk_of path) = [] ->
  snd (boot_with true cli) = Ok Checked /\ exists e, snd (boot_with false cli) = Err (CertState e).
Proof.
  intros R C Sp A D P. unfold boot_with. rewrite R, C. split; [reflexivity|]. unfold read_certificate_admin_json. rewrite Sp.
  unfold certificate_lifecycle_admin_json, prepare. rewrite A, D. cbn. unfold bind, call. rewrite P. cbn. eauto.
Qed.
End Boot.

Definition demo_boot (check : bool) : list boot_event * result boot_error outcome :=
  boot_with (fun _ => None) public_fs (fun _ => false) (fun _ => false) (fun _ => DnsNames [bs "APP.example.org"]) (fun _ => false) (Limits 4096 4096) 8
    (fun _ => {| m_prefix := []; m_docroot := [] |}) (fun _ => None) (fun _ => true) (fun _ => Err []) (fun _ => Ok None) (fun _ => DirMissing)
    (fun _ => {| files := ∅; plan := []; locked := false; contacts := 0 |}) 0 (fun _ => true) (fun _ _ => true) sample_caps 7 check public_cli.
(** A public configuration that passes the dry run and serves. *)
Example demo_boots :
  demo_boot true = ([], Ok Checked) /\
  fst (demo_boot false) = [AdminListening {| sa_ip := V4 2130706433; sa_port := 9000; sa_scope := 0 |}; Listening {| sa_ip := V4 0; sa_port := 443; sa_scope := 0 |}].
Proof. split; vm_compute; reflexivity. Qed.
